(* ===== verification/_CoqProject ===== *)
-Q . S2P
Prelude.v
Format.v
Crc32c.v
Types.v
Text.v
Prost.v
Sorting.v
Placement.v
Session.v
Lease.v
LeaseSafety.v
LeaseExamples.v
AuthorityExamples.v
KeyedQueue.v
Cache.v
CacheSafety.v
CacheExamples.v
OrdMap.v
Head.v
Blx.v
BlxFile.v
Lz4Block.v
BlxBatch.v
BlxScan.v
BlxState.v
BlxExamples.v
Manifest.v
ManifestOverlap.v
Layout.v
ManifestCodec.v
BatchRefs.v
ManifestClosure.v
Gc.v
Collector.v
ManifestExamples.v
CollectorExamples.v
PageFile.v
Journal.v
JournalFormat.v
HostState.v
HostSafety.v
HostExamples.v
ReplicaSpool.v
SpoolSafety.v
ReplicaInbox.v
InboxSafety.v
InboxDurable.v
InboxRestart.v
InboxProtocol.v
ReplicaRecovery.v
RecoverySafety.v
RecoveryPublish.v
RecoveryTool.v
PeerRecovery.v
RecoveryInstall.v
StashProtocol.v
StashSafety.v
StashExamples.v
ArchivePublish.v
ArchiveSafety.v
ArchiveExact.v
ArchiveRead.v
LocalCapture.v
LocalTask.v
LocalRecovery.v
LocalBatch.v
LocalInvariant.v
LocalSteps.v
LocalStart.v
LocalInstall.v
LocalCommit.v
LocalRun.v
LocalRestart.v
LocalCrash.v
CaptureExamples.v
LocalExamples.v
RecoveryExamples.v
ArchiveExamples.v
InboxExamples.v
PeerExamples.v
