(* ===== verification/Prelude.v ===== *)
(** * blockd: a verification of its storage, replication and ownership protocols

    blockd serves the memory and disks of virtual machines from a host's cache,
    keeps them durable in journal records and BLX files on the local device,
    replicates every acknowledged sync to a peer, archives volumes in an object
    store, and moves ownership of a volume by compare-and-swap on its head
    object. This library models the parts of the program that make those
    promises and proves what they rest on. It is a shallow embedding: a
    modelled function of the source is a Gallina function of the same name.

    ** Parts and how they interact

    - Primitives. [Format] (format.rs: encoder, decoder, checksummed frames,
      codecs as classes with exactness laws), [Crc32c], [Types], [Text],
      [Sorting], [OrdMap] (BTreeMap as a sorted association list), [Prost].
    - Blocks and files. [Blx], [BlxFile], [BlxBatch], [BlxScan], [BlxState],
      [BatchRefs] (blx.rs), [PageFile] (page_file.rs): blocks are written in
      batches of immutable BLX files, scanned, compacted, checksummed.
    - Metadata. [Head] (head.rs), [Manifest], [ManifestCodec],
      [ManifestOverlap], [ManifestClosure] (manifest.rs), [Journal],
      [JournalFormat] (journal.rs), [Layout] (layout.rs).
    - The cache. [Cache], [CacheSafety] (cache.rs): which pages are resident,
      dirty, being flushed, and which may be evicted. [HostState], [HostSafety]
      (engine/state.rs): the ledger of the local device and the schedulers;
      [KeyedQueue] (engine/keyed_queue.rs): the fair queues of the engine.
    - The local device. [LocalCapture], [LocalTask] (engine/capture.rs,
      engine/reclaim.rs, engine/state.rs): a capture as a task cut at its awaits
      (compaction, the cut, its batch, each file, both copies of the record, the
      commit) with the cleanups that follow it, the creation of a volume, its
      first protection by a peer (engine/replica.rs), the syncs of a guest
      (engine/host.rs) and a reclaim; [LocalRecovery]
      (engine/recovery.rs, blobscan.rs, the local read of engine/fault.rs): the
      restart that rebuilds a volume from its files. [LocalBatch],
      [LocalInvariant], [LocalSteps], [LocalStart], [LocalInstall],
      [LocalCommit] and [LocalRun] prove what every step keeps,
      [LocalRestart] and [LocalCrash] what a restart makes of a crash and of any
      device.
    - Ownership. [Placement] (placement.rs), [Session] (authority.rs), [Lease],
      [LeaseSafety] (engine/authority.rs, engine/lease.rs): which process may
      serve, decided by one session record per host.
    - Replication. On the primary [StashProtocol], [StashSafety]
      (engine/replica.rs, engine/backup.rs, engine/state.rs): publication,
      replication and clean-up as tasks cut at their awaits around one head. On
      the peer [ReplicaSpool], [SpoolSafety] (replica_spool.rs),
      [ReplicaInbox], [InboxSafety], [InboxDurable], [InboxRestart],
      [InboxProtocol] (engine/replica.rs, engine/recovery.rs).
    - The archive. [ArchivePublish], [ArchiveSafety], [ArchiveExact],
      [ArchiveRead] (engine/backup.rs, engine/store_retry.rs): what one
      publication writes. [Gc] (gc.rs), [Collector] (runtime/collector.rs):
      what is deleted again.
    - Recovery. [ReplicaRecovery], [RecoverySafety], [RecoveryPublish]
      (replica_recovery.rs), [RecoveryTool], [PeerRecovery]
      (bin/peer_stash_recover.rs), [RecoveryInstall]
      (runtime/replica_recovery.rs): a volume is rebuilt from a peer's spool.
    - The files named [...Examples] apply the theorems to computed values and
      hold the counterexamples.

    ** Conventions

    Bytes are lists of integers below 256; machine integers are integers with
    their width written out ([fits], [checked_add], [saturating_add]). Code that
    returns [Result] or may panic is an [outcome] ([Ok], [Err], [Panic]); code
    that also changes state is an [action]; an [Option] that a caller waits on
    is an outcome with error [tt]. An async task is a program counter per await
    and a step function; a system is the list of events that drive the steps,
    and its invariants are proved by induction over that list, so that every
    interleaving, outage, lost answer and crash the events describe is covered.
    Code outside the repository is a class with laws: [Crc] (crc_fast), [Lz4]
    (lz4_flex), [Prost] (prost), [PageSize] (the system page size); each is
    discharged by a concrete instance in [Crc32c], [Lz4Block],
    [AuthorityExamples] and the example files.

    ** What the theorems show

    - Durability ([local_crash_recovery], [restart_trusts_whole_records]):
      whatever a crash leaves on the device of a volume, the restart finds the
      newest committed record or the one just written, and every page of it, as
      long as no capture is given up between its files; and whatever is on a
      device, a restart trusts only records that are whole and that reach every
      promised sync.
    - Formats ([HeadRecord_exact], [migration_state_exact], [batch_round_trip],
      [frame_rejects_damage], [scan_rejects_one_byte]): what
      is written is read back, what is accepted is canonical, damage is found,
      no input panics.
    - Files and archives ([compaction_keeps_newest], [prepare_archive_exact],
      [closure_reads_what_was_published], [overlap_limit_exact],
      [batch_files_listable], [captured_pages_readable]): the newest version of every block survives
      capture, compaction and publication and is found again.
    - Deletion ([plan_exact], [collection_safe], [pass_exact]): exactly the
      unreachable objects past their grace are deleted.
    - Replication ([acknowledged_survives], [acknowledged_sync_recoverable],
      [spool_crash_recovery], [head_writes_fenced], [replication_acks_named]): an
      acknowledged sync is on a peer, which said so and which the head names,
      survives the crashes of that peer and is recovered, for sources that commit
      in order and releases that the device does not cut short.
    - Recovery ([recovery_export_exact], [recovery_publication_exact],
      [install_exact], [recovery_fetch_exact], [recovery_fetch_terminates]).
    - Ownership ([lease_exclusive]): two processes of a host never serve at the
      same time under the stated timing assumptions.
    - Resources ([cache_invariant], [eviction_exact], [disk_ledger_exact],
      [scheduled_fair]).
    - Limits of the design ([publication_drops_assignment],
      [archive_pointer_regresses], [orphan_manifest_blocks],
      [interrupted_release_loses_commit], [release_may_stick],
      [pass_race_deletes_live_volume], [incomplete_batch_loses_volume],
      [pending_tombstone_drops_page], [reclaim_loses_local_record]):
      conditions and runs in which the modelled code loses what the theorems
      above keep under theirs.

    ** Fuel

    Loops over data are structural. [report_loop] of the recovery tool takes
    fuel: one round more than the keys it can ask for is enough
    ([recovery_fetch_terminates]). [scan_loop] of a spool, [chunks_of] of a
    snapshot and the LZ4 block decoder consume at least one byte per round, so
    the length of the input is enough; [bisect] narrows a range of at most the
    length of its list, and [advance_loop] of the cache passes the distance
    between its two sequence numbers. Tasks that retry for ever are step functions and need none.

    ** Not modelled

    - Guest memory, page faults and the drain of a capture (most of
      engine/fault.rs, the write protection and pauses of engine/capture.rs,
      crates/hostmem): they order accesses to memory shared with a kernel. A
      captured page is what the memory held at the cut.
    - Live migration (engine/migration.rs) beyond its journal format, cloning
      from bases (engine/lineage.rs, engine/restore.rs) and the reconciliation of
      a restarted primary with its head (the rest of engine/backup.rs).
    - The daemon around the engine (crates/runtime: actors, HTTP, metrics,
      Firecracker and GCS clients, crates/transport): I/O and configuration.
    - The executor (crates/exec), whose effect is the interleaving that the
      step functions quantify over, and the simulator, demo, workload and guest
      programs, which test the daemon. *)

From Stdlib Require Export ZArith Lia.
From stdpp Require Export base tactics option list numbers.

Declare Scope rust_scope.
Delimit Scope rust_scope with rust.
#[global] Open Scope Z_scope.
#[global] Open Scope rust_scope.

(** ** Fallible and panicking code

    A Rust function that returns [Result<A, E>] and may also panic (a failed
    [assert!], [expect], slice index or arithmetic check) is a value of
    [outcome E A]. Functions that cannot return [Err] are typed with an
    arbitrary [E]. *)
Inductive outcome (E A : Type) : Type :=
| Ok (a : A)
| Err (e : E)
| Panic.
Arguments Ok {E A} a.
Arguments Err {E A} e.
Arguments Panic {E A}.

Definition outcome_bind {E A B} (f : A -> outcome E B) (c : outcome E A)
  : outcome E B :=
  match c with
  | Ok a => f a
  | Err e => Err e
  | Panic => Panic
  end.

Notation "'let?' x ':=' c 'in' k" := (outcome_bind (fun x => k) c)
  (at level 10, x pattern, c at level 200, k at level 200,
   format "'[v' 'let?'  x  ':='  c  'in' '/' k ']'") : rust_scope.
Notation "'check?' b 'or' e 'in' k" := (if b then k else Err e)
  (at level 10, b at level 99, e at level 99, k at level 200,
   format "'[v' 'check?'  b  'or'  e  'in' '/' k ']'") : rust_scope.
Notation "'assert!' b 'in' k" := (if b then k else Panic)
  (at level 10, b at level 99, k at level 200,
   format "'[v' 'assert!'  b  'in' '/' k ']'") : rust_scope.

(** [Result::map_err], [Option::ok_or], [Result::ok] (a panic stays a panic)
    and [Option::expect]. *)
Definition map_err {E F A} (f : E -> F) (c : outcome E A) : outcome F A :=
  match c with Ok a => Ok a | Err e => Err (f e) | Panic => Panic end.
Definition ok_or {E A} (o : option A) (e : E) : outcome E A :=
  match o with Some a => Ok a | None => Err e end.
Definition result_ok {E F A} (c : outcome E A) : outcome F (option A) :=
  match c with Ok a => Ok (Some a) | Err _ => Ok None | Panic => Panic end.
Definition expect {E A} (o : option A) : outcome E A :=
  match o with Some a => Ok a | None => Panic end.

Definition is_ok {E A} (c : outcome E A) : bool :=
  match c with Ok _ => true | _ => false end.

(** A loop [for x in l { acc = f(acc, x)?; }]. *)
Fixpoint fold_outcome {E A B} (f : A -> B -> outcome E A) (acc : A) (l : list B)
  : outcome E A :=
  match l with
  | [] => Ok acc
  | x :: l => let? acc := f acc x in fold_outcome f acc l
  end.

(** [iter.map(f).collect::<Result<Vec<_>, _>>()]. *)
Fixpoint collect_outcome {E A B} (f : A -> outcome E B) (l : list A)
  : outcome E (list B) :=
  match l with
  | [] => Ok []
  | x :: l => let? y := f x in let? ys := collect_outcome f l in Ok (y :: ys)
  end.

Definition no_panic {E A} (c : outcome E A) : Prop := c <> Panic.

Create HintDb panics.

Lemma no_panic_Ok {E A} (a : A) : no_panic (@Ok E A a).
Proof. discriminate. Qed.
Lemma no_panic_Err {E A} (e : E) : no_panic (@Err E A e).
Proof. discriminate. Qed.
Lemma no_panic_bind {E A B} (f : A -> outcome E B) c :
  no_panic c -> (forall a, c = Ok a -> no_panic (f a)) ->
  no_panic (outcome_bind f c).
Proof. unfold no_panic. destruct c; simpl; auto; congruence. Qed.
Lemma no_panic_map_err {E F A} (f : E -> F) (c : outcome E A) :
  no_panic c -> no_panic (map_err f c).
Proof. unfold no_panic. destruct c; simpl; congruence. Qed.
Lemma no_panic_ok_or {E A} (o : option A) (e : E) : no_panic (ok_or o e).
Proof. destruct o; discriminate. Qed.
Lemma no_panic_result_ok {E F A} (c : outcome E A) :
  no_panic c -> no_panic (@result_ok E F A c).
Proof. unfold no_panic. destruct c; simpl; congruence. Qed.
Lemma no_panic_if {E A} (b : bool) (c d : outcome E A) :
  (b = true -> no_panic c) -> (b = false -> no_panic d) ->
  no_panic (if b then c else d).
Proof. destruct b; auto. Qed.
Lemma no_panic_fold {E A B} (f : A -> B -> outcome E A) l acc :
  (forall a x, In x l -> no_panic (f a x)) -> no_panic (fold_outcome f acc l).
Proof.
  revert acc. induction l as [|x l IH]; intros acc Hf; [discriminate|].
  simpl. apply no_panic_bind; [apply Hf; now left|].
  intros a _. apply IH. intros a' y Hy. apply Hf. now right.
Qed.
Lemma no_panic_collect {E A B} (f : A -> outcome E B) l :
  (forall x, In x l -> no_panic (f x)) -> no_panic (collect_outcome f l).
Proof.
  induction l as [|x l IH]; intros Hf; [discriminate|]. simpl.
  apply no_panic_bind; [apply Hf; now left|]. intros y _.
  apply no_panic_bind; [|discriminate]. apply IH. intros; apply Hf; now right.
Qed.
#[export] Hint Resolve no_panic_Ok no_panic_Err no_panic_map_err no_panic_ok_or
  no_panic_result_ok : panics.

Lemma outcome_bind_Ok {E A B} (f : A -> outcome E B) c b :
  outcome_bind f c = Ok b <-> exists a, c = Ok a /\ f a = Ok b.
Proof.
  split; [|intros (a & -> & H); exact H].
  destruct c; simpl; intros; try discriminate. eauto.
Qed.

Lemma collect_outcome_Ok {E A B} (f : A -> outcome E B) l ys :
  collect_outcome f l = Ok ys <-> Forall2 (fun x y => f x = Ok y) l ys.
Proof.
  revert ys; induction l as [|x l IH]; intros ys; simpl.
  - split; [intros [= <-]; constructor|]. intros H; inversion H; reflexivity.
  - rewrite outcome_bind_Ok. split.
    + intros (y & Hy & (zs & Hzs & [= <-])%outcome_bind_Ok).
      constructor; [exact Hy|]. now apply IH.
    + inversion 1; subst. eexists; split; [eassumption|].
      apply outcome_bind_Ok. eexists; split; [apply IH; eassumption|reflexivity].
Qed.

Lemma fold_outcome_app {E A B} (f : A -> B -> outcome E A) l k acc :
  fold_outcome f acc (l ++ k) = outcome_bind (fun acc => fold_outcome f acc k) (fold_outcome f acc l).
Proof. revert acc. induction l as [|x l IH]; intros acc; simpl; [reflexivity|]. destruct (f acc x); simpl; auto. Qed.

(** Inversion of a successful run, one sequencing step at a time. *)
Ltac inv_ok :=
  repeat match goal with
  | H : outcome_bind _ _ = Ok _ |- _ =>
      let a := fresh "a" in let Ha := fresh "Ha" in
      apply outcome_bind_Ok in H; destruct H as (a & Ha & H)
  | H : (if ?b then _ else Err _) = Ok _ |- _ =>
      let E := fresh "Hc" in destruct b eqn:E; [|discriminate H]
  | H : (if ?b then Err _ else _) = Ok _ |- _ =>
      let E := fresh "Hc" in destruct b eqn:E; [discriminate H|]
  | H : (if ?b then _ else Panic) = Ok _ |- _ =>
      let E := fresh "Hc" in destruct b eqn:E; [|discriminate H]
  | H : ok_or ?o _ = Ok _ |- _ =>
      let E := fresh "Ho" in destruct o eqn:E; [|discriminate H]; simpl in H
  | H : map_err _ ?c = Ok _ |- _ =>
      let E := fresh "Ho" in destruct c eqn:E; [|discriminate H|discriminate H]; simpl in H
  | H : Ok _ = Ok _ |- _ => injection H; clear H; intros; subst
  | H : Err _ = Ok _ |- _ => discriminate H
  | H : Panic = Ok _ |- _ => discriminate H
  end.

Ltac no_panic_step :=
  match goal with
  | |- no_panic (outcome_bind _ _) => apply no_panic_bind; [|intros]
  | |- no_panic (if _ then _ else _) => apply no_panic_if; intros
  | |- no_panic (match ?x with _ => _ end) => destruct x
  | |- no_panic (let '_ := ?x in _) => destruct x
  | |- no_panic _ => solve [auto with panics]
  end.
Ltac no_panic := repeat no_panic_step.

(** ** Stateful code

    A method that changes a state, may fail and keeps the changes made before
    the failure (an [async fn (&mut self)] with [?]). *)
Definition action (S E A : Type) : Type := S -> S * outcome E A.
Definition act_ret {S E A} (a : A) : action S E A := fun s => (s, Ok a).
Definition act_fail {S E A} (e : E) : action S E A := fun s => (s, Err e).
Definition act_lift {S E A} (c : outcome E A) : action S E A := fun s => (s, c).
Definition act_get {S E} : action S E S := fun s => (s, Ok s).
Definition act_modify {S E} (f : S -> S) : action S E unit := fun s => (f s, Ok tt).
Definition act_bind {S E A B} (f : A -> action S E B) (c : action S E A) : action S E B :=
  fun s => match c s with
           | (s, Ok a) => f a s
           | (s, Err e) => (s, Err e)
           | (s, Panic) => (s, Panic)
           end.
Notation "'let!' x ':=' c 'in' k" := (act_bind (fun x => k) c)
  (at level 10, x pattern, c at level 200, k at level 200,
   format "'[v' 'let!'  x  ':='  c  'in' '/' k ']'") : rust_scope.
Fixpoint act_fold {S E A B} (f : A -> B -> action S E A) (acc : A) (l : list B) : action S E A :=
  match l with
  | [] => act_ret acc
  | x :: l => let! acc := f acc x in act_fold f acc l
  end.
(** A Hoare rule for loops: an invariant on the state and the accumulator. *)
Lemma act_fold_inv {S E A B} (I : list B -> S -> A -> Prop) (f : A -> B -> action S E A) l done s acc :
  (forall done x s acc, In x l -> I done s acc ->
     exists s' acc', f acc x s = (s', Ok acc') /\ I (done ++ [x]) s' acc') ->
  I done s acc ->
  exists s' acc', act_fold f acc l s = (s', Ok acc') /\ I (done ++ l) s' acc'.
Proof.
  revert done s acc. induction l as [|x l IH]; intros done s acc Hf HI; simpl.
  - exists s, acc. now rewrite app_nil_r.
  - destruct (Hf done x s acc (or_introl eq_refl) HI) as (s1 & a1 & H1 & HI1).
    unfold act_bind. rewrite H1.
    destruct (IH (done ++ [x]) s1 a1) as (s2 & a2 & H2 & HI2); [intros; apply Hf; auto with datatypes|auto|].
    exists s2, a2. now rewrite <- app_assoc in HI2.
Qed.

(** ** Machine integers

    An unsigned integer of width w is a [Z] together with [fits W v] where [W]
    is its number of values. The sizes are notations so that [lia] sees the
    literals. *)
Abbreviation W8 := 256 (only parsing).
Abbreviation W16 := 65536 (only parsing).
Abbreviation W32 := 4294967296 (only parsing).
Abbreviation W64 := 18446744073709551616 (only parsing).
Abbreviation u32_MAX := 4294967295 (only parsing).
Abbreviation u64_MAX := 18446744073709551615 (only parsing).

Definition fits (w v : Z) : Prop := 0 <= v < w.

#[global] Instance fits_dec w v : Decision (fits w v).
Proof. unfold fits. apply _. Defined.

Definition checked_add (w a b : Z) : option Z :=
  if a + b <? w then Some (a + b) else None.
Definition checked_sub (a b : Z) : option Z :=
  if b <=? a then Some (a - b) else None.
Definition checked_mul (w a b : Z) : option Z :=
  if a * b <? w then Some (a * b) else None.
Definition saturating_sub (a b : Z) : Z := Z.max 0 (a - b).
Definition saturating_add (w a b : Z) : Z := Z.min (w - 1) (a + b).
Definition wrapping_add (w a b : Z) : Z := (a + b) mod w.
Definition wrapping_mul (w a b : Z) : Z := (a * b) mod w.

Lemma checked_add_Some w a b : a + b < w -> checked_add w a b = Some (a + b).
Proof. intros H. unfold checked_add. now rewrite (proj2 (Z.ltb_lt _ _) H). Qed.
Lemma checked_add_inv w a b c : checked_add w a b = Some c -> c = a + b /\ a + b < w.
Proof. unfold checked_add. destruct (Z.ltb_spec (a + b) w); [|discriminate]. now intros [= <-]. Qed.

(** [usize] is 64 bits wide on every supported host; a slice length is the
    [Z] of its list length. *)
Definition len {A} (l : list A) : Z := Z.of_nat (length l).

Lemma len_nonneg {A} (l : list A) : 0 <= len l.
Proof. unfold len. lia. Qed.
Lemma len_app {A} (l k : list A) : len (l ++ k) = len l + len k.
Proof. unfold len. rewrite length_app. lia. Qed.
Lemma len_cons {A} (x : A) l : len (x :: l) = 1 + len l.
Proof. unfold len. simpl length. lia. Qed.
Lemma len_nil {A} : len (@nil A) = 0.
Proof. reflexivity. Qed.
Lemma len_to_nat {A} (l : list A) : Z.to_nat (len l) = length l.
Proof. unfold len. lia. Qed.
Lemma len_map {A B} (f : A -> B) l : len (map f l) = len l.
Proof. unfold len. now rewrite length_map. Qed.

Lemma len_filter_le {A} (f : A -> bool) l : len (List.filter f l) <= len l.
Proof. induction l as [|x l IH]; simpl; [lia|]. destruct (f x); rewrite ?len_cons; lia. Qed.
Lemma len_filter_mono {A} (f g : A -> bool) l :
  (forall x, In x l -> f x = true -> g x = true) -> len (List.filter f l) <= len (List.filter g l).
Proof.
  induction l as [|x l IH]; intros H; simpl; [lia|].
  specialize (IH (fun y Hy => H y (or_intror Hy))). pose proof (H x (or_introl eq_refl)) as Hx.
  destruct (f x); [rewrite Hx by reflexivity|destruct (g x)]; rewrite ?len_cons; lia.
Qed.

Create Rewrite HintDb len.
#[export] Hint Rewrite @len_app @len_cons @len_nil @len_map : len.

Lemma testbit_high n a : 0 <= n -> 0 <= a < 2 ^ n ->
  forall i, n <= i -> Z.testbit a i = false.
Proof.
  intros Hn Ha i Hi.
  rewrite <- (Z.mod_small a (2 ^ n)) by lia.
  now apply Z.mod_pow2_bits_high.
Qed.

Lemma bits_bound n a : 0 <= n -> 0 <= a ->
  (forall i, n <= i -> Z.testbit a i = false) -> a < 2 ^ n.
Proof.
  intros Hn Ha H.
  assert (a mod 2 ^ n = a) as <-.
  { apply Z.bits_inj'. intros i Hi. destruct (Z.lt_ge_cases i n).
    - now apply Z.mod_pow2_bits_low.
    - rewrite Z.mod_pow2_bits_high by lia. symmetry. now apply H. }
  apply Z.mod_pos_bound. lia.
Qed.

(** Exclusive or stays inside a power-of-two width. *)
Lemma lxor_bound n a b : 0 <= n -> 0 <= a < 2 ^ n -> 0 <= b < 2 ^ n ->
  0 <= Z.lxor a b < 2 ^ n.
Proof.
  intros Hn Ha Hb. split; [now apply Z.lxor_nonneg|].
  apply bits_bound; [lia|now apply Z.lxor_nonneg|].
  intros i Hi. rewrite Z.lxor_spec, (testbit_high n a), (testbit_high n b) by lia.
  reflexivity.
Qed.

#[global] Instance In_decision {A} `{EqDecision A} (x : A) (l : list A) : Decision (In x l).
Proof. destruct (decide (x ∈ l)) as [H|H]; [left|right]; now rewrite <- list_elem_of_In. Defined.

(** ** Bytes *)
Abbreviation bytes := (list Z).
Definition is_byte (b : Z) : Prop := fits W8 b.
Definition all_bytes (bs : bytes) : Prop := Forall is_byte bs.

#[global] Instance is_byte_dec b : Decision (is_byte b).
Proof. unfold is_byte. apply _. Defined.
#[global] Instance all_bytes_dec bs : Decision (all_bytes bs).
Proof. unfold all_bytes. apply _. Defined.

Definition bytes_eqb (a b : bytes) : bool := bool_decide (a = b).

(** [to_le_bytes] and [from_le_bytes] of the standard integer types. *)
Fixpoint to_le (n : nat) (v : Z) : bytes :=
  match n with
  | O => []
  | S n => v mod 256 :: to_le n (v / 256)
  end.
Fixpoint from_le (bs : bytes) : Z :=
  match bs with
  | [] => 0
  | b :: bs => b + 256 * from_le bs
  end.

Lemma length_to_le n v : length (to_le n v) = n.
Proof. revert v; induction n; intros v; simpl; auto. Qed.
Lemma len_to_le n v : len (to_le n v) = Z.of_nat n.
Proof. unfold len. now rewrite length_to_le. Qed.
#[export] Hint Rewrite len_to_le : len.

Lemma to_le_bytes n v : all_bytes (to_le n v).
Proof.
  unfold all_bytes. revert v; induction n; intros v; simpl; constructor; auto.
  unfold is_byte, fits. pose proof (Z.mod_pos_bound v 256). lia.
Qed.

Lemma from_le_to_le n v : fits (256 ^ Z.of_nat n) v -> from_le (to_le n v) = v.
Proof.
  unfold fits. revert v; induction n as [|n IH]; intros v Hv.
  - change (256 ^ Z.of_nat 0) with 1 in Hv. simpl. lia.
  - simpl. rewrite IH.
    + pose proof (Z.div_mod v 256). lia.
    + rewrite Nat2Z.inj_succ, Z.pow_succ_r in Hv by lia.
      split; [apply Z.div_pos; lia|apply Z.div_lt_upper_bound; lia].
Qed.

Lemma from_le_range bs : all_bytes bs -> fits (256 ^ len bs) (from_le bs).
Proof.
  unfold fits. induction 1 as [|b bs Hb Hbs IH]; [simpl; unfold len; simpl; lia|].
  rewrite len_cons, Z.add_1_l, Z.pow_succ_r by apply len_nonneg. simpl.
  unfold is_byte, fits in Hb. lia.
Qed.

Lemma to_le_from_le bs : all_bytes bs -> to_le (length bs) (from_le bs) = bs.
Proof.
  induction 1 as [|b bs Hb Hbs IH]; [reflexivity|]. simpl.
  unfold is_byte, fits in Hb. f_equal.
  - rewrite Z.mul_comm, Z.mod_add, Z.mod_small by lia. reflexivity.
  - rewrite Z.mul_comm, Z.div_add, Z.div_small by lia. exact IH.
Qed.

Lemma all_bytes_app a b : all_bytes (a ++ b) <-> all_bytes a /\ all_bytes b.
Proof. apply Forall_app. Qed.
Lemma all_bytes_take n a : all_bytes a -> all_bytes (take n a).
Proof. apply Forall_take. Qed.
Lemma all_bytes_drop n a : all_bytes a -> all_bytes (drop n a).
Proof. apply Forall_drop. Qed.
Lemma to_le_1 v : to_le 1 v = [v mod 256].
Proof. reflexivity. Qed.
#[global] Opaque to_le.
Create HintDb bytes.
#[export] Hint Resolve to_le_bytes all_bytes_take all_bytes_drop : bytes.

(** The four-character magic constants, [u32::from_le_bytes( *b"....")]. *)
Definition magic (a b c d : Z) : Z := from_le [a; b; c; d].

Lemma magic_fits a b c d : all_bytes [a; b; c; d] -> fits W32 (magic a b c d).
Proof. intros H. exact (from_le_range _ H). Qed.
Ltac magic_tac := apply magic_fits; repeat constructor; discriminate.

(** ** Slices: [&bytes[i..j]] panics out of range; [bytes.get(i..j)] does not. *)
Definition slice_get (bs : bytes) (i j : Z) : option bytes :=
  if (i <=? j) && (j <=? len bs)
  then Some (take (Z.to_nat (j - i)) (drop (Z.to_nat i) bs))
  else None.
Definition slice_index {E} (bs : bytes) (i j : Z) : outcome E bytes :=
  expect (slice_get bs i j).

Lemma slice_index_no_panic {E} bs i j :
  i <= j -> j <= len bs -> no_panic (@slice_index E bs i j).
Proof.
  intros Hi Hj. unfold slice_index, slice_get.
  rewrite (proj2 (Z.leb_le i j)), (proj2 (Z.leb_le j (len bs))) by lia. discriminate.
Qed.

Lemma slice_get_app a b c :
  slice_get (a ++ b ++ c) (len a) (len a + len b) = Some b.
Proof.
  unfold slice_get. rewrite !len_app.
  rewrite (proj2 (Z.leb_le (len a) (len a + len b))) by (pose proof (len_nonneg b); lia).
  rewrite (proj2 (Z.leb_le (len a + len b) _)) by (pose proof (len_nonneg c); lia).
  simpl. f_equal. rewrite len_to_nat, drop_app_length.
  replace (len a + len b - len a) with (len b) by lia.
  now rewrite len_to_nat, take_app_length.
Qed.
