(* ===== verification/Format.v ===== *)
(** * Wire and storage primitives ([crates/core/src/format.rs])

    The little-endian encoder [Enc], the strict decoder [Dec] and checksummed
    frames. The CRC comes from the third-party crate [crc_fast]: it is the
    operation of the class [Crc], and what the code relies on is the class
    [CrcLaws]. [Crc32c.v] discharges both for the Castagnoli polynomial.

    Two proof engines for every codec of the library are set up here:
    [reads d bs x] (the decoder returns [x] on [bs] and leaves the rest) and
    [dec_sound d enc P] (a successful run consumed exactly [enc x]). *)

From S2P Require Import Prelude.

(** The only decode error of the module. *)
Inductive DecodeError := DecodeErr.

(** ** The checksum the frames use *)
Class Crc := crc32c : bytes -> Z.

(** CRC-32C returns a [u32] and detects any change confined to one byte (a
    CRC detects every error burst no longer than its degree). *)
Class CrcLaws (C : Crc) : Prop := {
  crc32c_range : forall bs, fits W32 (crc32c bs);
  crc32c_one_byte : forall p q x y,
    is_byte x -> is_byte y -> x <> y ->
    all_bytes p -> all_bytes q ->
    crc32c (p ++ x :: q) <> crc32c (p ++ y :: q) }.

Definition checksum64 `{Crc} (bs : bytes) : Z :=
  let low := crc32c bs in
  let reversed := reverse bs in
  Z.lor (Z.shiftl (crc32c reversed) 32) low.

(** ** [Enc]: an append-only buffer *)
Abbreviation Enc := (list Z) (only parsing).
Definition Enc_new : Enc := [].
Definition Enc_u8 (v : Z) (e : Enc) : Enc := e ++ [v].
Definition Enc_u16 (v : Z) (e : Enc) : Enc := e ++ to_le 2 v.
Definition Enc_u32 (v : Z) (e : Enc) : Enc := e ++ to_le 4 v.
Definition Enc_u64 (v : Z) (e : Enc) : Enc := e ++ to_le 8 v.
Definition Enc_bytes (v : bytes) (e : Enc) : Enc := e ++ v.
Definition Enc_finish (e : Enc) : bytes := e.

Notation "e |> f" := (f e) (at level 45, left associativity, only parsing) : rust_scope.

(** [for x in xs { x.encode_into(&mut e) }]. *)
Definition Enc_each {A} (f : A -> Enc -> Enc) (xs : list A) (e : Enc) : Enc :=
  fold_left (fun e x => f x e) xs e.

(** ** [Dec]: a strict reader over the remaining bytes *)
Definition dec (A : Type) : Type := bytes -> outcome DecodeError (A * bytes).

Definition dec_ret {A} (a : A) : dec A := fun rest => Ok (a, rest).
Definition dec_fail {A} : dec A := fun _ => Err DecodeErr.
Definition dec_bind {A B} (f : A -> dec B) (d : dec A) : dec B :=
  fun rest => let? (a, rest) := d rest in f a rest.
Definition dec_lift {A} (c : outcome DecodeError A) : dec A :=
  fun rest => let? a := c in Ok (a, rest).

Notation "'let*' x ':=' d 'in' k" := (dec_bind (fun x => k) d)
  (at level 10, x pattern, d at level 200, k at level 200,
   format "'[v' 'let*'  x  ':='  d  'in' '/' k ']'") : rust_scope.
Notation "'guard*' b 'in' k" := (if b then k else dec_fail)
  (at level 10, b at level 99, k at level 200,
   format "'[v' 'guard*'  b  'in' '/' k ']'") : rust_scope.

Definition Dec_take (n : Z) : dec bytes := fun rest =>
  if len rest <? n then Err DecodeErr
  else Ok (take (Z.to_nat n) rest, drop (Z.to_nat n) rest).
Definition Dec_u8 : dec Z := let* b := Dec_take 1 in dec_ret (from_le b).
Definition Dec_u16 : dec Z := let* b := Dec_take 2 in dec_ret (from_le b).
Definition Dec_u32 : dec Z := let* b := Dec_take 4 in dec_ret (from_le b).
Definition Dec_u64 : dec Z := let* b := Dec_take 8 in dec_ret (from_le b).
Definition Dec_bytes (n : Z) : dec bytes := Dec_take n.
Definition Dec_remaining : dec Z := fun rest => Ok (len rest, rest).
Definition Dec_finish : dec unit := fun rest =>
  match rest with [] => Ok (tt, []) | _ => Err DecodeErr end.

(** [for _ in 0..n { xs.push(d()?) }]. *)
Fixpoint dec_repeat {A} (n : nat) (d : dec A) : dec (list A) :=
  match n with
  | O => dec_ret []
  | S n => let* x := d in let* xs := dec_repeat n d in dec_ret (x :: xs)
  end.

(** [Dec::new(payload)] followed by the reads of [d]. *)
Definition Dec_run {A} (d : dec A) (payload : bytes) : outcome DecodeError A :=
  let? (a, _) := d payload in Ok a.

(** ** Checksummed frames: [magic | len | crc | payload] *)
Definition FRAME_HEADER : Z := 12.

Definition seal_frame `{Crc} {E} (magic : Z) (payload : bytes) : outcome E bytes :=
  assert! len payload <? W32 in
  Ok (Enc_new |> Enc_u32 magic |> Enc_u32 (len payload)
        |> Enc_u32 (crc32c payload) |> Enc_bytes payload |> Enc_finish).

Definition open_frame `{Crc} (magic : Z) (bs : bytes) : outcome DecodeError bytes :=
  Dec_run
    (let* m := Dec_u32 in
     guard* m =? magic in
     let* len := Dec_u32 in
     let* crc := Dec_u32 in
     let* payload := Dec_bytes len in
     let* _ := Dec_finish in
     guard* crc32c payload =? crc in
     dec_ret payload) bs.

(** ** Reading back what was written *)
Definition reads {A} (d : dec A) (bs : bytes) (x : A) : Prop :=
  forall rest, d (bs ++ rest) = Ok (x, rest).

Create HintDb reads.
Create HintDb sound.
Create Rewrite HintDb enc.

Lemma reads_ret {A} (x : A) : reads (dec_ret x) [] x.
Proof. intros rest. reflexivity. Qed.
Lemma reads_bind {A B} (d : dec A) (f : A -> dec B) a b x y :
  reads d a x -> reads (f x) b y -> reads (dec_bind f d) (a ++ b) y.
Proof.
  intros Hd Hf rest. unfold dec_bind. rewrite <- app_assoc, Hd. simpl. apply Hf.
Qed.
Lemma reads_bind_last {A B} (d : dec A) (f : A -> dec B) a x y :
  reads d a x -> reads (f x) [] y -> reads (dec_bind f d) a y.
Proof. intros Hd Hf. rewrite <- (app_nil_r a). now eapply reads_bind. Qed.
Lemma reads_lift {A B} (c : outcome DecodeError A) (f : A -> dec B) a bs y :
  c = Ok a -> reads (f a) bs y -> reads (dec_bind f (dec_lift c)) bs y.
Proof. intros -> Hf rest. unfold dec_bind, dec_lift. simpl. apply Hf. Qed.
Lemma reads_guard {A} (b : bool) (d : dec A) bs x :
  b = true -> reads d bs x -> reads (if b then d else dec_fail) bs x.
Proof. intros -> H. exact H. Qed.
Lemma reads_guard_neg {A} (b : bool) (d : dec A) bs x :
  b = false -> reads d bs x -> reads (if b then dec_fail else d) bs x.
Proof. intros -> H. exact H. Qed.

Lemma reads_take bs : reads (Dec_take (len bs)) bs bs.
Proof.
  intros rest. unfold Dec_take. rewrite len_app.
  rewrite (proj2 (Z.ltb_ge (len bs + len rest) (len bs)))
    by (pose proof (len_nonneg rest); lia).
  now rewrite len_to_nat, take_app_length, drop_app_length.
Qed.

Lemma reads_word n (w : Z) v :
  w = 256 ^ Z.of_nat n -> fits w v ->
  reads (let* b := Dec_take (Z.of_nat n) in dec_ret (from_le b)) (to_le n v) v.
Proof.
  intros -> Hv rest. unfold dec_bind.
  replace (Z.of_nat n) with (len (to_le n v)) by apply len_to_le.
  rewrite reads_take. simpl. unfold dec_ret. now rewrite from_le_to_le.
Qed.
Lemma reads_u8 v : fits W8 v -> reads Dec_u8 [v] v.
Proof.
  intros Hv. replace [v] with (to_le 1 v).
  - now apply (reads_word 1 W8).
  - rewrite to_le_1. now rewrite Z.mod_small.
Qed.
Lemma reads_u16 v : fits W16 v -> reads Dec_u16 (to_le 2 v) v.
Proof. now apply (reads_word 2 W16). Qed.
Lemma reads_u32 v : fits W32 v -> reads Dec_u32 (to_le 4 v) v.
Proof. now apply (reads_word 4 W32). Qed.
Lemma reads_u64 v : fits W64 v -> reads Dec_u64 (to_le 8 v) v.
Proof. now apply (reads_word 8 W64). Qed.
Lemma reads_bytes bs n : n = len bs -> reads (Dec_bytes n) bs bs.
Proof. intros ->. apply reads_take. Qed.
#[export] Hint Resolve reads_ret reads_u8 reads_u16 reads_u32 reads_u64 reads_bytes
  : reads.

Lemma reads_repeat {A} (d : dec A) (enc : A -> bytes) xs n :
  n = length xs -> (forall x, In x xs -> reads d (enc x) x) ->
  reads (dec_repeat n d) (concat (map enc xs)) xs.
Proof.
  intros ->. induction xs as [|x xs IH]; intros H; simpl; [apply reads_ret|].
  apply reads_bind with x; [apply H; now left|].
  apply reads_bind_last with xs; [|apply reads_ret].
  apply IH. intros y Hy. apply H. now right.
Qed.

(** A decoder that ends with [d.finish()?] succeeds on exactly the bytes. *)
Lemma Dec_run_reads {A B} (d : dec A) (f : A -> dec B) bs x y :
  reads d bs x -> f x [] = Ok (y, []) -> Dec_run (dec_bind f d) bs = Ok y.
Proof.
  intros Hd Hf. unfold Dec_run, dec_bind.
  rewrite <- (app_nil_r bs), Hd. simpl. now rewrite Hf.
Qed.

Lemma reads_run {A} (d : dec A) bs x : reads d bs x -> Dec_run d bs = Ok x.
Proof. intros Hd. unfold Dec_run. rewrite <- (app_nil_r bs), Hd. reflexivity. Qed.

(** Decoders that consume the rest of their input, so that they can contain
    [Dec_finish]: [reads_all d bs x] when [bs] is the whole input. *)
Definition reads_all {A} (d : dec A) (bs : bytes) (x : A) : Prop :=
  Dec_run d bs = Ok x.

Lemma reads_all_bind {A B} (d : dec A) (f : A -> dec B) a b x y :
  reads d a x -> reads_all (f x) b y -> reads_all (dec_bind f d) (a ++ b) y.
Proof.
  unfold reads_all, Dec_run, dec_bind. intros Hd Hf. rewrite Hd. exact Hf.
Qed.
Lemma reads_all_bind_last {A B} (d : dec A) (f : A -> dec B) a x y :
  reads d a x -> reads_all (f x) [] y -> reads_all (dec_bind f d) a y.
Proof. intros. rewrite <- (app_nil_r a). now eapply reads_all_bind. Qed.
Lemma reads_all_finish {B} (f : unit -> dec B) y :
  reads_all (f tt) [] y -> reads_all (dec_bind f Dec_finish) [] y.
Proof. exact (fun H => H). Qed.
Lemma reads_all_ret {A} (x : A) bs : reads_all (dec_ret x) bs x.
Proof. reflexivity. Qed.
Lemma reads_all_lift {A B} (c : outcome DecodeError A) (f : A -> dec B) a bs y :
  c = Ok a -> reads_all (f a) bs y -> reads_all (dec_bind f (dec_lift c)) bs y.
Proof. intros ->. exact (fun H => H). Qed.
Lemma reads_all_guard {A} (b : bool) (d : dec A) bs x :
  b = true -> reads_all d bs x -> reads_all (if b then d else dec_fail) bs x.
Proof. intros ->. exact (fun H => H). Qed.
Lemma reads_all_guard_neg {A} (b : bool) (d : dec A) bs x :
  b = false -> reads_all d bs x -> reads_all (if b then dec_fail else d) bs x.
Proof. intros ->. exact (fun H => H). Qed.

(** ** Encoders only append *)
Definition appends (f : Enc -> Enc) : Prop := forall e, f e = e ++ f [].

Lemma Enc_each_app {A} (f : A -> Enc -> Enc) xs e :
  (forall x, appends (f x)) ->
  Enc_each f xs e = e ++ concat (map (fun x => f x []) xs).
Proof.
  intros Hf. revert e. unfold Enc_each. induction xs as [|x xs IH]; intros e; simpl.
  - now rewrite app_nil_r.
  - rewrite IH, (Hf x e), <- app_assoc. reflexivity.
Qed.

(** ** A successful run consumed an encoding *)
Definition dec_sound {A} (d : dec A) (enc : A -> bytes) (P : A -> Prop) : Prop :=
  forall bs x rest, all_bytes bs -> d bs = Ok (x, rest) ->
  bs = enc x ++ rest /\ P x.

Lemma dec_bind_Ok {A B} (f : A -> dec B) (d : dec A) bs r :
  dec_bind f d bs = Ok r <-> exists x bs', d bs = Ok (x, bs') /\ f x bs' = Ok r.
Proof.
  unfold dec_bind. rewrite outcome_bind_Ok. split.
  - intros ([x bs'] & H1 & H2). eauto.
  - intros (x & bs' & H1 & H2). exists (x, bs'). auto.
Qed.

Lemma Dec_run_Ok {A} (d : dec A) bs x :
  Dec_run d bs = Ok x <-> exists rest, d bs = Ok (x, rest).
Proof.
  unfold Dec_run. rewrite outcome_bind_Ok. split.
  - intros ([y rest] & H & [= ->]). eauto.
  - intros (rest & H). exists (x, rest). auto.
Qed.

Lemma Dec_take_sound n : dec_sound (Dec_take n) id (fun b => 0 <= n -> len b = n).
Proof.
  intros bs x rest Hb. unfold Dec_take. destruct (Z.ltb_spec (len bs) n); [discriminate|].
  intros [= <- <-]. unfold id. split; [symmetry; apply take_drop|].
  intros Hn. unfold len in *. rewrite length_take. lia.
Qed.

Lemma Dec_word_sound n w (Hw : w = 256 ^ Z.of_nat n) :
  dec_sound (let* b := Dec_take (Z.of_nat n) in dec_ret (from_le b)) (to_le n) (fits w).
Proof.
  intros bs x rest Hb (b & bs' & Ht & [= <- <-])%dec_bind_Ok.
  apply Dec_take_sound in Ht as [Hbs Hlen]; [|exact Hb]. unfold id in Hbs.
  rewrite Hbs in Hb. apply all_bytes_app in Hb as [Hb _]. specialize (Hlen ltac:(lia)).
  assert (length b = n) as Hn by (unfold len in Hlen; lia).
  split.
  - rewrite Hbs. f_equal. rewrite <- Hn. symmetry. now apply to_le_from_le.
  - subst w. rewrite <- Hlen. now apply from_le_range.
Qed.
Lemma Dec_u8_sound : dec_sound Dec_u8 (fun v => [v]) (fits W8).
Proof.
  intros bs x rest Hb H. destruct (Dec_word_sound 1 W8 eq_refl bs x rest Hb H) as [-> Hx].
  split; [|exact Hx]. rewrite to_le_1. simpl. f_equal. apply Z.mod_small, Hx.
Qed.
Lemma Dec_u16_sound : dec_sound Dec_u16 (to_le 2) (fits W16).
Proof. exact (Dec_word_sound 2 W16 eq_refl). Qed.
Lemma Dec_u32_sound : dec_sound Dec_u32 (to_le 4) (fits W32).
Proof. exact (Dec_word_sound 4 W32 eq_refl). Qed.
Lemma Dec_u64_sound : dec_sound Dec_u64 (to_le 8) (fits W64).
Proof. exact (Dec_word_sound 8 W64 eq_refl). Qed.
Lemma Dec_bytes_sound n : dec_sound (Dec_bytes n) id (fun b => 0 <= n -> len b = n).
Proof. apply Dec_take_sound. Qed.
Lemma Dec_finish_inv bs u rest : Dec_finish bs = Ok (u, rest) -> bs = [] /\ rest = [].
Proof. destruct bs as [|b bs]; [|discriminate]. intros [= _ <-]. auto. Qed.

Lemma dec_repeat_sound {A} (d : dec A) enc P n :
  dec_sound d enc P ->
  dec_sound (dec_repeat n d) (fun xs => concat (map enc xs))
    (fun xs => length xs = n /\ Forall P xs).
Proof.
  intros Hd. induction n as [|n IH]; intros bs xs rest Hb; simpl.
  - intros [= <- <-]. auto.
  - intros (x & bs1 & H1 & (ys & bs2 & H2 & [= <- <-])%dec_bind_Ok)%dec_bind_Ok.
    apply Hd in H1 as [-> Hx]; [|exact Hb].
    apply all_bytes_app in Hb as [_ Hb].
    apply IH in H2 as [-> [Hn Hys]]; [|exact Hb].
    simpl. rewrite <- app_assoc. split; [reflexivity|]. split; [lia|]. now constructor.
Qed.
#[export] Hint Resolve Dec_u8_sound Dec_u16_sound Dec_u32_sound Dec_u64_sound
  Dec_bytes_sound : sound.

(** ** Decoders do not panic *)
Definition dec_total {A} (d : dec A) : Prop := forall bs, no_panic (d bs).

Lemma dec_total_bind {A B} (d : dec A) (f : A -> dec B) :
  dec_total d -> (forall x, dec_total (f x)) -> dec_total (dec_bind f d).
Proof.
  intros Hd Hf bs. apply no_panic_bind; [apply Hd|]. intros [x bs'] _. apply Hf.
Qed.
Lemma dec_total_ret {A} (x : A) : dec_total (dec_ret x).
Proof. intros bs. discriminate. Qed.
Lemma dec_total_fail {A} : dec_total (@dec_fail A).
Proof. intros bs. discriminate. Qed.
Lemma dec_total_if {A} (b : bool) (d d' : dec A) :
  dec_total d -> dec_total d' -> dec_total (if b then d else d').
Proof. destruct b; auto. Qed.
Lemma dec_total_lift {A} (c : outcome DecodeError A) : no_panic c -> dec_total (dec_lift c).
Proof. intros Hc bs. apply no_panic_bind; [exact Hc|]. discriminate. Qed.
Lemma dec_total_take n : dec_total (Dec_take n).
Proof. intros bs. unfold Dec_take. destruct (_ <? _); discriminate. Qed.
Lemma dec_total_u8 : dec_total Dec_u8.
Proof. apply dec_total_bind; [apply dec_total_take|intros; apply dec_total_ret]. Qed.
Lemma dec_total_u16 : dec_total Dec_u16.
Proof. apply dec_total_bind; [apply dec_total_take|intros; apply dec_total_ret]. Qed.
Lemma dec_total_u32 : dec_total Dec_u32.
Proof. apply dec_total_bind; [apply dec_total_take|intros; apply dec_total_ret]. Qed.
Lemma dec_total_u64 : dec_total Dec_u64.
Proof. apply dec_total_bind; [apply dec_total_take|intros; apply dec_total_ret]. Qed.
Lemma dec_total_finish : dec_total Dec_finish.
Proof. intros [|? ?]; discriminate. Qed.
Lemma dec_total_remaining : dec_total Dec_remaining.
Proof. intros bs; discriminate. Qed.
Lemma dec_total_repeat {A} (d : dec A) n : dec_total d -> dec_total (dec_repeat n d).
Proof.
  intros Hd. induction n as [|n IH]; simpl; [apply dec_total_ret|].
  apply dec_total_bind; [exact Hd|]. intros x.
  apply dec_total_bind; [exact IH|]. intros xs. apply dec_total_ret.
Qed.
Lemma dec_total_run {A} (d : dec A) bs : dec_total d -> no_panic (Dec_run d bs).
Proof. intros Hd. apply no_panic_bind; [apply Hd|]. intros [x r] _. discriminate. Qed.
#[export] Hint Resolve dec_total_ret dec_total_fail dec_total_take dec_total_u8
  dec_total_u16 dec_total_u32 dec_total_u64 dec_total_finish dec_total_remaining
  dec_total_repeat dec_total_run : panics.
#[export] Hint Extern 1 (dec_total (Dec_bytes _)) => apply dec_total_take : panics.

Ltac total_step :=
  match goal with
  | |- dec_total (dec_bind _ _) => apply dec_total_bind; [|intros]
  | |- dec_total (if _ then _ else _) => apply dec_total_if
  | |- dec_total (match ?x with _ => _ end) => destruct x
  | |- dec_total (dec_lift _) => apply dec_total_lift
  | |- dec_total _ => solve [auto with panics]
  | |- no_panic _ => solve [auto with panics]
  end.
Ltac total := repeat total_step.

(** ** Proof automation for codecs *)

(** Unfold the primitive writes and normalise the buffer to right-nested
    appends; compound encoders contribute their [appends] lemmas to [enc]. *)
Lemma app_assoc_r {A} (l m n : list A) : (l ++ m) ++ n = l ++ m ++ n.
Proof. symmetry. apply app_assoc. Qed.
Ltac enc_unfold :=
  unfold Enc_new, Enc_finish, Enc_u8, Enc_u16, Enc_u32, Enc_u64, Enc_bytes in *.
Ltac enc_norm :=
  enc_unfold; autorewrite with enc; enc_unfold;
  repeat rewrite app_assoc_r; cbn [app].

(** One read of the goal decoder. *)
Ltac reads_side := first [ reflexivity | assumption | lia | solve [eauto with reads] ].
Ltac to_app :=
  lazymatch goal with
  | |- _ _ [_] _ => idtac
  | |- reads _ (?x :: ?l) _ => change (x :: l) with ([x] ++ l)
  | |- reads_all _ (?x :: ?l) _ => change (x :: l) with ([x] ++ l)
  end.
Ltac reads_step :=
  try to_app;
  match goal with
  | |- reads_all (dec_bind _ Dec_finish) [] _ => apply reads_all_finish
  | |- reads_all (dec_bind _ (dec_lift _)) _ _ => eapply reads_all_lift
  | |- reads_all (dec_bind _ _) (_ ++ _) _ => eapply reads_all_bind
  | |- reads_all (dec_bind _ _) _ _ => eapply reads_all_bind_last
  | |- reads_all (if _ then dec_fail else _) _ _ => apply reads_all_guard_neg
  | |- reads_all (if _ then _ else dec_fail) _ _ => apply reads_all_guard
  | |- reads_all (dec_ret _) _ _ => apply reads_all_ret
  | |- reads (dec_ret _) _ _ => apply reads_ret
  | |- reads (dec_bind _ (dec_lift _)) _ _ => eapply reads_lift
  | |- reads (dec_bind _ _) (_ ++ _) _ => eapply reads_bind
  | |- reads (dec_bind _ _) _ _ => eapply reads_bind_last
  | |- reads (if _ then dec_fail else _) _ _ => apply reads_guard_neg
  | |- reads (if _ then _ else dec_fail) _ _ => apply reads_guard
  end.
Ltac reads_tac := repeat (reads_step; [try reads_side ..|]); try reads_step; try reads_side.

(** Invert a successful decoder run: each read replaces its input by the
    encoding it consumed followed by the rest. *)
Ltac dec_inv_step :=
  match goal with
  | H : Dec_run _ _ = Ok _ |- _ => apply Dec_run_Ok in H as [? H]
  | H : dec_bind _ _ ?bs = Ok _ |- _ =>
      apply dec_bind_Ok in H;
      let x := fresh "x" in let r := fresh "r" in let Hd := fresh "Hd" in
      destruct H as (x & r & Hd & H)
  | H : (if ?b then dec_fail else _) _ = Ok _ |- _ =>
      let E := fresh "Hg" in destruct b eqn:E; [discriminate H|]
  | H : (if ?b then _ else dec_fail) _ = Ok _ |- _ =>
      let E := fresh "Hg" in destruct b eqn:E; [|discriminate H]
  | H : dec_fail _ = Ok _ |- _ => discriminate H
  | H : dec_ret _ _ = Ok _ |- _ => unfold dec_ret in H; injection H; clear H; intros; subst
  | H : dec_lift _ _ = Ok _ |- _ =>
      unfold dec_lift in H; apply outcome_bind_Ok in H;
      let a := fresh "a" in let Ha := fresh "Ha" in
      destruct H as (a & Ha & H); injection H; clear H; intros; subst
  | H : Dec_remaining _ = Ok _ |- _ =>
      unfold Dec_remaining in H; injection H; clear H; intros; subst
  | H : Dec_finish ?bs = Ok (_, ?r) |- _ =>
      let E := fresh "E" in
      apply Dec_finish_inv in H as [E ->]; rewrite ?E in *; clear E
  | Hb : all_bytes ?bs, H : ?d ?bs = Ok (?x, ?r) |- _ =>
      let S := fresh "S" in let P := fresh "P" in let Hb' := fresh "Hb" in
      eassert (S : dec_sound d _ _) by (eauto with sound);
      destruct (S bs x r Hb H) as [-> P]; clear S H;
      apply all_bytes_app in Hb as [_ Hb'];
      cbv beta in P
  end.
Ltac dec_inv := repeat dec_inv_step; rewrite ?app_nil_r in *.

(** ** Frames *)
Section Frames.
Context `{CL : CrcLaws}.

Definition frame_bytes (magic : Z) (payload : bytes) : bytes :=
  to_le 4 magic ++ to_le 4 (len payload) ++ to_le 4 (crc32c payload) ++ payload.

Lemma seal_frame_Ok {E} magic payload :
  len payload < W32 -> @seal_frame _ E magic payload = Ok (frame_bytes magic payload).
Proof.
  intros Hl. unfold seal_frame, frame_bytes. rewrite (proj2 (Z.ltb_lt _ _) Hl).
  enc_norm. reflexivity.
Qed.

Lemma seal_frame_inv {E} magic payload bs :
  @seal_frame _ E magic payload = Ok bs ->
  len payload < W32 /\ bs = frame_bytes magic payload.
Proof.
  intros Hs. destruct (Z.ltb_spec (len payload) W32) as [Hl|Hl].
  - rewrite seal_frame_Ok in Hs by exact Hl. split; congruence.
  - unfold seal_frame in Hs. rewrite (proj2 (Z.ltb_ge _ _) Hl) in Hs. discriminate.
Qed.

Lemma open_frame_bytes magic payload :
  fits W32 magic -> len payload < W32 ->
  open_frame magic (frame_bytes magic payload) = Ok payload.
Proof using CL.
  intros Hm Hl. unfold open_frame, frame_bytes. change (reads_all
    (let* m := Dec_u32 in
     guard* m =? magic in
     let* len := Dec_u32 in
     let* crc := Dec_u32 in
     let* payload := Dec_bytes len in
     let* _ := Dec_finish in
     guard* crc32c payload =? crc in
     dec_ret payload)
    (to_le 4 magic ++ to_le 4 (len payload) ++ to_le 4 (crc32c payload) ++ payload)
    payload).
  pose proof (crc32c_range payload). pose proof (len_nonneg payload).
  assert (fits W32 (len payload)) by (unfold fits; lia).
  reads_tac; apply Z.eqb_refl.
Qed.

Lemma frame_open_seal {E} magic payload bs :
  fits W32 magic -> @seal_frame _ E magic payload = Ok bs ->
  open_frame magic bs = Ok payload.
Proof using CL. intros Hm [Hl ->]%seal_frame_inv. now apply open_frame_bytes. Qed.

Lemma open_frame_inv magic bs payload :
  all_bytes bs -> open_frame magic bs = Ok payload ->
  bs = frame_bytes magic payload /\ len payload < W32 /\ all_bytes payload.
Proof using Type.
  intros Hb H. unfold open_frame in H. pose proof Hb as Hb0. dec_inv.
  apply Z.eqb_eq in Hg, Hg0. subst. unfold id, frame_bytes, fits in *.
  specialize (P2 ltac:(lia)). rewrite P2 in *.
  repeat split; auto; try lia.
  rewrite !all_bytes_app in Hb. tauto.
Qed.
Lemma open_frame_total magic bs : no_panic (open_frame magic bs).
Proof using Type. apply dec_total_run. total. Qed.

(** The frame format is exact in both directions: under a 32-bit magic,
    [open_frame] returns a payload for precisely the byte string [seal_frame]
    makes of it, so every seal opens and nothing but a seal does. *)
Theorem frame_exact magic payload bs :
  fits W32 magic -> all_bytes bs ->
  open_frame magic bs = Ok payload <-> @seal_frame _ DecodeError magic payload = Ok bs.
Proof using CL.
  intros Hm Hb. split.
  - intros (-> & Hl & _)%open_frame_inv; [|exact Hb]. now apply seal_frame_Ok.
  - intros [Hl ->]%seal_frame_inv. now apply open_frame_bytes.
Qed.

Lemma insert_same {A} (l : list A) i y : (i < length l)%nat ->
  <[i:=y]> l = l -> l !! i = Some y.
Proof. intros Hi Heq. rewrite <- Heq. now apply list_lookup_insert_eq. Qed.

Lemma crc_insert_ne (p : bytes) i y :
  all_bytes p -> is_byte y -> (i < length p)%nat -> p !! i <> Some y ->
  crc32c (<[i:=y]> p) <> crc32c p.
Proof using CL.
  intros Hp Hy Hi Hne.
  destruct (lookup_lt_is_Some_2 p i Hi) as [x Hx].
  pose proof (take_drop_middle _ _ _ Hx) as Hsplit.
  rewrite insert_take_drop by exact Hi.
  unfold all_bytes in *. rewrite <- Hsplit in Hp at 1.
  apply Forall_app in Hp as [Hp1 Hp2]. inversion Hp2; subst.
  rewrite <- Hsplit at 3. apply crc32c_one_byte; auto. congruence.
Qed.

Lemma frame_insert_ne m (p q : bytes) i y :
  all_bytes p -> is_byte y -> len p < W32 -> len q < W32 ->
  (i < length (frame_bytes m p))%nat -> frame_bytes m p !! i <> Some y ->
  <[i:=y]> (frame_bytes m p) <> frame_bytes m q.
Proof using CL.
  intros Hp Hy Hpl Hql Hi Hne Heq.
  assert (len p = len q) as Hl.
  { apply (f_equal length) in Heq. unfold frame_bytes in Heq.
    rewrite length_insert, !length_app, !length_to_le in Heq. unfold len. lia. }
  unfold frame_bytes in *. rewrite Hl in *.
  rewrite !(app_assoc (to_le 4 m)) in *.
  set (h := to_le 4 m ++ to_le 4 (len q)) in *.
  assert (length h = 8%nat) as Hh by (unfold h; now rewrite length_app, !length_to_le).
  destruct (decide (i < 8)%nat) as [H8|H8].
  - rewrite insert_app_l in Heq by lia.
    apply app_inj_1 in Heq as [Heq _]; [|now rewrite length_insert].
    apply Hne. rewrite lookup_app_l by lia. apply insert_same; [lia|exact Heq].
  - rewrite insert_app_r_alt in Heq by lia. apply app_inj_1 in Heq as [_ Heq]; [|reflexivity].
    rewrite lookup_app_r in Hne by lia. rewrite Hh in *.
    destruct (decide (i < 12)%nat) as [H12|H12].
    + rewrite insert_app_l in Heq by (rewrite length_to_le; lia).
      apply app_inj_1 in Heq as [Heq ->]; [|now rewrite length_insert, !length_to_le].
      apply Hne. rewrite lookup_app_l by (rewrite length_to_le; lia).
      apply insert_same; [rewrite length_to_le; lia|exact Heq].
    + rewrite insert_app_r_alt in Heq by (rewrite length_to_le; lia).
      apply app_inj_1 in Heq as [Hc Heq]; [|now rewrite !length_to_le].
      rewrite lookup_app_r in Hne by (rewrite length_to_le; lia).
      rewrite length_to_le in *.
      rewrite !length_app, !length_to_le, Hh in Hi.
      apply (crc_insert_ne p (i - 8 - 4) y); auto; [lia|].
      rewrite Heq. apply (f_equal from_le) in Hc.
      rewrite !from_le_to_le in Hc by apply crc32c_range. congruence.
Qed.

Lemma frame_rejects_one_byte magic payload bs i y :
  all_bytes payload -> @seal_frame _ DecodeError magic payload = Ok bs ->
  (i < length bs)%nat -> is_byte y -> bs !! i <> Some y ->
  open_frame magic (<[i:=y]> bs) = Err DecodeErr.
Proof using CL.
  intros Hp [Hl ->]%seal_frame_inv Hi Hy Hne.
  pose proof (open_frame_total magic (<[i:=y]> (frame_bytes magic payload))) as Ht.
  destruct (open_frame _ _) as [q|[]|] eqn:Ho; [|reflexivity|now destruct Ht].
  exfalso. apply open_frame_inv in Ho as (Heq & Hql & _).
  - revert Heq. now apply frame_insert_ne.
  - apply Forall_insert; [|exact Hy]. unfold frame_bytes.
    rewrite !all_bytes_app. auto with bytes.
Qed.

Lemma frame_rejects_truncation magic payload bs k :
  all_bytes payload -> @seal_frame _ DecodeError magic payload = Ok bs ->
  (k < length bs)%nat -> open_frame magic (take k bs) = Err DecodeErr.
Proof using Type.
  intros Hp [Hl ->]%seal_frame_inv Hk.
  pose proof (open_frame_total magic (take k (frame_bytes magic payload))) as Ht.
  destruct (open_frame _ _) as [q|[]|] eqn:Ho; [|reflexivity|now destruct Ht].
  exfalso. apply open_frame_inv in Ho as (Heq & Hql & _).
  2:{ apply all_bytes_take. unfold frame_bytes. rewrite !all_bytes_app. auto with bytes. }
  assert (length (frame_bytes magic q) = k) as Hlen by (rewrite <- Heq, length_take; lia).
  unfold frame_bytes in *. rewrite !length_app, !length_to_le in Hlen, Hk.
  rewrite take_app_ge in Heq by (rewrite length_to_le; lia).
  apply app_inj_1 in Heq as [_ Heq]; [|reflexivity].
  rewrite length_to_le, take_app_ge in Heq by (rewrite length_to_le; lia).
  apply app_inj_1 in Heq as [Heq _]; [|now rewrite !length_to_le].
  apply (f_equal from_le) in Heq.
  pose proof (len_nonneg payload). pose proof (len_nonneg q).
  rewrite !from_le_to_le in Heq by (unfold fits; lia). unfold len in Heq. lia.
Qed.

(** C30. A damaged frame is never read as data: changing any one byte of a
    sealed frame (magic, length, checksum or payload), or cutting it short at
    any point, makes [open_frame] report an error. *)
Theorem frame_rejects_damage magic payload bs :
  all_bytes payload -> @seal_frame _ DecodeError magic payload = Ok bs ->
  (forall i y, (i < length bs)%nat -> is_byte y -> bs !! i <> Some y ->
     open_frame magic (<[i:=y]> bs) = Err DecodeErr)
  /\ (forall k, (k < length bs)%nat -> open_frame magic (take k bs) = Err DecodeErr).
Proof using CL.
  intros Hp Hs. split; intros.
  - eapply frame_rejects_one_byte; eauto.
  - eapply frame_rejects_truncation; eauto.
Qed.
End Frames.

(** ** Exact codecs

    [Codec d enc P]: the reader [d] recognises exactly the encodings [enc x] of
    the values that satisfy [P], and never panics. Components state one
    instance per record that is part of a larger message. *)
Class Codec {A} (d : dec A) (enc : A -> bytes) (P : A -> Prop) : Prop := {
  codec_reads : forall x, P x -> reads d (enc x) x;
  codec_sound : dec_sound d enc P;
  codec_total : dec_total d;
  codec_bytes : forall x, P x -> all_bytes (enc x) }.

(** [WholeCodec]: the same for a reader that ends with [finish]. *)
Class WholeCodec {A} (d : dec A) (enc : A -> bytes) (P : A -> Prop) : Prop := {
  whole_reads : forall x, P x -> reads_all d (enc x) x;
  whole_sound : forall bs x, all_bytes bs -> Dec_run d bs = Ok x -> P x /\ bs = enc x;
  whole_total : dec_total d;
  whole_bytes : forall x, P x -> all_bytes (enc x) }.

(** [ExactFormat encode decode ok]: what a durable record promises to its
    readers. Well-formed values are written and read back; whatever the reader
    accepts is well formed and is, byte for byte, what the writer produces; the
    reader never panics, whatever the bytes. *)
Class ExactFormat {E A} (encode : A -> outcome E bytes)
    (decode : bytes -> outcome DecodeError A) (ok : A -> Prop) : Prop := {
  format_writes : forall x, ok x ->
    exists bs, encode x = Ok bs /\ all_bytes bs /\ decode bs = Ok x;
  format_canonical : forall bs x, all_bytes bs -> decode bs = Ok x ->
    ok x /\ encode x = Ok bs;
  format_total : forall bs, no_panic (decode bs) }.

Lemma is_byte_small b : 0 <= b < W8 -> is_byte b.
Proof. exact id. Qed.
Lemma all_bytes_nil : all_bytes [].
Proof. constructor. Qed.
Lemma all_bytes_cons b bs : is_byte b -> all_bytes bs -> all_bytes (b :: bs).
Proof. intros. now constructor. Qed.
Lemma all_bytes_app_2 a b : all_bytes a -> all_bytes b -> all_bytes (a ++ b).
Proof. intros. now apply all_bytes_app. Qed.
Lemma all_bytes_repeat b n : is_byte b -> all_bytes (repeat b n).
Proof. intros Hb. induction n; simpl; now constructor. Qed.
#[export] Hint Resolve all_bytes_repeat all_bytes_nil all_bytes_cons all_bytes_app_2 : bytes.
#[export] Hint Extern 2 (is_byte _) => (unfold is_byte, fits in *; lia) : bytes.

Lemma codec_u8 : Codec Dec_u8 (fun v => [v]) (fits W8).
Proof. split; auto with reads sound panics bytes. Qed.
Lemma codec_u16 : Codec Dec_u16 (to_le 2) (fits W16).
Proof. split; auto with reads sound panics bytes. Qed.
Lemma codec_u32 : Codec Dec_u32 (to_le 4) (fits W32).
Proof. split; auto with reads sound panics bytes. Qed.
Lemma codec_u64 : Codec Dec_u64 (to_le 8) (fits W64).
Proof. split; auto with reads sound panics bytes. Qed.
#[export] Existing Instances codec_u8 codec_u16 codec_u32 codec_u64.

(** [match opt { None => e.u8(0), Some(x) => { e.u8(1); ... } }] and its reader. *)
Definition Enc_option {A} (f : A -> Enc -> Enc) (o : option A) (e : Enc) : Enc :=
  match o with
  | None => e |> Enc_u8 0
  | Some x => e |> Enc_u8 1 |> f x
  end.
Definition Dec_option {A} (d : dec A) : dec (option A) :=
  let* tag := Dec_u8 in
  if tag =? 0 then dec_ret None
  else if tag =? 1 then let* x := d in dec_ret (Some x)
  else dec_fail.

Definition option_bytes {A} (enc : A -> bytes) (o : option A) : bytes :=
  match o with None => [0] | Some x => 1 :: enc x end.
Definition option_ok {A} (P : A -> Prop) (o : option A) : Prop :=
  match o with None => True | Some x => P x end.

Lemma Enc_option_app {A} (f : A -> Enc -> Enc) o e :
  (forall x, appends (f x)) ->
  Enc_option f o e = e ++ option_bytes (fun x => f x []) o.
Proof.
  intros Hf. destruct o as [x|]; simpl; [|reflexivity].
  unfold Enc_u8. rewrite Hf, <- app_assoc. reflexivity.
Qed.

#[export] Instance codec_option {A} (d : dec A) enc P :
  Codec d enc P -> Codec (Dec_option d) (option_bytes enc) (option_ok P).
Proof.
  intros C. split.
  - intros [x|] Hx; unfold Dec_option, option_bytes.
    + change (1 :: enc x) with ([1] ++ enc x).
      apply reads_bind with 1; [now apply reads_u8|].
      apply reads_bind_last with x; [now apply codec_reads|apply reads_ret].
    + apply reads_bind_last with 0; [now apply reads_u8|apply reads_ret].
  - intros bs o rest Hb H. unfold Dec_option in H. dec_inv_step. dec_inv_step.
    destruct (x =? 0) eqn:E0; [|destruct (x =? 1) eqn:E1; [|discriminate]].
    + apply Z.eqb_eq in E0. subst. injection H as <- <-. simpl. auto.
    + apply Z.eqb_eq in E1. subst. apply dec_bind_Ok in H as (y & r' & Hy & [= <- <-]).
      apply codec_sound in Hy as [-> Hy]; [|assumption]. simpl. auto.
  - unfold Dec_option. apply dec_total_bind; [auto with panics|]. intros tag.
    destruct (tag =? 0); [apply dec_total_ret|]. destruct (tag =? 1); [|apply dec_total_fail].
    apply dec_total_bind; [apply codec_total|intros; apply dec_total_ret].
  - intros [x|] Hx; simpl; auto with bytes. apply all_bytes_cons; [now apply is_byte_small|].
    now apply (codec_bytes (Codec := C)).
Qed.

Lemma all_bytes_option {A} (enc : A -> bytes) o :
  (forall x, o = Some x -> all_bytes (enc x)) -> all_bytes (option_bytes enc o).
Proof. destruct o; simpl; intros H; auto with bytes. Qed.
Lemma all_bytes_concat {A} (enc : A -> bytes) xs :
  (forall x, In x xs -> all_bytes (enc x)) -> all_bytes (concat (map enc xs)).
Proof.
  induction xs as [|x xs IH]; intros H; simpl; [auto with bytes|].
  apply all_bytes_app_2; [apply H; now left|]. apply IH. intros; apply H; now right.
Qed.

#[export] Hint Resolve all_bytes_option all_bytes_concat : bytes.

#[export] Instance codec_repeat {A} (d : dec A) enc P n :
  Codec d enc P ->
  Codec (dec_repeat n d) (fun xs => concat (map enc xs))
    (fun xs => length xs = n /\ Forall P xs).
Proof.
  intros C. split.
  - intros xs [Hn HP]. apply reads_repeat; [now symmetry|]. rewrite List.Forall_forall in HP.
    intros x Hx. now apply codec_reads, HP.
  - apply dec_repeat_sound, C.
  - apply dec_total_repeat, C.
  - intros xs [_ HP]. apply all_bytes_concat. rewrite List.Forall_forall in HP.
    intros x Hx. now apply (codec_bytes (Codec := C)), HP.
Qed.

Lemma reads_repeat_codec {A} (d : dec A) enc P xs n :
  Codec d enc P -> n = length xs -> Forall P xs ->
  reads (dec_repeat n d) (concat (map enc xs)) xs.
Proof. intros C Hn HP. apply (codec_reads (Codec := codec_repeat d enc P n C)). auto. Qed.
#[export] Hint Extern 4 (reads (dec_repeat _ _) _ _) =>
  (eapply reads_repeat_codec; [apply _| |]) : reads.
#[export] Hint Extern 5 (reads _ _ _) => (notypeclasses refine (@codec_reads _ _ _ _ _ _ _); [apply _|cbv beta]) : reads.
#[export] Hint Extern 5 (dec_sound _ _ _) => (notypeclasses refine (@codec_sound _ _ _ _ _); apply _) : sound.
#[export] Hint Extern 5 (dec_total _) => (notypeclasses refine (@codec_total _ _ _ _ _); apply _) : panics.

(** The four obligations of a record codec; [unf] unfolds its writer, its
    reader and its well-formedness. *)
Ltac codec_conj :=
  repeat match goal with
  | H : _ /\ _ |- _ => destruct H
  | |- _ /\ _ => split
  end.
Ltac solve_codec unf :=
  split;
  [ let x := fresh "x" in let Hx := fresh "Hx" in
    intros x Hx; destruct x; unf (); simpl in *; codec_conj; enc_norm; reads_tac
  | let H := fresh "H" in
    intros ? ? ? ? H; unf (); dec_inv; simpl in *; enc_norm; codec_conj; auto
  | unf (); total
  | let Hx := fresh "Hx" in
    intros ? Hx; unf (); codec_conj; enc_norm; auto 20 with bytes ].

(** A frame around an exact whole-input reader is an exact format. *)
Lemma framed_exact `{CL : CrcLaws} {E A} magic (d : dec A) enc P :
  WholeCodec d enc P -> fits W32 magic ->
  ExactFormat (fun x => @seal_frame _ E magic (enc x))
    (fun bs => let? payload := open_frame magic bs in Dec_run d payload)
    (fun x => P x /\ len (enc x) < W32).
Proof.
  intros WC Hm. split.
  - intros x [Hx Hl]. exists (frame_bytes magic (enc x)).
    rewrite seal_frame_Ok by exact Hl. rewrite open_frame_bytes by assumption. split; [reflexivity|].
    split; [|now apply whole_reads]. unfold frame_bytes. rewrite !all_bytes_app.
    pose proof (whole_bytes x Hx). auto with bytes.
  - intros bs x Hb (p & Hp & Hd)%outcome_bind_Ok.
    apply open_frame_inv in Hp as (-> & Hl & Hbp); [|exact Hb].
    apply whole_sound in Hd as [Hx ->]; [|exact Hbp]. split; [auto|].
    now apply seal_frame_Ok.
  - intros bs. apply no_panic_bind; [apply open_frame_total|].
    intros p _. apply dec_total_run, whole_total.
Qed.

#[global] Arguments Dec_run : simpl never.
#[global] Arguments dec_bind : simpl never.
#[global] Arguments open_frame : simpl never.
#[global] Arguments seal_frame : simpl never.
