(* ===== verification/Crc32c.v ===== *)
(** * CRC-32C (Castagnoli), the checksum of [format.rs]

    [format.rs] calls the crate [crc_fast] with [Crc32Iscsi]. This file gives
    the bit-by-bit reference algorithm of that polynomial, checks the test
    vectors of [format.rs] on it and proves the laws [CrcLaws] that the codecs
    assume, so every theorem stated over an abstract CRC has a concrete
    instance. *)

From S2P Require Import Prelude Format.

Definition CRC32C_POLY : Z := 0x82F63B78.

(** One shift of the reflected register, eight of them per byte; a list
    element is taken as its low eight bits, so the function is total. *)
Definition crc_round (x : Z) : Z :=
  if Z.odd x then Z.lxor (Z.shiftr x 1) CRC32C_POLY else Z.shiftr x 1.
Definition crc_byte (crc b : Z) : Z := Nat.iter 8 crc_round (Z.lxor crc (b mod W8)).
Definition crc32c_reference (bs : bytes) : Z :=
  Z.lxor (fold_left crc_byte bs 0xFFFFFFFF) 0xFFFFFFFF.

#[export] Instance reference_crc : Crc := crc32c_reference.

(** The check value of the Castagnoli CRC (test [crc32c_matches_the_standard_check_value]). *)
Example crc32c_check_value :
  crc32c_reference [49; 50; 51; 52; 53; 54; 55; 56; 57] = 0xE3069283
  /\ crc32c_reference [] = 0.
Proof. vm_compute. auto. Qed.

Section Reference.
Let W := 2 ^ 32.

Lemma crc_round_range x : fits W x -> fits W (crc_round x).
Proof.
  unfold fits, crc_round, W. intros Hx.
  assert (0 <= Z.shiftr x 1 < 2 ^ 32).
  { rewrite Z.shiftr_div_pow2 by lia. change (2 ^ 1) with 2.
    split; [apply Z.div_pos; lia|apply Z.div_lt_upper_bound; lia]. }
  destruct (Z.odd x); [|lia]. apply lxor_bound; [lia|lia|]. split; [discriminate|reflexivity].
Qed.

Lemma shiftr1_bit31 x : fits W x -> Z.testbit (Z.shiftr x 1) 31 = false.
Proof.
  unfold fits, W. intros Hx. rewrite Z.shiftr_spec by lia.
  apply (testbit_high 32); lia.
Qed.

Lemma half_odd_inj x y : Z.odd x = Z.odd y -> Z.shiftr x 1 = Z.shiftr y 1 -> x = y.
Proof.
  intros Ho Hs. rewrite !Z.shiftr_div_pow2 in Hs by lia. change (2 ^ 1) with 2 in Hs.
  rewrite (Z.div_mod x 2), (Z.div_mod y 2), Hs by lia.
  rewrite !Zmod_odd, Ho. reflexivity.
Qed.

Lemma crc_round_inj x y : fits W x -> fits W y -> crc_round x = crc_round y -> x = y.
Proof.
  intros Hx Hy H. pose proof (shiftr1_bit31 x Hx) as Bx. pose proof (shiftr1_bit31 y Hy) as By.
  assert (Z.testbit CRC32C_POLY 31 = true) as HP by reflexivity.
  unfold crc_round in H.
  destruct (Z.odd x) eqn:Ox, (Z.odd y) eqn:Oy.
  - apply half_odd_inj; [congruence|].
    apply (f_equal (Z.lxor CRC32C_POLY)) in H.
    rewrite !(Z.lxor_comm CRC32C_POLY), !Z.lxor_assoc, Z.lxor_nilpotent, !Z.lxor_0_r in H.
    exact H.
  - exfalso. apply (f_equal (fun z => Z.testbit z 31)) in H.
    rewrite Z.lxor_spec, HP, Bx, By in H. discriminate.
  - exfalso. apply (f_equal (fun z => Z.testbit z 31)) in H.
    rewrite Z.lxor_spec, HP, Bx, By in H. discriminate.
  - apply half_odd_inj; congruence.
Qed.

Lemma crc_iter_range n x : fits W x -> fits W (Nat.iter n crc_round x).
Proof. intros Hx. induction n; simpl; auto using crc_round_range. Qed.
Lemma crc_iter_inj n x y : fits W x -> fits W y ->
  Nat.iter n crc_round x = Nat.iter n crc_round y -> x = y.
Proof.
  intros Hx Hy. induction n as [|n IH]; [auto|]. simpl. intros H.
  apply IH. apply crc_round_inj; auto using crc_iter_range.
Qed.

Lemma low_byte_in_W b : fits W (b mod W8).
Proof. unfold fits, W. pose proof (Z.mod_pos_bound b W8). lia. Qed.
Lemma lxor_in_W a b : fits W a -> fits W b -> fits W (Z.lxor a b).
Proof. unfold fits, W. apply lxor_bound. lia. Qed.
Lemma lxor_inj_l a b c : Z.lxor a c = Z.lxor b c -> a = b.
Proof.
  intros H. apply (f_equal (fun z => Z.lxor z c)) in H.
  now rewrite !Z.lxor_assoc, Z.lxor_nilpotent, !Z.lxor_0_r in H.
Qed.

Lemma crc_byte_range c b : fits W c -> fits W (crc_byte c b).
Proof. intros. apply crc_iter_range, lxor_in_W; auto using low_byte_in_W. Qed.
Lemma crc_fold_range bs c : fits W c -> fits W (fold_left crc_byte bs c).
Proof. revert c. induction bs; intros c Hc; simpl; auto using crc_byte_range. Qed.
Lemma crc_fold_inj bs c d : fits W c -> fits W d ->
  fold_left crc_byte bs c = fold_left crc_byte bs d -> c = d.
Proof.
  revert c d. induction bs as [|b bs IH]; intros c d Hc Hd H; simpl in H; auto.
  apply IH in H; [|now apply crc_byte_range..].
  apply crc_iter_inj in H; [|auto using lxor_in_W, low_byte_in_W..].
  now apply lxor_inj_l in H.
Qed.

Lemma crc_reference_range bs : fits W (crc32c_reference bs).
Proof.
  assert (fits W 0xFFFFFFFF) by (unfold fits, W; lia).
  apply lxor_in_W; auto using crc_fold_range.
Qed.

Lemma crc_reference_one_byte p q x y :
  is_byte x -> is_byte y -> x <> y ->
  crc32c_reference (p ++ x :: q) <> crc32c_reference (p ++ y :: q).
Proof.
  intros Hx Hy Hne H. apply Hne. unfold crc32c_reference in H.
  apply lxor_inj_l in H. rewrite !fold_left_app in H. simpl in H.
  assert (fits W (fold_left crc_byte p 0xFFFFFFFF)) as Hc
    by (apply crc_fold_range; unfold fits, W; lia).
  apply crc_fold_inj in H; [|auto using crc_byte_range..].
  apply crc_iter_inj in H; [|auto using lxor_in_W, low_byte_in_W..].
  rewrite !(Z.lxor_comm (fold_left crc_byte p _)) in H. apply lxor_inj_l in H.
  now rewrite !Z.mod_small in H by assumption.
Qed.
End Reference.

#[export] Instance reference_crc_laws : CrcLaws reference_crc.
Proof.
  split; [exact crc_reference_range|]. intros p q x y Hx Hy Hne _ _.
  now apply crc_reference_one_byte.
Qed.

(** ** The frame theorems at a concrete frame *)
Definition example_magic : Z := magic 66 67 80 76.
Definition example_frame : bytes :=
  [66; 67; 80; 76; 3; 0; 0; 0; 30; 242; 48; 241; 1; 2; 3].

Lemma example_bytes bs : bool_decide (all_bytes bs) = true -> all_bytes bs.
Proof. apply bool_decide_eq_true_1. Qed.

Lemma frame_exact_witness :
  open_frame example_magic example_frame = Ok [1; 2; 3]
  <-> @seal_frame _ DecodeError example_magic [1; 2; 3] = Ok example_frame.
Proof.
  apply (frame_exact example_magic [1; 2; 3] example_frame).
  - split; vm_compute; congruence.
  - apply example_bytes. reflexivity.
Defined.

Lemma frame_rejects_damage_witness :
  open_frame example_magic (<[13%nat:=7]> example_frame) = Err DecodeErr
  /\ open_frame example_magic (take 14 example_frame) = Err DecodeErr.
Proof.
  destruct (frame_rejects_damage example_magic [1; 2; 3] example_frame) as [Hone Hcut].
  - apply example_bytes. reflexivity.
  - reflexivity.
  - split; [apply Hone|apply Hcut]; vm_compute; intuition (congruence || lia).
Defined.
