(* ===== verification/Types.v ===== *)
(** * Identifiers and configuration shared by the components

    [types.rs], the identities of [protocol.rs] and the page size of
    [platform/src/lib.rs]. An identifier is a [Z]; its width is part of the
    well-formedness predicate of the record that carries it. *)

From S2P Require Import Prelude Format.

(** ** The derived orderings

    [#[derive(Ord)]] compares fields from first to last. [RustOrd] is the
    comparison and [RustOrdLaws] says it is a total order whose equality is
    the structural one. *)
Class RustOrd (K : Type) := cmp : K -> K -> comparison.
Class RustOrdLaws (K : Type) {O : RustOrd K} : Prop := {
  cmp_eq : forall a b : K, cmp a b = Eq <-> a = b;
  cmp_antisym : forall a b : K, cmp b a = CompOpp (cmp a b);
  cmp_lt_trans : forall a b c : K, cmp a b = Lt -> cmp b c = Lt -> cmp a c = Lt }.

Definition cmp_ltb {K} `{RustOrd K} (a b : K) : bool :=
  match cmp a b with Lt => true | _ => false end.
Definition cmp_leb {K} `{RustOrd K} (a b : K) : bool :=
  match cmp a b with Gt => false | _ => true end.

#[export] Instance Z_ord : RustOrd Z := Z.compare.
#[export] Instance Z_ord_laws : RustOrdLaws Z.
Proof.
  split; unfold cmp, Z_ord.
  - apply Z.compare_eq_iff.
  - apply Z.compare_antisym.
  - intros a b c. rewrite !Z.compare_lt_iff. lia.
Qed.

Definition cmp_then (a b : comparison) : comparison :=
  match a with Eq => b | c => c end.
#[export] Instance prod_ord {A B} `{RustOrd A} `{RustOrd B} : RustOrd (A * B) :=
  fun x y => cmp_then (cmp x.1 y.1) (cmp x.2 y.2).
#[export] Instance prod_ord_laws {A B} `{RustOrdLaws A} `{RustOrdLaws B} :
  RustOrdLaws (A * B).
Proof.
  split; unfold cmp, prod_ord, cmp_then.
  - intros [a1 a2] [b1 b2]. simpl. split.
    + destruct (cmp a1 b1) eqn:E; try discriminate. intros E2.
      apply cmp_eq in E, E2. congruence.
    + intros [= -> ->]. rewrite (proj2 (cmp_eq b1 b1) eq_refl). now apply cmp_eq.
  - intros [a1 a2] [b1 b2]. simpl. rewrite (cmp_antisym a1 b1).
    destruct (cmp a1 b1); simpl; auto using cmp_antisym.
  - intros [a1 a2] [b1 b2] [c1 c2]. simpl.
    destruct (cmp a1 b1) eqn:E1; try discriminate;
      destruct (cmp b1 c1) eqn:E2; try discriminate; intros H1 H2.
    + apply cmp_eq in E1 as ->. rewrite E2. now apply cmp_lt_trans with b2.
    + apply cmp_eq in E1 as ->. now rewrite E2.
    + apply cmp_eq in E2 as ->. now rewrite E1.
    + now rewrite (cmp_lt_trans a1 b1 c1 E1 E2).
Qed.

(** The ordering of a struct, through the tuple of its fields. *)
Lemma injected_ord_laws {A B} `{RustOrdLaws B} (f : A -> B) :
  (forall a b, f a = f b -> a = b) ->
  @RustOrdLaws A (fun a b => cmp (f a) (f b)).
Proof.
  intros Hf. split; unfold cmp at 1.
  - intros a b. change (cmp (f a) (f b) = Eq <-> a = b). rewrite cmp_eq.
    split; [apply Hf|congruence].
  - intros a b. change (cmp (f b) (f a) = CompOpp (cmp (f a) (f b))). apply cmp_antisym.
  - intros a b c. apply (cmp_lt_trans (f a) (f b) (f c)).
Qed.

Section OrdLemmas.
Context {K} `{RustOrdLaws K}.

Lemma cmp_refl (a : K) : cmp a a = Eq.
Proof. now apply cmp_eq. Qed.
Lemma cmp_gt_lt (a b : K) : cmp a b = Gt <-> cmp b a = Lt.
Proof. rewrite (cmp_antisym a b). destruct (cmp a b); simpl; split; congruence. Qed.
Lemma cmp_ltb_lt (a b : K) : cmp_ltb a b = true <-> cmp a b = Lt.
Proof. unfold cmp_ltb. destruct (cmp a b); split; congruence. Qed.
Lemma cmp_leb_le (a b : K) : cmp_leb a b = true <-> cmp a b = Lt \/ a = b.
Proof.
  unfold cmp_leb. rewrite <- cmp_eq. destruct (cmp a b); split; intuition congruence.
Qed.
Lemma cmp_ltb_false (a b : K) : cmp_ltb a b = false <-> cmp_leb b a = true.
Proof. unfold cmp_ltb, cmp_leb. rewrite (cmp_antisym a b). now destruct (cmp a b). Qed.
Lemma cmp_leb_false (a b : K) : cmp_leb a b = false <-> cmp b a = Lt.
Proof. unfold cmp_leb. rewrite (cmp_antisym a b). now destruct (cmp a b). Qed.
Lemma cmp_lt_irrefl (a : K) : cmp a a <> Lt.
Proof. now rewrite cmp_refl. Qed.
Lemma cmp_le_trans (a b c : K) :
  cmp_leb a b = true -> cmp_leb b c = true -> cmp_leb a c = true.
Proof.
  rewrite !cmp_leb_le. intros [H1| ->] [H2| ->]; auto. left. now apply cmp_lt_trans with b.
Qed.
Lemma cmp_le_total (a b : K) : cmp_leb a b = true \/ cmp_leb b a = true.
Proof.
  unfold cmp_leb. rewrite (cmp_antisym a b). destruct (cmp a b); simpl; auto.
Qed.
Lemma cmp_le_antisym (a b : K) : cmp_leb a b = true -> cmp_leb b a = true -> a = b.
Proof.
  rewrite !cmp_leb_le. intros [H1| ->] [H2|H2]; auto.
  destruct (cmp_lt_irrefl a). now apply cmp_lt_trans with b.
Qed.
End OrdLemmas.
Lemma cmp_le_fst {B} `{RustOrd B} (x y : Z * B) : cmp_leb x y = true -> x.1 <= y.1.
Proof.
  unfold cmp_leb. change (cmp x y) with (cmp_then (x.1 ?= y.1) (cmp x.2 y.2)).
  destruct (Z.compare_spec x.1 y.1); simpl; (lia || discriminate).
Qed.

(** ** [protocol.rs] *)
Definition MAX_OBJECT_BYTES : Z := 64 * 1024 * 1024 + 4096.

(** The replication frontier a peer holds; compared field by field. *)
Record ReplicaCommitInfo := {
  rci_writer_fence : Z;
  rci_seq : Z;
  rci_sync_covered_through : Z }.

Definition ReplicaCommitInfo_ok (i : ReplicaCommitInfo) : Prop :=
  fits W64 (rci_writer_fence i) /\ fits W64 (rci_seq i)
  /\ fits W64 (rci_sync_covered_through i).

#[export] Instance ReplicaCommitInfo_eq_dec : EqDecision ReplicaCommitInfo.
Proof. solve_decision. Defined.
Definition ReplicaCommitInfo_fields (i : ReplicaCommitInfo) : Z * (Z * Z) :=
  (rci_writer_fence i, (rci_seq i, rci_sync_covered_through i)).
#[export] Instance ReplicaCommitInfo_ord : RustOrd ReplicaCommitInfo :=
  fun a b => cmp (ReplicaCommitInfo_fields a) (ReplicaCommitInfo_fields b).
#[export] Instance ReplicaCommitInfo_ord_laws : RustOrdLaws ReplicaCommitInfo.
Proof. apply (injected_ord_laws ReplicaCommitInfo_fields). intros [] [] [=]. now subst. Qed.

(** [ReplicaArtifact::Blx { fence, object }] is the only kind of artifact. *)
Inductive ReplicaArtifact := Blx (fence object : Z).
#[export] Instance ReplicaArtifact_eq_dec : EqDecision ReplicaArtifact.
Proof. solve_decision. Defined.
Definition ReplicaArtifact_fields (a : ReplicaArtifact) : Z * Z :=
  match a with Blx fence object => (fence, object) end.
#[export] Instance ReplicaArtifact_ord : RustOrd ReplicaArtifact :=
  fun a b => cmp (ReplicaArtifact_fields a) (ReplicaArtifact_fields b).
#[export] Instance ReplicaArtifact_ord_laws : RustOrdLaws ReplicaArtifact.
Proof. apply (injected_ord_laws ReplicaArtifact_fields). intros [] [] [=]. now subst. Qed.

(** ** [platform/src/lib.rs]: the page size of the process *)
Definition is_power_of_two (v : Z) : bool := (0 <? v) && (Z.land v (v - 1) =? 0).

Definition validate_page_size {E} (size : Z) : outcome E Z :=
  assert! is_power_of_two size in
  assert! 4096 <=? size in
  assert! size <? W32 in
  Ok size.

(** The value [sysconf] gave, once [validate_page_size] let it through. *)
Class PageSize := page_size : Z.
Class PageSizeLaws (P : PageSize) : Prop :=
  page_size_valid : @validate_page_size unit page_size = Ok page_size.

Lemma page_size_bounds `{PageSizeLaws} : 4096 <= page_size < W32.
Proof.
  pose proof page_size_valid as V. unfold validate_page_size in V. inv_ok. lia.
Qed.

Definition page_4096 : PageSize := 4096.
Lemma page_4096_laws : PageSizeLaws page_4096.
Proof. reflexivity. Qed.

(** ** Volumes and pages ([journal.rs], [types.rs]) *)
Inductive VolumeKind := VolumeKind_Memory | VolumeKind_Data.
#[export] Instance VolumeKind_eq_dec : EqDecision VolumeKind.
Proof. solve_decision. Defined.
Definition VolumeKind_u8 (k : VolumeKind) : Z :=
  match k with VolumeKind_Memory => 0 | VolumeKind_Data => 1 end.

Record VolumeConfig := { vc_kind : VolumeKind; vc_pages : Z }.
#[export] Instance VolumeConfig_eq_dec : EqDecision VolumeConfig.
Proof. solve_decision. Defined.

Record PageId := { pid_volume : Z; pid_page : Z }.
#[export] Instance PageId_eq_dec : EqDecision PageId.
Proof. solve_decision. Defined.
Definition PageId_fields (p : PageId) : Z * Z := (pid_volume p, pid_page p).
#[export] Instance PageId_ord : RustOrd PageId :=
  fun a b => cmp (PageId_fields a) (PageId_fields b).
#[export] Instance PageId_ord_laws : RustOrdLaws PageId.
Proof. apply (injected_ord_laws PageId_fields). intros [] [] [=]. now subst. Qed.

Definition VolumeConfig_contains (self : VolumeConfig) (page : PageId) : bool :=
  pid_page page <? vc_pages self.
Definition VolumeConfig_is_memory (self : VolumeConfig) : bool :=
  bool_decide (vc_kind self = VolumeKind_Memory).
Definition VolumeConfig_valid (self : VolumeConfig) : bool := 0 <? vc_pages self.
Definition VolumeConfig_ok (c : VolumeConfig) : Prop := 0 < vc_pages c < W32.
