(* ===== verification/Text.v ===== *)
(** * Strings as the code uses them

    The operations of [str] and the hexadecimal formatting and parsing that
    [layout.rs] relies on, over strings of bytes. *)

From Stdlib Require Import Ascii.
From Stdlib Require String.
From stdpp Require Export strings.
From S2P Require Import Prelude Types.

#[local] Open Scope string_scope.
#[local] Open Scope Z_scope.
#[global] Arguments String.append !_ _ : simpl nomatch.

(** [str::strip_prefix], [str::strip_suffix], [str::split_once] and
    [str::split] for a single ASCII character. *)
Fixpoint strip_prefix (prefix s : string) : option string :=
  match prefix, s with
  | "", _ => Some s
  | String c prefix, String d s => if Ascii.eqb c d then strip_prefix prefix s else None
  | _, "" => None
  end.
Fixpoint strip_suffix (s suffix : string) : option string :=
  if String.eqb s suffix then Some "" else
  match s with
  | "" => None
  | String c s => match strip_suffix s suffix with Some body => Some (String c body) | None => None end
  end.
Fixpoint split_once (c : Ascii.ascii) (s : string) : option (string * string) :=
  match s with
  | "" => None
  | String d s =>
      if Ascii.eqb d c then Some ("", s)
      else match split_once c s with Some (a, b) => Some (String d a, b) | None => None end
  end.
Fixpoint split (c : Ascii.ascii) (s : string) : list string :=
  match s with
  | "" => [""]
  | String d s =>
      if Ascii.eqb d c then "" :: split c s
      else match split c s with part :: parts => String d part :: parts | [] => [String d ""] end
  end.

(** Digits: [format!("{:0n$x}")] of a value of [4 n] bits, and
    [from_str_radix(_, 16)] of an unsigned type with [bound] values, which
    takes digits of either case and one leading plus sign. *)
Definition hex_digit (v : Z) : Ascii.ascii :=
  Ascii.ascii_of_N (Z.to_N (if v <? 10 then 48 + v else 87 + v)).
Definition hex_value (c : Ascii.ascii) : option Z :=
  let n := Z.of_N (Ascii.N_of_ascii c) in
  if (48 <=? n) && (n <=? 57) then Some (n - 48)
  else if (97 <=? n) && (n <=? 102) then Some (n - 87)
  else if (65 <=? n) && (n <=? 70) then Some (n - 55)
  else None.
Fixpoint hex (n : nat) (v : Z) : string :=
  match n with
  | O => ""
  | S n => hex n (v / 16) ++ String (hex_digit (v mod 16)) ""
  end.
Fixpoint hex_digits (bound acc : Z) (s : string) : option Z :=
  match s with
  | "" => Some acc
  | String c s =>
      match hex_value c with
      | Some d => if acc * 16 + d <? bound then hex_digits bound (acc * 16 + d) s else None
      | None => None
      end
  end.
Definition from_str_radix16 (bound : Z) (s : string) : option Z :=
  match s with
  | "" => None
  | String c rest =>
      if Ascii.eqb c "+"%char then match rest with "" => None | _ => hex_digits bound 0 rest end
      else hex_digits bound 0 s
  end.

(** ** Round trips *)
Lemma append_assoc a b c : (a ++ b) ++ c = a ++ (b ++ c).
Proof. induction a; simpl; congruence. Qed.
Lemma append_nil_r a : a ++ "" = a.
Proof. induction a; simpl; congruence. Qed.
Lemma append_length a b : String.length (a ++ b) = (String.length a + String.length b)%nat.
Proof. induction a; simpl; congruence. Qed.
Lemma strip_prefix_app p s : strip_prefix p (p ++ s) = Some s.
Proof. induction p as [|c p IH]; simpl; [now destruct s|]. now rewrite Ascii.eqb_refl. Qed.
Lemma strip_suffix_app s suffix : strip_suffix (s ++ suffix) suffix = Some s.
Proof.
  induction s as [|c s IH].
  - destruct suffix as [|d suffix]; [reflexivity|]. cbn [strip_suffix String.append].
    now rewrite String.eqb_refl.
  - cbn [strip_suffix String.append]. rewrite IH.
    destruct (String.eqb_spec (String c (s ++ suffix)) suffix) as [H|]; [|reflexivity].
    exfalso. apply (f_equal String.length) in H. simpl in H. rewrite append_length in H. lia.
Qed.

Lemma strip_suffix_inv s suffix body : strip_suffix s suffix = Some body -> s = body ++ suffix.
Proof.
  revert body. induction s as [|c s IH]; intros body; cbn [strip_suffix].
  - destruct (String.eqb_spec "" suffix) as [<-|]; [now intros [= <-]|discriminate].
  - destruct (String.eqb_spec (String c s) suffix) as [<-|]; [now intros [= <-]|].
    destruct (strip_suffix s suffix) as [b|]; [|discriminate]. intros [= <-]. simpl. f_equal. now apply IH.
Qed.
Lemma append_last a b c d : a ++ String c "" = b ++ String d "" -> a = b /\ c = d.
Proof.
  revert b. induction a as [|x a IH]; intros [|y b]; simpl; intros H.
  - injection H as ->. auto.
  - injection H as -> H. destruct b; discriminate.
  - injection H as -> H. destruct a; discriminate.
  - injection H as -> H. destruct (IH b H). now subst.
Qed.

(** No character of [s] is [c]. *)
Fixpoint free_of (c : Ascii.ascii) (s : string) : bool :=
  match s with "" => true | String d s => negb (Ascii.eqb d c) && free_of c s end.
Lemma free_of_app c a b : free_of c (a ++ b) = free_of c a && free_of c b.
Proof. induction a as [|d a IH]; simpl; [reflexivity|]. now rewrite IH, andb_assoc. Qed.
Lemma split_once_app c a b : free_of c a = true -> split_once c (a ++ String c b) = Some (a, b).
Proof.
  induction a as [|d a IH]; simpl; [now rewrite Ascii.eqb_refl|].
  intros [Hd Ha]%andb_true_iff. apply negb_true_iff in Hd. now rewrite Hd, IH.
Qed.
Lemma split_once_free c a : free_of c a = true -> split_once c a = None.
Proof.
  induction a as [|d a IH]; simpl; [reflexivity|].
  intros [Hd Ha]%andb_true_iff. apply negb_true_iff in Hd. now rewrite Hd, IH.
Qed.
Lemma split_free c a : free_of c a = true -> split c a = [a].
Proof.
  induction a as [|d a IH]; simpl; [reflexivity|].
  intros [Hd Ha]%andb_true_iff. apply negb_true_iff in Hd. now rewrite Hd, IH.
Qed.
Lemma split_app c a b : free_of c a = true -> split c (a ++ String c b) = a :: split c b.
Proof.
  induction a as [|d a IH]; simpl; [now rewrite Ascii.eqb_refl|].
  intros [Hd Ha]%andb_true_iff. apply negb_true_iff in Hd. now rewrite Hd, IH.
Qed.

Lemma hex_digit_cases (Q : Z -> Ascii.ascii -> Prop) v :
  Forall (fun v => Q v (hex_digit v)) (seqZ 0 16) -> 0 <= v < 16 -> Q v (hex_digit v).
Proof. intros H Hv. rewrite List.Forall_forall in H. apply H, list_elem_of_In, elem_of_seqZ. lia. Qed.
Lemma hex_value_digit v : 0 <= v < 16 -> hex_value (hex_digit v) = Some v.
Proof. apply (hex_digit_cases (fun v c => hex_value c = Some v)). repeat constructor. Qed.
Definition is_hex (c : Ascii.ascii) : bool := bool_decide (is_Some (hex_value c)).
Lemma hex_free_of c n v : is_hex c = false -> free_of c (hex n v) = true.
Proof.
  intros Hc. revert v. induction n as [|n IH]; intros v; simpl; [reflexivity|].
  rewrite free_of_app, IH. simpl. rewrite andb_true_r, negb_true_iff.
  apply Ascii.eqb_neq. intros <-. unfold is_hex in Hc.
  rewrite hex_value_digit in Hc by (apply Z.mod_pos_bound; lia).
  now rewrite bool_decide_eq_true_2 in Hc by eauto.
Qed.
Lemma length_hex n v : String.length (hex n v) = n.
Proof. revert v. induction n as [|n IH]; intros v; simpl; [reflexivity|]. rewrite append_length, IH. simpl. lia. Qed.

Lemma hex_digits_app bound acc a b :
  hex_digits bound acc (a ++ b)
  = match hex_digits bound acc a with Some acc => hex_digits bound acc b | None => None end.
Proof.
  revert acc. induction a as [|c a IH]; intros acc; simpl; [reflexivity|].
  destruct (hex_value c); [|reflexivity]. now destruct (_ <? _).
Qed.
Lemma hex_digits_hex bound n v :
  0 <= v < 16 ^ Z.of_nat n -> v < bound -> hex_digits bound 0 (hex n v) = Some v.
Proof.
  revert v. induction n as [|n IH]; intros v Hv Hb.
  - simpl in *. f_equal. lia.
  - cbn [hex]. rewrite hex_digits_app. rewrite Nat2Z.inj_succ, Z.pow_succ_r in Hv by lia.
    pose proof (Z.mod_pos_bound v 16). pose proof (Z.div_mod v 16).
    rewrite IH by (try apply Z.div_lt_upper_bound; try (split; [apply Z.div_pos|]);
      try apply Z.div_lt_upper_bound; lia).
    cbn [hex_digits]. rewrite hex_value_digit by lia.
    replace (v / 16 * 16 + v mod 16) with v by lia. now rewrite (proj2 (Z.ltb_lt _ _)).
Qed.
Lemma from_str_radix16_hex bound n v :
  (0 < n)%nat -> 0 <= v < 16 ^ Z.of_nat n -> v < bound -> from_str_radix16 bound (hex n v) = Some v.
Proof.
  intros Hn Hv Hb. pose proof (hex_digits_hex bound n v Hv Hb) as Hd.
  pose proof (length_hex n v) as Hl. pose proof (hex_free_of "+"%char n v eq_refl) as Hp.
  unfold from_str_radix16. destruct (hex n v) as [|c s]; [simpl in Hl; lia|].
  simpl in Hp. apply andb_true_iff in Hp as [Hc _]. apply negb_true_iff in Hc. rewrite Hc. exact Hd.
Qed.

(** A parsed number is in the range of its type. *)
Lemma hex_digits_fits bound acc s v :
  0 <= acc < bound -> hex_digits bound acc s = Some v -> fits bound v.
Proof.
  revert acc. induction s as [|c s IH]; intros acc Ha; cbn [hex_digits].
  - intros [= <-]. exact Ha.
  - unfold hex_value. repeat case_match; try discriminate; simplify_eq; apply IH; lia.
Qed.
Lemma from_str_radix16_fits bound s v : 0 < bound ->
  from_str_radix16 bound s = Some v -> fits bound v.
Proof.
  intros Hb. unfold from_str_radix16. repeat case_match; try discriminate;
    apply hex_digits_fits; lia.
Qed.

(** Formatting sees only the low digits. *)
Lemma hex_mod n v : hex n v = hex n (v mod 16 ^ Z.of_nat n).
Proof.
  revert v. induction n as [|n IH]; intros v; [reflexivity|]. cbn [hex].
  rewrite Nat2Z.inj_succ, Z.pow_succ_r by lia.
  assert (0 < 16 ^ Z.of_nat n) by (apply Z.pow_pos_nonneg; lia).
  rewrite Z.rem_mul_r by lia.
  replace ((v mod 16 + 16 * ((v / 16) mod 16 ^ Z.of_nat n)) / 16) with ((v / 16) mod 16 ^ Z.of_nat n).
  2: { rewrite Z.mul_comm, Z.div_add, (Z.div_small (v mod 16)); lia || (apply Z.mod_pos_bound; lia). }
  replace ((v mod 16 + 16 * ((v / 16) mod 16 ^ Z.of_nat n)) mod 16) with (v mod 16).
  2: { rewrite Z.mul_comm, Z.mod_add, Z.mod_mod; lia. }
  now rewrite <- IH.
Qed.

(** ** [String] is ordered by its bytes *)
#[export] Instance string_ord : RustOrd string := String.compare.
Lemma ascii_compare_lt a b : Ascii.compare a b = Lt <-> (Ascii.N_of_ascii a < Ascii.N_of_ascii b)%N.
Proof. unfold Ascii.compare. apply N.compare_lt_iff. Qed.
Lemma string_compare_trans : forall a b c,
  String.compare a b = Lt -> String.compare b c = Lt -> String.compare a c = Lt.
Proof.
  induction a as [|x a IH]; intros [|y b] [|z c]; simpl; try discriminate; auto.
  destruct (Ascii.compare x y) eqn:E1; try discriminate;
    destruct (Ascii.compare y z) eqn:E2; try discriminate; intros H1 H2.
  - apply Ascii.compare_eq_iff in E1 as ->. rewrite E2. eauto.
  - apply Ascii.compare_eq_iff in E1 as ->. now rewrite E2.
  - apply Ascii.compare_eq_iff in E2 as ->. now rewrite E1.
  - assert (Ascii.compare x z = Lt) as ->; [|reflexivity].
    rewrite ascii_compare_lt in *. lia.
Qed.
Lemma string_compare_refl a : String.compare a a = Eq.
Proof.
  induction a as [|x a IH]; simpl; [reflexivity|].
  assert (Ascii.compare x x = Eq) as -> by apply N.compare_refl. exact IH.
Qed.
#[export] Instance string_ord_laws : RustOrdLaws string.
Proof.
  split; unfold cmp, string_ord.
  - intros a b. split; [apply String.compare_eq_iff|intros ->; apply string_compare_refl].
  - intros a b. apply String.compare_antisym.
  - apply string_compare_trans.
Qed.
