(* ===== verification/Prost.v ===== *)
(** * Protocol buffer messages

    The placement and session records are frames around messages whose codec
    is derived by the crate [prost]. It is a parameter: a type of messages has
    an encoder and a decoder, which satisfy what the code relies on. *)

From S2P Require Import Prelude Format.

Class Prost (W : Type) := {
  encode_to_vec : W -> bytes;
  message_decode : bytes -> option W }.
(** A message whose fields are in the range of their types is read back, what
    is read is in range, and an encoding has at most the given size. *)
Class ProstLaws {W} (M : Prost W) (wire_ok : W -> Prop) (wire_size : W -> Z) : Prop := {
  message_reads : forall w, wire_ok w -> message_decode (encode_to_vec w) = Some w;
  message_range : forall bs w, all_bytes bs -> message_decode bs = Some w -> wire_ok w;
  message_bytes : forall w, wire_ok w -> all_bytes (encode_to_vec w);
  message_size : forall w, wire_ok w -> len (encode_to_vec w) <= wire_size w }.

(** [Message::decode(payload)] accepted only when re-encoding gives the payload
    back, as both records do. *)
Definition decode_canonical {W} `{Prost W} (bs : bytes) : option W :=
  match message_decode bs with
  | Some w => if bool_decide (encode_to_vec w = bs) then Some w else None
  | None => None
  end.
Section Laws.
Context {W : Type} `{PL : ProstLaws W}.
Lemma canonical_reads w : wire_ok w -> decode_canonical (encode_to_vec w) = Some w.
Proof using PL.
  intros Hw. unfold decode_canonical. rewrite message_reads by exact Hw.
  now rewrite bool_decide_eq_true_2.
Qed.
Lemma canonical_inv bs w : all_bytes bs -> decode_canonical bs = Some w ->
  wire_ok w /\ bs = encode_to_vec w.
Proof using PL.
  unfold decode_canonical. intros Hb. destruct (message_decode bs) as [w'|] eqn:Hd; [|discriminate].
  case_bool_decide as He; [|discriminate]. intros [= <-]. split; [|auto]. now apply (message_range bs).
Qed.
End Laws.
