(* ===== verification/Sorting.v ===== *)
(** * [sort_by], [sort_unstable] and [dedup] on vectors

    Sorting by a boolean order is insertion sort, which is stable; an unstable
    sort by an order in which equal elements are identical gives the same list. *)

From Stdlib Require Import Permutation Sorted.
From S2P Require Import Prelude.

Section Sort.
Context {A : Type} (leb : A -> A -> bool) (same : A -> A -> bool).

Fixpoint insert_by (x : A) (l : list A) : list A :=
  match l with
  | [] => [x]
  | y :: l' => if leb x y then x :: l else y :: insert_by x l'
  end.
Definition sort_by (l : list A) : list A := foldr insert_by [] l.
(** [dedup_by]: of consecutive elements that are the same the first is kept. *)
Fixpoint dedup_from (x : A) (l : list A) : list A :=
  match l with
  | [] => [x]
  | y :: l => if same y x then dedup_from x l else x :: dedup_from y l
  end.
Definition dedup_by (l : list A) : list A :=
  match l with [] => [] | x :: l => dedup_from x l end.

Lemma insert_by_perm x l : Permutation (insert_by x l) (x :: l).
Proof.
  induction l as [|y l IH]; simpl; [reflexivity|]. destruct (leb x y); [reflexivity|].
  rewrite IH. apply perm_swap.
Qed.
Lemma sort_by_perm l : Permutation (sort_by l) l.
Proof.
  induction l as [|x l IH]; simpl; [reflexivity|]. unfold sort_by in *. simpl.
  rewrite insert_by_perm. now apply perm_skip.
Qed.
Lemma In_sort_by x l : In x (sort_by l) <-> In x l.
Proof. split; apply Permutation_in; [|symmetry]; apply sort_by_perm. Qed.

Lemma In_dedup_from x y l : In y (dedup_from x l) -> y = x \/ In y l.
Proof.
  revert x. induction l as [|z l IH]; intros x; simpl; [intros [H|[]]; auto|].
  destruct (same _ _); [intros [?|?]%IH; auto|].
  intros [->|H]; [auto|]. apply IH in H as [->|?]; auto.
Qed.
Lemma In_dedup_by y l : In y (dedup_by l) -> In y l.
Proof. destruct l; [auto|]. intros [->|H]%In_dedup_from; simpl; auto. Qed.

(** Whatever is dropped is the same as something kept. *)
Section Kept.
Context {K : Type} (key : A -> K).
Hypothesis same_key : forall x y, same x y = true -> key x = key y.
Lemma dedup_from_keys x l : forall y, y = x \/ In y l -> exists z, In z (dedup_from x l) /\ key z = key y.
Proof using same_key.
  revert x. induction l as [|z l IH]; intros x y; simpl; [intros [->|[]]; eauto|].
  destruct (same z x) eqn:Hs.
  - intros [->|[<-|H]]; [apply IH; auto| |apply IH; auto].
    rewrite (same_key _ _ Hs). apply IH. auto.
  - intros [->|H]; [exists x; simpl; auto|]. destruct (IH z y) as (w & ? & ?); [destruct H; auto|].
    exists w. simpl. auto.
Qed.
Lemma dedup_by_keys y l : In y l -> exists z, In z (dedup_by l) /\ key z = key y.
Proof using same_key. destruct l as [|x l]; [intros []|]. intros H. apply dedup_from_keys. destruct H as [->|H]; auto. Qed.
End Kept.

Section Ordered.
Hypothesis total : forall x y, leb x y = true \/ leb y x = true.
Hypothesis trans : forall x y z, leb x y = true -> leb y z = true -> leb x z = true.
Abbreviation le := (fun x y => leb x y = true).

Lemma insert_by_sorted x l : StronglySorted le l -> StronglySorted le (insert_by x l).
Proof using total trans.
  induction 1 as [|y l Hs IH Hy]; simpl; [repeat constructor|].
  destruct (leb x y) eqn:E.
  - constructor; [now constructor|]. constructor; [exact E|].
    rewrite List.Forall_forall in *. eauto.
  - constructor; [exact IH|]. rewrite List.Forall_forall in *. intros z Hz.
    apply (Permutation_in _ (insert_by_perm x l)) in Hz as [<-|Hz]; [|auto].
    destruct (total x y); congruence.
Qed.
Lemma sort_by_sorted l : StronglySorted le (sort_by l).
Proof using total trans. induction l; [constructor|]. now apply insert_by_sorted. Qed.

(** A sorted list is determined by its elements. *)
Lemma sorted_unique l : forall k, (forall x y, In x l -> In y l -> leb x y = true -> leb y x = true -> x = y) ->
  StronglySorted le l -> StronglySorted le k -> Permutation l k -> l = k.
Proof using total.
  induction l as [|x l IH]; intros k Ha Hl Hk Hp.
  { apply Permutation_nil in Hp. congruence. }
  destruct k as [|y k]; [symmetry in Hp; now apply Permutation_nil in Hp|].
  inversion Hl as [|? ? Hl' Hx]; inversion Hk as [|? ? Hk' Hy]; subst.
  rewrite List.Forall_forall in *.
  assert (x = y) as ->.
  { assert (In x (y :: k)) as [->|Hxk] by (eapply Permutation_in; [exact Hp|now left]); [reflexivity|].
    assert (In y (x :: l)) as [->|Hyl] by (eapply Permutation_in; [symmetry; exact Hp|now left]); [reflexivity|].
    apply Ha; [now left|now right|now apply Hx|now apply Hy]. }
  f_equal. apply IH; auto; [intros; apply Ha; auto; now right|]. now apply Permutation_cons_inv in Hp.
Qed.
Lemma sort_by_unique l k :
  (forall x y, In x l -> In y l -> leb x y = true -> leb y x = true -> x = y) ->
  StronglySorted le k -> Permutation k l -> sort_by l = k.
Proof using total trans.
  intros Ha Hk Hp. apply sorted_unique; [|apply sort_by_sorted|exact Hk|].
  - intros x y Hx Hy. apply Ha; now apply In_sort_by.
  - rewrite sort_by_perm. now symmetry.
Qed.
Lemma sorted_filter p l : StronglySorted le l -> StronglySorted le (List.filter p l).
Proof.
  induction 1 as [|x l Hs IH Hx]; simpl; [constructor|]. destruct (p x); [|exact IH].
  constructor; [exact IH|]. rewrite List.Forall_forall in *. intros y [Hy _]%filter_In. auto.
Qed.
End Ordered.
End Sort.

Lemma Permutation_filter_bool {A} (p : A -> bool) l k :
  Permutation l k -> Permutation (List.filter p l) (List.filter p k).
Proof.
  induction 1 as [|x l k H IH|x y l|l k m H1 IH1 H2 IH2]; simpl; try reflexivity.
  - destruct (p x); [now constructor|exact IH].
  - destruct (p x), (p y); try reflexivity. apply perm_swap.
  - now transitivity (List.filter p k).
Qed.
