(* ===== verification/Placement.v ===== *)
(** * Cluster placement ([placement.rs])

    The membership record of the cluster and the ranking of passive stash
    candidates. *)

From Stdlib Require Import Permutation Sorted.
From S2P Require Import Prelude Format Prost Sorting.

Definition CLUSTER_PLACEMENT_MAGIC : Z := magic 66 67 80 76.
Definition CLUSTER_PLACEMENT_VERSION : Z := 1.
Definition MAX_CLUSTER_PLACEMENT_PAYLOAD_BYTES : Z := 2 * 1024 * 1024.
Definition MIN_PLACEMENT_MEMBERS : Z := 3.

Record ClusterPlacementWire := {
  cpw_version : Z;
  cpw_cluster_id : Z;
  cpw_epoch : Z;
  cpw_roster : list Z }.
Record ClusterPlacement := {
  cp_cluster_id : Z;
  cp_epoch : Z;
  cp_roster : list Z }.

(** [windows(2).all(|pair| pair[0] < pair[1])]. *)
Fixpoint ascending (l : list Z) : bool :=
  match l with
  | x :: (y :: _) as l' => (x <? y) && ascending l'
  | _ => true
  end.
Definition ClusterPlacement_validate (self : ClusterPlacement) : bool :=
  negb (cp_cluster_id self =? 0) && negb (cp_epoch self =? 0)
  && (MIN_PLACEMENT_MEMBERS <=? len (cp_roster self)) && ascending (cp_roster self).
Definition ClusterPlacement_from_members (cluster_id epoch : Z) (members : list Z) : ClusterPlacement :=
  {| cp_cluster_id := cluster_id; cp_epoch := epoch;
     cp_roster := dedup_by Z.eqb (sort_by Z.leb members) |}.
Definition ClusterPlacement_new (cluster_id epoch : Z) (members : list Z) : option ClusterPlacement :=
  let placement := ClusterPlacement_from_members cluster_id epoch members in
  if ClusterPlacement_validate placement then Some placement else None.

(** [slice::binary_search(..).is_ok()]: bisection of the range [lo, hi). *)
Fixpoint bisect (fuel : nat) (l : list Z) (lo hi : nat) (x : Z) : bool :=
  match fuel with
  | O => false
  | S fuel =>
      if (hi <=? lo)%nat then false else
      let mid := ((lo + hi) / 2)%nat in
      match l !! mid with
      | Some y =>
          match Z.compare x y with
          | Eq => true
          | Lt => bisect fuel l lo mid x
          | Gt => bisect fuel l (S mid) hi x
          end
      | None => false
      end
  end.
Definition ClusterPlacement_contains (self : ClusterPlacement) (host : Z) : bool :=
  bisect (S (length (cp_roster self))) (cp_roster self) 0 (length (cp_roster self)) host.

Section Codec.
Context `{C : Crc} `{M : !Prost ClusterPlacementWire}.

Definition ClusterPlacement_encode {E} (self : ClusterPlacement) : outcome E bytes :=
  assert! ClusterPlacement_validate self in
  let wire := {| cpw_version := CLUSTER_PLACEMENT_VERSION; cpw_cluster_id := cp_cluster_id self;
                 cpw_epoch := cp_epoch self; cpw_roster := cp_roster self |} in
  let payload := encode_to_vec wire in
  assert! len payload <=? MAX_CLUSTER_PLACEMENT_PAYLOAD_BYTES in
  seal_frame CLUSTER_PLACEMENT_MAGIC payload.
Definition ClusterPlacement_decode (bs : bytes) : option ClusterPlacement :=
  match open_frame CLUSTER_PLACEMENT_MAGIC bs with
  | Ok payload =>
      if MAX_CLUSTER_PLACEMENT_PAYLOAD_BYTES <? len payload then None else
      wire ← decode_canonical payload;
      if negb (cpw_version wire =? CLUSTER_PLACEMENT_VERSION)
         || (cpw_cluster_id wire =? 0) || (cpw_epoch wire =? 0) then None else
      let placement := {| cp_cluster_id := cpw_cluster_id wire; cp_epoch := cpw_epoch wire;
                          cp_roster := cpw_roster wire |} in
      if ClusterPlacement_validate placement then Some placement else None
  | _ => None
  end.
End Codec.

(** ** Ranking *)
Definition wrapping_mul (a b : Z) : Z := (a * b) mod W64.
Definition wrapping_add (a b : Z) : Z := (a + b) mod W64.
Definition placement_hash (membership_epoch primary volume candidate : Z) : Z :=
  let bs := to_le 8 membership_epoch ++ to_le 4 primary ++ to_le 8 volume ++ to_le 4 candidate in
  let hash := fold_left (fun hash byte => wrapping_mul (Z.lxor hash byte) 1099511628211)
                bs 14695981039346656037 in
  let mixed := wrapping_add hash 11400714819323198485 in
  let mixed := wrapping_mul (Z.lxor mixed (Z.shiftr mixed 30)) 13787848793156543929 in
  let mixed := wrapping_mul (Z.lxor mixed (Z.shiftr mixed 27)) 10723151780598845931 in
  Z.lxor mixed (Z.shiftr mixed 31).
(** Higher scores first, then lower hosts. *)
Definition rank_leb (a b : Z * Z) : bool := (b.1 <? a.1) || ((b.1 =? a.1) && (a.2 <=? b.2)).
Definition rank_stash_candidates (membership_epoch primary volume : Z) (roster : list Z) : list Z :=
  map snd (sort_by rank_leb
    (map (fun candidate => (placement_hash membership_epoch primary volume candidate, candidate))
       (List.filter (fun candidate => negb (candidate =? primary)) roster))).

(** ** The roster *)
Lemma ascending_sorted l : ascending l = true <-> StronglySorted Z.lt l.
Proof.
  split.
  - intros H. apply Sorted_StronglySorted; [intros x y z; lia|].
    induction l as [|x [|y l] IH]; [constructor|repeat constructor|]. simpl in H.
    apply andb_true_iff in H as [Hx H]. constructor; [now apply IH|constructor; now apply Z.ltb_lt].
  - induction 1 as [|x l Hs IH Hx]; [reflexivity|]. destruct l as [|y l]; [reflexivity|].
    inversion Hx. simpl in *. rewrite IH, andb_true_r. now apply Z.ltb_lt.
Qed.
Lemma sort_Z_sorted l : StronglySorted (fun x y => (x <=? y) = true) (sort_by Z.leb l).
Proof. apply sort_by_sorted; intros; lia. Qed.
Lemma dedup_sorted x l : StronglySorted (fun x y => (x <=? y) = true) (x :: l) ->
  StronglySorted Z.lt (dedup_from Z.eqb x l) /\ Forall (Z.le x) (dedup_from Z.eqb x l).
Proof.
  revert x. induction l as [|y l IH]; intros x Hs; simpl; [repeat constructor; lia|].
  inversion Hs as [|? ? Hl Hx]; subst. inversion Hx as [|? ? Hxy Hx']; subst.
  destruct (Z.eqb_spec y x) as [->|Hne]; [now apply IH|].
  destruct (IH y Hl) as [IH1 IH2]. apply Z.leb_le in Hxy. split.
  - constructor; [exact IH1|]. eapply List.Forall_impl; [|exact IH2]. simpl. lia.
  - constructor; [lia|]. eapply List.Forall_impl; [|exact IH2]. simpl. lia.
Qed.
Lemma In_members x members : In x (dedup_by Z.eqb (sort_by Z.leb members)) <-> In x members.
Proof.
  split; [now intros H%In_dedup_by%In_sort_by|]. intros H.
  destruct (dedup_by_keys Z.eqb id (fun x y => proj1 (Z.eqb_eq x y)) x (sort_by Z.leb members))
    as (z & Hz & E); [now apply In_sort_by|]. unfold id in E. now subst.
Qed.
Lemma members_ascending members : StronglySorted Z.lt (dedup_by Z.eqb (sort_by Z.leb members)).
Proof.
  pose proof (sort_Z_sorted members) as H. destruct (sort_by Z.leb members) as [|x l]; [constructor|].
  now apply dedup_sorted.
Qed.
Lemma ascending_unique l k : StronglySorted Z.lt l -> StronglySorted Z.lt k ->
  (forall x, In x l <-> In x k) -> l = k.
Proof.
  revert k. induction l as [|x l IH]; intros k Hl Hk He.
  { destruct k as [|y k]; [reflexivity|]. destruct (proj2 (He y)). now left. }
  destruct k as [|y k]; [destruct (proj1 (He x)); now left|].
  inversion Hl as [|? ? Hl' Hx]; inversion Hk as [|? ? Hk' Hy]; subst.
  rewrite List.Forall_forall in *.
  assert (x = y) as ->.
  { destruct (proj1 (He x) (or_introl eq_refl)) as [|H1]; [congruence|].
    destruct (proj2 (He y) (or_introl eq_refl)) as [|H2]; [congruence|].
    pose proof (Hx _ H2). pose proof (Hy _ H1). lia. }
  f_equal. apply IH; auto. intros z. split; intros Hz.
  - destruct (proj1 (He z) (or_intror Hz)) as [->|]; [|auto]. pose proof (Hx _ Hz). lia.
  - destruct (proj2 (He z) (or_intror Hz)) as [->|]; [|auto]. pose proof (Hy _ Hz). lia.
Qed.

Lemma sorted_lookup l i j x y : StronglySorted Z.lt l -> (i < j)%nat ->
  l !! i = Some x -> l !! j = Some y -> x < y.
Proof.
  intros Hs. revert i j. induction Hs as [|z l Hs IH Hz]; intros i j Hij Hi Hj; [now rewrite lookup_nil in Hi|].
  destruct j as [|j]; [lia|]. destruct i as [|i]; simpl in *.
  - injection Hi as ->. rewrite List.Forall_forall in Hz. apply Hz.
    apply list_elem_of_In. now apply list_elem_of_lookup_2 in Hj.
  - eapply (IH i j); eauto. lia.
Qed.
Lemma bisect_spec l x : StronglySorted Z.lt l -> forall fuel lo hi,
  (hi - lo < fuel)%nat -> (hi <= length l)%nat ->
  bisect fuel l lo hi x = true <-> exists i, (lo <= i < hi)%nat /\ l !! i = Some x.
Proof.
  intros Hs. induction fuel as [|fuel IH]; intros lo hi Hf Hh; [lia|]. cbn [bisect].
  destruct (Nat.leb_spec hi lo); [split; [discriminate|intros (i & ? & _); lia]|].
  set (mid := ((lo + hi) / 2)%nat).
  assert (lo <= mid < hi)%nat as Hm.
  { unfold mid. pose proof (Nat.div_mod (lo + hi) 2 ltac:(lia)).
    pose proof (Nat.mod_upper_bound (lo + hi) 2 ltac:(lia)). lia. }
  fold mid. destruct (l !! mid) as [y|] eqn:Hy; [|apply lookup_ge_None in Hy; lia].
  destruct (Z.compare_spec x y) as [->|Hxy|Hxy].
  - split; [intros _; exists mid; auto|auto].
  - rewrite IH by lia. split; intros (i & Hi & Hx); exists i; (split; [|exact Hx]); [lia|].
    destruct (decide (mid <= i)%nat); [|lia]. assert (mid = i \/ mid < i)%nat as [->|Hlt] by lia.
    + rewrite Hy in Hx. injection Hx. lia.
    + pose proof (sorted_lookup _ _ _ _ _ Hs Hlt Hy Hx). lia.
  - rewrite IH by lia. split; intros (i & Hi & Hx); exists i; (split; [|exact Hx]); [lia|].
    destruct (decide (i <= mid)%nat); [|lia]. assert (mid = i \/ i < mid)%nat as [->|Hlt] by lia.
    + rewrite Hy in Hx. injection Hx. lia.
    + pose proof (sorted_lookup _ _ _ _ _ Hs Hlt Hx Hy). lia.
Qed.

(** ** Ranking *)
Lemma rank_leb_total x y : rank_leb x y = true \/ rank_leb y x = true.
Proof. unfold rank_leb. destruct x, y; simpl; lia. Qed.
Lemma rank_leb_trans x y z : rank_leb x y = true -> rank_leb y z = true -> rank_leb x z = true.
Proof. unfold rank_leb. destruct x, y, z; simpl; lia. Qed.
Lemma rank_leb_antisym x y : rank_leb x y = true -> rank_leb y x = true -> x = y.
Proof. unfold rank_leb. destruct x, y; simpl. intros. f_equal; lia. Qed.
Definition scored (e p v : Z) (roster : list Z) : list (Z * Z) :=
  map (fun candidate => (placement_hash e p v candidate, candidate))
    (List.filter (fun candidate => negb (candidate =? p)) roster).
Lemma scored_filter e p v q roster :
  scored e p v (List.filter q roster) = List.filter (fun x => q x.2) (scored e p v roster).
Proof.
  unfold scored. induction roster as [|x l IH]; [reflexivity|]. simpl.
  destruct (q x) eqn:Hq; simpl; destruct (x =? p); simpl; rewrite ?Hq, IH; reflexivity.
Qed.
Lemma map_filter_snd q (l : list (Z * Z)) :
  map snd (List.filter (fun x => q x.2) l) = List.filter q (map snd l).
Proof. induction l as [|x l IH]; [reflexivity|]. simpl. destruct (q x.2); simpl; now rewrite IH. Qed.

(** The stash ranking lists every member but the primary exactly as often
    as the roster does, by falling score and then rising host id. It does not
    depend on the order of the roster. And taking hosts out of the roster takes
    them out of the ranking without moving any other candidate, so a volume
    keeps its target unless that target left. *)
Theorem ranking_stable (e p v : Z) (roster : list Z) :
  Permutation (rank_stash_candidates e p v roster)
    (List.filter (fun candidate => negb (candidate =? p)) roster)
  /\ StronglySorted (fun x y => rank_leb (placement_hash e p v x, x) (placement_hash e p v y, y) = true)
       (rank_stash_candidates e p v roster)
  /\ (forall roster', Permutation roster roster' ->
        rank_stash_candidates e p v roster' = rank_stash_candidates e p v roster)
  /\ (forall stays : Z -> bool,
        rank_stash_candidates e p v (List.filter stays roster)
        = List.filter stays (rank_stash_candidates e p v roster)).
Proof.
  unfold rank_stash_candidates. fold (scored e p v roster).
  assert (forall l, map snd (scored e p v l) = List.filter (fun c => negb (c =? p)) l) as Hsnd.
  { intros l. unfold scored. rewrite map_map. apply map_id. }
  pose proof (sort_by_sorted rank_leb rank_leb_total rank_leb_trans (scored e p v roster)) as Hs.
  split; [rewrite <- Hsnd; apply Permutation_map, sort_by_perm|]. split; [|split].
  - assert (forall x, In x (sort_by rank_leb (scored e p v roster)) -> x = (placement_hash e p v x.2, x.2)) as Hx.
    { intros x H%In_sort_by. apply in_map_iff in H as (c & <- & _). reflexivity. }
    induction Hs as [|x l Hs IH Hf]; [constructor|]. simpl. constructor; [apply IH; intros; apply Hx; now right|].
    rewrite List.Forall_forall in *. intros c (y & <- & Hy)%in_map_iff.
    rewrite <- (Hx x), <- (Hx y) by (now left + now right). auto.
  - intros roster' Hp. fold (scored e p v roster'). f_equal.
    apply sort_by_unique; [apply rank_leb_total|apply rank_leb_trans| |exact Hs|].
    + intros x y _ _. apply rank_leb_antisym.
    + rewrite sort_by_perm. apply Permutation_map, Permutation_filter_bool, Hp.
  - intros stays. fold (scored e p v (List.filter stays roster)). rewrite scored_filter, <- map_filter_snd.
    f_equal. apply sort_by_unique; [apply rank_leb_total|apply rank_leb_trans|..].
    + intros x y _ _. apply rank_leb_antisym.
    + now apply sorted_filter.
    + apply Permutation_filter_bool, sort_by_perm.
Qed.

(** ** The record *)
Definition placement_wire_ok (w : ClusterPlacementWire) : Prop :=
  fits W32 (cpw_version w) /\ fits W64 (cpw_cluster_id w) /\ fits W64 (cpw_epoch w)
  /\ Forall (fits W32) (cpw_roster w).
(** A varint of 32 bits takes at most 5 bytes, one of 64 bits at most 10. *)
Definition placement_wire_size (w : ClusterPlacementWire) : Z := 48 + 5 * len (cpw_roster w).
Definition ClusterPlacement_ok (p : ClusterPlacement) : Prop :=
  ClusterPlacement_validate p = true /\ fits W64 (cp_cluster_id p) /\ fits W64 (cp_epoch p)
  /\ Forall (fits W32) (cp_roster p).

Section Record.
Context `{C : Crc} `{CL : !CrcLaws C} `{M : !Prost ClusterPlacementWire}
  `{ML : !ProstLaws M placement_wire_ok placement_wire_size}.

Lemma placement_writes p : ClusterPlacement_ok p -> len (cp_roster p) <= 419420 ->
  exists bs, ClusterPlacement_encode (E := DecodeError) p = Ok bs /\ ClusterPlacement_decode bs = Some p.
Proof using CL ML.
  intros (Hv & H1 & H2 & Hr) Hn. unfold ClusterPlacement_encode. rewrite Hv.
  set (w := {| cpw_version := _ |}).
  assert (placement_wire_ok w) as Hw by (split; [now vm_compute|auto]).
  pose proof (message_size w Hw) as Hsz. unfold placement_wire_size in Hsz. simpl in Hsz.
  unfold MAX_CLUSTER_PLACEMENT_PAYLOAD_BYTES, ClusterPlacement_decode.
  rewrite (proj2 (Z.leb_le _ _)) by lia. eexists. split; [apply seal_frame_Ok; lia|].
  rewrite open_frame_bytes by (magic_tac || lia).
  rewrite (proj2 (Z.ltb_ge _ _)) by (unfold MAX_CLUSTER_PLACEMENT_PAYLOAD_BYTES; lia).
  rewrite canonical_reads by exact Hw. cbn [mbind option_bind w cpw_version cpw_cluster_id cpw_epoch cpw_roster].
  destruct p as [i e r]. cbn [cp_cluster_id cp_epoch cp_roster] in *. rewrite Hv.
  unfold ClusterPlacement_validate in Hv. simpl in Hv.
  destruct (i =? 0), (e =? 0); try discriminate Hv. reflexivity.
Qed.
Lemma placement_canonical bs p : all_bytes bs -> ClusterPlacement_decode bs = Some p ->
  ClusterPlacement_ok p /\ ClusterPlacement_encode (E := DecodeError) p = Ok bs.
Proof using ML.
  intros Hb. unfold ClusterPlacement_decode.
  destruct (open_frame CLUSTER_PLACEMENT_MAGIC bs) as [payload| |] eqn:Ho; try discriminate.
  apply open_frame_inv in Ho as (-> & Hl & Hbp); [|exact Hb].
  destruct (Z.ltb_spec MAX_CLUSTER_PLACEMENT_PAYLOAD_BYTES (len payload)); [discriminate|].
  destruct (decode_canonical payload) as [w|] eqn:Hd; [|discriminate]. cbn [mbind option_bind].
  apply canonical_inv in Hd as [(_ & H2 & H3 & H4) ->]; [|exact Hbp].
  destruct w as [ver i e r]. cbn [cpw_version cpw_cluster_id cpw_epoch cpw_roster] in *.
  destruct (Z.eqb_spec ver CLUSTER_PLACEMENT_VERSION) as [->|]; [|discriminate].
  destruct ((i =? 0)), (e =? 0); try discriminate. cbn [negb orb].
  destruct (ClusterPlacement_validate _) eqn:Hv; [|discriminate]. intros [= <-].
  split; [split; auto|]. unfold ClusterPlacement_encode. rewrite Hv.
  cbn [cp_cluster_id cp_epoch cp_roster]. rewrite (proj2 (Z.leb_le _ _)) by lia.
  now apply seal_frame_Ok.
Qed.
Lemma members_canonical cluster_id epoch members members' :
  (forall h, In h members <-> In h members') ->
  ClusterPlacement_new cluster_id epoch members = ClusterPlacement_new cluster_id epoch members'.
Proof.
  intros He. unfold ClusterPlacement_new, ClusterPlacement_from_members.
  rewrite (ascending_unique _ _ (members_ascending members) (members_ascending members')); [reflexivity|].
  intros x. now rewrite !In_members.
Qed.
Lemma contains_members cluster_id epoch members p :
  ClusterPlacement_new cluster_id epoch members = Some p ->
  forall h, ClusterPlacement_contains p h = true <-> In h members.
Proof.
  unfold ClusterPlacement_new. destruct (ClusterPlacement_validate _); [|discriminate].
  intros [= <-] h. unfold ClusterPlacement_contains. cbn [ClusterPlacement_from_members cp_roster].
  rewrite bisect_spec by (apply members_ascending || lia). rewrite <- In_members, <- list_elem_of_In, list_elem_of_lookup.
  split; [intros (n & _ & Hn); eauto|]. intros [n Hn]. exists n. split; [|auto].
  apply lookup_lt_Some in Hn. lia.
Qed.

(** The placement record. A valid placement of up to 419,420 hosts is
    written and read back; whatever decodes is valid and is the encoding of the
    placement it decodes to. The roster built from any list of members is the
    same for every order and repetition of them, and [contains] answers
    membership. *)
Theorem placement_exact :
  (forall p, ClusterPlacement_ok p -> len (cp_roster p) <= 419420 ->
     exists bs, ClusterPlacement_encode (E := DecodeError) p = Ok bs /\ ClusterPlacement_decode bs = Some p)
  /\ (forall bs p, all_bytes bs -> ClusterPlacement_decode bs = Some p ->
       ClusterPlacement_ok p /\ ClusterPlacement_encode (E := DecodeError) p = Ok bs)
  /\ (forall cluster_id epoch members members',
       (forall h, In h members <-> In h members') ->
       ClusterPlacement_new cluster_id epoch members = ClusterPlacement_new cluster_id epoch members')
  /\ (forall cluster_id epoch members p, ClusterPlacement_new cluster_id epoch members = Some p ->
       forall h, ClusterPlacement_contains p h = true <-> In h members).
Proof using CL ML.
  split; [exact placement_writes|]. split; [exact placement_canonical|].
  split; [exact members_canonical|exact contains_members].
Qed.
End Record.
