(* ===== verification/Session.v ===== *)
(** * Host session records ([authority.rs])

    The record every host's lease lives in. It is changed only by conditional
    writes; a session ends with a revocation that raises the epoch. *)

From stdpp Require Import relations.
From S2P Require Import Prelude Format Prost Placement.

Definition MAGIC_HOST_SESSION : Z := magic 66 72 83 49.
Definition SESSION_FORMAT_VERSION : Z := 1.
Definition MAX_HOST_SESSION_PAYLOAD_BYTES : Z := 256.

Record ActiveSessionWire := { aw_session : Z; aw_epoch : Z }.
Record ChallengeSessionWire := { cw_session : Z; cw_epoch : Z; cw_nonce : Z; cw_challenged_at : Z }.
Record RevokedSessionWire := { rw_old_session : Z; rw_epoch : Z; rw_nonce : Z }.
Inductive SessionStateWire :=
| Wire_Active (w : ActiveSessionWire)
| Wire_Challenge (w : ChallengeSessionWire)
| Wire_Revoked (w : RevokedSessionWire).
Record HostSessionWire := { hsw_version : Z; hsw_state : option SessionStateWire }.

Inductive HostSessionRecord :=
| Session_Active (session epoch : Z)
| Session_Challenge (session epoch nonce challenged_at : Z)
| Session_Revoked (old_session epoch nonce : Z).
#[export] Instance HostSessionRecord_eq_dec : EqDecision HostSessionRecord.
Proof. solve_decision. Defined.

Definition HostSessionRecord_initial (session : Z) : outcome DecodeError HostSessionRecord :=
  if session =? 0 then Err DecodeErr else Ok (Session_Active session 1).
Definition HostSessionRecord_epoch (self : HostSessionRecord) : Z :=
  match self with
  | Session_Active _ epoch | Session_Challenge _ epoch _ _ | Session_Revoked _ epoch _ => epoch
  end.
Definition HostSessionRecord_challenge (self : HostSessionRecord) (nonce challenged_at : Z)
  : outcome DecodeError HostSessionRecord :=
  match self with
  | Session_Active session epoch =>
      if nonce =? 0 then Err DecodeErr else Ok (Session_Challenge session epoch nonce challenged_at)
  | _ => Err DecodeErr
  end.
Definition HostSessionRecord_defend (self : HostSessionRecord) (session nonce : Z)
  : outcome DecodeError HostSessionRecord :=
  match self with
  | Session_Challenge challenged_session epoch challenged_nonce _ =>
      if negb (session =? challenged_session) || negb (nonce =? challenged_nonce)
      then Err DecodeErr else Ok (Session_Active session epoch)
  | _ => Err DecodeErr
  end.
Definition HostSessionRecord_retire (self : HostSessionRecord) (session nonce : Z)
  : outcome DecodeError HostSessionRecord :=
  match self with
  | Session_Active active_session epoch =>
      if negb (session =? active_session) || (nonce =? 0) then Err DecodeErr else
      let? epoch := ok_or (checked_add W64 epoch 1) DecodeErr in
      Ok (Session_Revoked session epoch nonce)
  | _ => Err DecodeErr
  end.
Definition HostSessionRecord_revoke (self : HostSessionRecord) (nonce : Z)
  : outcome DecodeError HostSessionRecord :=
  match self with
  | Session_Challenge session epoch challenged_nonce _ =>
      if negb (nonce =? challenged_nonce) then Err DecodeErr else
      let? epoch := ok_or (checked_add W64 epoch 1) DecodeErr in
      Ok (Session_Revoked session epoch nonce)
  | _ => Err DecodeErr
  end.
Definition HostSessionRecord_activate (self : HostSessionRecord) (session : Z)
  : outcome DecodeError HostSessionRecord :=
  match self with
  | Session_Revoked _ epoch _ =>
      if session =? 0 then Err DecodeErr else Ok (Session_Active session epoch)
  | _ => Err DecodeErr
  end.

Section Codec.
Context `{C : Crc} `{M : !Prost HostSessionWire}.

Definition session_wire (self : HostSessionRecord) : HostSessionWire :=
  {| hsw_version := SESSION_FORMAT_VERSION;
     hsw_state := Some
       match self with
       | Session_Active session epoch => Wire_Active {| aw_session := session; aw_epoch := epoch |}
       | Session_Challenge session epoch nonce challenged_at =>
           Wire_Challenge {| cw_session := session; cw_epoch := epoch; cw_nonce := nonce;
                             cw_challenged_at := challenged_at |}
       | Session_Revoked old_session epoch nonce =>
           Wire_Revoked {| rw_old_session := old_session; rw_epoch := epoch; rw_nonce := nonce |}
       end |}.
Definition HostSessionRecord_encode {E} (self : HostSessionRecord) : outcome E bytes :=
  seal_frame MAGIC_HOST_SESSION (encode_to_vec (session_wire self)).
Definition session_of_wire (state : SessionStateWire) : HostSessionRecord :=
  match state with
  | Wire_Active active => Session_Active (aw_session active) (aw_epoch active)
  | Wire_Challenge challenge =>
      Session_Challenge (cw_session challenge) (cw_epoch challenge) (cw_nonce challenge)
        (cw_challenged_at challenge)
  | Wire_Revoked revoked =>
      Session_Revoked (rw_old_session revoked) (rw_epoch revoked) (rw_nonce revoked)
  end.
Definition session_malformed (record : HostSessionRecord) : bool :=
  (HostSessionRecord_epoch record =? 0)
  || match record with
     | Session_Active session _ => session =? 0
     | Session_Challenge session _ nonce _ => (session =? 0) || (nonce =? 0)
     | Session_Revoked old_session _ nonce => (old_session =? 0) || (nonce =? 0)
     end.
Definition HostSessionRecord_decode (bs : bytes) : outcome DecodeError HostSessionRecord :=
  let? payload := open_frame MAGIC_HOST_SESSION bs in
  if MAX_HOST_SESSION_PAYLOAD_BYTES <? len payload then Err DecodeErr else
  let? wire := ok_or (decode_canonical payload) DecodeErr in
  if negb (hsw_version wire =? SESSION_FORMAT_VERSION) then Err DecodeErr else
  let? state := ok_or (hsw_state wire) DecodeErr in
  let record := session_of_wire state in
  if session_malformed record then Err DecodeErr else Ok record.
End Codec.

Record PlacementProof := { pp_store_version : Z; pp_placement : ClusterPlacement }.
Definition valid_placement_transition (previous next : ClusterPlacement) : outcome DecodeError unit :=
  check? ClusterPlacement_validate previous or DecodeErr in
  check? ClusterPlacement_validate next or DecodeErr in
  if negb (cp_cluster_id previous =? cp_cluster_id next)
     || negb (bool_decide (checked_add W64 (cp_epoch previous) 1 = Some (cp_epoch next)))
  then Err DecodeErr else Ok tt.

(** ** The record on the wire *)
Definition state_wire_ok (s : SessionStateWire) : Prop :=
  match s with
  | Wire_Active w => fits W64 (aw_session w) /\ fits W64 (aw_epoch w)
  | Wire_Challenge w => fits W64 (cw_session w) /\ fits W64 (cw_epoch w) /\ fits W64 (cw_nonce w)
                        /\ fits W64 (cw_challenged_at w)
  | Wire_Revoked w => fits W64 (rw_old_session w) /\ fits W64 (rw_epoch w) /\ fits W64 (rw_nonce w)
  end.
Definition session_wire_ok (w : HostSessionWire) : Prop :=
  fits W32 (hsw_version w) /\ match hsw_state w with Some s => state_wire_ok s | None => True end.
(** Six varints of at most 10 bytes, their tags and the two lengths. *)
Definition session_wire_size (w : HostSessionWire) : Z := 80.
Definition HostSessionRecord_ok (r : HostSessionRecord) : Prop :=
  session_malformed r = false
  /\ match r with
     | Session_Active s e => fits W64 s /\ fits W64 e
     | Session_Challenge s e n c => fits W64 s /\ fits W64 e /\ fits W64 n /\ fits W64 c
     | Session_Revoked s e n => fits W64 s /\ fits W64 e /\ fits W64 n
     end.

Section Exact.
Context `{C : Crc} `{CL : !CrcLaws C} `{M : !Prost HostSessionWire}
  `{ML : !ProstLaws M session_wire_ok session_wire_size}.

Lemma session_format : ExactFormat (@HostSessionRecord_encode _ _ DecodeError)
  HostSessionRecord_decode HostSessionRecord_ok.
Proof using CL ML.
  split.
  - intros r [Hm Hf]. assert (session_wire_ok (session_wire r)) as Hw.
    { split; [now vm_compute|]. destruct r; simpl; tauto. }
    pose proof (message_size _ Hw) as Hs. unfold session_wire_size in Hs.
    pose proof (message_bytes _ Hw) as Hb.
    exists (frame_bytes MAGIC_HOST_SESSION (encode_to_vec (session_wire r))).
    split; [apply seal_frame_Ok; lia|]. split.
    { unfold frame_bytes. rewrite !all_bytes_app. auto with bytes. }
    unfold HostSessionRecord_decode. rewrite open_frame_bytes by (magic_tac || lia). cbn [outcome_bind].
    rewrite (proj2 (Z.ltb_ge _ _)) by (unfold MAX_HOST_SESSION_PAYLOAD_BYTES; lia).
    rewrite canonical_reads by exact Hw. simpl. destruct r; simpl; now rewrite Hm.
  - intros bs r Hb (payload & Ho & H)%outcome_bind_Ok.
    apply open_frame_inv in Ho as (-> & Hl & Hbp); [|exact Hb]. inv_ok.
    match goal with H : decode_canonical _ = Some ?w |- _ =>
      apply canonical_inv in H as [[_ Hw] ->]; [|exact Hbp]; destruct w as [ver st] end.
    simpl in *. destruct (Z.eqb_spec ver SESSION_FORMAT_VERSION) as [->|]; [|discriminate]. subst st.
    destruct (session_malformed (session_of_wire a0)) eqn:Hmal; [discriminate|]. injection H as <-.
    split; [split; [exact Hmal|destruct a0 as [[]|[]|[]]; simpl in *; tauto]|].
    unfold HostSessionRecord_encode. destruct a0 as [[]|[]|[]]; simpl; now apply seal_frame_Ok.
  - intros bs. unfold HostSessionRecord_decode. apply no_panic_bind; [apply open_frame_total|].
    intros. no_panic.
Qed.

(** The host session record is an exact format: a well-formed record is
    written and read back, whatever decodes is well formed and is the encoding
    of what it decodes to, and decoding never panics. *)
Theorem session_record_exact : ExactFormat (@HostSessionRecord_encode _ _ DecodeError)
  HostSessionRecord_decode HostSessionRecord_ok.
Proof using CL ML. exact session_format. Qed.
End Exact.

(** ** Sessions over time *)

(** One conditional write of the record, by any host. *)
Inductive session_next (r : HostSessionRecord) : HostSessionRecord -> Prop :=
| next_challenge nonce at_time r' : HostSessionRecord_challenge r nonce at_time = Ok r' -> session_next r r'
| next_defend session nonce r' : HostSessionRecord_defend r session nonce = Ok r' -> session_next r r'
| next_retire session nonce r' : HostSessionRecord_retire r session nonce = Ok r' -> session_next r r'
| next_revoke nonce r' : HostSessionRecord_revoke r nonce = Ok r' -> session_next r r'
| next_activate session r' : HostSessionRecord_activate r session = Ok r' -> session_next r r'.
(** The session that may serve under a record. *)
Definition session_holder (r : HostSessionRecord) : option Z :=
  match r with
  | Session_Active session _ | Session_Challenge session _ _ _ => Some session
  | Session_Revoked _ _ _ => None
  end.

Ltac session_op :=
  unfold HostSessionRecord_challenge, HostSessionRecord_defend, HostSessionRecord_retire,
    HostSessionRecord_revoke, HostSessionRecord_activate in *;
  repeat case_match; try discriminate; inv_ok; simplify_eq/=;
  repeat match goal with H : checked_add _ _ _ = Some _ |- _ => apply checked_add_inv in H as [-> ?] end.
Lemma session_next_cases r r' : session_next r r' ->
  (session_holder r' = session_holder r /\ is_Some (session_holder r)
   /\ HostSessionRecord_epoch r' = HostSessionRecord_epoch r)
  \/ (is_Some (session_holder r) /\ session_holder r' = None
      /\ HostSessionRecord_epoch r' = HostSessionRecord_epoch r + 1)
  \/ (session_holder r = None /\ is_Some (session_holder r')
      /\ HostSessionRecord_epoch r' = HostSessionRecord_epoch r).
Proof.
  intros [nonce c r1 H|s nonce r1 H|s nonce r1 H|nonce r1 H|s r1 H]; session_op;
    repeat match goal with H : negb _ || _ = false |- _ => apply orb_false_iff in H as [?%negb_false_iff ?] end;
    repeat match goal with H : (_ =? _) = true |- _ => apply Z.eqb_eq in H as -> end;
    simpl; eauto 10.
Qed.

(** Epochs identify sessions. Along every sequence of conditional writes
    the epoch never falls; two records of one epoch that name a session name
    the same one; and when the session changes, the epoch has risen, so a host
    that lost its session can tell from the epoch alone. *)
Theorem session_epochs (r r' : HostSessionRecord) :
  rtc session_next r r' ->
  HostSessionRecord_epoch r <= HostSessionRecord_epoch r'
  /\ (forall s s', session_holder r = Some s -> session_holder r' = Some s' ->
        HostSessionRecord_epoch r = HostSessionRecord_epoch r' -> s = s').
Proof.
  intros H. assert (HostSessionRecord_epoch r <= HostSessionRecord_epoch r'
    /\ (HostSessionRecord_epoch r = HostSessionRecord_epoch r' -> forall s, session_holder r = Some s ->
          session_holder r' = Some s)) as [H1 H2].
  { induction H as [r|r r1 r' Hs _ [IH1 IH2]]; [split; [lia|auto]|].
    destruct (session_next_cases _ _ Hs) as [(E & _ & Ee)|[(_ & _ & Ee)|(En & _ & Ee)]]; split; try lia.
    - intros He s Hh. apply IH2; [lia|congruence].
    - intros. congruence. }
  split; [exact H1|]. intros s s' Hs Hs' He. specialize (H2 He s Hs). congruence.
Qed.
