(* ===== verification/Lease.v ===== *)
(** * Host leases ([engine/authority.rs], [engine/lease.rs])

    A starting process takes over its host's session record and then renews it
    from a monitor task. An asynchronous task is modelled by the points at
    which it awaits something ([Await]) and by what it does when the answer
    arrives ([resume]), a timer fires ([timer]) or a guarded read times out
    ([timeout]). A transition system runs any number of processes of one host
    against the record: every store request takes effect atomically at some
    moment after it was issued, its answer arrives at some later moment, and an
    unavailable store leaves open whether a write took effect. *)

From stdpp Require Import gmap relations.
From S2P Require Import Prelude Format Placement Session.

Inductive AuthorityError :=
| Authority_Unavailable
| Authority_Conflict
| Authority_Corrupt
| Authority_Fenced
| Authority_Invalid.
Record VersionedSession := {
  vs_store_version : Z;
  vs_record : HostSessionRecord }.
Record AuthorityHostConfig := {
  cluster_id : Z;
  poll_interval : Z;
  max_poll_staleness : Z;
  challenge_interval : Z }.
Record AuthorityLease := {
  al_session : option Z;
  al_host_epoch : Z;
  al_serving : bool;
  al_last_poll : Z;
  al_placement : option ClusterPlacement }.
Definition AuthorityLease_new (serving : bool) : AuthorityLease :=
  {| al_session := None; al_host_epoch := 0; al_serving := serving; al_last_poll := 0;
     al_placement := None |}.

(** Arithmetic of [u64]. *)
Definition saturating_add (a b : Z) : Z := Z.min (a + b) (W64 - 1).

(** The conditional writes of [VersionedSession]: the record to write, or the
    error of the call. *)
Definition VersionedSession_defend (self : VersionedSession) (session nonce : Z)
  : outcome AuthorityError HostSessionRecord :=
  map_err (fun _ => Authority_Invalid) (HostSessionRecord_defend (vs_record self) session nonce).
Definition VersionedSession_challenge (self : VersionedSession) (nonce challenged_at : Z)
  : outcome AuthorityError HostSessionRecord :=
  map_err (fun _ => Authority_Fenced) (HostSessionRecord_challenge (vs_record self) nonce challenged_at).
Definition VersionedSession_revoke (self : VersionedSession) (nonce : Z)
  : outcome AuthorityError HostSessionRecord :=
  map_err (fun _ => Authority_Invalid) (HostSessionRecord_revoke (vs_record self) nonce).
Definition VersionedSession_activate (self : VersionedSession) (session : Z)
  : outcome AuthorityError HostSessionRecord :=
  map_err (fun _ => Authority_Invalid) (HostSessionRecord_activate (vs_record self) session).

(** [cas_placement]: the version the conditional write of the placement
    expects, or the error of the call. *)
Definition cas_placement (expected : option PlacementProof) (next : ClusterPlacement)
  : outcome AuthorityError (option Z) :=
  check? ClusterPlacement_validate next or Authority_Invalid in
  match expected with
  | None => check? cp_epoch next =? 1 or Authority_Invalid in Ok None
  | Some previous =>
      let? _ := map_err (fun _ => Authority_Invalid)
                  (valid_placement_transition (pp_placement previous) next) in
      Ok (Some (pp_store_version previous))
  end.

(** ** Where a process can be waiting *)
Inductive Await :=
| B_placement
| B_session (placement : ClusterPlacement)
| B_create (placement : ClusterPlacement) (record : HostSessionRecord)
| B_activate (placement : ClusterPlacement) (revoked : VersionedSession)
    (record : HostSessionRecord) (pause : bool)
| B_challenge_read (placement : ClusterPlacement) (nonce challenged_at : Z)
| B_challenge_cas (placement : ClusterPlacement) (observed : VersionedSession)
    (record : HostSessionRecord)
| B_wait (placement : ClusterPlacement) (session nonce until : Z)
| B_reread (placement : ClusterPlacement) (session nonce : Z)
| B_revoke (placement : ClusterPlacement) (observed : VersionedSession)
    (record : HostSessionRecord)
| B_delay (until : Z)
| Recovering
| M_delay (until : Z)
| M_session (last_success deadline : Z)
| M_placement (observed : VersionedSession)
| M_defend_read
| M_defend_cas (observed : VersionedSession) (record : HostSessionRecord)
| Failed (error : AuthorityError).

Inductive StoreRequest :=
| ReadPlacement
| ReadSession
| CasSession (expected : option Z) (record : HostSessionRecord).
Inductive StoreAnswer :=
| A_placement (answer : option PlacementProof + AuthorityError)
| A_session (answer : option VersionedSession + AuthorityError)
| A_cas (answer : Z + AuthorityError).
Definition request_of (await : Await) : option StoreRequest :=
  match await with
  | B_placement | M_placement _ => Some ReadPlacement
  | B_session _ | B_challenge_read _ _ _ | B_reread _ _ _ | M_session _ _ | M_defend_read =>
      Some ReadSession
  | B_create _ record => Some (CasSession None record)
  | B_activate _ from record _ | B_challenge_cas _ from record | B_revoke _ from record
  | M_defend_cas from record => Some (CasSession (Some (vs_store_version from)) record)
  | B_wait _ _ _ _ | B_delay _ | Recovering | M_delay _ | Failed _ => None
  end.

Section Process.
Context (config : AuthorityHostConfig) (session : Z).

Definition pause (now : Z) : Await := B_delay (now + poll_interval config).
Definition retryable (error : AuthorityError) : bool :=
  match error with Authority_Conflict | Authority_Unavailable => true | _ => false end.

(** ** [bootstrap_host_authority] *)
Definition bootstrap_done (now : Z) (placement : ClusterPlacement) (versioned : VersionedSession)
  : AuthorityLease * Await :=
  ({| al_session := Some session; al_host_epoch := HostSessionRecord_epoch (vs_record versioned);
      al_serving := true; al_last_poll := now; al_placement := Some placement |}, Recovering).
Definition issue (made : outcome AuthorityError HostSessionRecord) (await : HostSessionRecord -> Await)
  : Await :=
  match made with
  | Ok record => await record
  | Err error => Failed error
  | Panic => Failed Authority_Invalid
  end.
Definition after_challenge (now : Z) (placement : ClusterPlacement) (challenged : VersionedSession)
  : Await :=
  match vs_record challenged with
  | Session_Challenge challenged_session _ nonce challenged_at =>
      B_wait placement challenged_session nonce
        (now + saturating_sub (saturating_add challenged_at (challenge_interval config)) now)
  | _ => pause now
  end.
Definition bootstrap_session (now random : Z) (lease : AuthorityLease) (placement : ClusterPlacement)
    (answer : option VersionedSession + AuthorityError) : AuthorityLease * Await :=
  match answer with
  | inl None =>
      (lease, issue (map_err (fun _ => Authority_Invalid) (HostSessionRecord_initial session))
                (B_create placement))
  | inl (Some versioned) =>
      match vs_record versioned with
      | Session_Active found _ =>
          if found =? session then bootstrap_done now placement versioned
          else (lease, B_challenge_read placement (Z.max random 1) now)
      | Session_Revoked _ _ _ =>
          (lease, issue (VersionedSession_activate versioned session)
                    (fun record => B_activate placement versioned record true))
      | Session_Challenge _ _ _ _ => (lease, pause now)
      end
  | inr Authority_Unavailable => (lease, pause now)
  | inr error => (lease, Failed error)
  end.
Definition bootstrap_challenge (now : Z) (lease : AuthorityLease) (placement : ClusterPlacement)
    (nonce challenged_at : Z) (answer : option VersionedSession + AuthorityError)
  : AuthorityLease * Await :=
  match answer with
  | inl None => (lease, Failed Authority_Fenced)
  | inl (Some observed) =>
      match vs_record observed with
      | Session_Challenge _ _ _ _ => (lease, after_challenge now placement observed)
      | _ => (lease, issue (VersionedSession_challenge observed nonce challenged_at)
                       (B_challenge_cas placement observed))
      end
  | inr error => (lease, if retryable error then pause now else Failed error)
  end.
Definition bootstrap_reread (now : Z) (lease : AuthorityLease) (placement : ClusterPlacement)
    (challenged_session nonce : Z) (answer : option VersionedSession + AuthorityError)
  : AuthorityLease * Await :=
  match answer with
  | inl (Some observed) =>
      match vs_record observed with
      | Session_Challenge found _ found_nonce _ =>
          if (found =? challenged_session) && (found_nonce =? nonce)
          then (lease, issue (VersionedSession_revoke observed nonce) (B_revoke placement observed))
          else (lease, B_placement)
      | _ => (lease, B_placement)
      end
  | inl None => (lease, pause now)
  | inr error => (lease, if retryable error then pause now else Failed error)
  end.
Definition bootstrap_cas (now : Z) (lease : AuthorityLease) (await : Await) (answer : Z + AuthorityError)
  : AuthorityLease * Await :=
  match await, answer with
  | B_create placement record, inl version | B_activate placement _ record _, inl version =>
      bootstrap_done now placement {| vs_store_version := version; vs_record := record |}
  | B_challenge_cas placement _ record, inl version =>
      (lease, after_challenge now placement {| vs_store_version := version; vs_record := record |})
  | B_revoke placement _ record, inl version =>
      let revoked := {| vs_store_version := version; vs_record := record |} in
      (lease, issue (VersionedSession_activate revoked session)
                (fun record => B_activate placement revoked record false))
  | B_create _ _, inr error | B_challenge_cas _ _ _, inr error | B_activate _ _ _ true, inr error =>
      (lease, if retryable error then pause now else Failed error)
  | B_activate _ _ _ false, inr error | B_revoke _ _ _, inr error =>
      (lease, if retryable error then B_placement else Failed error)
  | _, _ => (lease, await)
  end.

(** ** [host_session_monitor] *)
Definition self_fence (lease : AuthorityLease) : AuthorityLease * Await :=
  ({| al_session := al_session lease; al_host_epoch := al_host_epoch lease; al_serving := false;
      al_last_poll := al_last_poll lease; al_placement := al_placement lease |},
   Failed Authority_Fenced).
Definition renewed (now : Z) (lease : AuthorityLease) (record : HostSessionRecord)
    (placement : option ClusterPlacement) : AuthorityLease * Await :=
  ({| al_session := al_session lease; al_host_epoch := HostSessionRecord_epoch record;
      al_serving := true; al_last_poll := now; al_placement := placement |},
   M_delay (now + poll_interval config)).
Definition monitor_wakes (now : Z) (lease : AuthorityLease) : AuthorityLease * Await :=
  match al_session lease with
  | None => (lease, Failed Authority_Invalid)
  | Some _ =>
      let remaining :=
        saturating_sub (saturating_add (al_last_poll lease) (max_poll_staleness config)) now in
      if remaining =? 0 then self_fence lease
      else (lease, M_session (al_last_poll lease) (now + remaining))
  end.
Definition monitor_session (now : Z) (lease : AuthorityLease) (last_success : Z)
    (answer : option VersionedSession + AuthorityError) : AuthorityLease * Await :=
  match answer with
  | inl (Some observed) =>
      match vs_record observed with
      | Session_Active found _ =>
          if found =? session then (lease, M_placement observed) else self_fence lease
      | Session_Challenge found _ _ _ =>
          if found =? session then
            ({| al_session := al_session lease; al_host_epoch := al_host_epoch lease;
                al_serving := false; al_last_poll := now; al_placement := al_placement lease |},
             M_defend_read)
          else self_fence lease
      | _ => self_fence lease
      end
  | inl None => self_fence lease
  | inr Authority_Unavailable =>
      if saturating_sub now last_success <? max_poll_staleness config
      then (lease, M_delay (now + poll_interval config)) else self_fence lease
  | inr _ => self_fence lease
  end.
Definition monitor_placement (now : Z) (lease : AuthorityLease) (observed : VersionedSession)
    (answer : option PlacementProof + AuthorityError) : AuthorityLease * Await :=
  match answer with
  | inl (Some proof) =>
      if negb (cp_cluster_id (pp_placement proof) =? cluster_id config)
      then (lease, Failed Authority_Invalid)
      else renewed now lease (vs_record observed) (Some (pp_placement proof))
  | _ => (lease, M_delay (now + poll_interval config))
  end.
(** [poll_or_defend_host_session] and what the monitor makes of its result. *)
Definition monitor_defend_read (now : Z) (lease : AuthorityLease)
    (answer : option VersionedSession + AuthorityError) : AuthorityLease * Await :=
  match answer with
  | inl (Some observed) =>
      match vs_record observed with
      | Session_Active found _ =>
          if found =? session then renewed now lease (vs_record observed) (al_placement lease)
          else self_fence lease
      | Session_Challenge found _ nonce _ =>
          if found =? session then
            match VersionedSession_defend observed session nonce with
            | Ok record => (lease, M_defend_cas observed record)
            | _ => self_fence lease
            end
          else self_fence lease
      | _ => self_fence lease
      end
  | inl None => self_fence lease
  | inr Authority_Unavailable => (lease, M_delay (now + poll_interval config))
  | inr _ => self_fence lease
  end.
Definition monitor_defend_cas (now : Z) (lease : AuthorityLease) (record : HostSessionRecord)
    (answer : Z + AuthorityError) : AuthorityLease * Await :=
  match answer with
  | inl _ => renewed now lease record (al_placement lease)
  | inr Authority_Unavailable => (lease, M_delay (now + poll_interval config))
  | inr _ => self_fence lease
  end.

(** ** Resumption *)
Definition resume (now random : Z) (lease : AuthorityLease) (await : Await) (answer : StoreAnswer)
  : AuthorityLease * Await :=
  match await, answer with
  | B_placement, A_placement a =>
      match a with
      | inl (Some proof) =>
          if cp_cluster_id (pp_placement proof) =? cluster_id config
          then (lease, B_session (pp_placement proof)) else (lease, Failed Authority_Invalid)
      | inl None => (lease, Failed Authority_Fenced)
      | inr Authority_Unavailable => (lease, pause now)
      | inr error => (lease, Failed error)
      end
  | B_session placement, A_session a => bootstrap_session now random lease placement a
  | B_challenge_read placement nonce at_time, A_session a =>
      bootstrap_challenge now lease placement nonce at_time a
  | B_reread placement challenged nonce, A_session a => bootstrap_reread now lease placement challenged nonce a
  | B_create _ _, A_cas a | B_activate _ _ _ _, A_cas a | B_challenge_cas _ _ _, A_cas a
  | B_revoke _ _ _, A_cas a => bootstrap_cas now lease await a
  | M_session last_success _, A_session a => monitor_session now lease last_success a
  | M_placement observed, A_placement a => monitor_placement now lease observed a
  | M_defend_read, A_session a => monitor_defend_read now lease a
  | M_defend_cas _ record, A_cas a => monitor_defend_cas now lease record a
  | _, _ => (lease, await)
  end.
(** When a timer is due, and what happens then. *)
Definition timer_due (now : Z) (await : Await) : bool :=
  match await with
  | B_wait _ _ _ until | B_delay until | M_delay until => until <=? now
  | Recovering => true
  | _ => false
  end.
Definition timer (now : Z) (lease : AuthorityLease) (await : Await) : AuthorityLease * Await :=
  match await with
  | B_wait placement challenged nonce _ => (lease, B_reread placement challenged nonce)
  | B_delay _ => (lease, B_placement)
  | Recovering => (lease, M_delay (now + poll_interval config))
  | M_delay _ => monitor_wakes now lease
  | _ => (lease, await)
  end.
Definition times_out (now : Z) (await : Await) : bool :=
  match await with M_session _ deadline => deadline <=? now | _ => false end.

(** [HostState::volume_authorized] with an authority configured. *)
Definition volume_authorized (host now : Z) (lease : AuthorityLease) : bool :=
  if max_poll_staleness config <=? saturating_sub now (al_last_poll lease) then false else
  al_serving lease
  && match al_placement lease with
     | Some placement => ClusterPlacement_contains placement host
     | None => false
     end.
End Process.

(** [bootstrap_host_authority] refuses to start with other intervals. *)
Definition config_valid (config : AuthorityHostConfig) : bool :=
  negb ((cluster_id config =? 0) || (poll_interval config =? 0)
        || (max_poll_staleness config <? poll_interval config)
        || (challenge_interval config <=? max_poll_staleness config)).
Definition bootstrap_start (config : AuthorityHostConfig) : Await :=
  if config_valid config then B_placement else Failed Authority_Invalid.

(** ** Processes of one host around its session record *)

(** A store request takes effect and is answered. The outcome of a write that
    is answered [Unavailable] is unknown to the caller. *)
Inductive executes (version : Z) (record : option HostSessionRecord)
  : StoreRequest -> Z -> option HostSessionRecord -> StoreAnswer -> Prop :=
| reads_placement a : executes version record ReadPlacement version record (A_placement a)
| reads_session : executes version record ReadSession version record
    (A_session (inl (option_map (fun r => {| vs_store_version := version; vs_record := r |}) record)))
| read_fails e : executes version record ReadSession version record (A_session (inr e))
| cas_succeeds expected new :
    expected = option_map (fun _ => version) record ->
    executes version record (CasSession expected new) (version + 1) (Some new) (A_cas (inl (version + 1)))
| cas_unanswered expected new :
    expected = option_map (fun _ => version) record ->
    executes version record (CasSession expected new) (version + 1) (Some new)
      (A_cas (inr Authority_Unavailable))
| cas_fails expected new e :
    executes version record (CasSession expected new) version record (A_cas (inr e)).

Record Proc := {
  p_lease : AuthorityLease;
  p_await : Await;
  p_answer : option (StoreAnswer * Z);
  p_observed : Z }.
(** [p_answer] is an answer on its way with the time at which the request took
    effect; [p_observed] is that time for the last session answer received. *)
Record Cluster := {
  c_time : Z;
  c_version : Z;
  c_record : option HostSessionRecord;
  c_procs : nat -> Proc;
  c_drawn : gset Z;
  c_log : gmap Z Z }.
(** [c_drawn] are the random nonces drawn so far and [c_log] the challenges
    ever written, by nonce. *)

Definition observed_at (await : Await) (previous t : Z) : Z :=
  match await with B_placement | M_placement _ => previous | _ => t end.
Definition renewing (await : Await) : bool :=
  match await with
  | B_session _ | B_create _ _ | B_activate _ _ _ _ | M_placement _ | M_defend_read
  | M_defend_cas _ _ => true
  | _ => false
  end.
Definition logged (log : gmap Z Z) (record : HostSessionRecord) : gmap Z Z :=
  match record with Session_Challenge _ _ nonce at_time => <[nonce := at_time]> log | _ => log end.
Definition set_proc (procs : nat -> Proc) (p : nat) (pr : Proc) (q : nat) : Proc :=
  if decide (q = p) then pr else procs q.

Section System.
Context (config : AuthorityHostConfig) (session : nat -> Z).
(** When each process started, which is the zero of its clock; and bounds on
    how long the answer of a session request may take from its effect to the
    renewal based on it, and on how long after it was dated a challenge may
    still take effect. *)
Context (start : nat -> Z) (renewal_lag challenge_lag : Z).

Definition clock (c : Cluster) (p : nat) : Z := c_time c - start p.
Definition answered (pr : Proc) (answer : StoreAnswer) (t : Z) : Proc :=
  {| p_lease := p_lease pr; p_await := p_await pr; p_answer := Some (answer, t);
     p_observed := p_observed pr |}.
Definition continued (next : AuthorityLease * Await) (observed : Z) : Proc :=
  {| p_lease := next.1; p_await := next.2; p_answer := None; p_observed := observed |}.
Definition with_proc (c : Cluster) (p : nat) (pr : Proc) : Cluster :=
  {| c_time := c_time c; c_version := c_version c; c_record := c_record c;
     c_procs := set_proc (c_procs c) p pr; c_drawn := c_drawn c; c_log := c_log c |}.

Inductive step (c : Cluster) : Cluster -> Prop :=
| step_time d : 0 <= d -> (forall p, c_time c + d - start p < W64 - 1) ->
    step c {| c_time := c_time c + d; c_version := c_version c; c_record := c_record c;
              c_procs := c_procs c; c_drawn := c_drawn c; c_log := c_log c |}
| step_exec p request version record answer :
    let pr := c_procs c p in
    p_answer pr = None -> request_of (p_await pr) = Some request ->
    executes (c_version c) (c_record c) request version record answer ->
    (forall placement observed s e n at_time,
       p_await pr = B_challenge_cas placement observed (Session_Challenge s e n at_time) ->
       clock c p <= at_time + challenge_lag) ->
    step c {| c_time := c_time c; c_version := version; c_record := record;
              c_procs := set_proc (c_procs c) p (answered pr answer (c_time c));
              c_drawn := c_drawn c;
              c_log := if decide (version = c_version c) then c_log c
                       else match record with Some r => logged (c_log c) r | None => c_log c end |}
| step_resume p answer t random :
    let pr := c_procs c p in
    let observed := observed_at (p_await pr) (p_observed pr) t in
    p_answer pr = Some (answer, t) -> Z.max random 1 ∉ c_drawn c ->
    (renewing (p_await pr) = true -> c_time c <= observed + renewal_lag) ->
    step c {| c_time := c_time c; c_version := c_version c; c_record := c_record c;
              c_procs := set_proc (c_procs c) p
                (continued (resume config (session p) (clock c p) random (p_lease pr) (p_await pr) answer)
                   observed);
              c_drawn := {[Z.max random 1]} ∪ c_drawn c; c_log := c_log c |}
| step_timer p :
    let pr := c_procs c p in
    p_answer pr = None -> timer_due (clock c p) (p_await pr) = true ->
    step c (with_proc c p (continued (timer config (clock c p) (p_lease pr) (p_await pr)) (p_observed pr)))
| step_timeout p :
    let pr := c_procs c p in
    p_answer pr = None -> times_out (clock c p) (p_await pr) = true ->
    step c (with_proc c p (continued (self_fence (p_lease pr)) (p_observed pr))).

(** Nothing has started and there is no record. *)
Definition initial_proc : Proc :=
  {| p_lease := AuthorityLease_new false; p_await := bootstrap_start config; p_answer := None;
     p_observed := 0 |}.
Definition initial_cluster (time : Z) : Cluster :=
  {| c_time := time; c_version := 0; c_record := None; c_procs := fun _ => initial_proc;
     c_drawn := ∅; c_log := ∅ |}.
Definition authorized (host : Z) (c : Cluster) (p : nat) : Prop :=
  volume_authorized config host (clock c p) (p_lease (c_procs c p)) = true.
End System.
