(* ===== verification/LeaseSafety.v ===== *)
(** * Leases exclude each other

    The invariant of the transition system of [Lease] and the exclusion
    theorem it gives. *)

From stdpp Require Import gmap relations.
From S2P Require Import Prelude Format Placement Session Lease.

Section Safety.
Context (config : AuthorityHostConfig) (session : nat -> Z).
Context (start : nat -> Z) (renewal_lag challenge_lag : Z).
Abbreviation step := (step config session start renewal_lag challenge_lag).
Abbreviation CI := (challenge_interval config).

(** All clocks have the same zero. *)
Context (origin : Z) (same_clock : forall p, start p = origin).
Context (interval_nonneg : 0 <= CI).

(** A session was current at time [w]: it still is, and if it is challenged
    the challenge is not much older than [w]; or it is so long ago that the
    challenge may have been carried out. *)
Definition claim (c : Cluster) (s w : Z) : Prop :=
  w <= c_time c
  /\ ((c_record c ≫= session_holder = Some s
       /\ forall e n at_time, c_record c = Some (Session_Challenge s e n at_time) ->
            w <= at_time + origin + challenge_lag)
      \/ w + CI - challenge_lag <= c_time c).
Definition logs (log : gmap Z Z) (r : HostSessionRecord) : Prop :=
  forall s e n at_time, r = Session_Challenge s e n at_time -> log !! n = Some at_time.
(** A process holds a version of the record it has read or written. *)
Definition held (c : Cluster) (v : VersionedSession) : Prop :=
  vs_store_version v <= c_version c
  /\ (vs_store_version v = c_version c -> c_record c = Some (vs_record v))
  /\ logs (c_log c) (vs_record v).
Definition waited (c : Cluster) (n : Z) : Prop :=
  exists at_time, c_log c !! n = Some at_time /\ at_time + origin + CI <= c_time c.
(** The nonce a process has drawn and not yet written. *)
Definition pending (pr : Proc) (n : Z) : Prop :=
  (exists placement at_time, p_await pr = B_challenge_read placement n at_time)
  \/ (exists placement v s e at_time,
        p_await pr = B_challenge_cas placement v (Session_Challenge s e n at_time)
        /\ p_answer pr = None).

Definition await_ok (c : Cluster) (p : nat) (pr : Proc) : Prop :=
  match p_await pr with
  | B_create _ r => exists e, r = Session_Active (session p) e
  | B_activate _ v r _ =>
      held c v /\ session_holder (vs_record v) = None /\ exists e, r = Session_Active (session p) e
  | B_challenge_cas _ v r =>
      held c v /\ exists s e n at_time, vs_record v = Session_Active s e
        /\ r = Session_Challenge s e n at_time
  | B_wait _ _ n until => exists at_time, c_log c !! n = Some at_time
      /\ (at_time + CI <= until \/ W64 - 1 <= until)
  | B_reread _ _ n => waited c n
  | B_revoke _ v r =>
      held c v /\ exists s e n at_time e', vs_record v = Session_Challenge s e n at_time
        /\ r = Session_Revoked s e' n /\ waited c n
  | M_placement _ => claim c (session p) (p_observed pr)
  | M_defend_cas v r =>
      held c v /\ exists e n at_time, vs_record v = Session_Challenge (session p) e n at_time
        /\ r = Session_Active (session p) e
  | _ => True
  end.
Definition result_ok (c : Cluster) (v : VersionedSession) (t : Z) : Prop :=
  held c v /\ forall s e, vs_record v = Session_Active s e -> claim c s t.
(** An answer is of the kind that was asked for. *)
Definition answer_fits (c : Cluster) (await : Await) (a : StoreAnswer) (t : Z) : Prop :=
  match request_of await, a with
  | Some ReadPlacement, A_placement _ => True
  | Some ReadSession, A_session (inl (Some v)) => result_ok c v t
  | Some ReadSession, A_session _ => True
  | Some (CasSession _ r), A_cas (inl version) =>
      result_ok c {| vs_store_version := version; vs_record := r |} t
  | Some (CasSession _ r), A_cas (inr _) => True
  | _, _ => False
  end.
Definition answer_ok (c : Cluster) (pr : Proc) : Prop :=
  match p_answer pr with Some (a, t) => answer_fits c (p_await pr) a t | None => True end.
Definition lease_ok (c : Cluster) (p : nat) (pr : Proc) : Prop :=
  al_serving (p_lease pr) = true ->
  exists w, al_last_poll (p_lease pr) + origin <= w + renewal_lag /\ claim c (session p) w.
Record proc_ok (c : Cluster) (p : nat) (pr : Proc) : Prop := {
  ok_await : await_ok c p pr;
  ok_answer : answer_ok c pr;
  ok_lease : lease_ok c p pr;
  ok_pending : forall n, pending pr n -> n ∈ c_drawn c /\ c_log c !! n = None }.
Record invariant (c : Cluster) : Prop := {
  inv_procs : forall p, proc_ok c p (c_procs c p);
  inv_record : forall r, c_record c = Some r -> logs (c_log c) r;
  inv_drawn : forall n at_time, c_log c !! n = Some at_time -> n ∈ c_drawn c;
  inv_nonces : forall p q n, pending (c_procs c p) n -> pending (c_procs c q) n -> p = q;
  inv_clock : c_time c - origin < W64 - 1 }.

(** ** What every step preserves *)

(** [c'] is later than [c]: time and version have grown, no challenge was
    forgotten, and claims still stand. *)
Record later (c c' : Cluster) : Prop := {
  l_time : c_time c <= c_time c';
  l_version : c_version c < c_version c'
    \/ (c_version c = c_version c' /\ c_record c = c_record c');
  l_log : c_log c ⊆ c_log c';
  l_drawn : c_drawn c ⊆ c_drawn c';
  l_claim : forall s w, claim c s w -> claim c' s w }.
Lemma logs_later c c' r : later c c' -> logs (c_log c) r -> logs (c_log c') r.
Proof. intros Hl H s e n a Hr. eapply lookup_weaken; [eauto|apply l_log, Hl]. Qed.
Lemma held_later c c' v : later c c' -> held c v -> held c' v.
Proof.
  intros Hl (H1 & H2 & H3). destruct (l_version _ _ Hl) as [Hv|[Hv Hr]]; (split; [lia|]);
    (split; [|eauto using logs_later]).
  - lia.
  - rewrite <- Hv, <- Hr. exact H2.
Qed.
Lemma waited_later c c' n : later c c' -> waited c n -> waited c' n.
Proof.
  intros Hl (a & Ha & Ht). exists a. split; [eapply lookup_weaken; [eauto|apply l_log, Hl]|].
  pose proof (l_time _ _ Hl). lia.
Qed.
Lemma result_later c c' v t : later c c' -> result_ok c v t -> result_ok c' v t.
Proof. intros Hl [H1 H2]. split; [eauto using held_later|]. intros. eapply l_claim; eauto. Qed.
Lemma await_later c c' p pr : later c c' -> await_ok c p pr -> await_ok c' p pr.
Proof.
  intros Hl. unfold await_ok. pose proof (held_later c c') as Hh. pose proof (waited_later c c') as Hw.
  destruct (p_await pr); auto.
  - intros (H1 & H2 & H3). eauto.
  - intros (H1 & H2). eauto.
  - intros (a & Ha & H). exists a. split; [eapply lookup_weaken; [eauto|apply l_log, Hl]|auto].
  - intros (H1 & s & e & n & a & e' & ? & ? & ?). eauto 12.
  - apply l_claim, Hl.
  - intros (H1 & H2). eauto.
Qed.
Lemma answer_later c c' pr : later c c' -> answer_ok c pr -> answer_ok c' pr.
Proof.
  intros Hl. unfold answer_ok, answer_fits. destruct (p_answer pr) as [[a t]|]; [|auto].
  destruct (request_of (p_await pr)) as [[]|], a as [|[[]|]|[]]; eauto using result_later.
Qed.
Lemma lease_later c c' p pr : later c c' -> lease_ok c p pr -> lease_ok c' p pr.
Proof. intros Hl H Hs. destruct (H Hs) as (w & ? & ?). exists w. split; [auto|]. now apply (l_claim _ _ Hl). Qed.

(** ** Conditional writes *)

(** The changes a record goes through, with what the writer knows. *)
Inductive move (c : Cluster) : HostSessionRecord -> Prop :=
| move_create s e : c_record c = None -> move c (Session_Active s e)
| move_activate s e r : c_record c = Some r -> session_holder r = None -> move c (Session_Active s e)
| move_challenge s e n at_time : c_record c = Some (Session_Active s e) ->
    c_time c <= at_time + origin + challenge_lag -> c_log c !! n = None ->
    move c (Session_Challenge s e n at_time)
| move_defend s e n at_time : c_record c = Some (Session_Challenge s e n at_time) ->
    move c (Session_Active s e)
| move_revoke s e n at_time e' : c_record c = Some (Session_Challenge s e n at_time) ->
    at_time + origin + CI <= c_time c -> move c (Session_Revoked s e' n).
Lemma claim_move c c' r s w : move c r -> c_time c' = c_time c -> c_record c' = Some r ->
  claim c s w -> claim c' s w.
Proof.
  intros Hm Ht Hr [Hw Hc]. unfold claim. rewrite Ht, Hr. split; [exact Hw|].
  destruct Hc as [[Hh Hb]|Hc]; [|right; exact Hc].
  destruct Hm as [s' e' E|s' e' r' E Hn|s' e' n a E Hlag _|s' e' n a E|s' e' n a e'' E Hd]; rewrite E in Hh;
    simpl in *; simplify_eq.
  - left. split; [reflexivity|]. intros e1 n1 a1 [= <- <- <-]. lia.
  - left. split; [reflexivity|]. congruence.
  - right. specialize (Hb _ _ _ E). lia.
Qed.
Lemma move_later c c' r : move c r -> c_time c' = c_time c -> c_version c' = c_version c + 1 ->
  c_record c' = Some r -> c_log c' = logged (c_log c) r -> c_drawn c' = c_drawn c -> later c c'.
Proof.
  intros Hm Ht Hv Hr Hl Hd. split; [lia|left; lia| |now rewrite Hd|eauto using claim_move].
  rewrite Hl. destruct Hm; simpl; try reflexivity. now apply insert_subseteq.
Qed.
Lemma cas_moves c p pr expected new :
  proc_ok c p pr -> (forall r, c_record c = Some r -> logs (c_log c) r) ->
  p_answer pr = None -> request_of (p_await pr) = Some (CasSession expected new) ->
  expected = option_map (fun _ => c_version c) (c_record c) ->
  (forall placement observed s e n at_time,
     p_await pr = B_challenge_cas placement observed (Session_Challenge s e n at_time) ->
     c_time c - origin <= at_time + challenge_lag) ->
  move c new.
Proof.
  intros [Ha _ _ Hp] Hlog Hn Hreq He Hlag. unfold await_ok in Ha. unfold pending in Hp.
  assert (forall v, Some (vs_store_version v) = option_map (fun _ => c_version c) (c_record c) ->
    held c v -> c_record c = Some (vs_record v)) as Hcur.
  { intros v Hv (_ & Hv' & _). destruct (c_record c); simplify_eq/=. auto. }
  destruct (p_await pr) eqn:Haw; simpl in Hreq; try discriminate Hreq;
    injection Hreq as <- <-.
  - destruct Ha as [e ->]. apply move_create. destruct (c_record c); [discriminate|reflexivity].
  - destruct Ha as (Hh & Hnone & e & ->). eapply move_activate; eauto.
  - destruct Ha as (Hh & s & e & n & a & Hv & ->). specialize (Hcur _ He Hh). rewrite Hv in Hcur.
    specialize (Hlag _ _ _ _ _ _ eq_refl). destruct (Hp n) as [_ Hnew]; [right; eauto 10|].
    apply move_challenge; auto. lia.
  - destruct Ha as (Hh & s & e & n & a & e' & Hv & -> & a' & Hw & Ht). specialize (Hcur _ He Hh).
    rewrite Hv in Hcur. pose proof (Hlog _ Hcur _ _ _ _ eq_refl). simplify_eq.
    eapply move_revoke; eauto.
  - destruct Ha as (Hh & e & n & a & Hv & ->). specialize (Hcur _ He Hh). rewrite Hv in Hcur.
    eapply move_defend; eauto.
Qed.

(** ** Resumption *)

(** What a process must satisfy after it went on, with the nonces it may now
    have pending. *)
Definition goes_on (c : Cluster) (p : nat) (old : Z -> Prop) (next : AuthorityLease * Await) (o : Z) : Prop :=
  await_ok c p (continued next o) /\ lease_ok c p (continued next o)
  /\ forall n, pending (continued next o) n -> old n.
(** Points that carry no obligation. *)
Definition plain (await : Await) : bool :=
  match await with
  | B_placement | B_session _ | B_delay _ | Recovering | M_delay _ | M_session _ _ | M_defend_read
  | Failed _ => true
  | _ => false
  end.
Lemma goes_plain c p old lease aw o : plain aw = true ->
  (al_serving lease = true -> exists w, al_last_poll lease + origin <= w + renewal_lag /\ claim c (session p) w) ->
  goes_on c p old (lease, aw) o.
Proof.
  intros Hp Hl. split; [|split; [exact Hl|]].
  - unfold await_ok. simpl. now destruct aw.
  - unfold pending. simpl. intros n [(? & ? & ->)|(? & ? & ? & ? & ? & -> & _)]; discriminate.
Qed.
Lemma goes_fenced c p old lease o : goes_on c p old (self_fence lease) o.
Proof. apply goes_plain; [reflexivity|discriminate]. Qed.
(** A point with an obligation and nothing pending. *)
Lemma goes_await c p old lease aw o : await_ok c p (continued (lease, aw) o) ->
  (al_serving lease = true -> exists w, al_last_poll lease + origin <= w + renewal_lag /\ claim c (session p) w) ->
  (forall n, pending (continued (lease, aw) o) n -> old n) -> goes_on c p old (lease, aw) o.
Proof. intros H1 H2 H3. split; [exact H1|]. split; [exact H2|exact H3]. Qed.

Section Resume.
Context (c : Cluster) (p : nat) (lease : AuthorityLease) (old : Z -> Prop) (now t o : Z).
Context (now_is : now = c_time c - origin).
Context (lease_fine : al_serving lease = true ->
  exists w, al_last_poll lease + origin <= w + renewal_lag /\ claim c (session p) w).

Ltac plainly := apply goes_plain; [reflexivity|exact lease_fine].
Ltac nothing_pending := unfold pending; simpl; intros ? [(? & ? & ?)|(? & ? & ? & ? & ? & ? & _)]; simplify_eq.

Lemma goes_renewed lease' aw : plain aw = true -> al_last_poll lease' = now ->
  c_time c <= t + renewal_lag -> claim c (session p) t -> goes_on c p old (lease', aw) o.
Proof using now_is.
  intros Hp Hl Hlag Hc. apply goes_plain; [exact Hp|]. intros _. exists t. split; [lia|exact Hc].
Qed.
Lemma goes_done placement v :
  c_time c <= t + renewal_lag -> claim c (session p) t ->
  goes_on c p old (bootstrap_done (session p) now placement v) o.
Proof using now_is. intros. now apply goes_renewed. Qed.
Lemma goes_wait placement v : held c v -> goes_on c p old (lease, after_challenge config now placement v) o.
Proof using lease_fine interval_nonneg now_is.
  intros (_ & _ & Hl). unfold after_challenge. destruct (vs_record v) as [| s e n a|] eqn:Hr; try plainly.
  apply goes_await; [|exact lease_fine|nothing_pending].
  unfold await_ok. simpl. exists a. split; [exact (Hl _ _ _ _ eq_refl)|].
  unfold saturating_sub, saturating_add. lia.
Qed.
Lemma goes_activate placement v b : held c v -> session_holder (vs_record v) = None ->
  goes_on c p old (lease, issue (VersionedSession_activate v (session p))
                            (fun record => B_activate placement v record b)) o.
Proof using lease_fine.
  intros Hh Hn. unfold VersionedSession_activate, HostSessionRecord_activate.
  destruct (vs_record v) as [| |os e n] eqn:Hr; try discriminate Hn.
  destruct (session p =? 0); simpl; [plainly|]. apply goes_await; [|exact lease_fine|nothing_pending].
  unfold await_ok. simpl. rewrite Hr. eauto.
Qed.
Lemma goes_bootstrap_session random placement a :
  c_time c <= t + renewal_lag ->
  match a with inl (Some v) => result_ok c v t | _ => True end ->
  old (Z.max random 1) ->
  goes_on c p old (bootstrap_session config (session p) now random lease placement a) o.
Proof using now_is lease_fine.
  intros Hlag Ha Hold. unfold bootstrap_session. destruct a as [[v|]|e].
  - destruct Ha as [Hh Hc]. destruct (vs_record v) as [s e| |os e n] eqn:Hr.
    + destruct (Z.eqb_spec s (session p)) as [->|_]; [apply goes_done; eauto|].
      apply goes_await; [exact I|exact lease_fine|]. nothing_pending. exact Hold.
    + plainly.
    + apply goes_activate; [exact Hh|now rewrite Hr].
  - unfold HostSessionRecord_initial. destruct (session p =? 0); simpl; [plainly|].
    apply goes_await; [|exact lease_fine|nothing_pending]. exists 1. reflexivity.
  - destruct e; plainly.
Qed.
Lemma goes_bootstrap_challenge placement nonce at_time a :
  match a with inl (Some v) => result_ok c v t | _ => True end -> old nonce ->
  goes_on c p old (bootstrap_challenge config now lease placement nonce at_time a) o.
Proof using lease_fine interval_nonneg now_is.
  intros Ha Hold. unfold bootstrap_challenge. destruct a as [[v|]|e]; [|plainly|destruct e; plainly].
  destruct Ha as [Hh _]. destruct (vs_record v) as [s e|s e n a|os e n] eqn:Hr.
  - unfold VersionedSession_challenge. rewrite Hr. simpl. destruct (nonce =? 0); simpl; [plainly|].
    apply goes_await; [|exact lease_fine|nothing_pending; exact Hold].
    unfold await_ok. simpl. split; [exact Hh|]. rewrite Hr. eauto 10.
  - now apply goes_wait.
  - unfold VersionedSession_challenge. rewrite Hr. plainly.
Qed.
Lemma goes_bootstrap_reread placement s0 nonce a :
  match a with inl (Some v) => result_ok c v t | _ => True end -> waited c nonce ->
  goes_on c p old (bootstrap_reread config now lease placement s0 nonce a) o.
Proof using lease_fine.
  intros Ha Hw. unfold bootstrap_reread. destruct a as [[v|]|e]; [|plainly|destruct e; plainly].
  destruct Ha as [Hh _]. destruct (vs_record v) as [s e|s e n a|os e n] eqn:Hr; try plainly.
  destruct ((s =? s0) && (n =? nonce)) eqn:E; [|plainly].
  apply andb_true_iff in E as [_ ->%Z.eqb_eq].
  unfold VersionedSession_revoke, HostSessionRecord_revoke. rewrite Hr, Z.eqb_refl. simpl.
  destruct (checked_add W64 e 1); simpl; [|plainly].
  apply goes_await; [|exact lease_fine|nothing_pending].
  unfold await_ok. simpl. split; [exact Hh|]. rewrite Hr. eauto 10.
Qed.
Lemma goes_bootstrap_cas pr a : await_ok c p pr ->
  (renewing (p_await pr) = true -> c_time c <= t + renewal_lag) ->
  answer_fits c (p_await pr) (A_cas a) t ->
  match p_await pr with B_create _ _ | B_activate _ _ _ _ | B_challenge_cas _ _ _ | B_revoke _ _ _ => True
  | _ => False end ->
  goes_on c p old (bootstrap_cas config (session p) now lease (p_await pr) a) o.
Proof using lease_fine now_is interval_nonneg.
  intros Haw Hlag Ha Hk. unfold bootstrap_cas, await_ok, answer_fits in *.
  destruct (p_await pr); try contradiction; simpl in Ha;
    (destruct a as [version|e0]; [destruct Ha as [Hh Hc]
                                 |destruct e0; try plainly; destruct pause; plainly]).
  - destruct Haw as [e ->]. apply goes_done; eauto.
  - destruct Haw as (_ & _ & e & ->). destruct pause; apply goes_done; eauto.
  - now apply goes_wait.
  - destruct Haw as (_ & s & e & n & a & e' & _ & -> & _). now apply goes_activate.
Qed.
Lemma goes_monitor_wakes : goes_on c p old (monitor_wakes config now lease) o.
Proof using lease_fine.
  unfold monitor_wakes. destruct (al_session lease); [|plainly].
  destruct (_ =? 0); [apply goes_fenced|plainly].
Qed.
Lemma goes_monitor_session last_success a : o = t ->
  match a with inl (Some v) => result_ok c v t | _ => True end ->
  goes_on c p old (monitor_session config (session p) now lease last_success a) o.
Proof using lease_fine.
  intros Ho Ha. unfold monitor_session. destruct a as [[v|]|e]; [|apply goes_fenced|].
  - destruct Ha as [Hh Hc]. destruct (vs_record v) as [s e|s e n at_time|os e n] eqn:Hr; [| |apply goes_fenced].
    + destruct (Z.eqb_spec s (session p)) as [->|_]; [|apply goes_fenced].
      apply goes_await; [|exact lease_fine|nothing_pending]. unfold await_ok. simpl. rewrite Ho. eauto.
    + destruct (s =? session p); [|apply goes_fenced]. apply goes_plain; [reflexivity|discriminate].
  - destruct e; try apply goes_fenced. destruct (_ <? _); [plainly|apply goes_fenced].
Qed.
Lemma goes_monitor_placement observed a : c_time c <= t + renewal_lag -> claim c (session p) t ->
  goes_on c p old (monitor_placement config now lease observed a) o.
Proof using lease_fine now_is.
  intros Hlag Hc. unfold monitor_placement. destruct a as [[proof|]|e]; [|plainly|plainly].
  destruct (negb _); [plainly|]. now apply goes_renewed.
Qed.
Lemma goes_monitor_defend_read a : c_time c <= t + renewal_lag ->
  match a with inl (Some v) => result_ok c v t | _ => True end ->
  goes_on c p old (monitor_defend_read config (session p) now lease a) o.
Proof using lease_fine now_is.
  intros Hlag Ha. unfold monitor_defend_read.
  destruct a as [[v|]|e]; [|apply goes_fenced|destruct e; plainly || apply goes_fenced].
  destruct Ha as [Hh Hc]. destruct (vs_record v) as [s e|s e n at_time|os e n] eqn:Hr; [| |apply goes_fenced].
  - destruct (Z.eqb_spec s (session p)) as [->|_]; [|apply goes_fenced]. apply goes_renewed; eauto.
  - destruct (Z.eqb_spec s (session p)) as [->|_]; [|apply goes_fenced].
    unfold VersionedSession_defend, HostSessionRecord_defend. rewrite Hr, !Z.eqb_refl. simpl.
    apply goes_await; [|exact lease_fine|nothing_pending].
    unfold await_ok. simpl. split; [exact Hh|]. rewrite Hr. eauto.
Qed.
Lemma goes_monitor_defend_cas e a : c_time c <= t + renewal_lag ->
  match a with inl version => result_ok c {| vs_store_version := version;
                                             vs_record := Session_Active (session p) e |} t | _ => True end ->
  goes_on c p old (monitor_defend_cas config now lease (Session_Active (session p) e) a) o.
Proof using lease_fine now_is.
  intros Hlag Ha. unfold monitor_defend_cas. destruct a as [version|err].
  - destruct Ha as [_ Hc]. apply goes_renewed; eauto.
  - destruct err; plainly || apply goes_fenced.
Qed.
End Resume.

Lemma goes_resume c p pr a t random :
  proc_ok c p pr -> p_answer pr = Some (a, t) ->
  (renewing (p_await pr) = true -> c_time c <= observed_at (p_await pr) (p_observed pr) t + renewal_lag) ->
  goes_on c p (fun n => pending pr n \/ n = Z.max random 1)
    (resume config (session p) (c_time c - origin) random (p_lease pr) (p_await pr) a)
    (observed_at (p_await pr) (p_observed pr) t).
Proof using interval_nonneg.
  intros [Haw Han Hle _] Hans Hlag. unfold answer_ok in Han. rewrite Hans in Han.
  set (old := fun n => pending pr n \/ n = Z.max random 1).
  pose proof (fun o => goes_bootstrap_cas c p (p_lease pr) old (c_time c - origin) t o eq_refl Hle pr) as Hcas.
  unfold resume, await_ok, lease_ok, answer_fits in *.
  destruct (p_await pr) eqn:Hp; cbn [request_of renewing observed_at] in *; try contradiction;
    destruct a as [a|a|a]; try contradiction; try (apply Hcas; auto; fail).
  - destruct a as [[proof|]|e]; [destruct (_ =? _)| |destruct e]; apply goes_plain; auto.
  - apply (goes_bootstrap_session c p (p_lease pr) old _ t); auto; now right.
  - apply (goes_bootstrap_challenge c p (p_lease pr) old _ t); auto. left. left. eauto.
  - apply (goes_bootstrap_reread c p (p_lease pr) old _ t); auto.
  - apply (goes_monitor_session c p (p_lease pr) old _ t); auto.
  - apply (goes_monitor_placement c p (p_lease pr) old _ (p_observed pr)); auto.
  - apply (goes_monitor_defend_read c p (p_lease pr) old _ t); auto.
  - destruct Haw as (_ & e & n & at_time & _ & ->).
    apply (goes_monitor_defend_cas c p (p_lease pr) old _ t); auto.
Qed.

(** ** Steps *)
Lemma same_store_later c c' : c_time c <= c_time c' -> c_version c' = c_version c ->
  c_record c' = c_record c -> c_log c' = c_log c -> c_drawn c ⊆ c_drawn c' -> later c c'.
Proof.
  intros Ht Hv Hr Hl Hd. split; [exact Ht|right; auto|now rewrite Hl|exact Hd|].
  intros s w [Hw Hc]. split; [lia|]. rewrite Hr. destruct Hc as [Hc|Hc]; [left; exact Hc|right; lia].
Qed.
Lemma proc_later c c' q pr : later c c' -> (forall n, pending pr n -> c_log c' !! n = None) ->
  proc_ok c q pr -> proc_ok c' q pr.
Proof.
  intros Hl Hp [H1 H2 H3 H4]. split; eauto using await_later, answer_later, lease_later.
  intros n Hn. split; [|auto]. apply (l_drawn _ _ Hl). now apply H4.
Qed.
(** Only process [p] has changed, and it has gone on. *)
Lemma invariant_proc c c' p pr : invariant c -> later c c' -> c_record c' = c_record c ->
  c_log c' = c_log c -> c_time c' - origin < W64 - 1 -> c_procs c' = set_proc (c_procs c) p pr ->
  proc_ok c' p pr -> (forall q n, q <> p -> pending pr n -> ~ pending (c_procs c q) n) ->
  invariant c'.
Proof.
  intros [I1 I2 I3 I4 I5] Hl Hr Hlog Ht Hps Hp Hnew.
  assert (forall q, q <> p -> c_procs c' q = c_procs c q) as Hq.
  { intros q Hne. rewrite Hps. unfold set_proc. now rewrite decide_False. }
  assert (c_procs c' p = pr) as Hpp by (rewrite Hps; unfold set_proc; now rewrite decide_True).
  split.
  - intros q. destruct (decide (q = p)) as [->|Hne]; [now rewrite Hpp|]. rewrite Hq by exact Hne.
    apply (proc_later c); auto. intros n Hn. rewrite Hlog. now apply (ok_pending _ _ _ (I1 q)).
  - rewrite Hr, Hlog. exact I2.
  - rewrite Hlog. intros n a Hn. apply (l_drawn _ _ Hl). eauto.
  - intros q r n. destruct (decide (q = p)) as [->|H1], (decide (r = p)) as [->|H2];
      rewrite ?Hpp, ?Hq by assumption; intros Hn1 Hn2; eauto; exfalso; eapply Hnew; eauto.
  - exact Ht.
Qed.
(** A process that goes on between store requests. *)
Lemma continued_ok c c' p next o (old : Z -> Prop) : later c c' -> c_log c' = c_log c ->
  goes_on c p old next o -> (forall n, old n -> n ∈ c_drawn c' /\ c_log c !! n = None) ->
  proc_ok c' p (continued next o).
Proof.
  intros Hl Hlog (H1 & H2 & H3) Hold.
  split; [eauto using await_later|exact I|eauto using lease_later|].
  rewrite Hlog. auto.
Qed.
Lemma pending_answered pr a t n : pending (answered pr a t) n -> pending pr n.
Proof. unfold pending. simpl. intros [H|(?&?&?&?&?&?&?)]; [auto|discriminate]. Qed.
Lemma goes_timer c p pr : invariant c -> proc_ok c p pr ->
  timer_due (c_time c - origin) (p_await pr) = true ->
  goes_on c p (pending pr) (timer config (c_time c - origin) (p_lease pr) (p_await pr)) (p_observed pr).
Proof.
  intros HI [Haw _ Hle _] Hd. unfold timer_due, timer, await_ok, lease_ok in *.
  destruct (p_await pr) eqn:Hp; try discriminate Hd.
  - apply goes_await; [|exact Hle|].
    + destruct Haw as (a & Ha & Hu). exists a. split; [exact Ha|].
      apply Z.leb_le in Hd. pose proof (inv_clock _ HI). lia.
    + unfold pending. simpl. intros ? [(?&?&?)|(?&?&?&?&?&?&_)]; discriminate.
  - now apply goes_plain.
  - now apply goes_plain.
  - now apply goes_monitor_wakes.
Qed.
Lemma pending_drawn c p n random : invariant c -> Z.max random 1 ∉ c_drawn c ->
  pending (c_procs c p) n \/ n = Z.max random 1 ->
  n ∈ {[Z.max random 1]} ∪ c_drawn c /\ c_log c !! n = None.
Proof.
  intros HI Hr [Hn| ->].
  - destruct (ok_pending _ _ _ (inv_procs _ HI p) n Hn) as [H1 H2]. split; [set_solver|exact H2].
  - split; [set_solver|]. destruct (c_log c !! Z.max random 1) eqn:E; [|reflexivity].
    now apply (inv_drawn _ HI) in E.
Qed.
(** The answer to a request that took effect without changing the record, or by
    a conditional write. *)
Lemma exec_answer c request version record answer await :
  (forall r, c_record c = Some r -> logs (c_log c) r) ->
  request_of await = Some request -> executes (c_version c) (c_record c) request version record answer ->
  version = c_version c /\ record = c_record c
    /\ (forall c', c_version c' = c_version c -> c_record c' = c_record c -> c_log c' = c_log c ->
          c_time c' = c_time c -> answer_fits c' await answer (c_time c))
  \/ exists expected new, request = CasSession expected new /\ version = c_version c + 1 /\ record = Some new
    /\ expected = option_map (fun _ => c_version c) (c_record c)
    /\ (answer = A_cas (inl version) \/ answer = A_cas (inr Authority_Unavailable)).
Proof.
  intros Hlog Hreq He. destruct He; try (right; eauto 10; fail); left; (split; [reflexivity|]);
    (split; [reflexivity|]); intros c' Hv Hr Hl Ht; unfold answer_fits; rewrite Hreq; auto.
  destruct (c_record c) as [r|] eqn:Hrec; simpl; [|exact I]. split; simpl.
  - split; [simpl; lia|]. rewrite Hr, Hl. simpl. auto.
  - intros s e ->. split; [lia|]. left. rewrite Hr. split; [reflexivity|]. congruence.
Qed.
Lemma cas_pending c p pr expected s e n a : await_ok c p pr -> p_answer pr = None ->
  request_of (p_await pr) = Some (CasSession expected (Session_Challenge s e n a)) -> pending pr n.
Proof.
  intros Haw Ha Hreq. unfold await_ok in Haw. destruct (p_await pr) eqn:Hp; try discriminate Hreq;
    injection Hreq as _ ->.
  - destruct Haw as [? ?]. discriminate.
  - destruct Haw as (_ & _ & ? & ?). discriminate.
  - right. eauto 10.
  - destruct Haw as (_ & ? & ? & ? & ? & ? & _ & ? & _). discriminate.
  - destruct Haw as (_ & ? & ? & ? & _ & ?). discriminate.
Qed.
Lemma logs_logged log r : logs (logged log r) r.
Proof. intros s e n a ->. simpl. apply lookup_insert_eq. Qed.
Lemma lookup_logged log r n : (forall s e a, r <> Session_Challenge s e n a) -> logged log r !! n = log !! n.
Proof.
  intros H. destruct r as [|s e n' a|]; try reflexivity. simpl. apply lookup_insert_ne.
  intros ->. eapply H. reflexivity.
Qed.
(** A conditional write by process [p]. *)
Lemma write_invariant c p expected new answer :
  let pr := c_procs c p in
  invariant c -> p_answer pr = None -> request_of (p_await pr) = Some (CasSession expected new) ->
  move c new ->
  (answer = A_cas (inl (c_version c + 1)) \/ answer = A_cas (inr Authority_Unavailable)) ->
  invariant {| c_time := c_time c; c_version := c_version c + 1; c_record := Some new;
               c_procs := set_proc (c_procs c) p (answered pr answer (c_time c));
               c_drawn := c_drawn c; c_log := logged (c_log c) new |}.
Proof.
  intros pr HI Ha Hreq Hm Hans. set (c' := {| c_record := Some new |}).
  assert (later c c') as Hl by now apply (move_later _ _ new).
  destruct HI as [I1 I2 I3 I4 I5]. pose proof (I1 p) as Hpr. fold pr in Hpr.
  assert (forall n, ~ pending (answered pr answer (c_time c)) n) as Hquiet.
  { intros n [(pl & a & E)|(?&?&?&?&?&_&?)]; [|discriminate]. simpl in E. rewrite E in Hreq. discriminate. }
  assert (forall n s e a, new = Session_Challenge s e n a -> pending pr n) as Hmine.
  { intros n s e a ->. eapply cas_pending; eauto. apply Hpr. }
  split; [|intros r [= <-]; apply logs_logged| | |exact I5].
  - intros q. unfold c'. cbn [c_procs]. unfold set_proc. destruct (decide (q = p)) as [->|Hne].
    + destruct Hpr as [H1 _ H3 _]. split; [eapply await_later; eauto| |eapply lease_later; eauto|].
      * unfold answer_ok, answer_fits. simpl. rewrite Hreq. destruct Hans as [-> | ->]; [|exact I].
        split; [split; [simpl; lia|split; [auto|apply logs_logged]]|]. simpl. intros s e ->.
        split; [simpl; lia|]. left. split; [reflexivity|discriminate].
      * intros n Hn. destruct (Hquiet n Hn).
    + apply (proc_later c); auto. intros n Hn. unfold c'. cbn [c_log].
      rewrite lookup_logged; [now apply (ok_pending _ _ _ (I1 q))|].
      intros s e a E. apply Hne, (I4 q p n); [exact Hn|]. eapply Hmine; eauto.
  - intros n a Hn. unfold c' in Hn. cbn [c_log] in Hn.
    destruct new as [|s' e' n' a'|]; simpl in Hn; try (eapply I3; eauto; fail).
    apply lookup_insert_Some in Hn as [[-> _]|[_ Hn]]; [|eapply I3; eauto].
    apply (ok_pending _ _ _ (I1 p)). eapply Hmine. reflexivity.
  - intros q r n. unfold c'. cbn [c_procs]. unfold set_proc.
    destruct (decide (q = p)), (decide (r = p)); intros Hq Hr; subst; auto;
      first [destruct (Hquiet n Hq)|destruct (Hquiet n Hr)|eauto].
Qed.
Lemma exec_invariant c p request version record answer :
  let pr := c_procs c p in
  invariant c -> p_answer pr = None -> request_of (p_await pr) = Some request ->
  executes (c_version c) (c_record c) request version record answer ->
  (forall placement observed s e n at_time,
     p_await pr = B_challenge_cas placement observed (Session_Challenge s e n at_time) ->
     c_time c - origin <= at_time + challenge_lag) ->
  invariant {| c_time := c_time c; c_version := version; c_record := record;
               c_procs := set_proc (c_procs c) p (answered pr answer (c_time c));
               c_drawn := c_drawn c;
               c_log := if decide (version = c_version c) then c_log c
                        else match record with Some r => logged (c_log c) r | None => c_log c end |}.
Proof.
  intros pr HI Ha Hreq He Hlag. pose proof (inv_procs _ HI p) as Hpr. fold pr in Hpr.
  assert (forall q n, q <> p -> pending (answered pr answer (c_time c)) n -> ~ pending (c_procs c q) n) as Hnew.
  { intros q n Hne Hn%pending_answered Hq. now apply Hne, (inv_nonces _ HI q p n). }
  destruct (exec_answer _ _ _ _ _ _ (inv_record _ HI) Hreq He)
    as [(-> & -> & Hans)|(expected & new & -> & -> & -> & Hexp & Hans)].
  - rewrite decide_True by reflexivity. match goal with |- invariant ?c' => assert (later c c') as Hl end.
    { apply same_store_later; simpl; auto; lia. }
    eapply (invariant_proc c); simpl; try reflexivity; [exact HI|exact Hl|apply HI| |exact Hnew].
    destruct Hpr as [H1 _ H3 H4]. split; [eapply await_later; eauto|apply Hans; reflexivity|eapply lease_later; eauto|].
    intros n Hn%pending_answered. exact (H4 n Hn).
  - rewrite decide_False by lia.
    pose proof (cas_moves c p pr _ _ Hpr (inv_record _ HI) Ha Hreq Hexp Hlag) as Hm.
    now apply (write_invariant c p expected new answer).
Qed.
Lemma step_invariant c c' : invariant c -> step c c' -> invariant c'.
Proof using same_clock interval_nonneg.
  intros HI Hs. destruct Hs as [d Hd Hb|p request version record answer pr Ha Hreq He Hlag
    |p answer t random pr o Ha Hr Hlag|p pr Ha Hd|p pr Ha Hd]; unfold clock in *; rewrite ?same_clock in *.
  - pose proof HI as [I1 I2 I3 I4 I5]. specialize (Hb 0%nat). rewrite same_clock in Hb.
    assert (later c {| c_time := c_time c + d; c_version := c_version c; c_record := c_record c;
      c_procs := c_procs c; c_drawn := c_drawn c; c_log := c_log c |}) as Hl.
    { apply same_store_later; simpl; auto; lia. }
    split; [|exact I2|exact I3|exact I4|exact Hb]. intros q. apply (proc_later c); [exact Hl| |apply I1].
    intros n Hn. simpl. now apply (ok_pending _ _ _ (I1 q)).
  - eapply exec_invariant; eauto.
  - assert (goes_on c p (fun n => pending pr n \/ n = Z.max random 1)
      (resume config (session p) (c_time c - origin) random (p_lease pr) (p_await pr) answer) o) as Hgo.
    { apply goes_resume; auto. apply HI. }
    match goal with |- invariant ?c' => assert (later c c') as Hl end.
    { apply same_store_later; simpl; auto; [lia|set_solver]. }
    eapply (invariant_proc c); simpl; try reflexivity; [exact HI|exact Hl|apply HI| |].
    + apply (continued_ok c _ p _ _ _ Hl eq_refl Hgo). intros n. now apply pending_drawn.
    + intros q n Hne Hn Hq. apply Hgo in Hn as [Hn| ->].
      * now apply Hne, (inv_nonces _ HI q p n).
      * apply (ok_pending _ _ _ (inv_procs _ HI q)) in Hq as [? _]. contradiction.
  - eapply (invariant_proc c); simpl; try reflexivity; [exact HI| |apply HI| |].
    + apply same_store_later; simpl; auto; lia.
    + apply (continued_ok c _ p _ _ (pending pr)); simpl; auto; [apply same_store_later; simpl; auto; lia| |].
      * apply goes_timer; auto. apply HI.
      * intros n. apply (ok_pending _ _ _ (inv_procs _ HI p)).
    + intros q n Hne Hn Hq. apply (goes_timer c p pr HI) in Hn; [|apply HI|exact Hd].
      now apply Hne, (inv_nonces _ HI q p n).
  - eapply (invariant_proc c); simpl; try reflexivity; [exact HI| |apply HI| |].
    + apply same_store_later; simpl; auto; lia.
    + apply (continued_ok c _ p _ _ (fun _ => False)); simpl; auto; [apply same_store_later; simpl; auto; lia| |].
      * apply goes_fenced.
      * intros n [].
    + intros q n Hne Hn Hq. unfold pending in Hn. simpl in Hn.
      destruct Hn as [(?&?&?)|(?&?&?&?&?&?&_)]; discriminate.
Qed.

Lemma initial_invariant time : time - origin < W64 - 1 -> invariant (initial_cluster config time).
Proof.
  intros Ht. assert (forall n, ~ pending (initial_proc config) n) as Hq.
  { unfold pending, initial_proc, bootstrap_start. simpl. destruct (config_valid config);
      intros n [(?&?&?)|(?&?&?&?&?&?&_)]; discriminate. }
  split; simpl; auto; try (intros; discriminate).
  - intros p. split; [|exact I|discriminate|intros n Hn; destruct (Hq n Hn)].
    unfold await_ok, initial_proc, bootstrap_start. simpl. now destruct (config_valid config).
  - intros p q n Hn. destruct (Hq n Hn).
Qed.
Lemma reachable_invariant time c : time - origin < W64 - 1 ->
  rtc step (initial_cluster config time) c -> invariant c.
Proof using same_clock interval_nonneg.
  intros Ht H. assert (forall c0, rtc step c0 c -> invariant c0 -> invariant c) as Hr.
  { clear H. induction 1; eauto using step_invariant. }
  eauto using initial_invariant.
Qed.
Lemma authorized_holder host c p : invariant c ->
  renewal_lag + challenge_lag + max_poll_staleness config <= CI ->
  authorized config start host c p -> c_record c ≫= session_holder = Some (session p).
Proof using same_clock.
  intros HI Hb. unfold authorized, volume_authorized, clock. rewrite same_clock.
  destruct (Z.leb_spec (max_poll_staleness config)
    (saturating_sub (c_time c - origin) (al_last_poll (p_lease (c_procs c p))))) as [|Hage]; [discriminate|].
  intros [Hserv _]%andb_true_iff.
  destruct (ok_lease _ _ _ (inv_procs _ HI p) Hserv) as (w & Hw & _ & [[Hh _]|Hlate]); [exact Hh|].
  unfold saturating_sub in Hage. lia.
Qed.
End Safety.

(** C3. Leases exclude each other when the store is timely. Any number of
    processes of one host start, take the session over from each other, renew
    and lose it, against a store that delays, fails and loses answers. If they
    drew different sessions, share a clock origin, and the challenge interval
    covers the staleness bound plus the two lags of [step], then at every
    moment a process that would serve a request holds the session of the
    record, so no two processes serve at the same time. *)
Theorem lease_exclusive (config : AuthorityHostConfig) (session start : nat -> Z)
    (renewal_lag challenge_lag origin time host : Z) (c : Cluster) :
  (forall p, start p = origin) -> (forall p q, session p = session q -> p = q) ->
  time - origin < W64 - 1 -> 0 <= challenge_interval config ->
  renewal_lag + challenge_lag + max_poll_staleness config <= challenge_interval config ->
  rtc (step config session start renewal_lag challenge_lag) (initial_cluster config time) c ->
  (forall p, authorized config start host c p ->
     exists r, c_record c = Some r /\ session_holder r = Some (session p))
  /\ (forall p q, authorized config start host c p -> authorized config start host c q -> p = q).
Proof.
  intros Hclock Hinj Ht Hci Hb Hr.
  pose proof (reachable_invariant config session start renewal_lag challenge_lag origin Hclock Hci time c Ht Hr) as HI.
  assert (forall p, authorized config start host c p ->
    c_record c ≫= session_holder = Some (session p)) as Hh.
  { intros p. now apply (authorized_holder config session start renewal_lag challenge_lag origin Hclock). }
  split.
  - intros p Hp. apply Hh in Hp. destruct (c_record c) as [r|]; [eauto|discriminate].
  - intros p q Hp Hq. apply Hh in Hp, Hq. apply Hinj. congruence.
Qed.
