(* ===== verification/LeaseExamples.v ===== *)
(** * Leases, scheduled

    Schedules of the transition system of [Lease] run by computation, the
    overlaps they exhibit, and two ways for a host to stay down. *)

From stdpp Require Import gmap relations.
From S2P Require Import Prelude Format Placement Session Lease LeaseSafety.

(** ** Schedules *)
Inductive Event :=
| Advance (d : Z)
| Place (p : nat) (proof : PlacementProof)
| Exec (p : nat)
| Lose (p : nat)
| Continue (p : nat) (random : Z)
| Fire (p : nat).

Section Run.
Context (config : AuthorityHostConfig) (session start : nat -> Z) (latest : Z).
Context (renewal_lag challenge_lag : Z).
Hypothesis start_late : forall p, latest <= start p.

(** How a request without a choice takes effect. *)
Definition execute (c : Cluster) (request : StoreRequest) (lost : bool)
  : option (Z * option HostSessionRecord * StoreAnswer) :=
  match request with
  | ReadPlacement => None
  | ReadSession => Some (c_version c, c_record c,
      A_session (inl (option_map (fun r => {| vs_store_version := c_version c; vs_record := r |}) (c_record c))))
  | CasSession expected new =>
      if bool_decide (expected = option_map (fun _ => c_version c) (c_record c))
      then Some (c_version c + 1, Some new,
             A_cas (if lost then inr Authority_Unavailable else inl (c_version c + 1)))
      else Some (c_version c, c_record c, A_cas (inr Authority_Conflict))
  end.
Definition challenge_timely (c : Cluster) (p : nat) : bool :=
  match p_await (c_procs c p) with
  | B_challenge_cas _ _ (Session_Challenge _ _ _ at_time) => clock start c p <=? at_time + challenge_lag
  | _ => true
  end.
Definition after_exec (c : Cluster) (p : nat) (version : Z) (record : option HostSessionRecord)
    (answer : StoreAnswer) : Cluster :=
  {| c_time := c_time c; c_version := version; c_record := record;
     c_procs := set_proc (c_procs c) p (answered (c_procs c p) answer (c_time c));
     c_drawn := c_drawn c;
     c_log := if decide (version = c_version c) then c_log c
              else match record with Some r => logged (c_log c) r | None => c_log c end |}.
Definition run_exec (c : Cluster) (p : nat) (lost : bool) : option Cluster :=
  let pr := c_procs c p in
  match p_answer pr, request_of (p_await pr) with
  | None, Some request =>
      if challenge_timely c p then
        '(version, record, answer) ← execute c request lost; Some (after_exec c p version record answer)
      else None
  | _, _ => None
  end.
Definition run_event (c : Cluster) (e : Event) : option Cluster :=
  match e with
  | Advance d =>
      if (0 <=? d) && (c_time c + d - latest <? W64 - 1) then
        Some {| c_time := c_time c + d; c_version := c_version c; c_record := c_record c;
                c_procs := c_procs c; c_drawn := c_drawn c; c_log := c_log c |}
      else None
  | Place p proof =>
      let pr := c_procs c p in
      match p_answer pr, request_of (p_await pr) with
      | None, Some ReadPlacement =>
          Some (after_exec c p (c_version c) (c_record c) (A_placement (inl (Some proof))))
      | _, _ => None
      end
  | Exec p => run_exec c p false
  | Lose p => run_exec c p true
  | Continue p random =>
      let pr := c_procs c p in
      match p_answer pr with
      | Some (answer, t) =>
          let observed := observed_at (p_await pr) (p_observed pr) t in
          if bool_decide (Z.max random 1 ∉ c_drawn c)
             && (negb (renewing (p_await pr)) || (c_time c <=? observed + renewal_lag)) then
            Some {| c_time := c_time c; c_version := c_version c; c_record := c_record c;
                    c_procs := set_proc (c_procs c) p
                      (continued (resume config (session p) (clock start c p) random (p_lease pr)
                                    (p_await pr) answer) observed);
                    c_drawn := {[Z.max random 1]} ∪ c_drawn c; c_log := c_log c |}
          else None
      | None => None
      end
  | Fire p =>
      let pr := c_procs c p in
      match p_answer pr with
      | None =>
          if timer_due (clock start c p) (p_await pr)
          then Some (with_proc c p (continued (timer config (clock start c p) (p_lease pr) (p_await pr))
                                      (p_observed pr)))
          else None
      | Some _ => None
      end
  end.
Fixpoint run (c : Cluster) (events : list Event) : option Cluster :=
  match events with
  | [] => Some c
  | e :: events => c' ← run_event c e; run c' events
  end.

Abbreviation step := (step config session start renewal_lag challenge_lag).
Lemma run_exec_step c p lost c' : run_exec c p lost = Some c' -> step c c'.
Proof.
  unfold run_exec. destruct (p_answer (c_procs c p)) eqn:Ha; [discriminate|].
  destruct (request_of (p_await (c_procs c p))) as [request|] eqn:Hr; [|discriminate].
  destruct (challenge_timely c p) eqn:Ht; [|discriminate].
  intros ([[version record] answer] & He & [= <-])%bind_Some.
  apply (step_exec _ _ _ _ _ c p request); auto.
  - unfold execute in He. destruct request as [| |expected new]; [discriminate|simplify_eq; constructor|].
    case_bool_decide; simplify_eq; [|constructor].
    destruct lost; [now apply cas_unanswered|now apply cas_succeeds].
  - intros pl v s e n a Hp. unfold challenge_timely in Ht. rewrite Hp in Ht. now apply Z.leb_le.
Qed.
Lemma run_event_step c e c' : run_event c e = Some c' -> step c c'.
Proof using start_late.
  destruct e as [d|p proof|p|p|p random|p]; simpl; try apply run_exec_step.
  - destruct (_ && _) eqn:E; [|discriminate]. intros [= <-]. apply andb_true_iff in E as [E1 E2].
    apply step_time; [lia|]. intros p. specialize (start_late p). lia.
  - destruct (p_answer (c_procs c p)) eqn:Ha; [discriminate|].
    destruct (request_of (p_await (c_procs c p))) as [[]|] eqn:Hr; try discriminate. intros [= <-].
    apply (step_exec _ _ _ _ _ c p ReadPlacement); auto; [constructor|].
    intros pl v s e n a Hp. rewrite Hp in Hr. discriminate.
  - destruct (p_answer (c_procs c p)) as [[answer t]|] eqn:Ha; [|discriminate].
    destruct (_ && _) eqn:E; [|discriminate]. intros [= <-]. apply andb_true_iff in E as [E1 E2].
    apply bool_decide_eq_true in E1. apply (step_resume _ _ _ _ _ c p answer t); auto.
    intros Hr. rewrite Hr in E2. simpl in E2. now apply Z.leb_le.
  - destruct (p_answer (c_procs c p)) eqn:Ha; [discriminate|].
    destruct (timer_due _ _) eqn:Ht; [|discriminate]. intros [= <-]. now apply step_timer.
Qed.
Lemma run_steps events c c' : run c events = Some c' -> rtc step c c'.
Proof using start_late.
  revert c. induction events as [|e events IH]; simpl; intros c; [intros [= <-]; reflexivity|].
  intros (c1 & H1 & H2)%bind_Some. eapply rtc_l; [exact (run_event_step _ _ _ H1)|auto].
Qed.
End Run.

(** ** The shipped intervals, in seconds *)
Definition shipped : AuthorityHostConfig :=
  {| cluster_id := 7; poll_interval := 1; max_poll_staleness := 5; challenge_interval := 10 |}.
Definition members : ClusterPlacement := {| cp_cluster_id := 7; cp_epoch := 1; cp_roster := [1; 2; 3] |}.
Definition proof : PlacementProof := {| pp_store_version := 1; pp_placement := members |}.
Definition sessions (p : nat) : Z := 100 + Z.of_nat p.
Definition together (p : nat) : Z := 0.

(** A process takes a free host. *)
Definition starts (p : nat) : list Event :=
  [Place p proof; Continue p (1000 + Z.of_nat p);
   Exec p; Continue p (1010 + Z.of_nat p); Exec p; Continue p (1020 + Z.of_nat p); Fire p].
(** A process finds another session, challenges it and waits. *)
Definition challenges (p : nat) : list Event :=
  [Place p proof; Continue p (2000 + Z.of_nat p); Exec p; Continue p (2010 + Z.of_nat p);
   Exec p; Continue p (2020 + Z.of_nat p); Exec p; Continue p (2030 + Z.of_nat p)].
(** The wait is over: revoke and take over. *)
Definition takes_over (p : nat) : list Event :=
  [Fire p; Exec p; Continue p (3000 + Z.of_nat p); Exec p; Continue p (3010 + Z.of_nat p);
   Exec p; Continue p (3020 + Z.of_nat p)].

(** Process 0 reads its session at second 1 and is suspended. Process 1
    challenges the session in that second. Process 0 runs on at second 7: the
    answer is there, so it renews its lease as of now. At second 11 process 1
    revokes the session and serves. *)
Definition suspended_renewal : list Event :=
  starts 0 ++ [Advance 1; Fire 0; Exec 0] ++ challenges 1
  ++ [Advance 6; Continue 0 4000; Place 0 proof; Continue 0 4001; Advance 4] ++ takes_over 1.
(** The clocks differ: process 1 started 50 seconds after process 2. Process 0
    serves. Process 1 challenges it and dates the challenge with its own clock.
    Process 2, which had seen the session active, finds the challenge and by
    its clock the interval is long over. *)
Definition apart (p : nat) : Z := match p with 1%nat => 50 | _ => 0 end.
Definition foreign_clock : list Event :=
  [Advance 60] ++ starts 0
  ++ [Place 2 proof; Continue 2 5000; Exec 2; Continue 2 5001]
  ++ challenges 1 ++ [Exec 2; Continue 2 5002] ++ takes_over 2.

(** Two processes can serve at the same time. With the shipped intervals,
    which [bootstrap_host_authority] accepts: (1) a process suspended for six
    seconds between the store's answer and its renewal serves together with
    the process that took its session over, every write being prompt; (2) with
    no delay at all, a challenge dated by the clock of one process and waited
    out by the clock of another is carried out at once, while the challenged
    process serves. *)
Theorem lease_overlap :
  config_valid shipped = true
  /\ (exists c, rtc (step shipped sessions together 6 0) (initial_cluster shipped 0) c
        /\ authorized shipped together 1 c 0 /\ authorized shipped together 1 c 1)
  /\ (exists c, rtc (step shipped sessions apart 0 0) (initial_cluster shipped 0) c
        /\ authorized shipped apart 1 c 0 /\ authorized shipped apart 1 c 2).
Proof.
  split; [reflexivity|]. split.
  - destruct (run shipped sessions together 0 6 0 (initial_cluster shipped 0) suspended_renewal) as [c|] eqn:E;
      [|vm_compute in E; discriminate].
    exists c. split; [eapply run_steps; [|exact E]; intros; unfold together; lia|].
    assert (Some c = run shipped sessions together 0 6 0 (initial_cluster shipped 0) suspended_renewal) as Hc by auto.
    vm_compute in Hc. injection Hc as ->. split; vm_compute; reflexivity.
  - destruct (run shipped sessions apart 0 0 0 (initial_cluster shipped 0) foreign_clock) as [c|] eqn:E;
      [|vm_compute in E; discriminate].
    exists c. split; [eapply run_steps; [|exact E]; intros [|[]]; simpl; lia|].
    assert (Some c = run shipped sessions apart 0 0 0 (initial_cluster shipped 0) foreign_clock) as Hc by auto.
    vm_compute in Hc. injection Hc as ->. split; vm_compute; reflexivity.
Qed.

Lemma served_run : exists c, rtc (step shipped sessions together 2 1) (initial_cluster shipped 0) c
  /\ authorized shipped together 1 c 0.
Proof.
  destruct (run shipped sessions together 0 2 1 (initial_cluster shipped 0) (starts 0)) as [c|] eqn:E;
    [|vm_compute in E; discriminate].
  exists c. split; [eapply run_steps; [|exact E]; intros; unfold together; lia|].
  assert (Some c = run shipped sessions together 0 2 1 (initial_cluster shipped 0) (starts 0)) as Hc by auto.
  vm_compute in Hc. injection Hc as ->. vm_compute. reflexivity.
Qed.
Lemma lease_exclusive_witness :
  exists c, rtc (step shipped sessions together 2 1) (initial_cluster shipped 0) c
    /\ authorized shipped together 1 c 0 /\ forall q, authorized shipped together 1 c q -> q = 0%nat.
Proof.
  destruct served_run as (c & Hr & H0). exists c. split; [exact Hr|]. split; [exact H0|]. intros q Hq.
  apply (proj2 (lease_exclusive shipped sessions together 2 1 0 0 1 c (fun _ => eq_refl)
    ltac:(unfold sessions; lia) ltac:(lia) ltac:(simpl; lia) ltac:(simpl; lia) Hr) q 0%nat Hq H0).
Defined.

(** ** Hosts that stay down *)
Section Down.
Context (config : AuthorityHostConfig) (session start : nat -> Z) (renewal_lag challenge_lag : Z).
Abbreviation step := (step config session start renewal_lag challenge_lag).

(** A process that has read nothing but challenges. *)
Definition turned_away (record : HostSessionRecord) (pr : Proc) : Prop :=
  al_serving (p_lease pr) = false
  /\ match p_await pr, p_answer pr with
     | B_placement, None | B_placement, Some (A_placement _, _) => True
     | B_session _, None | B_session _, Some (A_session (inr _), _) => True
     | B_session _, Some (A_session (inl (Some v)), _) => vs_record v = record
     | B_delay _, None | Failed _, None => True
     | _, _ => False
     end.
Lemma turned_away_step s e n a c c' :
  let record := Session_Challenge s e n a in
  c_record c = Some record -> (forall p, turned_away record (c_procs c p)) -> step c c' ->
  c_record c' = Some record /\ (forall p, turned_away record (c_procs c' p)).
Proof.
  intros record Hr Hp Hs.
  assert (forall p0 pr, turned_away record pr -> forall q, turned_away record (set_proc (c_procs c) p0 pr q)) as Hset.
  { intros p0 pr Hpr q. unfold set_proc. destruct (decide (q = p0)); auto. }
  destruct Hs as [d Hd Hb|p request version rec' answer pr Ha Hreq He Hlag
    |p answer t random pr o Ha Hrn Hlag|p pr Ha Hd|p pr Ha Hd]; simpl; [auto|..].
  all: pose proof (Hp p) as [Hsv Haw]; fold pr in Hsv, Haw; rewrite Ha in Haw.
  - assert (rec' = Some record /\ turned_away record (answered pr answer (c_time c))) as [-> Hnew]; [|auto].
    unfold turned_away. simpl.
    destruct (p_await pr); simpl in Hreq; try contradiction; simplify_eq; inversion He; subst; auto.
    rewrite Hr. simpl. auto.
  - split; [exact Hr|]. apply Hset. unfold turned_away, continued. simpl.
    destruct (p_await pr); try contradiction; destruct answer as [x|x|x]; try contradiction; simpl.
    + destruct x as [[pf|]|[]]; simpl; auto. destruct (_ =? _); auto.
    + destruct x as [[v|]|[]]; try contradiction; simpl; auto. rewrite Haw. simpl. auto.
  - split; [exact Hr|]. apply Hset. unfold turned_away. simpl.
    destruct (p_await pr); try contradiction; try discriminate Hd. simpl. auto.
  - split; [exact Hr|]. apply Hset. unfold turned_away. simpl. auto.
Qed.

(** A challenge nobody carries out keeps the host down. If the process that
    wrote the challenge is gone (or never learned that its write succeeded and
    starts over), and the challenged process is gone, then however many
    processes start and however long they run, the record stays as it is and
    none of them ever serves: a starting process that finds a challenge only
    waits and looks again. *)
Theorem abandoned_challenge_blocks (s e n a : Z) (c c' : Cluster) :
  c_record c = Some (Session_Challenge s e n a) ->
  (forall p, p_await (c_procs c p) = B_placement /\ p_answer (c_procs c p) = None
             /\ al_serving (p_lease (c_procs c p)) = false) ->
  rtc step c c' ->
  c_record c' = c_record c
  /\ forall host p, ~ authorized config start host c' p.
Proof.
  intros Hr Hp Hs.
  assert (c_record c' = Some (Session_Challenge s e n a)
    /\ forall p, turned_away (Session_Challenge s e n a) (c_procs c' p)) as [H1 H2].
  { assert (forall p, turned_away (Session_Challenge s e n a) (c_procs c p)) as H0.
    { intros p. destruct (Hp p) as (E1 & E2 & E3). unfold turned_away. now rewrite E1, E2. }
    clear Hp. induction Hs as [c|c c1 c' H1 _ IH]; [auto|].
    destruct (turned_away_step _ _ _ _ _ _ Hr H0 H1). auto. }
  split; [congruence|]. intros host p. unfold authorized, volume_authorized.
  destruct (H2 p) as [-> _]. now destruct (_ <=? _).
Qed.
End Down.

(** A slow start fences the host. The lease is dated when the bootstrap
    ends and is not renewed until local recovery and reconciliation are over
    and the monitor has slept once. If that takes the staleness bound, the
    monitor's first act is to fence the host, whatever the record says. *)
Lemma slow_start_fences (config : AuthorityHostConfig) (session now : Z)
    (placement : ClusterPlacement) (versioned : VersionedSession) (recovered woken : Z) :
  max_poll_staleness config <= recovered + poll_interval config - now ->
  recovered + poll_interval config <= woken ->
  0 <= now -> now + max_poll_staleness config < W64 ->
  let started := bootstrap_done session now placement versioned in
  let monitor := timer config recovered started.1 started.2 in
  al_serving monitor.1 = true /\ timer config woken monitor.1 monitor.2 = self_fence monitor.1.
Proof.
  intros Hslow Hwoken Hnow Hms. unfold bootstrap_done, timer, monitor_wakes. simpl. split; [reflexivity|].
  unfold saturating_sub, saturating_add.
  rewrite (proj2 (Z.eqb_eq _ 0)) by lia. reflexivity.
Qed.

Definition abandoned : Cluster :=
  {| c_time := 0; c_version := 2; c_record := Some (Session_Challenge 100 1 9 0);
     c_procs := fun _ => initial_proc shipped; c_drawn := {[9]}; c_log := {[9 := 0]} |}.
(** A process looks at the record, waits and looks again. *)
Definition looks_again : list Event :=
  [Place 0 proof; Continue 0 1000; Exec 0; Continue 0 1001; Advance 1; Fire 0].
Lemma abandoned_run : exists c, rtc (step shipped sessions together 0 0) abandoned c /\ c_time c = 1.
Proof.
  destruct (run shipped sessions together 0 0 0 abandoned looks_again) as [c|] eqn:E;
    [|vm_compute in E; discriminate].
  exists c. split; [eapply run_steps; [|exact E]; intros; unfold together; lia|].
  assert (Some c = run shipped sessions together 0 0 0 abandoned looks_again) as Hc by auto.
  vm_compute in Hc. injection Hc as ->. reflexivity.
Qed.
Lemma abandoned_challenge_blocks_witness :
  exists c, rtc (step shipped sessions together 0 0) abandoned c /\ c_time c = 1
    /\ c_record c = Some (Session_Challenge 100 1 9 0) /\ ~ authorized shipped together 1 c 0.
Proof.
  destruct abandoned_run as (c & Hr & Ht). exists c. split; [exact Hr|]. split; [exact Ht|].
  destruct (abandoned_challenge_blocks shipped sessions together 0 0 100 1 9 0 abandoned c eq_refl
    (fun _ => conj eq_refl (conj eq_refl eq_refl)) Hr) as [H1 H2].
  split; [exact H1|apply H2].
Defined.
Lemma slow_start_fences_witness :
  timer shipped 5 (bootstrap_done 100 0 members {| vs_store_version := 1; vs_record := Session_Active 100 1 |}).1
    (M_delay 5)
  = self_fence (bootstrap_done 100 0 members {| vs_store_version := 1; vs_record := Session_Active 100 1 |}).1.
Proof.
  exact (proj2 (slow_start_fences shipped 100 0 members
    {| vs_store_version := 1; vs_record := Session_Active 100 1 |} 4 5
    ltac:(simpl; lia) ltac:(simpl; lia) ltac:(lia) ltac:(simpl; lia))).
Defined.
