(* ===== verification/AuthorityExamples.v ===== *)
(** * Placement and session records, computed

    A message codec with fixed-width fields that satisfies [ProstLaws], and the
    theorems on the two records at concrete values. *)

From stdpp Require Import relations.
From S2P Require Import Prelude Format Crc32c Prost Placement Session.

(** ** Placement messages *)
Fixpoint words (bs : bytes) : option (list Z) :=
  match bs with
  | [] => Some []
  | a :: b :: c :: d :: bs => ws ← words bs; Some (from_le [a; b; c; d] :: ws)
  | _ => None
  end.
Definition placement_message : dec ClusterPlacementWire :=
  let* version := Dec_u32 in
  let* cluster_id := Dec_u64 in
  let* epoch := Dec_u64 in
  fun rest =>
    match words rest with
    | Some roster => Ok ({| cpw_version := version; cpw_cluster_id := cluster_id;
                            cpw_epoch := epoch; cpw_roster := roster |}, [])
    | None => Err DecodeErr
    end.
#[export] Instance fixed_placement : Prost ClusterPlacementWire := {|
  encode_to_vec w := to_le 4 (cpw_version w) ++ to_le 8 (cpw_cluster_id w) ++ to_le 8 (cpw_epoch w)
    ++ concat (map (to_le 4) (cpw_roster w));
  message_decode bs := match Dec_run placement_message bs with Ok w => Some w | _ => None end |}.

Lemma words_reads l : Forall (fits W32) l -> words (concat (map (to_le 4) l)) = Some l.
Proof.
  induction 1 as [|x l Hx _ IH]; [reflexivity|]. cbn [map concat].
  pose proof (length_to_le 4 x) as Hl. pose proof (from_le_to_le 4 x Hx) as Hx'.
  destruct (to_le 4 x) as [|a [|b [|c [|d []]]]]; try discriminate Hl.
  cbn [app words]. rewrite IH. cbn [mbind option_bind]. now rewrite Hx'.
Qed.
Lemma words_range bs l : all_bytes bs -> words bs = Some l -> Forall (fits W32) l.
Proof.
  revert l. induction bs as [bs IH] using (well_founded_induction (Nat.lt_wf_0_projected length)).
  intros l Hb H. destruct bs as [|a [|b [|c [|d bs]]]]; try discriminate H.
  - injection H as <-. constructor.
  - cbn [words] in H. apply bind_Some in H as (ws & Hw & [= <-]).
    constructor; [|apply (IH bs); auto; [simpl; lia|now repeat apply Forall_inv_tail in Hb]].
    assert (all_bytes [a; b; c; d]) as H4.
    { unfold all_bytes in *. rewrite List.Forall_forall in *. intros z Hz. apply Hb. simpl in *. tauto. }
    exact (from_le_range [a; b; c; d] H4).
Qed.
#[export] Instance fixed_placement_laws :
  ProstLaws fixed_placement placement_wire_ok placement_wire_size.
Proof.
  split.
  - intros [v i e r] (H1 & H2 & H3 & H4). simpl in *.
    assert (reads_all placement_message (to_le 4 v ++ to_le 8 i ++ to_le 8 e ++ concat (map (to_le 4) r))
      {| cpw_version := v; cpw_cluster_id := i; cpw_epoch := e; cpw_roster := r |}) as Hr; [|unfold reads_all in Hr; now rewrite Hr].
    unfold placement_message. do 3 (eapply reads_all_bind; [reads_side|]).
    unfold reads_all, Dec_run. now rewrite words_reads.
  - intros bs w Hb. simpl. destruct (Dec_run placement_message bs) as [w'| |] eqn:Hd; try discriminate.
    intros [= <-]. apply Dec_run_Ok in Hd as [rest Hd]. unfold placement_message in Hd.
    dec_inv. destruct (words _) as [r|] eqn:Hw; [|discriminate]. simplify_eq.
    split; [auto|]. split; [auto|]. split; [auto|]. simpl. eapply words_range; eauto.
  - intros [v i e r] _. simpl. rewrite !all_bytes_app. repeat (split; [apply to_le_bytes|]).
    induction r; simpl; [constructor|]. apply all_bytes_app. auto using to_le_bytes.
  - intros [v i e r] _. simpl. unfold placement_wire_size. simpl. autorewrite with len.
    assert (len (concat (map (to_le 4) r)) = 4 * len r) as ->; [|pose proof (len_nonneg r); lia].
    induction r as [|x r IH]; [reflexivity|]. cbn [map concat]. rewrite len_app, len_to_le, IH, len_cons. lia.
Qed.

(** ** Session messages *)
Definition state_bytes (s : option SessionStateWire) : bytes :=
  match s with
  | None => [0]
  | Some (Wire_Active w) => [1] ++ to_le 8 (aw_session w) ++ to_le 8 (aw_epoch w)
  | Some (Wire_Challenge w) =>
      [2] ++ to_le 8 (cw_session w) ++ to_le 8 (cw_epoch w) ++ to_le 8 (cw_nonce w)
      ++ to_le 8 (cw_challenged_at w)
  | Some (Wire_Revoked w) =>
      [3] ++ to_le 8 (rw_old_session w) ++ to_le 8 (rw_epoch w) ++ to_le 8 (rw_nonce w)
  end.
Definition state_message : dec (option SessionStateWire) :=
  let* tag := Dec_u8 in
  if tag =? 0 then dec_ret None else
  if tag =? 1 then
    let* s := Dec_u64 in let* e := Dec_u64 in
    dec_ret (Some (Wire_Active {| aw_session := s; aw_epoch := e |}))
  else if tag =? 2 then
    let* s := Dec_u64 in let* e := Dec_u64 in let* n := Dec_u64 in let* a := Dec_u64 in
    dec_ret (Some (Wire_Challenge {| cw_session := s; cw_epoch := e; cw_nonce := n; cw_challenged_at := a |}))
  else if tag =? 3 then
    let* s := Dec_u64 in let* e := Dec_u64 in let* n := Dec_u64 in
    dec_ret (Some (Wire_Revoked {| rw_old_session := s; rw_epoch := e; rw_nonce := n |}))
  else dec_fail.
Definition session_message : dec HostSessionWire :=
  let* version := Dec_u32 in
  let* state := state_message in
  let* _ := Dec_finish in
  dec_ret {| hsw_version := version; hsw_state := state |}.
#[export] Instance fixed_session : Prost HostSessionWire := {|
  encode_to_vec w := to_le 4 (hsw_version w) ++ state_bytes (hsw_state w);
  message_decode bs := match Dec_run session_message bs with Ok w => Some w | _ => None end |}.

Lemma state_reads s : match s with Some s => state_wire_ok s | None => True end ->
  reads state_message (state_bytes s) s.
Proof.
  destruct s as [[[]|[]|[]]|]; simpl; intros Hs; codec_conj; unfold state_message;
    (first [change (?x :: ?l) with ([x] ++ l); eapply reads_bind | eapply reads_bind_last]);
    try (apply reads_u8; vm_compute; intuition congruence); cbn [Z.eqb Pos.eqb]; reads_tac.
Qed.
#[export] Instance fixed_session_laws : ProstLaws fixed_session session_wire_ok session_wire_size.
Proof.
  split.
  - intros [v s] [Hv Hs]. simpl in *.
    assert (reads_all session_message (to_le 4 v ++ state_bytes s)
      {| hsw_version := v; hsw_state := s |}) as Hr; [|unfold reads_all in Hr; now rewrite Hr].
    unfold session_message. eapply reads_all_bind; [reads_side|].
    eapply reads_all_bind_last; [now apply state_reads|]. reflexivity.
  - intros bs w Hb. simpl. destruct (Dec_run session_message bs) as [w'| |] eqn:Hd; try discriminate.
    intros [= <-]. apply Dec_run_Ok in Hd as [rest Hd]. unfold session_message, state_message in Hd.
    dec_inv. split; simpl; [auto|].
    repeat match goal with H : (if ?b then _ else _) _ = Ok _ |- _ => destruct b; [|] end;
      dec_inv; simpl; auto.
  - intros [v s] _. simpl. apply all_bytes_app. split; [apply to_le_bytes|].
    destruct s as [[[]|[]|[]]|]; simpl; (apply all_bytes_cons; [split; lia|]);
      rewrite ?all_bytes_app; auto 10 using to_le_bytes, all_bytes_nil.
  - intros [v s] _. simpl. unfold session_wire_size. rewrite len_app, len_to_le.
    destruct s as [[[]|[]|[]]|]; simpl; rewrite ?len_cons, ?len_app, ?len_to_le, ?len_nil; lia.
Qed.

(** ** The theorems at these values *)
Lemma placement_exact_witness :
  exists bs, ClusterPlacement_encode (E := DecodeError)
      {| cp_cluster_id := 7; cp_epoch := 9; cp_roster := [1; 2; 3] |} = Ok bs
    /\ ClusterPlacement_decode bs = Some {| cp_cluster_id := 7; cp_epoch := 9; cp_roster := [1; 2; 3] |}.
Proof.
  apply (proj1 placement_exact); [|simpl; vm_compute; discriminate].
  split; [reflexivity|]. split; [now vm_compute|]. split; [now vm_compute|].
  repeat constructor; vm_compute; congruence.
Defined.
Lemma session_record_exact_witness :
  ExactFormat (@HostSessionRecord_encode _ _ DecodeError) HostSessionRecord_decode HostSessionRecord_ok.
Proof. exact session_record_exact. Defined.
Lemma session_epochs_witness :
  rtc session_next (Session_Active 5 1) (Session_Active 6 2)
  /\ HostSessionRecord_epoch (Session_Active 5 1) <= HostSessionRecord_epoch (Session_Active 6 2).
Proof.
  assert (rtc session_next (Session_Active 5 1) (Session_Active 6 2)) as H.
  { apply (rtc_l _ _ (Session_Challenge 5 1 9 0)); [now apply (next_challenge _ 9 0)|].
    apply (rtc_l _ _ (Session_Revoked 5 2 9)); [now apply (next_revoke _ 9)|].
    apply (rtc_l _ _ (Session_Active 6 2)); [now apply (next_activate _ 6)|]. apply rtc_refl. }
  split; [exact H|]. exact (proj1 (session_epochs (Session_Active 5 1) (Session_Active 6 2) H)).
Defined.
