(* ===== verification/KeyedQueue.v ===== *)
(** * Fair keyed queues ([engine/keyed_queue.rs])

    Pending work per key, at most one operation of a key at a time. The code
    keeps a queue per key, the keys that may start in order, the active keys
    and a count; the theorems relate them to the plain reading: what waits for
    each key, and which keys run. *)

From stdpp Require Import gmap sets.
From S2P Require Import Prelude.

Section Queue.
Context {K V : Type} `{Countable K}.

Record KeyedQueue := {
  queues : gmap K (list V);
  ready : list K;
  active : gset K;
  pending : Z }.

Definition KeyedQueue_new : KeyedQueue :=
  {| queues := ∅; ready := []; active := ∅; pending := 0 |}.
Definition push (self : KeyedQueue) (key : K) (value : V) : KeyedQueue :=
  let queue := default [] (queues self !! key) in
  {| queues := <[key := queue ++ [value]]> (queues self);
     ready := if bool_decide (queue = []) && negb (bool_decide (key ∈ active self))
              then ready self ++ [key] else ready self;
     active := active self;
     pending := pending self + 1 |}.
Definition start_next {E} (self : KeyedQueue) (concurrency : Z)
  : outcome E (option (K * V) * KeyedQueue) :=
  if concurrency <=? Z.of_nat (size (active self)) then Ok (None, self) else
  match ready self with
  | [] => Ok (None, self)
  | key :: rest =>
      assert! negb (bool_decide (key ∈ active self)) in
      match queues self !! key with
      | Some (value :: queue) =>
          let? remaining := expect (checked_sub (pending self) 1) in
          Ok (Some (key, value),
              {| queues := <[key := queue]> (queues self); ready := rest;
                 active := {[key]} ∪ active self; pending := remaining |})
      | _ => Panic
      end
  end.
Definition complete {E} (self : KeyedQueue) (key : K) : outcome E KeyedQueue :=
  assert! bool_decide (key ∈ active self) in
  Ok match queues self !! key with
     | Some [] => {| queues := delete key (queues self); ready := ready self;
                     active := active self ∖ {[key]}; pending := pending self |}
     | _ => {| queues := queues self; ready := ready self ++ [key];
               active := active self ∖ {[key]}; pending := pending self |}
     end.
(** [position] and [remove]: the first match and what remains. *)
Fixpoint take_first (p : V -> bool) (l : list V) : option (V * list V) :=
  match l with
  | [] => None
  | x :: l => if p x then Some (x, l)
              else match take_first p l with Some (y, l) => Some (y, x :: l) | None => None end
  end.
Definition remove_where {E} (self : KeyedQueue) (key : K) (predicate : V -> bool)
  : outcome E (option V * KeyedQueue) :=
  match queues self !! key with
  | None => Ok (None, self)
  | Some queue =>
      match take_first predicate queue with
      | None => Ok (None, self)
      | Some (value, queue) =>
          let? remaining := expect (checked_sub (pending self) 1) in
          Ok (Some value,
              if bool_decide (queue = []) && negb (bool_decide (key ∈ active self))
              then {| queues := delete key (queues self);
                      ready := List.filter (fun k => negb (bool_decide (k = key))) (ready self);
                      active := active self; pending := remaining |}
              else {| queues := <[key := queue]> (queues self); ready := ready self;
                      active := active self; pending := remaining |})
      end
  end.
Definition pending_len (self : KeyedQueue) : Z := pending self.
Definition contains_key (self : KeyedQueue) (key : K) : bool :=
  bool_decide (key ∈ active self) || bool_decide (is_Some (queues self !! key)).
Definition is_idle (self : KeyedQueue) : bool :=
  (pending self =? 0) && bool_decide (active self = ∅).

(** ** Meaning *)
Definition waiting (self : KeyedQueue) (key : K) : list V := default [] (queues self !! key).
Definition total (m : gmap K (list V)) : Z := map_fold (fun _ (l : list V) n => len l + n) 0 m.
Record queue_ok (self : KeyedQueue) : Prop := {
  ok_nodup : List.NoDup (ready self);
  ok_ready k : In k (ready self) <-> (k ∉ active self) /\ waiting self k <> [];
  ok_active k : k ∈ active self -> is_Some (queues self !! k);
  ok_empty k : queues self !! k = Some [] -> k ∈ active self;
  ok_pending : pending self = total (queues self) }.

Lemma total_new m k l : m !! k = None -> total (<[k := l]> m) = len l + total m.
Proof. intros Hk. unfold total.
  rewrite (map_fold_insert_L (fun _ l n => len l + n)) by (exact Hk || (intros; lia)). reflexivity.
Qed.
Lemma total_insert m k l : total (<[k := l]> m) = len l + total (delete k m).
Proof. rewrite <- insert_delete_eq. apply total_new, lookup_delete_eq. Qed.
Lemma total_delete m k : total m = len (default [] (m !! k)) + total (delete k m).
Proof.
  destruct (m !! k) as [l|] eqn:E; simpl.
  - rewrite <- (insert_delete_id m k l) at 1 by exact E. rewrite total_new by apply lookup_delete_eq. reflexivity.
  - now rewrite delete_id.
Qed.
Lemma total_nonneg m : 0 <= total m.
Proof.
  unfold total. apply (map_fold_weak_ind (fun n _ => 0 <= n)); [lia|]. intros k l m' n _ Hn.
  pose proof (len_nonneg l). lia.
Qed.
Lemma waiting_le self k : queue_ok self -> len (waiting self k) <= pending self.
Proof using Type.
  intros O. rewrite (ok_pending _ O), (total_delete _ k). pose proof (total_nonneg (delete k (queues self))).
  fold (waiting self k). lia.
Qed.
Lemma waiting_insert self k l r a n k' :
  waiting {| queues := <[k := l]> (queues self); ready := r; active := a; pending := n |} k'
  = if decide (k' = k) then l else waiting self k'.
Proof.
  unfold waiting. simpl. destruct (decide (k' = k)) as [->|Hk]; [now rewrite lookup_insert_eq|].
  now rewrite lookup_insert_ne by congruence.
Qed.
Lemma waiting_delete self k r a n k' :
  waiting {| queues := delete k (queues self); ready := r; active := a; pending := n |} k'
  = if decide (k' = k) then [] else waiting self k'.
Proof.
  unfold waiting. simpl. destruct (decide (k' = k)) as [->|Hk]; [now rewrite lookup_delete_eq|].
  now rewrite lookup_delete_ne by congruence.
Qed.
Lemma waiting_lookup self k l : queues self !! k = Some l -> waiting self k = l.
Proof. unfold waiting. now intros ->. Qed.

Lemma NoDup_snoc (l : list K) x : List.NoDup l -> ~ In x l -> List.NoDup (l ++ [x]).
Proof.
  intros Hn Hx. apply (Permutation_NoDup (l := x :: l)); [apply Permutation_cons_append|].
  now constructor.
Qed.
Lemma new_ok : queue_ok KeyedQueue_new.
Proof.
  split; simpl; try easy; [constructor|..]; intros k; rewrite ?lookup_empty; try easy.
Qed.
Lemma waiting_push self key value k : waiting (push self key value) k
  = if decide (k = key) then waiting self key ++ [value] else waiting self k.
Proof. apply waiting_insert. Qed.
Lemma push_ok self key value : queue_ok self -> queue_ok (push self key value).
Proof.
  intros O. assert (waiting self key ++ [value] <> []) as Hne by now destruct (waiting self key).
  split.
  - unfold push. simpl. fold (waiting self key).
    case_bool_decide as Hq; [case_bool_decide as Ha|]; simpl; try apply O.
    apply NoDup_snoc; [apply O|]. intros Hk%(ok_ready _ O). tauto.
  - intros k. rewrite waiting_push. unfold push. simpl. fold (waiting self key).
    destruct (decide (k = key)) as [->|Hk].
    + case_bool_decide as Hq; [case_bool_decide as Ha|]; simpl; rewrite ?in_app_iff, (ok_ready _ O); simpl; tauto.
    + case_bool_decide as Hq; [case_bool_decide as Ha|]; simpl; rewrite ?in_app_iff, (ok_ready _ O); simpl;
        intuition congruence.
  - intros k Hk. simpl. destruct (decide (k = key)) as [->|Hne']; [rewrite lookup_insert_eq; eauto|].
    rewrite lookup_insert_ne by congruence. now apply (ok_active _ O).
  - intros k. simpl. destruct (decide (k = key)) as [->|Hne']; [rewrite lookup_insert_eq; now intros [= ?%Hne]|].
    rewrite lookup_insert_ne by congruence. apply O.
  - simpl. fold (waiting self key). rewrite total_insert, len_app, len_cons, len_nil, (ok_pending _ O), (total_delete _ key).
    fold (waiting self key). lia.
Qed.
Lemma start_next_ok {E} self concurrency : queue_ok self ->
  exists result self', @start_next E self concurrency = Ok (result, self') /\ queue_ok self' /\
  match result with
  | Some (key, value) =>
      Z.of_nat (size (active self)) < concurrency /\ (key ∉ active self)
      /\ waiting self key = value :: waiting self' key
      /\ (forall k, k <> key -> waiting self' k = waiting self k)
      /\ active self' = {[key]} ∪ active self /\ ready self = key :: ready self'
  | None => self' = self
      /\ (concurrency <= Z.of_nat (size (active self))
          \/ forall k, waiting self k <> [] -> k ∈ active self)
  end.
Proof using Type.
  intros O. unfold start_next. destruct (Z.leb_spec concurrency (Z.of_nat (size (active self)))) as [Hc|Hc].
  { do 2 eexists. split; [reflexivity|]. auto. }
  destruct (ready self) as [|key rest] eqn:Hr.
  { do 2 eexists. split; [reflexivity|]. split; [exact O|]. split; [reflexivity|]. right. intros k Hk.
    destruct (decide (k ∈ active self)) as [|Ha]; [auto|]. exfalso. apply (in_nil (a := k)). rewrite <- Hr.
    now apply (ok_ready _ O). }
  pose proof (ok_nodup _ O) as Hn. rewrite Hr in Hn. apply List.NoDup_cons_iff in Hn as [Hkn Hn].
  assert ((key ∉ active self) /\ waiting self key <> []) as [Ha Hw].
  { apply (ok_ready _ O). rewrite Hr. now left. }
  rewrite bool_decide_eq_false_2 by exact Ha. simpl.
  pose proof (waiting_le self key O) as Hle.
  destruct (queues self !! key) as [[|value queue]|] eqn:Hq; try (now unfold waiting in Hw; rewrite Hq in Hw).
  pose proof (waiting_lookup _ _ _ Hq) as Hwq. rewrite Hwq, len_cons in Hle. pose proof (len_nonneg queue).
  unfold checked_sub. rewrite (proj2 (Z.leb_le 1 (pending self))) by lia. simpl.
  do 2 eexists. split; [reflexivity|]. split.
  2:{ rewrite (waiting_insert self key). rewrite decide_True by reflexivity. repeat split; auto.
      intros k Hk. rewrite (waiting_insert self key). now rewrite decide_False. }
  split; simpl.
  - exact Hn.
  - intros k. rewrite (waiting_insert self key), elem_of_union, elem_of_singleton.
    destruct (decide (k = key)) as [->|Hk]; [tauto|].
    assert (In k rest <-> In k (ready self)) as -> by (rewrite Hr; simpl; intuition congruence).
    rewrite (ok_ready _ O). tauto.
  - intros k. rewrite elem_of_union, elem_of_singleton. destruct (decide (k = key)) as [->|Hk];
      [rewrite lookup_insert_eq; eauto|]. rewrite lookup_insert_ne by congruence.
    intros [?|?]; [easy|]. now apply (ok_active _ O).
  - intros k. rewrite elem_of_union, elem_of_singleton. destruct (decide (k = key)) as [->|Hk]; [auto|].
    rewrite lookup_insert_ne by congruence. right. now apply (ok_empty _ O).
  - rewrite total_insert, (ok_pending _ O), (total_delete _ key), Hq. simpl. rewrite len_cons. lia.
Qed.
Lemma complete_ok {E} self key : queue_ok self -> key ∈ active self ->
  exists self', @complete E self key = Ok self' /\ queue_ok self'
    /\ (forall k, waiting self' k = waiting self k) /\ active self' = active self ∖ {[key]}
    /\ exists tail, ready self' = ready self ++ tail.
Proof using Type.
  intros O Ha. unfold complete. rewrite bool_decide_eq_true_2 by exact Ha. eexists. split; [reflexivity|].
  destruct (ok_active _ O _ Ha) as [q Hq]. rewrite Hq. pose proof (waiting_lookup _ _ _ Hq) as Hw.
  destruct q as [|value q].
  - assert (forall k, waiting {| queues := delete key (queues self); ready := ready self;
      active := active self ∖ {[key]}; pending := pending self |} k = waiting self k) as Hwk.
    { intros k. rewrite waiting_delete. destruct (decide (k = key)) as [->|]; congruence. }
    split; [|split; [exact Hwk|split; [reflexivity|exists []; now rewrite app_nil_r]]].
    split; [apply O|..]; simpl.
    + intros k. rewrite Hwk, (ok_ready _ O), elem_of_difference, elem_of_singleton.
      destruct (decide (k = key)) as [->|]; [rewrite Hw|]; tauto.
    + intros k. rewrite elem_of_difference, elem_of_singleton. intros [? ?].
      rewrite lookup_delete_ne by congruence. now apply O.
    + intros k [Hne Hk]%lookup_delete_Some. rewrite elem_of_difference, elem_of_singleton.
      split; [now apply O|congruence].
    + rewrite (ok_pending _ O), (total_delete _ key), Hq. reflexivity.
  - split; [|split; [reflexivity|split; [reflexivity|simpl; eauto]]]. split; simpl.
    + apply NoDup_snoc; [apply O|]. intros Hk%(ok_ready _ O). tauto.
    + intros k. change (waiting _ k) with (waiting self k).
      rewrite in_app_iff, (ok_ready _ O), elem_of_difference, elem_of_singleton. simpl.
      destruct (decide (k = key)) as [->|]; [rewrite Hw|]; intuition congruence.
    + intros k [? _]%elem_of_difference. now apply O.
    + intros k Hk. rewrite elem_of_difference, elem_of_singleton. split; [now apply O|congruence].
    + apply O.
Qed.
Lemma take_first_Some p l v l' : take_first p l = Some (v, l') ->
  exists a b, l = a ++ v :: b /\ l' = a ++ b /\ p v = true /\ Forall (fun x => p x = false) a.
Proof.
  revert l'. induction l as [|x l IH]; intros l'; simpl; [discriminate|]. destruct (p x) eqn:Hp.
  - intros [= <- <-]. exists [], l. auto.
  - destruct (take_first p l) as [[y k]|]; [|discriminate]. intros [= <- <-].
    destruct (IH k eq_refl) as (a & b & -> & -> & Hv & Hf). exists (x :: a), b. auto.
Qed.
Lemma take_first_None p l : take_first p l = None -> Forall (fun x => p x = false) l.
Proof.
  induction l as [|x l IH]; simpl; [constructor|]. destruct (p x) eqn:Hp; [discriminate|].
  destruct (take_first p l) as [[]|]; [discriminate|]. auto.
Qed.
Lemma remove_last_ok self key v : queue_ok self -> queues self !! key = Some [v] -> key ∉ active self ->
  queue_ok {| queues := delete key (queues self);
              ready := List.filter (fun k => negb (bool_decide (k = key))) (ready self);
              active := active self; pending := pending self - 1 |}.
Proof using Type.
  intros O Hq Ha. split; simpl.
  - apply List.NoDup_filter, O.
  - intros k. rewrite (waiting_delete self key), filter_In, (ok_ready _ O), negb_true_iff, bool_decide_eq_false.
    destruct (decide (k = key)) as [->|]; tauto.
  - intros k Hk. rewrite lookup_delete_ne by congruence. now apply O.
  - intros k [_ Hk]%lookup_delete_Some. now apply O.
  - rewrite (ok_pending _ O), (total_delete _ key), Hq. unfold len. simpl. lia.
Qed.
Lemma remove_one_ok self key q q' : queue_ok self -> queues self !! key = Some q -> q <> [] ->
  len q' = len q - 1 -> q' <> [] \/ key ∈ active self ->
  queue_ok {| queues := <[key := q']> (queues self); ready := ready self;
              active := active self; pending := pending self - 1 |}.
Proof using Type.
  intros O Hq Hne Hlen Hc. pose proof (waiting_lookup _ _ _ Hq) as Hw. split; simpl.
  - apply O.
  - intros k. rewrite (waiting_insert self key), (ok_ready _ O).
    destruct (decide (k = key)) as [->|]; [rewrite Hw|]; tauto.
  - intros k Hk. destruct (decide (k = key)) as [->|]; [rewrite lookup_insert_eq; eauto|].
    rewrite lookup_insert_ne by congruence. now apply O.
  - intros k [[-> ->]|[_ Hk]]%lookup_insert_Some; [tauto|now apply O].
  - rewrite total_insert, (ok_pending _ O), (total_delete _ key), Hq. simpl. lia.
Qed.
Lemma remove_where_ok {E} self key p : queue_ok self ->
  exists result self', @remove_where E self key p = Ok (result, self') /\ queue_ok self'
  /\ active self' = active self
  /\ (ready self' = ready self
      \/ ready self' = List.filter (fun k => negb (bool_decide (k = key))) (ready self))
  /\ (forall k, k <> key -> waiting self' k = waiting self k)
  /\ match result with
     | Some v => exists a b, waiting self key = a ++ v :: b /\ waiting self' key = a ++ b
                 /\ p v = true /\ Forall (fun x => p x = false) a
     | None => self' = self /\ Forall (fun x => p x = false) (waiting self key)
     end.
Proof using Type.
  intros O. unfold remove_where. destruct (queues self !! key) as [q|] eqn:Hq.
  2:{ exists None, self. do 6 (split; auto). unfold waiting. rewrite Hq. constructor. }
  pose proof (waiting_lookup _ _ _ Hq) as Hw.
  destruct (take_first p q) as [[v q']|] eqn:Ht.
  2:{ exists None, self. do 6 (split; auto). rewrite Hw. now apply take_first_None. }
  apply take_first_Some in Ht as (a & b & Hab & -> & Hv & Hf).
  pose proof (waiting_le self key O) as Hle. rewrite Hw in Hle.
  assert (len (a ++ b) = len q - 1) as Hlen by (rewrite Hab, !len_app, len_cons; lia).
  pose proof (len_nonneg (a ++ b)). unfold checked_sub. rewrite (proj2 (Z.leb_le 1 (pending self))) by lia. simpl.
  eexists (Some v), _. split; [reflexivity|].
  destruct (decide (a ++ b = [] /\ (key ∉ active self))) as [[Hnil Ha]|Hc].
  - rewrite (bool_decide_eq_true_2 (a ++ b = []) Hnil), (bool_decide_eq_false_2 (key ∈ active self) Ha). simpl.
    apply app_eq_nil in Hnil as [-> ->]. simpl in *. split; [apply (remove_last_ok _ _ v); congruence|].
    split; [reflexivity|]. split; [auto|]. rewrite waiting_delete, decide_True by reflexivity.
    split; [intros k Hk; rewrite waiting_delete; now rewrite decide_False|].
    exists [], []. rewrite Hw, Hab. auto.
  - assert (a ++ b <> [] \/ key ∈ active self) as Hc'.
    { destruct (decide (key ∈ active self)); [auto|]. left. tauto. }
    replace (bool_decide (a ++ b = []) && negb (bool_decide (key ∈ active self))) with false
      by (symmetry; apply andb_false_iff; rewrite bool_decide_eq_false, negb_false_iff, bool_decide_eq_true; exact Hc').
    split; [apply (remove_one_ok _ _ q); auto; rewrite Hab; now destruct a|].
    split; [reflexivity|]. split; [auto|]. rewrite (waiting_insert self key), decide_True by reflexivity.
    split; [intros k Hk; rewrite (waiting_insert self key); now rewrite decide_False|].
    exists a, b. rewrite Hw. auto.
Qed.

(** ** Runs *)
Inductive QueueCall :=
| Q_push (key : K) (value : V)
| Q_start (concurrency : Z)
| Q_complete (key : K)
| Q_remove (key : K) (predicate : V -> bool).
(** A call, and the key it started if it started one. *)
Definition queue_call {E} (op : QueueCall) (self : KeyedQueue) : outcome E (list K * KeyedQueue) :=
  match op with
  | Q_push key value => Ok ([], push self key value)
  | Q_start concurrency =>
      let? (started, self) := start_next self concurrency in
      Ok (match started with Some (key, _) => [key] | None => [] end, self)
  | Q_complete key => let? self := complete self key in Ok ([], self)
  | Q_remove key predicate => let? (_, self) := remove_where self key predicate in Ok ([], self)
  end.
Fixpoint run_queue {E} (ops : list QueueCall) (self : KeyedQueue) : outcome E (list K * KeyedQueue) :=
  match ops with
  | [] => Ok ([], self)
  | op :: ops =>
      let? (started, self) := queue_call op self in
      let? (more, self) := run_queue ops self in
      Ok (started ++ more, self)
  end.
(** Only an active key completes. *)
Inductive queue_reachable : KeyedQueue -> Prop :=
| queue_new : queue_reachable KeyedQueue_new
| queue_step op self started self' : queue_reachable self ->
    (forall key, op = Q_complete key -> key ∈ active self) ->
    @queue_call unit op self = Ok (started, self') -> queue_reachable self'.
Lemma reachable_ok self : queue_reachable self -> queue_ok self.
Proof using Type.
  induction 1 as [|op self started self' _ O Ha Hr]; [apply new_ok|].
  destruct op as [key value|concurrency|key|key p]; simpl in Hr.
  - injection Hr as _ <-. now apply push_ok.
  - destruct (@start_next_ok unit self concurrency O) as (r & s' & Hs & O' & _). rewrite Hs in Hr.
    simpl in Hr. congruence.
  - destruct (@complete_ok unit self key O (Ha key eq_refl)) as (s' & Hs & O' & _). rewrite Hs in Hr.
    simpl in Hr. congruence.
  - destruct (@remove_where_ok unit self key p O) as (r & s' & Hs & O' & _). rewrite Hs in Hr.
    simpl in Hr. congruence.
Qed.

(** The keyed queue behaves as one first-in first-out list per key with at
    most one running operation each, and never panics when only running keys
    are completed. [push] appends to its key's list. [start_next] starts the
    head of the list of a key that is not running, and answers [None] only at
    the concurrency limit or when every key with work is running. [complete]
    ends a run and changes no list. [remove_where] takes out the first match.
    The queue is idle exactly when nothing waits and nothing runs. *)
Theorem keyed_queue_exact self : queue_reachable self ->
  (forall key value k, waiting (push self key value) k
     = if decide (k = key) then waiting self key ++ [value] else waiting self k)
  /\ (forall concurrency, exists result self', @start_next unit self concurrency = Ok (result, self') /\
        match result with
        | Some (key, value) =>
            Z.of_nat (size (active self)) < concurrency /\ (key ∉ active self)
            /\ waiting self key = value :: waiting self' key
            /\ (forall k, k <> key -> waiting self' k = waiting self k)
            /\ active self' = {[key]} ∪ active self
        | None => self' = self
            /\ (concurrency <= Z.of_nat (size (active self))
                \/ forall k, waiting self k <> [] -> k ∈ active self)
        end)
  /\ (forall key, key ∈ active self -> exists self', @complete unit self key = Ok self'
        /\ (forall k, waiting self' k = waiting self k) /\ active self' = active self ∖ {[key]})
  /\ (forall key p, exists result self', @remove_where unit self key p = Ok (result, self')
        /\ active self' = active self /\ (forall k, k <> key -> waiting self' k = waiting self k)
        /\ match result with
           | Some v => exists a b, waiting self key = a ++ v :: b /\ waiting self' key = a ++ b
                       /\ p v = true /\ Forall (fun x => p x = false) a
           | None => self' = self /\ Forall (fun x => p x = false) (waiting self key)
           end)
  /\ (is_idle self = true <-> active self = ∅ /\ forall k, waiting self k = []).
Proof using Type.
  intros O%reachable_ok. split; [intros; apply waiting_push|]. split; [|split; [|split]].
  - intros n. destruct (@start_next_ok unit self n O) as (r & s & H1 & _ & Hr). exists r, s.
    split; [exact H1|]. destruct r as [[key value]|]; [|exact Hr]. tauto.
  - intros key Ha. destruct (@complete_ok unit self key O Ha) as (s & H1 & _ & H2 & H3 & _). eauto.
  - intros key p. destruct (@remove_where_ok unit self key p O) as (r & s & H1 & _ & H2 & _ & H3 & H4).
    exists r, s. auto.
  - unfold is_idle. rewrite andb_true_iff, Z.eqb_eq, bool_decide_eq_true. split.
    + intros [Hp Ha]. split; [exact Ha|]. intros k. pose proof (waiting_le self k O) as Hle.
      destruct (waiting self k); [reflexivity|]. rewrite len_cons in Hle. pose proof (len_nonneg l). lia.
    + intros [Ha Hw]. split; [|exact Ha]. rewrite (ok_pending _ O).
      destruct (map_choose_or_empty (queues self)) as [(k & l & Hk)|Hq0]; [|now rewrite Hq0].
      pose proof (waiting_lookup _ _ _ Hk) as Hl. rewrite Hw in Hl. subst l.
      apply (ok_empty _ O) in Hk. rewrite Ha in Hk. now apply not_elem_of_empty in Hk.
Qed.

Lemma queue_call_order op self started self' pre key post :
  queue_ok self -> (forall k, op = Q_complete k -> k ∈ active self) -> (forall p, op <> Q_remove key p) ->
  @queue_call unit op self = Ok (started, self') -> ready self = pre ++ key :: post ->
  In key started
  \/ exists pre' post', ready self' = pre' ++ key :: post' /\ (length pre' + length started <= length pre)%nat.
Proof using Type.
  intros O Ha Hrm Hr Hready. destruct op as [k v|n|k|k p]; simpl in Hr.
  - injection Hr as <- <-. right. exists pre. unfold push. simpl. rewrite Hready.
    destruct (_ && _); [exists (post ++ [k])|exists post]; split; simpl; try lia; auto.
    now rewrite <- app_assoc.
  - destruct (@start_next_ok unit self n O) as (r & s & Hs & _ & Hspec). rewrite Hs in Hr. injection Hr as <- <-.
    destruct r as [[k v]|].
    + destruct Hspec as (_ & _ & _ & _ & _ & Hrd). rewrite Hready in Hrd.
      destruct pre as [|k' pre]; injection Hrd as <- Hrd; [left; now left|].
      right. exists pre, post. split; [auto|simpl; lia].
    + destruct Hspec as [-> _]. right. exists pre, post. split; [auto|simpl; lia].
  - destruct (@complete_ok unit self k O (Ha k eq_refl)) as (s & Hs & _ & _ & _ & tail & Ht). rewrite Hs in Hr.
    injection Hr as <- <-. right. exists pre, (post ++ tail). rewrite Ht, Hready, <- app_assoc. split; [auto|simpl; lia].
  - destruct (@remove_where_ok unit self k p O) as (r & s & Hs & _ & _ & Hrd & _). rewrite Hs in Hr.
    injection Hr as <- <-. right. destruct Hrd as [Hrd|Hrd]; rewrite Hrd, Hready.
    { exists pre, post. split; [auto|simpl; lia]. }
    rewrite filter_app. simpl. rewrite bool_decide_eq_false_2 by (intros ->; now apply (Hrm p)). simpl.
    do 2 eexists. split; [reflexivity|]. pose proof (len_filter_le (fun k0 => negb (bool_decide (k0 = k))) pre).
    unfold len in *. lia.
Qed.
(** The calls of a run complete only active keys and leave the work of [key]
    in place. *)
Fixpoint run_allowed (key : K) (ops : list QueueCall) (self : KeyedQueue) : Prop :=
  match ops with
  | [] => True
  | op :: ops =>
      (forall k, op = Q_complete k -> k ∈ active self) /\ (forall p, op <> Q_remove key p)
      /\ forall started self', @queue_call unit op self = Ok (started, self') -> run_allowed key ops self'
  end.

(** No key starves: a key with work that is not running starts at the
    latest when every key ahead of it in [ready] has started once, whatever is
    pushed, completed or removed in between. *)
Theorem keyed_queue_fair self ops started self' pre key post :
  queue_reachable self -> ready self = pre ++ key :: post -> run_allowed key ops self ->
  @run_queue unit ops self = Ok (started, self') -> (length pre < length started)%nat ->
  In key started.
Proof using Type.
  revert self started pre post. induction ops as [|op ops IH]; intros self started pre post Hre Hready Hal Hrun Hlen.
  - injection Hrun as <- <-. simpl in Hlen. lia.
  - simpl in Hrun. destruct Hal as (Ha & Hrm & Hal).
    destruct (queue_call op self) as [[st s1]|[]|] eqn:Hc; try discriminate. simpl in Hrun.
    destruct (run_queue ops s1) as [[more s2]|[]|] eqn:Hm; try discriminate. injection Hrun as <- <-.
    apply in_app_iff.
    destruct (queue_call_order op self st s1 pre key post) as [Hin|(pre' & post' & Hr' & Hl)]; auto.
    { now apply reachable_ok. }
    right. apply (IH s1 more pre' post'); auto.
    + eapply queue_step; eauto.
    + now apply (Hal st).
    + rewrite length_app in Hlen. lia.
Qed.
End Queue.
Arguments KeyedQueue : clear implicits.
Arguments KeyedQueue K V {_ _}.

(** ** A run with two keys *)
Definition example_queue : KeyedQueue Z Z := push (push (push KeyedQueue_new 1 10) 1 11) 2 20.
Lemma example_reachable : queue_reachable example_queue.
Proof.
  do 3 (eapply (queue_step (Q_push _ _)); [|intros ? [=]|reflexivity]). constructor.
Qed.
Lemma keyed_queue_exact_witness : is_idle example_queue = true
  <-> active example_queue = ∅ /\ forall k, waiting example_queue k = [].
Proof. apply (keyed_queue_exact example_queue example_reachable). Defined.
(** Key 2 waits behind key 1, whose second value does not overtake it. *)
Lemma keyed_queue_fair_witness : In 2 [1; 2].
Proof.
  eapply (keyed_queue_fair example_queue [Q_start 1; Q_complete 1; Q_start 1] [1; 2] _ [1] 2 []);
    [apply example_reachable|reflexivity| |vm_compute; reflexivity|simpl; lia].
  split; [now intros|]. split; [now intros|]. intros started self1 Hc. vm_compute in Hc. injection Hc as <- <-.
  split; [intros k [= <-]; vm_compute; reflexivity|]. split; [now intros|].
  intros started self2 Hc. vm_compute in Hc. injection Hc as <- <-.
  split; [now intros|]. split; [now intros|]. now intros.
Defined.
