(* ===== verification/Cache.v ===== *)
(** * The residency cache ([cache.rs])

    The bookkeeping of resident pages: which are dirty or being flushed, and
    which to evict. Besides the map of entries the code keeps four indexes over
    it (dirty pages, unstable pages, eviction victims, pages per generation);
    the invariant says that each is exactly what the entries imply. *)

From stdpp Require Import gmap sets relations.
From S2P Require Import Prelude Types Sorting.

#[export] Instance PageId_countable : Countable PageId :=
  inj_countable' PageId_fields (fun f => {| pid_volume := f.1; pid_page := f.2 |})
    ltac:(now intros []).

Definition MAX_NR_GENS : Z := 4.

(** [class] is 0 for storage and 1 for compute memory: the [u8] of a [bool]. *)
Record Entry := {
  e_class : bool;
  e_dirty : bool;
  e_flushing : Z;
  e_generation : Z;
  e_touched : Z }.
Definition Entry_evictable (self : Entry) : bool := negb (e_dirty self) && (e_flushing self =? 0).

Abbreviation BaseKey := (Z * Z * Z * Z)%type.
Abbreviation Victim := (bool * Z * Z * PageId)%type.

Record Cache := {
  capacity : Z;
  reserved : Z;
  entries : gmap PageId Entry;
  dirty : gset PageId;
  unstable : gset PageId;
  victims : gset Victim;
  gen_counts : gmap (bool * Z) Z;
  max_seq : Z;
  min_seq : Z * Z;
  base_resident : gset BaseKey;
  clock : Z }.

Definition Cache_new {E} (capacity : Z) : outcome E Cache :=
  assert! 1 <=? capacity in
  Ok {| capacity := capacity; reserved := 0; entries := ∅; dirty := ∅; unstable := ∅;
        victims := ∅; gen_counts := ∅; max_seq := 0; min_seq := (0, 0); base_resident := ∅;
        clock := 0 |}.

(** Assignments to one field. *)
Definition set_reserved (c : Cache) (x : Z) : Cache :=
  {| capacity := capacity c; reserved := x; entries := entries c; dirty := dirty c;
     unstable := unstable c; victims := victims c; gen_counts := gen_counts c;
     max_seq := max_seq c; min_seq := min_seq c; base_resident := base_resident c;
     clock := clock c |}.
Definition set_entries (c : Cache) (x : gmap PageId Entry) : Cache :=
  {| capacity := capacity c; reserved := reserved c; entries := x; dirty := dirty c;
     unstable := unstable c; victims := victims c; gen_counts := gen_counts c;
     max_seq := max_seq c; min_seq := min_seq c; base_resident := base_resident c;
     clock := clock c |}.
Definition set_pages (c : Cache) (d u : gset PageId) : Cache :=
  {| capacity := capacity c; reserved := reserved c; entries := entries c; dirty := d;
     unstable := u; victims := victims c; gen_counts := gen_counts c;
     max_seq := max_seq c; min_seq := min_seq c; base_resident := base_resident c;
     clock := clock c |}.
Definition set_victims (c : Cache) (x : gset Victim) : Cache :=
  {| capacity := capacity c; reserved := reserved c; entries := entries c; dirty := dirty c;
     unstable := unstable c; victims := x; gen_counts := gen_counts c;
     max_seq := max_seq c; min_seq := min_seq c; base_resident := base_resident c;
     clock := clock c |}.
Definition set_gens (c : Cache) (counts : gmap (bool * Z) Z) (max : Z) (min : Z * Z) : Cache :=
  {| capacity := capacity c; reserved := reserved c; entries := entries c; dirty := dirty c;
     unstable := unstable c; victims := victims c; gen_counts := counts;
     max_seq := max; min_seq := min; base_resident := base_resident c;
     clock := clock c |}.
Definition set_base (c : Cache) (x : gset BaseKey) : Cache :=
  {| capacity := capacity c; reserved := reserved c; entries := entries c; dirty := dirty c;
     unstable := unstable c; victims := victims c; gen_counts := gen_counts c;
     max_seq := max_seq c; min_seq := min_seq c; base_resident := x;
     clock := clock c |}.
Definition set_clock (c : Cache) (x : Z) : Cache :=
  {| capacity := capacity c; reserved := reserved c; entries := entries c; dirty := dirty c;
     unstable := unstable c; victims := victims c; gen_counts := gen_counts c;
     max_seq := max_seq c; min_seq := min_seq c; base_resident := base_resident c;
     clock := x |}.

(** [min_seq[ty]]. *)
Definition seq_of (m : Z * Z) (ty : bool) : Z := if ty then m.2 else m.1.
Definition set_seq (m : Z * Z) (ty : bool) (x : Z) : Z * Z := if ty then (m.1, x) else (x, m.2).

(** Additions to counters are checked: a wrap is a panic. *)
Definition increment {E} (w x : Z) : outcome E Z := expect (checked_add w x 1).
Definition tick {E} (c : Cache) : outcome E Cache :=
  let? now := increment W64 (clock c) in Ok (set_clock c now).

Definition victim_key (page : PageId) (e : Entry) : Victim :=
  (e_class e, e_generation e, e_touched e, page).
Definition unlink (c : Cache) (page : PageId) (e : Entry) : Cache :=
  set_victims c (victims c ∖ {[victim_key page e]}).
Definition link (c : Cache) (page : PageId) (e : Entry) : Cache :=
  if Entry_evictable e then set_victims c ({[victim_key page e]} ∪ victims c) else c.

Definition count_add (c : Cache) (class : bool) (generation : Z) : Cache :=
  let key := (class, generation) in
  set_gens c (<[key := default 0 (gen_counts c !! key) + 1]> (gen_counts c)) (max_seq c) (min_seq c).
(** The loop of [advance_min_seq] makes at most [max_seq - min_seq] turns. *)
Fixpoint advance_loop (fuel : nat) (counts : gmap (bool * Z) Z) (max : Z) (ty : bool) (seq : Z) : Z :=
  match fuel with
  | O => seq
  | S fuel =>
      if (seq <? max) && negb (bool_decide (is_Some (counts !! (ty, seq))))
      then advance_loop fuel counts max ty (seq + 1) else seq
  end.
Definition advance_min_seq (c : Cache) (ty : bool) : Cache :=
  let seq := seq_of (min_seq c) ty in
  set_gens c (gen_counts c) (max_seq c)
    (set_seq (min_seq c) ty
       (advance_loop (Z.to_nat (max_seq c - seq)) (gen_counts c) (max_seq c) ty seq)).
Definition count_remove {E} (c : Cache) (class : bool) (generation : Z) : outcome E Cache :=
  let key := (class, generation) in
  let? count := expect (gen_counts c !! key) in
  let? count := expect (checked_sub count 1) in
  let counts :=
    if count =? 0 then delete key (gen_counts c) else <[key := count]> (gen_counts c) in
  Ok (advance_min_seq (set_gens c counts (max_seq c) (min_seq c)) class).
Definition span (c : Cache) : Z := max_seq c - Z.min (min_seq c).1 (min_seq c).2 + 1.

Definition base_insert {E} (c : Cache) (key : BaseKey) : outcome E Cache :=
  assert! 0 <? reserved c in
  Ok (set_base (set_reserved c (reserved c - 1)) ({[key]} ∪ base_resident c)).
Definition is_resident (c : Cache) (page : PageId) : bool := bool_decide (is_Some (entries c !! page)).
Definition is_dirty (c : Cache) (page : PageId) : bool :=
  match entries c !! page with Some e => e_dirty e | None => false end.

(** One accessed page of an aging pass. *)
Definition promote {E} (c : Cache) (page : PageId) : outcome E Cache :=
  match entries c !! page with
  | None => Ok c
  | Some e =>
      let? c := count_remove (unlink c page e) (e_class e) (e_generation e) in
      let? c := tick c in
      let e := {| e_class := e_class e; e_dirty := e_dirty e; e_flushing := e_flushing e;
                  e_generation := max_seq c; e_touched := clock c |} in
      let c := link (count_add c (e_class e) (max_seq c)) page e in
      Ok (set_entries c (<[page := e]> (entries c)))
  end.
(** [age]; [accessed] is what the harvest returns. *)
Definition age {E} (c : Cache) (accessed : list PageId) : outcome E Cache :=
  if bool_decide (entries c = ∅) then Ok c else
  let c := advance_min_seq (advance_min_seq c false) true in
  let? c := if span c <? MAX_NR_GENS
            then let? max := increment W64 (max_seq c) in Ok (set_gens c (gen_counts c) max (min_seq c))
            else Ok c in
  fold_outcome promote c accessed.

#[export] Instance bool_ord : RustOrd bool := fun a b => cmp (Z.b2z a) (Z.b2z b).
#[export] Instance bool_ord_laws : RustOrdLaws bool.
Proof. split; intros [] []; try intros []; now vm_compute. Qed.
(** Elements of a [BTreeSet] in order. *)
Definition in_order {A} `{Countable A} `{RustOrd A} (s : gset A) : list A :=
  sort_by cmp_leb (stdpp.base.elements s).

Definition reserve_slot {E} (c : Cache) : outcome E (option (option PageId) * Cache) :=
  if Z.of_nat (size (entries c)) + Z.of_nat (size (base_resident c)) + reserved c <? capacity c
  then Ok (Some None, set_reserved c (reserved c + 1))
  else
    match in_order (victims c) with
    | [] => Ok (None, c)
    | (_, _, _, victim) :: _ =>
        let? e := expect (entries c !! victim) in
        let c := unlink (set_entries c (delete victim (entries c))) victim e in
        let? c := count_remove c (e_class e) (e_generation e) in
        Ok (Some (Some victim), set_reserved c (reserved c + 1))
    end.

Definition fill_slot_in {E} (c : Cache) (page : PageId) (is_dirty : bool) (generation : Z) (memory : bool)
  : outcome E Cache :=
  assert! 0 <? reserved c in
  let? c := tick (set_reserved c (reserved c - 1)) in
  let e := {| e_class := memory; e_dirty := is_dirty; e_flushing := 0;
              e_generation := generation; e_touched := clock c |} in
  let c := if is_dirty then set_pages c ({[page]} ∪ dirty c) ({[page]} ∪ unstable c) else c in
  let c := link (count_add c (e_class e) generation) page e in
  assert! negb (is_resident c page) in
  Ok (set_entries c (<[page := e]> (entries c))).
Definition fill_slot {E} (c : Cache) (page : PageId) (dirty memory : bool) : outcome E Cache :=
  fill_slot_in c page dirty (max_seq c) memory.
Definition release_slot {E} (c : Cache) : outcome E Cache :=
  assert! 0 <? reserved c in Ok (set_reserved c (reserved c - 1)).

Definition mark_dirty {E} (c : Cache) (page : PageId) : outcome E Cache :=
  let? c := tick c in
  let now := clock c in
  let? e := expect (entries c !! page) in
  let c := unlink c page e in
  let? c := count_remove c (e_class e) (e_generation e) in
  let c := count_add c (e_class e) (max_seq c) in
  let e := {| e_class := e_class e; e_dirty := true; e_flushing := e_flushing e;
              e_generation := max_seq c; e_touched := now |} in
  let c := set_entries c (<[page := e]> (entries c)) in
  Ok (set_pages c ({[page]} ∪ dirty c) ({[page]} ∪ unstable c)).
Definition begin_flush {E} (c : Cache) (page : PageId) : outcome E Cache :=
  let? e := expect (entries c !! page) in
  let? flushing := increment W8 (e_flushing e) in
  let e := {| e_class := e_class e; e_dirty := false; e_flushing := flushing;
              e_generation := e_generation e; e_touched := e_touched e |} in
  let c := set_entries c (<[page := e]> (entries c)) in
  Ok (set_pages c (dirty c ∖ {[page]}) (unstable c)).
Definition end_flush {E} (c : Cache) (page : PageId) : outcome E Cache :=
  let? e := expect (entries c !! page) in
  assert! 0 <? e_flushing e in
  let e := {| e_class := e_class e; e_dirty := e_dirty e; e_flushing := e_flushing e - 1;
              e_generation := e_generation e; e_touched := e_touched e |} in
  let c := set_entries c (<[page := e]> (entries c)) in
  let c := if Entry_evictable e then set_pages c (dirty c) (unstable c ∖ {[page]}) else c in
  Ok (link c page e).

(** [range(volume_range(volume))] over pages in order. *)
Definition pages_of (volume : Z) (s : gset PageId) : list PageId :=
  List.filter (fun page => pid_volume page =? volume) (in_order s).
Definition unstable_pages_of (c : Cache) (volume : Z) : list PageId := pages_of volume (unstable c).
Definition dirty_pages_of (c : Cache) (volume : Z) : list PageId := pages_of volume (dirty c).
Definition has_dirty_of (c : Cache) (volume : Z) : bool :=
  match dirty_pages_of c volume with [] => false | _ => true end.
Definition purge_page {E} (c : Cache) (page : PageId) : outcome E Cache :=
  let? e := expect (entries c !! page) in
  let c := unlink (set_entries c (delete page (entries c))) page e in
  let? c := count_remove c (e_class e) (e_generation e) in
  Ok (set_pages c (dirty c ∖ {[page]}) (unstable c ∖ {[page]})).
Definition purge_volume {E} (c : Cache) (volume : Z) : outcome E (list PageId * Cache) :=
  let pages := pages_of volume (dom (entries c)) in
  let? c := fold_outcome purge_page c pages in
  Ok (pages, c).
