(* ===== verification/CacheSafety.v ===== *)
(** * The residency cache never loses count ([cache.rs])

    The indexes of the cache agree with its entries after every operation its
    callers may make, the budget holds, and no operation panics. *)

From Stdlib Require Import Sorted.
From stdpp Require Import gmap sets relations.
From S2P Require Import Prelude Types Sorting Cache.

(** ** What the indexes mean *)
Definition indexes (f : Entry -> bool) (m : gmap PageId Entry) (s : gset PageId) : Prop :=
  forall p, p ∈ s <-> exists e, m !! p = Some e /\ f e = true.
Definition victims_index (m : gmap PageId Entry) (s : gset Victim) : Prop :=
  forall v, v ∈ s <-> exists p e, m !! p = Some e /\ Entry_evictable e = true /\ v = victim_key p e.
Definition gen_key (e : Entry) : bool * Z := (e_class e, e_generation e).
Definition count_of (k : bool * Z) (m : gmap PageId Entry) : Z :=
  Z.of_nat (size (filter (fun x : PageId * Entry => gen_key x.2 = k) m)).
Definition counts_index (m : gmap PageId Entry) (counts : gmap (bool * Z) Z) : Prop :=
  forall k, counts !! k = if count_of k m =? 0 then None else Some (count_of k m).
(** The generations of a class lie between its oldest and the youngest, and
    at most [MAX_NR_GENS] are in use. *)
Record gens_ok (m : gmap PageId Entry) (counts : gmap (bool * Z) Z) (max : Z) (min : Z * Z) : Prop := {
  gens_counted : counts_index m counts;
  gens_between p e : m !! p = Some e -> seq_of min (e_class e) <= e_generation e <= max;
  gens_min ty : 0 <= seq_of min ty <= max;
  gens_span : max - Z.min min.1 min.2 + 1 <= MAX_NR_GENS }.

Record wf (c : Cache) : Prop := {
  wf_reserved : 0 <= reserved c;
  wf_budget :
    Z.of_nat (size (entries c)) + Z.of_nat (size (base_resident c)) + reserved c <= capacity c;
  wf_dirty : indexes e_dirty (entries c) (dirty c);
  wf_unstable : indexes (fun e => negb (Entry_evictable e)) (entries c) (unstable c);
  wf_victims : victims_index (entries c) (victims c);
  wf_gens : gens_ok (entries c) (gen_counts c) (max_seq c) (min_seq c);
  wf_flushing p e : entries c !! p = Some e -> fits W8 (e_flushing e) }.

(** ** One page enters or leaves an index *)
Lemma indexes_insert f m s s' p e : indexes f m s ->
  (forall q, q ∈ s' <-> (q = p /\ f e = true) \/ (q <> p /\ q ∈ s)) -> indexes f (<[p := e]> m) s'.
Proof.
  intros H Hs q. rewrite Hs, (H q). destruct (decide (q = p)) as [->|Hq].
  - rewrite lookup_insert_eq. split.
    + intros [[_ ?]|[? _]]; [eauto|easy].
    + intros (e' & [= <-] & ?). auto.
  - rewrite lookup_insert_ne by congruence. split.
    + intros [[? _]|[_ ?]]; easy.
    + eauto.
Qed.
Lemma indexes_delete f m s s' p : indexes f m s ->
  (forall q, q ∈ s' <-> q <> p /\ q ∈ s) -> indexes f (delete p m) s'.
Proof.
  intros H Hs q. rewrite Hs, (H q). destruct (decide (q = p)) as [->|Hq].
  - rewrite lookup_delete_eq. split; [easy|]. now intros (e & ? & _).
  - rewrite lookup_delete_ne by congruence. split; [easy|eauto].
Qed.

Lemma victims_unlink m s p e : m !! p = Some e -> victims_index m s ->
  victims_index (delete p m) (s ∖ {[victim_key p e]}).
Proof.
  intros Hp H v. rewrite elem_of_difference, elem_of_singleton, (H v). split.
  - intros [(q & e' & Hq & He & ->) Hne]. exists q, e'. split; [|auto].
    rewrite lookup_delete_ne; [exact Hq|]. intros ->. congruence.
  - intros (q & e' & (Hne & Hq)%lookup_delete_Some & He & ->). split; [eauto|]. unfold victim_key. congruence.
Qed.
Lemma victims_absent m s p e : m !! p = Some e -> Entry_evictable e = false ->
  victims_index m s -> victims_index (delete p m) s.
Proof.
  intros Hp Hf H v. rewrite (H v). split; intros (q & e' & Hq & He & ->); exists q, e'.
  - split; [|auto]. rewrite lookup_delete_ne; [exact Hq|]. intros ->. congruence.
  - apply lookup_delete_Some in Hq as [_ Hq]. auto.
Qed.
Lemma victims_link m s p e : m !! p = None -> victims_index m s ->
  victims_index (<[p := e]> m) (if Entry_evictable e then {[victim_key p e]} ∪ s else s).
Proof.
  intros Hp H v.
  assert ((exists q e', <[p := e]> m !! q = Some e' /\ Entry_evictable e' = true /\ v = victim_key q e')
    <-> (Entry_evictable e = true /\ v = victim_key p e) \/ v ∈ s) as ->.
  { rewrite (H v). split.
    - intros (q & e' & [[-> ->]|[_ Hq]]%lookup_insert_Some & He & ->); eauto 6.
    - intros [[He ->]|(q & e' & Hq & He & ->)].
      + exists p, e. now rewrite lookup_insert_eq.
      + exists q, e'. rewrite lookup_insert_ne by congruence. auto. }
  destruct (Entry_evictable e); [rewrite elem_of_union, elem_of_singleton|]; split; auto.
  - intros [->|?]; auto.
  - intros [[_ ->]|?]; auto.
  - intros [[[=] _]|?]; auto.
Qed.

Lemma count_of_nonneg k m : 0 <= count_of k m.
Proof. unfold count_of. lia. Qed.
Lemma count_of_insert k m p e : m !! p = None ->
  count_of k (<[p := e]> m) = count_of k m + (if decide (gen_key e = k) then 1 else 0).
Proof.
  intros Hp. unfold count_of. destruct (decide (gen_key e = k)) as [H|H].
  - rewrite map_filter_insert_True by exact H. rewrite map_size_insert_None; [lia|].
    apply map_lookup_filter_None. auto.
  - rewrite map_filter_insert_False, delete_id by (exact H || exact Hp). lia.
Qed.
Lemma count_of_delete k m p e : m !! p = Some e ->
  count_of k m = count_of k (delete p m) + (if decide (gen_key e = k) then 1 else 0).
Proof.
  intros Hp. rewrite <- (insert_delete_id m p e) at 1 by exact Hp.
  apply count_of_insert, lookup_delete_eq.
Qed.
Lemma count_of_zero k m : count_of k m = 0 <-> forall p e, m !! p = Some e -> gen_key e <> k.
Proof.
  unfold count_of. split.
  - intros H p e Hp Hk. assert (size (filter (fun x : PageId * Entry => gen_key x.2 = k) m) = 0%nat) as Hz by lia.
    apply map_size_empty_inv in Hz.
    assert (filter (fun x : PageId * Entry => gen_key x.2 = k) m !! p = Some e) as Hf.
    { apply map_lookup_filter_Some. auto. }
    rewrite Hz in Hf. now rewrite lookup_empty in Hf.
  - intros H. replace (filter _ m) with (∅ : gmap PageId Entry); [now rewrite map_size_empty|].
    symmetry. apply map_empty. intros p. apply map_lookup_filter_None. right. intros e Hp. now apply (H p).
Qed.

(** ** Generations *)
Lemma counts_None m counts k : counts_index m counts ->
  counts !! k = None <-> forall p e, m !! p = Some e -> gen_key e <> k.
Proof.
  intros H. rewrite (H k), <- count_of_zero. destruct (Z.eqb_spec (count_of k m) 0); split; congruence.
Qed.
Lemma counts_insert m counts p e : m !! p = None -> counts_index m counts ->
  counts_index (<[p := e]> m) (<[gen_key e := default 0 (counts !! gen_key e) + 1]> counts).
Proof.
  intros Hp H k. rewrite count_of_insert by exact Hp. pose proof (count_of_nonneg k m).
  destruct (decide (gen_key e = k)) as [<-|Hk].
  - rewrite lookup_insert_eq, (H (gen_key e)).
    destruct (Z.eqb_spec (count_of (gen_key e) m) 0) as [->|]; simpl; [reflexivity|].
    destruct (Z.eqb_spec (count_of (gen_key e) m + 1) 0); [lia|reflexivity].
  - rewrite lookup_insert_ne, Z.add_0_r by exact Hk. apply H.
Qed.
Lemma counts_delete m counts p e : m !! p = Some e -> counts_index m counts ->
  exists n, counts !! gen_key e = Some n /\ 1 <= n
    /\ counts_index (delete p m)
         (if n - 1 =? 0 then delete (gen_key e) counts else <[gen_key e := n - 1]> counts).
Proof.
  intros Hp H. pose proof (count_of_delete (gen_key e) m p e Hp) as Hn.
  rewrite decide_True in Hn by reflexivity. pose proof (count_of_nonneg (gen_key e) (delete p m)).
  exists (count_of (gen_key e) m). split; [|split; [lia|]].
  { rewrite (H (gen_key e)). destruct (Z.eqb_spec (count_of (gen_key e) m) 0); [lia|reflexivity]. }
  intros k. destruct (decide (gen_key e = k)) as [<-|Hk].
  - replace (count_of (gen_key e) m - 1) with (count_of (gen_key e) (delete p m)) by lia.
    destruct (Z.eqb_spec (count_of (gen_key e) (delete p m)) 0);
      [apply lookup_delete_eq|apply lookup_insert_eq].
  - pose proof (count_of_delete k m p e Hp) as Hd. rewrite decide_False, Z.add_0_r in Hd by exact Hk.
    rewrite <- Hd, <- (H k).
    destruct (_ =? 0); [now apply lookup_delete_ne|now apply lookup_insert_ne].
Qed.

(** The loop stops at the oldest generation in use or at the youngest. *)
Lemma advance_loop_spec m counts max ty : counts_index m counts -> forall fuel seq,
  seq <= max -> (forall p e, m !! p = Some e -> e_class e = ty -> seq <= e_generation e) ->
  let seq' := advance_loop fuel counts max ty seq in
  seq <= seq' <= max /\ (forall p e, m !! p = Some e -> e_class e = ty -> seq' <= e_generation e)
  /\ (max - seq <= Z.of_nat fuel -> seq' < max -> is_Some (counts !! (ty, seq'))).
Proof.
  intros Hc fuel. induction fuel as [|fuel IH]; intros seq Hs Hle; simpl.
  { split; [lia|]. split; [exact Hle|]. lia. }
  destruct (Z.ltb_spec seq max) as [Hlt|]; simpl; [|split; [lia|]; split; [exact Hle|lia]].
  case_bool_decide as E; simpl; [split; [lia|]; split; [exact Hle|auto]|].
  apply eq_None_not_Some in E.
  destruct (IH (seq + 1)) as (H1 & H2 & H3); [lia| |split; [lia|]; split; [exact H2|intros; apply H3; lia]].
  intros p e Hp Ht. pose proof (Hle p e Hp Ht).
  apply (counts_None _ _ _ Hc) with (p := p) (e := e) in E; [|exact Hp].
  assert (e_generation e <> seq); [|lia]. intros <-. apply E. unfold gen_key. now rewrite Ht.
Qed.
Lemma seq_of_set m ty x ty' : seq_of (set_seq m ty x) ty' = if Bool.eqb ty ty' then x else seq_of m ty'.
Proof. now destruct ty, ty'. Qed.
Lemma gens_advance c m ty : gens_ok m (gen_counts c) (max_seq c) (min_seq c) ->
  exists min, advance_min_seq c ty = set_gens c (gen_counts c) (max_seq c) min
    /\ gens_ok m (gen_counts c) (max_seq c) min
    /\ (forall ty', seq_of (min_seq c) ty' <= seq_of min ty').
Proof.
  intros [Hc Hb Hm Hs]. unfold advance_min_seq.
  destruct (advance_loop_spec m (gen_counts c) (max_seq c) ty Hc
    (Z.to_nat (max_seq c - seq_of (min_seq c) ty)) (seq_of (min_seq c) ty)) as (H1 & H2 & _).
  { apply Hm. } { intros p e Hp <-. now apply (Hb p). }
  set (seq := advance_loop _ _ _ _ _) in *. eexists. split; [reflexivity|].
  assert (forall ty', seq_of (min_seq c) ty' <= seq_of (set_seq (min_seq c) ty seq) ty') as Hge.
  { intros ty'. rewrite seq_of_set. destruct (Bool.eqb_spec ty ty') as [->|]; lia. }
  split; [|exact Hge]. split; [exact Hc| | |].
  - intros p e Hp. pose proof (Hb p e Hp). rewrite seq_of_set.
    destruct (Bool.eqb_spec ty (e_class e)) as [->|]; [|lia]. specialize (H2 p e Hp eq_refl). lia.
  - intros ty'. pose proof (Hm ty'). pose proof (Hm ty). rewrite seq_of_set.
    destruct (Bool.eqb_spec ty ty') as [->|]; lia.
  - pose proof (Hge true). pose proof (Hge false). simpl in *. lia.
Qed.
Lemma count_remove_ok {E} c m p e : m !! p = Some e ->
  gens_ok m (gen_counts c) (max_seq c) (min_seq c) ->
  exists counts min, @count_remove E c (e_class e) (e_generation e) = Ok (set_gens c counts (max_seq c) min)
    /\ gens_ok (delete p m) counts (max_seq c) min.
Proof.
  intros Hp Hg. destruct Hg as [Hc Hb Hm Hs].
  destruct (counts_delete m (gen_counts c) p e Hp Hc) as (n & Hn & Hpos & Hc').
  unfold count_remove. fold (gen_key e). rewrite Hn. simpl. unfold checked_sub.
  rewrite (proj2 (Z.leb_le 1 n)) by exact Hpos. simpl.
  set (counts := if n - 1 =? 0 then _ else _) in *.
  destruct (gens_advance (set_gens c counts (max_seq c) (min_seq c)) (delete p m) (e_class e))
    as (min & Heq & Hg & _).
  { split; [exact Hc'| |exact Hm|exact Hs]. intros q e' [_ Hq]%lookup_delete_Some. now apply (Hb q). }
  exists counts, min. split; [|exact Hg]. f_equal. exact Heq.
Qed.
Lemma count_add_ok c m p e : m !! p = None ->
  gens_ok m (gen_counts c) (max_seq c) (min_seq c) ->
  seq_of (min_seq c) (e_class e) <= e_generation e <= max_seq c ->
  exists counts, count_add c (e_class e) (e_generation e) = set_gens c counts (max_seq c) (min_seq c)
    /\ gens_ok (<[p := e]> m) counts (max_seq c) (min_seq c).
Proof.
  intros Hp [Hc Hb Hm Hs] He. unfold count_add. eexists. split; [reflexivity|].
  split; [now apply counts_insert| |exact Hm|exact Hs].
  intros q e' [[-> ->]|[_ Hq]]%lookup_insert_Some; [exact He|now apply (Hb q)].
Qed.

(** ** Every operation keeps the invariant *)
Definition evolves (c c' : Cache) : Prop :=
  wf c' /\ base_resident c ⊆ base_resident c' /\ capacity c' = capacity c.

Lemma tick_ok {E} c : clock c + 1 < W64 -> @tick E c = Ok (set_clock c (clock c + 1)).
Proof. intros H. unfold tick, increment. now rewrite checked_add_Some. Qed.
Lemma size_replace (m : gmap PageId Entry) p e e' : m !! p = Some e -> size (<[p := e']> m) = size m.
Proof. intros H. apply map_size_insert_Some. eauto. Qed.
Lemma size_removed (m : gmap PageId Entry) p e : m !! p = Some e ->
  Z.of_nat (size (delete p m)) = Z.of_nat (size m) - 1.
Proof.
  intros H. rewrite <- (insert_delete_id m p e) at 2 by exact H.
  rewrite map_size_insert_None by apply lookup_delete_eq. lia.
Qed.
Lemma link_eq c p e : link c p e
  = set_victims c (if Entry_evictable e then {[victim_key p e]} ∪ victims c else victims c).
Proof. unfold link. destruct c, (Entry_evictable e); reflexivity. Qed.

(** A page moves to the youngest generation; the other fields of its entry
    are the caller's. *)
Lemma regenerate {E} c page e e' :
  entries c !! page = Some e -> gens_ok (entries c) (gen_counts c) (max_seq c) (min_seq c) ->
  e_class e' = e_class e -> e_generation e' = max_seq c ->
  exists counts min counts',
    @count_remove E c (e_class e) (e_generation e) = Ok (set_gens c counts (max_seq c) min)
    /\ count_add (set_gens c counts (max_seq c) min) (e_class e) (max_seq c)
       = set_gens c counts' (max_seq c) min
    /\ gens_ok (<[page := e']> (entries c)) counts' (max_seq c) min.
Proof.
  intros Hp Hg Hcl Hgen. destruct (@count_remove_ok E c _ _ _ Hp Hg) as (counts & min & H1 & Hg1).
  destruct (count_add_ok (set_gens c counts (max_seq c) min) (delete page (entries c)) page e')
    as (counts' & H2 & Hg2); [apply lookup_delete_eq|exact Hg1| |].
  { simpl. rewrite Hgen. pose proof (gens_min _ _ _ _ Hg1 (e_class e')). lia. }
  exists counts, min, counts'. rewrite <- Hcl, <- Hgen at 2. split; [exact H1|].
  rewrite Hcl, Hgen in H2. rewrite Hcl, Hgen. split; [exact H2|]. now rewrite insert_delete_eq in Hg2.
Qed.
Lemma gens_same m counts max min p e e' : gens_ok m counts max min -> m !! p = Some e ->
  e_class e' = e_class e -> e_generation e' = e_generation e -> gens_ok (<[p := e']> m) counts max min.
Proof.
  intros [G1 G2 G3 G4] Hp Hc Hg. split; [|intros q e0 [[-> <-]|[_ Hq]]%lookup_insert_Some|exact G3|exact G4].
  - intros k. rewrite <- insert_delete_eq, count_of_insert by apply lookup_delete_eq.
    replace (gen_key e') with (gen_key e) by (unfold gen_key; congruence).
    rewrite <- (count_of_delete k m p e Hp). apply G1.
  - rewrite Hc, Hg. now apply (G2 q).
  - now apply (G2 q).
Qed.
(** Replacing the entry of a page in the map and in every index. *)
Lemma wf_replace c c' page e e' :
  wf c -> entries c !! page = Some e -> entries c' = <[page := e']> (entries c) ->
  reserved c' = reserved c -> capacity c' = capacity c -> base_resident c' = base_resident c ->
  (forall q, q ∈ dirty c' <-> (q = page /\ e_dirty e' = true) \/ (q <> page /\ q ∈ dirty c)) ->
  (forall q, q ∈ unstable c'
     <-> (q = page /\ negb (Entry_evictable e') = true) \/ (q <> page /\ q ∈ unstable c)) ->
  victims_index (<[page := e']> (entries c)) (victims c') ->
  gens_ok (<[page := e']> (entries c)) (gen_counts c') (max_seq c') (min_seq c') ->
  fits W8 (e_flushing e') -> evolves c c'.
Proof.
  intros [W1 W2 W3 W4 W5 W6 W7] Hp He Hr Hc Hb Hd Hu Hv Hg Hf. split; [|rewrite Hb; auto].
  constructor; rewrite ?He, ?Hr, ?Hb, ?Hc; auto.
  - now rewrite (size_replace _ _ e).
  - eapply indexes_insert; eauto.
  - eapply indexes_insert; eauto.
  - intros q e0 [[_ <-]|[_ Hq]]%lookup_insert_Some; [exact Hf|now apply (W7 q)].
Qed.
Lemma victims_relink c page e e' : entries c !! page = Some e -> victims_index (entries c) (victims c) ->
  victims_index (<[page := e']> (entries c))
    (if Entry_evictable e' then {[victim_key page e']} ∪ (victims c ∖ {[victim_key page e]})
     else victims c ∖ {[victim_key page e]}).
Proof.
  intros Hp H. rewrite <- insert_delete_eq. apply victims_link; [apply lookup_delete_eq|].
  now apply victims_unlink.
Qed.
(** A page that stays on the same side of an index. *)
Lemma indexed_same f m s p e (b : bool) : indexes f m s -> m !! p = Some e -> f e = b ->
  forall q, q ∈ s <-> (q = p /\ b = true) \/ (q <> p /\ q ∈ s).
Proof.
  intros H Hp Hf q. destruct (decide (q = p)) as [->|Hq]; [|tauto].
  rewrite (H p). split; [intros (e' & ? & ?); left; split; congruence|].
  intros [[_ ->]|[? _]]; [eauto|easy].
Qed.

Lemma promote_ok {E} c page : wf c -> clock c + 1 < W64 ->
  exists c', @promote E c page = Ok c' /\ evolves c c' /\ clock c' <= clock c + 1.
Proof.
  intros W Hck. unfold promote. destruct (entries c !! page) as [e|] eqn:Hp.
  2:{ exists c. split; [reflexivity|]. split; [|lia]. now split. }
  set (e' := {| e_class := e_class e; e_dirty := e_dirty e; e_flushing := e_flushing e;
                e_generation := max_seq c; e_touched := clock c + 1 |}).
  destruct (@regenerate E (unlink c page e) page e e') as (n1 & min & n2 & H1 & H2 & Hg);
    [exact Hp|apply W|reflexivity|reflexivity|].
  rewrite H1. simpl. rewrite tick_ok by exact Hck. simpl in *. fold e'.
  change (count_add _ (e_class e) (max_seq c)) with
    (set_clock (count_add (set_gens (unlink c page e) n1 (max_seq c) min) (e_class e) (max_seq c)) (clock c + 1)).
  rewrite H2, link_eq. eexists. split; [reflexivity|]. split; [|simpl; lia].
  apply (wf_replace c _ page e e'); try reflexivity; auto; simpl.
  - now apply (indexed_same _ _ _ _ _ _ (wf_dirty _ W) Hp).
  - now apply (indexed_same _ _ _ _ _ _ (wf_unstable _ W) Hp).
  - apply victims_relink; [exact Hp|apply W].
  - now apply (wf_flushing _ W page).
Qed.
Lemma mark_dirty_ok {E} c page : wf c -> clock c + 1 < W64 -> is_Some (entries c !! page) ->
  exists c', @mark_dirty E c page = Ok c' /\ evolves c c'.
Proof.
  intros W Hck [e Hp]. unfold mark_dirty. rewrite tick_ok by exact Hck. simpl. rewrite Hp. simpl.
  set (e' := {| e_class := e_class e; e_dirty := true; e_flushing := e_flushing e;
                e_generation := max_seq c; e_touched := clock c + 1 |}).
  destruct (@regenerate E (unlink (set_clock c (clock c + 1)) page e) page e e')
    as (n1 & min & n2 & H1 & H2 & Hg); [exact Hp|apply W|reflexivity|reflexivity|].
  rewrite H1. simpl in *. rewrite H2. simpl. fold e'. eexists. split; [reflexivity|].
  apply (wf_replace c _ page e e'); try reflexivity; auto; simpl.
  - intros q. rewrite elem_of_union, elem_of_singleton. destruct (decide (q = page)); tauto.
  - intros q. rewrite elem_of_union, elem_of_singleton. destruct (decide (q = page)); tauto.
  - apply (victims_relink c page e e' Hp), W.
  - now apply (wf_flushing _ W page).
Qed.
Lemma begin_flush_ok {E} c page e : wf c -> entries c !! page = Some e ->
  Entry_evictable e = false -> e_flushing e < 255 ->
  exists c', @begin_flush E c page = Ok c' /\ evolves c c'.
Proof.
  intros W Hp He Hf. unfold begin_flush, increment. rewrite Hp. simpl.
  pose proof (wf_flushing _ W _ _ Hp) as [Hf0 _].
  rewrite checked_add_Some by lia. simpl.
  set (e' := {| e_class := e_class e; e_dirty := false; e_flushing := e_flushing e + 1;
                e_generation := e_generation e; e_touched := e_touched e |}).
  assert (Entry_evictable e' = false) as He' by (apply Z.eqb_neq; simpl; lia).
  eexists. split; [reflexivity|]. apply (wf_replace c _ page e e'); try reflexivity; auto; simpl.
  - intros q. rewrite elem_of_difference, elem_of_singleton. intuition discriminate.
  - rewrite He'. apply (indexed_same _ _ _ _ _ _ (wf_unstable _ W) Hp). now rewrite He.
  - pose proof (victims_link (delete page (entries c)) (victims c) page e') as H.
    rewrite He', insert_delete_eq in H. apply H; [apply lookup_delete_eq|].
    apply (victims_absent _ _ page e Hp He), W.
  - now apply (gens_same _ _ _ _ page e); [apply W|..].
  - split; simpl; lia.
Qed.
Lemma end_flush_ok {E} c page e : wf c -> entries c !! page = Some e -> 0 < e_flushing e ->
  exists c', @end_flush E c page = Ok c' /\ evolves c c'.
Proof.
  intros W Hp Hf. unfold end_flush. rewrite Hp. simpl.
  pose proof (wf_flushing _ W _ _ Hp) as [Hf0 Hf1]. rewrite (proj2 (Z.ltb_lt _ _) Hf).
  set (e' := {| e_class := e_class e; e_dirty := e_dirty e; e_flushing := e_flushing e - 1;
                e_generation := e_generation e; e_touched := e_touched e |}).
  assert (Entry_evictable e = false) as He by (apply andb_false_iff; right; apply Z.eqb_neq; lia).
  rewrite link_eq. eexists. split; [reflexivity|].
  apply (wf_replace c _ page e e'); try reflexivity; auto; simpl; try (now destruct (Entry_evictable e')).
  - replace (dirty _) with (dirty c) by now destruct (Entry_evictable e').
    now apply (indexed_same _ _ _ _ _ _ (wf_dirty _ W) Hp).
  - destruct (Entry_evictable e'); simpl.
    + intros q. rewrite elem_of_difference, elem_of_singleton. intuition discriminate.
    + apply (indexed_same _ _ _ _ _ _ (wf_unstable _ W) Hp). now rewrite He.
  - replace (victims (if Entry_evictable e' then _ else _)) with (victims c) by now destruct (Entry_evictable e').
    rewrite <- (insert_delete_eq (entries c)). apply victims_link; [apply lookup_delete_eq|].
    apply (victims_absent _ _ page e Hp He), W.
  - replace (gen_counts _) with (gen_counts c) by now destruct (Entry_evictable e').
    replace (max_seq _) with (max_seq c) by now destruct (Entry_evictable e').
    replace (min_seq _) with (min_seq c) by now destruct (Entry_evictable e').
    now apply (gens_same _ _ _ _ page e); [apply W|..].
  - split; simpl; lia.
Qed.

(** A page leaves the map and every index. *)
Lemma wf_remove c c' page e :
  wf c -> entries c !! page = Some e -> entries c' = delete page (entries c) ->
  0 <= reserved c' <= reserved c + 1 -> capacity c' = capacity c -> base_resident c' = base_resident c ->
  (forall q, q ∈ dirty c' <-> q <> page /\ q ∈ dirty c) ->
  (forall q, q ∈ unstable c' <-> q <> page /\ q ∈ unstable c) ->
  victims c' = victims c ∖ {[victim_key page e]} ->
  gens_ok (delete page (entries c)) (gen_counts c') (max_seq c') (min_seq c') -> evolves c c'.
Proof.
  intros [W1 W2 W3 W4 W5 W6 W7] Hp He Hr Hc Hb Hd Hu Hv Hg. split; [|rewrite Hb; auto].
  constructor; rewrite ?He, ?Hb, ?Hc; auto; try lia.
  - rewrite (size_removed _ _ e) by exact Hp. lia.
  - eapply indexes_delete; eauto.
  - eapply indexes_delete; eauto.
  - rewrite Hv. now apply victims_unlink.
  - intros q e0 [_ Hq]%lookup_delete_Some. now apply (W7 q).
Qed.
Lemma purge_page_ok {E} c page e : wf c -> entries c !! page = Some e ->
  exists c', @purge_page E c page = Ok c' /\ evolves c c' /\ entries c' = delete page (entries c).
Proof.
  intros W Hp. unfold purge_page. rewrite Hp. simpl.
  destruct (@count_remove_ok E (unlink (set_entries c (delete page (entries c))) page e) (entries c) page e)
    as (counts & min & H & Hg); [exact Hp|apply W|]. rewrite H. eexists. split; [reflexivity|]. split; [|reflexivity].
  apply (wf_remove c _ page e); try reflexivity; auto; simpl.
  - pose proof (wf_reserved _ W). lia.
  - intros q. rewrite elem_of_difference, elem_of_singleton. tauto.
  - intros q. rewrite elem_of_difference, elem_of_singleton. tauto.
Qed.
Lemma reserve_evict_ok {E} c page e : wf c -> entries c !! page = Some e -> Entry_evictable e = true ->
  exists c', (let? e := expect (entries c !! page) in
              let? c := @count_remove E (unlink (set_entries c (delete page (entries c))) page e)
                          (e_class e) (e_generation e) in
              Ok (Some (Some page), set_reserved c (reserved c + 1))) = Ok (Some (Some page), c')
    /\ evolves c c' /\ entries c' = delete page (entries c) /\ reserved c' = reserved c + 1.
Proof.
  intros W Hp He. rewrite Hp. simpl.
  destruct (@count_remove_ok E (unlink (set_entries c (delete page (entries c))) page e) (entries c) page e)
    as (counts & min & H & Hg); [exact Hp|apply W|]. rewrite H. eexists. split; [reflexivity|].
  split; [|split; reflexivity].
  assert (forall f s, indexes f (entries c) s -> f e = false -> forall q, q ∈ s <-> q <> page /\ q ∈ s) as Hs.
  { intros f s Hi Hf q. rewrite (indexed_same f _ _ page e false Hi Hp Hf q) at 1. intuition discriminate. }
  apply (wf_remove c _ page e); try reflexivity; auto; simpl.
  - pose proof (wf_reserved _ W). lia.
  - apply (Hs _ _ (wf_dirty _ W)). destruct (e_dirty e) eqn:Hd; [|reflexivity].
    unfold Entry_evictable in He. now rewrite Hd in He.
  - apply (Hs _ _ (wf_unstable _ W)). now rewrite He.
Qed.

Lemma in_order_In {A} `{Countable A} `{RustOrd A} (x : A) (s : gset A) : In x (in_order s) <-> x ∈ s.
Proof. unfold in_order. now rewrite In_sort_by, <- list_elem_of_In, elem_of_elements. Qed.
Lemma in_order_sorted {A} `{Countable A} `{RustOrdLaws A} (s : gset A) :
  StronglySorted (fun x y => cmp_leb x y = true) (in_order s).
Proof. apply sort_by_sorted; [apply cmp_le_total|apply cmp_le_trans]. Qed.

(** What [reserve_slot] does: it takes a spare slot when there is one; else it
    evicts the page that is least by type (storage before memory), generation
    and arrival among those whose content is durable; else it declines. *)
Lemma reserve_slot_spec {E} c : wf c -> exists result c', @reserve_slot E c = Ok (result, c')
  /\ evolves c c'
  /\ match result with
     | Some None =>
         Z.of_nat (size (entries c)) + Z.of_nat (size (base_resident c)) + reserved c < capacity c
         /\ entries c' = entries c /\ reserved c' = reserved c + 1
     | Some (Some page) =>
         Z.of_nat (size (entries c)) + Z.of_nat (size (base_resident c)) + reserved c = capacity c
         /\ entries c' = delete page (entries c) /\ reserved c' = reserved c + 1
         /\ exists e, entries c !! page = Some e /\ Entry_evictable e = true
            /\ forall q e', entries c !! q = Some e' -> Entry_evictable e' = true ->
                  cmp_leb (victim_key page e) (victim_key q e') = true
     | None =>
         Z.of_nat (size (entries c)) + Z.of_nat (size (base_resident c)) + reserved c = capacity c
         /\ c' = c /\ forall q e, entries c !! q = Some e -> Entry_evictable e = false
     end.
Proof.
  intros W. unfold reserve_slot. pose proof (wf_budget _ W) as Hb.
  destruct (Z.ltb_spec (Z.of_nat (size (entries c)) + Z.of_nat (size (base_resident c)) + reserved c) (capacity c))
    as [Hlt|Hge].
  { do 2 eexists. split; [reflexivity|]. split; [|repeat split; auto]. pose proof (wf_reserved _ W).
    destruct W. split; [|split; auto]. constructor; simpl; auto; lia. }
  pose proof (in_order_sorted (victims c)) as Hs.
  destruct (in_order (victims c)) as [|v vs] eqn:Ho.
  { do 2 eexists. split; [reflexivity|]. split; [now split|]. split; [lia|]. split; [reflexivity|].
    intros q e Hq. destruct (Entry_evictable e) eqn:He; [|reflexivity]. exfalso.
    apply (in_nil (a := victim_key q e)). rewrite <- Ho. apply in_order_In, (wf_victims _ W). eauto. }
  assert (v ∈ victims c) as (p & e & Hp & He & ->)%(wf_victims _ W).
  { apply in_order_In. rewrite Ho. now left. }
  unfold victim_key at 1. destruct (@reserve_evict_ok E c p e W Hp He) as (c' & H & Hev & He1 & He2).
  exists (Some (Some p)), c'. split; [exact H|]. split; [exact Hev|]. split; [lia|]. split; [exact He1|].
  split; [exact He2|]. exists e. split; [exact Hp|]. split; [exact He|]. intros q e' Hq He'.
  assert (In (victim_key q e') (victim_key p e :: vs)) as [->|Hin].
  { rewrite <- Ho. apply in_order_In, (wf_victims _ W). eauto. }
  - now apply cmp_leb_le; right.
  - apply StronglySorted_inv in Hs as [_ Hf]. rewrite List.Forall_forall in Hf. now apply Hf.
Qed.

Lemma fill_slot_ok {E} c page (d memory : bool) :
  wf c -> 0 < reserved c -> entries c !! page = None -> clock c + 1 < W64 ->
  exists c', @fill_slot E c page d memory = Ok c' /\ evolves c c'.
Proof.
  intros W Hr Hp Hck. unfold fill_slot, fill_slot_in. rewrite (proj2 (Z.ltb_lt _ _) Hr), tick_ok by exact Hck.
  simpl. set (c1 := if d then _ else _).
  set (e := {| e_class := memory; e_dirty := d; e_flushing := 0; e_generation := max_seq c;
               e_touched := clock c + 1 |}).
  pose proof (wf_gens _ W) as Hg.
  destruct (count_add_ok c1 (entries c) page e) as (counts & H & Hg'); [exact Hp|now subst c1; destruct d| |].
  { pose proof (gens_min _ _ _ _ Hg memory). subst c1. now destruct d. }
  assert (count_add c1 memory (max_seq c) = set_gens c1 counts (max_seq c1) (min_seq c1)) as -> by exact H.
  rewrite link_eq. unfold is_resident. simpl.
  replace (entries c1) with (entries c) by now subst c1; destruct d.
  rewrite bool_decide_eq_false_2 by (rewrite Hp; now intros []). simpl. eexists. split; [reflexivity|].
  destruct W as [W1 W2 W3 W4 W5 W6 W7]. subst c1.
  split; [|destruct d; now split]. constructor; simpl.
  - destruct d; simpl; lia.
  - rewrite map_size_insert_None by exact Hp. destruct d; simpl; lia.
  - apply (indexes_insert _ _ _ _ _ _ W3). intros q. destruct d; simpl.
    + rewrite elem_of_union, elem_of_singleton. destruct (decide (q = page)); tauto.
    + rewrite (W3 q). destruct (decide (q = page)) as [->|]; [|tauto].
      rewrite Hp. intuition (congruence || eauto). now destruct H0 as (? & ? & _).
  - apply (indexes_insert _ _ _ _ _ _ W4). intros q. destruct d; simpl.
    + rewrite elem_of_union, elem_of_singleton. destruct (decide (q = page)); tauto.
    + rewrite (W4 q). destruct (decide (q = page)) as [->|]; [|tauto].
      rewrite Hp. intuition (congruence || eauto). now destruct H0 as (? & ? & _).
  - replace (victims (if d then _ else _)) with (victims c) by now destruct d. now apply victims_link.
  - destruct d; exact Hg'.
  - intros q e0 [[_ <-]|[_ Hq]]%lookup_insert_Some; [now split|now apply (W7 q)].
Qed.
Lemma wf_reserved_change c x : wf c ->
  0 <= x -> Z.of_nat (size (entries c)) + Z.of_nat (size (base_resident c)) + x <= capacity c ->
  evolves c (set_reserved c x).
Proof. intros [W1 W2 W3 W4 W5 W6 W7] Hx Hb. split; [|now split]. now constructor. Qed.
Lemma release_slot_ok {E} c : wf c -> 0 < reserved c ->
  exists c', @release_slot E c = Ok c' /\ evolves c c'.
Proof.
  intros W Hr. unfold release_slot. rewrite (proj2 (Z.ltb_lt _ _) Hr). eexists. split; [reflexivity|].
  pose proof (wf_budget _ W). apply wf_reserved_change; auto; lia.
Qed.
Lemma size_union_one (key : BaseKey) (s : gset BaseKey) : (size ({[key]} ∪ s) <= size s + 1)%nat.
Proof.
  destruct (decide (key ∈ s)) as [H|H].
  - rewrite subseteq_union_1_L by now apply singleton_subseteq_l. lia.
  - rewrite size_union, size_singleton by now apply disjoint_singleton_l. lia.
Qed.
Lemma base_insert_ok {E} c key : wf c -> 0 < reserved c ->
  exists c', @base_insert E c key = Ok c' /\ evolves c c'.
Proof.
  intros W Hr. unfold base_insert. rewrite (proj2 (Z.ltb_lt _ _) Hr). eexists. split; [reflexivity|].
  destruct W as [W1 W2 W3 W4 W5 W6 W7]. pose proof (size_union_one key (base_resident c)).
  split; [|split; [set_solver|reflexivity]]. constructor; simpl; auto; lia.
Qed.

Lemma evolves_trans c1 c2 c3 : evolves c1 c2 -> evolves c2 c3 -> evolves c1 c3.
Proof. intros (_ & H1 & H2) (H3 & H4 & H5). split; [exact H3|]. split; [set_solver|congruence]. Qed.
Lemma promotes_ok {E} pages : forall c, wf c -> clock c + len pages < W64 ->
  exists c', fold_outcome (@promote E) c pages = Ok c' /\ evolves c c'.
Proof.
  induction pages as [|p pages IH]; intros c W Hck; simpl; [exists c; now split|].
  rewrite len_cons in Hck. pose proof (len_nonneg pages).
  destruct (@promote_ok E c p W) as (c1 & -> & Hev & Hc1); [lia|]. simpl.
  destruct (IH c1) as (c2 & -> & Hev2); [apply Hev|lia|]. exists c2. split; [reflexivity|].
  now apply (evolves_trans c c1).
Qed.
Lemma wf_gens_change c max min : wf c -> gens_ok (entries c) (gen_counts c) max min ->
  evolves c (set_gens c (gen_counts c) max min).
Proof. intros [W1 W2 W3 W4 W5 W6 W7] Hg. split; [|now split]. now constructor. Qed.
Lemma advance_ok c ty : wf c -> evolves c (advance_min_seq c ty).
Proof.
  intros W. destruct (gens_advance c (entries c) ty) as (min & -> & Hg & _); [apply W|].
  now apply wf_gens_change.
Qed.
Lemma age_ok {E} c accessed : wf c -> clock c + len accessed < W64 -> max_seq c + 1 < W64 ->
  exists c', @age E c accessed = Ok c' /\ evolves c c'.
Proof.
  intros W Hck Hm. unfold age. case_bool_decide; [exists c; now split|].
  assert (exists c1, c1 = advance_min_seq (advance_min_seq c false) true /\ evolves c c1
    /\ max_seq c1 = max_seq c /\ clock c1 = clock c) as (c1 & <- & Hev & Hm1 & Hc1).
  { eexists. split; [reflexivity|]. split; [|now split].
    pose proof (advance_ok c false W) as H1. eapply evolves_trans; [exact H1|]. apply advance_ok, H1. }
  destruct (Z.ltb_spec (span c1) MAX_NR_GENS) as [Hs|Hs].
  2:{ simpl. destruct (@promotes_ok E accessed c1) as (c2 & -> & H2); [apply Hev|now rewrite Hc1|].
      exists c2. split; [reflexivity|]. now apply (evolves_trans c c1). }
  unfold increment. rewrite checked_add_Some by now rewrite Hm1. simpl.
  assert (evolves c1 (set_gens c1 (gen_counts c1) (max_seq c1 + 1) (min_seq c1))) as H1.
  { apply wf_gens_change; [apply Hev|]. destruct (wf_gens _ (proj1 Hev)) as [G1 G2 G3 G4].
    split; [exact G1| | |].
    - intros p e Hp. specialize (G2 p e Hp). lia.
    - intros ty. specialize (G3 ty). lia.
    - unfold span, MAX_NR_GENS in *. lia. }
  destruct (@promotes_ok E accessed (set_gens c1 (gen_counts c1) (max_seq c1 + 1) (min_seq c1)))
    as (c2 & -> & H2); [apply H1|now simpl; rewrite Hc1|]. exists c2. split; [reflexivity|].
  eapply evolves_trans; [exact Hev|]. eapply evolves_trans; [exact H1|exact H2].
Qed.

Lemma in_order_NoDup {A} `{Countable A} `{RustOrd A} (s : gset A) : List.NoDup (in_order s).
Proof.
  apply (Permutation_NoDup (l := stdpp.base.elements s)); [|apply NoDup_ListNoDup, NoDup_elements].
  symmetry. apply sort_by_perm.
Qed.
Lemma pages_of_spec volume (s : gset PageId) :
  StronglySorted (fun x y => cmp_leb x y = true) (pages_of volume s) /\ List.NoDup (pages_of volume s)
  /\ forall p, In p (pages_of volume s) <-> p ∈ s /\ pid_volume p = volume.
Proof.
  unfold pages_of. split; [apply sorted_filter, in_order_sorted|].
  split; [apply List.NoDup_filter, in_order_NoDup|].
  intros p. now rewrite filter_In, in_order_In, Z.eqb_eq.
Qed.
Lemma purge_pages_ok {E} pages : forall c, wf c -> List.NoDup pages ->
  (forall p, In p pages -> is_Some (entries c !! p)) ->
  exists c', fold_outcome (@purge_page E) c pages = Ok c' /\ evolves c c'
    /\ forall q, entries c' !! q = if decide (In q pages) then None else entries c !! q.
Proof.
  induction pages as [|p pages IH]; intros c W Hn Hr; simpl.
  { exists c. split; [reflexivity|]. split; [now split|]. intros q. now destruct (decide False). }
  apply List.NoDup_cons_iff in Hn as [Hp Hn]. destruct (Hr p (or_introl eq_refl)) as [e He].
  destruct (@purge_page_ok E c p e W He) as (c1 & -> & Hev & Hent). simpl.
  destruct (IH c1) as (c2 & -> & Hev2 & H2); [apply Hev|exact Hn| |].
  { intros q Hq. rewrite Hent, lookup_delete_ne by congruence. apply Hr. now right. }
  exists c2. split; [reflexivity|]. split; [now apply (evolves_trans c c1)|]. intros q. rewrite H2, Hent.
  destruct (decide (In q pages)), (decide (p = q \/ In q pages)) as [Hd|Hd]; auto; try tauto.
  - destruct Hd as [->|]; [apply lookup_delete_eq|tauto].
  - rewrite lookup_delete_ne by tauto. reflexivity.
Qed.
Lemma purge_volume_ok {E} c volume : wf c ->
  exists c', @purge_volume E c volume = Ok (pages_of volume (dom (entries c)), c') /\ evolves c c'
    /\ forall q, entries c' !! q = if pid_volume q =? volume then None else entries c !! q.
Proof.
  intros W. unfold purge_volume. destruct (pages_of_spec volume (dom (entries c))) as (_ & Hn & Hin).
  destruct (@purge_pages_ok E (pages_of volume (dom (entries c))) c W Hn) as (c' & -> & Hev & H).
  { intros p [Hp _]%Hin. now apply elem_of_dom. }
  exists c'. split; [reflexivity|]. split; [exact Hev|]. intros q. rewrite H.
  destruct (decide _) as [Hq|Hq], (Z.eqb_spec (pid_volume q) volume) as [Hv|Hv]; auto.
  - apply Hin in Hq. tauto.
  - destruct (entries c !! q) eqn:E1; [|reflexivity]. destruct Hq. apply Hin. split; [|exact Hv].
    apply elem_of_dom. eauto.
Qed.

(** ** The calls the engine makes *)
Inductive CacheCall :=
| Call_reserve
| Call_fill (page : PageId) (dirty memory : bool)
| Call_base (key : BaseKey)
| Call_release
| Call_dirty (page : PageId)
| Call_begin_flush (page : PageId)
| Call_end_flush (page : PageId)
| Call_age (accessed : list PageId)
| Call_purge (volume : Z).
Definition call {E} (op : CacheCall) (c : Cache) : outcome E Cache :=
  match op with
  | Call_reserve => let? (_, c) := reserve_slot c in Ok c
  | Call_fill page d memory => fill_slot c page d memory
  | Call_base key => base_insert c key
  | Call_release => release_slot c
  | Call_dirty page => mark_dirty c page
  | Call_begin_flush page => begin_flush c page
  | Call_end_flush page => end_flush c page
  | Call_age accessed => age c accessed
  | Call_purge volume => let? (_, c) := purge_volume c volume in Ok c
  end.
(** What a caller must know: slots are reserved before they are used, a page
    is filled once, only a page the cache lists as unstable is flushed, with at
    most 255 flushes in flight, and only a flush that began ends. The counters
    are 64 bits wide. *)
Definition allowed (op : CacheCall) (c : Cache) : Prop :=
  match op with
  | Call_reserve | Call_purge _ => True
  | Call_fill page _ _ => 0 < reserved c /\ entries c !! page = None /\ clock c + 1 < W64
  | Call_base _ | Call_release => 0 < reserved c
  | Call_dirty page => is_resident c page = true /\ clock c + 1 < W64
  | Call_begin_flush page =>
      page ∈ unstable c /\ exists e, entries c !! page = Some e /\ e_flushing e < 255
  | Call_end_flush page => exists e, entries c !! page = Some e /\ 0 < e_flushing e
  | Call_age accessed => clock c + len accessed < W64 /\ max_seq c + 1 < W64
  end.
Lemma call_ok {E} op c : wf c -> allowed op c -> exists c', @call E op c = Ok c' /\ evolves c c'.
Proof.
  intros W. destruct op as [|page d memory|key| |page|page|page|accessed|volume]; simpl.
  - intros _. destruct (@reserve_slot_spec E c W) as (r & c' & -> & H & _). now exists c'.
  - intros (H1 & H2 & H3). now apply fill_slot_ok.
  - now apply base_insert_ok.
  - now apply release_slot_ok.
  - intros [H1%bool_decide_eq_true H2]. now apply mark_dirty_ok.
  - intros (Hu & e & He & Hf). apply (begin_flush_ok _ _ e); auto.
    apply (wf_unstable _ W) in Hu as (e' & He' & Hn). apply negb_true_iff in Hn. congruence.
  - intros (e & He & Hf). now apply (end_flush_ok _ _ e).
  - intros [H1 H2]. now apply age_ok.
  - intros _. destruct (@purge_volume_ok E c volume W) as (c' & -> & H & _). now exists c'.
Qed.

Inductive reachable (limit : Z) : Cache -> Prop :=
| reach_new c : @Cache_new unit limit = Ok c -> reachable limit c
| reach_call op c c' : reachable limit c -> allowed op c -> @call unit op c = Ok c' ->
    reachable limit c'.
Lemma reachable_wf limit c : reachable limit c -> wf c /\ capacity c = limit.
Proof.
  induction 1 as [c Hn|op c c' _ [W Hc] Ha Hr].
  - unfold Cache_new in Hn. destruct (Z.leb_spec 1 limit); [|discriminate]. injection Hn as <-.
    split; [|reflexivity]. constructor; simpl; [lia|change (0 + 0 + 0 <= limit); lia|..].
    + intros p. rewrite lookup_empty. split; [now intros ?%not_elem_of_empty|now intros (e & ? & _)].
    + intros p. rewrite lookup_empty. split; [now intros ?%not_elem_of_empty|now intros (e & ? & _)].
    + intros v. split; [now intros ?%not_elem_of_empty|]. intros (p & e & H1 & _). now rewrite lookup_empty in H1.
    + split; try (intros ? ?; now rewrite lookup_empty).
      * intros k. rewrite lookup_empty. now rewrite (proj2 (count_of_zero k ∅)).
      * now intros [].
      * vm_compute. congruence.
    + intros p e. now rewrite lookup_empty.
  - destruct (@call_ok unit op c W Ha) as (c1 & H1 & Hw & _ & Hcap).
    rewrite H1 in Hr. injection Hr as <-. split; [exact Hw|congruence].
Qed.

(** C17. Whatever calls the engine makes, the cache stays within its capacity,
    its dirty, unstable, victim and generation indexes say exactly what the
    entries say, at most four generations are in use, and no permitted call
    panics: not on a missing count, not on a victim that is not resident. *)
Theorem cache_invariant limit c : reachable limit c ->
  wf c /\ capacity c = limit /\ 1 <= span c <= MAX_NR_GENS
  /\ (forall op, allowed op c -> exists c', @call unit op c = Ok c').
Proof.
  intros [W Hc]%reachable_wf. split; [exact W|]. split; [exact Hc|]. split.
  - destruct (wf_gens _ W) as [_ _ G3 G4]. pose proof (G3 true). pose proof (G3 false).
    unfold span. simpl in *. lia.
  - intros op Ha. destruct (@call_ok unit op c W Ha) as (c' & H & _). eauto.
Qed.

Lemma reserve_slot_base {E} c r c' : @reserve_slot E c = Ok (r, c') -> base_resident c' = base_resident c.
Proof.
  unfold reserve_slot. destruct (_ <? _); [now intros [= _ <-]|].
  destruct (in_order (victims c)) as [|[[[class g] touched] victim] vs]; [now intros [= _ <-]|].
  intros (e & _ & H)%outcome_bind_Ok. apply outcome_bind_Ok in H as (c1 & H1 & [= _ <-]).
  unfold count_remove in H1. apply outcome_bind_Ok in H1 as (n & _ & H1). apply outcome_bind_Ok in H1 as (m & _ & [= <-]).
  reflexivity.
Qed.

(** C18. Eviction takes the right page and only durable content.
    [reserve_slot] uses spare capacity when there is any. Otherwise it evicts
    the private page that is least by type (storage before memory), generation
    and arrival among those that are neither dirty nor being flushed; no other
    page leaves the cache. Pages of a shared base count against the capacity and
    are never evicted, clean as they are: it declines exactly when the cache is
    full and every private page is dirty or being flushed, however many base
    pages are resident. *)
Theorem eviction_exact limit c : reachable limit c ->
  exists result c', @reserve_slot unit c = Ok (result, c') /\ base_resident c' = base_resident c /\
  let used := Z.of_nat (size (entries c)) + Z.of_nat (size (base_resident c)) + reserved c in
  let stuck := forall q e, entries c !! q = Some e -> e_dirty e = true \/ 0 < e_flushing e in
  (result = None <-> used = limit /\ stuck) /\
  match result with
  | Some None => used < limit /\ entries c' = entries c /\ reserved c' = reserved c + 1
  | Some (Some page) =>
      used = limit /\ entries c' = delete page (entries c) /\ reserved c' = reserved c + 1
      /\ exists e, entries c !! page = Some e /\ e_dirty e = false /\ e_flushing e = 0
         /\ forall q e', entries c !! q = Some e' -> e_dirty e' = false -> e_flushing e' = 0 ->
              cmp_leb (victim_key page e) (victim_key q e') = true
  | None => c' = c
  end.
Proof.
  intros [W Hc]%reachable_wf. destruct (@reserve_slot_spec unit c W) as (r & c' & H & _ & Hr).
  exists r, c'. split; [exact H|]. split; [exact (reserve_slot_base c r c' H)|]. rewrite Hc in Hr.
  assert (forall e, Entry_evictable e = true <-> e_dirty e = false /\ e_flushing e = 0) as Hev.
  { intros e. unfold Entry_evictable. now rewrite andb_true_iff, negb_true_iff, Z.eqb_eq. }
  destruct r as [[page|]|]; simpl; auto.
  - destruct Hr as (H1 & H2 & H3 & e & He & [Hd Hf]%Hev & Hm). split.
    { split; [discriminate|]. intros [_ Hs]. destruct (Hs page e He); [congruence|lia]. }
    split; [exact H1|]. split; [exact H2|]. split; [exact H3|]. exists e. split; [exact He|]. split; [exact Hd|].
    split; [exact Hf|]. intros q e' Hq Hd' Hf'. apply Hm; [exact Hq|]. now apply Hev.
  - split; [|exact Hr]. split; [discriminate|]. destruct Hr. lia.
  - destruct Hr as (H1 & H2 & Hn). split; [|exact H2]. split; [intros _|easy]. split; [exact H1|]. intros q e Hq.
    specialize (Hn q e Hq). unfold Entry_evictable in Hn. pose proof (wf_flushing _ W q e Hq) as [? _].
    destruct (e_dirty e); [now left|right]. apply Z.eqb_neq in Hn. lia.
Qed.

(** The per-volume queries see exactly one volume: a capture is told, in
    order and once each, precisely the resident pages of the volume that are
    dirty or mid-flush, and after [purge_volume] nothing of that volume is
    resident, dirty or unstable while every other page is as before. *)
Lemma volume_pages_exact limit c volume : reachable limit c ->
  (StronglySorted (fun x y => cmp_leb x y = true) (unstable_pages_of c volume)
   /\ List.NoDup (unstable_pages_of c volume)
   /\ forall p, In p (unstable_pages_of c volume) <->
        pid_volume p = volume /\ exists e, entries c !! p = Some e /\ Entry_evictable e = false)
  /\ (has_dirty_of c volume = true <-> exists p e, pid_volume p = volume
        /\ entries c !! p = Some e /\ e_dirty e = true)
  /\ exists pages c', @purge_volume unit c volume = Ok (pages, c')
      /\ (forall q, entries c' !! q = if pid_volume q =? volume then None else entries c !! q)
      /\ unstable_pages_of c' volume = [] /\ has_dirty_of c' volume = false.
Proof.
  intros [W _]%reachable_wf. unfold has_dirty_of, unstable_pages_of, dirty_pages_of.
  assert (forall f c s, indexes f (entries c) s -> forall p, In p (pages_of volume s) <->
    pid_volume p = volume /\ exists e, entries c !! p = Some e /\ f e = true) as Hin.
  { intros f c0 s Hi p. destruct (pages_of_spec volume s) as (_ & _ & ->). rewrite (Hi p). tauto. }
  destruct (pages_of_spec volume (unstable c)) as (Hs & Hn & _). split; [|split].
  - split; [exact Hs|]. split; [exact Hn|]. intros p. rewrite (Hin _ c _ (wf_unstable _ W)).
    now setoid_rewrite negb_true_iff.
  - pose proof (Hin _ c _ (wf_dirty _ W)) as Hd.
    destruct (pages_of volume (dirty c)) as [|p l]; split; try easy.
    + intros (p & e & Hv & He & Hd'). destruct (proj2 (Hd p)); eauto.
    + intros _. destruct (proj1 (Hd p) (or_introl eq_refl)) as (Hv & e & He & Hd'). eauto.
  - destruct (@purge_volume_ok unit c volume W) as (c' & H & [W' _] & He).
    eexists _, c'. split; [exact H|]. split; [exact He|].
    assert (forall f s, indexes f (entries c') s -> pages_of volume s = []) as Hnil.
    { intros f s Hi. pose proof (Hin f c' s Hi) as Hp. destruct (pages_of volume s) as [|p l]; [reflexivity|].
      destruct (proj1 (Hp p) (or_introl eq_refl)) as (Hv & e & Hq & _).
      now rewrite He, Hv, Z.eqb_refl in Hq. }
    rewrite (Hnil _ _ (wf_unstable _ W')), (Hnil _ _ (wf_dirty _ W')). auto.
Qed.

(** Shared base pages are never given back. Once they take up the whole
    capacity, every later [reserve_slot] declines, for ever and although no
    page is dirty or being flushed: no sequence of calls frees a slot, so a
    fault that waits for writeback waits in vain. *)
Theorem base_pages_starve limit c c' : reachable limit c ->
  Z.of_nat (size (base_resident c)) = limit ->
  rtc (fun c c' => exists op, allowed op c /\ @call unit op c = Ok c') c c' ->
  @reserve_slot unit c' = Ok (None, c') /\ entries c' = ∅.
Proof.
  intros [W Hc]%reachable_wf Hb Hrtc.
  assert (wf c' /\ base_resident c ⊆ base_resident c' /\ capacity c' = capacity c) as (W' & Hs & Hc').
  { induction Hrtc as [|c c1 c2 (op & Ha & Hr) _ IH]; [now split|].
    destruct (@call_ok unit op c W Ha) as (c3 & H3 & W3 & Hs & Hcap). rewrite Hr in H3. injection H3 as <-.
    assert (Z.of_nat (size (base_resident c1)) = limit) as Hb1.
    { apply subseteq_size in Hs. pose proof (wf_budget _ W3). pose proof (wf_reserved _ W3). lia. }
    destruct (IH W3 ltac:(congruence) Hb1) as (H4 & H5 & H6). split; [exact H4|].
    split; [transitivity (base_resident c1); assumption|congruence]. }
  apply subseteq_size in Hs. pose proof (wf_budget _ W') as Hbud. pose proof (wf_reserved _ W').
  assert (entries c' = ∅) as He by (apply map_size_empty_inv; lia). split; [|exact He].
  destruct (@reserve_slot_spec unit c' W') as (r & c2 & Hr & _ & Hspec). rewrite Hr. rewrite He in Hspec.
  destruct r as [[page|]|]; [| |now destruct Hspec as (_ & -> & _)].
  - destruct Hspec as (_ & _ & _ & e & Hl & _). now rewrite lookup_empty in Hl.
  - destruct Hspec as (Hlt & _). lia.
Qed.
