(* ===== verification/CacheExamples.v ===== *)
(** * A cache at work

    Concrete runs of the residency cache: a page faulted in by a write, and a
    shared base page that fills a cache of one slot. *)

From stdpp Require Import gmap sets relations.
From S2P Require Import Prelude Types Sorting Cache CacheSafety.

Definition example_pid : PageId := {| pid_volume := 2; pid_page := 7 |}.
Definition run_calls (limit : Z) (ops : list CacheCall) : outcome unit Cache :=
  let? c := Cache_new limit in fold_outcome (fun c op => call op c) c ops.
Definition state_of (o : outcome unit Cache) (c : Cache) : Cache :=
  match o with Ok c => c | _ => c end.
Definition empty_cache (limit : Z) : Cache :=
  {| capacity := limit; reserved := 0; entries := ∅; dirty := ∅; unstable := ∅;
     victims := ∅; gen_counts := ∅; max_seq := 0; min_seq := (0, 0); base_resident := ∅; clock := 0 |}.
(** A write fault into a cache of two slots. *)
Definition written : Cache :=
  state_of (run_calls 2 [Call_reserve; Call_fill example_pid true false]) (empty_cache 2).
(** A base page read into a cache of one slot. *)
Definition shared : Cache :=
  state_of (run_calls 1 [Call_reserve; Call_base (9, 1, 3, 4096)]) (empty_cache 1).

Lemma written_reachable : reachable 2 written.
Proof.
  apply (reach_call 2 (Call_fill example_pid true false)
           (state_of (run_calls 2 [Call_reserve]) (empty_cache 2))); [|now vm_compute|now vm_compute].
  apply (reach_call 2 Call_reserve (empty_cache 2)); [|exact I|now vm_compute].
  now apply reach_new.
Qed.
Lemma shared_reachable : reachable 1 shared.
Proof.
  apply (reach_call 1 (Call_base (9, 1, 3, 4096))
           (state_of (run_calls 1 [Call_reserve]) (empty_cache 1))); [|now vm_compute|now vm_compute].
  apply (reach_call 1 Call_reserve (empty_cache 1)); [|exact I|now vm_compute].
  now apply reach_new.
Qed.

Lemma cache_invariant_witness : wf written /\ capacity written = 2 /\ 1 <= span written <= MAX_NR_GENS
  /\ (forall op, allowed op written -> exists c', @call unit op written = Ok c').
Proof. apply (cache_invariant 2 written), written_reachable. Defined.
Lemma eviction_exact_witness : exists result c', @reserve_slot unit written = Ok (result, c')
  /\ entries written !! example_pid <> None.
Proof.
  destruct (eviction_exact 2 written written_reachable) as (result & c' & H & _).
  exists result, c'. split; [exact H|]. vm_compute. congruence.
Defined.
Lemma volume_pages_exact_witness : In example_pid (unstable_pages_of written 2).
Proof.
  destruct (volume_pages_exact 2 written 2 written_reachable) as [(_ & _ & H) _].
  apply H. split; [reflexivity|]. eexists. split; [now vm_compute|reflexivity].
Defined.
Lemma base_pages_starve_witness : @reserve_slot unit shared = Ok (None, shared) /\ entries shared = ∅.
Proof.
  apply (base_pages_starve 1 shared shared shared_reachable); [now vm_compute|apply rtc_refl].
Defined.
