(* ===== verification/OrdMap.v ===== *)
(** * [std::collections::BTreeMap] as a sorted association list

    The maps of the source whose iteration order matters (encoders walk them,
    the BLX builder cuts them into files, validators sweep them in key order)
    are kept as the list of their entries in ascending key order. Lookups do
    not need sortedness; iteration-order and extensionality lemmas do. *)

From Stdlib Require Sorted.
From S2P Require Import Prelude Types.

Abbreviation BTreeMap K V := (list (K * V)) (only parsing).
Abbreviation BTreeSet K := (list (K * unit)) (only parsing).

Section Operations.
Context {K V : Type} `{RustOrd K}.

Fixpoint bt_get (k : K) (m : BTreeMap K V) : option V :=
  match m with
  | [] => None
  | (k', v) :: m =>
      match cmp k k' with Eq => Some v | _ => bt_get k m end
  end.

Definition bt_contains (k : K) (m : BTreeMap K V) : bool :=
  match bt_get k m with Some _ => true | None => false end.

Fixpoint bt_insert (k : K) (v : V) (m : BTreeMap K V) : BTreeMap K V :=
  match m with
  | [] => [(k, v)]
  | (k', v') :: m' =>
      match cmp k k' with
      | Lt => (k, v) :: m
      | Eq => (k, v) :: m'
      | Gt => (k', v') :: bt_insert k v m'
      end
  end.

Definition bt_remove (k : K) (m : BTreeMap K V) : BTreeMap K V :=
  List.filter (fun e => match cmp k e.1 with Eq => false | _ => true end) m.

(** [m.entry(k).or_insert(d)] followed by an update of the entry. *)
Definition bt_update (k : K) (d : V) (f : V -> V) (m : BTreeMap K V) : BTreeMap K V :=
  bt_insert k (f (default d (bt_get k m))) m.

Definition bt_keys (m : BTreeMap K V) : list K := map fst m.
Definition bt_values (m : BTreeMap K V) : list V := map snd m.

(** [iter.collect::<BTreeMap<_, _>>()]: a later pair replaces an earlier one. *)
Definition bt_collect (l : list (K * V)) : BTreeMap K V :=
  fold_left (fun m e => bt_insert e.1 e.2 m) l [].

Definition bt_lt (a b : K * V) : Prop := cmp a.1 b.1 = Lt.
Definition bt_sorted (m : BTreeMap K V) : Prop := Sorted.StronglySorted bt_lt m.
End Operations.

(** [BTreeSet::insert] returns whether the value was new. *)
Definition bts_insert {K} `{RustOrd K} (k : K) (s : BTreeSet K) : bool * BTreeSet K :=
  (negb (bt_contains k s), bt_insert k tt s).
Definition bts_collect {K} `{RustOrd K} (l : list K) : BTreeSet K :=
  bt_collect (map (fun k => (k, tt)) l).

Section Laws.
Context {K V : Type} `{L : RustOrdLaws K}.
Implicit Types m : BTreeMap K V.

Lemma bt_get_insert_eq k (v : V) m : bt_get k (bt_insert k v m) = Some v.
Proof.
  induction m as [|[k' v'] m IH]; simpl; [now rewrite cmp_refl|].
  destruct (cmp k k') eqn:E; simpl; rewrite ?cmp_refl, ?E; auto.
Qed.
Lemma bt_get_insert_ne k k' (v : V) m : k <> k' -> bt_get k (bt_insert k' v m) = bt_get k m.
Proof.
  intros Hne. assert (cmp k k' <> Eq) by now rewrite cmp_eq.
  induction m as [|[k0 v0] m IH]; simpl; [now destruct (cmp k k')|].
  destruct (cmp k' k0) eqn:E; simpl.
  - apply cmp_eq in E as ->. now destruct (cmp k k0).
  - now destruct (cmp k k').
  - now rewrite IH.
Qed.
Lemma bt_get_remove_eq k m : bt_get k (bt_remove k m) = None.
Proof.
  induction m as [|[k' v'] m IH]; simpl; [reflexivity|].
  destruct (cmp k k') eqn:E; simpl; rewrite ?E; auto.
Qed.
Lemma bt_get_remove_ne k k' m : k <> k' -> bt_get k (bt_remove k' m) = bt_get k m.
Proof.
  intros Hne. induction m as [|[k0 v0] m IH]; simpl; [reflexivity|].
  destruct (cmp k' k0) eqn:E; simpl; rewrite IH; auto.
  apply cmp_eq in E as ->. destruct (cmp k k0) eqn:E; auto. now apply cmp_eq in E.
Qed.

Lemma bt_get_In k (v : V) m : bt_get k m = Some v -> In (k, v) m.
Proof.
  induction m as [|[k' v'] m IH]; simpl; [discriminate|].
  destruct (cmp k k') eqn:E; auto. apply cmp_eq in E as ->. intros [= ->]. now left.
Qed.
Lemma bt_get_None k m : bt_get k m = None <-> ~ In k (bt_keys m).
Proof.
  induction m as [|[k' v'] m IH]; simpl; [tauto|].
  destruct (cmp k k') eqn:E.
  - apply cmp_eq in E as ->. split; [discriminate|tauto].
  - rewrite IH. split; intros H1; [intros [->|?]; [now rewrite cmp_refl in E|tauto]|tauto].
  - rewrite IH. split; intros H1; [intros [->|?]; [now rewrite cmp_refl in E|tauto]|tauto].
Qed.

Lemma bt_sorted_cons e m : bt_sorted (e :: m) <-> bt_sorted m /\ Forall (bt_lt e) m.
Proof. split; [inversion 1; auto|intros []; now constructor]. Qed.
Lemma bt_get_below k (v : V) m : Forall (bt_lt (k, v)) m -> bt_get k m = None.
Proof.
  intros H. apply bt_get_None. intros Hin. apply in_map_iff in Hin as ([k' v'] & Hk & Hin).
  simpl in Hk. subst k'. rewrite List.Forall_forall in H. apply H in Hin. unfold bt_lt in Hin.
  simpl in Hin. now rewrite cmp_refl in Hin.
Qed.

Lemma In_bt_get k (v : V) m : bt_sorted m -> In (k, v) m -> bt_get k m = Some v.
Proof.
  intros Hs. induction Hs as [|[k' v'] m Hs IH Hlt]; simpl; [tauto|].
  intros [[= -> ->]|Hin]; [now rewrite cmp_refl|].
  rewrite List.Forall_forall in Hlt. pose proof (Hlt _ Hin) as E. unfold bt_lt in E. simpl in E.
  rewrite (cmp_antisym k' k), E. simpl. auto.
Qed.

Lemma Forall_insert_lt (e : K * V) k (v : V) m :
  cmp e.1 k = Lt -> Forall (bt_lt e) m -> Forall (bt_lt e) (bt_insert k v m).
Proof.
  intros He. induction 1 as [|[k' v'] m Hlt Hm IH]; simpl; [repeat constructor; exact He|].
  destruct (cmp k k'); repeat constructor; auto.
Qed.
Lemma bt_insert_sorted k (v : V) m : bt_sorted m -> bt_sorted (bt_insert k v m).
Proof.
  unfold bt_sorted. induction 1 as [|[k' v'] m Hs IH Hlt]; simpl; [repeat constructor|].
  destruct (cmp k k') eqn:E.
  - apply cmp_eq in E as ->. now constructor.
  - repeat constructor; auto. eapply List.Forall_impl; [|exact Hlt].
    intros [k2 v2]. unfold bt_lt. simpl. now apply cmp_lt_trans.
  - constructor; [exact IH|]. apply Forall_insert_lt; auto. simpl. now apply cmp_gt_lt.
Qed.
Lemma Forall_list_filter {A} (P : A -> Prop) (f : A -> bool) l :
  Forall P l -> Forall P (List.filter f l).
Proof. induction 1; simpl; [constructor|]. destruct (f x); auto. Qed.
Lemma bt_remove_sorted k m : bt_sorted m -> bt_sorted (bt_remove k m).
Proof.
  unfold bt_sorted, bt_remove. induction 1 as [|e m Hs IH Hlt]; simpl; [constructor|].
  destruct (cmp k e.1); auto; constructor; auto using Forall_list_filter.
Qed.
Lemma bt_collect_sorted (l : list (K * V)) : bt_sorted (bt_collect l).
Proof.
  unfold bt_collect. assert (bt_sorted (@nil (K * V))) as H by constructor. revert H.
  generalize (@nil (K * V)). induction l as [|e l IH]; intros m Hm; simpl; auto.
  apply IH. now apply bt_insert_sorted.
Qed.

(** A sorted map is determined by its lookups. *)
Lemma bt_ext m m' : bt_sorted m -> bt_sorted m' ->
  (forall k, bt_get k m = bt_get k m') -> m = m'.
Proof.
  intros Hs. revert m'. induction Hs as [|[k v] m Hs IH Hlt]; intros m' Hs' Hget.
  - destruct m' as [|[k' v'] m']; [reflexivity|]. specialize (Hget k'). simpl in Hget.
    now rewrite cmp_refl in Hget.
  - destruct m' as [|[k' v'] m'].
    { specialize (Hget k). simpl in Hget. now rewrite cmp_refl in Hget. }
    apply bt_sorted_cons in Hs' as [Hs' Hlt'].
    assert (k = k') as ->.
    { pose proof (Hget k) as H1. pose proof (Hget k') as H2. simpl in H1, H2.
      rewrite cmp_refl in H1, H2. rewrite (cmp_antisym k k') in H2.
      destruct (cmp k k') eqn:E; [now apply cmp_eq|..]; exfalso; simpl in H2.
      - symmetry in H1. apply bt_get_In in H1. rewrite List.Forall_forall in Hlt'.
        apply Hlt' in H1. unfold bt_lt in H1. simpl in H1.
        apply (cmp_lt_irrefl k). now apply cmp_lt_trans with k'.
      - apply bt_get_In in H2. rewrite List.Forall_forall in Hlt. apply Hlt in H2.
        unfold bt_lt in H2. simpl in H2. apply cmp_gt_lt in E.
        apply (cmp_lt_irrefl k). now apply cmp_lt_trans with k'. }
    pose proof (Hget k') as H1. simpl in H1. rewrite cmp_refl in H1. injection H1 as ->.
    f_equal. apply IH; [exact Hs'|]. intros k. specialize (Hget k). simpl in Hget.
    destruct (cmp k k') eqn:E; auto. apply cmp_eq in E as ->.
    now rewrite (bt_get_below k' v' m Hlt), (bt_get_below k' v' m' Hlt').
Qed.

Lemma bt_get_fold l m k (v : V) :
  List.NoDup (map fst l) ->
  bt_get k (fold_left (fun m e => bt_insert e.1 e.2 m) l m) = Some v <->
  In (k, v) l \/ (~ In k (map fst l) /\ bt_get k m = Some v).
Proof.
  revert m. induction l as [|[k' v'] l IH]; intros m Hnd; simpl; [tauto|].
  inversion Hnd as [|? ? Hni Hnd']; subst. rewrite IH by exact Hnd'.
  destruct (cmp k k') eqn:E; [apply cmp_eq in E as ->; rewrite bt_get_insert_eq|
    rewrite bt_get_insert_ne by (intros ->; now rewrite cmp_refl in E)..].
  - split; [intros [H1|[_ [= ->]]]; auto|]. intros [[[= ->]|H1]|[H1 _]]; auto; tauto.
  - assert (k' <> k) by (intros ->; now rewrite cmp_refl in E).
    split; [intros [|[]]; tauto|]. intros [[[= -> ->]|]|[]]; tauto.
  - assert (k' <> k) by (intros ->; now rewrite cmp_refl in E).
    split; [intros [|[]]; tauto|]. intros [[[= -> ->]|]|[]]; tauto.
Qed.
Lemma bt_get_collect l k (v : V) :
  List.NoDup (map fst l) -> bt_get k (bt_collect l) = Some v <-> In (k, v) l.
Proof. intros Hnd. unfold bt_collect. rewrite bt_get_fold by exact Hnd. simpl. intuition discriminate. Qed.
Lemma bt_sorted_NoDup m : bt_sorted m -> List.NoDup (map fst m).
Proof.
  induction 1 as [|e m Hs IH Hlt]; simpl; constructor; auto.
  intros (e' & He & Hin)%in_map_iff. rewrite List.Forall_forall in Hlt. apply Hlt in Hin.
  unfold bt_lt in Hin. rewrite He in Hin. now apply cmp_lt_irrefl in Hin.
Qed.
Lemma bt_collect_id m : bt_sorted m -> bt_collect m = m.
Proof.
  intros Hs. apply bt_ext; [apply bt_collect_sorted|exact Hs|]. intros k.
  apply option_eq. intros v. rewrite bt_get_collect by now apply bt_sorted_NoDup.
  split; [now apply In_bt_get|apply bt_get_In].
Qed.
End Laws.

Create HintDb btree.

Lemma bt_insert_snoc {K V} `{RustOrdLaws K} (k : K) (v : V) (m : BTreeMap K V) :
  (forall k', In k' (bt_keys m) -> cmp k' k = Lt) -> bt_insert k v m = m ++ [(k, v)].
Proof.
  induction m as [|[k' v'] m IH]; intros Hk; simpl; [reflexivity|].
  rewrite (proj2 (cmp_gt_lt k k')) by (apply Hk; now left). f_equal. apply IH. intros; apply Hk. now right.
Qed.

Lemma bt_keys_insert {K V} `{RustOrdLaws K} (k k' : K) (v : V) (m : BTreeMap K V) :
  In k' (bt_keys (bt_insert k v m)) <-> k' = k \/ In k' (bt_keys m).
Proof.
  induction m as [|[k0 v0] m IH]; simpl; [intuition congruence|].
  destruct (cmp k k0) eqn:E; simpl; [apply cmp_eq in E as ->| |fold (bt_keys (bt_insert k v m)); rewrite IH];
    intuition congruence.
Qed.
Lemma bt_contains_In {K V} `{RustOrdLaws K} (k : K) (m : BTreeMap K V) :
  bt_contains k m = true <-> In k (bt_keys m).
Proof.
  unfold bt_contains. pose proof (bt_get_None k m) as Hn.
  destruct (bt_get k m) as [v|] eqn:E; [|intuition discriminate].
  split; [intros _|reflexivity]. apply bt_get_In in E. now apply (in_map fst) in E.
Qed.
Lemma bt_keys_remove {K V} `{RustOrdLaws K} (k k' : K) (m : BTreeMap K V) :
  In k' (bt_keys (bt_remove k m)) <-> k' <> k /\ In k' (bt_keys m).
Proof.
  unfold bt_keys, bt_remove. rewrite !in_map_iff. split.
  - intros ([a b] & <- & [Hin Hc]%filter_In). simpl in *. split; [|now exists (a, b)].
    intros ->. now rewrite cmp_refl in Hc.
  - intros (Hne & [a b] & <- & Hin). simpl in *. exists (a, b). split; [reflexivity|]. apply filter_In.
    split; [exact Hin|]. simpl. destruct (cmp k a) eqn:E; auto. apply cmp_eq in E. congruence.
Qed.

Lemma bts_collect_keys {K} `{RustOrdLaws K} (l : list K) k : In k (bt_keys (bts_collect l)) <-> In k l.
Proof.
  unfold bts_collect, bt_collect.
  assert (forall m : BTreeSet K, In k (bt_keys (fold_left (fun m e => bt_insert e.1 e.2 m)
    (map (fun k => (k, tt)) l) m)) <-> In k l \/ In k (bt_keys m)) as Hg; [|rewrite Hg; simpl; tauto].
  induction l as [|x l IH]; intros m; simpl; [tauto|]. rewrite IH, bt_keys_insert. intuition congruence.
Qed.

#[export] Hint Extern 1 (bt_sorted (bt_insert _ _ _)) => apply bt_insert_sorted : btree.
#[export] Hint Extern 1 (bt_sorted (bt_remove _ _)) => apply bt_remove_sorted : btree.
#[export] Hint Extern 1 (bt_sorted (bt_collect _)) => apply bt_collect_sorted : btree.
