(* ===== verification/Head.v ===== *)
(** * The head record ([crates/core/src/head.rs])

    The per-volume assignment record that the object store's compare-and-swap
    serialises: holder, fence, newest manifest, passive stash assignment and
    the bounded history of retired stashes. *)

From S2P Require Import Prelude Format Types.

Definition MAGIC_HEAD : Z := magic 66 72 68 49. (* BHD1 *)
Definition MAX_RETIRED_STASHES : Z := 8.

Record ManifestPtr := {
  mp_fence : Z;
  mp_journal_seq : Z;
  mp_seq : Z;
  mp_capture_seq : Z;
  mp_checksum : Z }.

Record StashAssignment := {
  sa_assignment_epoch : Z;
  sa_active_peer : Z;
  sa_active_assignment_epoch : Z;
  sa_transition_peer : option Z;
  sa_membership_epoch : Z }.

Record RetiredStash := {
  rs_peer : Z;
  rs_assignment_epoch : Z;
  rs_through : ReplicaCommitInfo }.

Record HeadRecord := {
  head_volume : Z;
  head_holder : Z;
  head_fence : Z;
  head_manifest : option ManifestPtr;
  head_stash : option StashAssignment;
  head_retired_stashes : list RetiredStash }.

#[export] Instance ManifestPtr_eq_dec : EqDecision ManifestPtr.
Proof. solve_decision. Defined.
#[export] Instance StashAssignment_eq_dec : EqDecision StashAssignment.
Proof. solve_decision. Defined.
#[export] Instance RetiredStash_eq_dec : EqDecision RetiredStash.
Proof. solve_decision. Defined.
#[export] Instance HeadRecord_eq_dec : EqDecision HeadRecord.
Proof. solve_decision. Defined.

Definition encode_identity (identity : Z) (e : Enc) : Enc := e |> Enc_u32 identity.
Definition decode_identity : dec Z := Dec_u32.

(** The parts of [HeadRecord::encode] and [HeadRecord::decode], one pair per
    record. *)
Definition ManifestPtr_encode_into (ptr : ManifestPtr) (e : Enc) : Enc :=
  e |> Enc_u64 (mp_fence ptr) |> Enc_u64 (mp_journal_seq ptr)
    |> Enc_u64 (mp_seq ptr) |> Enc_u64 (mp_capture_seq ptr)
    |> Enc_u64 (mp_checksum ptr).
Definition ManifestPtr_decode_from : dec ManifestPtr :=
  let* fence := Dec_u64 in
  let* journal_seq := Dec_u64 in
  let* seq := Dec_u64 in
  let* capture_seq := Dec_u64 in
  let* checksum := Dec_u64 in
  dec_ret {| mp_fence := fence; mp_journal_seq := journal_seq; mp_seq := seq;
             mp_capture_seq := capture_seq; mp_checksum := checksum |}.

Definition StashAssignment_encode_into (stash : StashAssignment) (e : Enc) : Enc :=
  e |> Enc_u64 (sa_assignment_epoch stash) |> encode_identity (sa_active_peer stash)
    |> Enc_u64 (sa_active_assignment_epoch stash)
    |> Enc_option encode_identity (sa_transition_peer stash)
    |> Enc_u64 (sa_membership_epoch stash).
Definition StashAssignment_decode_from : dec StashAssignment :=
  let* assignment_epoch := Dec_u64 in
  let* active_peer := decode_identity in
  let* active_assignment_epoch := Dec_u64 in
  let* transition_peer := Dec_option decode_identity in
  let* membership_epoch := Dec_u64 in
  if bool_decide (transition_peer = Some active_peer) then dec_fail else
  if bool_decide (transition_peer = None) && negb (active_assignment_epoch =? assignment_epoch)
  then dec_fail else
  dec_ret {| sa_assignment_epoch := assignment_epoch; sa_active_peer := active_peer;
             sa_active_assignment_epoch := active_assignment_epoch;
             sa_transition_peer := transition_peer;
             sa_membership_epoch := membership_epoch |}.

Definition RetiredStash_encode_into (retired : RetiredStash) (e : Enc) : Enc :=
  e |> encode_identity (rs_peer retired) |> Enc_u64 (rs_assignment_epoch retired)
    |> Enc_u64 (rci_writer_fence (rs_through retired))
    |> Enc_u64 (rci_seq (rs_through retired))
    |> Enc_u64 (rci_sync_covered_through (rs_through retired)).
Definition RetiredStash_decode_from : dec RetiredStash :=
  let* peer := decode_identity in
  let* assignment_epoch := Dec_u64 in
  let* writer_fence := Dec_u64 in
  let* seq := Dec_u64 in
  let* sync_covered_through := Dec_u64 in
  dec_ret {| rs_peer := peer; rs_assignment_epoch := assignment_epoch;
             rs_through := {| rci_writer_fence := writer_fence; rci_seq := seq;
                              rci_sync_covered_through := sync_covered_through |} |}.

Definition HeadRecord_payload (self : HeadRecord) : bytes :=
  Enc_new
    |> Enc_u16 4
    |> Enc_u64 (head_volume self)
    |> encode_identity (head_holder self)
    |> Enc_u64 (head_fence self)
    |> Enc_option ManifestPtr_encode_into (head_manifest self)
    |> Enc_option StashAssignment_encode_into (head_stash self)
    |> Enc_u8 (len (head_retired_stashes self))
    |> Enc_each RetiredStash_encode_into (head_retired_stashes self)
    |> Enc_finish.

Definition HeadRecord_encode `{Crc} {E} (self : HeadRecord) : outcome E bytes :=
  assert! len (head_retired_stashes self) <=? MAX_RETIRED_STASHES in
  seal_frame MAGIC_HEAD (HeadRecord_payload self).

Definition HeadRecord_decode_payload (volume : Z) : dec HeadRecord :=
  let* version := Dec_u16 in
  guard* version =? 4 in
  let* v := Dec_u64 in
  guard* v =? volume in
  let* holder := decode_identity in
  let* fence := Dec_u64 in
  let* manifest := Dec_option ManifestPtr_decode_from in
  let* stash := Dec_option StashAssignment_decode_from in
  let* count := Dec_u8 in
  if MAX_RETIRED_STASHES <? count then dec_fail else
  let* retired_stashes := dec_repeat (Z.to_nat count) RetiredStash_decode_from in
  let* _ := Dec_finish in
  dec_ret {| head_volume := volume; head_holder := holder; head_fence := fence;
             head_manifest := manifest; head_stash := stash;
             head_retired_stashes := retired_stashes |}.

Definition HeadRecord_decode `{Crc} (volume : Z) (bs : bytes)
  : outcome DecodeError HeadRecord :=
  let? payload := open_frame MAGIC_HEAD bs in
  Dec_run (HeadRecord_decode_payload volume) payload.

(** ** Well-formed records: field widths and the assignment rules of [decode] *)
Definition ManifestPtr_ok (p : ManifestPtr) : Prop :=
  fits W64 (mp_fence p) /\ fits W64 (mp_journal_seq p) /\ fits W64 (mp_seq p)
  /\ fits W64 (mp_capture_seq p) /\ fits W64 (mp_checksum p).
Definition StashAssignment_ok (s : StashAssignment) : Prop :=
  fits W64 (sa_assignment_epoch s) /\ fits W32 (sa_active_peer s)
  /\ fits W64 (sa_active_assignment_epoch s)
  /\ option_ok (fits W32) (sa_transition_peer s)
  /\ fits W64 (sa_membership_epoch s)
  /\ sa_transition_peer s <> Some (sa_active_peer s)
  /\ (sa_transition_peer s = None ->
      sa_active_assignment_epoch s = sa_assignment_epoch s).
Definition RetiredStash_ok (r : RetiredStash) : Prop :=
  fits W32 (rs_peer r) /\ fits W64 (rs_assignment_epoch r)
  /\ ReplicaCommitInfo_ok (rs_through r).
Definition HeadRecord_ok (h : HeadRecord) : Prop :=
  fits W64 (head_volume h) /\ fits W32 (head_holder h) /\ fits W64 (head_fence h)
  /\ option_ok ManifestPtr_ok (head_manifest h)
  /\ option_ok StashAssignment_ok (head_stash h)
  /\ len (head_retired_stashes h) <= MAX_RETIRED_STASHES
  /\ Forall RetiredStash_ok (head_retired_stashes h).

Definition ManifestPtr_bytes p := ManifestPtr_encode_into p [].
Definition StashAssignment_bytes s := StashAssignment_encode_into s [].
Definition RetiredStash_bytes r := RetiredStash_encode_into r [].

(** ** The parts are exact codecs *)
Lemma encode_identity_appends x : appends (encode_identity x).
Proof. intros e. reflexivity. Qed.
Lemma ManifestPtr_appends p : appends (ManifestPtr_encode_into p).
Proof. intros e. unfold ManifestPtr_encode_into. enc_norm. reflexivity. Qed.
Lemma RetiredStash_appends r : appends (RetiredStash_encode_into r).
Proof. intros e. unfold RetiredStash_encode_into, encode_identity. enc_norm. reflexivity. Qed.

Lemma encode_identity_codec : Codec decode_identity (to_le 4) (fits W32).
Proof. exact codec_u32. Qed.
#[export] Existing Instance encode_identity_codec.
Lemma StashAssignment_appends s : appends (StashAssignment_encode_into s).
Proof.
  intros e. unfold StashAssignment_encode_into, encode_identity.
  rewrite !Enc_option_app by apply encode_identity_appends. enc_norm. reflexivity.
Qed.

#[export] Instance ManifestPtr_codec :
  Codec ManifestPtr_decode_from ManifestPtr_bytes ManifestPtr_ok.
Proof.
  solve_codec ltac:(fun _ => unfold ManifestPtr_bytes, ManifestPtr_encode_into,
    ManifestPtr_decode_from, ManifestPtr_ok in * ).
Qed.

#[export] Instance RetiredStash_codec :
  Codec RetiredStash_decode_from RetiredStash_bytes RetiredStash_ok.
Proof.
  solve_codec ltac:(fun _ => unfold RetiredStash_bytes, RetiredStash_encode_into,
    RetiredStash_decode_from, RetiredStash_ok, ReplicaCommitInfo_ok,
    encode_identity, decode_identity in *;
    repeat match goal with t : ReplicaCommitInfo |- _ => destruct t end).
Qed.

#[export] Instance StashAssignment_codec :
  Codec StashAssignment_decode_from StashAssignment_bytes StashAssignment_ok.
Proof.
  solve_codec ltac:(fun _ => unfold StashAssignment_bytes, StashAssignment_encode_into,
    StashAssignment_decode_from, StashAssignment_ok, encode_identity in *;
    rewrite ?Enc_option_app in * by (intros ? ?; reflexivity)).
  - now apply bool_decide_eq_false.
  - apply andb_false_iff. destruct (decide (sa_transition_peer0 = None)) as [->|]; [right|left].
    + apply negb_false_iff, Z.eqb_eq; auto.
    + now apply bool_decide_eq_false.
  - now apply bool_decide_eq_false in Hg.
  - intros ->. simpl in Hg0. now apply negb_false_iff, Z.eqb_eq in Hg0.
Qed.

(** ** The record *)
Lemma HeadRecord_payload_bytes h :
  HeadRecord_payload h =
    to_le 2 4 ++ to_le 8 (head_volume h) ++ to_le 4 (head_holder h)
    ++ to_le 8 (head_fence h)
    ++ option_bytes ManifestPtr_bytes (head_manifest h)
    ++ option_bytes StashAssignment_bytes (head_stash h)
    ++ [len (head_retired_stashes h)]
    ++ concat (map RetiredStash_bytes (head_retired_stashes h)).
Proof.
  unfold HeadRecord_payload, encode_identity.
  rewrite Enc_each_app by apply RetiredStash_appends.
  rewrite !Enc_option_app by (apply ManifestPtr_appends || apply StashAssignment_appends).
  enc_norm. reflexivity.
Qed.

Lemma HeadRecord_payload_codec volume : fits W64 volume ->
  WholeCodec (HeadRecord_decode_payload volume) HeadRecord_payload
    (fun h => head_volume h = volume /\ HeadRecord_ok h).
Proof.
  intros Hv. split.
  - intros [v holder fence m s rs] [Hvol (H1&H2&H3&H4&H5&H6&H7)].
    rewrite HeadRecord_payload_bytes. unfold HeadRecord_decode_payload; simpl in *. subst v.
    pose proof (len_nonneg rs). unfold MAX_RETIRED_STASHES in *.
    assert (fits W8 (len rs)) by (unfold fits; lia).
    pose proof (len_to_nat rs).
    assert (fits W16 4) by (unfold fits; lia).
    reads_tac.
  - intros bs h Hb H. unfold HeadRecord_decode_payload in H. dec_inv.
    rewrite HeadRecord_payload_bytes; simpl. destruct P6 as [Hn Hall].
    apply Z.eqb_eq in Hg, Hg0. subst. unfold MAX_RETIRED_STASHES, HeadRecord_ok, fits in *. simpl.
    assert (len x7 = x6) as Hlen by (unfold len; lia). simpl. rewrite Hlen.
    repeat split; auto; unfold MAX_RETIRED_STASHES; lia.
  - unfold HeadRecord_decode_payload. total.
  - intros h [_ (H1&H2&H3&H4&H5&H6&H7)]. rewrite HeadRecord_payload_bytes.
    unfold MAX_RETIRED_STASHES in *. pose proof (len_nonneg (head_retired_stashes h)).
    rewrite List.Forall_forall in H7.
    repeat apply all_bytes_app_2; auto with bytes.
    + apply all_bytes_option. intros p Hp. rewrite Hp in H4. now apply codec_bytes.
    + apply all_bytes_option. intros p Hp. rewrite Hp in H5. now apply codec_bytes.
    + apply all_bytes_concat. intros r Hr. now apply codec_bytes, H7.
Qed.

Lemma HeadRecord_payload_short h :
  len (head_retired_stashes h) <= MAX_RETIRED_STASHES -> len (HeadRecord_payload h) <= 402.
Proof.
  unfold MAX_RETIRED_STASHES. intros Hr. rewrite HeadRecord_payload_bytes.
  assert (len (concat (map RetiredStash_bytes (head_retired_stashes h)))
          = 36 * len (head_retired_stashes h)) as Hc.
  { induction (head_retired_stashes h) as [|r rs IH]; [reflexivity|]. simpl.
    autorewrite with len in *. rewrite IH by lia. unfold RetiredStash_bytes,
      RetiredStash_encode_into, encode_identity. enc_norm. autorewrite with len. lia. }
  assert (len (option_bytes ManifestPtr_bytes (head_manifest h)) <= 41) as Hm.
  { destruct (head_manifest h); simpl; [|discriminate]. unfold ManifestPtr_bytes,
      ManifestPtr_encode_into. enc_norm. autorewrite with len. lia. }
  assert (len (option_bytes StashAssignment_bytes (head_stash h)) <= 34) as Hs.
  { destruct (head_stash h) as [s|]; simpl; [|discriminate]. unfold StashAssignment_bytes,
      StashAssignment_encode_into, encode_identity. destruct (sa_transition_peer s); simpl;
      enc_norm; autorewrite with len; lia. }
  autorewrite with len. lia.
Qed.

Section HeadFormat.
Context `{CL : CrcLaws}.

Lemma HeadRecord_format volume : fits W64 volume ->
  ExactFormat (E := DecodeError) HeadRecord_encode (HeadRecord_decode volume)
    (fun h => head_volume h = volume /\ HeadRecord_ok h).
Proof using CL.
  intros Hv. pose proof (HeadRecord_payload_codec volume Hv) as WC.
  destruct (framed_exact (E := DecodeError) MAGIC_HEAD _ _ _ WC ltac:(magic_tac))
    as [Hw Hc Ht].
  assert (forall h, HeadRecord_ok h ->
    HeadRecord_encode (E := DecodeError) h = seal_frame MAGIC_HEAD (HeadRecord_payload h)) as He.
  { intros h (_&_&_&_&_&Hl&_). unfold HeadRecord_encode.
    now rewrite (proj2 (Z.leb_le _ _) Hl). }
  split.
  - intros h [Hvol Hok]. rewrite He by exact Hok. apply Hw. split; [auto|].
    assert (len (HeadRecord_payload h) <= 402) by apply HeadRecord_payload_short, Hok. lia.
  - intros bs h Hb Hd. destruct (Hc bs h Hb Hd) as [[[Hvol Hok] _] Hs].
    rewrite He by exact Hok. auto.
  - exact Ht.
Qed.

(** C28. The head record is an exact format: every well-formed record is
    written and read back for its volume, a byte string that decodes is the
    encoding of the record it decodes to (so a checksum or a compare-and-swap
    over the bytes binds the record), the decoded record obeys the assignment
    rules, and no input makes the decoder panic. *)
Theorem HeadRecord_exact volume : fits W64 volume ->
  ExactFormat (E := DecodeError) HeadRecord_encode (HeadRecord_decode volume)
    (fun h => head_volume h = volume /\ HeadRecord_ok h).
Proof using CL. apply HeadRecord_format. Qed.
End HeadFormat.
