(* ===== verification/Blx.v ===== *)
(** * BLX files ([crates/core/src/blx.rs]): keys, frames and whole files

    A BLX file is a header frame, one frame per entry in ascending key order,
    a footer frame that indexes the entries and a fixed-size trailer that
    locates the footer. Compression comes from the crate [lz4_flex]: it is the
    class [Lz4], and what the code relies on is [Lz4Laws]. *)

From S2P Require Import Prelude Format Types OrdMap.

(** ** Compression *)
Class Lz4 := {
  lz4_compress : bytes -> bytes;
  lz4_decompress : bytes -> Z -> option bytes;
  lz4_maximum_output_size : Z -> Z }.

(** The block functions of [lz4_flex]: decompression with the exact raw length
    inverts compression, the output stays within [get_maximum_output_size],
    and that bound is a small multiple of the input. *)
Class Lz4Laws (L : Lz4) : Prop := {
  lz4_round_trip : forall b, all_bytes b -> lz4_decompress (lz4_compress b) (len b) = Some b;
  lz4_compress_bytes : forall b, all_bytes b -> all_bytes (lz4_compress b);
  lz4_compress_bound : forall b, len (lz4_compress b) <= lz4_maximum_output_size (len b);
  lz4_maximum_bound : forall n, 0 <= n -> 0 <= lz4_maximum_output_size n <= 2 * n + 64 }.

(** ** Constants *)
Definition MAGIC_HEADER : Z := magic 66 76 88 72. (* BLXH *)
Definition MAGIC_ENTRY : Z := magic 66 76 88 69. (* BLXE *)
Definition MAGIC_FOOTER : Z := magic 66 76 88 70. (* BLXF *)
Definition MAGIC_TRAILER : Z := magic 66 76 88 84. (* BLXT *)
Definition TARGET_FILE_BYTES : Z := 32 * 1024 * 1024.
Definition MAX_FILE_BYTES : Z := 64 * 1024 * 1024.
Definition MAX_OVERLAPPING_FILES : Z := 8.
Definition TRAILER_BYTES : Z := 16.
Definition COMPACTION_OBJECT_IDS_PER_BATCH : Z := u32_MAX + 1.
Definition HEADER_VERSION : Z := 1.
Definition HEADER_PAYLOAD_BYTES : Z := 2 + 4 + 1 + 8 * 6 + 4 * 3 + 8 * 2 + 8 * 2.
Definition HEADER_BYTES : Z := FRAME_HEADER + HEADER_PAYLOAD_BYTES.
Definition FOOTER_PREFIX_BYTES : Z := 2 + 4.
Definition FOOTER_ENTRY_BYTES : Z := 8 + 4 + 4 + 8 + 1 + 7 + 8.
Definition NAMESPACES_PER_FILE_PARTITION : Z := 8.

(** Reserve one object-id range per compaction slot. *)
Definition compaction_object_id_start (slot : Z) : option Z :=
  ranges ← checked_add W64 slot 1;
  end_ ← checked_mul W64 ranges COMPACTION_OBJECT_IDS_PER_BATCH;
  start ← checked_sub u64_MAX end_;
  checked_add W64 start 1.

(** ** Keys *)
Inductive NamespaceKind := Namespace_Volume | Namespace_ImportedBase.
Inductive BlockSpace := Space_Memory | Space_Data | Space_Vmm.
Inductive EntryKind := EntryKind_Data | EntryKind_Tombstone.
Record BlockKey := { bk_space : BlockSpace; bk_block : Z }.

#[export] Instance NamespaceKind_eq_dec : EqDecision NamespaceKind.
Proof. solve_decision. Defined.
#[export] Instance BlockSpace_eq_dec : EqDecision BlockSpace.
Proof. solve_decision. Defined.
#[export] Instance EntryKind_eq_dec : EqDecision EntryKind.
Proof. solve_decision. Defined.
#[export] Instance BlockKey_eq_dec : EqDecision BlockKey.
Proof. solve_decision. Defined.

Definition NamespaceKind_u8 (k : NamespaceKind) : Z :=
  match k with Namespace_Volume => 0 | Namespace_ImportedBase => 1 end.
Definition BlockSpace_u8 (s : BlockSpace) : Z :=
  match s with Space_Memory => 0 | Space_Data => 1 | Space_Vmm => 2 end.
Definition EntryKind_u8 (k : EntryKind) : Z :=
  match k with EntryKind_Data => 0 | EntryKind_Tombstone => 1 end.

Definition NamespaceKind_decode (value : Z) : outcome DecodeError NamespaceKind :=
  if value =? 0 then Ok Namespace_Volume
  else if value =? 1 then Ok Namespace_ImportedBase
  else Err DecodeErr.
Definition BlockSpace_decode (value : Z) : outcome DecodeError BlockSpace :=
  if value =? 0 then Ok Space_Memory
  else if value =? 1 then Ok Space_Data
  else if value =? 2 then Ok Space_Vmm
  else Err DecodeErr.
Definition EntryKind_decode (value : Z) : outcome DecodeError EntryKind :=
  if value =? 0 then Ok EntryKind_Data
  else if value =? 1 then Ok EntryKind_Tombstone
  else Err DecodeErr.

Definition BlockKey_encode (self : BlockKey) (e : Enc) : Enc :=
  e |> Enc_u8 (BlockSpace_u8 (bk_space self)) |> Enc_u8 0 |> Enc_u16 0
    |> Enc_u32 (bk_block self).
Definition BlockKey_decode : dec BlockKey :=
  let* s := Dec_u8 in
  let* space := dec_lift (BlockSpace_decode s) in
  let* a := Dec_u8 in
  if negb (a =? 0) then dec_fail else
  let* b := Dec_u16 in
  if negb (b =? 0) then dec_fail else
  let* block := Dec_u32 in
  dec_ret {| bk_space := space; bk_block := block |}.

(** The file order of keys: partitions of one file's worth of blocks first,
    then the namespace, then the block within the partition. *)
Definition blocks_per_file_partition `{PageSize} : Z :=
  Z.max (TARGET_FILE_BYTES / page_size / NAMESPACES_PER_FILE_PARTITION) 1.
Definition BlockKey_namespace_rank (self : BlockKey) : Z :=
  match bk_space self with Space_Memory => 0 | Space_Vmm => 1 | Space_Data => 2 end.
Definition BlockKey_file_partition `{PageSize} (self : BlockKey) : Z * Z :=
  (bk_block self / blocks_per_file_partition,
   BlockKey_namespace_rank self / NAMESPACES_PER_FILE_PARTITION).
Definition BlockKey_rank `{PageSize} (self : BlockKey) : Z * (Z * (Z * Z)) :=
  let blocks := blocks_per_file_partition in
  (bk_block self / blocks,
   (BlockKey_namespace_rank self / NAMESPACES_PER_FILE_PARTITION,
    (BlockKey_namespace_rank self, bk_block self mod blocks))).
#[export] Instance BlockKey_cmp `{PageSize} : RustOrd BlockKey :=
  fun self other => cmp (BlockKey_rank self) (BlockKey_rank other).

Definition BlockKey_from_page (kind : VolumeKind) (page : PageId) : BlockKey :=
  match kind with
  | VolumeKind_Memory => {| bk_space := Space_Memory; bk_block := pid_page page |}
  | VolumeKind_Data => {| bk_space := Space_Data; bk_block := pid_page page |}
  end.
Definition BlockKey_to_page (self : BlockKey) (kind : VolumeKind) (volume : Z)
  : option PageId :=
  match kind, bk_space self with
  | VolumeKind_Memory, Space_Memory | VolumeKind_Data, Space_Data =>
      Some {| pid_volume := volume; pid_page := bk_block self |}
  | _, _ => None
  end.
Definition BlockKey_to_page_id (self : BlockKey) (volume : Z) : option PageId :=
  match bk_space self with
  | Space_Memory | Space_Data => Some {| pid_volume := volume; pid_page := bk_block self |}
  | Space_Vmm => None
  end.

(** ** Records *)
Record BlxHeader := {
  bh_block_size : Z;
  bh_namespace_kind : NamespaceKind;
  bh_namespace_id : Z;
  bh_writer_fence : Z;
  bh_object_id : Z;
  bh_min_seq : Z;
  bh_max_seq : Z;
  bh_batch_id : Z;
  bh_chunk_index : Z;
  bh_chunk_count : Z;
  bh_entry_count : Z;
  bh_first_key : BlockKey;
  bh_last_key : BlockKey;
  bh_pre_state_checksum : Z;
  bh_post_state_checksum : Z }.

Record FooterEntry := {
  fe_key : BlockKey;
  fe_offset : Z;
  fe_length : Z;
  fe_generation : Z;
  fe_kind : EntryKind;
  fe_value_checksum : Z }.

Record BlxFooter := { bf_entries : list FooterEntry }.

Inductive BlxEntry :=
| Entry_Data (key : BlockKey) (generation : Z) (bytes : bytes)
| Entry_Tombstone (key : BlockKey) (generation : Z).

Definition BlxEntry_key (self : BlxEntry) : BlockKey :=
  match self with Entry_Data key _ _ | Entry_Tombstone key _ => key end.
Definition BlxEntry_generation (self : BlxEntry) : Z :=
  match self with Entry_Data _ generation _ | Entry_Tombstone _ generation => generation end.
Definition BlxEntry_kind (self : BlxEntry) : EntryKind :=
  match self with
  | Entry_Data _ _ _ => EntryKind_Data
  | Entry_Tombstone _ _ => EntryKind_Tombstone
  end.

Record BatchMeta := {
  bm_namespace_kind : NamespaceKind;
  bm_namespace_id : Z;
  bm_writer_fence : Z;
  bm_first_object_id : Z;
  bm_min_seq : Z;
  bm_max_seq : Z;
  bm_batch_id : Z;
  bm_pre_state_checksum : Z;
  bm_post_state_checksum : Z }.

Record BlxObject := {
  bo_header : BlxHeader;
  bo_footer : BlxFooter;
  bo_footer_offset : Z;
  bo_footer_length : Z;
  bo_checksum : Z;
  bo_bytes : bytes }.

(** [entries.binary_search_by_key] on the strictly ascending footer. *)
Definition BlxFooter_find (self : BlxFooter) (key : BlockKey) : option FooterEntry :=
  List.find (fun entry => bool_decide (fe_key entry = key)) (bf_entries self).

(** ** Frames *)
Section Codecs.
Context `{C : Crc} `{L : Lz4} `{P : PageSize}.

Definition BlxHeader_payload (header : BlxHeader) : bytes :=
  Enc_new
    |> Enc_u16 HEADER_VERSION
    |> Enc_u32 (bh_block_size header)
    |> Enc_u8 (NamespaceKind_u8 (bh_namespace_kind header))
    |> Enc_u64 (bh_namespace_id header)
    |> Enc_u64 (bh_writer_fence header)
    |> Enc_u64 (bh_object_id header)
    |> Enc_u64 (bh_min_seq header)
    |> Enc_u64 (bh_max_seq header)
    |> Enc_u64 (bh_batch_id header)
    |> Enc_u32 (bh_chunk_index header)
    |> Enc_u32 (bh_chunk_count header)
    |> Enc_u32 (bh_entry_count header)
    |> BlockKey_encode (bh_first_key header)
    |> BlockKey_encode (bh_last_key header)
    |> Enc_u64 (bh_pre_state_checksum header)
    |> Enc_u64 (bh_post_state_checksum header)
    |> Enc_finish.
Definition encode_header {E} (header : BlxHeader) : outcome E bytes :=
  seal_frame MAGIC_HEADER (BlxHeader_payload header).

Definition BlxHeader_decode_payload : dec BlxHeader :=
  let* version := Dec_u16 in
  if negb (version =? HEADER_VERSION) then dec_fail else
  let* block_size := Dec_u32 in
  let* namespace := Dec_u8 in
  let* namespace_kind := dec_lift (NamespaceKind_decode namespace) in
  let* namespace_id := Dec_u64 in
  let* writer_fence := Dec_u64 in
  let* object_id := Dec_u64 in
  let* min_seq := Dec_u64 in
  let* max_seq := Dec_u64 in
  let* batch_id := Dec_u64 in
  let* chunk_index := Dec_u32 in
  let* chunk_count := Dec_u32 in
  let* entry_count := Dec_u32 in
  let* first_key := BlockKey_decode in
  let* last_key := BlockKey_decode in
  let* pre_state_checksum := Dec_u64 in
  let* post_state_checksum := Dec_u64 in
  let* _ := Dec_finish in
  if negb (block_size =? page_size)
     || (max_seq <? min_seq)
     || (chunk_count =? 0)
     || (chunk_count <=? chunk_index)
     || (entry_count =? 0)
     || cmp_ltb last_key first_key
  then dec_fail else
  dec_ret {| bh_block_size := block_size; bh_namespace_kind := namespace_kind;
             bh_namespace_id := namespace_id; bh_writer_fence := writer_fence;
             bh_object_id := object_id; bh_min_seq := min_seq; bh_max_seq := max_seq;
             bh_batch_id := batch_id; bh_chunk_index := chunk_index;
             bh_chunk_count := chunk_count; bh_entry_count := entry_count;
             bh_first_key := first_key; bh_last_key := last_key;
             bh_pre_state_checksum := pre_state_checksum;
             bh_post_state_checksum := post_state_checksum |}.

Definition BlxHeader_open (bs : bytes) : outcome DecodeError (BlxHeader * Z) :=
  if len bs <? HEADER_BYTES then Err DecodeErr else
  let end_ := HEADER_BYTES in
  let? frame := slice_index bs 0 end_ in
  let? payload := open_frame MAGIC_HEADER frame in
  let? header := Dec_run BlxHeader_decode_payload payload in
  Ok (header, end_).

Definition encode_entry {E} (entry : BlxEntry) : outcome E bytes :=
  let e := Enc_new
    |> Enc_u8 (EntryKind_u8 (BlxEntry_kind entry))
    |> BlockKey_encode (BlxEntry_key entry)
    |> Enc_u64 (BlxEntry_generation entry) in
  match entry with
  | Entry_Data _ _ raw =>
      let compressed := lz4_compress raw in
      assert! len raw <? W32 in
      assert! len compressed <? W32 in
      seal_frame MAGIC_ENTRY
        (e |> Enc_u32 (len raw) |> Enc_u32 (len compressed)
           |> Enc_bytes compressed |> Enc_finish)
  | Entry_Tombstone _ _ => seal_frame MAGIC_ENTRY (e |> Enc_finish)
  end.

Definition BlxEntry_decode_payload : dec BlxEntry :=
  let* k := Dec_u8 in
  let* kind := dec_lift (EntryKind_decode k) in
  let* key := BlockKey_decode in
  let* generation := Dec_u64 in
  let* entry :=
    match kind with
    | EntryKind_Data =>
        let* raw_len := Dec_u32 in
        let* stored_len := Dec_u32 in
        if negb (raw_len =? page_size) then dec_fail else
        let* compressed := Dec_bytes stored_len in
        let* raw := dec_lift (ok_or (lz4_decompress compressed raw_len) DecodeErr) in
        dec_ret (Entry_Data key generation raw)
    | EntryKind_Tombstone => dec_ret (Entry_Tombstone key generation)
    end in
  let* _ := Dec_finish in
  dec_ret entry.
Definition BlxEntry_open (bs : bytes) : outcome DecodeError BlxEntry :=
  let? payload := open_frame MAGIC_ENTRY bs in
  Dec_run BlxEntry_decode_payload payload.

Definition FooterEntry_encode_into (entry : FooterEntry) (e : Enc) : Enc :=
  e |> BlockKey_encode (fe_key entry)
    |> Enc_u32 (fe_offset entry)
    |> Enc_u32 (fe_length entry)
    |> Enc_u64 (fe_generation entry)
    |> Enc_u8 (EntryKind_u8 (fe_kind entry))
    |> Enc_bytes (repeat 0 7)
    |> Enc_u64 (fe_value_checksum entry).
Definition FooterEntry_decode_from : dec FooterEntry :=
  let* key := BlockKey_decode in
  let* offset := Dec_u32 in
  let* length := Dec_u32 in
  let* generation := Dec_u64 in
  let* k := Dec_u8 in
  let* kind := dec_lift (EntryKind_decode k) in
  let* reserved := Dec_bytes 7 in
  if negb (bytes_eqb reserved (repeat 0 7)) then dec_fail else
  let* value_checksum := Dec_u64 in
  dec_ret {| fe_key := key; fe_offset := offset; fe_length := length;
             fe_generation := generation; fe_kind := kind;
             fe_value_checksum := value_checksum |}.

Definition encode_footer {E} (footer : BlxFooter) : outcome E bytes :=
  assert! len (bf_entries footer) <? W32 in
  seal_frame MAGIC_FOOTER
    (Enc_new |> Enc_u16 1 |> Enc_u32 (len (bf_entries footer))
       |> Enc_each FooterEntry_encode_into (bf_entries footer) |> Enc_finish).

(** The loop of [BlxFooter::open]: [previous] is the key of the last entry. *)
Fixpoint footer_entries (count : nat) (previous : option BlockKey) : dec (list FooterEntry) :=
  match count with
  | O => dec_ret []
  | S count =>
      let* entry := FooterEntry_decode_from in
      if (bool_decide (fe_kind entry = EntryKind_Tombstone)
          && negb (fe_value_checksum entry =? 0))
         || match previous with
            | Some key => cmp_leb (fe_key entry) key
            | None => false
            end
      then dec_fail else
      let* entries := footer_entries count (Some (fe_key entry)) in
      dec_ret (entry :: entries)
  end.
Definition BlxFooter_decode_payload : dec BlxFooter :=
  let* version := Dec_u16 in
  if negb (version =? 1) then dec_fail else
  let* count := Dec_u32 in
  let* remaining := Dec_remaining in
  let* expected := dec_lift (ok_or (checked_mul W64 count FOOTER_ENTRY_BYTES) DecodeErr) in
  if negb (remaining =? expected) then dec_fail else
  let* entries := footer_entries (Z.to_nat count) None in
  let* _ := Dec_finish in
  dec_ret {| bf_entries := entries |}.
Definition BlxFooter_open (bs : bytes) : outcome DecodeError BlxFooter :=
  let? payload := open_frame MAGIC_FOOTER bs in
  Dec_run BlxFooter_decode_payload payload.

Definition trailer_prefix (footer_offset footer_length : Z) : bytes :=
  to_le 4 MAGIC_TRAILER ++ to_le 4 footer_offset ++ to_le 4 footer_length.
Definition encode_trailer (footer_offset footer_length : Z) : bytes :=
  let prefix := trailer_prefix footer_offset footer_length in
  prefix ++ to_le 4 (crc32c prefix).
Definition open_trailer (bs : bytes) : outcome DecodeError (Z * Z) :=
  if negb (len bs =? TRAILER_BYTES) then Err DecodeErr else
  Dec_run
    (let* m := Dec_u32 in
     if negb (m =? MAGIC_TRAILER) then dec_fail else
     let* offset := Dec_u32 in
     let* length := Dec_u32 in
     let* checksum := Dec_u32 in
     let* _ := Dec_finish in
     let* prefix := dec_lift (slice_index bs 0 12) in
     if negb (crc32c prefix =? checksum) then dec_fail else
     dec_ret (offset, length)) bs.
End Codecs.

(** ** The key order *)
Section Keys.
Context `{P : PageSize}.

Lemma blocks_per_file_partition_pos : 0 < blocks_per_file_partition.
Proof. unfold blocks_per_file_partition. lia. Qed.

Lemma BlockKey_rank_inj a b : BlockKey_rank a = BlockKey_rank b -> a = b.
Proof.
  pose proof blocks_per_file_partition_pos as Hb.
  destruct a as [sa ba], b as [sb bb]. unfold BlockKey_rank. simpl.
  intros [= Hq _ Hr Hm]. f_equal.
  - unfold BlockKey_namespace_rank in Hr. simpl in Hr. destruct sa, sb; congruence.
  - rewrite (Z.div_mod ba blocks_per_file_partition), (Z.div_mod bb blocks_per_file_partition)
      by lia. congruence.
Qed.

#[export] Instance BlockKey_ord_laws : RustOrdLaws BlockKey.
Proof. exact (injected_ord_laws BlockKey_rank BlockKey_rank_inj). Qed.

(** Within one batch the partition is monotone in the key order. *)
Lemma BlockKey_partition_le (a b : BlockKey) :
  cmp_leb a b = true -> bk_block a / blocks_per_file_partition
                        <= bk_block b / blocks_per_file_partition.
Proof.
  rewrite cmp_leb_le. intros [H| ->]; [|lia].
  unfold cmp, BlockKey_cmp, BlockKey_rank in H. unfold cmp, prod_ord, cmp_then in H. simpl in H.
  unfold cmp, Z_ord in H. destruct (Z.compare_spec (bk_block a / blocks_per_file_partition)
    (bk_block b / blocks_per_file_partition)); try discriminate; lia.
Qed.
Lemma BlockKey_file_partition_block (k : BlockKey) :
  BlockKey_file_partition k = (bk_block k / blocks_per_file_partition, 0).
Proof. unfold BlockKey_file_partition. f_equal. destruct k as [[] ?]; reflexivity. Qed.

(** The hand-written ordering of block keys is a total order whose
    equality is equality of keys (a [BTreeMap] keyed by it neither merges nor
    duplicates blocks), and a storage-file partition is an interval of it:
    every key between two keys of a partition is in that partition. *)
Lemma BlockKey_order_partitions :
  RustOrdLaws BlockKey
  /\ forall a b c : BlockKey, cmp_leb a b = true -> cmp_leb b c = true ->
     BlockKey_file_partition a = BlockKey_file_partition c ->
     BlockKey_file_partition b = BlockKey_file_partition a.
Proof.
  split; [apply BlockKey_ord_laws|]. intros a b c Hab Hbc.
  rewrite !BlockKey_file_partition_block. intros [= He].
  apply BlockKey_partition_le in Hab, Hbc. f_equal. lia.
Qed.
End Keys.

(** ** Exactness of the frames *)
Lemma NamespaceKind_decode_u8 k : NamespaceKind_decode (NamespaceKind_u8 k) = Ok k.
Proof. now destruct k. Qed.
Lemma BlockSpace_decode_u8 s : BlockSpace_decode (BlockSpace_u8 s) = Ok s.
Proof. now destruct s. Qed.
Lemma EntryKind_decode_u8 k : EntryKind_decode (EntryKind_u8 k) = Ok k.
Proof. now destruct k. Qed.
Ltac enum_cases :=
  repeat match goal with
  | |- (if ?x =? ?y then _ else _) = _ -> _ => destruct (Z.eqb_spec x y)
  end; intros [= <-]; auto.
Lemma NamespaceKind_decode_inv v k : NamespaceKind_decode v = Ok k -> v = NamespaceKind_u8 k.
Proof. unfold NamespaceKind_decode. enum_cases. Qed.
Lemma BlockSpace_decode_inv v s : BlockSpace_decode v = Ok s -> v = BlockSpace_u8 s.
Proof. unfold BlockSpace_decode. enum_cases. Qed.
Lemma EntryKind_decode_inv v k : EntryKind_decode v = Ok k -> v = EntryKind_u8 k.
Proof. unfold EntryKind_decode. enum_cases. Qed.
Lemma NamespaceKind_decode_total v : no_panic (NamespaceKind_decode v).
Proof. unfold NamespaceKind_decode. no_panic. Qed.
Lemma BlockSpace_decode_total v : no_panic (BlockSpace_decode v).
Proof. unfold BlockSpace_decode. no_panic. Qed.
Lemma EntryKind_decode_total v : no_panic (EntryKind_decode v).
Proof. unfold EntryKind_decode. no_panic. Qed.
Lemma NamespaceKind_u8_byte k : fits W8 (NamespaceKind_u8 k).
Proof. destruct k; unfold fits; simpl; lia. Qed.
Lemma BlockSpace_u8_byte s : fits W8 (BlockSpace_u8 s).
Proof. destruct s; unfold fits; simpl; lia. Qed.
Lemma EntryKind_u8_byte k : fits W8 (EntryKind_u8 k).
Proof. destruct k; unfold fits; simpl; lia. Qed.
#[export] Hint Resolve NamespaceKind_decode_u8 BlockSpace_decode_u8 EntryKind_decode_u8
  NamespaceKind_u8_byte BlockSpace_u8_byte EntryKind_u8_byte : reads bytes.
#[export] Hint Resolve NamespaceKind_decode_total BlockSpace_decode_total
  EntryKind_decode_total : panics.
Lemma fits_is_byte v : fits W8 v -> is_byte v.
Proof. exact id. Qed.
#[export] Hint Resolve fits_is_byte : bytes.

(** Replace a decoded tag by the code of the constructor it decoded to. *)
Ltac enum_inv :=
  repeat match goal with
  | H : NamespaceKind_decode _ = Ok _ |- _ => apply NamespaceKind_decode_inv in H; subst
  | H : BlockSpace_decode _ = Ok _ |- _ => apply BlockSpace_decode_inv in H; subst
  | H : EntryKind_decode _ = Ok _ |- _ => apply EntryKind_decode_inv in H; subst
  | H : negb (?a =? ?b) = false |- _ => apply negb_false_iff, Z.eqb_eq in H; subst
  end.

Definition BlockKey_bytes (k : BlockKey) : bytes := BlockKey_encode k [].
Definition BlockKey_ok (k : BlockKey) : Prop := fits W32 (bk_block k).

Lemma BlockKey_appends k e : BlockKey_encode k e = e ++ BlockKey_bytes k.
Proof. unfold BlockKey_bytes, BlockKey_encode. enc_norm. reflexivity. Qed.
Lemma len_BlockKey_bytes k : len (BlockKey_bytes k) = 8.
Proof. unfold BlockKey_bytes, BlockKey_encode. enc_norm. autorewrite with len. lia. Qed.
#[export] Hint Rewrite BlockKey_appends : enc.
#[export] Hint Rewrite len_BlockKey_bytes : len.

Lemma reads_zero8 : reads Dec_u8 [0] 0.
Proof. now apply reads_u8. Qed.
Lemma reads_zero16 : reads Dec_u16 (to_le 2 0) 0.
Proof. now apply reads_u16. Qed.
#[export] Hint Resolve reads_zero8 reads_zero16 : reads.

#[export] Instance BlockKey_codec : Codec BlockKey_decode BlockKey_bytes BlockKey_ok.
Proof.
  split.
  - intros [s b] Hb. unfold BlockKey_ok, BlockKey_bytes, BlockKey_encode, BlockKey_decode in *.
    simpl in *. enc_norm. reads_tac.
  - intros bs k rest Hb H. unfold BlockKey_decode in H. dec_inv. enum_inv.
    unfold BlockKey_bytes, BlockKey_encode, BlockKey_ok. simpl. enc_norm. auto.
  - unfold BlockKey_decode. total.
  - intros k _. unfold BlockKey_bytes, BlockKey_encode. enc_norm. auto 10 with bytes.
Qed.
Lemma BlockKey_bytes_bytes k : all_bytes (BlockKey_bytes k).
Proof. unfold BlockKey_bytes, BlockKey_encode. enc_norm. auto 10 with bytes. Qed.
#[export] Hint Resolve BlockKey_bytes_bytes : bytes.
#[global] Opaque BlockKey_bytes.

Section Frames.
Context `{CL : CrcLaws} `{LL : Lz4Laws} `{PL : PageSizeLaws}.

Definition BlxHeader_ok (h : BlxHeader) : Prop :=
  bh_block_size h = page_size
  /\ fits W64 (bh_namespace_id h) /\ fits W64 (bh_writer_fence h)
  /\ fits W64 (bh_object_id h) /\ fits W64 (bh_min_seq h) /\ fits W64 (bh_max_seq h)
  /\ fits W64 (bh_batch_id h) /\ fits W32 (bh_chunk_index h) /\ fits W32 (bh_chunk_count h)
  /\ fits W32 (bh_entry_count h) /\ BlockKey_ok (bh_first_key h) /\ BlockKey_ok (bh_last_key h)
  /\ fits W64 (bh_pre_state_checksum h) /\ fits W64 (bh_post_state_checksum h)
  /\ bh_min_seq h <= bh_max_seq h /\ bh_chunk_index h < bh_chunk_count h
  /\ 0 < bh_entry_count h /\ cmp_leb (bh_first_key h) (bh_last_key h) = true.

Lemma BlxHeader_payload_bytes h :
  BlxHeader_payload h =
    to_le 2 HEADER_VERSION ++ to_le 4 (bh_block_size h)
    ++ [NamespaceKind_u8 (bh_namespace_kind h)] ++ to_le 8 (bh_namespace_id h)
    ++ to_le 8 (bh_writer_fence h) ++ to_le 8 (bh_object_id h) ++ to_le 8 (bh_min_seq h)
    ++ to_le 8 (bh_max_seq h) ++ to_le 8 (bh_batch_id h) ++ to_le 4 (bh_chunk_index h)
    ++ to_le 4 (bh_chunk_count h) ++ to_le 4 (bh_entry_count h)
    ++ BlockKey_bytes (bh_first_key h) ++ BlockKey_bytes (bh_last_key h)
    ++ to_le 8 (bh_pre_state_checksum h) ++ to_le 8 (bh_post_state_checksum h).
Proof. unfold BlxHeader_payload. enc_norm. reflexivity. Qed.
Lemma len_BlxHeader_payload h : len (BlxHeader_payload h) = HEADER_PAYLOAD_BYTES.
Proof. rewrite BlxHeader_payload_bytes. now autorewrite with len. Qed.

Lemma BlxHeader_codec : WholeCodec BlxHeader_decode_payload BlxHeader_payload BlxHeader_ok.
Proof.
  pose proof page_size_bounds as Hps.
  split.
  - intros [] Hx. unfold BlxHeader_ok in Hx. simpl in Hx. codec_conj. subst.
    rewrite BlxHeader_payload_bytes. unfold BlxHeader_decode_payload. cbn [bh_block_size
      bh_namespace_kind bh_namespace_id bh_writer_fence bh_object_id bh_min_seq bh_max_seq
      bh_batch_id bh_chunk_index bh_chunk_count bh_entry_count bh_first_key bh_last_key
      bh_pre_state_checksum bh_post_state_checksum].
    assert (fits W16 HEADER_VERSION) by now vm_compute.
    assert (fits W32 page_size) by (unfold fits; lia).
    unfold fits in *. reads_tac.
    rewrite Z.eqb_refl. rewrite (proj2 (cmp_ltb_false _ _)) by assumption. simpl. lia.
  - intros bs h Hb H. unfold BlxHeader_decode_payload in H. dec_inv. enum_inv.
    rewrite BlxHeader_payload_bytes. simpl.
    repeat match goal with H : _ || _ = false |- _ => apply orb_false_iff in H as [? ?] end.
    enum_inv. split; [|reflexivity]. unfold BlxHeader_ok; simpl.
    rewrite <- (cmp_ltb_false). unfold fits in *. codec_conj; auto; lia.
  - unfold BlxHeader_decode_payload. total.
  - intros h _. rewrite BlxHeader_payload_bytes. auto 30 with bytes.
Qed.

Lemma slice_prefix (a b : bytes) n : n = len a -> slice_get (a ++ b) 0 n = Some a.
Proof. intros ->. exact (slice_get_app [] a b). Qed.
Lemma slice_get_inv (bs : bytes) i j s :
  0 <= i -> slice_get bs i j = Some s ->
  exists a b, bs = a ++ s ++ b /\ len a = i /\ len s = j - i.
Proof.
  intros Hi. unfold slice_get. destruct ((i <=? j) && (j <=? len bs)) eqn:E; [|discriminate].
  intros [= <-]. exists (take (Z.to_nat i) bs), (drop (Z.to_nat (j - i)) (drop (Z.to_nat i) bs)).
  split; [now rewrite !take_drop|]. unfold len in *. rewrite !length_take, length_drop. lia.
Qed.
Lemma slice_index_inv {E} (bs : bytes) i j s :
  0 <= i -> @slice_index E bs i j = Ok s ->
  exists a b, bs = a ++ s ++ b /\ len a = i /\ len s = j - i.
Proof.
  intros Hi H. unfold slice_index, expect in H. destruct (slice_get bs i j) eqn:E0; [|discriminate].
  injection H as ->. eauto using slice_get_inv.
Qed.

Definition header_frame (h : BlxHeader) : bytes := frame_bytes MAGIC_HEADER (BlxHeader_payload h).
Lemma len_frame_bytes m (p : bytes) : len (frame_bytes m p) = FRAME_HEADER + len p.
Proof. unfold frame_bytes, FRAME_HEADER. autorewrite with len. lia. Qed.
Lemma frame_bytes_bytes m (p : bytes) : all_bytes p -> all_bytes (frame_bytes m p).
Proof. intros. unfold frame_bytes. auto with bytes. Qed.
Lemma len_header_frame h : len (header_frame h) = HEADER_BYTES.
Proof. unfold header_frame. rewrite len_frame_bytes, len_BlxHeader_payload. reflexivity. Qed.
Lemma encode_header_Ok {E} h : @encode_header _ E h = Ok (header_frame h).
Proof. apply seal_frame_Ok. now rewrite len_BlxHeader_payload. Qed.

Lemma BlxHeader_open_frame h rest :
  BlxHeader_ok h -> BlxHeader_open (header_frame h ++ rest) = Ok (h, HEADER_BYTES).
Proof using CL PL.
  intros Hh. unfold BlxHeader_open. rewrite len_app, len_header_frame.
  rewrite (proj2 (Z.ltb_ge _ _)) by (pose proof (len_nonneg rest); lia).
  unfold slice_index. rewrite slice_prefix by (symmetry; apply len_header_frame). simpl.
  unfold header_frame. rewrite open_frame_bytes; [|magic_tac|now rewrite len_BlxHeader_payload].
  cbn [outcome_bind]. pose proof (whole_reads (WholeCodec := BlxHeader_codec) h Hh) as Hr.
  unfold reads_all in Hr. now rewrite Hr.
Qed.
Lemma BlxHeader_open_inv bs h e :
  all_bytes bs -> BlxHeader_open bs = Ok (h, e) ->
  e = HEADER_BYTES /\ BlxHeader_ok h /\ exists rest, bs = header_frame h ++ rest.
Proof using CL PL.
  intros Hb H. unfold BlxHeader_open in H. inv_ok.
  apply slice_index_inv in Ha as (x & y & -> & Hx & Hl); [|lia].
  assert (x = []) as -> by (destruct x; [reflexivity|now autorewrite with len in Hx; pose proof (len_nonneg x); lia]).
  simpl in Hb. apply all_bytes_app in Hb as [Hb _].
  apply open_frame_inv in Ha0 as (-> & _ & Hp); [|exact Hb].
  apply (whole_sound (WholeCodec := BlxHeader_codec)) in Ha1 as [Hh ->]; [|exact Hp].
  split; [reflexivity|]. split; [exact Hh|]. now exists y.
Qed.
Lemma BlxHeader_open_total bs : no_panic (BlxHeader_open bs).
Proof using PL CL.
  unfold BlxHeader_open. apply no_panic_if; intros Hl; [auto with panics|].
  apply no_panic_bind; [apply slice_index_no_panic; [discriminate|lia]|]. intros frame _.
  apply no_panic_bind; [apply open_frame_total|]. intros payload _.
  apply no_panic_bind; [|intros; auto with panics].
  apply dec_total_run, (whole_total (WholeCodec := BlxHeader_codec)).
Qed.

(** *** The trailer *)
Lemma len_trailer_prefix o l : len (trailer_prefix o l) = 12.
Proof. unfold trailer_prefix. now autorewrite with len. Qed.
Lemma len_encode_trailer o l : len (encode_trailer o l) = TRAILER_BYTES.
Proof. unfold encode_trailer. rewrite len_app, len_trailer_prefix. now autorewrite with len. Qed.
Lemma open_encode_trailer o l :
  fits W32 o -> fits W32 l -> open_trailer (encode_trailer o l) = Ok (o, l).
Proof using CL.
  intros Ho Hl. unfold open_trailer. rewrite len_encode_trailer. simpl.
  change (reads_all
    (let* m := Dec_u32 in
     if negb (m =? MAGIC_TRAILER) then dec_fail else
     let* offset := Dec_u32 in
     let* length := Dec_u32 in
     let* checksum := Dec_u32 in
     let* _ := Dec_finish in
     let* prefix := dec_lift (slice_index (encode_trailer o l) 0 12) in
     if negb (crc32c prefix =? checksum) then dec_fail else
     dec_ret (offset, length)) (encode_trailer o l) (o, l)).
  pose proof (crc32c_range (trailer_prefix o l)).
  assert (@slice_index DecodeError (encode_trailer o l) 0 12 = Ok (trailer_prefix o l)) as Hs.
  { unfold slice_index, encode_trailer. rewrite slice_prefix; [reflexivity|].
    now rewrite len_trailer_prefix. }
  unfold encode_trailer at 2. unfold trailer_prefix at 1. rewrite <- !app_assoc.
  assert (fits W32 MAGIC_TRAILER) by now vm_compute.
  reads_tac. now rewrite Z.eqb_refl.
Qed.
Lemma open_trailer_inv bs o l :
  all_bytes bs -> open_trailer bs = Ok (o, l) ->
  bs = encode_trailer o l /\ fits W32 o /\ fits W32 l.
Proof using CL.
  intros Hb H. unfold open_trailer in H. inv_ok. pose proof Hb as Hb0. dec_inv. enum_inv.
  unfold fits in *. split; [|lia].
  apply slice_index_inv in Ha as (x & y & Hxy & Hx & Hl); [|lia].
  assert (x = []) as -> by (destruct x; [reflexivity|now autorewrite with len in Hx; pose proof (len_nonneg x); lia]).
  simpl in Hxy. unfold encode_trailer, trailer_prefix. rewrite app_assoc_r, app_assoc_r.
  do 3 f_equal. do 2 f_equal.
  rewrite (app_assoc (to_le 4 o)), (app_assoc (to_le 4 MAGIC_TRAILER)) in Hxy.
  apply app_inj_1 in Hxy as [Hxy _]; [now rewrite <- Hxy|].
  unfold len in Hl. rewrite !length_app, !length_to_le. lia.
Qed.
Lemma open_trailer_total bs : no_panic (open_trailer bs).
Proof.
  unfold open_trailer. apply no_panic_if; intros Hl; [auto with panics|].
  apply negb_false_iff, Z.eqb_eq in Hl. unfold TRAILER_BYTES in Hl.
  apply dec_total_run. total. apply slice_index_no_panic; [discriminate|lia].
Qed.

(** *** The footer *)
Definition FooterEntry_bytes (r : FooterEntry) : bytes := FooterEntry_encode_into r [].
Definition FooterEntry_ok (r : FooterEntry) : Prop :=
  BlockKey_ok (fe_key r) /\ fits W32 (fe_offset r) /\ fits W32 (fe_length r)
  /\ fits W64 (fe_generation r) /\ fits W64 (fe_value_checksum r).
Definition tombstone_ok (r : FooterEntry) : Prop :=
  fe_kind r = EntryKind_Tombstone -> fe_value_checksum r = 0.
Fixpoint rows_ascending (previous : option BlockKey) (rows : list FooterEntry) : Prop :=
  match rows with
  | [] => True
  | r :: rows =>
      match previous with Some k => cmp k (fe_key r) = Lt | None => True end
      /\ rows_ascending (Some (fe_key r)) rows
  end.
Definition BlxFooter_ok (f : BlxFooter) : Prop :=
  Forall FooterEntry_ok (bf_entries f) /\ Forall tombstone_ok (bf_entries f)
  /\ rows_ascending None (bf_entries f) /\ len (bf_entries f) < W32.

Lemma FooterEntry_appends r : appends (FooterEntry_encode_into r).
Proof. intros e. unfold FooterEntry_encode_into. enc_norm. reflexivity. Qed.
Lemma FooterEntry_bytes_eq r :
  FooterEntry_bytes r =
    BlockKey_bytes (fe_key r) ++ to_le 4 (fe_offset r) ++ to_le 4 (fe_length r)
    ++ to_le 8 (fe_generation r) ++ [EntryKind_u8 (fe_kind r)] ++ repeat 0 7
    ++ to_le 8 (fe_value_checksum r).
Proof. unfold FooterEntry_bytes, FooterEntry_encode_into. enc_norm. reflexivity. Qed.
Lemma len_FooterEntry_bytes r : len (FooterEntry_bytes r) = FOOTER_ENTRY_BYTES.
Proof.
  unfold FooterEntry_bytes, FooterEntry_encode_into. enc_norm. autorewrite with len. reflexivity.
Qed.

#[export] Instance FooterEntry_codec :
  Codec FooterEntry_decode_from FooterEntry_bytes FooterEntry_ok.
Proof.
  split.
  - intros [] Hx. unfold FooterEntry_ok in Hx. simpl in Hx. codec_conj.
    rewrite FooterEntry_bytes_eq. unfold FooterEntry_decode_from. cbn [fe_key fe_offset
      fe_length fe_generation fe_kind fe_value_checksum].
    reads_tac.
  - intros bs r rest Hb H. unfold FooterEntry_decode_from in H. dec_inv. enum_inv.
    apply negb_false_iff, bool_decide_eq_true in Hg. subst.
    rewrite FooterEntry_bytes_eq. unfold FooterEntry_ok, id. simpl.
    rewrite !app_assoc_r. auto 10.
  - unfold FooterEntry_decode_from. total.
  - intros r _. rewrite FooterEntry_bytes_eq. auto 20 with bytes.
Qed.

#[local] Opaque FooterEntry_bytes.
Lemma footer_entries_reads rows previous :
  Forall FooterEntry_ok rows -> Forall tombstone_ok rows -> rows_ascending previous rows ->
  reads (footer_entries (length rows) previous) (concat (map FooterEntry_bytes rows)) rows.
Proof.
  intros Hok. revert previous. induction Hok as [|r rows Hr Hok IH]; intros previous Ht Ha.
  - apply reads_ret.
  - inversion Ht as [|? ? Htr Htl]; subst. destruct Ha as [Hlt Ha]. simpl.
    apply reads_bind with r; [now apply codec_reads|]. apply reads_guard_neg.
    + apply orb_false_iff. split.
      * unfold tombstone_ok in Htr. destruct (fe_kind r) eqn:E; [reflexivity|].
        now rewrite Htr.
      * destruct previous; [now apply cmp_leb_false|reflexivity].
    + apply reads_bind_last with rows; [now apply IH|apply reads_ret].
Qed.
Lemma footer_entries_sound n previous :
  dec_sound (footer_entries n previous) (fun rows => concat (map FooterEntry_bytes rows))
    (fun rows => length rows = n /\ Forall FooterEntry_ok rows /\ Forall tombstone_ok rows
                 /\ rows_ascending previous rows).
Proof.
  revert previous. induction n as [|n IH]; intros previous bs rows rest Hb H; simpl in H.
  - injection H as <- <-. repeat split; constructor.
  - apply dec_bind_Ok in H as (r & bs1 & Hr & H). apply codec_sound in Hr as [-> Hr]; [|exact Hb].
    apply all_bytes_app in Hb as [_ Hb].
    match type of H with (if ?b then _ else _) _ = _ => destruct b eqn:E; [discriminate|] end.
    apply orb_false_iff in E as [E1 E2].
    apply dec_bind_Ok in H as (rs & bs2 & Hrs & [= <- <-]).
    apply IH in Hrs as [-> (Hn & Hok & Ht & Ha)]; [|exact Hb]. simpl. rewrite <- app_assoc.
    split; [reflexivity|]. repeat split; auto.
    + constructor; [|exact Ht]. intros Hk. rewrite Hk in E1. simpl in E1. lia.
    + destruct previous; [now apply cmp_leb_false|exact I].
Qed.
#[local] Hint Resolve footer_entries_sound : sound.
Lemma footer_entries_total n previous : dec_total (footer_entries n previous).
Proof.
  revert previous. induction n as [|n IH]; intros previous; simpl; [apply dec_total_ret|].
  apply dec_total_bind; [apply codec_total|]. intros r. apply dec_total_if; [apply dec_total_fail|].
  apply dec_total_bind; [apply IH|]. intros rs. apply dec_total_ret.
Qed.

Lemma len_concat_rows rows :
  len (concat (map FooterEntry_bytes rows)) = FOOTER_ENTRY_BYTES * len rows.
Proof.
  induction rows as [|r rows IH]; [reflexivity|]. simpl. rewrite len_app, len_FooterEntry_bytes, IH,
    len_cons. lia.
Qed.
Definition BlxFooter_payload (f : BlxFooter) : bytes :=
  to_le 2 1 ++ to_le 4 (len (bf_entries f)) ++ concat (map FooterEntry_bytes (bf_entries f)).
Lemma len_BlxFooter_payload f :
  len (BlxFooter_payload f) = FOOTER_PREFIX_BYTES + FOOTER_ENTRY_BYTES * len (bf_entries f).
Proof.
  unfold BlxFooter_payload, FOOTER_PREFIX_BYTES. autorewrite with len. rewrite len_concat_rows. lia.
Qed.
Lemma BlxFooter_codec : WholeCodec BlxFooter_decode_payload BlxFooter_payload BlxFooter_ok.
Proof.
  split.
  - intros [rows] (Hok & Ht & Ha & Hl). unfold BlxFooter_payload, BlxFooter_decode_payload.
    simpl in *. pose proof (len_nonneg rows).
    assert (fits W16 1) by (unfold fits; lia).
    assert (fits W32 (len rows)) by (unfold fits; lia).
    reads_step; [reads_side|]. reads_step; [reads_side|]. reads_step; [reads_side|].
    unfold reads_all, Dec_run, dec_bind at 1, Dec_remaining. simpl.
    rewrite len_concat_rows. unfold checked_mul, FOOTER_ENTRY_BYTES.
    rewrite (proj2 (Z.ltb_lt _ _)) by lia. unfold dec_bind at 1, dec_lift. simpl.
    rewrite (proj2 (Z.eqb_eq _ _)) by lia. simpl.
    change (reads_all (let* entries := footer_entries (Z.to_nat (len rows)) None in
                       let* _ := Dec_finish in dec_ret {| bf_entries := entries |})
              (concat (map FooterEntry_bytes rows)) {| bf_entries := rows |}).
    eapply reads_all_bind_last; [rewrite len_to_nat; now apply footer_entries_reads|].
    reflexivity.
  - intros bs f Hb H. unfold BlxFooter_decode_payload in H. dec_inv. enum_inv.
    match goal with Hr : length ?rows = _ /\ _ |- _ => destruct Hr as (Hn & Hok & Ht & Has);
      assert (len rows = x1) as Hx by (unfold fits, len in *; lia) end.
    unfold BlxFooter_ok, BlxFooter_payload, fits in *. simpl. rewrite Hx. split; [|reflexivity].
    repeat split; auto; lia.
  - unfold BlxFooter_decode_payload. total. apply footer_entries_total.
  - intros f _. unfold BlxFooter_payload. repeat apply all_bytes_app_2; auto with bytes.
    apply all_bytes_concat. intros r _. rewrite FooterEntry_bytes_eq.
    auto 20 with bytes.
Qed.
Definition footer_frame (f : BlxFooter) : bytes := frame_bytes MAGIC_FOOTER (BlxFooter_payload f).
Lemma encode_footer_Ok {E} f :
  len (BlxFooter_payload f) < W32 -> @encode_footer _ E f = Ok (footer_frame f).
Proof.
  intros Hl. pose proof (len_BlxFooter_payload f) as Hp.
  unfold FOOTER_PREFIX_BYTES, FOOTER_ENTRY_BYTES in Hp. pose proof (len_nonneg (bf_entries f)).
  unfold encode_footer. rewrite (proj2 (Z.ltb_lt _ _)) by lia.
  rewrite Enc_each_app by apply FooterEntry_appends. unfold footer_frame. enc_unfold.
  rewrite !app_assoc_r. now apply seal_frame_Ok.
Qed.
Lemma BlxFooter_open_frame f :
  BlxFooter_ok f -> len (BlxFooter_payload f) < W32 -> BlxFooter_open (footer_frame f) = Ok f.
Proof using CL.
  intros Hf Hl. unfold BlxFooter_open, footer_frame.
  rewrite open_frame_bytes; [|magic_tac|exact Hl].
  exact (whole_reads (WholeCodec := BlxFooter_codec) f Hf).
Qed.
Lemma BlxFooter_open_inv bs f :
  all_bytes bs -> BlxFooter_open bs = Ok f -> bs = footer_frame f /\ BlxFooter_ok f.
Proof.
  intros Hb H. unfold BlxFooter_open in H. inv_ok.
  apply open_frame_inv in Ha as (-> & _ & Hp); [|exact Hb].
  apply (whole_sound (WholeCodec := BlxFooter_codec)) in H as [Hf ->]; auto.
Qed.
Lemma BlxFooter_open_total bs : no_panic (BlxFooter_open bs).
Proof.
  apply no_panic_bind; [apply open_frame_total|]. intros p _.
  apply dec_total_run, (whole_total (WholeCodec := BlxFooter_codec)).
Qed.

(** *** Entries *)
Definition BlxEntry_ok (e : BlxEntry) : Prop :=
  BlockKey_ok (BlxEntry_key e) /\ fits W64 (BlxEntry_generation e)
  /\ match e with
     | Entry_Data _ _ raw => all_bytes raw /\ len raw = page_size
     | Entry_Tombstone _ _ => True
     end.
Definition BlxEntry_payload (e : BlxEntry) : bytes :=
  [EntryKind_u8 (BlxEntry_kind e)] ++ BlockKey_bytes (BlxEntry_key e)
  ++ to_le 8 (BlxEntry_generation e)
  ++ match e with
     | Entry_Data _ _ raw =>
         to_le 4 (len raw) ++ to_le 4 (len (lz4_compress raw)) ++ lz4_compress raw
     | Entry_Tombstone _ _ => []
     end.
Definition entry_frame (e : BlxEntry) : bytes := frame_bytes MAGIC_ENTRY (BlxEntry_payload e).

(** Pages are small enough that a compressed one fits the 64 MiB of a file;
    [validate_page_size] alone allows pages up to 4 GiB. *)
Hypothesis small_pages : page_size <= 16 * 1024 * 1024.

Lemma len_compressed_page raw :
  len raw = page_size -> len (lz4_compress raw) <= 2 * page_size + 64.
Proof using LL PL.
  intros Hr. pose proof page_size_bounds. pose proof (lz4_compress_bound raw).
  pose proof (lz4_maximum_bound page_size). rewrite Hr in *. lia.
Qed.
Lemma len_BlxEntry_payload e : BlxEntry_ok e ->
  len (BlxEntry_payload e) =
    match e with Entry_Data _ _ raw => 25 + len (lz4_compress raw) | _ => 17 end.
Proof. intros _. unfold BlxEntry_payload. destruct e; autorewrite with len; lia. Qed.
Lemma BlxEntry_payload_short e : BlxEntry_ok e -> len (BlxEntry_payload e) < W32.
Proof using LL PL small_pages.
  intros He. rewrite len_BlxEntry_payload by exact He. destruct e as [k g raw|]; [|lia].
  destruct He as (_ & _ & _ & Hl). pose proof (len_compressed_page raw Hl). lia.
Qed.
Lemma encode_entry_Ok {E} e : BlxEntry_ok e -> @encode_entry _ _ E e = Ok (entry_frame e).
Proof using LL PL small_pages.
  intros He. pose proof (BlxEntry_payload_short e He) as Hs. unfold encode_entry, entry_frame.
  pose proof page_size_bounds.
  destruct e as [k g raw|k g]; simpl BlxEntry_kind; simpl BlxEntry_key; simpl BlxEntry_generation.
  - destruct He as (_ & _ & _ & Hl). pose proof (len_compressed_page raw Hl).
    rewrite (proj2 (Z.ltb_lt (len raw) _)), (proj2 (Z.ltb_lt (len (lz4_compress raw)) _)) by lia.
    rewrite <- (seal_frame_Ok (E := E)) by exact Hs.
    unfold BlxEntry_payload. enc_norm. reflexivity.
  - rewrite <- (seal_frame_Ok (E := E)) by exact Hs.
    unfold BlxEntry_payload. enc_norm. rewrite app_nil_r. reflexivity.
Qed.
Lemma BlxEntry_open_frame e : BlxEntry_ok e -> BlxEntry_open (entry_frame e) = Ok e.
Proof using CL LL PL small_pages.
  intros He. pose proof (BlxEntry_payload_short e He) as Hs. unfold BlxEntry_open, entry_frame.
  rewrite open_frame_bytes; [|magic_tac|exact Hs].
  change (reads_all BlxEntry_decode_payload (BlxEntry_payload e) e).
  unfold BlxEntry_decode_payload, BlxEntry_payload. pose proof page_size_bounds.
  destruct e as [k g raw|k g]; destruct He as (Hk & Hg & He); simpl in Hk, Hg;
    simpl BlxEntry_kind; simpl BlxEntry_key; simpl BlxEntry_generation.
  - destruct He as [Hb Hl]. pose proof (len_compressed_page raw Hl).
    pose proof (len_nonneg (lz4_compress raw)).
    assert (fits W32 (len raw)) by (unfold fits; lia).
    assert (fits W32 (len (lz4_compress raw))) by (unfold fits; lia).
    pose proof (lz4_round_trip raw Hb) as Hz.
    do 4 (reads_step; [reads_side|]).
    eapply reads_all_bind_last with (x := Entry_Data k g raw).
    + reads_tac. now rewrite Hz.
    + reflexivity.
  - do 4 (reads_step; [reads_side|]).
    eapply reads_all_bind_last with (x := Entry_Tombstone k g); [apply reads_ret|reflexivity].
Qed.

(** What an opened entry is known to satisfy. The length of the decompressed
    block is not among it: see [compaction_panics_on_short_block]. *)
Lemma BlxEntry_open_inv bs e :
  all_bytes bs -> BlxEntry_open bs = Ok e ->
  BlockKey_ok (BlxEntry_key e) /\ fits W64 (BlxEntry_generation e)
  /\ exists payload, bs = frame_bytes MAGIC_ENTRY payload.
Proof.
  intros Hb H. unfold BlxEntry_open in H. inv_ok.
  apply open_frame_inv in Ha as (-> & _ & Hp); [|exact Hb].
  assert (BlockKey_ok (BlxEntry_key e) /\ fits W64 (BlxEntry_generation e)) as [? ?]; [|eauto].
  unfold BlxEntry_decode_payload in H. do 9 dec_inv_step.
  destruct x1; dec_inv; simpl; auto.
Qed.
Lemma BlxEntry_open_total bs : no_panic (BlxEntry_open bs).
Proof.
  apply no_panic_bind; [apply open_frame_total|]. intros p _. apply dec_total_run.
  unfold BlxEntry_decode_payload. total.
Qed.
End Frames.
