(* ===== verification/BlxFile.v ===== *)
(** * BLX files: building, scanning and compacting ([crates/core/src/blx.rs])

    The batch builder with its file splitting, the encoder of a whole object,
    the scanner that verifies every byte of one, and the compactor. *)

From S2P Require Import Prelude Format Types OrdMap Blx.

Section Files.
Context `{C : Crc} `{L : Lz4} `{P : PageSize}.

Definition encoded_entry_upper_bound (entry : BlxEntry) : Z :=
  match entry with
  | Entry_Data _ _ raw =>
      FRAME_HEADER + 1 + 8 + 8 + 4 + 4 + lz4_maximum_output_size (len raw)
  | Entry_Tombstone _ _ => FRAME_HEADER + 1 + 8 + 8
  end.

Definition should_split (current_empty : bool) (estimated : Z) (partition : option (Z * Z))
    (entry : BlxEntry) (split_at_file_partitions : bool) : bool :=
  negb current_empty
  && ((split_at_file_partitions
       && negb (bool_decide (partition = Some (BlockKey_file_partition (BlxEntry_key entry)))))
      || (TARGET_FILE_BYTES <?
            estimated + encoded_entry_upper_bound entry + FOOTER_ENTRY_BYTES
            + FRAME_HEADER + FOOTER_PREFIX_BYTES)).

Definition entry_value_checksum (entry : BlxEntry) : Z :=
  match entry with Entry_Data _ _ raw => checksum64 raw | Entry_Tombstone _ _ => 0 end.

(** The loop of [encode_object] that appends one entry and its index row. *)
Definition append_entry {E} (acc : bytes * list FooterEntry) (entry : BlxEntry)
  : outcome E (bytes * list FooterEntry) :=
  let '(bs, rows) := acc in
  assert! len bs <? W32 in
  let offset := len bs in
  let? encoded := encode_entry entry in
  assert! len encoded <? W32 in
  Ok (bs ++ encoded,
      rows ++ [{| fe_key := BlxEntry_key entry; fe_offset := offset;
                  fe_length := len encoded; fe_generation := BlxEntry_generation entry;
                  fe_kind := BlxEntry_kind entry;
                  fe_value_checksum := entry_value_checksum entry |}]).

Definition object_header (meta : BatchMeta) (object_id chunk_index chunk_count count : Z)
    (first_key last_key : BlockKey) : BlxHeader :=
  {| bh_block_size := page_size; bh_namespace_kind := bm_namespace_kind meta;
     bh_namespace_id := bm_namespace_id meta; bh_writer_fence := bm_writer_fence meta;
     bh_object_id := object_id; bh_min_seq := bm_min_seq meta;
     bh_max_seq := bm_max_seq meta; bh_batch_id := bm_batch_id meta;
     bh_chunk_index := chunk_index; bh_chunk_count := chunk_count;
     bh_entry_count := count; bh_first_key := first_key; bh_last_key := last_key;
     bh_pre_state_checksum := bm_pre_state_checksum meta;
     bh_post_state_checksum := bm_post_state_checksum meta |}.

Definition encode_object {E} (meta : BatchMeta) (object_id chunk_index chunk_count : Z)
    (entries : list BlxEntry) : outcome E BlxObject :=
  let? first := expect (List.hd_error entries) in
  let? last := expect (list.last entries) in
  assert! page_size <? W32 in
  assert! len entries <? W32 in
  let header := object_header meta object_id chunk_index chunk_count (len entries)
                  (BlxEntry_key first) (BlxEntry_key last) in
  let? bs := encode_header header in
  let? (bs, rows) := fold_outcome append_entry (bs, []) entries in
  let footer := {| bf_entries := rows |} in
  assert! len bs <? W32 in
  let footer_offset := len bs in
  let? encoded_footer := encode_footer footer in
  assert! len encoded_footer <? W32 in
  let footer_length := len encoded_footer in
  let bs := bs ++ encoded_footer ++ encode_trailer footer_offset footer_length in
  assert! len bs <=? MAX_FILE_BYTES in
  Ok {| bo_header := header; bo_footer := footer; bo_footer_offset := footer_offset;
        bo_footer_length := footer_length; bo_checksum := checksum64 bs;
        bo_bytes := bs |}.

(** ** [BlxBatchBuilder] *)
Record BlxBatchBuilder := {
  bb_meta : BatchMeta;
  bb_entries : BTreeMap BlockKey BlxEntry;
  bb_split_at_file_partitions : bool }.

Definition BlxBatchBuilder_new {E} (meta : BatchMeta) : outcome E BlxBatchBuilder :=
  assert! bm_min_seq meta <=? bm_max_seq meta in
  Ok {| bb_meta := meta; bb_entries := []; bb_split_at_file_partitions := false |}.
Definition BlxBatchBuilder_new_partitioned {E} (meta : BatchMeta) : outcome E BlxBatchBuilder :=
  let? builder := BlxBatchBuilder_new meta in
  Ok {| bb_meta := bb_meta builder; bb_entries := bb_entries builder;
        bb_split_at_file_partitions := true |}.

(** [insert] keeps the entry of the newest generation; the last one added wins
    a tie. The same rule is the merge of [BlxCompactor::add_object]. *)
Definition keep_newest (entries : BTreeMap BlockKey BlxEntry) (entry : BlxEntry)
  : BTreeMap BlockKey BlxEntry :=
  match bt_get (BlxEntry_key entry) entries with
  | Some old =>
      if BlxEntry_generation old <=? BlxEntry_generation entry
      then bt_insert (BlxEntry_key entry) entry entries else entries
  | None => bt_insert (BlxEntry_key entry) entry entries
  end.
Definition BlxBatchBuilder_insert (self : BlxBatchBuilder) (entry : BlxEntry) : BlxBatchBuilder :=
  {| bb_meta := bb_meta self; bb_entries := keep_newest (bb_entries self) entry;
     bb_split_at_file_partitions := bb_split_at_file_partitions self |}.
Definition BlxBatchBuilder_add_data {E} (self : BlxBatchBuilder) (key : BlockKey)
    (generation : Z) (raw : bytes) : outcome E BlxBatchBuilder :=
  assert! len raw =? page_size in
  Ok (BlxBatchBuilder_insert self (Entry_Data key generation raw)).
Definition BlxBatchBuilder_add_tombstone (self : BlxBatchBuilder) (key : BlockKey)
    (generation : Z) : BlxBatchBuilder :=
  BlxBatchBuilder_insert self (Entry_Tombstone key generation).

(** The chunk counter of [object_ids_fit]: [(chunks, current_empty, estimated,
    partition)]. *)
Definition count_step (split : bool) (s : Z * bool * Z * option (Z * Z)) (entry : BlxEntry)
  : Z * bool * Z * option (Z * Z) :=
  let '(chunks, current_empty, estimated, partition) := s in
  let '(chunks, estimated) :=
    if should_split current_empty estimated partition entry split
    then (chunks + 1, HEADER_BYTES + TRAILER_BYTES) else (chunks, estimated) in
  (chunks, false, estimated + (encoded_entry_upper_bound entry + FOOTER_ENTRY_BYTES),
   Some (BlockKey_file_partition (BlxEntry_key entry))).
Definition count_chunks (split : bool) (entries : list BlxEntry) : Z :=
  (fold_left (count_step split) entries
     (match entries with [] => 0 | _ => 1 end, true, HEADER_BYTES + TRAILER_BYTES, None)).1.1.1.
Definition BlxBatchBuilder_object_ids_fit (self : BlxBatchBuilder) : bool :=
  let chunks := count_chunks (bb_split_at_file_partitions self) (bt_values (bb_entries self)) in
  (chunks =? 0)
  || bool_decide (is_Some (checked_add W64 (bm_first_object_id (bb_meta self)) (chunks - 1))).

(** The splitting loop of [finish]: [(chunks, current, estimated, partition)]. *)
Definition split_step (split : bool)
    (s : list (list BlxEntry) * list BlxEntry * Z * option (Z * Z)) (entry : BlxEntry)
  : list (list BlxEntry) * list BlxEntry * Z * option (Z * Z) :=
  let '(chunks, current, estimated, partition) := s in
  let entry_size := encoded_entry_upper_bound entry in
  let '(chunks, current, estimated) :=
    if should_split (match current with [] => true | _ => false end) estimated partition
         entry split
    then (chunks ++ [current], [], HEADER_BYTES + TRAILER_BYTES)
    else (chunks, current, estimated) in
  (chunks, current ++ [entry], estimated + (entry_size + FOOTER_ENTRY_BYTES),
   Some (BlockKey_file_partition (BlxEntry_key entry))).
Definition split_chunks (split : bool) (entries : list BlxEntry) : list (list BlxEntry) :=
  let '(chunks, current, _, _) :=
    fold_left (split_step split) entries ([], [], HEADER_BYTES + TRAILER_BYTES, None) in
  match current with [] => chunks | _ => chunks ++ [current] end.

(** [chunks.into_iter().enumerate().map(...).collect()], from index [i] on. *)
Fixpoint encode_chunks {E} (meta : BatchMeta) (chunk_count i : Z)
    (chunks : list (list BlxEntry)) : outcome E (list BlxObject) :=
  match chunks with
  | [] => Ok []
  | entries :: chunks =>
      assert! i <? W32 in
      let? object_id := expect (checked_add W64 (bm_first_object_id meta) i) in
      let? object := encode_object meta object_id i chunk_count entries in
      let? objects := encode_chunks meta chunk_count (i + 1) chunks in
      Ok (object :: objects)
  end.

Definition BlxBatchBuilder_finish {E} (self : BlxBatchBuilder) : outcome E (list BlxObject) :=
  match bb_entries self with
  | [] => Ok []
  | _ =>
      let chunks := split_chunks (bb_split_at_file_partitions self)
                      (bt_values (bb_entries self)) in
      assert! len chunks <? W32 in
      encode_chunks (bb_meta self) (len chunks) 0 chunks
  end.

(** ** [BlxObject::scan] and [BlxObject::open] *)
Definition scan_entry (bs : bytes) (footer_offset expected_offset : Z) (row : FooterEntry)
  : outcome DecodeError Z :=
  let offset := fe_offset row in
  let length := fe_length row in
  let? end_ := ok_or (checked_add W64 offset length) DecodeErr in
  if negb (offset =? expected_offset) || (footer_offset <? end_) then Err DecodeErr else
  let? frame := slice_index bs offset end_ in
  let? entry := BlxEntry_open frame in
  if bool_decide
       ((BlxEntry_key entry, BlxEntry_generation entry, BlxEntry_kind entry,
         entry_value_checksum entry)
        = (fe_key row, fe_generation row, fe_kind row, fe_value_checksum row))
  then Ok end_ else Err DecodeErr.

Definition BlxObject_scan (bs : bytes) : outcome DecodeError (BlxHeader * BlxFooter) :=
  let? (header, header_end) := BlxHeader_open bs in
  if len bs <? header_end + TRAILER_BYTES then Err DecodeErr else
  let? trailer := slice_index bs (len bs - TRAILER_BYTES) (len bs) in
  let? (footer_offset, footer_length) := open_trailer trailer in
  let? footer_end := ok_or (checked_add W64 footer_offset footer_length) DecodeErr in
  if (footer_offset <? header_end) || negb (footer_end + TRAILER_BYTES =? len bs)
  then Err DecodeErr else
  let? frame := slice_index bs footer_offset footer_end in
  let? footer := BlxFooter_open frame in
  if negb (len (bf_entries footer) =? bh_entry_count header)
     || negb (bool_decide (fe_key <$> List.hd_error (bf_entries footer)
                           = Some (bh_first_key header)))
     || negb (bool_decide (fe_key <$> list.last (bf_entries footer) = Some (bh_last_key header)))
  then Err DecodeErr else
  let? expected_offset :=
    fold_outcome (scan_entry bs footer_offset) header_end (bf_entries footer) in
  if negb (expected_offset =? footer_offset) then Err DecodeErr else
  Ok (header, footer).

Definition BlxObject_open (bs : bytes) : outcome DecodeError BlxObject :=
  let? (header, footer) := BlxObject_scan bs in
  let? start := ok_or (checked_sub (len bs) TRAILER_BYTES) DecodeErr in
  let? trailer := ok_or (slice_get bs start (len bs)) DecodeErr in
  let? (footer_offset, footer_length) := open_trailer trailer in
  Ok {| bo_header := header; bo_footer := footer; bo_footer_offset := footer_offset;
        bo_footer_length := footer_length; bo_checksum := checksum64 bs; bo_bytes := bs |}.

(** ** [BlxCompactor] *)
Definition compactor_add_row (bs : bytes) (newest : BTreeMap BlockKey BlxEntry)
    (indexed : FooterEntry) : outcome DecodeError (BTreeMap BlockKey BlxEntry) :=
  let? end_ := ok_or (checked_add W64 (fe_offset indexed) (fe_length indexed)) DecodeErr in
  let? frame := ok_or (slice_get bs (fe_offset indexed) end_) DecodeErr in
  let? entry := BlxEntry_open frame in
  Ok (keep_newest newest entry).
Definition BlxCompactor_add_object (newest : BTreeMap BlockKey BlxEntry) (bs : bytes)
  : outcome DecodeError (BTreeMap BlockKey BlxEntry) :=
  let? (_, footer) := BlxObject_scan bs in
  fold_outcome (compactor_add_row bs) newest (bf_entries footer).

Definition compactor_emit (retain_tombstones : bool) (builder : BlxBatchBuilder)
    (entry : BlxEntry) : outcome DecodeError BlxBatchBuilder :=
  match entry with
  | Entry_Data key generation raw => BlxBatchBuilder_add_data builder key generation raw
  | Entry_Tombstone key generation =>
      if retain_tombstones then Ok (BlxBatchBuilder_add_tombstone builder key generation)
      else Ok builder
  end.
Definition BlxCompactor_finish (newest : BTreeMap BlockKey BlxEntry) (meta : BatchMeta)
    (retain_tombstones : bool) : outcome DecodeError (list BlxObject) :=
  let? builder := BlxBatchBuilder_new_partitioned meta in
  let? builder := fold_outcome (compactor_emit retain_tombstones) builder (bt_values newest) in
  BlxBatchBuilder_finish builder.

Definition compact_objects (meta : BatchMeta) (inputs : list BlxObject)
    (retain_tombstones : bool) : outcome DecodeError (list BlxObject) :=
  let? newest := fold_outcome (fun newest input => BlxCompactor_add_object newest (bo_bytes input))
                   [] inputs in
  BlxCompactor_finish newest meta retain_tombstones.
End Files.

(** ** Whole objects *)
Section Objects.
Context `{CL : CrcLaws} `{LL : Lz4Laws} `{PL : PageSizeLaws}.
Hypothesis small_pages : page_size <= 16 * 1024 * 1024.

Definition key_lt (a b : BlxEntry) : Prop := cmp (BlxEntry_key a) (BlxEntry_key b) = Lt.
Definition ascending (entries : list BlxEntry) : Prop := Sorted.StronglySorted key_lt entries.
Definition chunk_ok (entries : list BlxEntry) : Prop :=
  entries <> [] /\ Forall BlxEntry_ok entries /\ ascending entries.
Definition BatchMeta_ok (m : BatchMeta) : Prop :=
  fits W64 (bm_namespace_id m) /\ fits W64 (bm_writer_fence m)
  /\ fits W64 (bm_first_object_id m) /\ fits W64 (bm_min_seq m) /\ fits W64 (bm_max_seq m)
  /\ fits W64 (bm_batch_id m) /\ fits W64 (bm_pre_state_checksum m)
  /\ fits W64 (bm_post_state_checksum m) /\ bm_min_seq m <= bm_max_seq m.

(** The parts of an object's bytes, and the index rows of its entries. *)
Definition object_body (entries : list BlxEntry) : bytes := concat (map entry_frame entries).
Definition entry_row (offset : Z) (e : BlxEntry) : FooterEntry :=
  {| fe_key := BlxEntry_key e; fe_offset := offset; fe_length := len (entry_frame e);
     fe_generation := BlxEntry_generation e; fe_kind := BlxEntry_kind e;
     fe_value_checksum := entry_value_checksum e |}.
Fixpoint object_rows (offset : Z) (entries : list BlxEntry) : list FooterEntry :=
  match entries with
  | [] => []
  | e :: entries => entry_row offset e :: object_rows (offset + len (entry_frame e)) entries
  end.
Definition object_footer (entries : list BlxEntry) : BlxFooter :=
  {| bf_entries := object_rows HEADER_BYTES entries |}.
Definition object_bytes (h : BlxHeader) (entries : list BlxEntry) : bytes :=
  header_frame h ++ object_body entries ++ footer_frame (object_footer entries)
  ++ encode_trailer (HEADER_BYTES + len (object_body entries))
       (len (footer_frame (object_footer entries))).
Definition object_size (entries : list BlxEntry) : Z :=
  HEADER_BYTES + len (object_body entries) + FRAME_HEADER + FOOTER_PREFIX_BYTES
  + FOOTER_ENTRY_BYTES * len entries + TRAILER_BYTES.

Lemma object_body_cons e es : object_body (e :: es) = entry_frame e ++ object_body es.
Proof. reflexivity. Qed.
Lemma len_object_rows o es : len (object_rows o es) = len es.
Proof. revert o. induction es as [|e es IH]; intros o; simpl; [reflexivity|]. rewrite !len_cons, IH. lia. Qed.
Lemma len_footer_frame es :
  len (footer_frame (object_footer es))
  = FRAME_HEADER + FOOTER_PREFIX_BYTES + FOOTER_ENTRY_BYTES * len es.
Proof.
  unfold footer_frame. rewrite len_frame_bytes, len_BlxFooter_payload. simpl.
  rewrite len_object_rows. lia.
Qed.
Lemma len_object_bytes h es : len (object_bytes h es) = object_size es.
Proof.
  unfold object_bytes, object_size. rewrite !len_app, len_header_frame, len_footer_frame,
    len_encode_trailer. lia.
Qed.
Lemma len_entry_frame e : 29 <= len (entry_frame e).
Proof.
  unfold entry_frame. rewrite len_frame_bytes. unfold FRAME_HEADER, BlxEntry_payload.
  destruct e; autorewrite with len; [|lia]. pose proof (len_nonneg (lz4_compress bytes)). lia.
Qed.
Lemma checksum64_range bs : fits W64 (checksum64 bs).
Proof using CL.
  unfold checksum64, fits. pose proof (crc32c_range bs) as Hl.
  pose proof (crc32c_range (reverse bs)) as Hh. unfold fits in Hl, Hh.
  rewrite Z.shiftl_mul_pow2 by lia. split.
  - apply Z.lor_nonneg. split; lia.
  - change W64 with (2 ^ 64). apply bits_bound; [lia|apply Z.lor_nonneg; split; lia|].
    intros i Hi. rewrite Z.lor_spec, (testbit_high 64), (testbit_high 64) by lia. reflexivity.
Qed.

Lemma object_fold {E} es bs rows :
  Forall BlxEntry_ok es -> len bs + len (object_body es) < W32 ->
  fold_outcome (@append_entry _ _ E) (bs, rows) es
  = Ok (bs ++ object_body es, rows ++ object_rows (len bs) es).
Proof using LL PL small_pages.
  intros Hok. revert bs rows. induction Hok as [|e es He Hok IH]; intros bs rows Hl; simpl.
  - unfold object_body. simpl. now rewrite !app_nil_r.
  - rewrite object_body_cons, len_app in Hl. pose proof (len_nonneg (object_body es)).
    pose proof (len_nonneg bs). pose proof (len_entry_frame e).
    rewrite (proj2 (Z.ltb_lt (len bs) _)) by lia. rewrite encode_entry_Ok by assumption.
    cbn [outcome_bind]. rewrite (proj2 (Z.ltb_lt (len (entry_frame e)) _)) by lia.
    cbn [outcome_bind]. rewrite IH by (rewrite len_app; lia).
    rewrite object_body_cons, <- !app_assoc, len_app. reflexivity.
Qed.

Lemma object_rows_ok o es :
  Forall BlxEntry_ok es -> 0 <= o -> o + len (object_body es) < W32 ->
  Forall FooterEntry_ok (object_rows o es) /\ Forall tombstone_ok (object_rows o es).
Proof using CL.
  intros Hok. revert o. induction Hok as [|e es He Hok IH]; intros o Ho Hl; simpl; [auto|].
  rewrite object_body_cons, len_app in Hl. pose proof (len_nonneg (object_body es)).
  pose proof (len_entry_frame e). destruct (IH (o + len (entry_frame e))) as [H1 H2]; [lia..|].
  destruct He as (Hk & Hg & _). split; constructor; auto.
  - unfold FooterEntry_ok, fits; simpl. repeat split; try apply Hk; try apply Hg; try lia;
      destruct e; simpl; try apply checksum64_range; lia.
  - unfold tombstone_ok. simpl. now destruct e.
Qed.
Lemma object_rows_ascending o es : ascending es -> rows_ascending None (object_rows o es).
Proof.
  intros Ha.
  assert (forall prev, match prev with
                       | Some k => Forall (fun e => cmp k (BlxEntry_key e) = Lt) es
                       | None => True end -> rows_ascending prev (object_rows o es)) as H.
  { revert o. induction Ha as [|e es Hs IH Hlt]; intros o prev Hp; simpl; [exact I|]. split.
    - destruct prev; [now inversion Hp|exact I].
    - apply IH. exact Hlt. }
  now apply H.
Qed.
Lemma object_footer_ok es :
  chunk_ok es -> object_size es <= MAX_FILE_BYTES -> BlxFooter_ok (object_footer es).
Proof using CL.
  intros (_ & Hok & Ha) Hs. unfold object_size, HEADER_BYTES, FRAME_HEADER, HEADER_PAYLOAD_BYTES,
    FOOTER_PREFIX_BYTES, FOOTER_ENTRY_BYTES, TRAILER_BYTES, MAX_FILE_BYTES in Hs.
  pose proof (len_nonneg (object_body es)). pose proof (len_nonneg es).
  destruct (object_rows_ok HEADER_BYTES es Hok) as [H1 H2];
    [unfold HEADER_BYTES, FRAME_HEADER, HEADER_PAYLOAD_BYTES; lia..|].
  split; [exact H1|]. split; [exact H2|]. split; [now apply object_rows_ascending|].
  unfold object_footer. cbn [bf_entries]. rewrite len_object_rows. lia.
Qed.

Lemma chunk_first_last es :
  chunk_ok es -> exists a b, List.hd_error es = Some a /\ list.last es = Some b
    /\ In a es /\ In b es /\ cmp_leb (BlxEntry_key a) (BlxEntry_key b) = true.
Proof.
  intros (Hne & _ & Ha). destruct es as [|a es]; [congruence|]. clear Hne.
  destruct (list.last (a :: es)) as [b|] eqn:Hb; [|now apply list.last_None in Hb].
  exists a, b. split; [reflexivity|]. split; [reflexivity|]. split; [now left|].
  assert (In b (a :: es)) as Hin by (apply list_elem_of_In; now apply list.last_Some_elem_of).
  split; [exact Hin|]. apply cmp_leb_le. destruct Hin as [->|Hin]; [now right|].
  apply Sorted.StronglySorted_inv in Ha as [_ Ha]. rewrite List.Forall_forall in Ha. left.
  now apply Ha.
Qed.

Definition chunk_header (m : BatchMeta) (id index count : Z) (es : list BlxEntry) : BlxHeader :=
  object_header m id index count (len es)
    (from_option BlxEntry_key {| bk_space := Space_Memory; bk_block := 0 |} (List.hd_error es))
    (from_option BlxEntry_key {| bk_space := Space_Memory; bk_block := 0 |} (list.last es)).
Definition chunk_object (m : BatchMeta) (id index count : Z) (es : list BlxEntry) : BlxObject :=
  let h := chunk_header m id index count es in
  {| bo_header := h; bo_footer := object_footer es;
     bo_footer_offset := HEADER_BYTES + len (object_body es);
     bo_footer_length := len (footer_frame (object_footer es));
     bo_checksum := checksum64 (object_bytes h es); bo_bytes := object_bytes h es |}.

Ltac sizes := unfold object_size, HEADER_BYTES, FRAME_HEADER, HEADER_PAYLOAD_BYTES,
    FOOTER_PREFIX_BYTES, FOOTER_ENTRY_BYTES, TRAILER_BYTES, MAX_FILE_BYTES,
    TARGET_FILE_BYTES in *.

Lemma object_size_parts es : object_size es <= MAX_FILE_BYTES ->
  0 <= len (object_body es) <= MAX_FILE_BYTES /\ 0 <= len es <= MAX_FILE_BYTES
  /\ len (BlxFooter_payload (object_footer es)) < W32
  /\ len (footer_frame (object_footer es)) < W32.
Proof.
  intros Hs. pose proof (len_nonneg (object_body es)). pose proof (len_nonneg es).
  rewrite len_footer_frame, len_BlxFooter_payload. cbn [bf_entries object_footer].
  rewrite len_object_rows. sizes. lia.
Qed.

Lemma encode_object_Ok {E} m id index count es :
  chunk_ok es -> object_size es <= MAX_FILE_BYTES ->
  @encode_object _ _ _ E m id index count es = Ok (chunk_object m id index count es).
Proof using LL PL small_pages.
  intros Hc Hs. destruct (chunk_first_last es Hc) as (a & b & Ha & Hb & _).
  destruct (object_size_parts es Hs) as (Hbody & Hes & Hp & Hf).
  destruct Hc as (_ & Hok & _). pose proof page_size_bounds.
  unfold chunk_object, chunk_header, encode_object. rewrite Ha, Hb. cbn [expect outcome_bind].
  rewrite (proj2 (Z.ltb_lt page_size _)), (proj2 (Z.ltb_lt (len es) _)) by (sizes; lia).
  rewrite encode_header_Ok. cbn [outcome_bind].
  rewrite object_fold by (assumption || rewrite len_header_frame; sizes; lia).
  cbn [outcome_bind]. rewrite len_app, !len_header_frame. simpl app.
  rewrite (proj2 (Z.ltb_lt (HEADER_BYTES + _) _)) by (sizes; lia).
  change {| bf_entries := object_rows HEADER_BYTES es |} with (object_footer es).
  rewrite encode_footer_Ok by exact Hp. cbn [outcome_bind].
  rewrite (proj2 (Z.ltb_lt (len (footer_frame _)) _)) by exact Hf.
  rewrite <- app_assoc. cbn [from_option].
  match goal with |- (if len ?bytes <=? _ then _ else _) = _ =>
    change bytes with (object_bytes (object_header m id index count (len es)
      (BlxEntry_key a) (BlxEntry_key b)) es) end.
  rewrite len_object_bytes, (proj2 (Z.leb_le _ _)) by exact Hs. reflexivity.
Qed.

Lemma chunk_header_ok m id index count es :
  chunk_ok es -> object_size es <= MAX_FILE_BYTES -> BatchMeta_ok m ->
  fits W64 id -> 0 <= index < count -> count < W32 ->
  BlxHeader_ok (chunk_header m id index count es).
Proof using PL.
  intros Hc Hs Hm Hid Hi Hcount. destruct (chunk_first_last es Hc) as (a & b & Ha & Hb & Hia & Hib & Hab).
  destruct (object_size_parts es Hs) as (_ & Hes & _). destruct Hc as (Hne & Hok & _).
  rewrite List.Forall_forall in Hok. destruct (Hok _ Hia) as (Hka & _). destruct (Hok _ Hib) as (Hkb & _).
  assert (0 < len es) by (destruct es; [congruence|rewrite len_cons; pose proof (len_nonneg es); lia]).
  unfold chunk_header. rewrite Ha, Hb. destruct Hm as (?&?&?&?&?&?&?&?&?).
  unfold BlxHeader_ok, object_header, BlockKey_ok, fits in *; simpl. sizes.
  repeat split; auto; lia.
Qed.

(** The scanner's loop accepts the body it finds between [pre] and [post]. *)
Lemma scan_fold pre es post :
  Forall BlxEntry_ok es -> len pre + len (object_body es) < W32 ->
  fold_outcome (scan_entry (pre ++ object_body es ++ post) (len pre + len (object_body es)))
    (len pre) (object_rows (len pre) es)
  = Ok (len pre + len (object_body es)).
Proof using CL LL PL small_pages.
  intros Hok. revert pre. induction Hok as [|e es He Hok IH]; intros pre Hl.
  - simpl. unfold object_body. simpl. f_equal. rewrite len_nil. lia.
  - rewrite object_body_cons, len_app in *. cbn [object_rows fold_outcome].
    pose proof (len_nonneg pre). pose proof (len_nonneg (object_body es)).
    pose proof (len_entry_frame e).
    unfold scan_entry at 2. cbn [fe_offset fe_length fe_key fe_generation fe_kind
      fe_value_checksum entry_row].
    unfold checked_add. rewrite (proj2 (Z.ltb_lt _ _)) by lia. cbn [ok_or outcome_bind].
    rewrite Z.eqb_refl, (proj2 (Z.ltb_ge _ _)) by lia. cbn [negb orb].
    rewrite app_assoc_r. unfold slice_index. rewrite slice_get_app. cbn [expect outcome_bind].
    rewrite BlxEntry_open_frame by assumption. cbn [outcome_bind].
    rewrite bool_decide_eq_true_2 by reflexivity. cbn [outcome_bind].
    specialize (IH (pre ++ entry_frame e)). rewrite len_app, app_assoc_r in IH.
    rewrite Z.add_assoc. apply IH. lia.
Qed.

Lemma object_rows_first o es : fe_key <$> List.hd_error (object_rows o es)
  = BlxEntry_key <$> List.hd_error es.
Proof. now destruct es. Qed.
Lemma object_rows_last o es : fe_key <$> list.last (object_rows o es)
  = BlxEntry_key <$> list.last es.
Proof.
  revert o. induction es as [|e es IH]; intros o; [reflexivity|].
  destruct es as [|e' es]; [reflexivity|].
  change (list.last (e :: e' :: es)) with (list.last (e' :: es)). rewrite <- IH with (o := o + len (entry_frame e)).
  reflexivity.
Qed.

(** Where the trailer and the footer of an object are. *)
Lemma object_trailer_slice {E} h es :
  @slice_index E (object_bytes h es) (object_size es - TRAILER_BYTES) (object_size es)
  = Ok (encode_trailer (HEADER_BYTES + len (object_body es))
          (len (footer_frame (object_footer es)))).
Proof.
  unfold slice_index, object_bytes. set (o := HEADER_BYTES + len (object_body es)).
  set (ff := footer_frame (object_footer es)).
  pose proof (slice_get_app (header_frame h ++ object_body es ++ ff) (encode_trailer o (len ff)) [])
    as Hsl.
  assert (len (header_frame h ++ object_body es ++ ff) = object_size es - TRAILER_BYTES) as Hl.
  { subst ff. rewrite !len_app, len_header_frame, len_footer_frame. unfold object_size. lia. }
  rewrite app_nil_r, !app_assoc_r, Hl, len_encode_trailer in Hsl.
  replace (object_size es - TRAILER_BYTES + TRAILER_BYTES) with (object_size es) in Hsl by lia.
  now rewrite Hsl.
Qed.
Lemma object_footer_slice {E} h es :
  @slice_index E (object_bytes h es) (HEADER_BYTES + len (object_body es))
    (HEADER_BYTES + len (object_body es) + len (footer_frame (object_footer es)))
  = Ok (footer_frame (object_footer es)).
Proof.
  unfold slice_index, object_bytes. pose proof (slice_get_app (header_frame h ++ object_body es)
    (footer_frame (object_footer es)) (encode_trailer (HEADER_BYTES + len (object_body es))
    (len (footer_frame (object_footer es))))) as Hsl.
  rewrite app_assoc_r, len_app, len_header_frame in Hsl. now rewrite Hsl.
Qed.
Lemma object_entries_scan h es :
  Forall BlxEntry_ok es -> object_size es <= MAX_FILE_BYTES ->
  fold_outcome (scan_entry (object_bytes h es) (HEADER_BYTES + len (object_body es)))
    HEADER_BYTES (object_rows HEADER_BYTES es)
  = Ok (HEADER_BYTES + len (object_body es)).
Proof using CL LL PL small_pages.
  intros Hok Hs. destruct (object_size_parts es Hs) as (Hbody & _).
  pose proof (scan_fold (header_frame h) es (footer_frame (object_footer es) ++
    encode_trailer (HEADER_BYTES + len (object_body es)) (len (footer_frame (object_footer es)))) Hok) as Hsf.
  rewrite len_header_frame in Hsf. apply Hsf. sizes. lia.
Qed.

Lemma scan_object m id index count es :
  chunk_ok es -> object_size es <= MAX_FILE_BYTES -> BatchMeta_ok m ->
  fits W64 id -> 0 <= index < count -> count < W32 ->
  BlxObject_scan (object_bytes (chunk_header m id index count es) es)
  = Ok (chunk_header m id index count es, object_footer es).
Proof using CL LL PL small_pages.
  intros Hc Hs Hm Hid Hi Hcount.
  pose proof (chunk_header_ok m id index count es Hc Hs Hm Hid Hi Hcount) as Hh.
  pose proof (object_footer_ok es Hc Hs) as Hf.
  destruct (chunk_first_last es Hc) as (a & b & Ha & Hb & _).
  destruct (object_size_parts es Hs) as (Hbody & Hes & Hp & Hfl). destruct Hc as (_ & Hok & _).
  set (h := chunk_header m id index count es) in *.
  pose proof (len_footer_frame es) as Hff.
  assert (BlxHeader_open (object_bytes h es) = Ok (h, HEADER_BYTES)) as Ho
    by now apply BlxHeader_open_frame.
  unfold BlxObject_scan. rewrite Ho, len_object_bytes. cbn [outcome_bind].
  rewrite (proj2 (Z.ltb_ge _ _)) by (sizes; lia). rewrite object_trailer_slice. cbn [outcome_bind].
  rewrite open_encode_trailer by (unfold fits; sizes; lia). cbn [outcome_bind].
  rewrite checked_add_Some by (sizes; lia). cbn [ok_or outcome_bind].
  rewrite (proj2 (Z.ltb_ge _ _)) by (sizes; lia).
  rewrite (proj2 (Z.eqb_eq _ _)) by (rewrite Hff; sizes; lia). cbn [negb orb].
  rewrite object_footer_slice. cbn [outcome_bind].
  rewrite BlxFooter_open_frame by assumption. cbn [outcome_bind bf_entries object_footer].
  assert (bh_entry_count h = len es /\ bh_first_key h = BlxEntry_key a
          /\ bh_last_key h = BlxEntry_key b) as (Hn & Hk1 & Hk2)
    by (unfold h, chunk_header; now rewrite Ha, Hb).
  rewrite len_object_rows, object_rows_first, object_rows_last, Ha, Hb, Hn, Hk1, Hk2.
  rewrite Z.eqb_refl, !bool_decide_eq_true_2 by reflexivity. cbn [negb orb].
  rewrite object_entries_scan by assumption. cbn [outcome_bind]. now rewrite Z.eqb_refl.
Qed.

(** ** Merging by generation *)
Definition map_ok (m : BTreeMap BlockKey BlxEntry) : Prop :=
  bt_sorted m /\ Forall (fun x => x.1 = BlxEntry_key x.2 /\ BlxEntry_ok x.2) m.

Lemma keep_newest_sorted m e : bt_sorted m -> bt_sorted (keep_newest m e).
Proof.
  intros Hm. unfold keep_newest. destruct (bt_get _ m); [destruct (_ <=? _)|];
    first [exact Hm|now apply bt_insert_sorted].
Qed.
Lemma bt_insert_Forall (Q : BlockKey * BlxEntry -> Prop) k e m :
  Q (k, e) -> Forall Q m -> Forall Q (bt_insert k e m).
Proof.
  intros Hq. induction 1 as [|[k' e'] m Hx Hm IH]; simpl; [auto|].
  destruct (cmp k k'); auto.
Qed.
Lemma keep_newest_ok m e : map_ok m -> BlxEntry_ok e -> map_ok (keep_newest m e).
Proof.
  intros [Hs Hf] He. split; [now apply keep_newest_sorted|]. unfold keep_newest.
  destruct (bt_get _ m); [destruct (_ <=? _)|]; auto using bt_insert_Forall.
Qed.
Lemma keep_newest_get_ne m e k :
  k <> BlxEntry_key e -> bt_get k (keep_newest m e) = bt_get k m.
Proof.
  intros Hne. unfold keep_newest.
  destruct (bt_get _ m); [destruct (_ <=? _)|]; now rewrite ?bt_get_insert_ne.
Qed.
Lemma keep_newest_get_eq m e :
  bt_get (BlxEntry_key e) (keep_newest m e)
  = Some match bt_get (BlxEntry_key e) m with
         | Some old => if BlxEntry_generation old <=? BlxEntry_generation e then e else old
         | None => e
         end.
Proof.
  unfold keep_newest. destruct (bt_get (BlxEntry_key e) m) eqn:E; [|now rewrite bt_get_insert_eq].
  destruct (_ <=? _); [now rewrite bt_get_insert_eq|exact E].
Qed.

(** The merge of a sequence of entries, as a specification. *)
Definition newest_of (k : BlockKey) (l : list BlxEntry) (r : option BlxEntry) : Prop :=
  match r with
  | Some e => In e l /\ BlxEntry_key e = k
              /\ forall e', In e' l -> BlxEntry_key e' = k ->
                 BlxEntry_generation e' <= BlxEntry_generation e
  | None => forall e', In e' l -> BlxEntry_key e' <> k
  end.
Lemma merge_newest k l : newest_of k l (bt_get k (fold_left keep_newest l [])).
Proof.
  induction l as [|e l IH] using rev_ind; [intros e' []|].
  rewrite fold_left_app. simpl. set (m := fold_left keep_newest l []) in *.
  destruct (decide (k = BlxEntry_key e)) as [->|Hne].
  - rewrite keep_newest_get_eq. destruct (bt_get (BlxEntry_key e) m) as [old|]; simpl in *.
    + destruct IH as (Hin & Hk & Hmax).
      destruct (Z.leb_spec (BlxEntry_generation old) (BlxEntry_generation e)) as [Hle|Hlt]; simpl.
      * rewrite in_app_iff. split; [right; now left|]. split; [reflexivity|].
        intros e' Hin' Hk'. rewrite in_app_iff in Hin'. destruct Hin' as [Hin'|[->|[]]]; [|lia].
        specialize (Hmax e' Hin' Hk'). lia.
      * rewrite in_app_iff. split; [now left|]. split; [exact Hk|]. intros e' Hin' Hk'.
        rewrite in_app_iff in Hin'. destruct Hin' as [Hin'|[->|[]]]; auto. lia.
    + rewrite in_app_iff. split; [right; now left|]. split; [reflexivity|]. intros e' Hin' Hk'.
      rewrite in_app_iff in Hin'. destruct Hin' as [Hin'|[->|[]]]; [|lia]. now destruct (IH e' Hin').
  - rewrite keep_newest_get_ne by exact Hne. destruct (bt_get k m) as [r|]; simpl in *.
    + destruct IH as (Hin & Hk & Hmax). rewrite in_app_iff. split; [now left|]. split; [exact Hk|].
      intros e' Hin' Hk'. rewrite in_app_iff in Hin'. destruct Hin' as [Hin'|[->|[]]]; auto. congruence.
    + intros e' Hin'. rewrite in_app_iff in Hin'. destruct Hin' as [Hin'|[->|[]]]; auto.
Qed.

(** Merging a map's own entries in ascending order rebuilds it. *)
Lemma bt_insert_last (m : BTreeMap BlockKey BlxEntry) k e :
  Forall (fun x => cmp x.1 k = Lt) m -> bt_insert k e m = m ++ [(k, e)].
Proof.
  induction 1 as [|[k' e'] m Hx Hm IH]; simpl in *; [reflexivity|].
  rewrite (cmp_antisym k' k), Hx. simpl. now rewrite IH.
Qed.
Lemma keep_newest_last m e :
  Forall (fun x => cmp x.1 (BlxEntry_key e) = Lt) m ->
  keep_newest m e = m ++ [(BlxEntry_key e, e)].
Proof.
  intros Hlt. unfold keep_newest. replace (bt_get (BlxEntry_key e) m) with (@None BlxEntry).
  - now apply bt_insert_last.
  - symmetry. apply bt_get_None. intros ([k' e'] & Hk & Hin)%in_map_iff. simpl in Hk. subst k'.
    rewrite List.Forall_forall in Hlt. apply Hlt in Hin. simpl in Hin. now rewrite cmp_refl in Hin.
Qed.
Lemma merge_ascending es m :
  ascending es -> (forall x e, In x m -> In e es -> cmp x.1 (BlxEntry_key e) = Lt) ->
  fold_left keep_newest es m = m ++ map (fun e => (BlxEntry_key e, e)) es.
Proof.
  intros Ha. revert m. induction Ha as [|e es Hs IH Hlt]; intros m Hm; simpl; [now rewrite app_nil_r|].
  rewrite keep_newest_last.
  - rewrite IH, <- app_assoc; [reflexivity|]. intros x e' Hx He'. rewrite in_app_iff in Hx.
    destruct Hx as [Hx|[<-|[]]]; [apply Hm; [exact Hx|now right]|]. simpl.
    rewrite List.Forall_forall in Hlt. now apply Hlt.
  - rewrite List.Forall_forall. intros x Hx. apply Hm; [exact Hx|now left].
Qed.
Lemma map_ok_values m : map_ok m ->
  ascending (bt_values m) /\ Forall BlxEntry_ok (bt_values m)
  /\ map (fun e => (BlxEntry_key e, e)) (bt_values m) = m.
Proof.
  intros [Hs Hf]. induction Hs as [|[k e] m Hs IH Hlt]; [repeat constructor|].
  inversion Hf as [|? ? [Hk He] Hf']; subst. simpl in Hk, He. subst k.
  destruct (IH Hf') as (Ha & Hok & Hm). split; [|split].
  - constructor; [exact Ha|]. unfold bt_values. apply List.Forall_forall. intros e' Hin.
    apply in_map_iff in Hin as ([k' e0] & <- & Hin). rewrite List.Forall_forall in Hlt, Hf'.
    pose proof (Hlt _ Hin) as Hc. pose proof (Hf' _ Hin) as [Hk' _]. simpl in Hk'. subst k'.
    exact Hc.
  - constructor; auto.
  - simpl. now rewrite Hm.
Qed.
Lemma merge_values m : map_ok m -> fold_left keep_newest (bt_values m) [] = m.
Proof.
  intros Hm. destruct (map_ok_values m Hm) as (Ha & _ & He).
  rewrite merge_ascending by (exact Ha || intros ? ? []). exact He.
Qed.
End Objects.
