(* ===== verification/Lz4Block.v ===== *)
(** * LZ4 blocks

    An instance of the class [Lz4] that obeys [Lz4Laws]: a decompressor for
    the LZ4 block format and a compressor that emits one literal-only
    sequence. It shows that the laws can hold, it makes concrete BLX files
    computable, and it exhibits the one thing the readers of [blx.rs] take for
    granted: that a stored block decompresses to a whole page. *)

From S2P Require Import Prelude Format Crc32c Types OrdMap Blx BlxFile.

(** ** The format *)
Fixpoint lz4_read_length (input : bytes) (acc : Z) : option (Z * bytes) :=
  match input with
  | [] => None
  | b :: input => if b =? 255 then lz4_read_length input (acc + 255) else Some (acc + b, input)
  end.
Definition lz4_nibble (nibble : Z) (input : bytes) : option (Z * bytes) :=
  if nibble =? 15 then lz4_read_length input 15 else Some (nibble, input).
Fixpoint lz4_copy (n : nat) (offset : nat) (out : bytes) : bytes :=
  match n with
  | O => out
  | S n => lz4_copy n offset (out ++ [List.nth (length out - offset) out 0])
  end.

(** One sequence per step; [limit] is the size of the output buffer. The
    output may be shorter than the buffer. *)
Fixpoint lz4_sequences (fuel : nat) (limit : Z) (input out : bytes) : option bytes :=
  match fuel, input with
  | O, _ | _, [] => None
  | S fuel, token :: input =>
      match lz4_nibble (token / 16) input with
      | None => None
      | Some (literals, input) =>
          if (len input <? literals) || (limit <? len out + literals) then None else
          let out := out ++ take (Z.to_nat literals) input in
          match drop (Z.to_nat literals) input with
          | [] => Some out
          | [_] => None
          | lo :: hi :: input =>
              let offset := lo + 256 * hi in
              match lz4_nibble (token mod 16) input with
              | None => None
              | Some (length, input) =>
                  if (offset =? 0) || (len out <? offset) || (limit <? len out + length + 4)
                  then None
                  else lz4_sequences fuel limit input
                         (lz4_copy (Z.to_nat (length + 4)) (Z.to_nat offset) out)
              end
          end
      end
  end.

Definition lz4_write_length (n : Z) : bytes := repeat 255 (Z.to_nat (n / 255)) ++ [n mod 255].
Definition lz4_literals (b : bytes) : bytes :=
  (if len b <? 15 then [16 * len b] else 240 :: lz4_write_length (len b - 15)) ++ b.

#[export] Instance literal_lz4 : Lz4 := {
  lz4_compress := lz4_literals;
  lz4_decompress := fun input limit => lz4_sequences (S (length input)) limit input [];
  lz4_maximum_output_size := fun n => 20 + n * 11 / 10 }.

(** ** The laws *)
Lemma lz4_read_repeat k r rest acc : r <> 255 ->
  lz4_read_length (repeat 255 k ++ r :: rest) acc = Some (acc + 255 * Z.of_nat k + r, rest).
Proof.
  intros Hr. revert acc. induction k as [|k IH]; intros acc; cbn [repeat app lz4_read_length].
  - rewrite (proj2 (Z.eqb_neq _ _) Hr). f_equal. f_equal. lia.
  - rewrite Z.eqb_refl, IH. f_equal. f_equal. lia.
Qed.
Lemma lz4_read_written n rest acc : 0 <= n ->
  lz4_read_length (lz4_write_length n ++ rest) acc = Some (acc + n, rest).
Proof.
  intros Hn. unfold lz4_write_length. rewrite <- app_assoc. cbn [app].
  pose proof (Z.mod_pos_bound n 255). rewrite lz4_read_repeat by lia.
  pose proof (Z.div_mod n 255). rewrite Z2Nat.id by (apply Z.div_pos; lia). f_equal. f_equal. lia.
Qed.
Lemma take_drop_len (b : bytes) :
  take (Z.to_nat (len b)) b = b /\ drop (Z.to_nat (len b)) b = [].
Proof. rewrite len_to_nat. split; [now apply take_ge|now apply drop_ge]. Qed.

Lemma lz4_literals_read b :
  lz4_sequences (S (length (lz4_literals b))) (len b) (lz4_literals b) [] = Some b.
Proof.
  destruct (take_drop_len b) as [Ht Hd]. pose proof (len_nonneg b).
  assert (exists token rest, lz4_literals b = token :: rest
    /\ lz4_nibble (token / 16) rest = Some (len b, b)) as (token & rest & -> & Hn).
  { unfold lz4_literals. destruct (Z.ltb_spec (len b) 15).
    - exists (16 * len b), b. split; [reflexivity|]. rewrite Z.mul_comm, Z.div_mul by lia.
      unfold lz4_nibble. rewrite (proj2 (Z.eqb_neq _ _)) by lia. reflexivity.
    - exists 240, (lz4_write_length (len b - 15) ++ b). split; [reflexivity|].
      unfold lz4_nibble. change (240 / 16 =? 15) with true. cbn match.
      rewrite lz4_read_written by lia. f_equal. f_equal. lia. }
  cbn [lz4_sequences]. rewrite Hn. unfold len at 3. simpl length. rewrite Z.add_0_l, !Z.ltb_irrefl.
  cbn [orb]. now rewrite Ht, Hd.
Qed.
#[export] Instance literal_lz4_laws : Lz4Laws literal_lz4.
Proof.
  split.
  - intros b _. apply lz4_literals_read.
  - intros b Hb. unfold lz4_compress, literal_lz4, lz4_literals. pose proof (len_nonneg b).
    apply all_bytes_app_2; [|exact Hb]. destruct (Z.ltb_spec (len b) 15).
    + constructor; [unfold is_byte, fits; lia|constructor].
    + constructor; [unfold is_byte, fits; lia|]. unfold lz4_write_length.
      apply all_bytes_app_2; [apply Forall_forall; intros x Hx; apply repeat_spec in Hx as ->;
        unfold is_byte, fits; lia|].
      constructor; [|constructor]. pose proof (Z.mod_pos_bound (len b - 15) 255).
      unfold is_byte, fits. lia.
  - intros b. unfold lz4_compress, lz4_maximum_output_size, literal_lz4, lz4_literals.
    pose proof (len_nonneg b). rewrite len_app. destruct (Z.ltb_spec (len b) 15).
    + rewrite len_cons, len_nil. pose proof (Z.div_pos (len b * 11) 10). nia.
    + rewrite len_cons. unfold lz4_write_length. rewrite len_app, len_cons, len_nil.
      assert (len (repeat 255 (Z.to_nat ((len b - 15) / 255))) = (len b - 15) / 255) as ->
        by (unfold len at 1; rewrite repeat_length, Z2Nat.id by (apply Z.div_pos; lia); lia).
      Z.to_euclidean_division_equations. lia.
  - intros n Hn. unfold lz4_maximum_output_size, literal_lz4.
    Z.to_euclidean_division_equations. lia.
Qed.
