(* ===== verification/BlxBatch.v ===== *)
(** * BLX batches: what the builder and the compactor guarantee

    Theorems about [BlxBatchBuilder] and [BlxCompactor] of [blx.rs], proved
    from the object-level lemmas of [BlxFile.v]. *)

From S2P Require Import Prelude Format Types OrdMap Blx BlxFile.

Section Splitting.
Context `{L : Lz4} `{P : PageSize}.

(** The running size estimate of a chunk in [finish] and [object_ids_fit]. *)
Definition chunk_estimate (es : list BlxEntry) : Z :=
  fold_left (fun n e => n + (encoded_entry_upper_bound e + FOOTER_ENTRY_BYTES)) es
    (HEADER_BYTES + TRAILER_BYTES).
Definition one_partition (es : list BlxEntry) : Prop :=
  forall a b, In a es -> In b es ->
  BlockKey_file_partition (BlxEntry_key a) = BlockKey_file_partition (BlxEntry_key b).
(** What the splitting loop ensures of every chunk it closes. *)
Definition chunk_fits (split : bool) (es : list BlxEntry) : Prop :=
  es <> []
  /\ (length es = 1%nat
      \/ chunk_estimate es + FRAME_HEADER + FOOTER_PREFIX_BYTES <= TARGET_FILE_BYTES)
  /\ (split = true -> one_partition es).

Lemma chunk_estimate_snoc es e :
  chunk_estimate (es ++ [e])
  = chunk_estimate es + (encoded_entry_upper_bound e + FOOTER_ENTRY_BYTES).
Proof. unfold chunk_estimate. now rewrite fold_left_app. Qed.

(** The invariant of the loop after the entries [done]. *)
Definition split_inv (split : bool) (done : list BlxEntry)
    (s : list (list BlxEntry) * list BlxEntry * Z * option (Z * Z)) : Prop :=
  let '(chunks, current, estimated, partition) := s in
  concat chunks ++ current = done
  /\ Forall (chunk_fits split) chunks
  /\ estimated = chunk_estimate current
  /\ ((current = [] /\ chunks = [])
      \/ (chunk_fits split current
          /\ (split = true -> forall e, In e current ->
              partition = Some (BlockKey_file_partition (BlxEntry_key e))))).

Lemma chunk_fits_single split e : chunk_fits split [e].
Proof.
  split; [discriminate|]. split; [now left|]. intros _ a b [->|[]] [->|[]]. reflexivity.
Qed.

Lemma split_step_inv split done s e :
  split_inv split done s -> split_inv split (done ++ [e]) (split_step split s e).
Proof.
  destruct s as [[[chunks current] estimated] partition].
  intros (Hcat & Hch & He & Hcur). unfold split_step.
  destruct current as [|c current].
  - destruct Hcur as [[_ ->]|[[Hne _] _]]; [|congruence]. simpl. subst.
    split; [reflexivity|]. split; [constructor|]. split; [reflexivity|]. right.
    split; [apply chunk_fits_single|]. intros _ e' [->|[]]. reflexivity.
  - destruct Hcur as [[? _]|[Hfit Hpart]]; [discriminate|].
    destruct (should_split _ _ _ _ _) eqn:Hs.
    + split; [rewrite concat_app; simpl; rewrite app_nil_r, Hcat; reflexivity|].
      split; [apply Forall_app; auto|]. split; [reflexivity|]. right.
      split; [apply chunk_fits_single|]. intros _ e' [->|[]]. reflexivity.
    + unfold should_split in Hs. simpl in Hs. apply orb_false_iff in Hs as [Hs1 Hs2].
      apply Z.ltb_ge in Hs2. subst estimated.
      split; [now rewrite app_assoc, Hcat|]. split; [exact Hch|].
      split; [now rewrite chunk_estimate_snoc|]. right.
      assert (split = true -> forall e', In e' ((c :: current) ++ [e]) ->
        BlockKey_file_partition (BlxEntry_key e')
        = BlockKey_file_partition (BlxEntry_key e)) as Hall.
      { intros -> e' Hin. simpl in Hs1. apply negb_false_iff, bool_decide_eq_true in Hs1.
        apply in_app_iff in Hin as [Hin|[->|[]]]; [|reflexivity].
        pose proof (Hpart eq_refl e' Hin). congruence. }
      split; [|intros Ht e' Hin; now rewrite (Hall Ht e' Hin)].
      split; [discriminate|]. split.
      * right. rewrite chunk_estimate_snoc. lia.
      * intros Ht a b Ha Hb. now rewrite (Hall Ht a Ha), (Hall Ht b Hb).
Qed.
Lemma split_fold_inv split es :
  split_inv split es (fold_left (split_step split) es ([], [], HEADER_BYTES + TRAILER_BYTES, None)).
Proof.
  induction es as [|e es IH] using rev_ind; [|rewrite fold_left_app; now apply split_step_inv].
  repeat split; auto.
Qed.

Lemma split_chunks_spec split es :
  concat (split_chunks split es) = es /\ Forall (chunk_fits split) (split_chunks split es).
Proof.
  pose proof (split_fold_inv split es) as H. unfold split_chunks.
  destruct (fold_left _ es _) as [[[chunks current] estimated] partition].
  destruct H as (Hcat & Hch & _ & Hcur). destruct current as [|c current].
  - rewrite app_nil_r in Hcat. auto.
  - destruct Hcur as [[? _]|[Hfit _]]; [discriminate|].
    rewrite concat_app. simpl. rewrite app_nil_r. split; [exact Hcat|].
    apply Forall_app. auto.
Qed.

(** The counter of [object_ids_fit] runs in step with the splitter. *)
Lemma count_split_step split es :
  let '(chunks, current, estimated, partition) :=
    fold_left (split_step split) es ([], [], HEADER_BYTES + TRAILER_BYTES, None) in
  forall n0,
  fold_left (count_step split) es (n0, true, HEADER_BYTES + TRAILER_BYTES, None)
  = (n0 + len chunks, match current with [] => true | _ => false end, estimated, partition).
Proof.
  induction es as [|e es IH] using rev_ind.
  - simpl. intros n0. now rewrite Z.add_0_r.
  - rewrite fold_left_app.
    destruct (fold_left (split_step split) es _) as [[[chunks current] estimated] partition].
    unfold split_step at 1. simpl fold_left at 1.
    destruct (should_split _ estimated partition e split) eqn:Hs; intros n0;
      rewrite fold_left_app, IH; simpl; rewrite Hs; f_equal; f_equal; f_equal;
      try (destruct current; reflexivity).
    rewrite len_app, len_cons, len_nil. lia.
Qed.
Lemma count_chunks_spec split es : count_chunks split es = len (split_chunks split es).
Proof.
  pose proof (count_split_step split es) as Hc. pose proof (split_fold_inv split es) as Hi.
  unfold count_chunks, split_chunks.
  destruct (fold_left (split_step split) es _) as [[[chunks current] estimated] partition].
  rewrite Hc. simpl. destruct Hi as (Hcat & _ & _ & Hcur). destruct current as [|c current].
  - destruct Hcur as [[_ ->]|[[Hne _] _]]; [|congruence]. simpl in Hcat. now subst es.
  - destruct es; [now destruct (concat chunks)|]. rewrite len_app, len_cons, len_nil. lia.
Qed.
End Splitting.

Section Batches.
Context `{CL : CrcLaws} `{LL : Lz4Laws} `{PL : PageSizeLaws}.
Hypothesis small_pages : page_size <= 16 * 1024 * 1024.

(** ** Sizes *)
Lemma entry_frame_bound e :
  BlxEntry_ok e -> 0 <= len (entry_frame e) <= encoded_entry_upper_bound e.
Proof using LL.
  intros He. split; [apply len_nonneg|]. unfold entry_frame. rewrite len_frame_bytes.
  rewrite len_BlxEntry_payload by exact He. unfold encoded_entry_upper_bound, FRAME_HEADER.
  destruct e as [k g raw|]; [pose proof (lz4_compress_bound raw)|]; lia.
Qed.
Lemma object_size_estimate es :
  Forall BlxEntry_ok es ->
  object_size es <= chunk_estimate es + FRAME_HEADER + FOOTER_PREFIX_BYTES.
Proof using LL.
  intros Hok. unfold object_size, object_body.
  assert (len (concat (map entry_frame es)) + FOOTER_ENTRY_BYTES * len es
          <= chunk_estimate es - (HEADER_BYTES + TRAILER_BYTES)) as H; [|lia].
  induction es as [|e es IH] using rev_ind; [discriminate|].
  apply Forall_app in Hok as [Hok He]. inversion He; subst. specialize (IH Hok).
  rewrite chunk_estimate_snoc, map_app, concat_app, !len_app. simpl.
  rewrite app_nil_r, len_cons, len_nil. pose proof (entry_frame_bound e ltac:(assumption)). unfold FOOTER_ENTRY_BYTES in *. lia.
Qed.
Lemma chunk_fits_size split es :
  chunk_fits split es -> Forall BlxEntry_ok es ->
  object_size es <= MAX_FILE_BYTES
  /\ (length es = 1%nat \/ object_size es <= TARGET_FILE_BYTES).
Proof using LL PL small_pages.
  intros (_ & Hl & _) Hok. pose proof (object_size_estimate es Hok) as Hs.
  pose proof page_size_bounds. destruct Hl as [Hl|Hl].
  - split; [|now left]. destruct es as [|e [|]]; try discriminate. inversion Hok as [|? ? He]; subst.
    unfold chunk_estimate in Hs. simpl in Hs. unfold encoded_entry_upper_bound in Hs.
    destruct e as [k g raw|]; [|unfold HEADER_BYTES, FRAME_HEADER, HEADER_PAYLOAD_BYTES,
      FOOTER_ENTRY_BYTES, FOOTER_PREFIX_BYTES, TRAILER_BYTES, MAX_FILE_BYTES in *; lia].
    destruct He as (_ & _ & _ & Hr). rewrite Hr in Hs.
    assert (0 <= page_size) as Hpos by lia. pose proof (lz4_maximum_bound page_size Hpos).
    unfold HEADER_BYTES, FRAME_HEADER, HEADER_PAYLOAD_BYTES,
      FOOTER_ENTRY_BYTES, FOOTER_PREFIX_BYTES, TRAILER_BYTES, MAX_FILE_BYTES in *. lia.
  - unfold TARGET_FILE_BYTES, MAX_FILE_BYTES in *. split; [lia|right; lia].
Qed.

(** ** [finish] *)
Definition chunk_good (es : list BlxEntry) : Prop :=
  chunk_ok es /\ object_size es <= MAX_FILE_BYTES.
Fixpoint chunk_objects (m : BatchMeta) (count i : Z) (chunks : list (list BlxEntry))
  : list BlxObject :=
  match chunks with
  | [] => []
  | es :: chunks =>
      chunk_object m (bm_first_object_id m + i) i count es :: chunk_objects m count (i + 1) chunks
  end.

Lemma encode_chunks_run {E} m count chunks i :
  Forall chunk_good chunks -> 0 <= i -> i + len chunks < W32 ->
  @encode_chunks _ _ _ E m count i chunks
  = if bm_first_object_id m + i + len chunks - 1 <? W64 then Ok (chunk_objects m count i chunks)
    else match chunks with [] => Ok [] | _ => Panic end.
Proof using LL PL small_pages.
  intros Hg. revert i. induction Hg as [|es chunks [Hc Hs] Hg IH]; intros i Hi Hl.
  - simpl. now destruct (_ <? _).
  - rewrite len_cons in *. cbn [encode_chunks chunk_objects]. pose proof (len_nonneg chunks).
    rewrite (proj2 (Z.ltb_lt i _)) by lia.
    destruct (Z.ltb_spec (bm_first_object_id m + i) W64) as [Hid|Hid].
    + rewrite checked_add_Some by exact Hid. cbn [expect outcome_bind].
      rewrite encode_object_Ok by assumption. cbn [outcome_bind]. rewrite IH by lia.
      replace (bm_first_object_id m + (i + 1) + len chunks - 1)
        with (bm_first_object_id m + i + (1 + len chunks) - 1) by lia.
      destruct (Z.ltb_spec (bm_first_object_id m + i + (1 + len chunks) - 1) W64);
        [reflexivity|]. destruct chunks; [rewrite len_nil in *; lia|reflexivity].
    + unfold checked_add. rewrite (proj2 (Z.ltb_ge _ _) Hid).
      rewrite (proj2 (Z.ltb_ge _ _)) by lia. reflexivity.
Qed.

Definition builder_ok (b : BlxBatchBuilder) : Prop :=
  BatchMeta_ok (bb_meta b) /\ map_ok (bb_entries b) /\ len (bb_entries b) < W32.
Definition builder_chunks (b : BlxBatchBuilder) : list (list BlxEntry) :=
  split_chunks (bb_split_at_file_partitions b) (bt_values (bb_entries b)).

Lemma ascending_app a b : ascending (a ++ b) -> ascending a /\ ascending b.
Proof.
  unfold ascending. induction a as [|e a IH]; simpl; intros H; [repeat constructor; exact H|].
  apply Sorted.StronglySorted_inv in H as [H1 H2]. destruct (IH H1) as [Ha Hb].
  apply Forall_app in H2 as [H2 _]. split; [now constructor|exact Hb].
Qed.
Lemma ascending_concat chunks : ascending (concat chunks) -> Forall ascending chunks.
Proof.
  induction chunks as [|c cs IH]; simpl; intros H; [constructor|].
  apply ascending_app in H as [H1 H2]. auto.
Qed.
Lemma Forall_concat_parts {A} (Q : A -> Prop) ls : Forall Q (concat ls) -> Forall (Forall Q) ls.
Proof.
  induction ls as [|l ls IH]; simpl; intros H; [constructor|].
  apply Forall_app in H as [H1 H2]. auto.
Qed.
Lemma len_concat_le {A} (ls : list (list A)) :
  Forall (fun l => l <> []) ls -> len ls <= len (concat ls).
Proof.
  induction 1 as [|l ls Hl Hls IH]; simpl; [discriminate|]. rewrite len_app, len_cons.
  destruct l; [congruence|]. rewrite len_cons. pose proof (len_nonneg l). lia.
Qed.

Lemma builder_chunks_good b : builder_ok b ->
  concat (builder_chunks b) = bt_values (bb_entries b)
  /\ Forall chunk_good (builder_chunks b) /\ len (builder_chunks b) <= len (bb_entries b)
  /\ Forall (chunk_fits (bb_split_at_file_partitions b)) (builder_chunks b).
Proof using LL PL small_pages.
  intros (_ & Hm & Hl). destruct (map_ok_values _ Hm) as (Ha & Hok & _).
  destruct (split_chunks_spec (bb_split_at_file_partitions b) (bt_values (bb_entries b))) as [Hcat Hfit].
  fold (builder_chunks b) in *. split; [exact Hcat|].
  rewrite <- Hcat in Ha, Hok. apply ascending_concat in Ha. apply Forall_concat_parts in Hok.
  rewrite List.Forall_forall in Ha, Hok. split; [|split; [|exact Hfit]].
  - rewrite List.Forall_forall in *. intros es Hin. pose proof (Hfit es Hin) as Hf.
    destruct (chunk_fits_size _ es Hf (Hok es Hin)) as [Hs _].
    destruct Hf as [Hne _]. repeat split; auto.
  - assert (len (bb_entries b) = len (concat (builder_chunks b))) as ->
      by (rewrite Hcat; unfold bt_values; now rewrite len_map).
    apply len_concat_le. eapply List.Forall_impl; [|exact Hfit]. now intros es [Hne _].
Qed.

Lemma builder_empty b : bb_entries b = [] -> builder_chunks b = [].
Proof. intros H. unfold builder_chunks. now rewrite H. Qed.
Lemma builder_fit_chunks b :
  BlxBatchBuilder_object_ids_fit b
  = (len (builder_chunks b) =? 0)
    || (bm_first_object_id (bb_meta b) + len (builder_chunks b) - 1 <? W64).
Proof.
  unfold BlxBatchBuilder_object_ids_fit. rewrite count_chunks_spec.
  fold (builder_chunks b). f_equal. unfold checked_add.
  replace (bm_first_object_id (bb_meta b) + (len (builder_chunks b) - 1))
    with (bm_first_object_id (bb_meta b) + len (builder_chunks b) - 1) by lia.
  destruct (_ <? W64) eqn:E; [now apply bool_decide_eq_true|]. apply bool_decide_eq_false.
  now intros [x ?].
Qed.
Lemma finish_run {E} b : builder_ok b ->
  @BlxBatchBuilder_finish _ _ _ E b
  = if BlxBatchBuilder_object_ids_fit b
    then Ok (chunk_objects (bb_meta b) (len (builder_chunks b)) 0 (builder_chunks b))
    else Panic.
Proof using LL PL small_pages.
  intros Hb. destruct (builder_chunks_good b Hb) as (_ & Hg & Hlen & _).
  rewrite builder_fit_chunks. destruct Hb as (_ & _ & Hl). unfold BlxBatchBuilder_finish.
  destruct (bb_entries b) as [|x l] eqn:Ee.
  - rewrite builder_empty by exact Ee. reflexivity.
  - fold (builder_chunks b). rewrite <- Ee in *. fold (builder_chunks b).
    rewrite (proj2 (Z.ltb_lt (len (builder_chunks b)) _)) by lia.
    rewrite encode_chunks_run by (assumption || lia). rewrite Z.add_0_r.
    destruct (_ <? W64) eqn:Ef; [now rewrite orb_true_r|]. rewrite orb_false_r.
    destruct (builder_chunks b) as [|c cs] eqn:Ec; [reflexivity|].
    rewrite len_cons. pose proof (len_nonneg cs).
    rewrite (proj2 (Z.eqb_neq _ _)) by lia. reflexivity.
Qed.

(** ** Reading files back *)
Lemma add_rows pre es post newest :
  Forall BlxEntry_ok es -> len pre + len (object_body es) < W32 ->
  fold_outcome (compactor_add_row (pre ++ object_body es ++ post)) newest
    (object_rows (len pre) es)
  = Ok (fold_left keep_newest es newest).
Proof using CL LL PL small_pages.
  intros Hok. revert pre newest. induction Hok as [|e es He Hok IH]; intros pre newest Hl; [reflexivity|].
  rewrite object_body_cons, len_app in *. cbn [object_rows fold_outcome fold_left].
  pose proof (len_nonneg (object_body es)).
  unfold compactor_add_row at 2. cbn [fe_offset fe_length entry_row].
  rewrite checked_add_Some by lia. cbn [ok_or outcome_bind].
  rewrite app_assoc_r, slice_get_app. cbn [ok_or outcome_bind].
  rewrite BlxEntry_open_frame by assumption. cbn [outcome_bind].
  specialize (IH (pre ++ entry_frame e)). rewrite len_app, app_assoc_r in IH. apply IH. lia.
Qed.

(** [file_holds f es]: the file [f] is an object written for the entries [es]. *)
Inductive file_holds : BlxObject -> list BlxEntry -> Prop :=
| file_holds_intro m id index count es :
    chunk_good es -> BatchMeta_ok m -> fits W64 id -> 0 <= index < count -> count < W32 ->
    file_holds (chunk_object m id index count es) es.

Lemma file_holds_scan f es : file_holds f es ->
  BlxObject_scan (bo_bytes f) = Ok (bo_header f, object_footer es)
  /\ bo_footer f = object_footer es.
Proof using CL LL PL small_pages.
  intros [m id index count es0 [Hc Hs] Hm Hid Hi Hcount].
  split; [|reflexivity]. now apply scan_object.
Qed.
Lemma file_holds_open f es : file_holds f es -> BlxObject_open (bo_bytes f) = Ok f.
Proof using CL LL PL small_pages.
  intros Hh. destruct (file_holds_scan f es Hh) as [Hscan _].
  destruct Hh as [m id index count es0 [Hc Hs] Hm Hid Hi Hcount].
  unfold BlxObject_open. rewrite Hscan. cbn [outcome_bind].
  unfold chunk_object. cbn [bo_bytes bo_header]. rewrite len_object_bytes.
  destruct (object_size_parts es0 Hs) as (Hbody & Hes & _ & Hf).
  assert (TRAILER_BYTES <= object_size es0 /\ fits W32 (HEADER_BYTES + len (object_body es0))) as [Ht Ho].
  { unfold fits, object_size, HEADER_BYTES, FRAME_HEADER, HEADER_PAYLOAD_BYTES, FOOTER_PREFIX_BYTES,
      FOOTER_ENTRY_BYTES, TRAILER_BYTES, MAX_FILE_BYTES in *. lia. }
  unfold checked_sub. rewrite (proj2 (Z.leb_le _ _) Ht). cbn [ok_or outcome_bind].
  pose proof (object_trailer_slice (E := DecodeError) (chunk_header m id index count es0) es0) as Hsl.
  unfold slice_index in Hsl. destruct (slice_get _ _ _) as [t|]; [|discriminate]. injection Hsl as ->.
  cbn [ok_or outcome_bind]. rewrite open_encode_trailer by (exact Ho || (split; [apply len_nonneg|exact Hf])).
  reflexivity.
Qed.
Lemma add_object_file newest f es :
  file_holds f es ->
  BlxCompactor_add_object newest (bo_bytes f) = Ok (fold_left keep_newest es newest).
Proof using CL LL PL small_pages.
  intros Hf. destruct (file_holds_scan f es Hf) as [Hscan _].
  destruct Hf as [m id index count es0 [Hc Hs] Hm Hid Hi Hcount].
  unfold BlxCompactor_add_object. rewrite Hscan. cbn [outcome_bind bf_entries object_footer].
  destruct Hc as (_ & Hok & _). destruct (object_size_parts es0 Hs) as (Hb & _).
  unfold chunk_object. cbn [bo_bytes]. unfold object_bytes.
  rewrite <- (len_header_frame (chunk_header m id index count es0)) at 2.
  apply add_rows; [exact Hok|]. rewrite len_header_frame.
  unfold HEADER_BYTES, FRAME_HEADER, HEADER_PAYLOAD_BYTES, MAX_FILE_BYTES in *. lia.
Qed.

(** The compactor's merge over a list of files. *)
Definition merge_files (newest : BTreeMap BlockKey BlxEntry) (files : list BlxObject)
  : outcome DecodeError (BTreeMap BlockKey BlxEntry) :=
  fold_outcome (fun newest f => BlxCompactor_add_object newest (bo_bytes f)) newest files.

Lemma merge_files_hold files ess newest :
  Forall2 file_holds files ess ->
  merge_files newest files = Ok (fold_left keep_newest (concat ess) newest).
Proof using CL LL PL small_pages.
  intros Hf. revert newest. unfold merge_files.
  induction Hf as [|f es files ess Hfe Hf IH]; intros newest; simpl; [reflexivity|].
  rewrite (add_object_file newest f es Hfe). cbn [outcome_bind]. rewrite IH, fold_left_app. reflexivity.
Qed.

Lemma chunk_objects_hold m count i chunks :
  BatchMeta_ok m -> Forall chunk_good chunks -> 0 <= i -> i + len chunks <= count ->
  count < W32 -> bm_first_object_id m + i + len chunks - 1 < W64 ->
  Forall2 file_holds (chunk_objects m count i chunks) chunks.
Proof.
  intros Hm Hg. revert i. induction Hg as [|es chunks He Hg IH]; intros i Hi Hc Hcount Hid; simpl;
    [constructor|]. rewrite len_cons in *. pose proof (len_nonneg chunks).
  constructor; [|apply IH; lia]. destruct Hm as (?&?&Hf&?). unfold fits in *.
  constructor; auto; unfold BatchMeta_ok, fits; intuition lia.
Qed.

Lemma finish_holds b files : builder_ok b ->
  @BlxBatchBuilder_finish _ _ _ DecodeError b = Ok files ->
  files = chunk_objects (bb_meta b) (len (builder_chunks b)) 0 (builder_chunks b)
  /\ Forall2 file_holds files (builder_chunks b).
Proof using LL PL small_pages.
  intros Hb Hf. rewrite finish_run in Hf by exact Hb.
  destruct (BlxBatchBuilder_object_ids_fit b) eqn:Hfit; [|discriminate]. injection Hf as <-.
  split; [reflexivity|]. destruct (builder_chunks_good b Hb) as (_ & Hg & Hlen & _).
  rewrite builder_fit_chunks in Hfit. destruct Hb as (Hm & _ & Hl).
  destruct (builder_chunks b) as [|c cs] eqn:Ec; [constructor|]. rewrite <- Ec in *.
  assert (0 < len (builder_chunks b)) by (rewrite Ec, len_cons; pose proof (len_nonneg cs); lia).
  apply chunk_objects_hold; auto; lia.
Qed.

(** C20. What a batch writes is what its files hold. If [finish] returns files
    then every one of them scans to its header and footer, opens to itself, with
    the footer where its trailer says, and stays within 64 MiB, and merging the
    files entry by entry, as recovery and compaction do, rebuilds exactly the
    builder's map of blocks. *)
Theorem batch_round_trip b files : builder_ok b ->
  @BlxBatchBuilder_finish _ _ _ DecodeError b = Ok files ->
  merge_files [] files = Ok (bb_entries b)
  /\ Forall (fun f => BlxObject_scan (bo_bytes f) = Ok (bo_header f, bo_footer f)
                      /\ BlxObject_open (bo_bytes f) = Ok f
                      /\ bo_checksum f = checksum64 (bo_bytes f)
                      /\ len (bo_bytes f) <= MAX_FILE_BYTES) files.
Proof using CL LL PL small_pages.
  intros Hb Hf. destruct (finish_holds b files Hb Hf) as [_ Hh].
  destruct (builder_chunks_good b Hb) as (Hcat & _). split.
  - rewrite (merge_files_hold files (builder_chunks b) [] Hh), Hcat.
    f_equal. apply merge_values, Hb.
  - clear Hf Hcat. induction Hh as [|f es files chunks Hfe Hh IH]; constructor; [|exact IH].
    destruct (file_holds_scan f es Hfe) as [Hscan Hfoot]. rewrite Hfoot. split; [exact Hscan|].
    split; [exact (file_holds_open f es Hfe)|].
    destruct Hfe as [m id index count es0 [Hc Hs] _ _ _ _]. split; [reflexivity|].
    unfold chunk_object. cbn [bo_bytes]. now rewrite len_object_bytes.
Qed.

(** [object_ids_fit] predicts [finish] exactly, although it counts the
    chunks with a loop of its own: when it answers yes, [finish] returns one
    file per counted chunk; when it answers no, [finish] would panic on the
    object id overflow. *)
Lemma object_ids_fit_exact b : builder_ok b ->
  (BlxBatchBuilder_object_ids_fit b = true ->
   exists files, @BlxBatchBuilder_finish _ _ _ DecodeError b = Ok files
     /\ len files = count_chunks (bb_split_at_file_partitions b) (bt_values (bb_entries b)))
  /\ (BlxBatchBuilder_object_ids_fit b = false ->
      @BlxBatchBuilder_finish _ _ _ DecodeError b = Panic).
Proof using LL PL small_pages.
  intros Hb. rewrite finish_run by exact Hb. split; intros ->; [|reflexivity].
  eexists. split; [reflexivity|]. rewrite count_chunks_spec. fold (builder_chunks b).
  generalize (len (builder_chunks b)) at 1. generalize 0. generalize (builder_chunks b).
  induction l as [|c cs IH]; intros i n; simpl; [reflexivity|]. now rewrite !len_cons, IH.
Qed.

(** ** Layout of a batch *)
Lemma chunk_objects_nth m count i chunks n f :
  chunk_objects m count i chunks !! n = Some f ->
  exists es, chunks !! n = Some es
    /\ f = chunk_object m (bm_first_object_id m + (i + Z.of_nat n)) (i + Z.of_nat n) count es.
Proof.
  revert i n. induction chunks as [|c cs IH]; intros i n; [now destruct n|].
  destruct n as [|n]; cbn [chunk_objects]; intros H.
  - injection H as <-. exists c. rewrite !Z.add_0_r. auto.
  - apply IH in H as (es & He & ->). exists es. split; [exact He|].
    replace (i + 1 + Z.of_nat n) with (i + Z.of_nat (S n)) by lia. reflexivity.
Qed.
Lemma ascending_across a b x y : ascending (a ++ b) -> In x a -> In y b -> key_lt x y.
Proof.
  induction a as [|e a IH]; simpl; intros Ha Hx Hy; [destruct Hx|].
  apply Sorted.StronglySorted_inv in Ha as [Ha Hlt]. destruct Hx as [->|Hx]; [|now apply IH].
  rewrite List.Forall_forall in Hlt. apply Hlt, in_app_iff. now right.
Qed.

(** The n-th file carries object id [first + n] and chunk n of the count, its
    keys lie in one storage-file partition, it is at most 32 MiB unless it holds
    a single block, and its keys are below those of every later file. *)
Lemma finish_layout b files n f : builder_ok b ->
  @BlxBatchBuilder_finish _ _ _ DecodeError b = Ok files -> files !! n = Some f ->
  bh_object_id (bo_header f) = bm_first_object_id (bb_meta b) + Z.of_nat n
  /\ bh_chunk_index (bo_header f) = Z.of_nat n
  /\ bh_chunk_count (bo_header f) = len files
  /\ (bh_entry_count (bo_header f) = 1 \/ len (bo_bytes f) <= TARGET_FILE_BYTES)
  /\ (bb_split_at_file_partitions b = true ->
      BlockKey_file_partition (bh_first_key (bo_header f))
      = BlockKey_file_partition (bh_last_key (bo_header f)))
  /\ forall n' f', (n < n')%nat -> files !! n' = Some f' ->
     cmp (bh_last_key (bo_header f)) (bh_first_key (bo_header f')) = Lt.
Proof using LL PL small_pages.
  intros Hb Hf Hn. destruct (finish_holds b files Hb Hf) as [-> Hh].
  destruct (builder_chunks_good b Hb) as (Hcat & Hg & _ & Hfit).
  pose proof (Forall2_length Hh) as Hlen.
  apply chunk_objects_nth in Hn as (es & Hes & ->). rewrite Z.add_0_l.
  pose proof (proj1 (Forall_lookup _ _) Hg _ _ Hes) as [Hc Hs].
  pose proof (proj1 (Forall_lookup _ _) Hfit _ _ Hes) as Hfe.
  destruct (chunk_first_last es Hc) as (a & z & Ha & Hz & Hia & Hiz & _).
  unfold chunk_object. cbn [bo_header bo_bytes]. unfold chunk_header. rewrite Ha, Hz.
  cbn [from_option object_header bh_object_id bh_chunk_index bh_chunk_count bh_entry_count
    bh_first_key bh_last_key]. rewrite len_object_bytes.
  split; [reflexivity|]. split; [reflexivity|]. split; [symmetry; unfold len at 1; now rewrite Hlen|].
  split; [|split].
  - destruct (chunk_fits_size _ es Hfe) as [_ [H1|H1]]; [apply Hc| |now right].
    left. unfold len. rewrite H1. reflexivity.
  - intros Ht. destruct Hfe as (_ & _ & Hp). now apply Hp.
  - intros n' f' Hlt Hn'. apply chunk_objects_nth in Hn' as (es' & Hes' & ->).
    pose proof (proj1 (Forall_lookup _ _) Hg _ _ Hes') as [Hc' _].
    destruct (chunk_first_last es' Hc') as (a' & z' & Ha' & Hz' & Hia' & _).
    unfold chunk_object. cbn [bo_header]. unfold chunk_header. rewrite Ha', Hz'.
    cbn [from_option object_header bh_first_key].
    pose proof (take_drop_middle _ _ _ Hes') as Hsplit.
    destruct Hb as (_ & Hm & _). destruct (map_ok_values _ Hm) as (Hasc & _ & _).
    rewrite <- Hcat, <- Hsplit, concat_app in Hasc.
    apply (ascending_across _ _ z a' Hasc).
    + apply in_concat. exists es. split; [|exact Hiz]. apply list_elem_of_In.
      apply list_elem_of_lookup. exists n. now rewrite lookup_take_lt.
    + simpl. apply in_app_iff. now left.
Qed.

(** ** Compaction *)
Definition keep_entry (retain_tombstones : bool) (e : BlxEntry) : bool :=
  match e with Entry_Data _ _ _ => true | Entry_Tombstone _ _ => retain_tombstones end.

Lemma emit_fold retain es b :
  Forall BlxEntry_ok es ->
  fold_outcome (compactor_emit retain) b es
  = Ok {| bb_meta := bb_meta b;
          bb_entries := fold_left keep_newest (List.filter (keep_entry retain) es) (bb_entries b);
          bb_split_at_file_partitions := bb_split_at_file_partitions b |}.
Proof.
  intros Hok. revert b. induction Hok as [|e es He Hok IH]; intros b; simpl; [now destruct b|].
  destruct e as [k g raw|k g]; simpl.
  - destruct He as (_ & _ & _ & Hl). unfold BlxBatchBuilder_add_data.
    rewrite (proj2 (Z.eqb_eq _ _) Hl). cbn [outcome_bind]. now rewrite IH.
  - destruct retain; cbn [outcome_bind]; now rewrite IH.
Qed.

Lemma filter_values (f : BlxEntry -> bool) (m : BTreeMap BlockKey BlxEntry) :
  List.filter f (bt_values m) = bt_values (List.filter (fun x => f x.2) m).
Proof.
  induction m as [|[k e] m IH]; simpl; [reflexivity|]. destruct (f e); simpl; now rewrite IH.
Qed.
Lemma filter_map_ok f m : map_ok m -> map_ok (List.filter f m).
Proof.
  intros [Hs Hf]. split; [|now apply Forall_list_filter].
  unfold bt_sorted in *. induction Hs as [|x m Hs IH Hlt]; simpl; [constructor|].
  inversion Hf; subst. destruct (f x); [constructor|]; auto using Forall_list_filter.
Qed.
Lemma bt_get_filter (f : BlxEntry -> bool) k (m : BTreeMap BlockKey BlxEntry) :
  bt_sorted m ->
  bt_get k (List.filter (fun x => f x.2) m)
  = match bt_get k m with Some e => if f e then Some e else None | None => None end.
Proof.
  induction 1 as [|[k' e] m Hs IH Hlt]; simpl; [reflexivity|].
  destruct (cmp k k') eqn:Ek; destruct (f e); simpl; rewrite ?Ek; try exact IH; auto.
  apply cmp_eq in Ek as ->. apply (bt_get_below k' e). now apply Forall_list_filter.
Qed.
Lemma fold_keep_newest_ok es m : map_ok m -> Forall BlxEntry_ok es ->
  map_ok (fold_left keep_newest es m).
Proof.
  intros Hm Hok. revert m Hm. induction Hok as [|e es He Hok IH]; intros m Hm; simpl; auto.
  now apply IH, keep_newest_ok.
Qed.
Lemma keep_newest_len es (m : BTreeMap BlockKey BlxEntry) :
  len (fold_left keep_newest es m) <= len m + len es.
Proof.
  revert m. induction es as [|e es IH]; intros m; simpl; [rewrite len_nil; lia|].
  specialize (IH (keep_newest m e)). rewrite len_cons.
  assert (len (keep_newest m e) <= len m + 1); [|lia].
  assert (forall k v, len (bt_insert k v m) <= len m + 1) as Hi.
  { clear. intros k v. induction m as [|[k' v'] m IH]; simpl; [rewrite len_cons, len_nil; lia|].
    destruct (cmp k k'); rewrite ?len_cons; lia. }
  unfold keep_newest. destruct (bt_get _ m); [destruct (_ <=? _)|]; auto; lia.
Qed.

Lemma file_holds_entries files ess :
  Forall2 file_holds files ess -> Forall BlxEntry_ok (concat ess).
Proof.
  induction 1 as [|f es files ess Hfe Hf IH]; simpl; [constructor|].
  apply Forall_app. split; [|exact IH]. destruct Hfe as [m id index count es0 [Hc _] _ _ _ _].
  apply Hc.
Qed.
Lemma compactor_builder meta newest retain :
  BatchMeta_ok meta -> map_ok newest ->
  BlxCompactor_finish newest meta retain
  = BlxBatchBuilder_finish
      {| bb_meta := meta; bb_entries := List.filter (fun x => keep_entry retain x.2) newest;
         bb_split_at_file_partitions := true |}.
Proof.
  intros Hm Hn. unfold BlxCompactor_finish, BlxBatchBuilder_new_partitioned, BlxBatchBuilder_new.
  destruct Hm as (_&_&_&_&_&_&_&_&Hle). rewrite (proj2 (Z.leb_le _ _) Hle). cbn [outcome_bind].
  destruct (map_ok_values newest Hn) as (_ & Hok & _). rewrite emit_fold by exact Hok.
  cbn [outcome_bind bb_meta bb_entries bb_split_at_file_partitions].
  rewrite filter_values, merge_values by now apply filter_map_ok. reflexivity.
Qed.

(** Compaction is the batch of the newest entries of its inputs. *)
Definition compaction_builder (meta : BatchMeta) (retain : bool) (es : list BlxEntry) : BlxBatchBuilder :=
  {| bb_meta := meta;
     bb_entries := List.filter (fun x => keep_entry retain x.2) (fold_left keep_newest es []);
     bb_split_at_file_partitions := true |}.
Lemma compact_run meta inputs ess retain :
  BatchMeta_ok meta -> Forall2 file_holds inputs ess -> len (concat ess) < W32 ->
  builder_ok (compaction_builder meta retain (concat ess))
  /\ len (bb_entries (compaction_builder meta retain (concat ess))) <= len (concat ess)
  /\ compact_objects meta inputs retain
     = BlxBatchBuilder_finish (compaction_builder meta retain (concat ess)).
Proof using CL LL PL small_pages.
  intros Hm Hin Hl. pose proof (file_holds_entries inputs ess Hin) as Hok.
  assert (map_ok (fold_left keep_newest (concat ess) [])) as Hn
    by (apply fold_keep_newest_ok; [split; constructor|exact Hok]).
  assert (len (bb_entries (compaction_builder meta retain (concat ess))) <= len (concat ess)) as Hlen.
  { pose proof (len_filter_le (fun x => keep_entry retain x.2) (fold_left keep_newest (concat ess) [])).
    pose proof (keep_newest_len (concat ess) []). rewrite len_nil in *. simpl. lia. }
  split; [split; [exact Hm|split; [now apply filter_map_ok|lia]]|]. split; [exact Hlen|].
  unfold compact_objects. fold (merge_files [] inputs).
  rewrite (merge_files_hold inputs ess [] Hin). cbn [outcome_bind]. now apply compactor_builder.
Qed.
Lemma finish_merge b files : builder_ok b ->
  @BlxBatchBuilder_finish _ _ _ DecodeError b = Ok files -> merge_files [] files = Ok (bb_entries b).
Proof using CL LL PL small_pages.
  intros Hb Hf. destruct (finish_holds b _ Hb Hf) as [_ Hh]. rewrite (merge_files_hold _ _ [] Hh).
  destruct (builder_chunks_good b Hb) as (Hcat & _). rewrite Hcat. f_equal. apply merge_values, Hb.
Qed.

(** C19. Compaction loses nothing and invents nothing. Given files that hold
    entries, it returns files whose merge gives, for every key, the entry of
    the newest generation among all inputs; with [retain_tombstones = false]
    the only difference is that a key whose newest entry is a tombstone has no
    entry any more. The object ids of the output are assumed to fit. *)
Theorem compaction_keeps_newest meta inputs ess retain :
  BatchMeta_ok meta -> Forall2 file_holds inputs ess ->
  len (concat ess) < W32 -> bm_first_object_id meta + len (concat ess) <= W64 ->
  exists files merged,
    compact_objects meta inputs retain = Ok files
    /\ merge_files [] files = Ok merged
    /\ forall k, exists newest, newest_of k (concat ess) newest
       /\ bt_get k merged = match newest with
                            | Some e => if keep_entry retain e then Some e else None
                            | None => None
                            end.
Proof using CL LL PL small_pages.
  intros Hm Hin Hl Hid. destruct (compact_run meta inputs ess retain Hm Hin Hl) as (Hb & Hlen & Hrun).
  set (b := compaction_builder meta retain (concat ess)) in *.
  destruct (builder_chunks_good b Hb) as (_ & _ & Hch & _).
  assert (BlxBatchBuilder_object_ids_fit b = true) as Hfit.
  { rewrite builder_fit_chunks. apply orb_true_iff. right. apply Z.ltb_lt. simpl bb_meta. lia. }
  rewrite finish_run, Hfit in Hrun by exact Hb.
  eexists _, (bb_entries b). split; [exact Hrun|]. split.
  - apply finish_merge; [exact Hb|]. now rewrite finish_run, Hfit.
  - intros k. exists (bt_get k (fold_left keep_newest (concat ess) [])). split; [apply merge_newest|].
    apply bt_get_filter, fold_keep_newest_ok; [split; constructor|now apply (file_holds_entries inputs)].
Qed.
End Batches.

(** ** Object ids reserved for compaction *)
Lemma compaction_start_Some slot start :
  0 <= slot -> compaction_object_id_start slot = Some start ->
  start = W64 - (slot + 1) * W32 /\ 0 < start.
Proof.
  intros Hs. unfold compaction_object_id_start, checked_mul, checked_sub,
    COMPACTION_OBJECT_IDS_PER_BATCH. change (u32_MAX + 1) with W32.
  destruct (checked_add W64 slot 1) as [r|] eqn:E1; [|discriminate]. simpl.
  apply checked_add_inv in E1 as [-> H1].
  destruct (Z.ltb_spec ((slot + 1) * W32) W64) as [H2|]; [|discriminate]. simpl.
  destruct (Z.leb_spec ((slot + 1) * W32) u64_MAX) as [H3|]; [|discriminate]. simpl.
  intros [-> H4]%checked_add_inv. lia.
Qed.

(** Two compaction slots never share an object id: each slot that gets a
    start owns 2^32 ids (as many as a batch can have chunks) inside the 64-bit
    id space, and the ranges of different slots are disjoint. *)
Lemma compaction_ids_disjoint a b sa sb :
  0 <= a -> 0 <= b -> a <> b ->
  compaction_object_id_start a = Some sa -> compaction_object_id_start b = Some sb ->
  0 < sa /\ sa + COMPACTION_OBJECT_IDS_PER_BATCH <= W64
  /\ (sa + COMPACTION_OBJECT_IDS_PER_BATCH <= sb \/ sb + COMPACTION_OBJECT_IDS_PER_BATCH <= sa).
Proof.
  intros Ha Hb Hne Hsa Hsb. apply compaction_start_Some in Hsa as [-> ?]; [|exact Ha].
  apply compaction_start_Some in Hsb as [-> ?]; [|exact Hb].
  unfold COMPACTION_OBJECT_IDS_PER_BATCH. lia.
Qed.
