(* ===== verification/BlxScan.v ===== *)
(** * [BlxObject::scan] verifies every byte of a file

    Inversion of a successful scan (the header, every indexed entry, the
    footer and the trailer tile the file and each carries its checksum) and
    its consequence: no single-byte corruption of a written file is accepted. *)

From S2P Require Import Prelude Format Types OrdMap Blx BlxFile BlxBatch.

Section Scan.
Context `{CL : CrcLaws} `{LL : Lz4Laws} `{PL : PageSizeLaws}.

(** The entries tile [from, to) and each is a checksummed frame. *)
Fixpoint rows_tile (bs : bytes) (from to_ : Z) (rows : list FooterEntry) : Prop :=
  match rows with
  | [] => from = to_
  | r :: rows =>
      fe_offset r = from /\ 0 <= fe_length r
      /\ (exists p, slice_get bs from (from + fe_length r) = Some (frame_bytes MAGIC_ENTRY p)
                    /\ len p < W32)
      /\ rows_tile bs (from + fe_length r) to_ rows
  end.

Definition scan_parts (bs : bytes) (h : BlxHeader) (f : BlxFooter) (o l : Z) : Prop :=
  slice_get bs 0 HEADER_BYTES = Some (header_frame h)
  /\ slice_get bs (len bs - TRAILER_BYTES) (len bs) = Some (encode_trailer o l)
  /\ slice_get bs o (o + l) = Some (footer_frame f)
  /\ HEADER_BYTES <= o /\ fits W32 o /\ fits W32 l /\ o + l + TRAILER_BYTES = len bs
  /\ BlxFooter_ok f /\ len (BlxFooter_payload f) < W32
  /\ rows_tile bs HEADER_BYTES o (bf_entries f).

Lemma slice_all_bytes bs i j s : all_bytes bs -> slice_get bs i j = Some s -> all_bytes s.
Proof.
  intros Hb. unfold slice_get. destruct (_ && _); [|discriminate]. intros [= <-].
  apply all_bytes_take. now apply all_bytes_drop.
Qed.
Lemma slice_index_Some {E} bs i j s : @slice_index E bs i j = Ok s <-> slice_get bs i j = Some s.
Proof. unfold slice_index. destruct (slice_get bs i j); simpl; split; congruence. Qed.
Lemma frame_short magic bs p :
  all_bytes bs -> open_frame magic bs = Ok p -> bs = frame_bytes magic p /\ len p < W32.
Proof. intros Hb H. apply open_frame_inv in H as (-> & Hl & _); auto. Qed.

Lemma scan_rows_inv bs fo rows from to_ :
  all_bytes bs -> Forall FooterEntry_ok rows ->
  fold_outcome (scan_entry bs fo) from rows = Ok to_ -> rows_tile bs from to_ rows.
Proof.
  intros Hb Hok. revert from. induction Hok as [|r rows Hr Hok IH]; intros from H; simpl in H.
  - now injection H.
  - apply outcome_bind_Ok in H as (e & He & H). unfold scan_entry in He. inv_ok.
    apply checked_add_inv in Ho as [-> _]. apply orb_false_iff in Hc as [Hc _].
    apply negb_false_iff, Z.eqb_eq in Hc. apply slice_index_Some in Ha0.
    destruct Hr as (_ & _ & Hlen & _). rewrite Hc in *. simpl. split; [exact Hc|].
    split; [apply Hlen|]. split; [|now apply IH].
    unfold BlxEntry_open in Ha1. apply outcome_bind_Ok in Ha1 as (p & Hp & _).
    apply frame_short in Hp as [-> Hl]; [eauto|]. eapply slice_all_bytes; eauto.
Qed.

Lemma scan_inv bs h f : all_bytes bs -> BlxObject_scan bs = Ok (h, f) ->
  exists o l, scan_parts bs h f o l.
Proof using CL PL.
  intros Hb H. unfold BlxObject_scan in H. apply outcome_bind_Ok in H as ([h' e] & Hh & H).
  apply BlxHeader_open_inv in Hh as (-> & _ & rest & Hrest); [|exact Hb].
  inv_ok. destruct a0 as [o l]. inv_ok. apply checked_add_inv in Ho as [-> _].
  apply slice_index_Some in Ha, Ha2.
  apply open_trailer_inv in Ha0 as (-> & Hfo & Hfl); [|eapply slice_all_bytes; eauto].
  exists o, l. unfold BlxFooter_open in Ha3. apply outcome_bind_Ok in Ha3 as (p & Hp & Hd).
  apply open_frame_inv in Hp as (-> & Hpl & Hpb); [|eapply slice_all_bytes; eauto].
  apply (whole_sound (WholeCodec := BlxFooter_codec)) in Hd as [Hfok ->]; [|exact Hpb].
  apply orb_false_iff in Hc0 as [Ho1 Ho2]. apply negb_false_iff, Z.eqb_eq in Ho2, Hc2.
  unfold scan_parts. split; [now apply slice_prefix; rewrite len_header_frame|].
  do 3 (split; [assumption || lia|]). do 4 (split; [assumption || lia|]).
  split; [exact Hpl|]. subst a3. apply (scan_rows_inv _ o); [exact Hb|apply Hfok|exact Ha4].
Qed.

(** ** One changed byte *)
Lemma slice_insert_in (bs : bytes) i j k y s :
  slice_get bs i j = Some s -> 0 <= i <= Z.of_nat k -> Z.of_nat k < j ->
  slice_get (<[k:=y]> bs) i j = Some (<[(k - Z.to_nat i)%nat:=y]> s).
Proof.
  unfold slice_get. intros H Hi Hj. unfold len in *. rewrite length_insert.
  destruct ((i <=? j) && (j <=? Z.of_nat (length bs))) eqn:E; [|discriminate]. injection H as <-.
  f_equal. rewrite drop_insert_ge by lia. rewrite take_insert_lt by lia. reflexivity.
Qed.
Lemma slice_insert_out (bs : bytes) i j k y :
  0 <= i -> Z.of_nat k < i \/ j <= Z.of_nat k ->
  slice_get (<[k:=y]> bs) i j = slice_get bs i j.
Proof.
  unfold slice_get, len. intros Hi Hk. rewrite length_insert.
  destruct ((i <=? j) && (j <=? Z.of_nat (length bs))) eqn:E; [|reflexivity]. f_equal.
  destruct Hk as [Hk|Hk].
  - now rewrite drop_insert_lt by lia.
  - destruct (decide (Z.to_nat i <= k)%nat).
    + rewrite drop_insert_ge by lia. now rewrite take_insert_ge by lia.
    + now rewrite drop_insert_lt by lia.
Qed.
Lemma slice_lookup (bs : bytes) i j s k :
  slice_get bs i j = Some s -> 0 <= i <= Z.of_nat k -> Z.of_nat k < j ->
  s !! (k - Z.to_nat i)%nat = bs !! k /\ (k - Z.to_nat i < length s)%nat.
Proof.
  intros H Hi Hj. destruct (slice_get_inv bs i j s) as (a & b & -> & Ha & Hs); [lia|exact H|].
  unfold len in *. split; [|lia].
  rewrite lookup_app_r by lia. rewrite lookup_app_l by lia. f_equal. lia.
Qed.

Lemma trailer_insert_ne o l o' l' k y :
  is_byte y -> (k < length (encode_trailer o l))%nat -> encode_trailer o l !! k <> Some y ->
  <[k:=y]> (encode_trailer o l) <> encode_trailer o' l'.
Proof using CL.
  intros Hy Hk Hne Heq. unfold encode_trailer in *. set (p := trailer_prefix o l) in *.
  set (p' := trailer_prefix o' l') in *.
  assert (length p = 12%nat /\ length p' = 12%nat) as [Hp Hp'].
  { pose proof (len_trailer_prefix o l). pose proof (len_trailer_prefix o' l').
    subst p p'. unfold len in *. lia. }
  assert (all_bytes p) as Hb by (unfold p, trailer_prefix; auto with bytes).
  rewrite length_app, length_to_le in Hk. destruct (decide (k < 12)%nat) as [H12|H12].
  - rewrite insert_app_l in Heq by lia. rewrite lookup_app_l in Hne by lia.
    apply app_inj_1 in Heq as [Heq Hc]; [|rewrite length_insert; lia].
    apply (crc_insert_ne p k y Hb Hy ltac:(lia) Hne). rewrite Heq.
    apply (f_equal from_le) in Hc. rewrite !from_le_to_le in Hc by apply crc32c_range. congruence.
  - rewrite insert_app_r_alt in Heq by lia. rewrite lookup_app_r in Hne by lia.
    apply app_inj_1 in Heq as [Hpp Heq]; [|lia]. apply Hne. rewrite <- Hpp in Heq.
    apply insert_same; [rewrite length_to_le; lia|exact Heq].
Qed.
Lemma frame_bytes_inj_insert m p q k y :
  all_bytes p -> len p < W32 -> len q < W32 -> is_byte y ->
  (k < length (frame_bytes m p))%nat -> frame_bytes m p !! k <> Some y ->
  Some (<[k:=y]> (frame_bytes m p)) <> Some (frame_bytes m q).
Proof using CL.
  intros Hp Hl Hq Hy Hk Hne H%Some_inj. revert H. now apply frame_insert_ne.
Qed.

(** An insertion inside a tiled range hits one of the frames. *)
Lemma rows_tile_insert bs bs' from to_ rows k y :
  all_bytes bs -> bs' = <[k:=y]> bs -> is_byte y -> bs !! k <> Some y ->
  rows_tile bs from to_ rows -> rows_tile bs' from to_ rows -> 0 <= from ->
  from <= Z.of_nat k -> Z.of_nat k < to_ -> False.
Proof using CL.
  intros Hb -> Hy Hne. revert from. induction rows as [|r rows IH]; intros from H1 H2 Hf Hk1 Hk2;
    simpl in H1, H2; [lia|].
  destruct H1 as (_ & Hl & (p & Hp & Hpl) & H1), H2 as (_ & _ & (q & Hq & Hql) & H2).
  destruct (Z.lt_ge_cases (Z.of_nat k) (from + fe_length r)) as [Hin|Hout];
    [|now apply (IH (from + fe_length r)); try lia].
  destruct (slice_lookup bs from _ _ k Hp) as [Hlook Hlen]; [lia..|].
  rewrite (slice_insert_in bs from _ k y _ Hp) in Hq by lia.
  revert Hq. apply frame_bytes_inj_insert; auto; [|congruence].
  pose proof (slice_all_bytes bs _ _ _ Hb Hp) as Hpb. unfold frame_bytes in Hpb.
  rewrite !all_bytes_app in Hpb. tauto.
Qed.

(** ** The scanner never panics *)
Lemma scan_entry_total bs fo from r :
  fo <= len bs -> FooterEntry_ok r -> no_panic (scan_entry bs fo from r).
Proof.
  intros Hfo (_ & _ & Hl & _). unfold scan_entry. apply no_panic_bind; [auto with panics|].
  intros e He. unfold ok_or in He. destruct (checked_add _ _ _) eqn:Ec; [|discriminate].
  injection He as <-. apply checked_add_inv in Ec as [-> _].
  apply no_panic_if; intros Hc; [auto with panics|]. apply orb_false_iff in Hc as [_ Hc].
  unfold fits in Hl. apply no_panic_bind; [apply slice_index_no_panic; lia|]. intros frame _.
  apply no_panic_bind; [apply BlxEntry_open_total|]. intros entry _. no_panic.
Qed.
Lemma scan_total bs : all_bytes bs -> no_panic (BlxObject_scan bs).
Proof using CL PL.
  intros Hb. unfold BlxObject_scan. apply no_panic_bind; [apply BlxHeader_open_total|].
  intros [h e] Hh. apply BlxHeader_open_inv in Hh as (-> & _); [|exact Hb].
  assert (0 < HEADER_BYTES) as Hpos by reflexivity.
  assert (0 < TRAILER_BYTES) as Hpos' by reflexivity.
  apply no_panic_if; intros Hc; [auto with panics|].
  apply no_panic_bind; [apply slice_index_no_panic; lia|]. intros t Ht.
  apply no_panic_bind; [apply open_trailer_total|]. intros [o l] Hol.
  apply open_trailer_inv in Hol as (_ & Ho & Hl).
  2:{ apply slice_index_Some in Ht. eapply slice_all_bytes; eauto. }
  apply no_panic_bind; [auto with panics|]. intros e He. unfold ok_or in He.
  destruct (checked_add _ _ _) eqn:Ec; [|discriminate]. injection He as <-.
  apply checked_add_inv in Ec as [-> _]. unfold fits in *.
  apply no_panic_if; intros Hc2; [auto with panics|]. apply orb_false_iff in Hc2 as [Hc2 Hc3].
  apply negb_false_iff, Z.eqb_eq in Hc3.
  apply no_panic_bind; [apply slice_index_no_panic; lia|]. intros ff Hff.
  apply no_panic_bind; [apply BlxFooter_open_total|]. intros f Hf.
  apply BlxFooter_open_inv in Hf as [_ (Hok & _)].
  2:{ apply slice_index_Some in Hff. eapply slice_all_bytes; eauto. }
  apply no_panic_if; intros _; [auto with panics|].
  apply no_panic_bind; [|intros x _; no_panic]. apply no_panic_fold. intros a r Hr.
  apply scan_entry_total; [lia|]. rewrite List.Forall_forall in Hok. now apply Hok.
Qed.

Hypothesis small_pages : page_size <= 16 * 1024 * 1024.

Lemma entry_payload_bytes e : BlxEntry_ok e -> all_bytes (BlxEntry_payload e).
Proof using LL.
  intros (_ & _ & He). unfold BlxEntry_payload.
  repeat apply all_bytes_app_2; auto with bytes.
  destruct e as [k g raw|]; [|auto with bytes]. destruct He as [Hb _].
  pose proof (lz4_compress_bytes raw Hb). auto with bytes.
Qed.
Lemma object_bytes_bytes h es : BlxHeader_ok h -> BlxFooter_ok (object_footer es) ->
  Forall BlxEntry_ok es -> all_bytes (object_bytes h es).
Proof using LL PL.
  intros Hh Hf Hok. unfold object_bytes, header_frame, footer_frame, object_body.
  pose proof (whole_bytes (WholeCodec := BlxHeader_codec) h Hh).
  pose proof (whole_bytes (WholeCodec := BlxFooter_codec) _ Hf).
  apply all_bytes_app_2; [now apply frame_bytes_bytes|].
  apply all_bytes_app_2; [|apply all_bytes_app_2; [now apply frame_bytes_bytes|]].
  - apply all_bytes_concat. intros e He. rewrite List.Forall_forall in Hok.
    apply frame_bytes_bytes, entry_payload_bytes. now apply Hok.
  - unfold encode_trailer, trailer_prefix. auto 10 with bytes.
Qed.
Lemma file_holds_bytes f es : file_holds f es -> all_bytes (bo_bytes f).
Proof using CL LL PL.
  intros [m id index count es0 [Hc Hs] Hm Hid Hi Hcount]. apply object_bytes_bytes.
  - now apply chunk_header_ok.
  - now apply object_footer_ok.
  - apply Hc.
Qed.

(** The parts of a changed file, compared with the parts of the original. *)
Lemma scan_parts_insert bs k y h f o l h' f' o' l' :
  all_bytes bs -> is_byte y -> (k < length bs)%nat -> bs !! k <> Some y ->
  scan_parts bs h f o l -> scan_parts (<[k:=y]> bs) h' f' o' l' -> False.
Proof using CL.
  intros Hb Hy Hk Hne (H1 & H2 & H3 & H4 & Ho & Hl & H6 & Hok & Hpf & H7)
    (G1 & G2 & G3 & G4 & Go & Gl & G6 & Gok & Gpf & G7).
  assert (len (<[k:=y]> bs) = len bs) as Hlen by (unfold len; now rewrite length_insert).
  rewrite Hlen in *. assert (0 < HEADER_BYTES /\ 0 < TRAILER_BYTES) as [Hp1 Hp2] by (split; reflexivity).
  assert (forall i j m p q, slice_get bs i j = Some (frame_bytes m p) ->
    slice_get (<[k:=y]> bs) i j = Some (frame_bytes m q) -> len p < W32 -> len q < W32 ->
    0 <= i -> i <= Z.of_nat k < j -> False) as Hframe.
  { intros i j m p q Hp Hq Hpl Hql Hi Hij.
    destruct (slice_lookup bs i j _ k Hp) as [Hlook Hin]; [lia..|].
    rewrite (slice_insert_in bs i j k y _ Hp) in Hq by lia. revert Hq.
    apply frame_bytes_inj_insert; auto; [|congruence].
    pose proof (slice_all_bytes bs _ _ _ Hb Hp) as Hpb. unfold frame_bytes in Hpb.
    rewrite !all_bytes_app in Hpb. tauto. }
  assert (0 <= o /\ 0 <= l /\ Z.of_nat k < len bs) as (Ho0 & Hl0 & Hkl)
    by (unfold fits, len in *; lia).
  destruct (Z.lt_ge_cases (Z.of_nat k) HEADER_BYTES) as [Hh|Hh].
  { apply (Hframe 0 HEADER_BYTES MAGIC_HEADER _ _ H1 G1);
      [now rewrite len_BlxHeader_payload|now rewrite len_BlxHeader_payload|lia|lia]. }
  destruct (Z.lt_ge_cases (Z.of_nat k) (len bs - TRAILER_BYTES)) as [Ht|Ht].
  2:{ destruct (slice_lookup bs _ _ _ k H2) as [Hlook Hin]; [lia..|].
      rewrite (slice_insert_in bs _ _ k y _ H2) in G2 by lia.
      apply Some_inj in G2. revert G2. apply trailer_insert_ne; auto. congruence. }
  rewrite slice_insert_out, H2 in G2 by lia. apply Some_inj in G2.
  assert (o = o' /\ l = l') as [<- <-].
  { apply (f_equal open_trailer) in G2. rewrite !open_encode_trailer in G2 by assumption.
    injection G2. auto. }
  destruct (Z.lt_ge_cases (Z.of_nat k) o) as [Hbody|Hfoot].
  - rewrite slice_insert_out, H3 in G3 by lia. apply Some_inj in G3.
    apply (f_equal BlxFooter_open) in G3. rewrite !BlxFooter_open_frame in G3 by assumption.
    injection G3 as <-.
    eapply rows_tile_insert; eauto; lia.
  - apply (Hframe o (o + l) MAGIC_FOOTER _ _ H3 G3); try assumption; unfold fits in *; lia.
Qed.

(** C21. The scanner rejects every single-byte corruption of a written file:
    whichever byte of an object produced by the builder is changed (header,
    entry, footer or trailer), [scan] returns an error, and it does so without
    panicking. *)
Theorem scan_rejects_one_byte f es k y :
  file_holds f es -> (k < length (bo_bytes f))%nat -> is_byte y -> bo_bytes f !! k <> Some y ->
  BlxObject_scan (<[k:=y]> (bo_bytes f)) = Err DecodeErr.
Proof using CL LL PL small_pages.
  intros Hf Hk Hy Hne. pose proof (file_holds_bytes f es Hf) as Hb.
  assert (all_bytes (<[k:=y]> (bo_bytes f))) as Hb' by now apply Forall_insert.
  pose proof (scan_total _ Hb') as Ht.
  destruct (file_holds_scan small_pages f es Hf) as [Hs _].
  apply scan_inv in Hs as (o & l & Hs); [|exact Hb].
  destruct (BlxObject_scan (<[k:=y]> (bo_bytes f))) as [[h' f']|[]|] eqn:Hs';
    [|reflexivity|now destruct Ht].
  apply scan_inv in Hs' as (o' & l' & Hs'); [|exact Hb'].
  destruct (scan_parts_insert _ _ _ _ _ _ _ _ _ _ _ Hb Hy Hk Hne Hs Hs').
Qed.

(** A file the scanner accepts has no unverified byte: it is, in this
    order, the frame of the header it returns, one checksummed frame per
    footer row at exactly the recorded offset and length, the frame of the
    footer it returns and the trailer that locates that footer. The scanner
    never panics. *)
Theorem scan_tiles_the_file bs : all_bytes bs ->
  no_panic (BlxObject_scan bs)
  /\ forall h f, BlxObject_scan bs = Ok (h, f) -> exists o l, scan_parts bs h f o l.
Proof using CL PL. intros Hb. split; [now apply scan_total|]. intros h f. now apply scan_inv. Qed.
End Scan.
