(* ===== verification/BlxState.v ===== *)
(** * The state checksum and VMM snapshot blocks ([crates/core/src/blx.rs])

    The state checksum of a volume is the exclusive or of one contribution per
    visible block; [replace_state_block] maintains it incrementally. *)

From S2P Require Import Prelude Format Types OrdMap Blx.

Section State.
Context `{C : Crc} `{P : PageSize}.

Definition state_contribution (key : BlockKey) (generation value_checksum : Z) : Z :=
  checksum64 (Enc_new |> BlockKey_encode key |> Enc_u64 generation
                |> Enc_u64 value_checksum |> Enc_finish).

(** The checksum and the map it summarises are updated together. *)
Definition replace_state_block (state : Z * BTreeMap BlockKey (Z * Z)) (key : BlockKey)
    (value : option (Z * Z)) : Z * BTreeMap BlockKey (Z * Z) :=
  let '(checksum, blocks) := state in
  let '(checksum, blocks) :=
    match bt_get key blocks with
    | Some (generation, value_checksum) =>
        (Z.lxor checksum (state_contribution key generation value_checksum),
         bt_remove key blocks)
    | None => (checksum, blocks)
    end in
  match value with
  | Some (generation, value_checksum) =>
      (Z.lxor checksum (state_contribution key generation value_checksum),
       bt_insert key (generation, value_checksum) blocks)
  | None => (checksum, blocks)
  end.

(** [bytes.chunks(page_size())]: [fuel] bounds the number of chunks. *)
Fixpoint chunks_of (fuel : nat) (n : nat) (bs : bytes) : list bytes :=
  match fuel, bs with
  | _, [] => []
  | O, _ => []
  | S fuel, _ => take n bs :: chunks_of fuel n (drop n bs)
  end.
Definition pad_block (chunk : bytes) : bytes :=
  chunk ++ repeat 0 (Z.to_nat page_size - length chunk).
Fixpoint number_blocks {E} (i : Z) (chunks : list bytes) : outcome E (list (BlockKey * bytes)) :=
  match chunks with
  | [] => Ok []
  | chunk :: chunks =>
      assert! i <? W32 in
      let? rest := number_blocks (i + 1) chunks in
      Ok (({| bk_space := Space_Vmm; bk_block := i |}, pad_block chunk) :: rest)
  end.
Definition vmm_snapshot_blocks {E} (bs : bytes) : outcome E (list (BlockKey * bytes)) :=
  number_blocks 0 (chunks_of (length bs) (Z.to_nat page_size) bs).

(** ** The checksum is a function of the visible blocks *)
Definition contribution (x : BlockKey * (Z * Z)) : Z := state_contribution x.1 x.2.1 x.2.2.
Definition state_checksum (blocks : BTreeMap BlockKey (Z * Z)) : Z :=
  fold_right (fun x acc => Z.lxor (contribution x) acc) 0 blocks.

Lemma state_checksum_insert k v (m : BTreeMap BlockKey (Z * Z)) :
  bt_get k m = None -> state_checksum (bt_insert k v m) = Z.lxor (state_checksum m) (contribution (k, v)).
Proof.
  unfold state_checksum. induction m as [|[k' v'] m IH]; simpl; intros H.
  - now rewrite Z.lxor_0_r, Z.lxor_0_l.
  - destruct (cmp k k') eqn:E; [discriminate|..]; simpl.
    + apply Z.lxor_comm.
    + now rewrite IH, <- Z.lxor_assoc.
Qed.
Lemma state_checksum_remove k v (m : BTreeMap BlockKey (Z * Z)) :
  bt_sorted m -> bt_get k m = Some v ->
  state_checksum (bt_remove k m) = Z.lxor (state_checksum m) (contribution (k, v)).
Proof.
  unfold state_checksum, bt_remove. induction 1 as [|[k' v'] m Hs IH Hlt]; [discriminate|].
  cbn [bt_get List.filter fst fold_right]. destruct (cmp k k') eqn:E.
  - apply cmp_eq in E as ->. intros [= ->].
    assert (List.filter (fun e : BlockKey * (Z * Z) =>
      match cmp k' e.1 with Eq => false | _ => true end) m = m) as ->.
    { clear -Hlt. induction Hlt as [|x m Hx Hm IH]; simpl; [reflexivity|].
      unfold bt_lt in Hx. simpl in Hx. now rewrite Hx, IH. }
    rewrite (Z.lxor_comm (contribution (k', v))), Z.lxor_assoc, Z.lxor_nilpotent. now rewrite Z.lxor_0_r.
  - intros H. cbn [fold_right]. now rewrite IH, <- Z.lxor_assoc.
  - intros H. cbn [fold_right]. now rewrite IH, <- Z.lxor_assoc.
Qed.

Definition state_ok (s : Z * BTreeMap BlockKey (Z * Z)) : Prop :=
  bt_sorted s.2 /\ s.1 = state_checksum s.2.

Lemma replace_state_block_ok s key value :
  state_ok s -> state_ok (replace_state_block s key value)
  /\ forall k, bt_get k (replace_state_block s key value).2
               = if decide (k = key) then value else bt_get k s.2.
Proof.
  destruct s as [c m]. intros [Hs Hc]. simpl in Hs, Hc. subst c. unfold replace_state_block.
  set (m' := match bt_get key m with Some _ => bt_remove key m | None => m end).
  assert (bt_sorted m') as Hs' by (unfold m'; destruct (bt_get key m); [now apply bt_remove_sorted|exact Hs]).
  assert (bt_get key m' = None) as Hn
    by (unfold m'; destruct (bt_get key m) eqn:E; [apply bt_get_remove_eq|exact E]).
  assert (forall k, k <> key -> bt_get k m' = bt_get k m) as Hother
    by (intros k Hk; unfold m'; destruct (bt_get key m); [now apply bt_get_remove_ne|reflexivity]).
  assert (match bt_get key m with
          | Some (g, v) => (Z.lxor (state_checksum m) (state_contribution key g v), bt_remove key m)
          | None => (state_checksum m, m) end = (state_checksum m', m')) as ->.
  { unfold m'. destruct (bt_get key m) as [[g v]|] eqn:E; [|reflexivity].
    now rewrite (state_checksum_remove key (g, v)). }
  destruct value as [[g v]|]; split.
  - split; [now apply bt_insert_sorted|]. simpl. now rewrite state_checksum_insert.
  - intros k. simpl. destruct (decide (k = key)) as [->|Hk]; [apply bt_get_insert_eq|].
    rewrite bt_get_insert_ne by exact Hk. now apply Hother.
  - now split.
  - intros k. simpl. destruct (decide (k = key)) as [->|Hk]; [exact Hn|now apply Hother].
Qed.

(** The incremental state checksum depends only on the visible blocks:
    after any two sequences of block replacements from the empty state that
    end with the same visible blocks, the checksums are equal, and the
    checksum is the exclusive or of the contributions of those blocks. *)
Theorem state_checksum_history_free ops1 ops2 :
  let run := fold_left (fun s op => replace_state_block s op.1 op.2) in
  (forall k, bt_get k (run ops1 (0, [])).2 = bt_get k (run ops2 (0, [])).2) ->
  run ops1 (0, []) = run ops2 (0, [])
  /\ (run ops1 (0, [])).1 = state_checksum (run ops1 (0, [])).2.
Proof.
  intros run Heq.
  assert (forall ops, state_ok (run ops (0, []))) as Hok.
  { intros ops. unfold run. assert (state_ok (0, [])) as H by (split; [constructor|reflexivity]).
    revert H. generalize (0, @nil (BlockKey * (Z * Z))).
    induction ops as [|op ops IH]; intros s Hs; simpl; [exact Hs|].
    apply IH. now apply replace_state_block_ok. }
  destruct (Hok ops1) as [Hs1 Hc1], (Hok ops2) as [Hs2 Hc2]. split; [|exact Hc1].
  pose proof (bt_ext _ _ Hs1 Hs2 Heq) as Hm.
  destruct (run ops1 (0, [])) as [c1 m1], (run ops2 (0, [])) as [c2 m2]. simpl in *. congruence.
Qed.

(** ** VMM snapshots *)
Lemma chunks_of_spec fuel n bs : (0 < n)%nat -> (length bs <= fuel)%nat ->
  concat (chunks_of fuel n bs) = bs
  /\ Forall (fun c => (0 < length c <= n)%nat) (chunks_of fuel n bs)
  /\ (length (chunks_of fuel n bs) <= length bs)%nat.
Proof.
  intros Hn. revert bs. induction fuel as [|fuel IH]; intros bs Hl.
  - destruct bs; [auto|simpl in Hl; lia].
  - destruct bs as [|b bs]; [auto|]. cbn [chunks_of concat].
    destruct (IH (drop n (b :: bs))) as (Hcat & Hf & Hlen);
      [rewrite length_drop; simpl in *; lia|].
    rewrite Hcat. split; [apply take_drop|]. split.
    + constructor; [|exact Hf]. rewrite length_take. simpl. lia.
    + cbn [length]. rewrite length_drop in Hlen. simpl in *. lia.
Qed.
End State.
