(* ===== verification/BlxExamples.v ===== *)
(** * BLX files, computed

    The theorems on heads and BLX files applied to concrete values (4 KiB
    pages, the CRC-32C of [Crc32c], the LZ4 blocks of [Lz4Block]), and the
    file that the compactor cannot digest. *)

From S2P Require Import Prelude Format Crc32c Types OrdMap Head Blx BlxFile Lz4Block.
From S2P Require Import BlxBatch BlxScan BlxState.

#[local] Existing Instance page_4096.
#[local] Existing Instance page_4096_laws.

Lemma pages_4096_small : page_size <= 16 * 1024 * 1024.
Proof. vm_compute. discriminate. Qed.

(** ** A batch of two blocks in different partitions and one data page *)
Definition example_meta : BatchMeta :=
  {| bm_namespace_kind := Namespace_Volume; bm_namespace_id := 7; bm_writer_fence := 3;
     bm_first_object_id := 10; bm_min_seq := 1; bm_max_seq := 2; bm_batch_id := 5;
     bm_pre_state_checksum := 0; bm_post_state_checksum := 9 |}.
Definition example_key (b : Z) : BlockKey := {| bk_space := Space_Data; bk_block := b |}.
Definition example_page : bytes := repeat 171 4096.
Definition example_entries : list BlxEntry :=
  [Entry_Data (example_key 0) 4 example_page; Entry_Tombstone (example_key 4294967295) 6].
Definition example_builder : BlxBatchBuilder :=
  {| bb_meta := example_meta;
     bb_entries := map (fun e => (BlxEntry_key e, e)) example_entries;
     bb_split_at_file_partitions := true |}.

Lemma example_meta_ok : BatchMeta_ok example_meta.
Proof. repeat split; vm_compute; congruence. Qed.
Lemma example_entries_ok : Forall BlxEntry_ok example_entries.
Proof.
  constructor; [|constructor; [|constructor]]; repeat split; try (vm_compute; congruence).
  apply example_bytes. vm_compute. reflexivity.
Qed.
Lemma example_builder_ok : builder_ok example_builder.
Proof.
  split; [apply example_meta_ok|]. split; [|vm_compute; reflexivity].
  split.
  - constructor; [constructor; [constructor|constructor]|]. constructor; [reflexivity|constructor].
  - pose proof example_entries_ok as H. inversion H as [|? ? ? H']. inversion H'.
    constructor; [auto|constructor; [auto|constructor]].
Qed.
Lemma example_finish :
  exists files, @BlxBatchBuilder_finish _ _ _ DecodeError example_builder = Ok files
    /\ len files = 2.
Proof.
  rewrite (finish_run pages_4096_small) by apply example_builder_ok.
  assert (BlxBatchBuilder_object_ids_fit example_builder = true) as -> by (vm_compute; reflexivity).
  eexists. split; [reflexivity|].
  assert (builder_chunks example_builder = [take 1 example_entries; drop 1 example_entries]) as ->
    by (vm_compute; reflexivity).
  reflexivity.
Qed.
Lemma example_holds : Forall2 file_holds
  (chunk_objects example_meta 2 0 [take 1 example_entries; drop 1 example_entries])
  [take 1 example_entries; drop 1 example_entries].
Proof.
  assert (forall e, In e example_entries -> chunk_good [e]) as Hc.
  { intros e He. pose proof (proj1 (List.Forall_forall _ _) example_entries_ok e He).
    split; [split; [discriminate|split; [auto|repeat constructor]]|].
    destruct He as [<-|[<-|[]]]; vm_compute; discriminate. }
  cbn [chunk_objects]. constructor; [|constructor; [|constructor]].
  - apply file_holds_intro;
      [apply Hc; now left|apply example_meta_ok|unfold fits; simpl; lia|lia|lia].
  - apply file_holds_intro;
      [apply Hc; now right; left|apply example_meta_ok|unfold fits; simpl; lia|lia|lia].
Qed.

(** ** The theorems at these values *)
Lemma HeadRecord_exact_witness :
  ExactFormat (E := DecodeError) HeadRecord_encode (HeadRecord_decode 42)
    (fun h => head_volume h = 42 /\ HeadRecord_ok h).
Proof. apply (HeadRecord_exact 42). vm_compute. intuition congruence. Defined.

Lemma batch_round_trip_witness :
  exists files, @BlxBatchBuilder_finish _ _ _ DecodeError example_builder = Ok files
    /\ merge_files [] files = Ok (bb_entries example_builder).
Proof.
  destruct example_finish as (files & Hf & _). exists files. split; [exact Hf|].
  apply (batch_round_trip pages_4096_small example_builder files example_builder_ok Hf).
Defined.

Lemma object_ids_fit_exact_witness :
  exists files, @BlxBatchBuilder_finish _ _ _ DecodeError example_builder = Ok files.
Proof.
  destruct (object_ids_fit_exact pages_4096_small example_builder example_builder_ok) as [H _].
  destruct H as (files & Hf & _); [vm_compute; reflexivity|]. eauto.
Defined.

Lemma compaction_keeps_newest_witness :
  exists files merged,
    compact_objects example_meta
      (chunk_objects example_meta 2 0 [take 1 example_entries; drop 1 example_entries]) false
    = Ok files
    /\ merge_files [] files = Ok merged.
Proof.
  destruct (compaction_keeps_newest pages_4096_small example_meta _ _ false example_meta_ok
              example_holds) as (files & merged & Hf & Hm & _).
  - vm_compute. reflexivity.
  - vm_compute. discriminate.
  - eauto.
Defined.

Lemma compaction_ids_disjoint_witness :
  exists sa sb, compaction_object_id_start 0 = Some sa /\ compaction_object_id_start 1 = Some sb
    /\ (sa + COMPACTION_OBJECT_IDS_PER_BATCH <= sb \/ sb + COMPACTION_OBJECT_IDS_PER_BATCH <= sa).
Proof.
  eexists _, _. split; [reflexivity|]. split; [reflexivity|].
  eapply (compaction_ids_disjoint 0 1); [lia|lia|lia|reflexivity|reflexivity].
Defined.

Lemma scan_rejects_one_byte_witness :
  BlxObject_scan (<[3%nat:=0]> (bo_bytes (chunk_object example_meta 11 1 2
                                            (drop 1 example_entries)))) = Err DecodeErr.
Proof.
  apply (scan_rejects_one_byte pages_4096_small _ (drop 1 example_entries)).
  - apply (Forall2_lookup_lr _ _ _ 1%nat _ _ example_holds); reflexivity.
  - vm_compute. lia.
  - vm_compute. intuition congruence.
  - vm_compute. congruence.
Defined.

Lemma scan_tiles_the_file_witness : no_panic (BlxObject_scan example_page).
Proof. apply (scan_tiles_the_file example_page). apply example_bytes. vm_compute. reflexivity. Defined.

Lemma state_checksum_history_free_witness :
  let run := fold_left (fun s op => replace_state_block s op.1 op.2) in
  run [(example_key 1, Some (1, 11)); (example_key 2, None)] (0, [])
  = run [(example_key 2, None); (example_key 1, Some (1, 11))] (0, []).
Proof.
  apply (state_checksum_history_free [(example_key 1, Some (1, 11)); (example_key 2, None)]
           [(example_key 2, None); (example_key 1, Some (1, 11))]).
  intros k. reflexivity.
Defined.

(** ** A block that is shorter than a page

    [BlxEntry::open] checks the recorded raw length, not the length of what
    the decompressor returned, and [decompress] accepts a block that fills its
    buffer only in part. The file below, whose only block decompresses to
    nothing, is accepted by [scan] and stops the compactor at the assertion of
    [add_data]. *)
Definition short_entry : bytes :=
  frame_bytes MAGIC_ENTRY
    ([EntryKind_u8 EntryKind_Data] ++ BlockKey_bytes (example_key 0) ++ to_le 8 4
     ++ to_le 4 page_size ++ to_le 4 1 ++ [0]).
Definition short_header : BlxHeader :=
  object_header example_meta 10 0 1 1 (example_key 0) (example_key 0).
Definition short_footer : BlxFooter :=
  {| bf_entries := [{| fe_key := example_key 0; fe_offset := HEADER_BYTES;
                       fe_length := len short_entry; fe_generation := 4;
                       fe_kind := EntryKind_Data; fe_value_checksum := checksum64 [] |}] |}.
Definition short_file : BlxObject :=
  let bs := header_frame short_header ++ short_entry ++ footer_frame short_footer
            ++ encode_trailer (HEADER_BYTES + len short_entry) (len (footer_frame short_footer)) in
  {| bo_header := short_header; bo_footer := short_footer;
     bo_footer_offset := HEADER_BYTES + len short_entry;
     bo_footer_length := len (footer_frame short_footer);
     bo_checksum := checksum64 bs; bo_bytes := bs |}.

(** An accepted file can stop the compactor: [BlxObject::open] accepts the
    file [short_file], whose block decompresses to fewer bytes than a page,
    and [compact_objects] on it panics instead of returning an error. *)
Theorem compaction_panics_on_short_block :
  BlxObject_open (bo_bytes short_file) = Ok short_file
  /\ BlxEntry_open short_entry = Ok (Entry_Data (example_key 0) 4 [])
  /\ compact_objects example_meta [short_file] false = Panic.
Proof. repeat split; vm_compute; reflexivity. Qed.
