(* ===== verification/Manifest.v ===== *)
(** * Archive metadata ([crates/core/src/manifest.rs])

    Object references and their validation, complete file lists, manifests,
    the state chain, base roots and base manifests, and the bounding of a
    manifest to 256 KiB. *)

From S2P Require Import Prelude Format Types OrdMap Head Blx BlxFile.

Definition MAGIC_FILE_LIST : Z := magic 66 76 70 76. (* BLFL *)
Definition MAGIC_MANIFEST : Z := magic 66 76 77 70. (* BLMF *)
Definition MAGIC_BASE_MANIFEST : Z := magic 66 76 66 77. (* BLBM *)
Definition MAGIC_BASE_ROOT : Z := magic 66 76 66 82. (* BLBR *)
Definition MAX_MANIFEST_BYTES : Z := 256 * 1024.
Definition MAX_METADATA_OBJECT_BYTES : Z := 64 * 1024 * 1024.
Definition OBJECT_IDENTITY_BYTES : Z := 25.
Definition OBJECT_REF_BYTES : Z := 109.
Definition FORMAT_VERSION : Z := 1.

(** ** Identities and references *)
Record ObjectIdentity := {
  oi_namespace_kind : NamespaceKind;
  oi_namespace_id : Z;
  oi_writer_fence : Z;
  oi_object_id : Z }.
#[export] Instance ObjectIdentity_eq_dec : EqDecision ObjectIdentity.
Proof. solve_decision. Defined.
Definition ObjectIdentity_fields (i : ObjectIdentity) : Z * (Z * (Z * Z)) :=
  (NamespaceKind_u8 (oi_namespace_kind i),
   (oi_namespace_id i, (oi_writer_fence i, oi_object_id i))).
#[export] Instance ObjectIdentity_ord : RustOrd ObjectIdentity :=
  fun a b => cmp (ObjectIdentity_fields a) (ObjectIdentity_fields b).
#[export] Instance ObjectIdentity_ord_laws : RustOrdLaws ObjectIdentity.
Proof.
  apply (injected_ord_laws ObjectIdentity_fields).
  intros [k1 ? ? ?] [k2 ? ? ?] [= Hk]. subst. f_equal. destruct k1, k2; simpl in Hk; congruence.
Qed.

Definition ObjectIdentity_volume (volume writer_fence object_id : Z) : ObjectIdentity :=
  {| oi_namespace_kind := Namespace_Volume; oi_namespace_id := volume;
     oi_writer_fence := writer_fence; oi_object_id := object_id |}.
Definition ObjectIdentity_encode (self : ObjectIdentity) (e : Enc) : Enc :=
  e |> Enc_u8 (NamespaceKind_u8 (oi_namespace_kind self)) |> Enc_u64 (oi_namespace_id self)
    |> Enc_u64 (oi_writer_fence self) |> Enc_u64 (oi_object_id self).
Definition ObjectIdentity_decode : dec ObjectIdentity :=
  let* k := Dec_u8 in
  let* namespace_kind := dec_lift (NamespaceKind_decode k) in
  let* namespace_id := Dec_u64 in
  let* writer_fence := Dec_u64 in
  let* object_id := Dec_u64 in
  dec_ret {| oi_namespace_kind := namespace_kind; oi_namespace_id := namespace_id;
             oi_writer_fence := writer_fence; oi_object_id := object_id |}.

Record ObjectRef := {
  or_identity : ObjectIdentity;
  or_min_seq : Z;
  or_max_seq : Z;
  or_batch_id : Z;
  or_chunk_index : Z;
  or_chunk_count : Z;
  or_first_key : BlockKey;
  or_last_key : BlockKey;
  or_pre_state_checksum : Z;
  or_post_state_checksum : Z;
  or_size : Z;
  or_footer_offset : Z;
  or_footer_length : Z;
  or_object_checksum : Z }.
#[export] Instance ObjectRef_eq_dec : EqDecision ObjectRef.
Proof. solve_decision. Defined.

Definition ObjectRef_from_blx {E} (object : BlxObject) : outcome E ObjectRef :=
  let header := bo_header object in
  assert! len (bo_bytes object) <? W32 in
  Ok {| or_identity :=
          {| oi_namespace_kind := bh_namespace_kind header;
             oi_namespace_id := bh_namespace_id header;
             oi_writer_fence := bh_writer_fence header;
             oi_object_id := bh_object_id header |};
        or_min_seq := bh_min_seq header; or_max_seq := bh_max_seq header;
        or_batch_id := bh_batch_id header; or_chunk_index := bh_chunk_index header;
        or_chunk_count := bh_chunk_count header; or_first_key := bh_first_key header;
        or_last_key := bh_last_key header;
        or_pre_state_checksum := bh_pre_state_checksum header;
        or_post_state_checksum := bh_post_state_checksum header;
        or_size := len (bo_bytes object); or_footer_offset := bo_footer_offset object;
        or_footer_length := bo_footer_length object;
        or_object_checksum := bo_checksum object |}.

Definition ObjectRef_encode_into (self : ObjectRef) (e : Enc) : Enc :=
  e |> ObjectIdentity_encode (or_identity self)
    |> Enc_u64 (or_min_seq self)
    |> Enc_u64 (or_max_seq self)
    |> Enc_u64 (or_batch_id self)
    |> Enc_u32 (or_chunk_index self)
    |> Enc_u32 (or_chunk_count self)
    |> BlockKey_encode (or_first_key self)
    |> BlockKey_encode (or_last_key self)
    |> Enc_u64 (or_pre_state_checksum self)
    |> Enc_u64 (or_post_state_checksum self)
    |> Enc_u32 (or_size self)
    |> Enc_u32 (or_footer_offset self)
    |> Enc_u32 (or_footer_length self)
    |> Enc_u64 (or_object_checksum self).
Definition ObjectRef_decode_from `{PageSize} : dec ObjectRef :=
  let* identity := ObjectIdentity_decode in
  let* min_seq := Dec_u64 in
  let* max_seq := Dec_u64 in
  let* batch_id := Dec_u64 in
  let* chunk_index := Dec_u32 in
  let* chunk_count := Dec_u32 in
  let* first_key := BlockKey_decode in
  let* last_key := BlockKey_decode in
  let* pre_state_checksum := Dec_u64 in
  let* post_state_checksum := Dec_u64 in
  let* size := Dec_u32 in
  let* footer_offset := Dec_u32 in
  let* footer_length := Dec_u32 in
  let* object_checksum := Dec_u64 in
  if (max_seq <? min_seq)
     || (chunk_count =? 0)
     || (chunk_count <=? chunk_index)
     || cmp_ltb last_key first_key
     || (size =? 0)
     || (footer_length =? 0)
     || match checked_add W32 footer_offset footer_length with
        | None => true
        | Some end_ => size <? end_
        end
  then dec_fail else
  dec_ret {| or_identity := identity; or_min_seq := min_seq; or_max_seq := max_seq;
             or_batch_id := batch_id; or_chunk_index := chunk_index;
             or_chunk_count := chunk_count; or_first_key := first_key;
             or_last_key := last_key; or_pre_state_checksum := pre_state_checksum;
             or_post_state_checksum := post_state_checksum; or_size := size;
             or_footer_offset := footer_offset; or_footer_length := footer_length;
             or_object_checksum := object_checksum |}.

Record BaseRef := {
  br_base_id : Z;
  br_manifest_id : Z;
  br_manifest_checksum : Z;
  br_post_state_checksum : Z }.
#[export] Instance BaseRef_eq_dec : EqDecision BaseRef.
Proof. solve_decision. Defined.
Record FileListRef := { fl_writer_fence : Z; fl_list_id : Z; fl_checksum : Z }.
#[export] Instance FileListRef_eq_dec : EqDecision FileListRef.
Proof. solve_decision. Defined.

Inductive RecoveryKind := Recovery_Whole | Recovery_DiskOnly.
#[export] Instance RecoveryKind_eq_dec : EqDecision RecoveryKind.
Proof. solve_decision. Defined.
Definition RecoveryKind_u8 (k : RecoveryKind) : Z :=
  match k with Recovery_Whole => 0 | Recovery_DiskOnly => 1 end.
Definition RecoveryKind_decode (value : Z) : outcome DecodeError RecoveryKind :=
  if value =? 0 then Ok Recovery_Whole
  else if value =? 1 then Ok Recovery_DiskOnly
  else Err DecodeErr.

(** ** Validation of a set of references *)
Record Batch := {
  b_chunk_count : Z;
  b_min_seq : Z;
  b_max_seq : Z;
  b_pre_state_checksum : Z;
  b_post_state_checksum : Z;
  b_chunks : BTreeMap Z (BlockKey * BlockKey) }.

Definition batch_namespace (identity : ObjectIdentity) : ObjectIdentity :=
  {| oi_namespace_kind := oi_namespace_kind identity;
     oi_namespace_id := oi_namespace_id identity;
     oi_writer_fence := oi_writer_fence identity; oi_object_id := 0 |}.
Definition batch_key (object : ObjectRef) : ObjectIdentity * Z :=
  (batch_namespace (or_identity object), or_batch_id object).
Definition new_batch (object : ObjectRef) : Batch :=
  {| b_chunk_count := or_chunk_count object; b_min_seq := or_min_seq object;
     b_max_seq := or_max_seq object;
     b_pre_state_checksum := or_pre_state_checksum object;
     b_post_state_checksum := or_post_state_checksum object; b_chunks := [] |}.
Definition batch_matches (batch : Batch) (object : ObjectRef) : bool :=
  (b_chunk_count batch =? or_chunk_count object)
  && (b_min_seq batch =? or_min_seq object)
  && (b_max_seq batch =? or_max_seq object)
  && (b_pre_state_checksum batch =? or_pre_state_checksum object)
  && (b_post_state_checksum batch =? or_post_state_checksum object).

(** The grouping loop: known identities and batches so far. *)
Definition group_object
    (s : BTreeSet ObjectIdentity * BTreeMap (ObjectIdentity * Z) Batch) (object : ObjectRef)
  : outcome DecodeError (BTreeSet ObjectIdentity * BTreeMap (ObjectIdentity * Z) Batch) :=
  let '(identities, batches) := s in
  let '(fresh, identities) := bts_insert (or_identity object) identities in
  if negb fresh then Err DecodeErr else
  let batch := default (new_batch object) (bt_get (batch_key object) batches) in
  if negb (batch_matches batch object) || bt_contains (or_chunk_index object) (b_chunks batch)
  then Err DecodeErr else
  Ok (identities,
      bt_insert (batch_key object)
        {| b_chunk_count := b_chunk_count batch; b_min_seq := b_min_seq batch;
           b_max_seq := b_max_seq batch;
           b_pre_state_checksum := b_pre_state_checksum batch;
           b_post_state_checksum := b_post_state_checksum batch;
           b_chunks := bt_insert (or_chunk_index object)
                         (or_first_key object, or_last_key object) (b_chunks batch) |}
        batches).

Section Validation.
Context `{P : PageSize}.

Fixpoint chunks_ascending (previous_last : option BlockKey)
    (chunks : list (BlockKey * BlockKey)) : bool :=
  match chunks with
  | [] => true
  | (first, last) :: chunks =>
      match previous_last with Some previous => negb (cmp_leb first previous) | None => true end
      && chunks_ascending (Some last) chunks
  end.
Definition batch_complete (batch : Batch) : bool :=
  if len (b_chunks batch) =? b_chunk_count batch then
    forallb (fun index => bt_contains (Z.of_nat index) (b_chunks batch))
      (seq 0 (Z.to_nat (b_chunk_count batch)))
    && chunks_ascending None (bt_values (b_chunks batch))
  else false.

Definition add_event (events : BTreeMap BlockKey (Z * Z)) (object : ObjectRef)
  : BTreeMap BlockKey (Z * Z) :=
  let events := bt_update (or_first_key object) (0, 0) (fun c => (c.1 + 1, c.2)) events in
  bt_update (or_last_key object) (0, 0) (fun c => (c.1, c.2 + 1)) events.
Definition object_events (objects : list ObjectRef) : BTreeMap BlockKey (Z * Z) :=
  fold_left add_event objects [].

Fixpoint sweep (maximum_overlap : option Z) (overlapping : Z) (events : list (Z * Z))
  : outcome DecodeError Z :=
  match events with
  | [] => Ok overlapping
  | (starts, ends) :: events =>
      let? overlapping := ok_or (checked_add W64 overlapping starts) DecodeErr in
      if match maximum_overlap with Some maximum => maximum <? overlapping | None => false end
         || (overlapping <? ends)
      then Err DecodeErr
      else sweep maximum_overlap (overlapping - ends) events
  end.

Definition validate_objects (objects : list ObjectRef) (maximum_overlap : option Z)
  : outcome DecodeError unit :=
  let? (_, batches) := fold_outcome group_object ([], []) objects in
  if negb (forallb batch_complete (bt_values batches)) then Err DecodeErr else
  let? overlapping := sweep maximum_overlap 0 (bt_values (object_events objects)) in
  if negb (overlapping =? 0) then Err DecodeErr else Ok tt.

Definition validate_object_refs (objects : list ObjectRef) : outcome DecodeError unit :=
  validate_objects objects (Some MAX_OVERLAPPING_FILES).
Definition validate_journal_object_refs (objects : list ObjectRef) : outcome DecodeError unit :=
  validate_objects objects None.
Definition assert_valid_objects {E} (objects : list ObjectRef) : outcome E unit :=
  assert! is_ok (validate_objects objects (Some MAX_OVERLAPPING_FILES)) in Ok tt.

Definition max_object_overlap (objects : list ObjectRef) : Z :=
  (fold_left (fun s c =>
      let overlapping := saturating_add W64 s.1 c.1 in
      (saturating_sub overlapping c.2, Z.max s.2 overlapping))
    (bt_values (object_events objects)) (0, 0)).2.
End Validation.

(** ** Complete file lists *)
Record CompleteFileList := {
  cfl_volume : Z;
  cfl_writer_fence : Z;
  cfl_list_id : Z;
  cfl_objects : list ObjectRef }.

Section Metadata.
Context `{C : Crc} `{P : PageSize}.

Definition file_list_content (volume writer_fence list_id : Z) (objects : list ObjectRef) : Enc :=
  Enc_new |> Enc_u16 FORMAT_VERSION |> Enc_u64 volume |> Enc_u64 writer_fence
    |> Enc_u64 list_id |> Enc_u32 (len objects) |> Enc_each ObjectRef_encode_into objects.

Definition CompleteFileList_encode {E} (self : CompleteFileList) : outcome E bytes :=
  let? _ := assert_valid_objects (cfl_objects self) in
  assert! len (cfl_objects self) <? W32 in
  let e := file_list_content (cfl_volume self) (cfl_writer_fence self) (cfl_list_id self)
             (cfl_objects self) in
  let content_checksum := checksum64 (Enc_finish e) in
  let? bs := seal_frame MAGIC_FILE_LIST (e |> Enc_u64 content_checksum |> Enc_finish) in
  assert! len bs <=? MAX_METADATA_OBJECT_BYTES in
  Ok bs.

Definition CompleteFileList_reference {E} (self : CompleteFileList) : outcome E FileListRef :=
  let? bs := CompleteFileList_encode self in
  Ok {| fl_writer_fence := cfl_writer_fence self; fl_list_id := cfl_list_id self;
        fl_checksum := checksum64 bs |}.

Definition CompleteFileList_decode_payload (expected : FileListRef) (volume : Z)
  : dec CompleteFileList :=
  let* version := Dec_u16 in
  if negb (version =? FORMAT_VERSION) then dec_fail else
  let* v := Dec_u64 in
  if negb (v =? volume) then dec_fail else
  let* writer_fence := Dec_u64 in
  let* list_id := Dec_u64 in
  if negb ((writer_fence =? fl_writer_fence expected) && (list_id =? fl_list_id expected))
  then dec_fail else
  let* count := Dec_u32 in
  let* objects := dec_repeat (Z.to_nat count) ObjectRef_decode_from in
  let* stored_content_checksum := Dec_u64 in
  let* _ := Dec_finish in
  let content := file_list_content volume writer_fence list_id objects in
  if negb (checksum64 (Enc_finish content) =? stored_content_checksum) then dec_fail else
  let* _ := dec_lift (validate_objects objects (Some MAX_OVERLAPPING_FILES)) in
  dec_ret {| cfl_volume := volume; cfl_writer_fence := writer_fence;
             cfl_list_id := list_id; cfl_objects := objects |}.
Definition CompleteFileList_decode (expected : FileListRef) (volume : Z) (bs : bytes)
  : outcome DecodeError CompleteFileList :=
  if (MAX_METADATA_OBJECT_BYTES <? len bs) || negb (checksum64 bs =? fl_checksum expected)
  then Err DecodeErr else
  let? payload := open_frame MAGIC_FILE_LIST bs in
  Dec_run (CompleteFileList_decode_payload expected volume) payload.

(** ** The shared parts of manifests *)
Definition encode_config (config : VolumeConfig) (e : Enc) : Enc :=
  e |> Enc_u8 (VolumeKind_u8 (vc_kind config)) |> Enc_u8 0 |> Enc_u32 (vc_pages config).
Definition decode_config : dec VolumeConfig :=
  let* k := Dec_u8 in
  let* kind := dec_lift (if k =? 0 then Ok VolumeKind_Memory
                         else if k =? 1 then Ok VolumeKind_Data else Err DecodeErr) in
  let* zero := Dec_u8 in
  if negb (zero =? 0) then dec_fail else
  let* pages := Dec_u32 in
  if pages =? 0 then dec_fail else
  dec_ret {| vc_kind := kind; vc_pages := pages |}.

Definition encode_base_ref (value : option BaseRef) (e : Enc) : Enc :=
  match value with
  | None => e |> Enc_u8 0 |> Enc_u64 0 |> Enc_u64 0 |> Enc_u64 0 |> Enc_u64 0
  | Some value =>
      e |> Enc_u8 1 |> Enc_u64 (br_base_id value) |> Enc_u64 (br_manifest_id value)
        |> Enc_u64 (br_manifest_checksum value) |> Enc_u64 (br_post_state_checksum value)
  end.
Definition no_base : BaseRef :=
  {| br_base_id := 0; br_manifest_id := 0; br_manifest_checksum := 0;
     br_post_state_checksum := 0 |}.
Definition decode_base_ref : dec (option BaseRef) :=
  let* present := Dec_u8 in
  let* base_id := Dec_u64 in
  let* manifest_id := Dec_u64 in
  let* manifest_checksum := Dec_u64 in
  let* post_state_checksum := Dec_u64 in
  let value := {| br_base_id := base_id; br_manifest_id := manifest_id;
                  br_manifest_checksum := manifest_checksum;
                  br_post_state_checksum := post_state_checksum |} in
  if (present =? 0) && bool_decide (value = no_base) then dec_ret None
  else if present =? 1 then dec_ret (Some value)
  else dec_fail.

Definition encode_list_ref (value : option FileListRef) (e : Enc) : Enc :=
  match value with
  | None => e |> Enc_u8 0 |> Enc_u64 0 |> Enc_u64 0 |> Enc_u64 0
  | Some value =>
      e |> Enc_u8 1 |> Enc_u64 (fl_writer_fence value) |> Enc_u64 (fl_list_id value)
        |> Enc_u64 (fl_checksum value)
  end.
Definition no_list : FileListRef :=
  {| fl_writer_fence := 0; fl_list_id := 0; fl_checksum := 0 |}.
Definition decode_list_ref : dec (option FileListRef) :=
  let* present := Dec_u8 in
  let* writer_fence := Dec_u64 in
  let* list_id := Dec_u64 in
  let* checksum := Dec_u64 in
  let value := {| fl_writer_fence := writer_fence; fl_list_id := list_id;
                  fl_checksum := checksum |} in
  if (present =? 0) && bool_decide (value = no_list) then dec_ret None
  else if present =? 1 then dec_ret (Some value)
  else dec_fail.

(** ** Manifests *)
Record Manifest := {
  m_volume : Z;
  m_writer_fence : Z;
  m_journal_seq : Z;
  m_archive_seq : Z;
  m_capture_seq : Z;
  m_sync_covered_through : Z;
  m_recovery_kind : RecoveryKind;
  m_checkpoint_epoch : Z;
  m_config : VolumeConfig;
  m_vmstate_logical_length : Z;
  m_base : option BaseRef;
  m_complete_list : option FileListRef;
  m_post_state_checksum : Z;
  m_metadata_checksum : Z;
  m_added : list ObjectRef;
  m_removed : list ObjectIdentity }.

Inductive ManifestTooLarge := TooLarge.

Definition Manifest_pointer (self : Manifest) (encoded : bytes) : ManifestPtr :=
  {| mp_fence := m_writer_fence self; mp_journal_seq := m_journal_seq self;
     mp_seq := m_archive_seq self; mp_capture_seq := m_capture_seq self;
     mp_checksum := checksum64 encoded |}.

Definition validate_manifest_shape (manifest : Manifest) : outcome DecodeError unit :=
  if (m_capture_seq manifest <? m_sync_covered_through manifest)
     || (bool_decide (m_complete_list manifest = None)
         && negb (bool_decide (m_removed manifest = [])))
  then Err DecodeErr else
  let? _ := validate_objects (m_added manifest) (Some MAX_OVERLAPPING_FILES) in
  let added := bts_collect (map or_identity (m_added manifest)) in
  let removed := bts_collect (m_removed manifest) in
  if negb (len added =? len (m_added manifest))
     || negb (len removed =? len (m_removed manifest))
     || existsb (fun identity => bt_contains identity removed) (bt_keys added)
  then Err DecodeErr else Ok tt.
Definition assert_manifest_shape {E} (manifest : Manifest) : outcome E unit :=
  assert! is_ok (validate_manifest_shape manifest) in Ok tt.

Definition encode_manifest_prefix (manifest : Manifest) (e : Enc) : Enc :=
  e |> Enc_u16 FORMAT_VERSION
    |> Enc_u64 (m_volume manifest)
    |> Enc_u64 (m_writer_fence manifest)
    |> Enc_u64 (m_journal_seq manifest)
    |> Enc_u64 (m_archive_seq manifest)
    |> Enc_u64 (m_capture_seq manifest)
    |> Enc_u64 (m_sync_covered_through manifest)
    |> Enc_u8 (RecoveryKind_u8 (m_recovery_kind manifest))
    |> Enc_u64 (m_checkpoint_epoch manifest)
    |> Enc_u32 page_size
    |> encode_config (m_config manifest)
    |> Enc_u64 (m_vmstate_logical_length manifest)
    |> encode_base_ref (m_base manifest)
    |> encode_list_ref (m_complete_list manifest)
    |> Enc_u64 (m_post_state_checksum manifest)
    |> Enc_u64 (m_metadata_checksum manifest).
Definition decode_manifest_prefix (volume : Z) : dec Manifest :=
  let* version := Dec_u16 in
  if negb (version =? FORMAT_VERSION) then dec_fail else
  let* v := Dec_u64 in
  if negb (v =? volume) then dec_fail else
  let* writer_fence := Dec_u64 in
  let* journal_seq := Dec_u64 in
  let* archive_seq := Dec_u64 in
  let* capture_seq := Dec_u64 in
  let* sync_covered_through := Dec_u64 in
  let* k := Dec_u8 in
  let* recovery_kind := dec_lift (RecoveryKind_decode k) in
  let* checkpoint_epoch := Dec_u64 in
  let* size := Dec_u32 in
  if negb (size =? page_size) then dec_fail else
  let* config := decode_config in
  let* vmstate_logical_length := Dec_u64 in
  let* base := decode_base_ref in
  let* complete_list := decode_list_ref in
  let* post_state_checksum := Dec_u64 in
  let* metadata_checksum := Dec_u64 in
  dec_ret {| m_volume := volume; m_writer_fence := writer_fence;
             m_journal_seq := journal_seq; m_archive_seq := archive_seq;
             m_capture_seq := capture_seq; m_sync_covered_through := sync_covered_through;
             m_recovery_kind := recovery_kind; m_checkpoint_epoch := checkpoint_epoch;
             m_config := config; m_vmstate_logical_length := vmstate_logical_length;
             m_base := base; m_complete_list := complete_list;
             m_post_state_checksum := post_state_checksum;
             m_metadata_checksum := metadata_checksum; m_added := []; m_removed := [] |}.

Definition Manifest_with_changes (m : Manifest) (added : list ObjectRef)
    (removed : list ObjectIdentity) : Manifest :=
  {| m_volume := m_volume m; m_writer_fence := m_writer_fence m;
     m_journal_seq := m_journal_seq m; m_archive_seq := m_archive_seq m;
     m_capture_seq := m_capture_seq m; m_sync_covered_through := m_sync_covered_through m;
     m_recovery_kind := m_recovery_kind m; m_checkpoint_epoch := m_checkpoint_epoch m;
     m_config := m_config m; m_vmstate_logical_length := m_vmstate_logical_length m;
     m_base := m_base m; m_complete_list := m_complete_list m;
     m_post_state_checksum := m_post_state_checksum m;
     m_metadata_checksum := m_metadata_checksum m; m_added := added; m_removed := removed |}.

Definition Manifest_payload (self : Manifest) : bytes :=
  Enc_new |> encode_manifest_prefix self
    |> Enc_u32 (len (m_added self))
    |> Enc_each ObjectRef_encode_into (m_added self)
    |> Enc_u32 (len (m_removed self))
    |> Enc_each ObjectIdentity_encode (m_removed self)
    |> Enc_finish.
Definition Manifest_encode (self : Manifest) : outcome ManifestTooLarge bytes :=
  let? _ := assert_manifest_shape self in
  assert! page_size <? W32 in
  assert! len (m_added self) <? W32 in
  assert! len (m_removed self) <? W32 in
  let? bs := seal_frame MAGIC_MANIFEST (Manifest_payload self) in
  if MAX_MANIFEST_BYTES <? len bs then Err TooLarge else Ok bs.

Definition Manifest_decode_payload (volume : Z) : dec Manifest :=
  let* manifest := decode_manifest_prefix volume in
  let* added_count := Dec_u32 in
  let* added := dec_repeat (Z.to_nat added_count) ObjectRef_decode_from in
  let* removed_count := Dec_u32 in
  let* removed := dec_repeat (Z.to_nat removed_count) ObjectIdentity_decode in
  let* _ := Dec_finish in
  let manifest := Manifest_with_changes manifest added removed in
  let* _ := dec_lift (validate_manifest_shape manifest) in
  dec_ret manifest.
Definition Manifest_decode (volume : Z) (bs : bytes) : outcome DecodeError Manifest :=
  if MAX_MANIFEST_BYTES <? len bs then Err DecodeErr else
  let? payload := open_frame MAGIC_MANIFEST bs in
  Dec_run (Manifest_decode_payload volume) payload.

(** ** The state chain *)
Definition chain_insert (batches : BTreeMap (Z * Z) (Z * Z)) (file : ObjectRef)
  : outcome DecodeError (BTreeMap (Z * Z) (Z * Z)) :=
  let state := (or_pre_state_checksum file, or_post_state_checksum file) in
  let key := (or_max_seq file, or_batch_id file) in
  match bt_get key batches with
  | Some old => if bool_decide (old = state) then Ok (bt_insert key state batches)
                else Err DecodeErr
  | None => Ok (bt_insert key state batches)
  end.
Fixpoint chain_from (checksum : Z) (batches : list (Z * Z)) : outcome DecodeError Z :=
  match batches with
  | [] => Ok checksum
  | (pre, post) :: batches => if pre =? checksum then chain_from post batches else Err DecodeErr
  end.
Definition validate_file_state_chain (base_checksum post_state_checksum : Z)
    (files : list ObjectRef) : outcome DecodeError unit :=
  let? batches := fold_outcome chain_insert [] files in
  match bt_values batches with
  | [] => if post_state_checksum =? base_checksum then Ok tt else Err DecodeErr
  | (first_pre, first_post) :: rest =>
      if bool_decide (rest = []) && (first_pre =? first_post)
         && (first_post =? post_state_checksum)
      then Ok tt else
      let? checksum :=
        if first_pre =? first_post then Ok first_post
        else if negb (first_pre =? base_checksum) then Err DecodeErr else Ok first_post in
      let? checksum := chain_from checksum rest in
      if checksum =? post_state_checksum then Ok tt else Err DecodeErr
  end.
Definition validate_state_chain (manifest : Manifest) (files : list ObjectRef)
  : outcome DecodeError unit :=
  validate_file_state_chain
    (match m_base manifest with Some base => br_post_state_checksum base | None => 0 end)
    (m_post_state_checksum manifest) files.

(** ** The files a manifest stands for *)
Definition remove_file (files : BTreeMap ObjectIdentity ObjectRef) (identity : ObjectIdentity)
  : outcome DecodeError (BTreeMap ObjectIdentity ObjectRef) :=
  match bt_get identity files with
  | None => Err DecodeErr
  | Some _ => Ok (bt_remove identity files)
  end.
Definition insert_file (files : BTreeMap ObjectIdentity ObjectRef) (object : ObjectRef)
  : outcome DecodeError (BTreeMap ObjectIdentity ObjectRef) :=
  match bt_get (or_identity object) files with
  | Some _ => Err DecodeErr
  | None => Ok (bt_insert (or_identity object) object files)
  end.
Definition list_objects (complete_list : option CompleteFileList) : list ObjectRef :=
  match complete_list with Some list => cfl_objects list | None => [] end.

Definition Manifest_current_files (self : Manifest) (complete_list : option CompleteFileList)
  : outcome DecodeError (list ObjectRef) :=
  let? _ :=
    match m_complete_list self, complete_list with
    | None, None => Ok tt
    | Some expected, Some list =>
        let? reference := CompleteFileList_reference list in
        if bool_decide (reference = expected) then Ok tt else Err DecodeErr
    | _, _ => Err DecodeErr
    end in
  let files := bt_collect (map (fun object => (or_identity object, object))
                             (list_objects complete_list)) in
  let? files := fold_outcome remove_file files (m_removed self) in
  let? files := fold_outcome insert_file files (m_added self) in
  let files := bt_values files in
  let? _ := validate_objects files (Some MAX_OVERLAPPING_FILES) in
  let? _ := validate_state_chain self files in
  Ok files.
End Metadata.

Record ManifestClosure := {
  mc_manifest : Manifest;
  mc_complete_list : option CompleteFileList;
  mc_files : list ObjectRef }.
Record BoundedManifest := {
  bd_manifest : Manifest;
  bd_new_complete_list : option CompleteFileList }.
Record BaseRoot := {
  root_base_id : Z;
  root_manifest_id : Z;
  root_manifest_checksum : Z;
  root_post_state_checksum : Z }.
Record BaseManifest := {
  bsm_base_id : Z;
  bsm_manifest_id : Z;
  bsm_capture_seq : Z;
  bsm_sync_covered_through : Z;
  bsm_recovery_kind : RecoveryKind;
  bsm_checkpoint_epoch : Z;
  bsm_config : VolumeConfig;
  bsm_vmstate_logical_length : Z;
  bsm_post_state_checksum : Z;
  bsm_metadata_checksum : Z;
  bsm_objects : list ObjectRef }.

Section Publication.
Context `{C : Crc} `{P : PageSize}.

Definition ManifestClosure_decode (volume : Z) (pointer : ManifestPtr)
    (manifest_bytes : bytes) (complete_list_bytes : option bytes)
  : outcome DecodeError ManifestClosure :=
  if negb (checksum64 manifest_bytes =? mp_checksum pointer) then Err DecodeErr else
  let? manifest := Manifest_decode volume manifest_bytes in
  if negb (bool_decide
       ((m_writer_fence manifest, m_journal_seq manifest, m_archive_seq manifest,
         m_capture_seq manifest)
        = (mp_fence pointer, mp_journal_seq pointer, mp_seq pointer, mp_capture_seq pointer)))
  then Err DecodeErr else
  let? complete_list :=
    match m_complete_list manifest, complete_list_bytes with
    | None, None => Ok None
    | Some reference, Some bs =>
        let? list := CompleteFileList_decode reference volume bs in Ok (Some list)
    | _, _ => Err DecodeErr
    end in
  let? files := Manifest_current_files manifest complete_list in
  Ok {| mc_manifest := manifest; mc_complete_list := complete_list; mc_files := files |}.

(** A manifest that encodes is left alone; one that is too large is rewritten
    with its current files as a new complete list. *)
Definition Manifest_with_list (m : Manifest) (list : FileListRef) : Manifest :=
  {| m_volume := m_volume m; m_writer_fence := m_writer_fence m;
     m_journal_seq := m_journal_seq m; m_archive_seq := m_archive_seq m;
     m_capture_seq := m_capture_seq m; m_sync_covered_through := m_sync_covered_through m;
     m_recovery_kind := m_recovery_kind m; m_checkpoint_epoch := m_checkpoint_epoch m;
     m_config := m_config m; m_vmstate_logical_length := m_vmstate_logical_length m;
     m_base := m_base m; m_complete_list := Some list;
     m_post_state_checksum := m_post_state_checksum m;
     m_metadata_checksum := m_metadata_checksum m; m_added := []; m_removed := [] |}.
Definition bound_manifest (manifest : Manifest)
    (current_complete_list : option CompleteFileList) (new_list_id : Z)
  : outcome DecodeError BoundedManifest :=
  match Manifest_encode manifest with
  | Panic => Panic
  | Ok _ => Ok {| bd_manifest := manifest; bd_new_complete_list := None |}
  | Err _ =>
      let? objects := Manifest_current_files manifest current_complete_list in
      let list := {| cfl_volume := m_volume manifest;
                     cfl_writer_fence := m_writer_fence manifest;
                     cfl_list_id := new_list_id; cfl_objects := objects |} in
      let? reference := CompleteFileList_reference list in
      let manifest := Manifest_with_list manifest reference in
      let? _ := map_err (fun _ => DecodeErr) (Manifest_encode manifest) in
      Ok {| bd_manifest := manifest; bd_new_complete_list := Some list |}
  end.

(** ** Base roots and base manifests *)
Definition BaseRoot_payload (self : BaseRoot) : bytes :=
  Enc_new |> Enc_u16 FORMAT_VERSION |> Enc_u64 (root_base_id self)
    |> Enc_u64 (root_manifest_id self) |> Enc_u64 (root_manifest_checksum self)
    |> Enc_u64 (root_post_state_checksum self) |> Enc_finish.
Definition BaseRoot_encode {E} (self : BaseRoot) : outcome E bytes :=
  seal_frame MAGIC_BASE_ROOT (BaseRoot_payload self).
Definition BaseRoot_decode_payload (base_id : Z) : dec BaseRoot :=
  let* version := Dec_u16 in
  if negb (version =? FORMAT_VERSION) then dec_fail else
  let* b := Dec_u64 in
  if negb (b =? base_id) then dec_fail else
  let* manifest_id := Dec_u64 in
  let* manifest_checksum := Dec_u64 in
  let* post_state_checksum := Dec_u64 in
  let* _ := Dec_finish in
  dec_ret {| root_base_id := base_id; root_manifest_id := manifest_id;
             root_manifest_checksum := manifest_checksum;
             root_post_state_checksum := post_state_checksum |}.
Definition BaseRoot_decode (base_id : Z) (bs : bytes) : outcome DecodeError BaseRoot :=
  let? payload := open_frame MAGIC_BASE_ROOT bs in
  Dec_run (BaseRoot_decode_payload base_id) payload.
Definition BaseRoot_as_base_ref (self : BaseRoot) : BaseRef :=
  {| br_base_id := root_base_id self; br_manifest_id := root_manifest_id self;
     br_manifest_checksum := root_manifest_checksum self;
     br_post_state_checksum := root_post_state_checksum self |}.

Definition BaseManifest_payload (self : BaseManifest) : bytes :=
  Enc_new |> Enc_u16 FORMAT_VERSION
    |> Enc_u64 (bsm_base_id self)
    |> Enc_u64 (bsm_manifest_id self)
    |> Enc_u64 (bsm_capture_seq self)
    |> Enc_u64 (bsm_sync_covered_through self)
    |> Enc_u8 (RecoveryKind_u8 (bsm_recovery_kind self))
    |> Enc_u64 (bsm_checkpoint_epoch self)
    |> Enc_u32 page_size
    |> encode_config (bsm_config self)
    |> Enc_u64 (bsm_vmstate_logical_length self)
    |> Enc_u64 (bsm_post_state_checksum self)
    |> Enc_u64 (bsm_metadata_checksum self)
    |> Enc_u32 (len (bsm_objects self))
    |> Enc_each ObjectRef_encode_into (bsm_objects self)
    |> Enc_finish.
Definition BaseManifest_encode {E} (self : BaseManifest) : outcome E bytes :=
  let? _ := assert_valid_objects (bsm_objects self) in
  assert! bsm_sync_covered_through self <=? bsm_capture_seq self in
  assert! page_size <? W32 in
  assert! len (bsm_objects self) <? W32 in
  let? bs := seal_frame MAGIC_BASE_MANIFEST (BaseManifest_payload self) in
  assert! len bs <=? MAX_METADATA_OBJECT_BYTES in
  Ok bs.
Definition BaseManifest_root {E} (self : BaseManifest) : outcome E BaseRoot :=
  let? bs := BaseManifest_encode self in
  Ok {| root_base_id := bsm_base_id self; root_manifest_id := bsm_manifest_id self;
        root_manifest_checksum := checksum64 bs;
        root_post_state_checksum := bsm_post_state_checksum self |}.

Definition BaseManifest_decode_payload (root : BaseRoot) : dec BaseManifest :=
  let* version := Dec_u16 in
  if negb (version =? FORMAT_VERSION) then dec_fail else
  let* b := Dec_u64 in
  if negb (b =? root_base_id root) then dec_fail else
  let* m := Dec_u64 in
  if negb (m =? root_manifest_id root) then dec_fail else
  let* capture_seq := Dec_u64 in
  let* sync_covered_through := Dec_u64 in
  let* k := Dec_u8 in
  let* recovery_kind := dec_lift (RecoveryKind_decode k) in
  let* checkpoint_epoch := Dec_u64 in
  let* size := Dec_u32 in
  if negb (size =? page_size) then dec_fail else
  let* config := decode_config in
  let* vmstate_logical_length := Dec_u64 in
  let* post_state_checksum := Dec_u64 in
  let* metadata_checksum := Dec_u64 in
  let* count := Dec_u32 in
  let* objects := dec_repeat (Z.to_nat count) ObjectRef_decode_from in
  let* _ := Dec_finish in
  if (capture_seq <? sync_covered_through)
     || negb (post_state_checksum =? root_post_state_checksum root)
  then dec_fail else
  let* _ := dec_lift (validate_objects objects (Some MAX_OVERLAPPING_FILES)) in
  dec_ret {| bsm_base_id := root_base_id root; bsm_manifest_id := root_manifest_id root;
             bsm_capture_seq := capture_seq;
             bsm_sync_covered_through := sync_covered_through;
             bsm_recovery_kind := recovery_kind; bsm_checkpoint_epoch := checkpoint_epoch;
             bsm_config := config; bsm_vmstate_logical_length := vmstate_logical_length;
             bsm_post_state_checksum := post_state_checksum;
             bsm_metadata_checksum := metadata_checksum; bsm_objects := objects |}.
Definition BaseManifest_decode (root : BaseRoot) (bs : bytes)
  : outcome DecodeError BaseManifest :=
  if (MAX_METADATA_OBJECT_BYTES <? len bs)
     || negb (checksum64 bs =? root_manifest_checksum root)
  then Err DecodeErr else
  let? payload := open_frame MAGIC_BASE_MANIFEST bs in
  Dec_run (BaseManifest_decode_payload root) payload.
End Publication.
