(* ===== verification/ManifestOverlap.v ===== *)
(** * The overlap sweep of [manifest.rs]

    [validate_objects] and [max_object_overlap] sweep the start and end keys
    of a set of file references. Both are proved against the plain definition
    of overlap: the number of files whose key range contains a key. *)

From S2P Require Import Prelude Format Types OrdMap Blx BlxFile Manifest.

Section Overlap.
Context `{P : PageSize}.
Variable objects : list ObjectRef.
(** [ObjectRef::decode_from] rejects references that are not ordered. *)
Hypothesis ordered : forall o, In o objects -> cmp_leb (or_first_key o) (or_last_key o) = true.

Definition covers (k : BlockKey) (o : ObjectRef) : bool :=
  cmp_leb (or_first_key o) k && cmp_leb k (or_last_key o).
Definition overlap_at (k : BlockKey) : Z := len (List.filter (covers k) objects).

(** Number of references with a property. *)
Definition count (f : ObjectRef -> bool) : Z := len (List.filter f objects).
Definition is_in (ks : list BlockKey) (k : BlockKey) : bool := bool_decide (In k ks).

Definition counts (os : list ObjectRef) (k : BlockKey) : Z * Z :=
  (len (List.filter (fun o => bool_decide (or_first_key o = k)) os),
   len (List.filter (fun o => bool_decide (or_last_key o = k)) os)).

Lemma bt_get_update {V} k k' d (f : V -> V) (m : BTreeMap BlockKey V) :
  bt_get k (bt_update k' d f m)
  = if decide (k = k') then Some (f (default d (bt_get k' m))) else bt_get k m.
Proof.
  unfold bt_update. destruct (decide (k = k')) as [->|Hne];
    [apply bt_get_insert_eq|now apply bt_get_insert_ne].
Qed.

Lemma filter_snoc {A} (f : A -> bool) l x :
  List.filter f (l ++ [x]) = List.filter f l ++ (if f x then [x] else []).
Proof. rewrite List.filter_app. simpl. now destruct (f x). Qed.

Lemma events_spec os k :
  bt_sorted (object_events os)
  /\ (default (0, 0) (bt_get k (object_events os)) = counts os k)
  /\ forall o, In o os -> In (or_first_key o) (bt_keys (object_events os))
                          /\ In (or_last_key o) (bt_keys (object_events os)).
Proof.
  unfold object_events. induction os as [|o os IH] using rev_ind;
    [split; [constructor|split; [reflexivity|intros ? []]]|].
  rewrite fold_left_app. simpl. set (m := fold_left add_event os []) in *.
  destruct IH as (Hs & Hg & Hin).
  assert (forall k', bt_get k' (add_event m o) <> None <->
    (k' = or_first_key o \/ k' = or_last_key o \/ bt_get k' m <> None)) as Hkeys.
  { intros k'. unfold add_event. rewrite !bt_get_update.
    destruct (decide (k' = or_last_key o)); [intuition congruence|].
    destruct (decide (k' = or_first_key o)); intuition congruence. }
  assert (forall k', In k' (bt_keys (add_event m o)) <->
    (k' = or_first_key o \/ k' = or_last_key o \/ In k' (bt_keys m))) as Hk.
  { intros k'. specialize (Hkeys k'). rewrite !bt_get_None in Hkeys.
    destruct (decide (In k' (bt_keys m))), (decide (In k' (bt_keys (add_event m o)))); tauto. }
  split; [|split].
  - unfold add_event, bt_update. now repeat apply bt_insert_sorted.
  - unfold counts in *. rewrite !filter_snoc, !len_app. unfold add_event. rewrite !bt_get_update.
    destruct (decide (k = or_last_key o)) as [->|Hl].
    + rewrite (bool_decide_eq_true_2 (or_last_key o = or_last_key o)) by reflexivity.
      destruct (decide (or_last_key o = or_first_key o)) as [He|He]; simpl.
      * rewrite He in *. rewrite Hg, (bool_decide_eq_true_2 (or_first_key o = or_first_key o))
          by reflexivity. reflexivity.
      * rewrite Hg, bool_decide_eq_false_2 by congruence. simpl. f_equal. rewrite len_nil. lia.
    + rewrite (bool_decide_eq_false_2 (or_last_key o = k)) by congruence.
      destruct (decide (k = or_first_key o)) as [->|Hf]; simpl.
      * rewrite Hg, bool_decide_eq_true_2 by reflexivity. simpl. f_equal; rewrite ?len_nil; lia.
      * rewrite Hg, bool_decide_eq_false_2 by congruence. simpl. f_equal; rewrite ?len_nil; lia.
  - intros o' Ho'. rewrite !Hk. apply in_app_iff in Ho' as [Ho'|[->|[]]]; [|tauto].
    destruct (Hin o' Ho'). tauto.
Qed.

(** Summing the counts of distinct keys counts the references at those keys. *)
Lemma filter_len_split {A} (f g : A -> bool) l :
  (forall x, In x l -> f x = true -> g x = false) ->
  len (List.filter (fun x => f x || g x) l) = len (List.filter f l) + len (List.filter g l).
Proof.
  induction l as [|x l IH]; intros H; simpl; [reflexivity|].
  specialize (IH (fun y Hy => H y (or_intror Hy))). specialize (H x (or_introl eq_refl)).
  destruct (f x), (g x); simpl; rewrite ?len_cons, IH; lia.
Qed.
Lemma filter_ext_len {A} (f g : A -> bool) l :
  (forall x, In x l -> f x = g x) -> len (List.filter f l) = len (List.filter g l).
Proof. intros H. now rewrite (List.filter_ext_in _ _ _ H). Qed.
Lemma count_in_snoc (key : ObjectRef -> BlockKey) ks k :
  ~ In k ks ->
  count (fun o => is_in (ks ++ [k]) (key o))
  = count (fun o => is_in ks (key o)) + count (fun o => bool_decide (key o = k)).
Proof using Type.
  intros Hk. unfold count. rewrite <- filter_len_split.
  - apply filter_ext_len. intros o _. unfold is_in. apply eq_true_iff_eq.
    rewrite orb_true_iff, !bool_decide_eq_true, in_app_iff. simpl. intuition.
  - intros o _. unfold is_in. rewrite bool_decide_eq_true, bool_decide_eq_false. congruence.
Qed.

(** At the event key [x] after the keys [ks], the files that started at or
    before [x] less the files that ended before it are those that cover it. *)
Definition balance (ks : list BlockKey) : Z :=
  count (fun o => is_in ks (or_first_key o)) - count (fun o => is_in ks (or_last_key o)).

Lemma overlap_at_event ks x post :
  bt_keys (object_events objects) = ks ++ x :: post ->
  balance ks + (counts objects x).1 = overlap_at x
  /\ 0 <= (counts objects x).2 <= overlap_at x /\ ~ In x ks.
Proof using ordered.
  intros Hkeys. destruct (events_spec objects x) as (Hs & _ & Hin).
  assert (forall k, In k ks -> cmp k x = Lt) as Hbefore.
  { intros k Hk. apply in_split in Hk as (l1 & l2 & ->). clear -Hs Hkeys.
    unfold bt_keys in Hkeys. revert Hkeys. rewrite <- app_assoc. simpl.
    generalize (object_events objects) Hs. clear. induction l1 as [|a l1 IH]; intros m Hs Hm; simpl in *.
    - destruct m as [|[k0 v0] m]; [discriminate|]. injection Hm as -> Hm.
      apply bt_sorted_cons in Hs as [_ Hs]. rewrite List.Forall_forall in Hs.
      assert (In x (map fst m)) as Hx by (rewrite Hm; apply in_app_iff; right; now left).
      apply in_map_iff in Hx as ([x' v] & <- & Hx). exact (Hs _ Hx).
    - destruct m as [|[k0 v0] m]; [discriminate|]. injection Hm as -> Hm.
      apply bt_sorted_cons in Hs as [Hs _]. now apply (IH m). }
  assert (forall k, In k post -> cmp x k = Lt) as Hafter.
  { intros k Hk. clear -Hs Hkeys Hk. unfold bt_keys in Hkeys. revert Hkeys.
    generalize (object_events objects) Hs. clear Hs. induction ks as [|a ks IH]; intros m Hs Hm; simpl in *.
    - destruct m as [|[k0 v0] m]; [discriminate|]. injection Hm as -> Hm.
      apply bt_sorted_cons in Hs as [_ Hs]. rewrite List.Forall_forall in Hs.
      assert (In k (map fst m)) as Hx by now rewrite Hm.
      apply in_map_iff in Hx as ([x' v] & <- & Hx). exact (Hs _ Hx).
    - destruct m as [|[k0 v0] m]; [discriminate|]. injection Hm as -> Hm.
      apply bt_sorted_cons in Hs as [Hs _]. now apply (IH m). }
  assert (forall k, In k (bt_keys (object_events objects)) ->
    (In k ks <-> cmp k x = Lt)) as Hks.
  { intros k Hk. split; [apply Hbefore|]. intros Hlt. rewrite Hkeys in Hk.
    apply in_app_iff in Hk as [Hk|[->|Hk]]; [exact Hk|now rewrite cmp_refl in Hlt|].
    apply Hafter in Hk. destruct (cmp_lt_irrefl x). now apply cmp_lt_trans with k. }
  assert (~ In x ks) as Hx by (intros H; apply Hbefore in H; now rewrite cmp_refl in H).
  split; [|split; [|exact Hx]].
  - unfold balance, counts, overlap_at. simpl.
    change (count (fun o => is_in ks (or_first_key o)) - count (fun o => is_in ks (or_last_key o))
      + count (fun o => bool_decide (or_first_key o = x)) = count (covers x)).
    pose proof (count_in_snoc or_first_key ks x Hx) as Hc.
    assert (count (fun o => is_in (ks ++ [x]) (or_first_key o))
            = count (covers x) + count (fun o => is_in ks (or_last_key o))) as Hsum; [|lia].
    unfold count. rewrite <- filter_len_split.
    + apply filter_ext_len. intros o Ho. destruct (Hin o Ho) as [Hi1 Hi2].
      unfold covers, is_in. apply eq_true_iff_eq.
      rewrite orb_true_iff, andb_true_iff, !bool_decide_eq_true, in_app_iff, !Hks, !cmp_leb_le by assumption.
      pose proof (ordered o Ho) as Hord. rewrite cmp_leb_le in Hord. simpl.
      destruct (cmp (or_last_key o) x) eqn:El.
      * apply cmp_eq in El. intuition congruence.
      * split; [tauto|]. intros _. destruct Hord as [Hord| ->]; [|now left].
        left. now apply cmp_lt_trans with (or_last_key o).
      * apply cmp_gt_lt in El. intuition congruence.
    + intros o Ho. unfold covers, is_in. rewrite andb_true_iff, bool_decide_eq_false.
      intros [_ Hc2] Hin2. apply Hbefore in Hin2. apply cmp_leb_le in Hc2 as [Hc2|Hc2].
      * destruct (cmp_lt_irrefl x). now apply cmp_lt_trans with (or_last_key o).
      * rewrite <- Hc2, cmp_refl in Hin2. discriminate.
  - unfold counts, overlap_at. simpl. split; [apply len_nonneg|].
    apply len_filter_mono. intros o Ho E. apply bool_decide_eq_true in E.
    unfold covers. rewrite <- E, ordered by exact Ho. apply cmp_leb_le. now right.
Qed.

Lemma overlap_at_bounds k : 0 <= overlap_at k <= len objects.
Proof using Type.
  unfold overlap_at. split; [apply len_nonneg|apply len_filter_le].
Qed.
Lemma balance_snoc ks x : ~ In x ks ->
  balance (ks ++ [x]) = balance ks + (counts objects x).1 - (counts objects x).2.
Proof using Type.
  intros Hx. unfold balance. rewrite !count_in_snoc by exact Hx. unfold counts, count. simpl. lia.
Qed.

Lemma balance_nil : balance (bt_keys (V := Z * Z) []) = 0.
Proof using Type.
  unfold balance, count.
  rewrite (filter_ext_len (fun o => is_in (bt_keys (V := Z * Z) []) (or_first_key o))
    (fun o => is_in (bt_keys (V := Z * Z) []) (or_last_key o))); [lia|].
  intros o _. unfold is_in. now rewrite !bool_decide_eq_false_2 by intros [].
Qed.

(** The values of the event map are the counts of its keys. *)
Lemma event_value x v : In (x, v) (object_events objects) -> v = counts objects x.
Proof using Type.
  intros Hin. destruct (events_spec objects x) as (Hs & Hg & _).
  rewrite (In_bt_get x v) in Hg by assumption. exact Hg.
Qed.
Lemma balance_all : balance (bt_keys (object_events objects)) = 0.
Proof using Type.
  unfold balance, count. assert (forall (key : ObjectRef -> BlockKey),
    (forall o, In o objects -> In (key o) (bt_keys (object_events objects))) ->
    len (List.filter (fun o => is_in (bt_keys (object_events objects)) (key o)) objects)
    = len objects) as H.
  { intros key Hkey. f_equal. rewrite <- (List.filter_ext_in (fun _ => true)).
    - clear. induction objects; simpl; congruence.
    - intros o Ho. symmetry. now apply bool_decide_eq_true, Hkey. }
  pose proof (fun o => proj2 (proj2 (events_spec objects (or_first_key o))) o) as Hin.
  rewrite !H; [lia|intros o Ho; now apply Hin..].
Qed.

(** A slice has fewer than 2^64 elements. *)
Hypothesis few : len objects < W64.

(** The sweep accepts exactly the sets whose event keys stay within the limit. *)
Lemma sweep_run limit pre post :
  object_events objects = pre ++ post ->
  sweep limit (balance (bt_keys pre)) (bt_values post)
  = if forallb (fun x => match limit with Some m => overlap_at x <=? m | None => true end)
         (bt_keys post)
    then Ok 0 else Err DecodeErr.
Proof using ordered few.
  revert pre. induction post as [|[x v] post IH]; intros pre Heq.
  - simpl. rewrite app_nil_r in Heq. rewrite <- Heq, balance_all. reflexivity.
  - assert (bt_keys (object_events objects) = bt_keys pre ++ x :: bt_keys post) as Hk
      by (rewrite Heq; unfold bt_keys; now rewrite map_app).
    destruct (overlap_at_event _ _ _ Hk) as (Hov & Hends & Hx).
    assert (v = counts objects x) as ->
      by (apply event_value; rewrite Heq; apply in_app_iff; right; now left).
    pose proof (overlap_at_bounds x) as Hb. cbn [bt_values bt_keys map fst snd forallb].
    destruct (counts objects x) as [starts ends] eqn:Ec. simpl in Hov, Hends. cbn [sweep].
    rewrite checked_add_Some, Hov by lia. cbn [ok_or outcome_bind].
    rewrite (proj2 (Z.ltb_ge (overlap_at x) ends)), orb_false_r by lia.
    specialize (IH (pre ++ [(x, (starts, ends))])). rewrite <- app_assoc in IH. specialize (IH Heq).
    unfold bt_keys in IH at 1. rewrite map_app in IH. simpl map in IH.
    rewrite balance_snoc, Ec in IH by exact Hx. simpl in IH.
    fold (bt_keys pre) in IH. rewrite Hov in IH. fold (bt_values post) (bt_keys post).
    destruct limit as [m|]; [|exact IH]. rewrite Z.leb_antisym.
    destruct (m <? overlap_at x); [reflexivity|exact IH].
Qed.

(** Some event key attains at least the overlap at any key. *)
Lemma overlap_attained k : 0 < overlap_at k ->
  exists x, In x (bt_keys (object_events objects)) /\ overlap_at k <= overlap_at x.
Proof using Type.
  intros Hpos.
  assert (forall l, (forall o, In o l -> covers k o = true) -> l <> [] ->
    exists o, In o l /\ forall o', In o' l -> cmp_leb (or_first_key o') (or_first_key o) = true) as Hmax.
  { induction l as [|o l IH]; intros Hl Hne; [congruence|].
    destruct l as [|o2 l].
    - exists o. split; [now left|]. intros o' [->|[]]. apply cmp_leb_le. now right.
    - destruct IH as (o3 & Hin & Hle); [intros; apply Hl; now right|discriminate|].
      destruct (cmp_le_total (or_first_key o) (or_first_key o3)) as [H|H].
      + exists o3. split; [now right|]. intros o' [<-|Ho']; auto.
      + exists o. split; [now left|]. intros o' [<-|Ho']; [apply cmp_leb_le; now right|].
        eapply cmp_le_trans; [now apply Hle|exact H]. }
  destruct (Hmax (List.filter (covers k) objects)) as (o & Ho & Hle).
  { intros o Ho. now apply List.filter_In in Ho. }
  { intros He. unfold overlap_at in Hpos. rewrite He in Hpos. now compute in Hpos. }
  apply List.filter_In in Ho as [Ho Hc]. exists (or_first_key o). split.
  - now apply (events_spec objects (or_first_key o)).
  - unfold covers in Hc. apply andb_true_iff in Hc as [Hc _]. unfold overlap_at.
    assert (forall o', In o' objects -> covers k o' = true -> covers (or_first_key o) o' = true) as Himp.
    { intros o' Ho' Hc'. pose proof (Hle o' (proj2 (List.filter_In _ _ _) (conj Ho' Hc'))) as H1.
      unfold covers in *. apply andb_true_iff in Hc' as [_ H2]. rewrite H1. simpl.
      eapply cmp_le_trans; eauto. }
    now apply len_filter_mono.
Qed.

Lemma validate_limit m : 0 <= m ->
  validate_objects objects None = Ok tt ->
  (validate_objects objects (Some m) = Ok tt <-> forall k, overlap_at k <= m).
Proof using ordered few.
  intros Hm Hn. unfold validate_objects in *.
  destruct (fold_outcome group_object ([], []) objects) as [[ids batches]| |]; try discriminate.
  cbn [outcome_bind] in *. destruct (negb (forallb batch_complete (bt_values batches))); [discriminate|].
  pose proof (sweep_run (Some m) [] (object_events objects) eq_refl) as Hsweep.
  rewrite balance_nil in Hsweep. rewrite Hsweep.
  set (f := fun x => overlap_at x <=? m).
  change (forallb (fun x => overlap_at x <=? m)) with (forallb f).
  destruct (forallb f (bt_keys (object_events objects))) eqn:E; simpl.
  - split; [intros _|reflexivity]. intros k.
    destruct (Z.lt_ge_cases 0 (overlap_at k)) as [Hpos|]; [|lia].
    destruct (overlap_attained k Hpos) as (x & Hx & Hle).
    rewrite forallb_forall in E. apply E in Hx. unfold f in Hx. lia.
  - split; [discriminate|]. intros H. exfalso.
    assert (forallb f (bt_keys (object_events objects)) = true); [|congruence].
    apply forallb_forall. intros x _. unfold f. apply Z.leb_le, H.
Qed.

Definition sweep_max (s : Z * Z) (c : Z * Z) : Z * Z :=
  let overlapping := saturating_add W64 s.1 c.1 in
  (saturating_sub overlapping c.2, Z.max s.2 overlapping).
Lemma sweep_max_run pre post M :
  object_events objects = pre ++ post ->
  let r := (fold_left sweep_max (bt_values post) (balance (bt_keys pre), M)).2 in
  M <= r /\ (forall x, In x (bt_keys post) -> overlap_at x <= r)
  /\ (r = M \/ exists x, In x (bt_keys post) /\ r = overlap_at x).
Proof using ordered few.
  revert pre M. induction post as [|[x v] post IH]; intros pre M Heq.
  - simpl. split; [lia|]. split; [intros x []|now left].
  - assert (bt_keys (object_events objects) = bt_keys pre ++ x :: bt_keys post) as Hk
      by (rewrite Heq; unfold bt_keys; now rewrite map_app).
    destruct (overlap_at_event _ _ _ Hk) as (Hov & Hends & Hx).
    assert (v = counts objects x) as ->
      by (apply event_value; rewrite Heq; apply in_app_iff; right; now left).
    pose proof (overlap_at_bounds x) as Hb. cbn [bt_values bt_keys map fst snd fold_left].
    assert (sweep_max (balance (bt_keys pre), M) (counts objects x)
            = (balance (bt_keys (pre ++ [(x, counts objects x)])), Z.max M (overlap_at x))) as ->.
    { unfold bt_keys at 2. rewrite map_app. simpl map. fold (bt_keys pre).
      rewrite balance_snoc by exact Hx. unfold sweep_max, saturating_add, saturating_sub.
      cbn [fst snd]. rewrite Hov. f_equal; lia. }
    specialize (IH (pre ++ [(x, counts objects x)]) (Z.max M (overlap_at x))).
    rewrite <- app_assoc in IH. specialize (IH Heq). fold (bt_values post) (bt_keys post).
    cbv zeta in *. destruct IH as (H1 & H2 & H3). split; [lia|]. split.
    + intros y [<-|Hy]; [lia|now apply H2].
    + destruct H3 as [->|(y & Hy & ->)]; [|right; exists y; split; [now right|reflexivity]].
      destruct (Z.max_spec M (overlap_at x)) as [[_ ->]|[_ ->]]; [right|now left].
      exists x. split; [now left|reflexivity].
Qed.
Lemma max_overlap_spec :
  (forall k, overlap_at k <= max_object_overlap objects)
  /\ (max_object_overlap objects = 0 \/ exists k, overlap_at k = max_object_overlap objects).
Proof using ordered few.
  pose proof (sweep_max_run [] (object_events objects) 0 eq_refl) as H.
  cbv zeta in H. rewrite balance_nil in H.
  change (max_object_overlap objects)
    with (fold_left sweep_max (bt_values (object_events objects)) (0, 0)).2.
  destruct H as (H1 & H2 & H3). split.
  - intros k. destruct (Z.lt_ge_cases 0 (overlap_at k)) as [Hpos|]; [|lia].
    destruct (overlap_attained k Hpos) as (x & Hx & Hle). specialize (H2 x Hx). lia.
  - destruct H3 as [H3|(x & _ & H3)]; [now left|right; now exists x].
Qed.
End Overlap.

(** C22. The overlap limit is enforced exactly. On references that pass the
    other checks, [validate_objects] with a limit accepts a set if and only if
    no block key lies in the ranges of more than that many files, so a reader
    of an archive never has to consult more than the limit's number of files
    for one block; and [max_object_overlap] is that worst number. *)
Theorem overlap_limit_exact `{PageSize} objects m :
  (forall o, In o objects -> cmp_leb (or_first_key o) (or_last_key o) = true) ->
  len objects < W64 -> 0 <= m -> validate_objects objects None = Ok tt ->
  (validate_objects objects (Some m) = Ok tt <-> forall k, overlap_at objects k <= m)
  /\ (forall k, overlap_at objects k <= max_object_overlap objects)
  /\ (max_object_overlap objects = 0
      \/ exists k, overlap_at objects k = max_object_overlap objects).
Proof.
  intros Ho Hf Hm Hv. split; [now apply validate_limit|now apply max_overlap_spec].
Qed.
