(* ===== verification/Layout.v ===== *)
(** * Names of blobs and store keys ([layout.rs])

    Every durable object has a name built from fixed-width hexadecimal
    fields; garbage collection and recovery read the fields back. *)

From Stdlib Require Import Ascii.
From Stdlib Require String.
From S2P Require Import Prelude Format Types OrdMap Text Head Blx BlxFile Manifest.

#[local] Open Scope string_scope.
#[local] Open Scope Z_scope.

(** [{:016x}] of a [u64] and [{:08x}] of a [u32]. *)
Definition hex64 (v : Z) : string := hex 16 v.
Definition hex32 (v : Z) : string := hex 8 v.
#[global] Arguments hex64 : simpl never.
#[global] Arguments hex32 : simpl never.
Definition u64_from_hex (s : string) : option Z := from_str_radix16 W64 s.
Definition u32_from_hex (s : string) : option Z := from_str_radix16 W32 s.

Definition placement_key : string := "cluster/placement".
Definition cluster_metadata_key : string := "cluster/metadata".
Definition node_claim_prefix : string := "cluster/nodes/".
Definition node_claim_key (host : Z) : string := node_claim_prefix ++ hex32 host ++ ".claim".
Definition peer_membership_prefix : string := "cluster/tls/public-keys/".
Definition peer_membership_key (host : Z) : string :=
  peer_membership_prefix ++ hex32 host ++ ".member".
Definition host_session_key (host : Z) : string := "hosts/" ++ hex32 host ++ "/session".
Definition journal_blob (volume fence seq : Z) : string :=
  "v/" ++ hex64 volume ++ "/j/" ++ hex64 fence ++ "-" ++ hex64 seq ++ ".rec".
Definition journal_mirror_blob (volume fence seq : Z) : string :=
  "v/" ++ hex64 volume ++ "/j/" ++ hex64 fence ++ "-" ++ hex64 seq ++ ".recm".
Definition blx_key (origin_volume fence object_id : Z) : string :=
  "v/" ++ hex64 origin_volume ++ "/o/" ++ hex64 fence ++ "-" ++ hex64 object_id ++ ".blx".
Definition blx_blob (volume fence object : Z) : string := blx_key volume fence object.
Definition head_key (volume : Z) : string := "v/" ++ hex64 volume ++ "/head".
Definition archive_manifest_key (volume fence archive_seq : Z) : string :=
  "v/" ++ hex64 volume ++ "/m/" ++ hex64 fence ++ "-" ++ hex64 archive_seq ++ ".manifest".
Definition manifest_key (volume fence seq : Z) : string := archive_manifest_key volume fence seq.
Definition complete_file_list_key (volume fence list_id : Z) : string :=
  "v/" ++ hex64 volume ++ "/f/" ++ hex64 fence ++ "-" ++ hex64 list_id ++ ".files".
Definition base_root_key (base : Z) : string := "b/" ++ hex64 base ++ "/root".
Definition base_manifest_key (base manifest_id : Z) : string :=
  "b/" ++ hex64 base ++ "/m/" ++ hex64 manifest_id ++ ".manifest".
Definition pending_manifest_key (volume fence seq : Z) : string :=
  "v/" ++ hex64 volume ++ "/p/" ++ hex64 fence ++ "-" ++ hex64 seq.
Definition volume_prefix (volume : Z) : string := "v/" ++ hex64 volume ++ "/".
Definition handoff_blob (volume : Z) : string := "v/" ++ hex64 volume ++ "/handoff".
Definition replica_spool_generation_blob (source volume assignment_epoch generation : Z) : string :=
  let suffix := if generation =? 0 then hex64 assignment_epoch ++ ".spool"
                else hex64 assignment_epoch ++ "-" ++ hex64 generation ++ ".spool" in
  "r/" ++ hex32 source ++ "/" ++ hex64 volume ++ "/" ++ suffix.
Definition replica_spool_blob (source volume assignment_epoch : Z) : string :=
  replica_spool_generation_blob source volume assignment_epoch 0.

(** The names of the records of [head.rs] and [manifest.rs]. *)
Definition ManifestPtr_manifest_key (self : ManifestPtr) (volume : Z) : string :=
  manifest_key volume (mp_fence self) (mp_seq self).
Definition ManifestPtr_pending_key (self : ManifestPtr) (volume : Z) : string :=
  pending_manifest_key volume (mp_fence self) (mp_seq self).
Definition imported_blx_key (base fence object_id : Z) : string :=
  "b/" ++ hex64 base ++ "/o/" ++ hex64 fence ++ "-" ++ hex64 object_id ++ ".blx".
Definition ObjectIdentity_store_key (self : ObjectIdentity) : string :=
  match oi_namespace_kind self with
  | Namespace_Volume => blx_key (oi_namespace_id self) (oi_writer_fence self) (oi_object_id self)
  | Namespace_ImportedBase =>
      imported_blx_key (oi_namespace_id self) (oi_writer_fence self) (oi_object_id self)
  end.
Definition FileListRef_store_key (self : FileListRef) (volume : Z) : string :=
  complete_file_list_key volume (fl_writer_fence self) (fl_list_id self).
Definition CompleteFileList_store_key (self : CompleteFileList) : string :=
  complete_file_list_key (cfl_volume self) (cfl_writer_fence self) (cfl_list_id self).

(** ** Store keys *)
Inductive StoreKey :=
| Key_Head (volume : Z)
| Key_ArchiveManifest (volume fence archive_seq : Z)
| Key_CompleteFileList (volume fence list_id : Z)
| Key_Blx (origin_volume fence object_id : Z)
| Key_PendingManifest (volume fence seq : Z)
| Key_BaseRoot (base : Z)
| Key_BaseManifest (base manifest_id : Z)
| Key_ImportedBaseBlx (base fence object_id : Z).
#[export] Instance StoreKey_eq_dec : EqDecision StoreKey.
Proof. solve_decision. Defined.

Definition hex_pair (value : string) : option (Z * Z) :=
  '(left_hex, right_hex) ← split_once "-"%char value;
  l ← u64_from_hex left_hex;
  r ← u64_from_hex right_hex;
  Some (l, r).
Definition strip_both (prefix suffix rest : string) : option string :=
  body ← strip_prefix prefix rest; strip_suffix body suffix.

Definition parse_volume_key (rest : string) : option StoreKey :=
  '(volume_hex, rest) ← split_once "/"%char rest;
  volume ← u64_from_hex volume_hex;
  if String.eqb rest "head" then Some (Key_Head volume) else
  match strip_prefix "m/" rest with
  | Some body =>
      match strip_suffix body ".manifest" with
      | Some body => '(fence, archive_seq) ← hex_pair body;
                     Some (Key_ArchiveManifest volume fence archive_seq)
      | None => None
      end
  | None =>
  match strip_both "f/" ".files" rest with
  | Some body => '(fence, list_id) ← hex_pair body; Some (Key_CompleteFileList volume fence list_id)
  | None =>
  match strip_both "o/" ".blx" rest with
  | Some body => '(fence, object_id) ← hex_pair body; Some (Key_Blx volume fence object_id)
  | None =>
  match strip_prefix "p/" rest with
  | Some body => '(fence, seq) ← hex_pair body; Some (Key_PendingManifest volume fence seq)
  | None => None
  end end end end.
Definition parse_base_key (rest : string) : option StoreKey :=
  '(base_hex, rest) ← split_once "/"%char rest;
  base ← u64_from_hex base_hex;
  if String.eqb rest "root" then Some (Key_BaseRoot base) else
  match strip_both "m/" ".manifest" rest with
  | Some body => manifest_id ← u64_from_hex body; Some (Key_BaseManifest base manifest_id)
  | None =>
  match strip_both "o/" ".blx" rest with
  | Some body => '(fence, object_id) ← hex_pair body; Some (Key_ImportedBaseBlx base fence object_id)
  | None => None
  end end.
Definition parse_key (key : string) : option StoreKey :=
  match strip_prefix "v/" key with
  | Some rest => parse_volume_key rest
  | None =>
  match strip_prefix "b/" key with
  | Some rest => parse_base_key rest
  | None => None
  end end.

(** ** Local blobs *)
Inductive BlobName :=
| Blob_Journal (volume fence seq : Z)
| Blob_Blx (volume fence object : Z)
| Blob_Handoff (volume : Z)
| Blob_ReplicaSpool (source volume assignment_epoch generation : Z).
#[export] Instance BlobName_eq_dec : EqDecision BlobName.
Proof. solve_decision. Defined.

Definition parse_spool (rest : string) : option BlobName :=
  match split "/"%char rest with
  | host :: parts =>
      if negb (Nat.eqb (String.length host) 8) then None else
      source ← u32_from_hex host;
      match parts with
      | volume_hex :: parts =>
          volume ← u64_from_hex volume_hex;
          match parts with
          | file :: parts =>
              file ← strip_suffix file ".spool";
              '(assignment, generation) ←
                match split_once "-"%char file with
                | None => Some (file, 0)
                | Some (assignment, generation) =>
                    generation ← u64_from_hex generation; Some (assignment, generation)
                end;
              assignment_epoch ← u64_from_hex assignment;
              match parts with
              | [] => Some (Blob_ReplicaSpool source volume assignment_epoch generation)
              | _ => None
              end
          | [] => None
          end
      | [] => None
      end
  | [] => None
  end.
Definition strip_record (rest : string) : option string :=
  r ← strip_prefix "j/" rest;
  match strip_suffix r ".recm" with Some body => Some body | None => strip_suffix r ".rec" end.
Definition parse_blob (name : string) : option BlobName :=
  match strip_prefix "r/" name with
  | Some rest => parse_spool rest
  | None =>
      rest ← strip_prefix "v/" name;
      '(volume_hex, rest) ← split_once "/"%char rest;
      volume ← u64_from_hex volume_hex;
      match strip_record rest with
      | Some body => '(fence, seq) ← hex_pair body; Some (Blob_Journal volume fence seq)
      | None =>
      match strip_both "o/" ".blx" rest with
      | Some body => '(fence, object) ← hex_pair body; Some (Blob_Blx volume fence object)
      | None => if String.eqb rest "handoff" then Some (Blob_Handoff volume) else None
      end end
  end.

(** ** Names and their meanings *)
Definition StoreKey_name (k : StoreKey) : string :=
  match k with
  | Key_Head volume => head_key volume
  | Key_ArchiveManifest volume fence archive_seq => archive_manifest_key volume fence archive_seq
  | Key_CompleteFileList volume fence list_id => complete_file_list_key volume fence list_id
  | Key_Blx volume fence object_id => blx_key volume fence object_id
  | Key_PendingManifest volume fence seq => pending_manifest_key volume fence seq
  | Key_BaseRoot base => base_root_key base
  | Key_BaseManifest base manifest_id => base_manifest_key base manifest_id
  | Key_ImportedBaseBlx base fence object_id => imported_blx_key base fence object_id
  end.
Definition StoreKey_ok (k : StoreKey) : Prop :=
  match k with
  | Key_Head a | Key_BaseRoot a => fits W64 a
  | Key_BaseManifest a b => fits W64 a /\ fits W64 b
  | Key_ArchiveManifest a b c | Key_CompleteFileList a b c | Key_Blx a b c
  | Key_PendingManifest a b c | Key_ImportedBaseBlx a b c => fits W64 a /\ fits W64 b /\ fits W64 c
  end.
Definition BlobName_name (b : BlobName) : string :=
  match b with
  | Blob_Journal volume fence seq => journal_blob volume fence seq
  | Blob_Blx volume fence object => blx_blob volume fence object
  | Blob_Handoff volume => handoff_blob volume
  | Blob_ReplicaSpool source volume epoch generation =>
      replica_spool_generation_blob source volume epoch generation
  end.
Definition BlobName_ok (b : BlobName) : Prop :=
  match b with
  | Blob_Handoff a => fits W64 a
  | Blob_Journal a b c | Blob_Blx a b c => fits W64 a /\ fits W64 b /\ fits W64 c
  | Blob_ReplicaSpool s a b c => fits W32 s /\ fits W64 a /\ fits W64 b /\ fits W64 c
  end.

Lemma u64_from_hex64 v : fits W64 v -> u64_from_hex (hex64 v) = Some v.
Proof.
  intros Hv. apply from_str_radix16_hex; [lia| |apply Hv].
  replace (16 ^ Z.of_nat 16) with W64 by reflexivity. exact Hv.
Qed.
Lemma u32_from_hex32 v : fits W32 v -> u32_from_hex (hex32 v) = Some v.
Proof.
  intros Hv. apply from_str_radix16_hex; [lia| |apply Hv].
  replace (16 ^ Z.of_nat 8) with W32 by reflexivity. exact Hv.
Qed.
Lemma hex64_free c v : is_hex c = false -> free_of c (hex64 v) = true.
Proof. apply hex_free_of. Qed.
Lemma hex32_free c v : is_hex c = false -> free_of c (hex32 v) = true.
Proof. apply hex_free_of. Qed.
Lemma length_hex32 v : String.length (hex32 v) = 8%nat.
Proof. apply length_hex. Qed.
#[global] Opaque hex64 hex32.
Lemma hex_pair_hex a b : fits W64 a -> fits W64 b -> hex_pair (hex64 a ++ "-" ++ hex64 b) = Some (a, b).
Proof.
  intros Ha Hb. unfold hex_pair. change ("-" ++ hex64 b) with (String "-" (hex64 b)).
  rewrite split_once_app by (apply hex64_free; reflexivity). cbn [mbind option_bind].
  rewrite !u64_from_hex64 by assumption. reflexivity.
Qed.
Lemma split_field v rest : split_once "/"%char (hex64 v ++ "/" ++ rest) = Some (hex64 v, rest).
Proof.
  change ("/" ++ rest) with (String "/" rest).
  rewrite split_once_app by (apply hex64_free; reflexivity). reflexivity.
Qed.
Lemma strip_pair a b suffix :
  strip_suffix (hex64 a ++ "-" ++ hex64 b ++ suffix) suffix = Some (hex64 a ++ "-" ++ hex64 b).
Proof. rewrite <- (append_assoc "-"), <- append_assoc. apply strip_suffix_app. Qed.

(** Splits the leading literal after a field into the separator and the rest,
    reads the field, and evaluates the tests on literals. *)
Ltac read_field :=
  match goal with
  | |- context [split_once "/"%char (hex64 ?v ++ ?lit ++ ?rest)] =>
      let lit' := eval cbv in (String.substring 1 10 lit) in
      change (lit ++ rest) with ("/" ++ (lit' ++ rest)); rewrite split_field
  | |- context [split_once "/"%char (hex64 ?v ++ ?lit)] =>
      let lit' := eval cbv in (String.substring 1 10 lit) in
      change lit with ("/" ++ lit'); rewrite split_field
  end; cbn [mbind option_bind]; rewrite u64_from_hex64 by assumption; cbn [mbind option_bind].

Ltac read_literals :=
  unfold strip_both, strip_record;
  repeat first
    [ rewrite strip_prefix_app
    | match goal with
      | |- context [String.eqb (?p ++ ?x) ?q] => change (String.eqb (p ++ x) q) with false
      | |- context [strip_prefix ?a (?p ++ ?x)] => change (strip_prefix a (p ++ x)) with (@None string)
      end
    | progress cbn [mbind option_bind] ];
  rewrite ?strip_pair, ?strip_suffix_app, ?hex_pair_hex by assumption; cbn [mbind option_bind].

Lemma parse_store_name k : StoreKey_ok k -> parse_key (StoreKey_name k) = Some k.
Proof.
  intros Hk. destruct k; cbn [StoreKey_ok StoreKey_name] in *;
    repeat match goal with H : _ /\ _ |- _ => destruct H end;
    unfold head_key, archive_manifest_key, complete_file_list_key, blx_key, pending_manifest_key,
      base_root_key, base_manifest_key, imported_blx_key, parse_key;
    rewrite ?strip_prefix_app;
    try (unfold parse_volume_key; read_field; read_literals; reflexivity).
  all: match goal with |- context [strip_prefix "v/" ?k] =>
         change (strip_prefix "v/" k) with (@None string) end.
  all: unfold parse_base_key; read_field; read_literals;
    rewrite ?u64_from_hex64 by assumption; reflexivity.
Qed.

Lemma strip_rec_mirror a b :
  strip_suffix (hex64 a ++ "-" ++ hex64 b ++ ".rec") ".recm" = None.
Proof.
  destruct (strip_suffix _ _) as [body|] eqn:E; [|reflexivity]. apply strip_suffix_inv in E.
  change ".rec" with (".re" ++ "c") in E. change ".recm" with (".rec" ++ "m") in E.
  rewrite <- !append_assoc in E. now apply append_last in E as [_ E].
Qed.

Lemma parse_spool_name s v epoch generation :
  fits W32 s -> fits W64 v -> fits W64 epoch -> fits W64 generation ->
  parse_blob (replica_spool_generation_blob s v epoch generation)
  = Some (Blob_ReplicaSpool s v epoch generation).
Proof.
  intros Hs Hv He Hg. unfold parse_blob, replica_spool_generation_blob. rewrite strip_prefix_app.
  set (suffix := if generation =? 0 then _ else _).
  assert (free_of "/"%char suffix = true) as Hf.
  { subst suffix. destruct (generation =? 0); rewrite !free_of_app, !hex64_free by reflexivity; reflexivity. }
  unfold parse_spool. change ("/" ++ hex64 v ++ "/" ++ suffix) with (String "/" (hex64 v ++ String "/" suffix)).
  rewrite split_app by (apply hex32_free; reflexivity).
  rewrite split_app by (apply hex64_free; reflexivity). rewrite split_free by exact Hf.
  rewrite length_hex32. cbn [Nat.eqb negb].
  rewrite u32_from_hex32, u64_from_hex64 by assumption. cbn [mbind option_bind].
  subst suffix. destruct (Z.eqb_spec generation 0) as [->|Hne].
  - rewrite strip_suffix_app. cbn [mbind option_bind].
    rewrite split_once_free by (apply hex64_free; reflexivity). cbn [mbind option_bind].
    rewrite u64_from_hex64 by assumption. reflexivity.
  - rewrite strip_pair. cbn [mbind option_bind]. change ("-" ++ hex64 generation) with (String "-" (hex64 generation)).
    rewrite split_once_app by (apply hex64_free; reflexivity). cbn [mbind option_bind].
    rewrite !u64_from_hex64 by assumption. cbn [mbind option_bind].
    rewrite !u64_from_hex64 by assumption. reflexivity.
Qed.
Lemma parse_blob_name b : BlobName_ok b -> parse_blob (BlobName_name b) = Some b.
Proof.
  intros Hb. destruct b; cbn [BlobName_ok BlobName_name] in *;
    repeat match goal with H : _ /\ _ |- _ => destruct H end; try (now apply parse_spool_name);
    unfold journal_blob, blx_blob, blx_key, handoff_blob, parse_blob;
    (match goal with |- context [strip_prefix "r/" ?k] =>
         change (strip_prefix "r/" k) with (@None string) end);
    rewrite strip_prefix_app; cbn [mbind option_bind]; read_field; read_literals;
    rewrite ?strip_rec_mirror, ?strip_pair, ?hex_pair_hex by assumption; reflexivity.
Qed.
Lemma parse_mirror_name volume fence seq :
  fits W64 volume -> fits W64 fence -> fits W64 seq ->
  parse_blob (journal_mirror_blob volume fence seq) = Some (Blob_Journal volume fence seq).
Proof.
  intros. unfold journal_mirror_blob, parse_blob.
  match goal with |- context [strip_prefix "r/" ?k] =>
    change (strip_prefix "r/" k) with (@None string) end.
  rewrite strip_prefix_app; cbn [mbind option_bind]; read_field; read_literals. reflexivity.
Qed.

(** Names are unambiguous: every store key and every local blob name the
    code builds from 64-bit fields (and a 32-bit host) parses back to exactly
    the kind and the fields it was built from, so no two of them coincide; and
    a journal record and its mirror parse to the same record. *)
Theorem names_round_trip :
  (forall k, StoreKey_ok k -> parse_key (StoreKey_name k) = Some k)
  /\ (forall b, BlobName_ok b -> parse_blob (BlobName_name b) = Some b)
  /\ (forall volume fence seq, fits W64 volume -> fits W64 fence -> fits W64 seq ->
        parse_blob (journal_mirror_blob volume fence seq) = Some (Blob_Journal volume fence seq)).
Proof.
  split; [exact parse_store_name|]. split; [exact parse_blob_name|exact parse_mirror_name].
Qed.

(** A key that parses has its numbers in range. *)
Lemma hex_pair_fits s a b : hex_pair s = Some (a, b) -> fits W64 a /\ fits W64 b.
Proof.
  unfold hex_pair, u64_from_hex. destruct (split_once _ s) as [[x y]|]; [|discriminate].
  cbn [mbind option_bind]. intros (l & Hl & (r & Hr & [= <- <-])%bind_Some)%bind_Some.
  split; eapply from_str_radix16_fits; eauto; reflexivity.
Qed.
Ltac parsed :=
  repeat match goal with
  | H : (_ ≫= _) = Some _ |- _ => apply bind_Some in H as (? & ? & ?)
  | H : Some _ = Some _ |- _ => injection H as H; subst
  | H : hex_pair _ = Some ?p |- _ => destruct p; apply hex_pair_fits in H as [??]
  | H : u64_from_hex _ = Some _ |- _ => apply from_str_radix16_fits in H; [|reflexivity]
  | H : (let '(_, _) := ?p in _) = Some _ |- _ => destruct p
  | H : match ?c with _ => _ end = Some _ |- _ => destruct c eqn:?; try discriminate
  end.
Lemma parse_key_ok key k : parse_key key = Some k -> StoreKey_ok k.
Proof.
  unfold parse_key. destruct (strip_prefix "v/" key) as [rest|].
  - unfold parse_volume_key. intros H. parsed; simpl; auto.
  - destruct (strip_prefix "b/" key) as [rest|]; [|discriminate].
    unfold parse_base_key. intros H. parsed; simpl; auto.
Qed.

(** Every name the code builds parses, whatever numbers it is built from. *)
Definition StoreKey_wrap (k : StoreKey) : StoreKey :=
  let w v := v mod W64 in
  match k with
  | Key_Head a => Key_Head (w a)
  | Key_BaseRoot a => Key_BaseRoot (w a)
  | Key_BaseManifest a b => Key_BaseManifest (w a) (w b)
  | Key_ArchiveManifest a b c => Key_ArchiveManifest (w a) (w b) (w c)
  | Key_CompleteFileList a b c => Key_CompleteFileList (w a) (w b) (w c)
  | Key_Blx a b c => Key_Blx (w a) (w b) (w c)
  | Key_PendingManifest a b c => Key_PendingManifest (w a) (w b) (w c)
  | Key_ImportedBaseBlx a b c => Key_ImportedBaseBlx (w a) (w b) (w c)
  end.
Lemma StoreKey_wrap_ok k : StoreKey_ok (StoreKey_wrap k).
Proof.
  assert (forall v, fits W64 (v mod W64)) by (intros; apply Z.mod_pos_bound; lia).
  destruct k; simpl; auto.
Qed.
Lemma hex64_wrap v : hex64 v = hex64 (v mod W64).
Proof. Transparent hex64. unfold hex64. Opaque hex64. apply hex_mod. Qed.
Lemma StoreKey_wrap_name k : StoreKey_name (StoreKey_wrap k) = StoreKey_name k.
Proof.
  destruct k; cbn [StoreKey_wrap StoreKey_name];
    unfold head_key, archive_manifest_key, complete_file_list_key, blx_key, pending_manifest_key,
      base_root_key, base_manifest_key, imported_blx_key; now rewrite <- !hex64_wrap.
Qed.
Lemma parse_any_name k : parse_key (StoreKey_name k) = Some (StoreKey_wrap k).
Proof. rewrite <- StoreKey_wrap_name. apply parse_store_name, StoreKey_wrap_ok. Qed.

(** The names pinned by the tests of [layout.rs]. *)
Example pinned_names :
  journal_blob 0x0BADCAFE 2 0x1F = "v/000000000badcafe/j/0000000000000002-000000000000001f.rec"
  /\ head_key 0x0BADCAFE = "v/000000000badcafe/head"
  /\ archive_manifest_key 0x0BADCAFE 2 5
     = "v/000000000badcafe/m/0000000000000002-0000000000000005.manifest"
  /\ replica_spool_generation_blob 3 0x0BADCAFE 9 2
     = "r/00000003/000000000badcafe/0000000000000009-0000000000000002.spool"
  /\ parse_blob "v/000000000badcafe/o/junk.blx" = None.
Proof. vm_compute. auto. Qed.

(** Parsing is more liberal than printing: a leading plus sign and upper-case
    digits name the same object, so distinct keys may have one meaning. *)
Example parse_key_aliases :
  parse_key "v/+1/head" = Some (Key_Head 1) /\ parse_key "v/1/head" = Some (Key_Head 1)
  /\ head_key 1 <> "v/1/head".
Proof. vm_compute. repeat split. discriminate. Qed.
