(* ===== verification/ManifestCodec.v ===== *)
(** * Manifests, file lists and bases as exact formats

    Codec instances of the records of [manifest.rs] and the theorems about its
    durable objects. *)

From S2P Require Import Prelude Format Types OrdMap Head Blx BlxFile Manifest.

(** ** Well-formed parts *)
Definition ObjectIdentity_ok (i : ObjectIdentity) : Prop :=
  fits W64 (oi_namespace_id i) /\ fits W64 (oi_writer_fence i) /\ fits W64 (oi_object_id i).
Definition ObjectIdentity_bytes (i : ObjectIdentity) : bytes := ObjectIdentity_encode i [].
Definition ObjectRef_ok `{PageSize} (o : ObjectRef) : Prop :=
  ObjectIdentity_ok (or_identity o)
  /\ fits W64 (or_min_seq o) /\ fits W64 (or_max_seq o) /\ fits W64 (or_batch_id o)
  /\ fits W32 (or_chunk_index o) /\ fits W32 (or_chunk_count o)
  /\ BlockKey_ok (or_first_key o) /\ BlockKey_ok (or_last_key o)
  /\ fits W64 (or_pre_state_checksum o) /\ fits W64 (or_post_state_checksum o)
  /\ fits W32 (or_size o) /\ fits W32 (or_footer_offset o) /\ fits W32 (or_footer_length o)
  /\ fits W64 (or_object_checksum o)
  /\ or_min_seq o <= or_max_seq o /\ or_chunk_index o < or_chunk_count o
  /\ cmp_leb (or_first_key o) (or_last_key o) = true
  /\ 0 < or_footer_length o /\ or_footer_offset o + or_footer_length o <= or_size o.
Definition ObjectRef_bytes (o : ObjectRef) : bytes := ObjectRef_encode_into o [].
Definition BaseRef_ok (b : BaseRef) : Prop :=
  fits W64 (br_base_id b) /\ fits W64 (br_manifest_id b)
  /\ fits W64 (br_manifest_checksum b) /\ fits W64 (br_post_state_checksum b).
Definition FileListRef_ok (r : FileListRef) : Prop :=
  fits W64 (fl_writer_fence r) /\ fits W64 (fl_list_id r) /\ fits W64 (fl_checksum r).

Lemma ObjectIdentity_bytes_eq i :
  ObjectIdentity_bytes i =
    [NamespaceKind_u8 (oi_namespace_kind i)] ++ to_le 8 (oi_namespace_id i)
    ++ to_le 8 (oi_writer_fence i) ++ to_le 8 (oi_object_id i).
Proof. unfold ObjectIdentity_bytes, ObjectIdentity_encode. enc_norm. reflexivity. Qed.
Lemma ObjectIdentity_appends i e : ObjectIdentity_encode i e = e ++ ObjectIdentity_bytes i.
Proof. unfold ObjectIdentity_bytes, ObjectIdentity_encode. enc_norm. reflexivity. Qed.
#[export] Hint Rewrite ObjectIdentity_appends : enc.
Lemma len_ObjectIdentity_bytes i : len (ObjectIdentity_bytes i) = OBJECT_IDENTITY_BYTES.
Proof. rewrite ObjectIdentity_bytes_eq. now autorewrite with len. Qed.
Lemma ObjectIdentity_bytes_bytes i : all_bytes (ObjectIdentity_bytes i).
Proof. rewrite ObjectIdentity_bytes_eq. auto 10 with bytes. Qed.
#[export] Hint Resolve ObjectIdentity_bytes_bytes : bytes.
#[export] Instance ObjectIdentity_codec :
  Codec ObjectIdentity_decode ObjectIdentity_bytes ObjectIdentity_ok.
Proof.
  split.
  - intros [] (?&?&?). rewrite ObjectIdentity_bytes_eq. unfold ObjectIdentity_decode.
    simpl in *. reads_tac.
  - intros bs i rest Hb H. unfold ObjectIdentity_decode in H. dec_inv. enum_inv.
    rewrite ObjectIdentity_bytes_eq. unfold ObjectIdentity_ok. simpl. rewrite ?app_assoc_r. auto.
  - unfold ObjectIdentity_decode. total.
  - auto with bytes.
Qed.
#[global] Opaque ObjectIdentity_bytes.

Lemma ObjectRef_bytes_eq o :
  ObjectRef_bytes o =
    ObjectIdentity_bytes (or_identity o) ++ to_le 8 (or_min_seq o) ++ to_le 8 (or_max_seq o)
    ++ to_le 8 (or_batch_id o) ++ to_le 4 (or_chunk_index o) ++ to_le 4 (or_chunk_count o)
    ++ BlockKey_bytes (or_first_key o) ++ BlockKey_bytes (or_last_key o)
    ++ to_le 8 (or_pre_state_checksum o) ++ to_le 8 (or_post_state_checksum o)
    ++ to_le 4 (or_size o) ++ to_le 4 (or_footer_offset o) ++ to_le 4 (or_footer_length o)
    ++ to_le 8 (or_object_checksum o).
Proof. unfold ObjectRef_bytes, ObjectRef_encode_into. enc_norm. reflexivity. Qed.
Lemma ObjectRef_appends o e : ObjectRef_encode_into o e = e ++ ObjectRef_bytes o.
Proof. unfold ObjectRef_bytes, ObjectRef_encode_into. enc_norm. reflexivity. Qed.
#[export] Hint Rewrite ObjectRef_appends : enc.
Lemma len_ObjectRef_bytes o : len (ObjectRef_bytes o) = OBJECT_REF_BYTES.
Proof.
  rewrite ObjectRef_bytes_eq. rewrite !len_app, len_ObjectIdentity_bytes. now autorewrite with len.
Qed.
Lemma ObjectRef_bytes_bytes o : all_bytes (ObjectRef_bytes o).
Proof. rewrite ObjectRef_bytes_eq. auto 30 with bytes. Qed.
#[export] Hint Resolve ObjectRef_bytes_bytes : bytes.

#[export] Instance ObjectRef_codec `{P : PageSize} :
  Codec ObjectRef_decode_from ObjectRef_bytes ObjectRef_ok.
Proof.
  split.
  - intros [i mn mx b ci cc fk lk pre post sz fo fl oc] Hx. unfold ObjectRef_ok in Hx.
    simpl in Hx. destruct Hx as (Hi & Hx). codec_conj. rewrite ObjectRef_bytes_eq. unfold ObjectRef_decode_from. cbn [or_identity or_min_seq
      or_max_seq or_batch_id or_chunk_index or_chunk_count or_first_key or_last_key
      or_pre_state_checksum or_post_state_checksum or_size or_footer_offset or_footer_length
      or_object_checksum].
    unfold fits in *. reads_tac.
    rewrite checked_add_Some, (proj2 (cmp_ltb_false _ _)) by (assumption || lia). lia.
  - intros bs o rest Hb H. unfold ObjectRef_decode_from in H. dec_inv.
    repeat match goal with H : _ || _ = false |- _ => apply orb_false_iff in H as [? ?] end.
    rewrite ObjectRef_bytes_eq. unfold ObjectRef_ok, fits in *. cbn [or_identity or_min_seq
      or_max_seq or_batch_id or_chunk_index or_chunk_count or_first_key or_last_key
      or_pre_state_checksum or_post_state_checksum or_size or_footer_offset or_footer_length
      or_object_checksum]. rewrite ?app_assoc_r. split; [reflexivity|].
    destruct (checked_add W32 _ _) eqn:Ec; [|discriminate]. apply checked_add_inv in Ec as [-> ?].
    rewrite <- cmp_ltb_false. codec_conj; auto; lia.
  - unfold ObjectRef_decode_from. total.
  - auto with bytes.
Qed.
#[global] Opaque ObjectRef_bytes.

(** ** Validation never panics *)
Lemma sweep_total limit o events : no_panic (sweep limit o events).
Proof.
  revert o. induction events as [|[s e] events IH]; intros o; simpl; [discriminate|].
  apply no_panic_bind; [auto with panics|]. intros a _. now apply no_panic_if.
Qed.
Lemma validate_objects_total `{PageSize} objects limit : no_panic (validate_objects objects limit).
Proof.
  unfold validate_objects. apply no_panic_bind.
  - apply no_panic_fold. intros [ids batches] o _. unfold group_object. no_panic.
  - intros [ids batches] _. apply no_panic_if; intros _; [discriminate|].
    apply no_panic_bind; [apply sweep_total|]. intros o _. no_panic.
Qed.
#[export] Hint Resolve validate_objects_total : panics.
Lemma validate_manifest_shape_total `{PageSize} m : no_panic (validate_manifest_shape m).
Proof.
  unfold validate_manifest_shape. apply no_panic_if; intros _; [discriminate|].
  apply no_panic_bind; [auto with panics|]. intros _ _. no_panic.
Qed.
#[export] Hint Resolve validate_manifest_shape_total : panics.

(** ** Configuration and optional references *)
Definition config_bytes (c : VolumeConfig) : bytes := encode_config c [].
Definition base_ref_bytes (b : option BaseRef) : bytes := encode_base_ref b [].
Definition list_ref_bytes (r : option FileListRef) : bytes := encode_list_ref r [].

Lemma config_appends c e : encode_config c e = e ++ config_bytes c.
Proof. unfold config_bytes, encode_config. enc_norm. reflexivity. Qed.
Lemma base_ref_appends b e : encode_base_ref b e = e ++ base_ref_bytes b.
Proof. unfold base_ref_bytes, encode_base_ref. destruct b; enc_norm; reflexivity. Qed.
Lemma list_ref_appends r e : encode_list_ref r e = e ++ list_ref_bytes r.
Proof. unfold list_ref_bytes, encode_list_ref. destruct r; enc_norm; reflexivity. Qed.
#[export] Hint Rewrite config_appends base_ref_appends list_ref_appends : enc.

Lemma VolumeKind_u8_byte k : fits W8 (VolumeKind_u8 k).
Proof. destruct k; unfold fits; simpl; lia. Qed.
#[export] Hint Resolve VolumeKind_u8_byte : reads bytes.
Lemma config_bytes_bytes c : all_bytes (config_bytes c).
Proof. unfold config_bytes, encode_config. enc_norm. auto 10 with bytes. Qed.
Lemma base_ref_bytes_bytes b : all_bytes (base_ref_bytes b).
Proof. unfold base_ref_bytes, encode_base_ref. destruct b; enc_norm; auto 10 with bytes. Qed.
Lemma list_ref_bytes_bytes r : all_bytes (list_ref_bytes r).
Proof. unfold list_ref_bytes, encode_list_ref. destruct r; enc_norm; auto 10 with bytes. Qed.
#[export] Hint Resolve config_bytes_bytes base_ref_bytes_bytes list_ref_bytes_bytes : bytes.

Lemma reads_u64_0 : reads Dec_u64 (to_le 8 0) 0.
Proof. now apply reads_u64. Qed.
Lemma reads_u8_1 : reads Dec_u8 [1] 1.
Proof. now apply reads_u8. Qed.
#[export] Hint Resolve reads_u64_0 reads_u8_1 : reads.

#[export] Instance config_codec : Codec decode_config config_bytes VolumeConfig_ok.
Proof.
  split.
  - intros [k p] Hx. unfold VolumeConfig_ok in Hx. simpl in Hx.
    unfold config_bytes, encode_config, decode_config. simpl.
    assert (fits W32 p) by (unfold fits; lia).
    destruct k; simpl; enc_norm; reads_tac.
  - intros bs c rest Hb H. unfold decode_config in H. dec_inv. enum_inv.
    unfold config_bytes, encode_config, VolumeConfig_ok, fits in *. simpl. enc_norm.
    destruct (Z.eqb_spec x 0) as [->|]; [|destruct (Z.eqb_spec x 1) as [->|]; [|discriminate]];
      injection Ha as <-; simpl; (split; [reflexivity|lia]).
  - unfold decode_config. total. no_panic.
  - auto with bytes.
Qed.

#[export] Instance base_ref_codec : Codec decode_base_ref base_ref_bytes (option_ok BaseRef_ok).
Proof.
  split.
  - intros [[b m c p]|] Hx; unfold base_ref_bytes, encode_base_ref, decode_base_ref; simpl in *.
    + destruct Hx as (?&?&?&?); simpl in *. enc_norm. reads_tac. apply reads_ret.
    + enc_norm. reads_tac. apply reads_ret.
  - intros bs b rest Hb H. unfold decode_base_ref in H. do 10 dec_inv_step.
    destruct ((x =? 0) && _) eqn:E0; [|destruct (Z.eqb_spec x 1) as [->|]; [|discriminate]];
      injection H as <- <-; unfold base_ref_bytes, encode_base_ref; enc_norm.
    + apply andb_true_iff in E0 as [Ex Ev]. apply Z.eqb_eq in Ex.
      apply bool_decide_eq_true in Ev. injection Ev as -> -> -> ->. subst. split; [reflexivity|exact I].
    + split; [reflexivity|]. unfold BaseRef_ok. simpl. auto.
  - unfold decode_base_ref. total.
  - auto with bytes.
Qed.
#[export] Instance list_ref_codec : Codec decode_list_ref list_ref_bytes (option_ok FileListRef_ok).
Proof.
  split.
  - intros [[w l c]|] Hx; unfold list_ref_bytes, encode_list_ref, decode_list_ref; simpl in *.
    + destruct Hx as (?&?&?); simpl in *. enc_norm. reads_tac. apply reads_ret.
    + enc_norm. reads_tac. apply reads_ret.
  - intros bs b rest Hb H. unfold decode_list_ref in H. do 8 dec_inv_step.
    destruct ((x =? 0) && _) eqn:E0; [|destruct (Z.eqb_spec x 1) as [->|]; [|discriminate]];
      injection H as <- <-; unfold list_ref_bytes, encode_list_ref; enc_norm.
    + apply andb_true_iff in E0 as [Ex Ev]. apply Z.eqb_eq in Ex.
      apply bool_decide_eq_true in Ev. injection Ev as -> -> ->. subst. split; [reflexivity|exact I].
    + split; [reflexivity|]. unfold FileListRef_ok. simpl. auto.
  - unfold decode_list_ref. total.
  - auto with bytes.
Qed.
Lemma len_config_bytes c : len (config_bytes c) = 6.
Proof. unfold config_bytes, encode_config. enc_norm. autorewrite with len. reflexivity. Qed.
Lemma len_base_ref_bytes b : len (base_ref_bytes b) = 33.
Proof. unfold base_ref_bytes, encode_base_ref. destruct b; enc_norm; autorewrite with len; reflexivity. Qed.
Lemma len_list_ref_bytes r : len (list_ref_bytes r) = 25.
Proof. unfold list_ref_bytes, encode_list_ref. destruct r; enc_norm; autorewrite with len; reflexivity. Qed.
#[global] Opaque config_bytes base_ref_bytes list_ref_bytes.
#[export] Hint Rewrite len_config_bytes len_base_ref_bytes len_list_ref_bytes : len.

Lemma RecoveryKind_decode_u8 k : RecoveryKind_decode (RecoveryKind_u8 k) = Ok k.
Proof. now destruct k. Qed.
Lemma RecoveryKind_decode_inv v k : RecoveryKind_decode v = Ok k -> v = RecoveryKind_u8 k.
Proof. unfold RecoveryKind_decode. enum_cases. Qed.
Lemma RecoveryKind_decode_total v : no_panic (RecoveryKind_decode v).
Proof. unfold RecoveryKind_decode. no_panic. Qed.
Lemma RecoveryKind_u8_byte k : fits W8 (RecoveryKind_u8 k).
Proof. destruct k; unfold fits; simpl; lia. Qed.
#[export] Hint Resolve RecoveryKind_decode_u8 RecoveryKind_u8_byte : reads bytes.
#[export] Hint Resolve RecoveryKind_decode_total : panics.

(** ** Manifests *)
Section Manifests.
Context `{CL : CrcLaws} `{PL : PageSizeLaws}.

Definition prefix_ok (m : Manifest) : Prop :=
  fits W64 (m_volume m) /\ fits W64 (m_writer_fence m) /\ fits W64 (m_journal_seq m)
  /\ fits W64 (m_archive_seq m) /\ fits W64 (m_capture_seq m)
  /\ fits W64 (m_sync_covered_through m) /\ fits W64 (m_checkpoint_epoch m)
  /\ VolumeConfig_ok (m_config m) /\ fits W64 (m_vmstate_logical_length m)
  /\ option_ok BaseRef_ok (m_base m) /\ option_ok FileListRef_ok (m_complete_list m)
  /\ fits W64 (m_post_state_checksum m) /\ fits W64 (m_metadata_checksum m).
Definition Manifest_ok (m : Manifest) : Prop :=
  prefix_ok m /\ Forall ObjectRef_ok (m_added m) /\ Forall ObjectIdentity_ok (m_removed m)
  /\ validate_manifest_shape m = Ok tt
  /\ FRAME_HEADER + len (Manifest_payload m) <= MAX_MANIFEST_BYTES.

Definition prefix_bytes (m : Manifest) : bytes :=
  to_le 2 FORMAT_VERSION ++ to_le 8 (m_volume m) ++ to_le 8 (m_writer_fence m)
  ++ to_le 8 (m_journal_seq m) ++ to_le 8 (m_archive_seq m) ++ to_le 8 (m_capture_seq m)
  ++ to_le 8 (m_sync_covered_through m) ++ [RecoveryKind_u8 (m_recovery_kind m)]
  ++ to_le 8 (m_checkpoint_epoch m) ++ to_le 4 page_size ++ config_bytes (m_config m)
  ++ to_le 8 (m_vmstate_logical_length m) ++ base_ref_bytes (m_base m)
  ++ list_ref_bytes (m_complete_list m) ++ to_le 8 (m_post_state_checksum m)
  ++ to_le 8 (m_metadata_checksum m).
Lemma prefix_appends m e : encode_manifest_prefix m e = e ++ prefix_bytes m.
Proof. unfold encode_manifest_prefix, prefix_bytes. enc_norm. reflexivity. Qed.
Lemma prefix_bytes_bytes m : all_bytes (prefix_bytes m).
Proof. unfold prefix_bytes. auto 40 with bytes. Qed.

Lemma prefix_reads m :
  prefix_ok m ->
  reads (decode_manifest_prefix (m_volume m)) (prefix_bytes m) (Manifest_with_changes m [] []).
Proof using PL.
  intros Hx. pose proof page_size_bounds. destruct m as [v wf js aseq cs sy rk ce cf vl b cl ps ms ad rm].
  unfold prefix_ok in Hx. simpl in Hx.
  codec_conj. unfold prefix_bytes, decode_manifest_prefix, Manifest_with_changes.
  cbn [m_volume m_writer_fence m_journal_seq m_archive_seq m_capture_seq m_sync_covered_through
    m_recovery_kind m_checkpoint_epoch m_config m_vmstate_logical_length m_base m_complete_list
    m_post_state_checksum m_metadata_checksum].
  assert (fits W16 FORMAT_VERSION) by now vm_compute.
  assert (fits W32 page_size) by (unfold fits; lia).
  reads_tac; now rewrite Z.eqb_refl.
Qed.
Lemma prefix_sound volume :
  dec_sound (decode_manifest_prefix volume) prefix_bytes
    (fun m => m_volume m = volume /\ prefix_ok m /\ m_added m = [] /\ m_removed m = []).
Proof using PL.
  intros bs m rest Hb H. unfold decode_manifest_prefix in H. dec_inv. enum_inv.
  repeat match goal with H : RecoveryKind_decode _ = Ok _ |- _ =>
    apply RecoveryKind_decode_inv in H; subst end.
  unfold prefix_bytes, prefix_ok. simpl. rewrite ?app_assoc_r. simpl. rewrite ?app_assoc_r.
  split; [reflexivity|]. codec_conj; auto.
Qed.
Lemma prefix_total volume : dec_total (decode_manifest_prefix volume).
Proof. unfold decode_manifest_prefix. total. Qed.

Lemma Manifest_payload_bytes m :
  Manifest_payload m =
    prefix_bytes m ++ to_le 4 (len (m_added m)) ++ concat (map ObjectRef_bytes (m_added m))
    ++ to_le 4 (len (m_removed m)) ++ concat (map ObjectIdentity_bytes (m_removed m)).
Proof.
  unfold Manifest_payload.
  rewrite !Enc_each_app by (intros x e; rewrite ?ObjectRef_appends, ?ObjectIdentity_appends; reflexivity).
  rewrite prefix_appends. enc_unfold. rewrite !app_assoc_r. simpl.
  rewrite (map_ext _ ObjectRef_bytes) by (intros; now rewrite ObjectRef_appends).
  rewrite (map_ext _ ObjectIdentity_bytes) by (intros; now rewrite ObjectIdentity_appends).
  reflexivity.
Qed.
Lemma Manifest_payload_bytes_bytes m : all_bytes (Manifest_payload m).
Proof.
  rewrite Manifest_payload_bytes. pose proof (prefix_bytes_bytes m).
  repeat apply all_bytes_app_2; auto with bytes.
Qed.
Lemma len_concat_const {A} (enc : A -> bytes) n xs :
  (forall x, len (enc x) = n) -> len (concat (map enc xs)) = n * len xs.
Proof.
  intros H. induction xs as [|x xs IH]; simpl; [rewrite len_nil; unfold len; simpl; lia|].
  rewrite len_app, len_cons, H, IH. lia.
Qed.
Lemma Manifest_counts m :
  FRAME_HEADER + len (Manifest_payload m) <= MAX_MANIFEST_BYTES ->
  len (m_added m) < W32 /\ len (m_removed m) < W32 /\ len (Manifest_payload m) < W32.
Proof.
  rewrite Manifest_payload_bytes, !len_app.
  rewrite (len_concat_const ObjectRef_bytes OBJECT_REF_BYTES) by apply len_ObjectRef_bytes.
  rewrite (len_concat_const ObjectIdentity_bytes OBJECT_IDENTITY_BYTES)
    by apply len_ObjectIdentity_bytes.
  pose proof (len_nonneg (prefix_bytes m)). pose proof (len_nonneg (m_added m)).
  pose proof (len_nonneg (m_removed m)). autorewrite with len.
  unfold FRAME_HEADER, MAX_MANIFEST_BYTES, OBJECT_REF_BYTES, OBJECT_IDENTITY_BYTES. lia.
Qed.

Lemma with_changes_id m added removed :
  m_added m = added -> m_removed m = removed -> Manifest_with_changes m added removed = m.
Proof. intros <- <-. now destruct m. Qed.
Lemma with_changes_twice m a r a' r' :
  Manifest_with_changes (Manifest_with_changes m a r) a' r' = Manifest_with_changes m a' r'.
Proof. reflexivity. Qed.

Lemma Manifest_payload_codec volume :
  WholeCodec (Manifest_decode_payload volume) Manifest_payload
    (fun m => m_volume m = volume /\ prefix_ok m /\ Forall ObjectRef_ok (m_added m)
              /\ Forall ObjectIdentity_ok (m_removed m) /\ validate_manifest_shape m = Ok tt
              /\ len (m_added m) < W32 /\ len (m_removed m) < W32).
Proof using PL.
  split.
  - intros m (Hvol & Hp & Ha & Hr & Hv & Hla & Hlr). rewrite Manifest_payload_bytes.
    unfold Manifest_decode_payload. rewrite <- Hvol.
    assert (fits W32 (len (m_added m))) by (split; [apply len_nonneg|exact Hla]).
    assert (fits W32 (len (m_removed m))) by (split; [apply len_nonneg|exact Hlr]).
    pose proof (len_to_nat (m_added m)). pose proof (len_to_nat (m_removed m)).
    eapply reads_all_bind; [now apply prefix_reads|].
    do 3 (reads_step; [reads_side|]). reads_step; [reads_side|].
    apply reads_all_finish. rewrite with_changes_twice, with_changes_id by reflexivity.
    eapply reads_all_lift; [exact Hv|]. apply reads_all_ret.
  - intros bs m Hb H. unfold Manifest_decode_payload in H. apply Dec_run_Ok in H as [r H].
    apply dec_bind_Ok in H as (m0 & bs1 & Hpre & H).
    apply prefix_sound in Hpre as [-> (Hv & Hp & Ha0 & Hr0)]; [|exact Hb].
    apply all_bytes_app in Hb as [_ Hb]. dec_inv.
    repeat match goal with H : length _ = _ /\ _ |- _ => destruct H end.
    rewrite Manifest_payload_bytes. simpl.
    assert (len x0 = x) as -> by (unfold fits, len in *; lia).
    assert (len x2 = x1) as -> by (unfold fits, len in *; lia).
    destruct x4. unfold fits in *.
    split; [|reflexivity]. repeat split; auto; lia || apply Hp.
  - unfold Manifest_decode_payload. total; apply prefix_total.
  - intros m _. apply Manifest_payload_bytes_bytes.
Qed.

#[export] Instance Manifest_format volume :
  ExactFormat Manifest_encode (Manifest_decode volume)
    (fun m => m_volume m = volume /\ Manifest_ok m).
Proof using CL PL.
  pose proof (Manifest_payload_codec volume) as WC. pose proof page_size_bounds as Hps.
  destruct (framed_exact (E := ManifestTooLarge) MAGIC_MANIFEST _ _ _ WC ltac:(magic_tac))
    as [Hw Hc Ht].
  assert (forall m, Manifest_ok m -> Manifest_encode m = seal_frame MAGIC_MANIFEST (Manifest_payload m)) as He.
  { intros m (_ & _ & _ & Hv & Hl). destruct (Manifest_counts m Hl) as (H1 & H2 & H3).
    unfold Manifest_encode, assert_manifest_shape. rewrite Hv. cbn [is_ok outcome_bind].
    rewrite (proj2 (Z.ltb_lt page_size _)), (proj2 (Z.ltb_lt (len (m_added m)) _)),
      (proj2 (Z.ltb_lt (len (m_removed m)) _)) by lia.
    rewrite seal_frame_Ok by exact H3. cbn [outcome_bind].
    rewrite len_frame_bytes, (proj2 (Z.ltb_ge _ _)) by lia. reflexivity. }
  split.
  - intros m [Hvol Hok]. rewrite He by exact Hok.
    pose proof Hok as (Hp & Ha & Hr & Hv & Hl). destruct (Manifest_counts m Hl) as (H1 & H2 & H3).
    destruct (Hw m) as (bs & Hs & Hb & Hd); [repeat split; auto; apply Hp|].
    exists bs. split; [exact Hs|]. split; [exact Hb|]. unfold Manifest_decode.
    apply seal_frame_inv in Hs as [_ ->].
    rewrite len_frame_bytes, (proj2 (Z.ltb_ge _ _)) by lia. exact Hd.
  - intros bs m Hb Hd. unfold Manifest_decode in Hd.
    destruct (Z.ltb_spec MAX_MANIFEST_BYTES (len bs)) as [|Hl]; [discriminate|].
    destruct (Hc bs m Hb Hd) as [[(Hvol & Hp & Ha & Hr & Hv & H1 & H2) H3] Hs].
    assert (Manifest_ok m) as Hok.
    { split; [exact Hp|]. repeat split; auto. pose proof Hs as [_ ->]%seal_frame_inv.
      now rewrite len_frame_bytes in Hl. }
    rewrite He by exact Hok. auto.
  - intros bs. unfold Manifest_decode. apply no_panic_if; intros _; [discriminate|apply Ht].
Qed.

Lemma Manifest_encode_bound m bs : Manifest_encode m = Ok bs -> len bs <= MAX_MANIFEST_BYTES.
Proof using Type.
  unfold Manifest_encode. intros (u & _ & H)%outcome_bind_Ok.
  do 3 (destruct (_ <? _); [|discriminate]). apply outcome_bind_Ok in H as (b & _ & H).
  destruct (Z.ltb_spec MAX_MANIFEST_BYTES (len b)); [discriminate|]. now injection H as <-.
Qed.
End Manifests.
