(* ===== verification/BatchRefs.v ===== *)
(** * The files of one batch pass the metadata checks

    Everything a batch builder or the compactor writes can be listed in a
    manifest or a complete file list: the references of its files form one
    complete batch of disjoint, ascending key ranges, which the validation of
    [manifest.rs] accepts. *)

From S2P Require Import Prelude Format Types OrdMap Blx BlxFile BlxBatch Manifest ManifestOverlap ManifestCodec.

Section Batch.
Context `{P : PageSize}.

Fixpoint chunk_rows (i : Z) (os : list ObjectRef) : BTreeMap Z (BlockKey * BlockKey) :=
  match os with
  | [] => []
  | o :: os => (i, (or_first_key o, or_last_key o)) :: chunk_rows (i + 1) os
  end.
Lemma chunk_rows_app i a b : chunk_rows i (a ++ b) = chunk_rows i a ++ chunk_rows (i + len a) b.
Proof.
  revert i. induction a as [|o a IH]; intros i; simpl; [now rewrite Z.add_0_r|].
  rewrite IH, len_cons. do 3 f_equal. lia.
Qed.
Lemma chunk_rows_keys i os k : In k (bt_keys (chunk_rows i os)) <-> i <= k < i + len os.
Proof.
  revert i. induction os as [|o os IH]; intros i; simpl; [rewrite len_nil; lia|].
  fold (bt_keys (chunk_rows (i + 1) os)). rewrite IH, len_cons. pose proof (len_nonneg os). lia.
Qed.
Lemma len_chunk_rows i os : len (chunk_rows i os) = len os.
Proof. revert i. induction os as [|o os IH]; intros i; simpl; [reflexivity|]. now rewrite !len_cons, IH. Qed.

(** References that are the consecutive chunks of one batch. *)
Definition same_batch (a b : ObjectRef) : Prop :=
  batch_key a = batch_key b /\ or_chunk_count a = or_chunk_count b /\ or_min_seq a = or_min_seq b
  /\ or_max_seq a = or_max_seq b /\ or_pre_state_checksum a = or_pre_state_checksum b
  /\ or_post_state_checksum a = or_post_state_checksum b.
Record batch_refs (os : list ObjectRef) : Prop := {
  br_index n o : os !! n = Some o -> or_chunk_index o = Z.of_nat n /\ or_chunk_count o = len os;
  br_ordered n o : os !! n = Some o -> cmp_leb (or_first_key o) (or_last_key o) = true;
  br_same n m a b : os !! n = Some a -> os !! m = Some b -> same_batch a b;
  br_distinct n m a b : os !! n = Some a -> os !! m = Some b -> or_identity a = or_identity b -> n = m;
  br_ascending n m a b : (n < m)%nat -> os !! n = Some a -> os !! m = Some b ->
    cmp (or_last_key a) (or_first_key b) = Lt }.

Definition batch_of (o : ObjectRef) (rows : BTreeMap Z (BlockKey * BlockKey)) : Batch :=
  {| b_chunk_count := or_chunk_count o; b_min_seq := or_min_seq o; b_max_seq := or_max_seq o;
     b_pre_state_checksum := or_pre_state_checksum o;
     b_post_state_checksum := or_post_state_checksum o; b_chunks := rows |}.
Lemma same_batch_of a b rows : same_batch a b ->
  batch_of a rows = batch_of b rows /\ batch_matches (batch_of a rows) b = true.
Proof.
  intros (_ & H1 & H2 & H3 & H4 & H5). unfold batch_of, batch_matches. rewrite H1, H2, H3, H4, H5. simpl.
  now rewrite !Z.eqb_refl.
Qed.

Definition grouped (kept : list ObjectRef) : BTreeMap (ObjectIdentity * Z) Batch :=
  match kept with [] => [] | a :: _ => [(batch_key a, batch_of a (chunk_rows 0 kept))] end.
Lemma group_step os kept o rest ids : batch_refs os -> os = kept ++ o :: rest ->
  (forall k, In k (bt_keys ids) <-> In k (map or_identity kept)) ->
  exists ids', group_object (ids, grouped kept) o
    = Ok (ids', [(batch_key o, batch_of o (chunk_rows 0 (kept ++ [o])))])
    /\ (forall k, In k (bt_keys ids') <-> In k (map or_identity (kept ++ [o]))).
Proof.
  intros B -> Hids. assert ((kept ++ o :: rest) !! length kept = Some o) as Ho by now rewrite list_lookup_middle.
  destruct (br_index _ B _ _ Ho) as [Hi _].
  assert (bt_get (or_identity o) ids = None) as Hfresh.
  { apply bt_get_None. rewrite Hids. intros (a & Ha & Hin)%in_map_iff.
    apply list_elem_of_In, list_elem_of_lookup in Hin as [n Hn]. pose proof (lookup_lt_Some _ _ _ Hn) as Hlt.
    assert ((kept ++ o :: rest) !! n = Some a) as Hn' by now rewrite lookup_app_l.
    pose proof (br_distinct _ B _ _ _ _ Hn' Ho Ha). lia. }
  assert (forall k, In k (bt_keys (bt_insert (or_identity o) tt ids))
    <-> In k (map or_identity (kept ++ [o]))) as Hids'.
  { intros k. rewrite bt_keys_insert, map_app, in_app_iff, <- Hids. simpl. intuition congruence. }
  exists (bt_insert (or_identity o) tt ids). split; [|exact Hids'].
  unfold group_object, bts_insert, bt_contains at 1. rewrite Hfresh. simpl negb. cbv iota.
  unfold grouped. destruct kept as [|a kept].
  - simpl bt_get. simpl default. change (new_batch o) with (batch_of o []).
    rewrite (proj2 (same_batch_of o o [] ltac:(now split))). simpl. rewrite Hi. reflexivity.
  - assert (same_batch a o) as Hsame by (apply (br_same _ B 0 (length (a :: kept)) a o); auto).
    pose proof Hsame as [Hkey _]. cbn [bt_get]. rewrite Hkey, cmp_refl. cbn [from_option id].
    destruct (same_batch_of a o (chunk_rows 0 (a :: kept)) Hsame) as [Heq Hm]. rewrite Hm. simpl negb.
    rewrite Hi. change (Z.of_nat (length (a :: kept))) with (len (a :: kept)).
    assert (bt_contains (len (a :: kept)) (b_chunks (batch_of a (chunk_rows 0 (a :: kept)))) = false) as Hc.
    { unfold bt_contains. cbn [b_chunks batch_of].
      rewrite (proj2 (bt_get_None (len (a :: kept)) (chunk_rows 0 (a :: kept)))); [reflexivity|].
      rewrite chunk_rows_keys. lia. }
    rewrite Hc. cbn [orb]. do 2 f_equal. cbn [bt_insert]. rewrite cmp_refl. do 2 f_equal. rewrite Heq.
    unfold batch_of. cbn [b_chunk_count b_min_seq b_max_seq b_pre_state_checksum b_post_state_checksum b_chunks].
    f_equal. rewrite chunk_rows_app, bt_insert_snoc; [reflexivity|].
    intros k Hk%chunk_rows_keys. apply Z.compare_lt_iff. lia.
Qed.
Lemma group_all os rest : batch_refs os -> forall kept ids, os = kept ++ rest ->
  (forall k, In k (bt_keys ids) <-> In k (map or_identity kept)) ->
  exists ids', fold_outcome group_object (ids, grouped kept) rest = Ok (ids', grouped os).
Proof.
  intros B. induction rest as [|o rest IH]; intros kept ids Hos Hids.
  { rewrite app_nil_r in Hos. subst. simpl. eauto. }
  destruct (group_step os kept o rest ids B Hos Hids) as (ids' & Hs & Hids'). cbn [fold_outcome]. rewrite Hs.
  cbn [outcome_bind]. replace [(batch_key o, batch_of o (chunk_rows 0 (kept ++ [o])))] with (grouped (kept ++ [o])).
  { apply IH; [now rewrite <- app_assoc|exact Hids']. }
  destruct kept as [|a kept]; [reflexivity|]. unfold grouped. cbn [app].
  assert (same_batch a o) as Hsame.
  { apply (br_same _ B 0 (length (a :: kept)) a o); rewrite Hos; [reflexivity|now rewrite list_lookup_middle]. }
  rewrite (proj1 (same_batch_of a o _ Hsame)). now destruct Hsame as [-> _].
Qed.
Lemma rows_ascending_chunks os : forall i previous,
  (forall n m a b, (n < m)%nat -> os !! n = Some a -> os !! m = Some b ->
     cmp (or_last_key a) (or_first_key b) = Lt) ->
  match previous, os with Some k, o :: _ => cmp k (or_first_key o) = Lt | _, _ => True end ->
  chunks_ascending previous (bt_values (chunk_rows i os)) = true.
Proof.
  induction os as [|o os IH]; intros i previous Ha Hp; [reflexivity|].
  simpl. apply andb_true_iff. split.
  - destruct previous as [k|]; [|reflexivity]. apply negb_true_iff. now apply cmp_leb_false.
  - apply IH; [intros n m a b Hlt Hn Hm; apply (Ha (S n) (S m)); auto; lia|].
    destruct os as [|o2 os]; [exact I|]. apply (Ha 0%nat 1%nat); auto.
Qed.
Lemma batch_refs_complete os : batch_refs os -> forallb batch_complete (bt_values (grouped os)) = true.
Proof.
  intros B. destruct os as [|a os]; [reflexivity|]. unfold grouped. cbn [bt_values map snd forallb].
  rewrite andb_true_r. unfold batch_complete. cbn [b_chunks b_chunk_count batch_of].
  destruct (br_index _ B 0 a eq_refl) as [_ Hc]. rewrite len_chunk_rows, Hc, Z.eqb_refl.
  apply andb_true_iff. split.
  - apply forallb_forall. intros n Hn%in_seq. unfold bt_contains.
    destruct (bt_get _ _) eqn:E; [reflexivity|]. apply bt_get_None in E. destruct E.
    apply chunk_rows_keys. rewrite len_to_nat in Hn. unfold len. lia.
  - apply rows_ascending_chunks; [apply B|exact I].
Qed.
Lemma filter_at_most_one {A} (p : A -> bool) l :
  (forall n m a b, (n < m)%nat -> l !! n = Some a -> l !! m = Some b -> p a = true -> p b = false) ->
  len (List.filter p l) <= 1.
Proof.
  induction l as [|x l IH]; intros H; simpl; [rewrite len_nil; lia|].
  destruct (p x) eqn:Hx; [|apply IH; intros n m a b Hlt Hn Hm; apply (H (S n) (S m)); auto; lia].
  destruct (List.filter p l) as [|y k] eqn:E; [rewrite len_cons, len_nil; lia|]. exfalso.
  assert (In y l /\ p y = true) as [Hin Hy] by (apply filter_In; rewrite E; now left).
  apply list_elem_of_In, list_elem_of_lookup in Hin as [m Hm].
  rewrite (H 0%nat (S m) x y) in Hy; [discriminate|lia|reflexivity|exact Hm|exact Hx].
Qed.
(** Files of one batch are valid together under any overlap limit of one or
    more. *)
Lemma batch_refs_valid os limit : batch_refs os -> len os < W64 -> 1 <= limit ->
  validate_objects os (Some limit) = Ok tt.
Proof.
  intros B Hl Hlim. unfold validate_objects.
  destruct (group_all os os B [] [] eq_refl) as (ids & Hg); [reflexivity|].
  change (fold_outcome group_object ([], []) os) with (fold_outcome group_object ([], grouped []) os).
  rewrite Hg. cbn [outcome_bind].
  rewrite batch_refs_complete by exact B. cbn [negb].
  assert (forall o, In o os -> cmp_leb (or_first_key o) (or_last_key o) = true) as Hord.
  { intros o [n Hn]%list_elem_of_In%list_elem_of_lookup. now apply (br_ordered _ B n). }
  pose proof (sweep_run os Hord Hl (Some limit) [] (object_events os) eq_refl) as Hs.
  rewrite balance_nil in Hs. rewrite Hs. rewrite (proj2 (forallb_forall _ _)); [reflexivity|].
  intros k _. apply Z.leb_le. unfold overlap_at. transitivity 1; [|exact Hlim]. apply filter_at_most_one.
  intros n m a b Hlt Hn Hm Ha. unfold covers in *. apply andb_true_iff in Ha as [_ Ha].
  apply andb_false_iff. left. apply cmp_leb_false. pose proof (br_ascending _ B n m a b Hlt Hn Hm) as Hlast.
  apply cmp_leb_le in Ha as [Ha| ->]; [|exact Hlast]. now apply cmp_lt_trans with (or_last_key a).
Qed.
End Batch.

Section Written.
Context `{C : Crc} `{CL : !CrcLaws C} `{L : Lz4} `{LL : !Lz4Laws L} `{P : PageSize} `{PL : !PageSizeLaws P}.
Hypothesis small_pages : page_size <= 16 * 1024 * 1024.

(** The reference of a file the writer produced. *)
Definition written_ref (f : BlxObject) : ObjectRef :=
  {| or_identity :=
       {| oi_namespace_kind := bh_namespace_kind (bo_header f);
          oi_namespace_id := bh_namespace_id (bo_header f);
          oi_writer_fence := bh_writer_fence (bo_header f);
          oi_object_id := bh_object_id (bo_header f) |};
     or_min_seq := bh_min_seq (bo_header f); or_max_seq := bh_max_seq (bo_header f);
     or_batch_id := bh_batch_id (bo_header f); or_chunk_index := bh_chunk_index (bo_header f);
     or_chunk_count := bh_chunk_count (bo_header f); or_first_key := bh_first_key (bo_header f);
     or_last_key := bh_last_key (bo_header f);
     or_pre_state_checksum := bh_pre_state_checksum (bo_header f);
     or_post_state_checksum := bh_post_state_checksum (bo_header f);
     or_size := len (bo_bytes f); or_footer_offset := bo_footer_offset f;
     or_footer_length := bo_footer_length f; or_object_checksum := bo_checksum f |}.
Lemma chunk_ref_ok m id index count es :
  chunk_good es -> BatchMeta_ok m -> fits W64 id -> 0 <= index < count -> count < W32 ->
  let f := chunk_object m id index count es in
  len (bo_bytes f) < W32 /\ ObjectRef_ok (written_ref f).
Proof using CL LL PL small_pages.
  intros [Hc Hs] Hm Hid Hi Hcount f. subst f.
  pose proof (chunk_header_ok m id index count es Hc Hs Hm Hid Hi Hcount) as Hh.
  destruct (object_size_parts es Hs) as (Hbody & _ & _ & Hf).
  pose proof (len_footer_frame es) as Hff. pose proof (len_nonneg es).
  unfold chunk_object. cbn [bo_bytes]. rewrite len_object_bytes.
  unfold ObjectRef_ok, written_ref, ObjectIdentity_ok, BlxHeader_ok in *.
  cbn [or_identity or_min_seq or_max_seq or_batch_id or_chunk_index or_chunk_count or_first_key
    or_last_key or_pre_state_checksum or_post_state_checksum or_size or_footer_offset
    or_footer_length or_object_checksum oi_namespace_id oi_writer_fence oi_object_id
    bo_header bo_bytes bo_footer_offset bo_footer_length bo_checksum].
  rewrite len_object_bytes. destruct Hh as (?&?&?&?&?&?&?&?&?&?&?&?&?&?&?&?&?&?).
  pose proof (checksum64_range (object_bytes (chunk_header m id index count es) es)).
  unfold fits, object_size, HEADER_BYTES, FRAME_HEADER, HEADER_PAYLOAD_BYTES, FOOTER_PREFIX_BYTES,
    FOOTER_ENTRY_BYTES, TRAILER_BYTES, MAX_FILE_BYTES in *. intuition lia.
Qed.

Lemma written_refs {E} files :
  Forall (fun f => len (bo_bytes f) < W32) files ->
  collect_outcome (ObjectRef_from_blx (E := E)) files = Ok (map written_ref files).
Proof.
  induction 1 as [|f files Hf _ IH]; [reflexivity|]. cbn [collect_outcome map].
  replace (ObjectRef_from_blx f) with (@Ok E _ (written_ref f))
    by (unfold ObjectRef_from_blx; now rewrite (proj2 (Z.ltb_lt _ _) Hf)).
  cbn [outcome_bind]. now rewrite IH.
Qed.
Lemma finish_refs b files : builder_ok b ->
  @BlxBatchBuilder_finish _ _ _ DecodeError b = Ok files ->
  Forall (fun f => len (bo_bytes f) < W32 /\ ObjectRef_ok (written_ref f)) files.
Proof using CL LL PL small_pages.
  intros Hb Hf. destruct (builder_chunks_good small_pages b Hb) as (_ & Hg & Hlen & _). pose proof Hf as Hrun.
  rewrite finish_run in Hrun by assumption.
  destruct (BlxBatchBuilder_object_ids_fit b) eqn:Hfit; [|discriminate]. injection Hrun as <-.
  rewrite builder_fit_chunks in Hfit. destruct Hb as ((?&?&Hid&?) & _ & Hl).
  apply Forall_lookup. intros n f (es & Hes & ->)%chunk_objects_nth.
  pose proof (lookup_lt_Some _ _ _ Hes) as Hn. unfold fits, len in *.
  destruct (builder_chunks b) as [|c cs] eqn:Ec; [easy|]. rewrite <- Ec in *.
  apply chunk_ref_ok; [exact (proj1 (Forall_lookup _ _) Hg _ _ Hes)|repeat split; tauto| | |]; unfold fits; lia.
Qed.
Lemma finish_same_batch b files n m f f' : builder_ok b ->
  @BlxBatchBuilder_finish _ _ _ DecodeError b = Ok files ->
  files !! n = Some f -> files !! m = Some f' -> same_batch (written_ref f) (written_ref f').
Proof using LL PL small_pages.
  intros Hb Hf. destruct (finish_holds small_pages b files Hb Hf) as [-> _].
  intros (es & _ & ->)%chunk_objects_nth (es' & _ & ->)%chunk_objects_nth.
  unfold same_batch, batch_key, written_ref, chunk_object, chunk_header, object_header. cbn.
  repeat split.
Qed.
Lemma finish_batch_refs b files : builder_ok b ->
  @BlxBatchBuilder_finish _ _ _ DecodeError b = Ok files -> batch_refs (map written_ref files).
Proof using CL LL PL small_pages.
  intros Hb Hf. pose proof (finish_refs b files Hb Hf) as Hok. rewrite Forall_lookup in Hok.
  pose proof (fun n f Hn => finish_layout small_pages b files n f Hb Hf Hn) as Hlay.
  assert (forall n o, map written_ref files !! n = Some o ->
    exists f, files !! n = Some f /\ o = written_ref f) as Hat.
  { intros n o (f & -> & Hn)%list_lookup_fmap_Some. eauto. }
  split.
  - intros n o (f & Hn & ->)%Hat. destruct (Hlay n f Hn) as (_ & Hi & Hc & _).
    unfold len. rewrite length_map. now split.
  - intros n o (f & Hn & ->)%Hat. destruct (Hok n f Hn) as [_ Ho].
    unfold ObjectRef_ok in Ho. tauto.
  - intros n m a c (f & Hn & ->)%Hat (f' & Hm & ->)%Hat. now apply (finish_same_batch b files n m).
  - intros n m a c (f & Hn & ->)%Hat (f' & Hm & ->)%Hat Heq. injection Heq as _ _ _ Hid.
    destruct (Hlay n f Hn) as (Hi & _). destruct (Hlay m f' Hm) as (Hi' & _). lia.
  - intros n m a c Hlt (f & Hn & ->)%Hat (f' & Hm & ->)%Hat.
    destruct (Hlay n f Hn) as (_ & _ & _ & _ & _ & Hnext). exact (Hnext m f' Hlt Hm).
Qed.

(** C29. Everything a batch writes can be published. When [finish] returns
    files, the n-th file carries object id [first + n] and chunk n of the
    count, is at most 32 MiB unless it holds one block, stays in one
    storage-file partition when the batch is partitioned, and its keys are
    below those of every later file; and the references [ObjectRef::from_blx]
    makes of the files exist, survive their codec, and together pass the
    identity, completeness and overlap checks of [validate_objects]. *)
Theorem batch_files_listable b files : builder_ok b ->
  @BlxBatchBuilder_finish _ _ _ DecodeError b = Ok files ->
  (forall n f, files !! n = Some f ->
    bh_object_id (bo_header f) = bm_first_object_id (bb_meta b) + Z.of_nat n
    /\ bh_chunk_index (bo_header f) = Z.of_nat n
    /\ bh_chunk_count (bo_header f) = len files
    /\ (bh_entry_count (bo_header f) = 1 \/ len (bo_bytes f) <= TARGET_FILE_BYTES)
    /\ (bb_split_at_file_partitions b = true ->
        BlockKey_file_partition (bh_first_key (bo_header f))
        = BlockKey_file_partition (bh_last_key (bo_header f)))
    /\ forall n' f', (n < n')%nat -> files !! n' = Some f' ->
       cmp (bh_last_key (bo_header f)) (bh_first_key (bo_header f')) = Lt)
  /\ exists refs, collect_outcome (ObjectRef_from_blx (E := DecodeError)) files = Ok refs
     /\ Forall ObjectRef_ok refs /\ validate_object_refs refs = Ok tt.
Proof using CL LL PL small_pages.
  intros Hb Hf. split; [intros n f Hn; now apply (finish_layout small_pages b files n f)|].
  pose proof (finish_refs b files Hb Hf) as Hok. exists (map written_ref files). split; [|split].
  - apply written_refs. apply (List.Forall_impl _ (P := fun f => len (bo_bytes f) < W32 /\ ObjectRef_ok (written_ref f))); [|exact Hok]. tauto.
  - apply Forall_fmap. apply (List.Forall_impl _ (P := fun f => len (bo_bytes f) < W32 /\ ObjectRef_ok (written_ref f))); [|exact Hok]. unfold compose. tauto.
  - apply batch_refs_valid; [now apply finish_batch_refs with b| |reflexivity || (vm_compute; congruence)].
    unfold len. rewrite length_map. fold (len files). destruct (finish_holds small_pages b files Hb Hf) as [-> Hh].
    destruct (builder_chunks_good small_pages b Hb) as (_ & _ & Hlen & _). destruct Hb as (_ & _ & Hl).
    pose proof (Forall2_length Hh). unfold len in *. lia.
Qed.
End Written.

(** ** What the checks promise about a list they accept *)
Section Whole.
Context `{P : PageSize}.
(** Every batch that a list names is there in all its chunks, each once. *)
Definition whole_batches (os : list ObjectRef) : Prop := forall o, In o os ->
  (forall i, 0 <= i < or_chunk_count o ->
     exists o', In o' os /\ batch_key o' = batch_key o /\ or_chunk_index o' = i)
  /\ (forall o', In o' os -> batch_key o' = batch_key o -> or_chunk_index o' = or_chunk_index o -> o' = o).
Record groups_of (os : list ObjectRef) (batches : BTreeMap (ObjectIdentity * Z) Batch) : Prop := {
  gr_batch o : In o os -> exists b, bt_get (batch_key o) batches = Some b /\ b_chunk_count b = or_chunk_count o
    /\ bt_contains (or_chunk_index o) (b_chunks b) = true;
  gr_chunks key b i : bt_get key batches = Some b -> bt_contains i (b_chunks b) = true ->
    exists o, In o os /\ batch_key o = key /\ or_chunk_index o = i;
  gr_once o o' : In o os -> In o' os -> batch_key o' = batch_key o -> or_chunk_index o' = or_chunk_index o -> o' = o }.
Lemma group_sound os o ids batches s' : groups_of os batches -> group_object (ids, batches) o = Ok s' ->
  groups_of (os ++ [o]) s'.2.
Proof.
  intros [G1 G2 G3] H. unfold group_object, bts_insert in H. destruct (negb _); [discriminate|].
  set (batch := default (new_batch o) (bt_get (batch_key o) batches)) in *.
  destruct (negb (batch_matches batch o)) eqn:Em; [discriminate|]. destruct (bt_contains (or_chunk_index o) (b_chunks batch)) eqn:Ec; [discriminate|].
  simpl in H. injection H as <-. cbn [snd]. apply negb_false_iff in Em. unfold batch_matches in Em.
  assert (b_chunk_count batch = or_chunk_count o) as Hcount by (apply Z.eqb_eq; destruct (_ =? _); [reflexivity|discriminate]).
  assert (forall i (b : Batch), b_chunks b = bt_insert (or_chunk_index o) (or_first_key o, or_last_key o) (b_chunks batch) ->
    bt_contains i (b_chunks b) = true <-> i = or_chunk_index o \/ bt_contains i (b_chunks batch) = true) as Hins.
  { intros i b ->. unfold bt_contains. destruct (decide (i = or_chunk_index o)) as [->|Hne].
    - rewrite bt_get_insert_eq. tauto.
    - rewrite bt_get_insert_ne by exact Hne. intuition congruence. }
  assert (forall i, bt_contains i (b_chunks batch) = true -> exists x, In x os /\ batch_key x = batch_key o /\ or_chunk_index x = i) as Hold.
  { intros i. unfold batch. destruct (bt_get (batch_key o) batches) as [b|] eqn:Hb; simpl; [|discriminate]. now apply G2. }
  split.
  - intros x [Hx|[<-|[]]]%in_app_iff.
    + destruct (G1 x Hx) as (b & Hb & Hbc & Hbi). destruct (decide (batch_key x = batch_key o)) as [He|Hne].
      * rewrite He in Hb |- *. rewrite bt_get_insert_eq. eexists. split; [reflexivity|].
        assert (batch = b) as Eb by (unfold batch; now rewrite Hb). cbn [b_chunk_count]. rewrite Eb. split; [exact Hbc|].
        apply Hins; [now rewrite Eb|]. right. now rewrite Eb.
      * rewrite bt_get_insert_ne by exact Hne. eauto.
    + rewrite bt_get_insert_eq. eexists. split; [reflexivity|]. split; [exact Hcount|]. apply Hins; [reflexivity|]. now left.
  - intros key b i. destruct (decide (key = batch_key o)) as [->|Hne].
    + rewrite bt_get_insert_eq. intros [= <-] [->|Hi]%Hins; [|destruct (Hold i Hi) as (x & ? & ? & ?)|reflexivity].
      * exists o. rewrite in_app_iff. simpl. auto.
      * exists x. rewrite in_app_iff. auto.
    + rewrite bt_get_insert_ne by exact Hne. intros Hb Hi. destruct (G2 key b i Hb Hi) as (x & ? & ? & ?). exists x. rewrite in_app_iff. auto.
  - assert (forall x, In x os -> batch_key x = batch_key o -> or_chunk_index x <> or_chunk_index o) as Hnew.
    { intros x Hx Hk Hi. destruct (G1 x Hx) as (b & Hb & _ & Hbi). rewrite Hk in Hb.
      assert (batch = b) as Eb by (unfold batch; now rewrite Hb). rewrite Eb in Ec. congruence. }
    intros x x' [Hx|[<-|[]]]%in_app_iff [Hx'|[<-|[]]]%in_app_iff Hk Hi; [now apply G3| | |reflexivity].
    + destruct (Hnew x Hx); congruence.
    + destruct (Hnew x' Hx'); congruence.
Qed.
Lemma validated_whole os limit : validate_objects os limit = Ok tt -> whole_batches os.
Proof.
  intros H. unfold validate_objects in H. apply outcome_bind_Ok in H as ([ids batches] & Hg & H).
  destruct (forallb batch_complete (bt_values batches)) eqn:Hc; [|discriminate]. clear H.
  assert (groups_of os batches) as [G1 G2 G3].
  { change batches with ((ids, batches).2). revert Hg. generalize (ids, batches). clear. induction os as [|o os IH] using rev_ind; intros s H.
    - injection H as <-. split; easy.
    - rewrite fold_outcome_app in H. apply outcome_bind_Ok in H as ([ids1 b1] & H1 & H). simpl in H. apply outcome_bind_Ok in H as (s2 & H2 & [= ->]).
      apply (group_sound os o ids1 b1); [exact (IH _ H1)|exact H2]. }
  intros o Ho. split; [|intros o' Ho'; now apply G3]. intros i Hi. destruct (G1 o Ho) as (b & Hb & Hcount & _).
  apply (G2 (batch_key o) b i Hb). rewrite forallb_forall in Hc. specialize (Hc b (in_map snd _ _ (bt_get_In _ _ _ Hb))).
  unfold batch_complete in Hc. destruct (_ =? _); [|discriminate]. apply andb_prop in Hc as [Hc _]. rewrite forallb_forall in Hc.
  specialize (Hc (Z.to_nat i)). rewrite Z2Nat.id in Hc by lia. apply Hc, in_seq. lia.
Qed.
End Whole.
