(* ===== verification/ManifestClosure.v ===== *)
(** * Manifest closures

    The complete file list, base root and base manifest as exact formats bound
    to the reference that names them, the files a manifest stands for
    ([Manifest::current_files]), the rewrite of a manifest that outgrew its
    object ([bound_manifest]) and the closure recovery reads back
    ([ManifestClosure::decode]). *)

From S2P Require Import Prelude Format Types OrdMap Head Blx BlxFile Manifest ManifestCodec.

(** [BoundFormat encode reference decode ok]: a durable object that is named by
    a reference holding its checksum. Well-formed values are written and read
    back under the reference computed from them; whatever the reader accepts
    under a reference is well formed, is what the writer produces, and has that
    reference; the reader never panics. *)
Class BoundFormat {A R} (encode : A -> outcome DecodeError bytes)
    (reference : A -> outcome DecodeError R)
    (decode : R -> bytes -> outcome DecodeError A) (ok : A -> Prop) : Prop := {
  bound_writes : forall x, ok x ->
    exists bs r, encode x = Ok bs /\ all_bytes bs /\ reference x = Ok r /\ decode r bs = Ok x;
  bound_canonical : forall r bs x, all_bytes bs -> decode r bs = Ok x ->
    ok x /\ encode x = Ok bs /\ reference x = Ok r;
  bound_total : forall r bs, no_panic (decode r bs) }.

(** ** Complete file lists *)
Section Lists.
Context `{C : Crc} `{CL : !CrcLaws C} `{P : PageSize} `{PL : !PageSizeLaws P}.

Definition list_content (l : CompleteFileList) : bytes :=
  file_list_content (cfl_volume l) (cfl_writer_fence l) (cfl_list_id l) (cfl_objects l).
Definition list_payload (l : CompleteFileList) : bytes :=
  list_content l ++ to_le 8 (checksum64 (list_content l)).

Lemma list_content_eq l :
  list_content l =
    to_le 2 FORMAT_VERSION ++ to_le 8 (cfl_volume l) ++ to_le 8 (cfl_writer_fence l)
    ++ to_le 8 (cfl_list_id l) ++ to_le 4 (len (cfl_objects l))
    ++ concat (map ObjectRef_bytes (cfl_objects l)).
Proof.
  unfold list_content, file_list_content.
  rewrite !Enc_each_app by (intros x e; rewrite ?ObjectRef_appends; reflexivity).
  enc_unfold. rewrite !app_assoc_r. simpl.
  now rewrite (map_ext _ ObjectRef_bytes) by (intros; now rewrite ObjectRef_appends).
Qed.
Lemma len_list_payload l :
  len (list_payload l) = 38 + OBJECT_REF_BYTES * len (cfl_objects l).
Proof.
  unfold list_payload. rewrite list_content_eq, !len_app.
  rewrite (len_concat_const ObjectRef_bytes OBJECT_REF_BYTES) by apply len_ObjectRef_bytes.
  autorewrite with len. lia.
Qed.
Lemma list_content_bytes l : all_bytes (list_content l).
Proof. rewrite list_content_eq. repeat apply all_bytes_app_2; auto with bytes. Qed.

Definition CompleteFileList_ok (l : CompleteFileList) : Prop :=
  fits W64 (cfl_volume l) /\ fits W64 (cfl_writer_fence l) /\ fits W64 (cfl_list_id l)
  /\ Forall ObjectRef_ok (cfl_objects l)
  /\ validate_objects (cfl_objects l) (Some MAX_OVERLAPPING_FILES) = Ok tt
  /\ FRAME_HEADER + len (list_payload l) <= MAX_METADATA_OBJECT_BYTES.

Lemma list_counts l :
  FRAME_HEADER + len (list_payload l) <= MAX_METADATA_OBJECT_BYTES ->
  len (cfl_objects l) < W32 /\ len (list_payload l) < W32.
Proof.
  rewrite len_list_payload. pose proof (len_nonneg (cfl_objects l)).
  unfold FRAME_HEADER, MAX_METADATA_OBJECT_BYTES, OBJECT_REF_BYTES. lia.
Qed.

Lemma CompleteFileList_encode_eq {E} l :
  CompleteFileList_ok l ->
  @CompleteFileList_encode _ _ E l = Ok (frame_bytes MAGIC_FILE_LIST (list_payload l)).
Proof.
  intros (_ & _ & _ & _ & Hv & Hl). destruct (list_counts l Hl) as [H1 H2].
  unfold CompleteFileList_encode, assert_valid_objects. rewrite Hv. cbn [is_ok outcome_bind].
  rewrite (proj2 (Z.ltb_lt (len _) _)) by exact H1. enc_norm. fold (list_content l).
  fold (list_payload l). rewrite seal_frame_Ok by exact H2. cbn [outcome_bind].
  rewrite len_frame_bytes, (proj2 (Z.leb_le _ _)) by lia. reflexivity.
Qed.
Lemma CompleteFileList_encode_inv {E} l bs :
  @CompleteFileList_encode _ _ E l = Ok bs ->
  validate_objects (cfl_objects l) (Some MAX_OVERLAPPING_FILES) = Ok tt
  /\ bs = frame_bytes MAGIC_FILE_LIST (list_payload l)
  /\ FRAME_HEADER + len (list_payload l) <= MAX_METADATA_OBJECT_BYTES.
Proof.
  unfold CompleteFileList_encode, assert_valid_objects.
  destruct (validate_objects _ _) as [[]| |]; try discriminate. cbn [is_ok outcome_bind].
  destruct (_ <? _); [|discriminate]. enc_norm. fold (list_content l). fold (list_payload l).
  intros (b & [_ ->]%seal_frame_inv & H)%outcome_bind_Ok.
  rewrite len_frame_bytes in H. destruct (Z.leb_spec (FRAME_HEADER + len (list_payload l)) MAX_METADATA_OBJECT_BYTES);
    [|discriminate]. injection H as <-. auto.
Qed.

Lemma list_payload_codec expected volume :
  WholeCodec (CompleteFileList_decode_payload expected volume) list_payload
    (fun l => cfl_volume l = volume /\ cfl_writer_fence l = fl_writer_fence expected
      /\ cfl_list_id l = fl_list_id expected
      /\ fits W64 (cfl_volume l) /\ fits W64 (cfl_writer_fence l) /\ fits W64 (cfl_list_id l)
      /\ Forall ObjectRef_ok (cfl_objects l) /\ len (cfl_objects l) < W32
      /\ validate_objects (cfl_objects l) (Some MAX_OVERLAPPING_FILES) = Ok tt).
Proof using CL PL.
  split.
  - intros [v wf li os] (Hv & Hw & Hi & F1 & F2 & F3 & Ho & Hl & Hval). cbn [cfl_volume
      cfl_writer_fence cfl_list_id cfl_objects] in *. subst.
    unfold list_payload. pose proof (checksum64_range (list_content
      {| cfl_volume := volume; cfl_writer_fence := fl_writer_fence expected;
         cfl_list_id := fl_list_id expected; cfl_objects := os |})) as Hc.
    rewrite list_content_eq at 1. set (content := list_content _) in *.
    unfold CompleteFileList_decode_payload. cbn [cfl_volume cfl_writer_fence cfl_list_id cfl_objects].
    assert (fits W16 FORMAT_VERSION) by now vm_compute.
    assert (fits W32 (len os)) by (split; [apply len_nonneg|exact Hl]).
    pose proof (len_to_nat os). rewrite ?app_assoc_r. reads_tac.
    all: try (rewrite !Z.eqb_refl; reflexivity).
    all: eapply reads_all_lift; [exact Hval|apply reads_all_ret].
  - intros bs l Hb H. unfold CompleteFileList_decode_payload in H. apply Dec_run_Ok in H as [r H].
    dec_inv. rewrite negb_false_iff in Hg, Hg0, Hg1, Hg2. rewrite andb_true_iff in Hg1.
    rewrite Z.eqb_eq in Hg, Hg0, Hg2. rewrite !Z.eqb_eq in Hg1. destruct Hg1, P5, x7.
    assert (x3 = len x4) as -> by (unfold fits, len in *; lia). subst.
    unfold list_payload. rewrite list_content_eq. cbn [cfl_volume cfl_writer_fence cfl_list_id
      cfl_objects]. unfold fits in *. split; [repeat split; auto; lia|].
    rewrite ?app_assoc_r. repeat f_equal.
    apply (list_content_eq {| cfl_volume := volume; cfl_objects := x4 |}).
  - unfold CompleteFileList_decode_payload. total.
  - intros l _. unfold list_payload. apply all_bytes_app_2; [apply list_content_bytes|auto with bytes].
Qed.

#[export] Instance CompleteFileList_format volume :
  BoundFormat CompleteFileList_encode CompleteFileList_reference
    (fun r => CompleteFileList_decode r volume)
    (fun l => cfl_volume l = volume /\ CompleteFileList_ok l).
Proof using CL PL.
  split.
  - intros l [Hv Hok]. eexists _, _. unfold CompleteFileList_reference.
    rewrite CompleteFileList_encode_eq by exact Hok. cbn [outcome_bind].
    destruct Hok as (F1 & F2 & F3 & Ho & Hval & Hl). destruct (list_counts l Hl) as [H1 H2].
    set (r := {| fl_writer_fence := _ |}).
    destruct (framed_exact (E := DecodeError) MAGIC_FILE_LIST _ _ _
                (list_payload_codec r volume) ltac:(magic_tac)) as [Hw _ _].
    destruct (Hw l) as (bs & Hs & Hb & Hd); [codec_conj; auto|].
    apply seal_frame_inv in Hs as [_ ->]. repeat split; [exact Hb|].
    unfold CompleteFileList_decode. subst r. cbn [fl_checksum].
    rewrite len_frame_bytes, (proj2 (Z.ltb_ge _ _)), Z.eqb_refl by lia. exact Hd.
  - intros r bs l Hb H. unfold CompleteFileList_decode in H.
    destruct (Z.ltb_spec MAX_METADATA_OBJECT_BYTES (len bs)) as [|Hl]; [discriminate|].
    destruct (Z.eqb_spec (checksum64 bs) (fl_checksum r)) as [Hc|]; [|discriminate].
    destruct (framed_exact (E := DecodeError) MAGIC_FILE_LIST _ _ _
                (list_payload_codec r volume) ltac:(magic_tac)) as [_ Hcan _].
    destruct (Hcan bs l Hb H) as [[(Hv & Hw & Hi & F1 & F2 & F3 & Ho & H1 & Hval) H2] Hs].
    apply seal_frame_inv in Hs as [_ ->]. rewrite len_frame_bytes in Hl.
    assert (CompleteFileList_ok l) as Hok by (unfold CompleteFileList_ok; codec_conj; auto).
    unfold CompleteFileList_reference. rewrite !CompleteFileList_encode_eq by exact Hok.
    cbn [outcome_bind]. codec_conj; auto.
    rewrite Hw, Hi, Hc. now destruct r.
  - intros r bs. unfold CompleteFileList_decode. apply no_panic_if; intros _; [discriminate|].
    apply (format_total (ExactFormat := framed_exact (E := DecodeError) MAGIC_FILE_LIST _ _ _
                (list_payload_codec r volume) ltac:(magic_tac))).
Qed.
End Lists.

(** ** Base roots and base manifests *)
Section Bases.
Context `{C : Crc} `{CL : !CrcLaws C} `{P : PageSize} `{PL : !PageSizeLaws P}.

Definition BaseRoot_ok (r : BaseRoot) : Prop :=
  fits W64 (root_base_id r) /\ fits W64 (root_manifest_id r)
  /\ fits W64 (root_manifest_checksum r) /\ fits W64 (root_post_state_checksum r).

Lemma BaseRoot_codec base_id :
  WholeCodec (BaseRoot_decode_payload base_id) BaseRoot_payload
    (fun r => root_base_id r = base_id /\ BaseRoot_ok r).
Proof using Type.
  assert (fits W16 FORMAT_VERSION) as Hfv by now vm_compute.
  assert (forall r, BaseRoot_payload r = to_le 2 FORMAT_VERSION ++ to_le 8 (root_base_id r)
    ++ to_le 8 (root_manifest_id r) ++ to_le 8 (root_manifest_checksum r)
    ++ to_le 8 (root_post_state_checksum r)) as Heq
    by (intros r; unfold BaseRoot_payload; enc_norm; reflexivity).
  split.
  - intros [b m c p] [Hb Hok]. unfold BaseRoot_ok in Hok. simpl in *. subst. codec_conj.
    rewrite Heq. simpl. rewrite <- (app_nil_r (to_le 8 p)).
    unfold BaseRoot_decode_payload. reads_tac; now rewrite Z.eqb_refl.
  - intros bs r Hb H. unfold BaseRoot_decode_payload in H. apply Dec_run_Ok in H as [q H]. dec_inv.
    rewrite negb_false_iff in Hg, Hg0. rewrite Z.eqb_eq in Hg, Hg0. subst. rewrite Heq.
    unfold BaseRoot_ok. simpl. rewrite ?app_nil_r. auto 10.
  - unfold BaseRoot_decode_payload. total.
  - intros r _. rewrite Heq. auto 10 with bytes.
Qed.

#[export] Instance BaseRoot_format base_id :
  ExactFormat (@BaseRoot_encode _ DecodeError) (BaseRoot_decode base_id)
    (fun r => root_base_id r = base_id /\ BaseRoot_ok r).
Proof using CL.
  destruct (framed_exact (E := DecodeError) MAGIC_BASE_ROOT _ _ _ (BaseRoot_codec base_id)
    ltac:(magic_tac)) as [Hw Hc Ht].
  split; [|intros bs r Hb Hd; now destruct (Hc bs r Hb Hd) as [[] ]|exact Ht].
  intros r Hr. apply Hw. split; [exact Hr|]. unfold BaseRoot_payload. enc_norm.
  autorewrite with len. lia.
Qed.

Definition BaseManifest_fields (b : BaseManifest) : Prop :=
  fits W64 (bsm_base_id b) /\ fits W64 (bsm_manifest_id b) /\ fits W64 (bsm_capture_seq b)
  /\ fits W64 (bsm_sync_covered_through b) /\ fits W64 (bsm_checkpoint_epoch b)
  /\ VolumeConfig_ok (bsm_config b) /\ fits W64 (bsm_vmstate_logical_length b)
  /\ fits W64 (bsm_post_state_checksum b) /\ fits W64 (bsm_metadata_checksum b)
  /\ Forall ObjectRef_ok (bsm_objects b)
  /\ bsm_sync_covered_through b <= bsm_capture_seq b
  /\ validate_objects (bsm_objects b) (Some MAX_OVERLAPPING_FILES) = Ok tt.
Definition BaseManifest_ok (b : BaseManifest) : Prop :=
  BaseManifest_fields b
  /\ FRAME_HEADER + len (BaseManifest_payload b) <= MAX_METADATA_OBJECT_BYTES.

Lemma BaseManifest_payload_eq b :
  BaseManifest_payload b =
    to_le 2 FORMAT_VERSION ++ to_le 8 (bsm_base_id b) ++ to_le 8 (bsm_manifest_id b)
    ++ to_le 8 (bsm_capture_seq b) ++ to_le 8 (bsm_sync_covered_through b)
    ++ [RecoveryKind_u8 (bsm_recovery_kind b)] ++ to_le 8 (bsm_checkpoint_epoch b)
    ++ to_le 4 page_size ++ config_bytes (bsm_config b)
    ++ to_le 8 (bsm_vmstate_logical_length b) ++ to_le 8 (bsm_post_state_checksum b)
    ++ to_le 8 (bsm_metadata_checksum b) ++ to_le 4 (len (bsm_objects b))
    ++ concat (map ObjectRef_bytes (bsm_objects b)).
Proof.
  unfold BaseManifest_payload.
  rewrite !Enc_each_app by (intros x e; rewrite ?ObjectRef_appends; reflexivity).
  enc_norm. rewrite ?app_assoc_r. simpl.
  now rewrite (map_ext _ ObjectRef_bytes) by (intros; now rewrite ObjectRef_appends).
Qed.
Lemma BaseManifest_counts b :
  FRAME_HEADER + len (BaseManifest_payload b) <= MAX_METADATA_OBJECT_BYTES ->
  len (bsm_objects b) < W32 /\ len (BaseManifest_payload b) < W32.
Proof.
  intros H. split; [|unfold FRAME_HEADER, MAX_METADATA_OBJECT_BYTES in *; lia].
  revert H. rewrite BaseManifest_payload_eq, !len_app.
  rewrite (len_concat_const ObjectRef_bytes OBJECT_REF_BYTES) by apply len_ObjectRef_bytes.
  pose proof (len_nonneg (config_bytes (bsm_config b))). pose proof (len_nonneg (bsm_objects b)).
  autorewrite with len. unfold FRAME_HEADER, MAX_METADATA_OBJECT_BYTES, OBJECT_REF_BYTES. lia.
Qed.
Lemma BaseManifest_encode_eq {E} b :
  BaseManifest_ok b ->
  @BaseManifest_encode _ _ E b = Ok (frame_bytes MAGIC_BASE_MANIFEST (BaseManifest_payload b)).
Proof using PL.
  intros [(_ & _ & _ & _ & _ & _ & _ & _ & _ & _ & Hs & Hv) Hl]. pose proof page_size_bounds.
  destruct (BaseManifest_counts b Hl) as [H1 H2].
  unfold BaseManifest_encode, assert_valid_objects. rewrite Hv. cbn [is_ok outcome_bind].
  rewrite (proj2 (Z.leb_le (bsm_sync_covered_through b) _)), (proj2 (Z.ltb_lt page_size _)),
    (proj2 (Z.ltb_lt (len _) _)) by (assumption || lia).
  rewrite seal_frame_Ok by exact H2. cbn [outcome_bind].
  rewrite len_frame_bytes, (proj2 (Z.leb_le _ _)) by assumption. reflexivity.
Qed.

Lemma BaseManifest_codec root :
  WholeCodec (BaseManifest_decode_payload root) BaseManifest_payload
    (fun b => BaseManifest_fields b /\ len (bsm_objects b) < W32
      /\ bsm_base_id b = root_base_id root /\ bsm_manifest_id b = root_manifest_id root
      /\ bsm_post_state_checksum b = root_post_state_checksum root).
Proof using PL.
  pose proof page_size_bounds as Hps.
  assert (fits W16 FORMAT_VERSION) as Hfv by now vm_compute.
  assert (fits W32 page_size) as Hpf by (unfold fits; lia).
  split.
  - intros [b m cs sy rk ce cf vl ps ms os] (Hf & Hl & Hb & Hm & Hp).
    unfold BaseManifest_fields in Hf. rewrite BaseManifest_payload_eq.
    cbn [bsm_base_id bsm_manifest_id bsm_capture_seq bsm_sync_covered_through bsm_recovery_kind
      bsm_checkpoint_epoch bsm_config bsm_vmstate_logical_length bsm_post_state_checksum
      bsm_metadata_checksum bsm_objects] in *. subst.
    destruct Hf as (F1 & F2 & F3 & F4 & F5 & F6 & F7 & F8 & F9 & F10 & Hs & Hv).
    assert (fits W32 (len os)) by (split; [apply len_nonneg|exact Hl]).
    pose proof (len_to_nat os). unfold BaseManifest_decode_payload.
    rewrite <- (app_nil_r (concat _)). rewrite ?app_assoc_r. reads_tac.
    all: try (now rewrite Z.eqb_refl).
  - intros bs b Hb H. unfold BaseManifest_decode_payload in H. apply Dec_run_Ok in H as [q H].
    dec_inv. rewrite negb_false_iff in *. rewrite Z.eqb_eq in *.
    repeat match goal with H : RecoveryKind_decode _ = Ok _ |- _ =>
      apply RecoveryKind_decode_inv in H; subst end.
    rewrite BaseManifest_payload_eq. unfold BaseManifest_fields.
    apply orb_false_iff in Hg3 as [Hs Hp]. rewrite negb_false_iff, Z.eqb_eq in Hp.
    apply Z.ltb_ge in Hs. destruct P13, x15.
    assert (x12 = len x13) as -> by (unfold fits, len in *; lia). destruct P12.
    simpl. rewrite ?app_assoc_r, ?app_nil_r. split; [|reflexivity]. codec_conj; auto.
  - unfold BaseManifest_decode_payload. total.
  - intros b _. rewrite BaseManifest_payload_eq. repeat apply all_bytes_app_2; auto with bytes.
Qed.

#[export] Instance BaseManifest_format :
  BoundFormat BaseManifest_encode BaseManifest_root BaseManifest_decode BaseManifest_ok.
Proof using CL PL.
  split.
  - intros b Hok. eexists _, _. unfold BaseManifest_root.
    rewrite BaseManifest_encode_eq by exact Hok. cbn [outcome_bind].
    destruct Hok as [Hf Hl]. destruct (BaseManifest_counts b Hl) as [H1 H2].
    set (r := {| root_base_id := _ |}).
    destruct (framed_exact (E := DecodeError) MAGIC_BASE_MANIFEST _ _ _
                (BaseManifest_codec r) ltac:(magic_tac)) as [Hw _ _].
    destruct (Hw b) as (bs & Hs & Hb & Hd); [split; [split; [exact Hf|auto]|exact H2]|].
    apply seal_frame_inv in Hs as [_ ->]. repeat split; [exact Hb|].
    unfold BaseManifest_decode. subst r. cbn [root_manifest_checksum].
    rewrite len_frame_bytes, (proj2 (Z.ltb_ge _ _)), Z.eqb_refl by lia. exact Hd.
  - intros r bs b Hb H. unfold BaseManifest_decode in H.
    destruct (Z.ltb_spec MAX_METADATA_OBJECT_BYTES (len bs)) as [|Hl]; [discriminate|].
    destruct (Z.eqb_spec (checksum64 bs) (root_manifest_checksum r)) as [Hc|]; [|discriminate].
    destruct (framed_exact (E := DecodeError) MAGIC_BASE_MANIFEST _ _ _
                (BaseManifest_codec r) ltac:(magic_tac)) as [_ Hcan _].
    destruct (Hcan bs b Hb H) as [[(Hf & H1 & Hi & Hm & Hp) H2] Hs].
    apply seal_frame_inv in Hs as [_ ->]. rewrite len_frame_bytes in Hl.
    assert (BaseManifest_ok b) as Hok by now split.
    unfold BaseManifest_root. rewrite !BaseManifest_encode_eq by exact Hok.
    cbn [outcome_bind]. split; [exact Hok|]. split; [reflexivity|].
    rewrite Hi, Hm, Hp, Hc. now destruct r.
  - intros r bs. unfold BaseManifest_decode. apply no_panic_if; intros _; [discriminate|].
    apply (format_total (ExactFormat := framed_exact (E := DecodeError) MAGIC_BASE_MANIFEST _ _ _
                (BaseManifest_codec r) ltac:(magic_tac))).
Qed.
End Bases.

(** ** The files of a manifest *)
Section Files.
Context `{C : Crc} `{P : PageSize}.

Definition by_identity (files : list ObjectRef) : BTreeMap ObjectIdentity ObjectRef :=
  map (fun object => (or_identity object, object)) files.
Definition keyed (m : BTreeMap ObjectIdentity ObjectRef) : Prop :=
  forall k o, In (k, o) m -> k = or_identity o.

Lemma by_identity_keyed m : keyed m -> by_identity (bt_values m) = m.
Proof.
  unfold keyed, by_identity, bt_values. induction m as [|[k o] m IH]; intros Hk; simpl; [reflexivity|].
  f_equal; [f_equal; symmetry; apply Hk; now left|]. apply IH. intros k' o' H. apply Hk. now right.
Qed.
Lemma keys_by_identity files : map fst (by_identity files) = map or_identity files.
Proof. unfold by_identity. now rewrite map_map. Qed.
Lemma In_by_identity k o files : In (k, o) (by_identity files) <-> k = or_identity o /\ In o files.
Proof.
  unfold by_identity. rewrite in_map_iff. split; [intros (? & [= <- <-] & H); auto|].
  intros [-> H]. eauto.
Qed.
Lemma keyed_by_get m : bt_sorted m ->
  keyed m <-> forall k o, bt_get k m = Some o -> k = or_identity o.
Proof.
  intros Hs. split; intros H k o Hx; eapply H; [now apply bt_get_In|now apply In_bt_get].
Qed.
Lemma values_by_get m o : bt_sorted m -> keyed m ->
  In o (bt_values m) <-> bt_get (or_identity o) m = Some o.
Proof.
  intros Hs Hk. unfold bt_values. rewrite in_map_iff. split.
  - intros ([k o'] & <- & Hin). simpl. rewrite <- (Hk _ _ Hin). now apply In_bt_get.
  - intros H%bt_get_In. now exists (or_identity o, o).
Qed.

Lemma group_objects_distinct os s s' :
  fold_outcome group_object s os = Ok s' ->
  List.NoDup (map or_identity os) /\ forall o, In o os -> bt_get (or_identity o) s.1 = None.
Proof.
  revert s. induction os as [|o os IH]; intros [ids batches] H; simpl in H.
  { split; [constructor|intros ? []]. }
  apply outcome_bind_Ok in H as ([ids' batches'] & Hg & H).
  unfold group_object, bts_insert in Hg. unfold bt_contains at 1 in Hg.
  destruct (bt_get (or_identity o) ids) eqn:Ef; [discriminate|]. simpl in Hg.
  destruct (_ || _); [discriminate|]. injection Hg as <- _.
  destruct (IH _ H) as [Hnd Hni]. simpl in *. split.
  - constructor; [|exact Hnd]. intros (o' & He & Ho')%in_map_iff.
    specialize (Hni o' Ho'). rewrite He in Hni. now rewrite bt_get_insert_eq in Hni.
  - intros o' [<-|Ho']; [exact Ef|]. specialize (Hni o' Ho').
    destruct (decide (or_identity o' = or_identity o)) as [->|Hne]; [exact Ef|].
    now rewrite bt_get_insert_ne in Hni.
Qed.
Lemma validate_objects_distinct os limit :
  validate_objects os limit = Ok tt -> List.NoDup (map or_identity os).
Proof.
  unfold validate_objects. intros (s & H & _)%outcome_bind_Ok.
  now apply group_objects_distinct in H as [? _].
Qed.

Lemma remove_files_spec ids m m' :
  bt_sorted m -> fold_outcome remove_file m ids = Ok m' ->
  bt_sorted m'
  /\ forall k, bt_get k m' = if decide (In k ids) then None else bt_get k m.
Proof.
  revert m. induction ids as [|i ids IH]; intros m Hs H; simpl in H.
  { injection H as <-. split; [exact Hs|]. intros k. now rewrite decide_False by (intros []). }
  apply outcome_bind_Ok in H as (m1 & Hr & H). unfold remove_file in Hr.
  destruct (bt_get i m) eqn:Ei; [|discriminate]. injection Hr as <-.
  destruct (IH (bt_remove i m) ltac:(now apply bt_remove_sorted) H) as [Hs' Hg].
  split; [exact Hs'|]. intros k. rewrite Hg. destruct (decide (k = i)) as [->|Hne].
  - rewrite (decide_True (P := In i (i :: ids))) by now left. rewrite bt_get_remove_eq.
    now destruct (decide _).
  - rewrite bt_get_remove_ne by exact Hne. destruct (decide (In k ids)) as [Hin|Hni].
    + rewrite decide_True by now right. reflexivity.
    + rewrite decide_False by (intros [|]; congruence || tauto). reflexivity.
Qed.
Lemma insert_files_spec os m m' :
  bt_sorted m -> fold_outcome insert_file m os = Ok m' ->
  bt_sorted m'
  /\ forall k o, bt_get k m' = Some o <-> (In o os /\ k = or_identity o) \/ bt_get k m = Some o.
Proof.
  revert m. induction os as [|x os IH]; intros m Hs H; simpl in H.
  { injection H as <-. split; [exact Hs|]. intros k o. simpl. tauto. }
  apply outcome_bind_Ok in H as (m1 & Hr & H). unfold insert_file in Hr.
  destruct (bt_get (or_identity x) m) eqn:Ei; [discriminate|]. injection Hr as <-.
  destruct (IH (bt_insert (or_identity x) x m) ltac:(now apply bt_insert_sorted) H) as [Hs' Hg].
  split; [exact Hs'|]. intros k o. rewrite Hg. simpl.
  destruct (decide (k = or_identity x)) as [->|Hne].
  - rewrite bt_get_insert_eq, Ei. split; [intros [[]|[= <-]]; auto|].
    intros [[[<-|] ]|]; auto; discriminate.
  - rewrite bt_get_insert_ne by exact Hne. split; [tauto|]. intros [[[<-|] ?]|]; tauto.
Qed.

(** The outcome of the three loops of [current_files]. *)
Lemma replay_files listed removed added m1 m2 :
  List.NoDup (map or_identity listed) ->
  fold_outcome remove_file (bt_collect (by_identity listed)) removed = Ok m1 ->
  fold_outcome insert_file m1 added = Ok m2 ->
  bt_sorted m2 /\ keyed m2
  /\ forall o, In o (bt_values m2) <->
       In o added \/ (In o listed /\ ~ In (or_identity o) removed).
Proof.
  intros Hnd H1 H2.
  apply remove_files_spec in H1 as [Hs1 Hg1]; [|apply bt_collect_sorted].
  apply insert_files_spec in H2 as [Hs2 Hg2]; [|exact Hs1].
  assert (forall k o, bt_get k m2 = Some o <->
    k = or_identity o /\ (In o added \/ (In o listed /\ ~ In k removed))) as Hg.
  { intros k o. rewrite Hg2, Hg1.
    assert (bt_get k (bt_collect (by_identity listed)) = Some o <-> k = or_identity o /\ In o listed)
      as Hl.
    { rewrite bt_get_collect by now rewrite keys_by_identity. apply In_by_identity. }
    destruct (decide (In k removed)); [intuition discriminate|rewrite Hl; tauto]. }
  assert (keyed m2) as Hk by (apply keyed_by_get; [exact Hs2|]; intros k o H; now apply Hg in H).
  split; [exact Hs2|]. split; [exact Hk|]. intros o. rewrite values_by_get by assumption.
  rewrite Hg. tauto.
Qed.

Definition list_matches (m : Manifest) (l : option CompleteFileList) : Prop :=
  match m_complete_list m, l with
  | None, None => True
  | Some expected, Some list => @CompleteFileList_reference _ _ DecodeError list = Ok expected
  | _, _ => False
  end.
Lemma list_matches_distinct m l :
  list_matches m l -> List.NoDup (map or_identity (list_objects l)).
Proof.
  unfold list_matches. destruct (m_complete_list m), l; try tauto; [|constructor].
  intros (bs & (Hv & _)%CompleteFileList_encode_inv & _)%outcome_bind_Ok.
  now apply validate_objects_distinct in Hv.
Qed.
Lemma current_files_inv m l fs :
  Manifest_current_files m l = Ok fs ->
  list_matches m l /\ (exists m1 m2,
    fold_outcome remove_file (bt_collect (by_identity (list_objects l))) (m_removed m) = Ok m1
    /\ fold_outcome insert_file m1 (m_added m) = Ok m2 /\ fs = bt_values m2)
  /\ validate_objects fs (Some MAX_OVERLAPPING_FILES) = Ok tt
  /\ validate_state_chain m fs = Ok tt.
Proof.
  unfold Manifest_current_files. intros ([] & Hl & H)%outcome_bind_Ok.
  apply outcome_bind_Ok in H as (m1 & H1 & H). apply outcome_bind_Ok in H as (m2 & H2 & H).
  apply outcome_bind_Ok in H as ([] & Hv & H). apply outcome_bind_Ok in H as ([] & Hc & H).
  injection H as <-. split; [|split; [eauto|auto]]. unfold list_matches.
  destruct (m_complete_list m), l; try discriminate; [|exact I].
  apply outcome_bind_Ok in Hl as (r & Hr & Hl).
  destruct (bool_decide_reflect (r = f)); [|discriminate]. now subst.
Qed.
End Files.

(** ** The theorems *)
Section Closures.
Context `{C : Crc} `{CL : !CrcLaws C} `{P : PageSize} `{PL : !PageSizeLaws P}.

(** The manifest is an exact format: a manifest that satisfies
    [validate_manifest_shape] and fits 256 KiB is written and read back, every
    byte string that decodes is the encoding of the manifest it decodes to,
    which therefore passes the same checks, and decoding never panics. *)
Theorem Manifest_exact volume :
  ExactFormat Manifest_encode (Manifest_decode volume)
    (fun m => m_volume m = volume /\ Manifest_ok m).
Proof using CL PL. apply _. Qed.

(** The objects a manifest refers to by checksum are bound to their
    references. A valid complete file list, base root or base manifest is
    written and read back; a byte string accepted under a file-list reference
    or a base root is the canonical encoding of a valid object whose own
    reference or root is exactly that one; and reading never panics. *)
Theorem metadata_formats_bound volume base_id :
  BoundFormat CompleteFileList_encode CompleteFileList_reference
    (fun r => CompleteFileList_decode r volume)
    (fun l => cfl_volume l = volume /\ CompleteFileList_ok l)
  /\ BoundFormat BaseManifest_encode BaseManifest_root BaseManifest_decode BaseManifest_ok
  /\ ExactFormat (@BaseRoot_encode _ DecodeError) (BaseRoot_decode base_id)
       (fun r => root_base_id r = base_id /\ BaseRoot_ok r).
Proof using CL PL. split; [|split]; apply _. Qed.

(** What a manifest stands for: [current_files] returns, in identity order
    and without duplicates, exactly the files added by the manifest and the
    files of its complete list that it does not remove; that set passes the
    batch, overlap and state-chain checks. *)
Theorem current_files_meaning m l fs :
  Manifest_current_files m l = Ok fs ->
  bt_sorted (by_identity fs)
  /\ (forall o, In o fs <->
        In o (m_added m) \/ (In o (list_objects l) /\ ~ In (or_identity o) (m_removed m)))
  /\ validate_objects fs (Some MAX_OVERLAPPING_FILES) = Ok tt
  /\ validate_state_chain m fs = Ok tt.
Proof using Type.
  intros (Hl & (m1 & m2 & H1 & H2 & ->) & Hv & Hc)%current_files_inv.
  destruct (replay_files _ _ _ _ _ (list_matches_distinct _ _ Hl) H1 H2) as (Hs & Hk & Hin).
  rewrite by_identity_keyed by exact Hk. auto.
Qed.

Lemma current_files_of_list m l fs :
  m_complete_list m <> None -> m_added m = [] -> m_removed m = [] -> list_matches m (Some l) ->
  cfl_objects l = fs -> bt_sorted (by_identity fs) ->
  validate_objects fs (Some MAX_OVERLAPPING_FILES) = Ok tt -> validate_state_chain m fs = Ok tt ->
  Manifest_current_files m (Some l) = Ok fs.
Proof using Type.
  intros Hn Ha Hr Hl <- Hs Hv Hc. unfold Manifest_current_files, list_matches in *.
  destruct (m_complete_list m) as [r|]; [|now destruct Hn]. rewrite Hl. cbn [outcome_bind].
  rewrite bool_decide_eq_true_2 by reflexivity. cbn [outcome_bind list_objects].
  fold (by_identity (cfl_objects l)). rewrite bt_collect_id by exact Hs. rewrite Ha, Hr.
  cbn [fold_outcome outcome_bind].
  replace (bt_values (by_identity (cfl_objects l))) with (cfl_objects l)
    by (unfold bt_values, by_identity; now rewrite map_map, map_id).
  rewrite Hv. cbn [outcome_bind]. rewrite Hc. reflexivity.
Qed.

Lemma bound_manifest_files m l list_id b fs :
  bound_manifest m l list_id = Ok b -> Manifest_current_files m l = Ok fs ->
  (exists bs, Manifest_encode (bd_manifest b) = Ok bs /\ len bs <= MAX_MANIFEST_BYTES)
  /\ (forall bs, Manifest_pointer (bd_manifest b) bs = Manifest_pointer m bs)
  /\ Manifest_current_files (bd_manifest b)
       (match bd_new_complete_list b with Some l' => Some l' | None => l end) = Ok fs.
Proof using Type.
  intros Hb Hf. unfold bound_manifest in Hb.
  destruct (Manifest_encode m) as [bs|e|] eqn:Ee; [| |discriminate].
  - injection Hb as <-. cbn [bd_manifest bd_new_complete_list]. split; [|auto].
    exists bs. split; [exact Ee|]. now apply Manifest_encode_bound in Ee.
  - rewrite Hf in Hb. cbn [outcome_bind] in Hb.
    apply outcome_bind_Ok in Hb as (r & Hr & Hb). apply outcome_bind_Ok in Hb as (bs & Hm & Hb).
    injection Hb as <-. cbn [bd_manifest bd_new_complete_list].
    destruct (Manifest_encode (Manifest_with_list m r)) as [bs'| |] eqn:Ew; try discriminate.
    split; [exists bs'; split; [reflexivity|now apply Manifest_encode_bound in Ew]|].
    split; [reflexivity|].
    destruct (current_files_inv _ _ _ Hf) as (Hl & (m1 & m2 & H1 & H2 & ->) & Hv & Hc).
    destruct (replay_files _ _ _ _ _ (list_matches_distinct _ _ Hl) H1 H2) as (Hs & Hk & _).
    apply current_files_of_list; try reflexivity; auto.
    now rewrite by_identity_keyed by exact Hk.
Qed.
(** Rewriting a manifest that outgrew its object loses nothing: what
    [bound_manifest] returns encodes within the manifest limit, keeps the
    publication's position, and stands, together with its new complete list
    when there is one, for exactly the same files. *)
Theorem bound_manifest_keeps_files m l list_id b fs :
  bound_manifest m l list_id = Ok b -> Manifest_current_files m l = Ok fs ->
  (exists bs, Manifest_encode (bd_manifest b) = Ok bs /\ len bs <= MAX_MANIFEST_BYTES)
  /\ (forall bs, Manifest_pointer (bd_manifest b) bs = Manifest_pointer m bs)
  /\ Manifest_current_files (bd_manifest b)
       (match bd_new_complete_list b with Some l' => Some l' | None => l end) = Ok fs.
Proof using Type. apply bound_manifest_files. Qed.

Definition list_bytes_of (l : option CompleteFileList) (lb : option bytes) : Prop :=
  match l, lb with
  | None, None => True
  | Some l, Some bs => @CompleteFileList_encode _ _ DecodeError l = Ok bs
  | _, _ => False
  end.
Definition list_ok_for (volume : Z) (l : option CompleteFileList) : Prop :=
  match l with None => True | Some l => cfl_volume l = volume /\ CompleteFileList_ok l end.

Lemma closure_run m l mb lb :
  Manifest_ok m -> list_ok_for (m_volume m) l -> Manifest_encode m = Ok mb -> list_bytes_of l lb ->
  list_matches m l ->
  ManifestClosure_decode (m_volume m) (Manifest_pointer m mb) mb lb
  = let? fs := Manifest_current_files m l in
    Ok {| mc_manifest := m; mc_complete_list := l; mc_files := fs |}.
Proof using CL PL.
  intros Hm Hlo He Hlb Hl. unfold ManifestClosure_decode, Manifest_pointer.
  cbn [mp_checksum mp_fence mp_journal_seq mp_seq mp_capture_seq]. rewrite Z.eqb_refl. cbn [negb].
  destruct (format_writes (ExactFormat := Manifest_format (m_volume m)) m) as (bs & Hb & _ & Hd);
    [auto|]. rewrite He in Hb. injection Hb as <-. rewrite Hd. cbn [outcome_bind].
  rewrite bool_decide_eq_true_2 by reflexivity. cbn [negb]. unfold list_matches in Hl.
  destruct (m_complete_list m) as [r|], l as [l|], lb as [lb|]; simpl in *; try contradiction;
    cbn [outcome_bind]; [|reflexivity].
  destruct (bound_writes (BoundFormat := CompleteFileList_format (m_volume m)) l)
    as (bs & r' & Hb & _ & Hr & Hld); [auto|].
  rewrite Hlb in Hb. injection Hb as <-. rewrite Hl in Hr. injection Hr as <-.
  rewrite Hld. reflexivity.
Qed.
Lemma closure_canonical volume pointer mb lb c :
  all_bytes mb -> (forall bs, lb = Some bs -> all_bytes bs) ->
  ManifestClosure_decode volume pointer mb lb = Ok c ->
  Manifest_ok (mc_manifest c) /\ m_volume (mc_manifest c) = volume
  /\ Manifest_encode (mc_manifest c) = Ok mb
  /\ pointer = Manifest_pointer (mc_manifest c) mb
  /\ list_ok_for volume (mc_complete_list c) /\ list_bytes_of (mc_complete_list c) lb
  /\ Manifest_current_files (mc_manifest c) (mc_complete_list c) = Ok (mc_files c).
Proof using CL PL.
  intros Hmb Hlb. unfold ManifestClosure_decode.
  destruct (Z.eqb_spec (checksum64 mb) (mp_checksum pointer)) as [Hck|]; [|discriminate].
  cbn [negb]. intros (m & Hd & H)%outcome_bind_Ok.
  destruct (format_canonical (ExactFormat := Manifest_format volume) _ _ Hmb Hd) as [[Hv Hok] He].
  case_bool_decide as Hp; cbn [negb] in H; [|discriminate].
  apply outcome_bind_Ok in H as (l & Hl & H). apply outcome_bind_Ok in H as (fs & Hf & H).
  injection H as <-. cbn [mc_manifest mc_complete_list mc_files].
  split; [exact Hok|]. split; [exact Hv|]. split; [exact He|]. split.
  { destruct pointer. unfold Manifest_pointer. simpl in *. congruence. }
  destruct (m_complete_list m), lb as [lb|]; try discriminate.
  - apply outcome_bind_Ok in Hl as (l' & Hl' & Hl). injection Hl as <-.
    destruct (bound_canonical (BoundFormat := CompleteFileList_format volume) _ _ _
                (Hlb _ eq_refl) Hl') as (Hlok & Hle & _). simpl. auto.
  - injection Hl as <-. simpl. auto.
Qed.

(** C15. Recovery reads back what was published, and nothing else. Under the
    pointer of a manifest, [ManifestClosure::decode] on the published bytes
    returns that manifest, its complete list and its current files; and a
    closure it returns for any pointer and any bytes consists of a manifest and
    a list that encode to those bytes, with that pointer and those files. *)
Theorem closure_reads_what_was_published m l mb lb fs :
  Manifest_ok m -> list_ok_for (m_volume m) l -> Manifest_encode m = Ok mb -> list_bytes_of l lb ->
  Manifest_current_files m l = Ok fs ->
  ManifestClosure_decode (m_volume m) (Manifest_pointer m mb) mb lb
  = Ok {| mc_manifest := m; mc_complete_list := l; mc_files := fs |}
  /\ forall volume pointer mb lb c,
       all_bytes mb -> (forall bs, lb = Some bs -> all_bytes bs) ->
       ManifestClosure_decode volume pointer mb lb = Ok c ->
       Manifest_encode (mc_manifest c) = Ok mb
       /\ pointer = Manifest_pointer (mc_manifest c) mb
       /\ list_bytes_of (mc_complete_list c) lb
       /\ Manifest_current_files (mc_manifest c) (mc_complete_list c) = Ok (mc_files c).
Proof using CL PL.
  intros Hm Hl He Hlo Hf. split.
  { destruct (current_files_inv _ _ _ Hf) as (Hmatch & _). rewrite (closure_run m l) by assumption.
    now rewrite Hf. }
  intros volume pointer mb' lb' c Hmb Hlb Hd.
  now destruct (closure_canonical _ _ _ _ _ Hmb Hlb Hd) as (_ & _ & ? & ? & _ & ? & ?).
Qed.
End Closures.
