(* ===== verification/Gc.v ===== *)
(** * Garbage collection of the object store ([gc.rs])

    [plan] marks from the roots of a bucket listing (heads, base roots and
    pending publications) and returns the keys to delete. It is proved against
    a declarative notion of reachability. *)

From stdpp Require Import gmap.
From Stdlib Require String.
From S2P Require Import Prelude Format Types OrdMap Text Head Blx BlxFile Manifest Layout.
From S2P Require Import ManifestCodec ManifestClosure.

#[local] Open Scope string_scope.
#[local] Open Scope Z_scope.

(** An object of the listing: its key, the time it was written and its bytes. *)
Definition Listed : Type := string * Z * bytes.

Section Gc.
Context `{C : Crc} `{P : PageSize}.

Definition find (objects : list Listed) (key : string) : option Listed :=
  List.find (fun o => String.eqb o.1.1 key) objects.

Definition mark_objects (objects : list Listed) (keep : gset string) (references : list ObjectRef)
  : gset string :=
  fold_left (fun keep reference =>
      match find objects (ObjectIdentity_store_key (or_identity reference)) with
      | Some (key, _, _) => {[key]} ∪ keep
      | None => keep
      end) references keep.

(** The complete list of a manifest: [None] when the manifest must be refused. *)
Definition mark_list {E} (objects : list Listed) (keep : gset string) (manifest : Manifest)
  : outcome E (gset string * option (option CompleteFileList)) :=
  match m_complete_list manifest with
  | None => Ok (keep, Some None)
  | Some reference =>
      match find objects (FileListRef_store_key reference (m_volume manifest)) with
      | None => Ok (keep, None)
      | Some (key, _, bs) =>
          let keep := {[key]} ∪ keep in
          let? list := result_ok (CompleteFileList_decode reference (m_volume manifest) bs) in
          match list with
          | None => Ok (keep, None)
          | Some list => Ok (keep, Some (Some list))
          end
      end
  end.
Definition base_root_of (base : BaseRef) : BaseRoot :=
  {| root_base_id := br_base_id base; root_manifest_id := br_manifest_id base;
     root_manifest_checksum := br_manifest_checksum base;
     root_post_state_checksum := br_post_state_checksum base |}.
Definition mark_base {E} (objects : list Listed) (keep : gset string) (base : option BaseRef)
  : outcome E (gset string * bool) :=
  match base with
  | None => Ok (keep, true)
  | Some base =>
      match find objects (base_manifest_key (br_base_id base) (br_manifest_id base)) with
      | None => Ok (keep, false)
      | Some (key, _, bs) =>
          let keep := {[key]} ∪ keep in
          let? base_manifest := result_ok (BaseManifest_decode (base_root_of base) bs) in
          match base_manifest with
          | None => Ok (keep, false)
          | Some base_manifest =>
              Ok (mark_objects objects keep (bsm_objects base_manifest), true)
          end
      end
  end.
Definition mark_manifest {E} (objects : list Listed) (keep : gset string) (manifest : Manifest)
  : outcome E (gset string * bool) :=
  let? (keep, list) := mark_list objects keep manifest in
  match list with
  | None => Ok (keep, false)
  | Some list =>
      let? current := result_ok (Manifest_current_files manifest list) in
      match current with
      | None => Ok (keep, false)
      | Some current => mark_base objects (mark_objects objects keep current) (m_base manifest)
      end
  end.

(** One round of the marking loop over heads and base roots: the keys kept so
    far and whether some root could not be read. *)
Definition mark_head {E} (objects : list Listed) (keep : gset string) (unsafe_root : bool)
    (volume : Z) (bs : bytes) : outcome E (gset string * bool) :=
  let? head := result_ok (HeadRecord_decode volume bs) in
  match head with
  | None => Ok (keep, true)
  | Some head =>
      match head_manifest head with
      | None => Ok (keep, unsafe_root)
      | Some ptr =>
          match find objects (ManifestPtr_manifest_key ptr volume) with
          | None => Ok (keep, true)
          | Some (key, _, manifest_bytes) =>
              let keep := {[key]} ∪ keep in
              if negb (checksum64 manifest_bytes =? mp_checksum ptr) then Ok (keep, true) else
              let? manifest := result_ok (Manifest_decode volume manifest_bytes) in
              match manifest with
              | None => Ok (keep, true)
              | Some manifest =>
                  let? (keep, marked) := mark_manifest objects keep manifest in
                  Ok (keep, negb marked || unsafe_root)
              end
          end
      end
  end.
Definition mark_base_root {E} (objects : list Listed) (keep : gset string) (unsafe_root : bool)
    (base : Z) (bs : bytes) : outcome E (gset string * bool) :=
  let? root := result_ok (BaseRoot_decode base bs) in
  match root with
  | None => Ok (keep, true)
  | Some root =>
      match find objects (base_manifest_key base (root_manifest_id root)) with
      | None => Ok (keep, true)
      | Some (manifest_key, _, manifest_bytes) =>
          let keep := {[manifest_key]} ∪ keep in
          let? manifest := result_ok (BaseManifest_decode root manifest_bytes) in
          match manifest with
          | None => Ok (keep, true)
          | Some manifest => Ok (mark_objects objects keep (bsm_objects manifest), unsafe_root)
          end
      end
  end.
Definition mark_root {E} (objects : list Listed) (s : gset string * bool) (object : Listed)
  : outcome E (gset string * bool) :=
  let '(keep, unsafe_root) := s in
  let '(key, _, bs) := object in
  match parse_key key with
  | Some (Key_Head volume) => mark_head objects ({[key]} ∪ keep) unsafe_root volume bs
  | Some (Key_BaseRoot base) => mark_base_root objects ({[key]} ∪ keep) unsafe_root base bs
  | _ => Ok (keep, unsafe_root)
  end.

(** [published]: the head of the volume has reached the pending manifest. *)
Definition published {E} (objects : list Listed) (volume : Z) (manifest : Manifest)
  : outcome E bool :=
  match find objects (head_key volume) with
  | None => Ok false
  | Some (_, _, bs) =>
      let? head := result_ok (HeadRecord_decode volume bs) in
      Ok (match head with
          | Some head =>
              match head_manifest head with
              | Some current =>
                  cmp_leb (m_capture_seq manifest, m_archive_seq manifest)
                    (mp_capture_seq current, mp_seq current)
              | None => false
              end
          | None => false
          end)
  end.
Definition mark_pending {E} (objects : list Listed) (s : gset string * bool) (object : Listed)
  : outcome E (gset string * bool) :=
  let '(keep, unsafe_root) := s in
  let '(key, _, bs) := object in
  match parse_key key with
  | Some (Key_PendingManifest volume fence seq) =>
      let? manifest := result_ok (Manifest_decode volume bs) in
      match manifest with
      | None => Ok ({[key]} ∪ keep, true)
      | Some manifest =>
          if negb (m_writer_fence manifest =? fence) || negb (m_archive_seq manifest =? seq)
          then Ok ({[key]} ∪ keep, true) else
          let? published := published objects volume manifest in
          if published : bool then Ok (keep, unsafe_root) else
          let? (keep, marked) := mark_manifest objects ({[key]} ∪ keep) manifest in
          Ok (keep, negb marked || unsafe_root)
      end
  | _ => Ok (keep, unsafe_root)
  end.

Definition plan {E} (now grace : Z) (objects : list Listed) : outcome E (list string) :=
  let? s := fold_outcome (mark_root objects) (∅, false) objects in
  let? (keep, unsafe_root) := fold_outcome (mark_pending objects) s objects in
  let keep := keep ∖ {[""]} in
  if unsafe_root : bool then Ok [] else
  Ok (map (fun o => o.1.1)
        (List.filter (fun o => negb (bool_decide (o.1.1 ∈ keep))
                               && (grace <? saturating_sub now o.1.2)) objects)).

(** ** What a listing makes reachable *)
Definition listed (objects : list Listed) (k : string) : Prop := exists put bs, In (k, put, bs) objects.
(** The bytes a reader of the listing finds under a key. *)
Definition stored (objects : list Listed) (k : string) (bs : bytes) : Prop :=
  exists put, find objects k = Some (k, put, bs).

Inductive list_of (objects : list Listed) (m : Manifest) : option CompleteFileList -> Prop :=
| list_absent : m_complete_list m = None -> list_of objects m None
| list_read r bs l : m_complete_list m = Some r ->
    stored objects (FileListRef_store_key r (m_volume m)) bs ->
    CompleteFileList_decode r (m_volume m) bs = Ok l -> list_of objects m (Some l).
Definition files_of (objects : list Listed) (m : Manifest) (fs : list ObjectRef) : Prop :=
  exists l, list_of objects m l /\ Manifest_current_files m l = Ok fs.
Definition base_of (objects : list Listed) (b : BaseRef) (bm : BaseManifest) : Prop :=
  exists bs, stored objects (base_manifest_key (br_base_id b) (br_manifest_id b)) bs
    /\ BaseManifest_decode (base_root_of b) bs = Ok bm.

Inductive manifest_reaches (objects : list Listed) (m : Manifest) : string -> Prop :=
| reaches_list r : m_complete_list m = Some r ->
    manifest_reaches objects m (FileListRef_store_key r (m_volume m))
| reaches_file fs o : files_of objects m fs -> In o fs ->
    manifest_reaches objects m (ObjectIdentity_store_key (or_identity o))
| reaches_base b : m_base m = Some b ->
    manifest_reaches objects m (base_manifest_key (br_base_id b) (br_manifest_id b))
| reaches_base_file b bm o : m_base m = Some b -> base_of objects b bm -> In o (bsm_objects bm) ->
    manifest_reaches objects m (ObjectIdentity_store_key (or_identity o)).
Definition manifest_readable (objects : list Listed) (m : Manifest) : Prop :=
  (exists fs, files_of objects m fs)
  /\ (forall b, m_base m = Some b -> exists bm, base_of objects b bm).

(** The head of the volume has reached the manifest. *)
Definition head_covers (objects : list Listed) (volume : Z) (m : Manifest) : Prop :=
  exists bs h ptr, stored objects (head_key volume) bs /\ HeadRecord_decode volume bs = Ok h
    /\ head_manifest h = Some ptr
    /\ cmp_leb (m_capture_seq m, m_archive_seq m) (mp_capture_seq ptr, mp_seq ptr) = true.

(** What one object of the listing keeps alive as a root. *)
Inductive root_reaches (objects : list Listed) : Listed -> string -> Prop :=
| head_itself k put bs v : parse_key k = Some (Key_Head v) -> root_reaches objects (k, put, bs) k
| head_names k put bs v h ptr : parse_key k = Some (Key_Head v) -> HeadRecord_decode v bs = Ok h ->
    head_manifest h = Some ptr -> root_reaches objects (k, put, bs) (ManifestPtr_manifest_key ptr v)
| head_closure k put bs v h ptr mb m x : parse_key k = Some (Key_Head v) ->
    HeadRecord_decode v bs = Ok h -> head_manifest h = Some ptr ->
    stored objects (ManifestPtr_manifest_key ptr v) mb -> Manifest_decode v mb = Ok m ->
    manifest_reaches objects m x -> root_reaches objects (k, put, bs) x
| base_itself k put bs b : parse_key k = Some (Key_BaseRoot b) -> root_reaches objects (k, put, bs) k
| base_names k put bs b root : parse_key k = Some (Key_BaseRoot b) -> BaseRoot_decode b bs = Ok root ->
    root_reaches objects (k, put, bs) (base_manifest_key b (root_manifest_id root))
| base_closure k put bs b root mb bm o : parse_key k = Some (Key_BaseRoot b) ->
    BaseRoot_decode b bs = Ok root ->
    stored objects (base_manifest_key b (root_manifest_id root)) mb ->
    BaseManifest_decode root mb = Ok bm -> In o (bsm_objects bm) ->
    root_reaches objects (k, put, bs) (ObjectIdentity_store_key (or_identity o)).
Inductive pending_reaches (objects : list Listed) : Listed -> string -> Prop :=
| pending_itself k put bs v f s m : parse_key k = Some (Key_PendingManifest v f s) ->
    Manifest_decode v bs = Ok m -> ~ head_covers objects v m -> pending_reaches objects (k, put, bs) k
| pending_closure k put bs v f s m x : parse_key k = Some (Key_PendingManifest v f s) ->
    Manifest_decode v bs = Ok m -> ~ head_covers objects v m ->
    manifest_reaches objects m x -> pending_reaches objects (k, put, bs) x.
Definition reachable (objects : list Listed) (k : string) : Prop :=
  exists o, In o objects /\ (root_reaches objects o k \/ pending_reaches objects o k).

(** Every root and everything it names can be read. *)
Definition root_readable (objects : list Listed) (o : Listed) : Prop :=
  match parse_key o.1.1 with
  | Some (Key_Head v) =>
      exists h, HeadRecord_decode v o.2 = Ok h /\ forall ptr, head_manifest h = Some ptr ->
        exists mb m, stored objects (ManifestPtr_manifest_key ptr v) mb
          /\ checksum64 mb = mp_checksum ptr /\ Manifest_decode v mb = Ok m
          /\ manifest_readable objects m
  | Some (Key_BaseRoot b) =>
      exists root mb bm, BaseRoot_decode b o.2 = Ok root
        /\ stored objects (base_manifest_key b (root_manifest_id root)) mb
        /\ BaseManifest_decode root mb = Ok bm
  | _ => True
  end.
Definition pending_readable (objects : list Listed) (o : Listed) : Prop :=
  match parse_key o.1.1 with
  | Some (Key_PendingManifest v f s) =>
      exists m, Manifest_decode v o.2 = Ok m /\ m_writer_fence m = f /\ m_archive_seq m = s
        /\ (head_covers objects v m \/ manifest_readable objects m)
  | _ => True
  end.
(** The objects whose bytes matter: the collector reads only these. *)
Definition needs_body (key : string) : bool :=
  match parse_key key with
  | Some (Key_Head _) | Some (Key_ArchiveManifest _ _ _) | Some (Key_CompleteFileList _ _ _)
  | Some (Key_PendingManifest _ _ _) | Some (Key_BaseRoot _) | Some (Key_BaseManifest _ _) => true
  | _ => false
  end.
(** The listing once the planned keys are gone. *)
Definition swept (dels : list string) (objects : list Listed) : list Listed :=
  List.filter (fun o => negb (bool_decide (In o.1.1 dels))) objects.
Definition bucket_readable (objects : list Listed) : Prop :=
  forall o, In o objects -> root_readable objects o /\ pending_readable objects o.
End Gc.

(** ** The marking loops *)
Section Marking.
Context `{C : Crc} `{CL : !CrcLaws C} `{P : PageSize} `{PL : !PageSizeLaws P}.
Context {E : Type}.
Implicit Types (objects : list Listed) (keep : gset string) (k : string).

Lemma find_inv objects k o : find objects k = Some o -> o.1.1 = k /\ In o objects.
Proof.
  unfold find. intros H. apply List.find_some in H as [Hi He].
  apply String.eqb_eq in He. auto.
Qed.
Lemma find_stored objects k key put bs :
  find objects k = Some (key, put, bs) -> key = k /\ stored objects k bs /\ listed objects k.
Proof.
  intros H. destruct (find_inv _ _ _ H) as [Hk Hi]. simpl in Hk. subst key.
  split; [reflexivity|]. split; [now exists put|now exists put, bs].
Qed.
Lemma find_absent objects k : find objects k = None -> ~ listed objects k.
Proof.
  unfold find. intros H (put & bs & Hi). apply (List.find_none _ _ H) in Hi.
  simpl in Hi. now rewrite String.eqb_refl in Hi.
Qed.
Lemma stored_fun objects k bs bs' : stored objects k bs -> stored objects k bs' -> bs = bs'.
Proof. intros [p H] [p' H']. congruence. Qed.
Lemma absent_not_stored objects k bs : find objects k = None -> ~ stored objects k bs.
Proof. intros H [p H']. congruence. Qed.

Lemma mark_objects_spec objects references keep k :
  k ∈ mark_objects objects keep references <->
  k ∈ keep \/ (listed objects k
    /\ exists o, In o references /\ k = ObjectIdentity_store_key (or_identity o)).
Proof.
  unfold mark_objects. revert keep. induction references as [|r rs IH]; intros keep; simpl.
  { split; [auto|]. intros [H|(_ & o & [] & _)]. exact H. }
  rewrite IH. clear IH.
  destruct (find objects _) as [[[key put] bs]|] eqn:Hf.
  - destruct (find_stored _ _ _ _ _ Hf) as (-> & _ & Hl). rewrite elem_of_union, elem_of_singleton.
    split; [intros [[->|H]|(H & o & Ho & ->)]; eauto 10|].
    intros [H|(H & o & [->|Ho] & ->)]; eauto 10.
  - apply find_absent in Hf. split; [intros [H|(H & o & Ho & ->)]; eauto 10|].
    intros [H|(H & o & [->|Ho] & ->)]; [auto|contradiction|eauto 10].
Qed.

(** A marking pass that succeeds exactly when [ready] holds, and then adds the
    listed keys of [reach]. *)
Definition marks objects (ready : Prop) (reach : string -> Prop) keep
    (c : outcome E (gset string * bool)) : Prop :=
  exists keep' ok, c = Ok (keep', ok) /\ (ok = true <-> ready)
    /\ (ok = true -> forall k, k ∈ keep' <-> k ∈ keep \/ (listed objects k /\ reach k)).
Lemma marks_fail objects (ready : Prop) reach keep keep' :
  ~ ready -> marks objects ready reach keep (Ok (keep', false)).
Proof. intros H. exists keep', false. split; [reflexivity|]. split; [|discriminate]. now split. Qed.
Lemma marks_ok objects (ready : Prop) reach keep keep' : ready ->
  (forall k, k ∈ keep' <-> k ∈ keep \/ (listed objects k /\ reach k)) ->
  marks objects ready reach keep (Ok (keep', true)).
Proof. intros H Hk. exists keep', true. split; [reflexivity|]. now split. Qed.

(** A decoder that does not panic either reads or refuses. *)
Lemma result_ok_cases {F A} (c : outcome F A) : no_panic c ->
  (exists a, c = Ok a /\ @result_ok F E A c = Ok (Some a))
  \/ ((forall a, c <> Ok a) /\ @result_ok F E A c = Ok None).
Proof. unfold no_panic. destruct c; intros H; [left; eauto|right; split; [congruence|reflexivity]|contradiction]. Qed.
Lemma base_decode_total root bs : no_panic (BaseManifest_decode root bs).
Proof using CL PL. apply (bound_total (BoundFormat := BaseManifest_format)). Qed.

Definition base_reaches objects (base : option BaseRef) k : Prop :=
  exists b, base = Some b /\ (k = base_manifest_key (br_base_id b) (br_manifest_id b)
    \/ exists bm o, base_of objects b bm /\ In o (bsm_objects bm)
         /\ k = ObjectIdentity_store_key (or_identity o)).
Lemma mark_base_spec objects keep base :
  marks objects (forall b, base = Some b -> exists bm, base_of objects b bm)
    (base_reaches objects base) keep (mark_base objects keep base).
Proof using CL PL.
  unfold mark_base, base_reaches. destruct base as [b|].
  2: { apply marks_ok; [discriminate|]. intros k. split; [auto|]. now intros [H|(_ & b & ? & _)]. }
  destruct (find objects _) as [[[key put] bs]|] eqn:Hf.
  2: { apply marks_fail. intros H. destruct (H b eq_refl) as (bm & bs & Hs & _).
       eapply absent_not_stored; eauto. }
  destruct (find_stored _ _ _ _ _ Hf) as (-> & Hs & Hl).
  destruct (result_ok_cases (BaseManifest_decode (base_root_of b) bs) (base_decode_total _ _))
    as [(bm & Hd & ->)|[Hd ->]]; simpl.
  2: { apply marks_fail. intros H. destruct (H b eq_refl) as (bm & bs' & Hs' & Hd').
       rewrite (stored_fun _ _ _ _ Hs' Hs) in Hd'. eapply Hd; eauto. }
  assert (Hb : base_of objects b bm) by (exists bs; auto).
  apply marks_ok; [intros b' [= <-]; eauto|]. intros k.
  rewrite mark_objects_spec, elem_of_union, elem_of_singleton.
  split.
  - intros [[->|H]|(H & o & Ho & ->)]; [right; split; [auto|eauto 10] | auto | right; split; [auto|]].
    exists b. split; [reflexivity|]. right. eauto 10.
  - intros [H|(H & b' & [= <-] & [->|(bm' & o & (bs' & Hs' & Hd') & Ho & ->)])]; [auto|auto|].
    rewrite (stored_fun _ _ _ _ Hs' Hs) in Hd'. assert (bm' = bm) as -> by congruence. eauto 10.
Qed.

Lemma chain_from_total c rest : no_panic (chain_from c rest).
Proof. revert c. induction rest as [|[pre post] rest IH]; intros c; simpl; [discriminate|no_panic]. Qed.
Lemma validate_state_chain_total m fs : no_panic (validate_state_chain m fs).
Proof.
  unfold validate_state_chain, validate_file_state_chain. apply no_panic_bind.
  - apply no_panic_fold. intros. unfold chain_insert. no_panic.
  - intros a _. pose proof chain_from_total. no_panic.
Qed.
Lemma current_files_total m l :
  (forall x, l = Some x -> no_panic (CompleteFileList_reference (E := DecodeError) x)) ->
  no_panic (Manifest_current_files m l).
Proof.
  intros Hl. unfold Manifest_current_files. apply no_panic_bind.
  { destruct (m_complete_list m), l; auto with panics.
    apply no_panic_bind; [auto|]. intros. case_match; auto with panics. }
  intros _ _. apply no_panic_bind.
  { apply no_panic_fold. intros. unfold remove_file. case_match; auto with panics. }
  intros ? _. apply no_panic_bind.
  { apply no_panic_fold. intros. unfold insert_file. case_match; auto with panics. }
  intros ? _. apply no_panic_bind; [apply validate_objects_total|]. intros _ _.
  apply no_panic_bind; [apply validate_state_chain_total|]. auto with panics.
Qed.

Lemma stored_bytes objects k bs :
  Forall (fun o => all_bytes o.2) objects -> stored objects k bs -> all_bytes bs.
Proof.
  intros Hb [put H]. apply find_inv in H as [_ Hi].
  rewrite List.Forall_forall in Hb. exact (Hb _ Hi).
Qed.
Lemma list_of_fun objects m l l' : list_of objects m l -> list_of objects m l' -> l = l'.
Proof.
  intros [H|r bs x Hr Hs Hd] [H'|r' bs' x' Hr' Hs' Hd']; try congruence.
  assert (r' = r) as -> by congruence. rewrite (stored_fun _ _ _ _ Hs' Hs) in Hd'. congruence.
Qed.
Lemma files_of_fun objects m fs fs' : files_of objects m fs -> files_of objects m fs' -> fs = fs'.
Proof. intros (l & Hl & H) (l' & Hl' & H'). rewrite (list_of_fun _ _ _ _ Hl' Hl) in H'. congruence. Qed.

(** The list of a manifest is read, or the manifest is refused. *)
Lemma mark_list_spec objects keep m :
  exists keep' list, mark_list (E := E) objects keep m = Ok (keep', list)
    /\ match list with
       | None => forall l, ~ list_of objects m l
       | Some l => list_of objects m l /\ forall k, k ∈ keep' <->
           k ∈ keep \/ (listed objects k
             /\ exists r, m_complete_list m = Some r /\ k = FileListRef_store_key r (m_volume m))
       end.
Proof using CL PL.
  unfold mark_list. destruct (m_complete_list m) as [r|] eqn:Hr.
  2: { exists keep, (Some None). split; [reflexivity|]. split; [now constructor|].
       intros k. split; [auto|]. now intros [H|(_ & r & ? & _)]. }
  destruct (find objects _) as [[[key put] bs]|] eqn:Hf.
  2: { exists keep, None. split; [reflexivity|]. intros l Hl. inversion Hl; [congruence|].
       assert (r0 = r) as -> by congruence. eapply absent_not_stored; eauto. }
  destruct (find_stored _ _ _ _ _ Hf) as (-> & Hs & Hl).
  destruct (result_ok_cases (CompleteFileList_decode r (m_volume m) bs)
    (bound_total (BoundFormat := CompleteFileList_format (m_volume m)) r bs))
    as [(l & Hd & ->)|[Hd ->]]; simpl; do 2 eexists; (split; [reflexivity|]); simpl.
  - split; [now apply (list_read _ _ r bs)|]. intros k. rewrite elem_of_union, elem_of_singleton.
    split; [intros [->|H]; eauto 10|]. intros [H|(_ & r' & [= <-] & ->)]; auto.
  - intros l H. inversion H as [|r' bs' l' Hr' Hs' Hd']; [congruence|].
    assert (r' = r) as -> by congruence. rewrite (stored_fun _ _ _ _ Hs' Hs) in Hd'. eapply Hd; eauto.
Qed.
Lemma files_of_total objects m l :
  Forall (fun o => all_bytes o.2) objects -> list_of objects m l -> no_panic (Manifest_current_files m l).
Proof using CL PL.
  intros Hb Hl. apply current_files_total. intros x ->. inversion Hl as [|r bs x' Hr Hs Hd]; subst.
  destruct (bound_canonical (BoundFormat := CompleteFileList_format (m_volume m)) r bs x)
    as (_ & _ & ->); eauto using stored_bytes. discriminate.
Qed.
Lemma mark_manifest_spec objects keep m :
  Forall (fun o => all_bytes o.2) objects ->
  marks objects (manifest_readable objects m) (manifest_reaches objects m) keep
    (mark_manifest objects keep m).
Proof using CL PL.
  intros Hb. unfold mark_manifest.
  destruct (mark_list_spec objects keep m) as (k1 & list & -> & Hl). simpl.
  destruct list as [l|].
  2: { apply marks_fail. intros [(fs & l & Hl' & _) _]. exact (Hl l Hl'). }
  destruct Hl as [Hl Hk1].
  destruct (result_ok_cases (Manifest_current_files m l) (files_of_total _ _ _ Hb Hl))
    as [(fs & Hf & ->)|[Hf ->]]; simpl.
  2: { apply marks_fail. intros [(fs & l' & Hl' & Hf') _].
       rewrite (list_of_fun _ _ _ _ Hl' Hl) in Hf'. eapply Hf; eauto. }
  assert (Hfs : files_of objects m fs) by (exists l; auto).
  destruct (mark_base_spec objects (mark_objects objects k1 fs) (m_base m)) as (k2 & ok & -> & Hok & Hk2).
  exists k2, ok. split; [reflexivity|]. split.
  { rewrite Hok. unfold manifest_readable. split; [eauto|tauto]. }
  intros H k. rewrite (Hk2 H), mark_objects_spec, Hk1. unfold base_reaches. split.
  - intros [[[?|(? & r & ? & ->)]|(? & o & ? & ->)]|(? & b & ? & [->|(bm & o & ? & ? & ->)])];
      eauto using manifest_reaches.
  - intros [?|[Hlk Hr]]; [auto|]. destruct Hr as [r Hr|fs' o Hfs' Ho|b Hm|b bm o Hm Hbm Ho]; eauto 10.
    rewrite (files_of_fun _ _ _ _ Hfs' Hfs) in Ho. eauto 10.
Qed.

(** ** Roots *)

(** One step of a marking loop: the flag stays clear exactly when the object
    is [ready], and then the listed keys of [reach] are kept. *)
Definition steps objects (ready : Prop) (reach : string -> Prop) (s : gset string * bool)
    (c : outcome E (gset string * bool)) : Prop :=
  exists keep' u, c = Ok (keep', u) /\ (u = false <-> s.2 = false /\ ready)
    /\ (u = false -> forall k, k ∈ keep' <-> k ∈ s.1 \/ (listed objects k /\ reach k)).
Lemma steps_fail objects (ready : Prop) reach s keep' :
  ~ ready -> steps objects ready reach s (Ok (keep', true)).
Proof. intros H. exists keep', true. split; [reflexivity|]. split; [|discriminate]. intuition congruence. Qed.
Lemma steps_ok objects (ready : Prop) reach s keep' : ready ->
  (forall k, k ∈ keep' <-> k ∈ s.1 \/ (listed objects k /\ reach k)) ->
  steps objects ready reach s (Ok (keep', s.2)).
Proof. intros H Hk. exists keep', s.2. split; [reflexivity|]. split; [tauto|auto]. Qed.
Lemma steps_marks objects (ready ready' : Prop) reach reach' s keep c :
  marks objects ready' reach' keep c -> (ready <-> ready') ->
  (ready' -> forall k, k ∈ keep \/ (listed objects k /\ reach' k)
                       <-> k ∈ s.1 \/ (listed objects k /\ reach k)) ->
  steps objects ready reach s (let? (keep, marked) := c in Ok (keep, negb marked || s.2)).
Proof.
  intros (keep' & ok & -> & Hok & Hk) Hr Hk'. exists keep', (negb ok || s.2). split; [reflexivity|].
  destruct ok, s as [k0 u]; simpl in *.
  - split; [tauto|]. intros -> k. rewrite (Hk eq_refl). now apply Hk', Hok.
  - split; [|discriminate]. assert (~ ready) by (intros H; apply Hr, Hok in H; discriminate).
    intuition congruence.
Qed.

Lemma mark_objects_insert objects (x : string) keep references k :
  k ∈ mark_objects objects ({[x]} ∪ keep) references <->
  k = x \/ k ∈ keep \/ (listed objects k
    /\ exists o, In o references /\ k = ObjectIdentity_store_key (or_identity o)).
Proof. rewrite mark_objects_spec, elem_of_union, elem_of_singleton. tauto. Qed.

Ltac same_read :=
  repeat match goal with
  | H : ?c = Ok ?a, H' : ?c = Ok ?b |- _ => assert (b = a) as -> by congruence; clear H'
  | H : ?c = Some ?a, H' : ?c = Some ?b |- _ => assert (b = a) as -> by congruence; clear H'
  | H : stored ?os ?k ?a, H' : stored ?os ?k ?b |- _ =>
      assert (b = a) as -> by exact (stored_fun _ _ _ _ H' H); clear H'
  end.
Ltac root_inv :=
  match goal with
  | H : root_reaches _ (_, _, _) _ |- _ => inversion H; clear H; simplify_eq
  | H : pending_reaches _ (_, _, _) _ |- _ => inversion H; clear H; simplify_eq
  end; same_read.

Lemma mark_base_root_spec objects s key put b bs :
  In (key, put, bs) objects -> parse_key key = Some (Key_BaseRoot b) ->
  steps objects (root_readable objects (key, put, bs)) (root_reaches objects (key, put, bs)) s
    (mark_base_root objects ({[key]} ∪ s.1) s.2 b bs).
Proof using CL PL.
  intros Hin Hp. unfold mark_base_root, root_readable. cbn [fst snd]. rewrite Hp.
  assert (Hself : listed objects key) by (exists put, bs; auto).
  destruct (result_ok_cases (BaseRoot_decode b bs) (format_total (ExactFormat := BaseRoot_format b) bs))
    as [(root & Hd & ->)|[Hd ->]]; simpl.
  2: { apply steps_fail. intros (root & ? & ? & H & _). eapply Hd; eauto. }
  destruct (find objects _) as [[[mkey mput] mb]|] eqn:Hf.
  2: { apply steps_fail. intros (root' & mb & bm & H & Hs & _). assert (root' = root) as -> by congruence.
       eapply absent_not_stored; eauto. }
  destruct (find_stored _ _ _ _ _ Hf) as (-> & Hs & Hl).
  destruct (result_ok_cases (BaseManifest_decode root mb) (base_decode_total _ _))
    as [(bm & Hm & ->)|[Hm ->]]; simpl.
  2: { apply steps_fail. intros (root' & mb' & bm & H & Hs' & Hm'). assert (root' = root) as -> by congruence.
       rewrite (stored_fun _ _ _ _ Hs' Hs) in Hm'. eapply Hm; eauto. }
  apply steps_ok; [eauto 10|]. intros k. rewrite mark_objects_insert, elem_of_union, elem_of_singleton.
  split.
  - intros [->|[[->|?]|(? & o & ? & ->)]]; eauto 10 using root_reaches.
  - intros [?|[? Hr]]; [auto|]. root_inv; eauto 10.
Qed.
Lemma mark_head_spec objects s key put v bs :
  Forall (fun o => all_bytes o.2) objects ->
  In (key, put, bs) objects -> parse_key key = Some (Key_Head v) ->
  steps objects (root_readable objects (key, put, bs)) (root_reaches objects (key, put, bs)) s
    (mark_head objects ({[key]} ∪ s.1) s.2 v bs).
Proof using CL PL.
  intros Hb Hin Hp. unfold mark_head, root_readable. cbn [fst snd]. rewrite Hp.
  assert (Hself : listed objects key) by (exists put, bs; auto).
  assert (Hv : fits W64 v) by exact (parse_key_ok _ _ Hp).
  destruct (result_ok_cases (HeadRecord_decode v bs)
    (format_total (ExactFormat := HeadRecord_format v Hv) bs)) as [(h & Hd & ->)|[Hd ->]]; simpl.
  2: { apply steps_fail. intros (h & H & _). eapply Hd; eauto. }
  destruct (head_manifest h) as [ptr|] eqn:Hh.
  2: { apply steps_ok.
       - exists h. split; [auto|]. intros ptr. congruence.
       - intros k. rewrite elem_of_union, elem_of_singleton. split.
         + intros [->|?]; eauto using root_reaches.
         + intros [?|[? Hr]]; [auto|]. root_inv; auto; congruence. }
  destruct (find objects _) as [[[mkey mput] mb]|] eqn:Hf.
  2: { apply steps_fail. intros (h' & H & Hm). same_read.
       destruct (Hm ptr Hh) as (mb & m & Hs & _). eapply absent_not_stored; eauto. }
  destruct (find_stored _ _ _ _ _ Hf) as (-> & Hs & Hl).
  destruct (Z.eqb_spec (checksum64 mb) (mp_checksum ptr)) as [Hc|Hc]; cbn [negb].
  2: { apply steps_fail. intros (h' & H & Hm). same_read.
       destruct (Hm ptr Hh) as (mb' & m & Hs' & Hc' & _). same_read. contradiction. }
  destruct (result_ok_cases (Manifest_decode v mb) (format_total (ExactFormat := Manifest_format v) mb))
    as [(m & Hm & ->)|[Hm ->]]; simpl.
  2: { apply steps_fail. intros (h' & H & Hm'). same_read.
       destruct (Hm' ptr Hh) as (mb' & m & Hs' & _ & Hd' & _). same_read. eapply Hm; eauto. }
  eapply steps_marks; [now apply mark_manifest_spec|..].
  - split; [intros (h' & H & H'); same_read; destruct (H' ptr Hh) as (mb' & m' & ? & ? & ? & ?)|].
    + now same_read.
    + intros Hr. exists h. split; [auto|]. intros ptr' ?. same_read. eauto 10.
  - intros _ k. rewrite !elem_of_union, !elem_of_singleton. split.
    + intros [[->|[->|?]]|[? ?]]; eauto 12 using root_reaches.
    + intros [?|[? Hr]]; [auto|]. root_inv; auto.
Qed.
Lemma mark_root_spec objects s o :
  Forall (fun o => all_bytes o.2) objects -> In o objects ->
  steps objects (root_readable objects o) (root_reaches objects o) s (mark_root objects s o).
Proof using CL PL.
  intros Hb Hin. destruct s as [keep u], o as [[key put] bs]. unfold mark_root.
  destruct (parse_key key) as [[v| | | | |b| |]|] eqn:Hp;
    try (apply (steps_ok objects _ _ (keep, u));
      [unfold root_readable; simpl; now rewrite Hp
      |intros k; split; [auto|intros [?|[_ Hr]]; [auto|root_inv]]]).
  - now apply (mark_head_spec objects (keep, u)).
  - now apply (mark_base_root_spec objects (keep, u)).
Qed.

Lemma published_spec objects volume m : fits W64 volume ->
  exists b, published (E := E) objects volume m = Ok b /\ (b = true <-> head_covers objects volume m).
Proof using CL PL.
  intros Hv. unfold published, head_covers.
  destruct (find objects _) as [[[key put] bs]|] eqn:Hf.
  2: { exists false. split; [reflexivity|]. split; [discriminate|].
       intros (bs & h & ptr & Hs & _). destruct (absent_not_stored _ _ _ Hf Hs). }
  destruct (find_stored _ _ _ _ _ Hf) as (-> & Hs & Hl).
  destruct (result_ok_cases (HeadRecord_decode volume bs)
    (format_total (ExactFormat := HeadRecord_format volume Hv) bs)) as [(h & Hd & ->)|[Hd ->]];
    simpl; eexists; (split; [reflexivity|]).
  2: { split; [discriminate|]. intros (bs' & h & ptr & ? & ? & _). same_read. destruct (Hd h); auto. }
  destruct (head_manifest h) as [ptr|] eqn:Hh.
  - split; [eauto 10|]. intros (bs' & h' & ptr' & ? & ? & ? & ?). same_read. congruence.
  - split; [discriminate|]. intros (bs' & h' & ptr' & ? & ? & ? & ?). same_read. congruence.
Qed.
Lemma mark_pending_spec objects s o :
  Forall (fun o => all_bytes o.2) objects -> In o objects ->
  steps objects (pending_readable objects o) (pending_reaches objects o) s (mark_pending objects s o).
Proof using CL PL.
  intros Hb Hin. destruct s as [keep u], o as [[key put] bs]. unfold mark_pending.
  assert (Hself : listed objects key) by (exists put, bs; auto).
  destruct (parse_key key) as [[ | | | |v f q| | |]|] eqn:Hp;
    try (apply (steps_ok objects _ _ (keep, u));
      [unfold pending_readable; simpl; now rewrite Hp
      |intros k; split; [auto|intros [?|[_ Hr]]; [auto|root_inv]]]).
  unfold pending_readable. cbn [fst snd]. rewrite Hp.
  destruct (result_ok_cases (Manifest_decode v bs) (format_total (ExactFormat := Manifest_format v) bs))
    as [(m & Hd & ->)|[Hd ->]]; simpl.
  2: { apply steps_fail. intros (m & H & _). destruct (Hd m); auto. }
  destruct (Z.eqb_spec (m_writer_fence m) f) as [Hf|Hf]; simpl.
  2: { apply steps_fail. intros (m' & ? & ? & _). same_read. congruence. }
  destruct (Z.eqb_spec (m_archive_seq m) q) as [Hq|Hq]; simpl.
  2: { apply steps_fail. intros (m' & ? & ? & ? & _). same_read. congruence. }
  destruct (published_spec objects v m) as (b & -> & Hpub); [now apply parse_key_ok in Hp as (? & _)|].
  simpl. destruct b.
  - apply (steps_ok objects _ _ (keep, u)); [exists m; intuition|].
    intros k. split; [auto|]. intros [?|[_ Hr]]; [auto|]. root_inv; tauto.
  - assert (~ head_covers objects v m) as Hn by (rewrite <- Hpub; discriminate).
    apply (steps_marks objects _ (manifest_readable objects m) _ (manifest_reaches objects m) (keep, u)
             ({[key]} ∪ keep)); [now apply mark_manifest_spec|..].
    + split; [intros (m' & ? & _ & _ & [?|?]); now same_read|]. intros. exists m. auto.
    + intros _ k. rewrite elem_of_union, elem_of_singleton. split.
      * intros [[->|?]|[? ?]]; eauto 10 using pending_reaches.
      * intros [?|[? Hr]]; [auto|]. root_inv; auto.
Qed.

(** The loops: the flag and the kept set after a whole listing. *)
Lemma steps_fold objects (ready : Listed -> Prop) (reach : Listed -> string -> Prop) f l s :
  (forall o s, In o l -> steps objects (ready o) (reach o) s (f s o)) ->
  steps objects (forall o, In o l -> ready o) (fun k => exists o, In o l /\ reach o k) s
    (fold_outcome f s l).
Proof.
  revert s. induction l as [|o l IH]; intros [keep u] Hf; simpl.
  { apply (steps_ok objects _ _ (keep, u)); [now intros o []|]. intros k. split; [auto|].
    now intros [?|(_ & o & [] & _)]. }
  destruct (Hf o (keep, u) (or_introl eq_refl)) as (k1 & u1 & -> & Hu1 & Hk1). simpl.
  destruct (IH (k1, u1)) as (k2 & u2 & -> & Hu2 & Hk2); [intros; apply Hf; now right|].
  simpl in *. exists k2, u2. split; [reflexivity|]. simpl. split.
  - rewrite Hu2, Hu1. split; [|intuition]. intros [[? ?] Hall]. split; [auto|]. intros o' [<-|?]; auto.
  - intros H. pose proof (proj1 (proj1 Hu2 H)) as H1. intros k. rewrite (Hk2 H), (Hk1 H1). split.
    + intros [[?|[? ?]]|(? & o' & ? & ?)]; eauto 10.
    + intros [?|(? & o' & [<-|?] & ?)]; eauto 10.
Qed.
Lemma reachable_nonempty objects k : reachable objects k -> k <> "".
Proof.
  assert (forall i, ObjectIdentity_store_key i <> "") as Hi.
  { intros i. unfold ObjectIdentity_store_key. now case_match. }
  assert (forall m, manifest_reaches objects m k -> k <> "") as Hm.
  { intros m []; first [apply Hi | discriminate]. }
  intros (o & _ & [H|H]); destruct H; eauto; try discriminate; try (intros ->; discriminate).
Qed.

(** ** Sweeping *)
Definition deletes (now grace : Z) objects (k : string) : Prop :=
  exists put bs, In (k, put, bs) objects /\ grace < saturating_sub now put
    /\ ~ reachable objects k.
Lemma plan_spec now grace objects : Forall (fun o => all_bytes o.2) objects ->
  exists dels, plan (E := E) now grace objects = Ok dels
    /\ ((~ bucket_readable objects /\ dels = [])
        \/ (bucket_readable objects /\ forall k, In k dels <-> deletes now grace objects k)).
Proof using CL PL.
  intros Hb. unfold plan.
  destruct (steps_fold objects (root_readable objects) (root_reaches objects) (mark_root objects)
    objects (∅, false)) as (k1 & u1 & -> & Hu1 & Hk1); [auto using mark_root_spec|]. simpl.
  destruct (steps_fold objects (pending_readable objects) (pending_reaches objects)
    (mark_pending objects) objects (k1, u1)) as (k2 & u2 & -> & Hu2 & Hk2); [auto using mark_pending_spec|].
  simpl in *. assert (u2 = false <-> bucket_readable objects) as Hu.
  { rewrite Hu2, Hu1. split; [intros [[_ H1] H2] o Ho; auto|].
    intros H. split; [split; [reflexivity|]|]; intros o Ho; apply H, Ho. }
  destruct u2; eexists; (split; [reflexivity|]); [left|right].
  { split; [|reflexivity]. rewrite <- Hu. discriminate. }
  split; [now apply Hu|]. intros k. rewrite in_map_iff. unfold deletes.
  pose proof (proj1 (proj1 Hu2 eq_refl)) as H1.
  assert (listed objects k -> (k ∈ k2 ∖ {[""]} <-> reachable objects k)) as Hk.
  { intros Hl. rewrite elem_of_difference, elem_of_singleton, (Hk2 eq_refl), (Hk1 H1).
    pose proof (reachable_nonempty objects k) as Hne. unfold reachable in *.
    split; [|intros (o & ? & [?|?]); (split; [|apply Hne]); eauto 10].
    intros [[[H|(_ & o & ? & ?)]|(_ & o & ? & ?)] _]; eauto. now apply not_elem_of_empty in H. }
  split.
  - intros ([[key put] bs] & <- & Hin). apply filter_In in Hin as [Hin Hc]. simpl in *.
    apply andb_true_iff in Hc as [Hc Hg]. apply negb_true_iff, bool_decide_eq_false in Hc.
    exists put, bs. rewrite <- Hk by (exists put, bs; auto). split; [auto|]. split; [lia|auto].
  - intros (put & bs & Hin & Hg & Hr). exists (k, put, bs). split; [reflexivity|].
    apply filter_In. split; [auto|]. simpl. rewrite <- Hk in Hr by (exists put, bs; auto).
    rewrite bool_decide_eq_false_2 by auto. simpl. lia.
Qed.
Lemma In_swept dels objects o : In o (swept dels objects) <-> In o objects /\ ~ In o.1.1 dels.
Proof.
  unfold swept. rewrite filter_In, negb_true_iff, bool_decide_eq_false. reflexivity.
Qed.
Lemma find_swept dels objects k : ~ In k dels -> find (swept dels objects) k = find objects k.
Proof.
  intros Hk. unfold find, swept. induction objects as [|o objects IH]; [reflexivity|]. simpl.
  destruct (String.eqb_spec o.1.1 k) as [He|He].
  - rewrite bool_decide_eq_false_2 by congruence. simpl. now rewrite (proj2 (String.eqb_eq _ _) He).
  - destruct (bool_decide _); simpl; [exact IH|].
    now rewrite (proj2 (String.eqb_neq _ _) He).
Qed.

(** A reading that touches only keys on which two listings agree is the same
    in both. *)
Section Agreement.
Context (A B : list Listed).

Definition agree k : Prop := forall bs, stored A k bs -> stored B k bs.
Lemma agree_find k : find A k = find B k -> agree k.
Proof. intros He bs. unfold stored. now rewrite He. Qed.
Lemma agree_stored k bs : agree k -> stored A k bs -> stored B k bs.
Proof. intros Ha. apply Ha. Qed.
Lemma metadata_name sk : match sk with Key_Blx _ _ _ | Key_ImportedBaseBlx _ _ _ => False | _ => True end ->
  needs_body (StoreKey_name sk) = true.
Proof. intros Hk. unfold needs_body. rewrite parse_any_name. destruct sk; (reflexivity || contradiction). Qed.
Lemma metadata_list r v : needs_body (FileListRef_store_key r v) = true.
Proof. exact (metadata_name (Key_CompleteFileList v (fl_writer_fence r) (fl_list_id r)) I). Qed.
Lemma metadata_base_manifest b i : needs_body (base_manifest_key b i) = true.
Proof. exact (metadata_name (Key_BaseManifest b i) I). Qed.
Lemma metadata_manifest ptr v : needs_body (ManifestPtr_manifest_key ptr v) = true.
Proof. exact (metadata_name (Key_ArchiveManifest v (mp_fence ptr) (mp_seq ptr)) I). Qed.
#[local] Hint Resolve metadata_list metadata_base_manifest metadata_manifest : core.

Section OneManifest.
Context (m : Manifest) (Ha : forall k, manifest_reaches A m k -> needs_body k = true -> agree k).
Lemma agree_list_of l : list_of A m l -> list_of B m l.
Proof using Ha.
  intros [Hn|r bs x Hr Hs Hd]; [now constructor|].
  apply (list_read _ _ r bs); [exact Hr| |exact Hd]. apply agree_stored; eauto using manifest_reaches.
Qed.
Lemma agree_files_of fs : files_of A m fs -> files_of B m fs.
Proof using Ha. intros (l & Hl & Hf). exists l. eauto using agree_list_of. Qed.
Lemma agree_base_of b bm : m_base m = Some b -> base_of A b bm -> base_of B b bm.
Proof using Ha. intros Hb (bs & Hs & Hd). exists bs. eauto using agree_stored, manifest_reaches. Qed.
Lemma agree_manifest k : manifest_reaches A m k -> manifest_reaches B m k.
Proof using Ha.
  intros [r Hr|fs o Hf Ho|b Hb|b bm o Hb Hbm Ho];
    eauto using manifest_reaches, agree_files_of, agree_base_of.
Qed.
Lemma agree_readable : manifest_readable A m -> manifest_readable B m.
Proof using Ha.
  intros [(fs & Hf) Hb]. split; [eauto using agree_files_of|].
  intros b Hm. destruct (Hb b Hm) as [bm H]. eauto using agree_base_of.
Qed.
End OneManifest.
Lemma agree_covers v m : agree (head_key v) -> head_covers A v m -> head_covers B v m.
Proof. intros Ha (bs & h & ptr & Hs & H). exists bs, h, ptr. eauto using agree_stored. Qed.
Lemma agree_root k put put' bs x :
  (forall x, root_reaches A (k, put, bs) x -> needs_body x = true -> agree x) ->
  root_reaches A (k, put, bs) x -> root_reaches B (k, put', bs) x.
Proof.
  intros Ha Hr. inversion Hr; subst; eauto using root_reaches.
  - eapply head_closure; eauto using agree_stored, root_reaches.
    eapply agree_manifest; eauto using root_reaches.
  - eapply base_closure; eauto using agree_stored, root_reaches.
Qed.
Lemma agree_root_readable o : (forall k, root_reaches A o k -> needs_body k = true -> agree k) ->
  root_readable A o -> root_readable B o.
Proof.
  intros Ha. destruct o as [[key put] bs]. unfold root_readable. cbn [fst snd].
  destruct (parse_key key) as [[v| | | | |b| |]|] eqn:Hp; auto.
  - intros (h & Hd & H). exists h. split; [auto|]. intros ptr Hh.
    destruct (H ptr Hh) as (mb & m & Hs & Hc & Hm & Hr). exists mb, m.
    split; [eapply agree_stored; eauto using root_reaches|]. split; [auto|]. split; [auto|].
    eapply agree_readable; eauto using root_reaches.
  - intros (root & mb & bm & Hd & Hs & Hm). exists root, mb, bm.
    split; [auto|]. split; [|auto]. eapply agree_stored; eauto using root_reaches.
Qed.
Lemma agree_pending k put put' bs x :
  (forall x, pending_reaches A (k, put, bs) x -> needs_body x = true -> agree x) ->
  (forall v f q m, parse_key k = Some (Key_PendingManifest v f q) ->
     head_covers B v m -> head_covers A v m) ->
  pending_reaches A (k, put, bs) x -> pending_reaches B (k, put', bs) x.
Proof.
  intros Ha Hc Hr. inversion Hr; subst; [eapply pending_itself; eauto|].
  eapply pending_closure; eauto. eapply agree_manifest; eauto using pending_reaches.
Qed.
End Agreement.

(** What survives a sweep. *)
Lemma planned_unreachable now grace objects dels k : Forall (fun o => all_bytes o.2) objects ->
  plan (E := E) now grace objects = Ok dels -> In k dels -> ~ reachable objects k /\ listed objects k.
Proof using CL PL.
  intros Hb Hp Hin. destruct (plan_spec now grace objects Hb) as (dels' & Hp' & Hd).
  assert (dels' = dels) as -> by congruence. destruct Hd as [[_ ->]|[_ Hd]]; [now destruct Hin|].
  apply Hd in Hin as (put & bs & Hi & _ & Hr). split; [auto|]. now exists put, bs.
Qed.
Lemma swept_find now grace objects dels k : Forall (fun o => all_bytes o.2) objects ->
  plan (E := E) now grace objects = Ok dels -> reachable objects k ->
  find (swept dels objects) k = find objects k.
Proof using CL PL.
  intros Hb Hp Hr. rewrite find_swept; [reflexivity|].
  intros Hin. now apply (planned_unreachable _ _ _ _ _ Hb Hp) in Hin as [H _].
Qed.
Lemma swept_head now grace objects dels v : Forall (fun o => all_bytes o.2) objects ->
  plan (E := E) now grace objects = Ok dels -> fits W64 v ->
  find (swept dels objects) (head_key v) = find objects (head_key v).
Proof using CL PL.
  intros Hb Hp Hv. rewrite find_swept; [reflexivity|].
  intros Hin. apply (planned_unreachable _ _ _ _ _ Hb Hp) in Hin as [H (put & bs & Hi)].
  apply H. exists (head_key v, put, bs). split; [auto|]. left.
  apply (head_itself _ _ _ _ v). exact (parse_store_name (Key_Head v) Hv).
Qed.
Lemma reachable_swept now grace objects dels k : Forall (fun o => all_bytes o.2) objects ->
  plan (E := E) now grace objects = Ok dels ->
  reachable objects k -> reachable (swept dels objects) k.
Proof using CL PL.
  intros Hb Hp (o & Ho & Hr).
  assert (forall x, root_reaches objects o x -> reachable objects x) as H1 by (intros; exists o; auto).
  assert (forall x, pending_reaches objects o x -> reachable objects x) as H2 by (intros; exists o; auto).
  assert (forall x, reachable objects x -> agree objects (swept dels objects) x) as Ha.
  { intros x Hx. apply agree_find. symmetry. eauto using swept_find. }
  destruct o as [[key put] bs]. exists (key, put, bs). split.
  { apply In_swept. split; [auto|]. intros Hin. apply (planned_unreachable _ _ _ _ _ Hb Hp) in Hin as [H _].
    apply H. destruct Hr as [Hr|Hr]; inversion Hr; subst; simpl; eauto using root_reaches, pending_reaches. }
  destruct Hr as [Hr|Hr]; [left; eapply agree_root; eauto|right].
  eapply agree_pending; eauto. intros v f q m (Hv & _)%parse_key_ok.
  apply agree_covers, agree_find. eauto using swept_head.
Qed.
End Marking.

(** ** The theorems *)
Section Collection.
Context `{C : Crc} `{CL : !CrcLaws C} `{P : PageSize} `{PL : !PageSizeLaws P}.

(** C5. The plan is exact. On every listing the planner terminates without a
    panic. When some root, or something a root names, cannot be read it plans
    nothing. Otherwise it deletes precisely the objects that are older than the
    grace period and that no head, base root or unpublished pending manifest
    reaches. *)
Theorem plan_exact (now grace : Z) (objects : list Listed) :
  Forall (fun o => all_bytes o.2) objects ->
  exists dels, plan (E := Empty_set) now grace objects = Ok dels
    /\ ((~ bucket_readable objects /\ dels = [])
        \/ (bucket_readable objects /\ forall k, In k dels <->
              exists put bs, In (k, put, bs) objects /\ grace < saturating_sub now put
                /\ ~ reachable objects k)).
Proof using CL PL. apply plan_spec. Qed.

Lemma swept_nil objects : swept [] objects = objects.
Proof. induction objects as [|o os IH]; [reflexivity|]. unfold swept in *. simpl. f_equal. exact IH. Qed.
Lemma plan_swept now grace objects dels : Forall (fun o => all_bytes o.2) objects ->
  plan (E := Empty_set) now grace objects = Ok dels ->
  plan (E := Empty_set) now grace (swept dels objects) = Ok [].
Proof using CL PL.
  intros Hb Hp. destruct (plan_spec (E := Empty_set) now grace objects Hb) as (dels' & Hp' & Hd).
  assert (dels' = dels) as -> by congruence.
  destruct Hd as [[_ ->]|[_ Hd]]; [now rewrite swept_nil|].
  assert (Forall (fun o => all_bytes o.2) (swept dels objects)) as Hb'.
  { apply List.Forall_forall. intros o [Ho _]%In_swept. rewrite List.Forall_forall in Hb. auto. }
  destruct (plan_spec (E := Empty_set) now grace _ Hb') as ([|k ks] & -> & Hd'); [reflexivity|].
  exfalso. destruct Hd' as [[_ ?]|[_ Hd']]; [discriminate|].
  destruct (proj1 (Hd' k) (or_introl eq_refl)) as (put & bs & [Hi Hn]%In_swept & Hg & Hr).
  apply Hn, Hd. exists put, bs. split; [auto|]. split; [auto|].
  intros H. apply Hr. eapply reachable_swept; eauto.
Qed.

(** C10. Collection is safe and settles. Once the planned keys are gone, every
    reader of a reachable key (the head and manifest of a live volume, its file
    list and BLX files, its base, an unpublished publication) finds what it
    found before; whatever was reachable still is; and a second pass over what
    remains deletes nothing. *)
Theorem collection_safe (now grace : Z) (objects : list Listed) (dels : list string) :
  Forall (fun o => all_bytes o.2) objects ->
  plan (E := Empty_set) now grace objects = Ok dels ->
  (forall k, reachable objects k ->
     find (swept dels objects) k = find objects k /\ reachable (swept dels objects) k)
  /\ plan (E := Empty_set) now grace (swept dels objects) = Ok [].
Proof using CL PL.
  intros Hb Hp. split; [|now apply plan_swept]. intros k Hk. split; [|eapply reachable_swept; eauto].
  eapply swept_find; eauto.
Qed.
End Collection.
