(* ===== verification/Collector.v ===== *)
(** * The archive collector ([runtime/src/collector.rs])

    [StoreCollector::pass] lists the bucket, reads the metadata objects, plans
    a collection and deletes what was planned, each object at the generation it
    was listed with. Every call to the store is atomic; between two calls the
    other hosts of the cluster may change the store or the store may be
    unavailable. *)

From stdpp Require Import gmap.
From Stdlib Require String.
From S2P Require Import Prelude Format Types Sorting OrdMap Text Head Blx BlxFile Manifest Layout.
From S2P Require Import ManifestCodec ManifestClosure Gc.

#[local] Open Scope string_scope.
#[local] Open Scope Z_scope.

(** ** The object store as its callers see it *)
Inductive StoreFault :=
| Unavailable
| CasConflict (actual : option Z).
Record ListedObject := { lo_key : string; lo_generation : Z }.
Abbreviation Store := (gmap string (Z * bytes)).
Record World := { w_store : Store; w_calls : nat }.

Record Observation := { ob_generation : Z; ob_first_seen : Z }.
Record StoreCollector := { sc_world : World; sc_observed : gmap string Observation }.

Section Collector.
Context `{C : Crc} `{P : PageSize}.
(** What happens before the [n]-th call: the changes of the other hosts, or an
    outage. *)
Context (others : nat -> Store -> option Store).

Definition pass_action : Type -> Type := action StoreCollector StoreFault.
Definition store_call {A} (f : Store -> Store * outcome StoreFault A) : pass_action A :=
  fun c =>
    let w := sc_world c in
    match others (w_calls w) (w_store w) with
    | None => ({| sc_world := {| w_store := w_store w; w_calls := S (w_calls w) |};
                  sc_observed := sc_observed c |}, Err Unavailable)
    | Some s =>
        let '(s, r) := f s in
        ({| sc_world := {| w_store := s; w_calls := S (w_calls w) |};
            sc_observed := sc_observed c |}, r)
    end.
Definition set_observed (f : gmap string Observation -> gmap string Observation) : pass_action unit :=
  act_modify (fun c => {| sc_world := sc_world c; sc_observed := f (sc_observed c) |}).

Definition entries_under (prefix : string) (s : Store) : list ListedObject :=
  map (fun x => {| lo_key := x.1; lo_generation := x.2.1 |})
    (List.filter (fun x => bool_decide (is_Some (strip_prefix prefix x.1))) (map_to_list s)).
Definition list_prefix_versioned (prefix : string) : pass_action (list ListedObject) :=
  store_call (fun s => (s, Ok (entries_under prefix s))).
Definition store_get (key : string) : pass_action (option (Z * bytes)) :=
  store_call (fun s => (s, Ok (s !! key))).
Definition delete_cas (key : string) (expected : Z) : pass_action bool :=
  store_call (fun s =>
    match s !! key with
    | Some (generation, _) =>
        if generation =? expected then (delete key s, Ok true)
        else (s, Err (CasConflict (Some generation)))
    | None => (s, Err (CasConflict None))
    end).

(** ** One pass *)
Definition sort_by_key (l : list ListedObject) : list ListedObject :=
  sort_by (fun x y => String.leb (lo_key x) (lo_key y)) l.
Definition dedup_by_key (l : list ListedObject) : list ListedObject :=
  dedup_by (fun x y => String.eqb (lo_key x) (lo_key y)) l.

(** The body of a listed object, [None] when the object is to be skipped. *)
Definition read_body (entry : ListedObject) : pass_action (option bytes) :=
  if needs_body (lo_key entry) then
    let! found := store_get (lo_key entry) in
    match found with
    | None => let! _ := set_observed (delete (lo_key entry)) in act_ret None
    | Some (found_generation, bs) =>
        if negb (found_generation =? lo_generation entry)
        then let! _ := set_observed (delete (lo_key entry)) in act_ret None
        else act_ret (Some bs)
    end
  else act_ret (Some []).
Definition observe (now : Z) (entry : ListedObject) (observed : gmap string Observation) : Observation :=
  let fresh := {| ob_generation := lo_generation entry; ob_first_seen := now |} in
  match observed !! lo_key entry with
  | Some observation =>
      if negb (ob_generation observation =? lo_generation entry) then fresh else observation
  | None => fresh
  end.
Definition examine (grace now : Z) (objects : list Listed) (entry : ListedObject)
  : pass_action (list Listed) :=
  let! body := read_body entry in
  match body with
  | None => act_ret objects
  | Some bs =>
      let! c := act_get in
      let observation := observe now entry (sc_observed c) in
      let! _ := set_observed <[lo_key entry := observation]> in
      let mature := grace <=? saturating_sub now (ob_first_seen observation) in
      act_ret (objects ++ [(lo_key entry, (if mature then 0 else 1) * 2, bs)])%list
  end.
Definition delete_planned (deleted : Z) (key : string) : pass_action Z :=
  let! c := act_get in
  match sc_observed c !! key with
  | None => act_ret deleted
  | Some observation => fun c =>
      match delete_cas key (ob_generation observation) c with
      | (c, Ok was_present) =>
          act_bind (fun _ => act_ret (deleted + (if was_present : bool then 1 else 0)))
            (set_observed (delete key)) c
      | (c, Err (CasConflict _)) => act_bind (fun _ => act_ret deleted) (set_observed (delete key)) c
      | (c, Err error) => (c, Err error)
      | (c, Panic) => (c, Panic)
      end
  end.
Definition pass (grace now : Z) : pass_action Z :=
  if grace =? 0 then act_fail Unavailable else
  let! listed := list_prefix_versioned "v/" in
  let! bases := list_prefix_versioned "b/" in
  let listed := List.filter (fun entry => bool_decide (is_Some (parse_key (lo_key entry))))
                  (listed ++ bases)%list in
  let listed := dedup_by_key (sort_by_key listed) in
  let present : gset string := list_to_set (map lo_key listed) in
  let! _ := set_observed (filter (fun x => x.1 ∈ present)) in
  let! objects := act_fold (examine grace now) [] listed in
  let! planned := act_lift (plan 2 1 objects) in
  act_fold delete_planned 0 planned.

(** The bucket as a listing. *)
Definition snapshot (s : Store) : list Listed :=
  map (fun x => (x.1, 0, x.2.2)) (map_to_list s).
End Collector.

(** ** A pass over a store nobody else changes *)
Section Quiet.
Context `{C : Crc} `{CL : !CrcLaws C} `{P : PageSize} `{PL : !PageSizeLaws P}.
Definition nobody (n : nat) (s : Store) : option Store := Some s.

(** The entries a pass goes through are the parsed objects of the store. *)
Definition pass_listing (s : Store) : list ListedObject :=
  dedup_by_key (sort_by_key (List.filter (fun entry => bool_decide (is_Some (parse_key (lo_key entry))))
    (entries_under "v/" s ++ entries_under "b/" s)%list)).
Lemma In_entries prefix (s : Store) e :
  In e (entries_under prefix s) <->
  is_Some (strip_prefix prefix (lo_key e)) /\ exists bs, s !! lo_key e = Some (lo_generation e, bs).
Proof.
  unfold entries_under. rewrite in_map_iff. split.
  - intros ([k [g bs]] & <- & [Hi Hp]%filter_In). apply bool_decide_eq_true in Hp.
    apply list_elem_of_In, elem_of_map_to_list in Hi. simpl in *. eauto.
  - intros [Hp (bs & Hs)]. exists (lo_key e, (lo_generation e, bs)). split; [now destruct e|].
    apply filter_In. rewrite bool_decide_eq_true. split; [|exact Hp].
    now apply list_elem_of_In, elem_of_map_to_list.
Qed.
Lemma parse_key_prefix k sk : parse_key k = Some sk ->
  is_Some (strip_prefix "v/" k) \/ is_Some (strip_prefix "b/" k).
Proof. unfold parse_key. destruct (strip_prefix "v/" k); [eauto|]. destruct (strip_prefix "b/" k); [eauto|discriminate]. Qed.
Lemma pass_listing_In (s : Store) e : In e (pass_listing s) ->
  is_Some (parse_key (lo_key e)) /\ exists bs, s !! lo_key e = Some (lo_generation e, bs).
Proof.
  unfold pass_listing. intros H.
  apply In_dedup_by, In_sort_by, filter_In in H as [H Hp]. apply bool_decide_eq_true in Hp.
  split; [auto|]. apply in_app_iff in H as [H|H]; now apply In_entries in H as [_ H].
Qed.
Lemma pass_listing_complete (s : Store) k g bs : s !! k = Some (g, bs) -> is_Some (parse_key k) ->
  exists e, In e (pass_listing s) /\ lo_key e = k.
Proof.
  intros Hs [sk Hp]. unfold pass_listing. set (l := sort_by_key _).
  assert (In {| lo_key := k; lo_generation := g |} l) as Hi.
  { unfold l. apply In_sort_by, filter_In. simpl. rewrite bool_decide_eq_true. split; [|eauto].
    apply in_app_iff. rewrite !In_entries. simpl. destruct (parse_key_prefix _ _ Hp); eauto. }
  exact (dedup_by_keys _ lo_key (fun x y => proj1 (String.eqb_eq _ _)) _ _ Hi).
Qed.

(** What has been established after some entries were examined. *)
Definition aged (grace now : Z) (obs0 : gmap string Observation) (k : string) (ob : Observation) : Prop :=
  obs0 !! k = Some ob /\ grace <= saturating_sub now (ob_first_seen ob).
Record seen (s0 : Store) (grace now : Z) (obs0 : gmap string Observation)
    (done : list ListedObject) (c : StoreCollector) (objects : list Listed) : Prop := {
  seen_store : w_store (sc_world c) = s0;
  seen_done : forall e, In e done -> listed objects (lo_key e);
  seen_objects : forall k put bs, In (k, put, bs) objects ->
    exists g b ob, s0 !! k = Some (g, b) /\ bs = (if needs_body k then b else [])
      /\ sc_observed c !! k = Some ob /\ ob_generation ob = g
      /\ ((put = 2 /\ saturating_sub now (ob_first_seen ob) < grace)
          \/ (put = 0 /\ aged grace now obs0 k ob));
  seen_observed : forall k ob, sc_observed c !! k = Some ob ->
    obs0 !! k = Some ob \/ ob_first_seen ob = now;
  seen_stable : forall k ob b, obs0 !! k = Some ob -> s0 !! k = Some (ob_generation ob, b) ->
    sc_observed c !! k = Some ob }.

Lemma read_body_quiet e c b : w_store (sc_world c) !! lo_key e = Some (lo_generation e, b) ->
  exists c', read_body nobody e c = (c', Ok (Some (if needs_body (lo_key e) then b else [])))
    /\ w_store (sc_world c') = w_store (sc_world c) /\ sc_observed c' = sc_observed c.
Proof.
  intros Hs. unfold read_body. destruct (needs_body (lo_key e)); [|exists c; auto].
  unfold act_bind, store_get, store_call, nobody. rewrite Hs. cbn. rewrite Z.eqb_refl. cbn.
  eexists. eauto.
Qed.
Lemma observe_spec now e obs ob : observe now e obs = ob ->
  ob_generation ob = lo_generation e
  /\ (obs !! lo_key e = Some ob \/ ob_first_seen ob = now)
  /\ (forall ob', obs !! lo_key e = Some ob' -> ob_generation ob' = lo_generation e -> ob' = ob).
Proof.
  unfold observe. intros <-. destruct (obs !! lo_key e) as [ob'|]; [|simpl; naive_solver].
  destruct (Z.eqb_spec (ob_generation ob') (lo_generation e)); simpl; naive_solver.
Qed.
Lemma examine_quiet s0 grace now obs0 done c objects e b : 0 < grace ->
  s0 !! lo_key e = Some (lo_generation e, b) -> seen s0 grace now obs0 done c objects ->
  exists c' objects', examine nobody grace now objects e c = (c', Ok objects')
    /\ seen s0 grace now obs0 (done ++ [e]) c' objects'.
Proof.
  intros Hg He [Hs Hd Ho Hb Hst]. unfold examine, act_bind.
  destruct (read_body_quiet e c b) as (c1 & -> & Hs1 & Hb1); [now rewrite Hs|].
  cbn. set (ob := observe now e (sc_observed c1)).
  destruct (observe_spec now e (sc_observed c1) ob eq_refl) as (Hgen & Hob & Hsame).
  eexists _, _. split; [reflexivity|]. rewrite Hb1 in *. split; cbn.
  - now rewrite Hs1.
  - intros x [Hx|[<-|[]]]%in_app_iff.
    + destruct (Hd x Hx) as (put & bs & Hi). exists put, bs. apply in_app_iff. auto.
    + eexists _, _. apply in_app_iff. right. now left.
  - intros k put bs [Hi|[[= <- <- <-]|[]]]%in_app_iff.
    + destruct (Ho k put bs Hi) as (g & b' & ob' & Hk & -> & Hob' & Hg' & Hp).
      exists g, b', ob'. split; [auto|]. split; [auto|]. split; [|auto].
      destruct (decide (k = lo_key e)) as [->|Hne]; [|now rewrite lookup_insert_ne].
      rewrite lookup_insert_eq. f_equal. symmetry. apply Hsame; congruence.
    + exists (lo_generation e), b, ob. rewrite lookup_insert_eq. do 4 (split; [auto|]).
      destruct (Z.leb_spec grace (saturating_sub now (ob_first_seen ob))); [right|left; auto].
      split; [reflexivity|]. unfold aged. split; [|lia]. destruct Hob as [Hob|Hob].
      * destruct (Hb _ _ Hob) as [?|Hn]; [auto|]. unfold saturating_sub in *. lia.
      * unfold saturating_sub in *. lia.
  - intros k ob'. destruct (decide (k = lo_key e)) as [->|Hne]; [|rewrite lookup_insert_ne by auto; auto].
    rewrite lookup_insert_eq. intros [= <-]. destruct Hob; auto.
  - intros k ob' b' Hk Hk'. pose proof (Hst _ _ _ Hk Hk') as Hc.
    destruct (decide (k = lo_key e)) as [->|Hne]; [|now rewrite lookup_insert_ne].
    rewrite lookup_insert_eq. f_equal. symmetry. apply Hsame; congruence.
Qed.

(** ** Listings that show the same metadata *)
Record shows (s0 : Store) (A : list Listed) : Prop := {
  shows_stored : forall k bs, needs_body k = true ->
    stored A k bs <-> exists g, s0 !! k = Some (g, bs);
  shows_in : forall k put bs, In (k, put, bs) A -> needs_body k = true ->
    exists g, s0 !! k = Some (g, bs) }.
Lemma shows_agree s0 A B k : shows s0 A -> shows s0 B -> needs_body k = true -> agree A B k.
Proof. intros HA HB Hk bs. rewrite (shows_stored _ _ HA), (shows_stored _ _ HB) by exact Hk. auto. Qed.
Lemma shows_root s0 A B k put bs : shows s0 A -> shows s0 B -> needs_body k = true ->
  In (k, put, bs) A -> exists put', In (k, put', bs) B.
Proof.
  intros HA HB Hk Hi. apply (shows_in _ _ HA) in Hi; [|auto]. apply (shows_stored _ _ HB) in Hi; [|auto].
  destruct Hi as [put' Hf]. apply find_inv in Hf as [_ Hf]. eauto.
Qed.
Lemma metadata_head v : needs_body (head_key v) = true.
Proof. exact (metadata_name (Key_Head v) I). Qed.
Lemma root_is_metadata A k put bs x :
  root_reaches A (k, put, bs) x \/ pending_reaches A (k, put, bs) x -> needs_body k = true.
Proof. unfold needs_body. intros [H|H]; inversion H; subst; now match goal with Hp : parse_key _ = _ |- _ => rewrite Hp end. Qed.
Lemma shows_reachable s0 A B k : shows s0 A -> shows s0 B -> reachable A k -> reachable B k.
Proof.
  intros HA HB ([[key put] bs] & Hi & Hr). pose proof (root_is_metadata _ _ _ _ _ Hr) as Hm.
  destruct (shows_root _ _ _ _ _ _ HA HB Hm Hi) as [put' Hi']. exists (key, put', bs). split; [auto|].
  destruct Hr as [Hr|Hr].
  { left. apply (agree_root A B key put); [intros; eapply shows_agree; eauto|auto]. }
  right. apply (agree_pending A B key put); [intros; eapply shows_agree; eauto| |auto]. intros v f q m _.
  apply agree_covers, (shows_agree s0); auto using metadata_head.
Qed.
Lemma shows_readable s0 A B : shows s0 A -> shows s0 B -> bucket_readable A -> bucket_readable B.
Proof.
  intros HA HB Hr [[k put] bs] Hi.
  destruct (needs_body k) eqn:Hm.
  - destruct (shows_root _ _ _ _ _ _ HB HA Hm Hi) as [put' Hi']. destruct (Hr _ Hi') as [H1 H2]. split.
    + change (root_readable B (k, put', bs)). apply (agree_root_readable A B); [intros; eapply shows_agree; eauto|auto].
    + revert H2. unfold pending_readable. cbn [fst snd].
      destruct (parse_key k) as [[]|]; auto. intros (m & ? & ? & ? & [?|?]); exists m; repeat split; auto.
      * left. apply (agree_covers A B); [eapply shows_agree; eauto using metadata_head|auto].
      * right. apply (agree_readable A B); [intros; eapply shows_agree; eauto|auto].
  - unfold needs_body in Hm. unfold root_readable, pending_readable. cbn [fst snd].
    destruct (parse_key k) as [[]|]; auto; discriminate.
Qed.
Lemma snapshot_shows s0 : shows s0 (snapshot s0).
Proof.
  assert (forall k put bs, In (k, put, bs) (snapshot s0) <-> put = 0 /\ exists g, s0 !! k = Some (g, bs)) as Hi.
  { intros k put bs. unfold snapshot. rewrite in_map_iff. split.
    - intros ([k' [g b]] & [= <- <- <-] & Hin). split; [auto|]. exists g.
      now apply elem_of_map_to_list, list_elem_of_In.
    - intros [-> [g Hs]]. exists (k, (g, bs)). split; [auto|].
      now apply list_elem_of_In, elem_of_map_to_list. }
  split; [|intros k put bs H _; now apply Hi in H].
  intros k bs _. split.
  - intros [put [_ H]%find_inv]. now apply Hi in H.
  - intros [g Hs]. destruct (find (snapshot s0) k) as [[[k' put] b]|] eqn:Hf.
    + destruct (find_inv _ _ _ Hf) as [<- [_ [g' H]]%Hi]. simpl in *.
      exists put. assert (b = bs) as -> by congruence. exact Hf.
    + apply find_absent in Hf. destruct Hf. exists 0, bs. apply Hi. eauto.
Qed.
Lemma seen_shows s0 grace now obs0 c objects :
  seen s0 grace now obs0 (pass_listing s0) c objects -> shows s0 objects.
Proof.
  intros [_ Hd Ho _ _].
  assert (forall k put bs, In (k, put, bs) objects -> needs_body k = true ->
    exists g, s0 !! k = Some (g, bs)) as Hi.
  { intros k put bs (g & b & ob & Hs & -> & _)%Ho ->. eauto. }
  split; [|exact Hi]. intros k bs Hk. split.
  - intros [put [_ H]%find_inv]. eauto.
  - intros [g Hs]. destruct (pass_listing_complete s0 k g bs Hs) as (e & He & <-).
    { unfold needs_body in Hk. destruct (parse_key k); [eauto|discriminate]. }
    destruct (find objects (lo_key e)) as [[[k' put] b]|] eqn:Hf.
    + destruct (find_inv _ _ _ Hf) as [Hk' Hin]. simpl in Hk'. subst k'.
      destruct (Hi _ _ _ Hin Hk) as [g' H]. exists put. assert (b = bs) as -> by congruence. exact Hf.
    + destruct (find_absent _ _ Hf (Hd e He)).
Qed.

(** ** Deleting what was planned *)
Record swept_store (s0 : Store) (obs1 : gmap string Observation) (dels done : list string)
    (c : StoreCollector) (deleted : Z) : Prop := {
  sw_kept : forall k, ~ In k dels -> w_store (sc_world c) !! k = s0 !! k;
  sw_gone : forall k, In k done -> w_store (sc_world c) !! k = None;
  sw_left : forall k, w_store (sc_world c) !! k = s0 !! k /\ sc_observed c !! k = obs1 !! k
    \/ w_store (sc_world c) !! k = None /\ sc_observed c !! k = None;
  sw_count : Z.of_nat (size (w_store (sc_world c))) + deleted = Z.of_nat (size s0) }.
Lemma delete_quiet s0 obs1 dels done c deleted k g bs ob :
  In k dels -> s0 !! k = Some (g, bs) -> obs1 !! k = Some ob -> ob_generation ob = g ->
  swept_store s0 obs1 dels done c deleted ->
  exists c' n, delete_planned nobody deleted k c = (c', Ok n)
    /\ swept_store s0 obs1 dels (done ++ [k]) c' n.
Proof.
  intros Hin Hs Ho Hg [Hk Hgo Hl Hn]. unfold delete_planned. cbn.
  destruct (Hl k) as [[Hw ->]|[Hw ->]].
  - rewrite Ho. unfold delete_cas, store_call, nobody. rewrite Hw, Hs. cbn.
    rewrite Hg, Z.eqb_refl. cbn. eexists _, _. split; [reflexivity|]. split; cbn.
    + intros x Hx. rewrite lookup_delete_ne by congruence. auto.
    + intros x [Hx|[<-|[]]]%in_app_iff; [|apply lookup_delete_eq].
      destruct (decide (x = k)) as [->|]; [apply lookup_delete_eq|rewrite lookup_delete_ne; auto].
    + intros x. destruct (decide (x = k)) as [->|Hne]; [right; now rewrite !lookup_delete_eq|].
      now rewrite !lookup_delete_ne by auto.
    + rewrite map_size_delete_Some by (rewrite Hw, Hs; eauto).
      assert (size (w_store (sc_world c)) <> 0%nat).
      { intros H0. apply map_size_empty_iff in H0. rewrite H0 in Hw. rewrite lookup_empty in Hw. congruence. }
      lia.
  - eexists _, _. split; [reflexivity|]. split; auto.
    intros x [Hx|[<-|[]]]%in_app_iff; auto.
Qed.

(** What a pass is meant to remove. *)
Definition garbage (grace now : Z) (c : StoreCollector) (k : string) : Prop :=
  let s := w_store (sc_world c) in
  bucket_readable (snapshot s) /\ is_Some (parse_key k) /\ ~ reachable (snapshot s) k
  /\ exists g bs ob, s !! k = Some (g, bs) /\ sc_observed c !! k = Some ob
       /\ ob_generation ob = g /\ grace <= saturating_sub now (ob_first_seen ob).
Lemma planned_garbage s0 grace now obs0 c0 c objects dels : 0 < grace ->
  w_store (sc_world c0) = s0 ->
  obs0 = filter (fun x => x.1 ∈ (list_to_set (map lo_key (pass_listing s0)) : gset string)) (sc_observed c0) ->
  seen s0 grace now obs0 (pass_listing s0) c objects ->
  (~ bucket_readable objects /\ dels = [])
    \/ (bucket_readable objects /\ forall k, In k dels <-> deletes 2 1 objects k) ->
  forall k, In k dels <-> garbage grace now c0 k.
Proof.
  intros Hg Hs0 Hobs Hseen Hplan k. pose proof (seen_shows _ _ _ _ _ _ Hseen) as Hsh.
  pose proof (snapshot_shows s0) as Hsn. unfold garbage. rewrite Hs0.
  destruct Hplan as [[Hr ->]|[Hr Hd]].
  { split; [intros []|]. intros [Hb _]. destruct Hr. eauto using shows_readable. }
  rewrite Hd. unfold deletes. split.
  - intros (put & bs & Hi & Hput & Hnr). split; [eauto using shows_readable|].
    destruct (seen_objects _ _ _ _ _ _ _ Hseen _ _ _ Hi) as (g & b & ob & Hk & _ & Ho & Hgen & Hp).
    destruct Hp as [[-> _]|(_ & Ha & Hage)]; [discriminate Hput|].
    rewrite Hobs in Ha. apply map_lookup_filter_Some in Ha as [Ha Hin]. simpl in Hin.
    apply elem_of_list_to_set, list_elem_of_In, in_map_iff in Hin as (e & Hek & He).
    apply pass_listing_In in He as [Hpk _]. rewrite Hek in Hpk.
    split; [auto|]. split; [intros H; apply Hnr; eauto using shows_reachable|]. eauto 10.
  - intros (_ & Hpk & Hnr & g & bs & ob & Hk & Ho & Hgen & Hage).
    destruct (pass_listing_complete s0 k g bs Hk Hpk) as (e & He & Hek).
    destruct (seen_done _ _ _ _ _ _ _ Hseen e He) as (put & b & Hi). rewrite Hek in Hi.
    exists put, b. split; [auto|].
    split; [|intros H; apply Hnr; eauto using shows_reachable].
    destruct (seen_objects _ _ _ _ _ _ _ Hseen _ _ _ Hi) as (g' & b' & ob' & Hk' & _ & Ho' & _ & Hp).
    destruct Hp as [[-> Hyoung]|[-> _]]; [exfalso|now vm_compute].
    assert (obs0 !! k = Some ob) as H0.
    { rewrite Hobs. apply map_lookup_filter_Some. split; [auto|]. simpl.
      apply elem_of_list_to_set, list_elem_of_In, in_map_iff. eauto. }
    rewrite <- Hgen in Hk. pose proof (seen_stable _ _ _ _ _ _ _ Hseen k ob bs H0 Hk).
    assert (ob' = ob) as -> by congruence. lia.
Qed.

Lemma examine_all s0 grace now obs0 c : 0 < grace -> w_store (sc_world c) = s0 -> sc_observed c = obs0 ->
  exists c' objects, act_fold (examine nobody grace now) [] (pass_listing s0) c = (c', Ok objects)
    /\ seen s0 grace now obs0 (pass_listing s0) c' objects.
Proof.
  intros Hg Hs Ho.
  apply (act_fold_inv (seen s0 grace now obs0) (examine nobody grace now) (pass_listing s0) []).
  - intros done e s acc He Hi. destruct (pass_listing_In _ _ He) as [_ [b Hb]].
    eapply examine_quiet; eauto.
  - split; auto; [intros e []|intros k put bs []|intros; left; congruence|intros; congruence].
Qed.

(** C11. A pass over a store that nobody changes meanwhile removes exactly the
    garbage. It reports success; it deletes every object that was already
    listed at the same generation at least [grace] ago and that no root
    reaches, provided all roots can be read; it leaves every other object as it
    was; and it returns how many objects it removed. *)
Theorem pass_exact (grace now : Z) (c : StoreCollector) :
  0 < grace -> map_Forall (fun _ x => all_bytes x.2) (w_store (sc_world c)) ->
  exists c' n, pass nobody grace now c = (c', Ok n)
    /\ (forall k, garbage grace now c k /\ w_store (sc_world c') !! k = None
          \/ ~ garbage grace now c k /\ w_store (sc_world c') !! k = w_store (sc_world c) !! k)
    /\ n = Z.of_nat (size (w_store (sc_world c))) - Z.of_nat (size (w_store (sc_world c'))).
Proof using CL PL.
  intros Hg Hb. unfold pass. rewrite (proj2 (Z.eqb_neq grace 0)) by lia.
  unfold list_prefix_versioned, act_bind, store_call, nobody. cbn [set_observed act_modify w_store sc_world].
  fold (pass_listing (w_store (sc_world c))).
  set (s0 := w_store (sc_world c)) in *. set (c1 := {| sc_world := _; sc_observed := filter _ _ |}).
  destruct (examine_all s0 grace now (sc_observed c1) c1 Hg eq_refl eq_refl) as (c2 & objects & Hex & Hseen).
  change (act_fold (examine (fun _ s => Some s) grace now)) with (act_fold (examine nobody grace now)).
  rewrite Hex. unfold act_lift.
  destruct (plan_spec (E := StoreFault) 2 1 objects) as (dels & -> & Hplan).
  { apply List.Forall_forall. intros [[k put] bs] Hi.
    destruct (seen_objects _ _ _ _ _ _ _ Hseen _ _ _ Hi) as (g & b & ob & Hk & -> & _). simpl.
    destruct (needs_body k); [exact (Hb _ _ Hk)|constructor]. }
  pose proof (planned_garbage s0 grace now (sc_observed c1) c c2 objects dels Hg eq_refl eq_refl Hseen Hplan) as Hgarb.
  destruct (act_fold_inv (swept_store s0 (sc_observed c2) dels) (delete_planned nobody) dels [] c2 0)
    as (c3 & n & Hrun & Hsw).
  - intros done k cc d Hk Hi.
    destruct Hplan as [[_ ->]|[_ Hd]]; [destruct Hk|]. apply Hd in Hk as Hk'. destruct Hk' as (put & bs & Hin & _).
    destruct (seen_objects _ _ _ _ _ _ _ Hseen _ _ _ Hin) as (g & b & ob & Hs & _ & Ho & Hgen & _).
    eapply delete_quiet; eauto.
  - pose proof (seen_store _ _ _ _ _ _ _ Hseen) as Hs. split; rewrite ?Hs; auto; [intros k []|lia].
  - exists c3, n. split; [exact Hrun|]. destruct Hsw as [Hk Hgone _ Hn]. split; [|lia].
    intros k. rewrite <- Hgarb. destruct (decide (In k dels)) as [Hi|Hi]; [left|right]; auto.
Qed.
End Quiet.
