(* ===== verification/ManifestExamples.v ===== *)
(** * Manifests, computed

    The theorems on manifests, file lists and closures at concrete values. *)

From S2P Require Import Prelude Format Crc32c Types OrdMap Head Blx BlxFile Manifest.
From S2P Require Import ManifestOverlap ManifestCodec ManifestClosure.

#[local] Existing Instance page_4096.
#[local] Existing Instance page_4096_laws.

Definition sample_key (b : Z) : BlockKey := {| bk_space := Space_Data; bk_block := b |}.
Definition sample_object (id batch chunk count first last pre post : Z) : ObjectRef :=
  {| or_identity := {| oi_namespace_kind := Namespace_Volume; oi_namespace_id := 7;
                       oi_writer_fence := 3; oi_object_id := id |};
     or_min_seq := batch; or_max_seq := batch; or_batch_id := batch;
     or_chunk_index := chunk; or_chunk_count := count;
     or_first_key := sample_key first; or_last_key := sample_key last;
     or_pre_state_checksum := pre; or_post_state_checksum := post;
     or_size := 400; or_footer_offset := 200; or_footer_length := 100;
     or_object_checksum := 77 |}.
(** Two batches: the first in two chunks and listed, the second added by the
    manifest over the first. *)
Definition listed_objects : list ObjectRef :=
  [sample_object 1 1 0 2 0 9 0 5; sample_object 2 1 1 2 10 19 0 5].
Definition added_object : ObjectRef := sample_object 3 2 0 1 5 12 5 6.

Definition sample_list : CompleteFileList :=
  {| cfl_volume := 7; cfl_writer_fence := 3; cfl_list_id := 1; cfl_objects := listed_objects |}.
Definition sample_list_bytes : bytes :=
  Eval vm_compute in
    match @CompleteFileList_encode _ _ DecodeError sample_list with Ok bs => bs | _ => [] end.
Definition sample_list_ref : FileListRef :=
  Eval vm_compute in {| fl_writer_fence := 3; fl_list_id := 1; fl_checksum := checksum64 sample_list_bytes |}.
Definition sample_manifest : Manifest :=
  {| m_volume := 7; m_writer_fence := 3; m_journal_seq := 2; m_archive_seq := 4;
     m_capture_seq := 2; m_sync_covered_through := 2; m_recovery_kind := Recovery_Whole;
     m_checkpoint_epoch := 0; m_config := {| vc_kind := VolumeKind_Data; vc_pages := 64 |};
     m_vmstate_logical_length := 0; m_base := None; m_complete_list := Some sample_list_ref;
     m_post_state_checksum := 6; m_metadata_checksum := 0;
     m_added := [added_object]; m_removed := [] |}.
Definition sample_manifest_bytes : bytes :=
  Eval vm_compute in match Manifest_encode sample_manifest with Ok bs => bs | _ => [] end.
Definition sample_files : list ObjectRef := listed_objects ++ [added_object].

Lemma sample_list_encode : @CompleteFileList_encode _ _ DecodeError sample_list = Ok sample_list_bytes.
Proof. vm_compute. reflexivity. Qed.
Lemma sample_manifest_encode : Manifest_encode sample_manifest = Ok sample_manifest_bytes.
Proof. vm_compute. reflexivity. Qed.
Lemma sample_current_files :
  Manifest_current_files sample_manifest (Some sample_list) = Ok sample_files.
Proof. vm_compute. reflexivity. Qed.

Lemma sample_object_ok id batch chunk count first last pre post :
  fits W64 id -> fits W64 batch -> 0 <= chunk < count -> fits W32 count ->
  fits W32 first -> fits W32 last -> cmp_leb (sample_key first) (sample_key last) = true -> fits W64 pre -> fits W64 post ->
  ObjectRef_ok (sample_object id batch chunk count first last pre post).
Proof.
  unfold fits. intros. unfold ObjectRef_ok, ObjectIdentity_ok, BlockKey_ok, fits. simpl.
  repeat split; assumption || lia.
Qed.
Lemma sample_objects_ok : Forall ObjectRef_ok sample_files.
Proof.
  repeat (constructor; [apply sample_object_ok; reflexivity || (unfold fits; lia)|]). constructor.
Qed.
Lemma sample_list_ok : CompleteFileList_ok sample_list.
Proof.
  split; [split; vm_compute; congruence|]. split; [split; vm_compute; congruence|].
  split; [split; vm_compute; congruence|].
  split; [|split; [vm_compute; reflexivity|vm_compute; discriminate]].
  pose proof sample_objects_ok as H. unfold sample_files in H. now apply Forall_app in H as [H _].
Qed.
Lemma sample_manifest_ok : Manifest_ok sample_manifest.
Proof.
  split.
  { unfold prefix_ok, VolumeConfig_ok, FileListRef_ok, fits. simpl. repeat split; lia. }
  split; [|split; [constructor|split; [vm_compute; reflexivity|vm_compute; discriminate]]].
  pose proof sample_objects_ok as H. unfold sample_files in H. now apply Forall_app in H as [_ H].
Qed.

(** ** The theorems at these values *)
Lemma overlap_limit_exact_witness :
  validate_objects sample_files (Some 2) = Ok tt <-> forall k, overlap_at sample_files k <= 2.
Proof.
  apply (overlap_limit_exact sample_files 2).
  - intros o [<-|[<-|[<-|[]]]]; reflexivity.
  - reflexivity.
  - lia.
  - vm_compute. reflexivity.
Defined.

Lemma Manifest_exact_witness :
  ExactFormat Manifest_encode (Manifest_decode 7) (fun m => m_volume m = 7 /\ Manifest_ok m).
Proof. exact (Manifest_exact 7). Defined.

Lemma metadata_formats_bound_witness :
  BoundFormat BaseManifest_encode BaseManifest_root BaseManifest_decode BaseManifest_ok.
Proof. exact (proj1 (proj2 (metadata_formats_bound 7 8))). Defined.

Lemma current_files_meaning_witness :
  In added_object sample_files /\ bt_sorted (by_identity sample_files).
Proof.
  split; [|apply (current_files_meaning _ _ _ sample_current_files)].
  apply (current_files_meaning _ _ _ sample_current_files). left. now left.
Defined.

Lemma bound_manifest_keeps_files_witness :
  exists b, bound_manifest sample_manifest (Some sample_list) 9 = Ok b
    /\ Manifest_current_files (bd_manifest b)
         (match bd_new_complete_list b with Some l' => Some l' | None => Some sample_list end)
       = Ok sample_files.
Proof.
  assert (bound_manifest sample_manifest (Some sample_list) 9
          = Ok {| bd_manifest := sample_manifest; bd_new_complete_list := None |}) as Hb
    by (unfold bound_manifest; rewrite sample_manifest_encode; reflexivity).
  eexists. split; [exact Hb|].
  apply (bound_manifest_keeps_files _ _ _ _ _ Hb sample_current_files).
Defined.

Lemma closure_reads_what_was_published_witness :
  ManifestClosure_decode 7 (Manifest_pointer sample_manifest sample_manifest_bytes)
    sample_manifest_bytes (Some sample_list_bytes)
  = Ok {| mc_manifest := sample_manifest; mc_complete_list := Some sample_list;
          mc_files := sample_files |}.
Proof.
  apply (closure_reads_what_was_published sample_manifest (Some sample_list)
           sample_manifest_bytes (Some sample_list_bytes) sample_files sample_manifest_ok
           (conj eq_refl sample_list_ok) sample_manifest_encode sample_list_encode
           sample_current_files).
Defined.
