(* ===== verification/CollectorExamples.v ===== *)
(** * The collector, computed

    The collection theorems at a concrete bucket, and a pass that races with a
    head update. *)

From stdpp Require Import gmap.
From S2P Require Import Prelude Format Crc32c Types OrdMap Text Head Blx BlxFile Manifest Layout.
From S2P Require Import ManifestCodec ManifestClosure Gc Collector ManifestExamples.

#[local] Open Scope Z_scope.
#[local] Existing Instance page_4096.
#[local] Existing Instance page_4096_laws.

(** A published volume: a head that names the sample manifest, which names a
    file list and three files. *)
Definition sample_ptr : ManifestPtr :=
  Eval vm_compute in {| mp_fence := 3; mp_journal_seq := 2; mp_seq := 4; mp_capture_seq := 2;
                        mp_checksum := checksum64 sample_manifest_bytes |}.
Definition sample_head (holder fence : Z) : HeadRecord :=
  {| head_volume := 7; head_holder := holder; head_fence := fence;
     head_manifest := Some sample_ptr; head_stash := None; head_retired_stashes := [] |}.
Definition head_bytes (h : HeadRecord) : bytes :=
  match @HeadRecord_encode _ DecodeError h with Ok bs => bs | _ => [] end.
Definition old_head_bytes : bytes := Eval vm_compute in head_bytes (sample_head 1 3).
Definition new_head_bytes : bytes := Eval vm_compute in head_bytes (sample_head 2 4).

Definition head_name : string := Eval vm_compute in head_key 7.
Definition manifest_name : string := Eval vm_compute in ManifestPtr_manifest_key sample_ptr 7.
Definition list_name : string := Eval vm_compute in FileListRef_store_key sample_list_ref 7.
Definition file_name (id : Z) : string := blx_key 7 3 id.
Definition file_names : list string := Eval vm_compute in [file_name 1; file_name 2; file_name 3].
Definition orphan_name : string := Eval vm_compute in file_name 9.

Definition sample_store : gmap string (Z * bytes) :=
  list_to_map ([(head_name, (1, old_head_bytes)); (manifest_name, (1, sample_manifest_bytes));
                (list_name, (1, sample_list_bytes)); (orphan_name, (1, [1]))]
               ++ map (fun k => (k, (1, [2]))) file_names).
Definition sample_objects : list Listed :=
  [(head_name, 0, old_head_bytes); (manifest_name, 0, sample_manifest_bytes);
   (list_name, 0, sample_list_bytes); (orphan_name, 0, [1])]
  ++ map (fun k => (k, 0, [2])) file_names.
(** An earlier pass, at time 0, has seen everything at generation 1. *)
Definition sample_collector : StoreCollector :=
  {| sc_world := {| w_store := sample_store; w_calls := 0 |};
     sc_observed := (fun _ => {| ob_generation := 1; ob_first_seen := 0 |}) <$> sample_store |}.

Lemma sample_objects_bytes : Forall (fun o => all_bytes o.2) sample_objects.
Proof. apply (bool_decide_unpack _). vm_compute. exact I. Qed.
Lemma sample_plan : plan (E := Empty_set) 2 1 sample_objects = Ok [orphan_name].
Proof. vm_compute. reflexivity. Qed.

Lemma plan_exact_witness :
  exists dels, plan (E := Empty_set) 2 1 sample_objects = Ok dels
    /\ ((~ bucket_readable sample_objects /\ dels = [])
        \/ (bucket_readable sample_objects /\ forall k, In k dels <->
              exists put bs, In (k, put, bs) sample_objects /\ 1 < saturating_sub 2 put
                /\ ~ reachable sample_objects k)).
Proof. apply (plan_exact 2 1 sample_objects). exact sample_objects_bytes. Defined.
Lemma collection_safe_witness :
  (forall k, reachable sample_objects k ->
     find (swept [orphan_name] sample_objects) k = find sample_objects k
     /\ reachable (swept [orphan_name] sample_objects) k)
  /\ plan (E := Empty_set) 2 1 (swept [orphan_name] sample_objects) = Ok [].
Proof. exact (collection_safe 2 1 sample_objects [orphan_name] sample_objects_bytes sample_plan). Defined.
Lemma pass_exact_witness :
  exists c' n, pass nobody 10 100 sample_collector = (c', Ok n)
    /\ (forall k, garbage 10 100 sample_collector k /\ w_store (sc_world c') !! k = None
          \/ ~ garbage 10 100 sample_collector k
             /\ w_store (sc_world c') !! k = w_store (sc_world sample_collector) !! k)
    /\ n = Z.of_nat (size (w_store (sc_world sample_collector)))
           - Z.of_nat (size (w_store (sc_world c'))).
Proof.
  apply (pass_exact 10 100 sample_collector); [lia|].
  apply (bool_decide_unpack _). vm_compute. exact I.
Defined.

(** Another host takes the volume over between the collector's LIST and its
    read of the head: the head keeps its manifest and changes its holder, its
    fence and so its generation. *)
Definition takeover (n : nat) (s : gmap string (Z * bytes)) : option (gmap string (Z * bytes)) :=
  if (n =? 2)%nat then Some (<[head_name := (2, new_head_bytes)]> s) else Some s.

(** C40. The collector can delete the state of a live volume. The head of the
    volume is rewritten between the LIST and the read of the head, keeping its
    manifest. The pass skips the head because its generation changed, so the
    plan no longer has the root: the manifest, the file list and the files are
    deleted as garbage, while the head still names the manifest. *)
Theorem pass_race_deletes_live_volume :
  exists c' n, pass takeover 10 100 sample_collector = (c', Ok n)
    /\ HeadRecord_decode 7 new_head_bytes = Ok (sample_head 2 4)
    /\ w_store (sc_world c') !! head_name = Some (2, new_head_bytes)
    /\ reachable (snapshot (w_store (sc_world c'))) manifest_name
    /\ Forall (fun k => is_Some (sample_store !! k) /\ w_store (sc_world c') !! k = None)
         ([manifest_name; list_name] ++ file_names).
Proof.
  exists (pass takeover 10 100 sample_collector).1, 6.
  split; [vm_compute; reflexivity|]. split; [vm_compute; reflexivity|].
  assert (w_store (sc_world (pass takeover 10 100 sample_collector).1)
          = {[head_name := (2, new_head_bytes)]}) as -> by (vm_compute; reflexivity).
  split; [vm_compute; reflexivity|]. split.
  - exists (head_name, 0, new_head_bytes). split; [vm_compute; now left|]. left.
    apply (head_names _ head_name 0 new_head_bytes 7 (sample_head 2 4) sample_ptr);
      vm_compute; reflexivity.
  - apply (bool_decide_unpack _). vm_compute. exact I.
Qed.
