(* ===== verification/PageFile.v ===== *)
(** * Page files ([page_file.rs])

    A capture writes the dirty pages of a volume into BLX objects and keeps,
    for each page, the byte range of its entry: the location a later fault
    reads. The theorem [captured_pages_readable] says that every location a
    batch returns yields the page that was captured. *)

From S2P Require Import Prelude Format Types OrdMap Head Blx BlxFile BlxBatch BlxState Manifest.

Record PageFileLoc := {
  pl_base : Z;
  pl_fence : Z;
  pl_object : Z;
  pl_offset : Z;
  pl_len : Z }.
#[export] Instance PageFileLoc_eq_dec : EqDecision PageFileLoc.
Proof. solve_decision. Defined.
Definition PageFileLoc_identity (self : PageFileLoc) (volume : Z) : ObjectIdentity :=
  ObjectIdentity_volume volume (pl_fence self) (pl_object self).

Definition PageFileEntries : Type := list (PageId * Z * PageFileLoc).
Record PageBatchBuilder := {
  pb_kind : VolumeKind;
  pb_volume : Z;
  pb_fence : Z;
  pb_builder : BlxBatchBuilder }.
Inductive ObjectIdOverflow := ObjectIdsOverflow.

Section PageFiles.
Context `{C : Crc} `{L : Lz4} `{P : PageSize}.

Definition PageBatchBuilder_new_with_checksums {E} (kind : VolumeKind)
    (volume fence first_object sequence pre_state_checksum post_state_checksum : Z)
  : outcome E PageBatchBuilder :=
  let meta := {| bm_namespace_kind := Namespace_Volume; bm_namespace_id := volume;
                 bm_writer_fence := fence; bm_first_object_id := first_object;
                 bm_min_seq := sequence; bm_max_seq := sequence; bm_batch_id := sequence;
                 bm_pre_state_checksum := pre_state_checksum;
                 bm_post_state_checksum := post_state_checksum |} in
  let? builder := BlxBatchBuilder_new_partitioned meta in
  Ok {| pb_kind := kind; pb_volume := volume; pb_fence := fence; pb_builder := builder |}.
Definition PageBatchBuilder_new {E} (volume fence first_object : Z) : outcome E PageBatchBuilder :=
  PageBatchBuilder_new_with_checksums VolumeKind_Data volume fence first_object 0 0 0.

Definition with_builder (self : PageBatchBuilder) (builder : BlxBatchBuilder)
  : PageBatchBuilder :=
  {| pb_kind := pb_kind self; pb_volume := pb_volume self; pb_fence := pb_fence self;
     pb_builder := builder |}.
Definition object_ids_result (builder : BlxBatchBuilder) : unit + ObjectIdOverflow :=
  if BlxBatchBuilder_object_ids_fit builder then inl tt else inr ObjectIdsOverflow.

(** The entry stays in the builder when the ids do not fit. *)
Definition PageBatchBuilder_try_add {E} (self : PageBatchBuilder) (page : PageId)
    (generation : Z) (page_bytes : bytes)
  : outcome E (PageBatchBuilder * (unit + ObjectIdOverflow)) :=
  assert! len page_bytes =? page_size in
  assert! pid_volume page =? pb_volume self in
  let? builder := BlxBatchBuilder_add_data (pb_builder self)
                    (BlockKey_from_page (pb_kind self) page) generation page_bytes in
  Ok (with_builder self builder, object_ids_result builder).
Definition PageBatchBuilder_add {E} (self : PageBatchBuilder) (page : PageId)
    (generation : Z) (page_bytes : bytes) : outcome E PageBatchBuilder :=
  let? (self, result) := PageBatchBuilder_try_add self page generation page_bytes in
  match result with inl _ => Ok self | inr _ => Panic end.
Definition PageBatchBuilder_try_add_tombstone {E} (self : PageBatchBuilder) (page : PageId)
    (generation : Z) : outcome E (PageBatchBuilder * (unit + ObjectIdOverflow)) :=
  assert! pid_volume page =? pb_volume self in
  let builder := BlxBatchBuilder_add_tombstone (pb_builder self)
                   (BlockKey_from_page (pb_kind self) page) generation in
  Ok (with_builder self builder, object_ids_result builder).

Definition PageBatchBuilder_add_vmm_snapshot {E} (self : PageBatchBuilder) (generation : Z)
    (bs : bytes) : outcome E PageBatchBuilder :=
  let? blocks := vmm_snapshot_blocks bs in
  let? builder := fold_outcome (fun builder b => BlxBatchBuilder_add_data builder b.1 generation b.2)
                    (pb_builder self) blocks in
  Ok (with_builder self builder).
Definition PageBatchBuilder_add_vmm_block {E} (self : PageBatchBuilder) (block generation : Z)
    (bs : bytes) : outcome E PageBatchBuilder :=
  assert! len bs =? page_size in
  let? builder := BlxBatchBuilder_add_data (pb_builder self)
                    {| bk_space := Space_Vmm; bk_block := block |} generation bs in
  Ok (with_builder self builder).
Definition PageBatchBuilder_add_vmm_tombstone (self : PageBatchBuilder) (block generation : Z)
  : PageBatchBuilder :=
  with_builder self (BlxBatchBuilder_add_tombstone (pb_builder self)
                       {| bk_space := Space_Vmm; bk_block := block |} generation).

Definition is_data (entry : FooterEntry) : bool := bool_decide (fe_kind entry = EntryKind_Data).
Definition entry_loc (fence object : Z) (entry : FooterEntry) : PageFileLoc :=
  {| pl_base := 0; pl_fence := fence; pl_object := object; pl_offset := fe_offset entry;
     pl_len := fe_length entry |}.
Definition finish_row (volume fence object : Z) (entry : FooterEntry)
  : option (PageId * Z * PageFileLoc) :=
  match BlockKey_to_page_id (fe_key entry) volume with
  | Some page => Some (page, fe_generation entry, entry_loc fence object entry)
  | None => None
  end.
Definition PageBatchBuilder_finish {E} (self : PageBatchBuilder)
  : outcome E (list (Z * bytes * PageFileEntries)) :=
  let? objects := BlxBatchBuilder_finish (pb_builder self) in
  Ok (map (fun object =>
        let object_id := bh_object_id (bo_header object) in
        (object_id, bo_bytes object,
         omap (finish_row (pb_volume self) (pb_fence self) object_id)
           (List.filter is_data (bf_entries (bo_footer object))))) objects).

Definition open_entry (volume : Z) (bs : bytes) : outcome DecodeError (PageId * Z * bytes) :=
  let? entry := BlxEntry_open bs in
  match entry with
  | Entry_Data key generation raw =>
      let? page := ok_or (BlockKey_to_page_id key volume) DecodeErr in
      Ok (page, generation, raw)
  | Entry_Tombstone _ _ => Err DecodeErr
  end.

Definition scan_row (volume fence object : Z) (entry : FooterEntry)
  : option (outcome DecodeError (PageId * Z * PageFileLoc)) :=
  match BlockKey_to_page_id (fe_key entry) volume with
  | Some page => Some (Ok (page, fe_generation entry, entry_loc fence object entry))
  | None => if bool_decide (bk_space (fe_key entry) = Space_Vmm) then None
            else Some (Err DecodeErr)
  end.
Definition scan_page_file (bs : bytes) : outcome DecodeError (Z * Z * Z * PageFileEntries) :=
  let? (header, footer) := BlxObject_scan bs in
  if negb (bool_decide (bh_namespace_kind header = Namespace_Volume)) then Err DecodeErr else
  let volume := bh_namespace_id header in
  let fence := bh_writer_fence header in
  let object := bh_object_id header in
  let? entries := collect_outcome id
                    (omap (scan_row volume fence object)
                       (List.filter is_data (bf_entries footer))) in
  Ok (volume, fence, object, entries).
End PageFiles.

(** ** Every captured page can be read back *)
Section Readable.
Context `{CL : CrcLaws} `{LL : Lz4Laws} `{PL : PageSizeLaws}.
Hypothesis small_pages : page_size <= 16 * 1024 * 1024.

Definition PageBatch_ok (b : PageBatchBuilder) : Prop :=
  builder_ok (pb_builder b)
  /\ bm_namespace_kind (bb_meta (pb_builder b)) = Namespace_Volume
  /\ bm_namespace_id (bb_meta (pb_builder b)) = pb_volume b
  /\ bm_writer_fence (bb_meta (pb_builder b)) = pb_fence b.

Lemma object_body_app es es' : object_body (es ++ es') = object_body es ++ object_body es'.
Proof. unfold object_body. now rewrite map_app, concat_app. Qed.
Lemma object_rows_In o es row :
  In row (object_rows o es) <->
  exists pre e post, es = pre ++ e :: post /\ row = entry_row (o + len (object_body pre)) e.
Proof.
  revert o. induction es as [|x es IH]; intros o; simpl.
  { split; [tauto|]. intros ([] & ? & ? & ? & _); discriminate. }
  rewrite IH. split.
  - intros [<-|(pre & e & post & -> & ->)].
    + exists [], x, es. split; [reflexivity|]. f_equal. unfold object_body, len. simpl. lia.
    + exists (x :: pre), e, post. split; [reflexivity|]. f_equal. rewrite object_body_cons, len_app. lia.
  - intros ([|y pre] & e & post & [= -> ->] & ->).
    + left. f_equal. unfold object_body, len. simpl. lia.
    + right. exists pre, e, post. split; [reflexivity|]. f_equal. rewrite object_body_cons, len_app. lia.
Qed.
Lemma object_entry_slice h pre e post :
  slice_get (object_bytes h (pre ++ e :: post)) (HEADER_BYTES + len (object_body pre))
    (HEADER_BYTES + len (object_body pre) + len (entry_frame e)) = Some (entry_frame e).
Proof.
  unfold object_bytes. generalize (encode_trailer (HEADER_BYTES + len (object_body (pre ++ e :: post)))
    (len (footer_frame (object_footer (pre ++ e :: post))))). intros trailer.
  rewrite object_body_app, object_body_cons, !app_assoc_r.
  rewrite (app_assoc (header_frame h)), <- (len_header_frame h), <- len_app. apply slice_get_app.
Qed.

Lemma scan_row_finish v f o e : scan_row v f o e = Ok <$> finish_row v f o e.
Proof.
  unfold scan_row, finish_row. destruct (BlockKey_to_page_id (fe_key e) v) eqn:E; [reflexivity|].
  unfold BlockKey_to_page_id in E. destruct (bk_space (fe_key e)); [discriminate..|reflexivity].
Qed.
Lemma collect_scan_rows v f o rows :
  collect_outcome id (omap (scan_row v f o) rows) = Ok (omap (finish_row v f o) rows).
Proof.
  induction rows as [|e rows IH]; simpl; [reflexivity|]. rewrite scan_row_finish.
  unfold omap in IH. destruct (finish_row v f o e); simpl; now rewrite IH.
Qed.

Lemma omap_In {A B} (f : A -> option B) l y : In y (omap f l) <-> exists x, In x l /\ f x = Some y.
Proof. rewrite <- list_elem_of_In, list_elem_of_omap. now setoid_rewrite list_elem_of_In. Qed.

(** A row of a written file, seen as a location: the entry it came from. *)
Lemma written_row h es volume fence id page generation loc :
  Forall BlxEntry_ok es ->
  In (page, generation, loc)
    (omap (finish_row volume fence id) (List.filter is_data (object_rows HEADER_BYTES es))) ->
  exists key raw, In (Entry_Data key generation raw) es
    /\ BlockKey_to_page_id key volume = Some page
    /\ pl_fence loc = fence /\ pl_object loc = id
    /\ exists frame,
       slice_get (object_bytes h es) (pl_offset loc) (pl_offset loc + pl_len loc) = Some frame
       /\ open_entry volume frame = Ok (page, generation, raw).
Proof using CL LL PL small_pages.
  intros Hok (row & Hrow & Hf)%omap_In. apply List.filter_In in Hrow as [Hrow Hd].
  apply object_rows_In in Hrow as (pre & e & post & -> & ->).
  apply bool_decide_eq_true in Hd. unfold finish_row in Hf. cbn [fe_key entry_row] in Hf.
  destruct (BlockKey_to_page_id (BlxEntry_key e) volume) as [pg|] eqn:Ep; [|discriminate].
  injection Hf as <- <- <-. apply Forall_app in Hok as [_ Hok]. inversion Hok as [|? ? He _]; subst.
  destruct e as [key generation raw|key generation]; [|discriminate].
  exists key, raw. simpl in Ep. split; [apply in_app_iff; right; now left|].
  repeat split; auto. exists (entry_frame (Entry_Data key generation raw)).
  split; [apply object_entry_slice|]. unfold open_entry.
  rewrite BlxEntry_open_frame by assumption. cbn [outcome_bind]. now rewrite Ep.
Qed.
Lemma written_row_complete es volume fence id key generation raw page :
  In (Entry_Data key generation raw) es -> BlockKey_to_page_id key volume = Some page ->
  exists loc, In (page, generation, loc)
    (omap (finish_row volume fence id) (List.filter is_data (object_rows HEADER_BYTES es))).
Proof.
  intros (pre & post & ->)%in_split Hp. eexists. apply omap_In.
  eexists. split; [apply List.filter_In; split; [apply object_rows_In; eauto|reflexivity]|].
  unfold finish_row. simpl. now rewrite Hp.
Qed.

Lemma finish_files b files f :
  PageBatch_ok b -> @PageBatchBuilder_finish _ _ _ DecodeError b = Ok files -> In f files ->
  exists id index count es,
    file_holds (chunk_object (bb_meta (pb_builder b)) id index count es) es
    /\ In es (builder_chunks (pb_builder b))
    /\ f = (id, bo_bytes (chunk_object (bb_meta (pb_builder b)) id index count es),
            omap (finish_row (pb_volume b) (pb_fence b) id)
              (List.filter is_data (object_rows HEADER_BYTES es))).
Proof using C LL PL small_pages.
  intros (Hb & _) (objects & Ho & [= <-])%outcome_bind_Ok Hf.
  destruct (finish_holds small_pages _ _ Hb Ho) as [-> Hh].
  apply in_map_iff in Hf as (o & <- & Hin). apply list_elem_of_In, list_elem_of_lookup in Hin as [n Hn].
  pose proof (chunk_objects_nth _ _ _ _ _ _ Hn) as (es & Hes & ->).
  pose proof (Forall2_lookup_lr _ _ _ _ _ _ Hh Hn Hes) as Hfe.
  eexists _, _, _, es. split; [exact Hfe|]. split; [|reflexivity].
  apply list_elem_of_In, list_elem_of_lookup. eauto.
Qed.

Lemma builder_chunks_get b es key e :
  builder_ok b -> In es (builder_chunks b) -> In e es -> BlxEntry_key e = key ->
  bt_get key (bb_entries b) = Some e.
Proof using C LL PL small_pages.
  intros Hb Hes He <-. destruct (builder_chunks_good small_pages b Hb) as (Hcat & _).
  destruct Hb as (_ & [Hs Hf] & _). apply In_bt_get; [exact Hs|].
  assert (In e (bt_values (bb_entries b))) as Hin
    by (rewrite <- Hcat; apply in_concat; eauto).
  apply in_map_iff in Hin as ([k e'] & <- & Hin). rewrite List.Forall_forall in Hf.
  destruct (Hf _ Hin) as [Hk _]. simpl in *. now rewrite <- Hk.
Qed.
Lemma builder_get_chunks b key e :
  builder_ok b -> bt_get key (bb_entries b) = Some e ->
  exists es, In es (builder_chunks b) /\ In e es.
Proof using C LL PL small_pages.
  intros Hb Hg. destruct (builder_chunks_good small_pages b Hb) as (Hcat & _).
  apply in_concat. rewrite Hcat. apply bt_get_In in Hg. apply (in_map snd) in Hg. exact Hg.
Qed.
Lemma finish_chunk b files es :
  PageBatch_ok b -> @PageBatchBuilder_finish _ _ _ DecodeError b = Ok files ->
  In es (builder_chunks (pb_builder b)) ->
  exists id bs, In (id, bs, omap (finish_row (pb_volume b) (pb_fence b) id)
                     (List.filter is_data (object_rows HEADER_BYTES es))) files.
Proof using C LL PL small_pages.
  intros (Hb & _) (objects & Ho & [= <-])%outcome_bind_Ok Hes.
  destruct (finish_holds small_pages _ _ Hb Ho) as [-> Hh].
  apply list_elem_of_In, list_elem_of_lookup in Hes as [n Hn].
  destruct (Forall2_lookup_r _ _ _ _ _ Hh Hn) as (o & Hon & _).
  destruct (chunk_objects_nth _ _ _ _ _ _ Hon) as (es' & Hes' & ->). rewrite Hn in Hes'.
  injection Hes' as <-. eexists _, _.
  apply (in_map_iff _ _ (_, _, _)). eexists.
  split; [|apply list_elem_of_In, list_elem_of_lookup; exists n; exact Hon]. reflexivity.
Qed.

(** C16. Every captured page can be read back from the location the batch
    returned for it. If [finish] returns files, each one scans to exactly the
    entries returned with it; reading any returned byte range and opening it,
    as a fault does, gives that page, its generation and the bytes in the
    builder; and every page of the builder has such a location. *)
Theorem captured_pages_readable b files :
  PageBatch_ok b -> @PageBatchBuilder_finish _ _ _ DecodeError b = Ok files ->
  (forall id bs entries, In (id, bs, entries) files ->
     scan_page_file bs = Ok (pb_volume b, pb_fence b, id, entries)
     /\ forall page generation loc, In (page, generation, loc) entries ->
          PageFileLoc_identity loc (pb_volume b)
          = ObjectIdentity_volume (pb_volume b) (pb_fence b) id
          /\ exists key raw frame,
            slice_get bs (pl_offset loc) (pl_offset loc + pl_len loc) = Some frame
            /\ open_entry (pb_volume b) frame = Ok (page, generation, raw)
            /\ BlockKey_to_page_id key (pb_volume b) = Some page
            /\ bt_get key (bb_entries (pb_builder b)) = Some (Entry_Data key generation raw))
  /\ forall key generation raw page,
       bt_get key (bb_entries (pb_builder b)) = Some (Entry_Data key generation raw) ->
       BlockKey_to_page_id key (pb_volume b) = Some page ->
       exists id bs entries loc, In (id, bs, entries) files /\ In (page, generation, loc) entries.
Proof using CL LL PL small_pages.
  intros Hb Hfin. pose proof Hb as (Hbb & Hk & Hn & Hw). split.
  - intros id bs entries Hin.
    destruct (finish_files b files _ Hb Hfin Hin) as (id' & index & count & es & Hfe & Hes & [= -> -> ->]).
    destruct (file_holds_scan small_pages _ _ Hfe) as [Hscan _]. split.
    + unfold scan_page_file. unfold chunk_object in Hscan. cbn [bo_bytes bo_header] in Hscan.
      rewrite Hscan. cbn [outcome_bind]. unfold chunk_header, object_header. cbn [bh_namespace_kind bh_namespace_id bh_writer_fence
        bh_object_id]. rewrite Hk, Hn, Hw. rewrite bool_decide_eq_true_2 by reflexivity.
      cbn [negb bf_entries object_footer]. rewrite collect_scan_rows. reflexivity.
    + intros page generation loc Hrow. apply (written_row (chunk_header (bb_meta (pb_builder b)) id' index count es))
        in Hrow as (key & raw & He & Hp & Hlf & Hlo & frame & Hs & Ho).
      2:{ destruct (builder_chunks_good small_pages _ Hbb) as (_ & Hg & _).
          rewrite List.Forall_forall in Hg. apply (Hg es Hes). }
      split; [unfold PageFileLoc_identity; now rewrite Hlf, Hlo|].
      exists key, raw, frame. repeat split; auto. now apply (builder_chunks_get _ es _ _ Hbb Hes He).
  - intros key generation raw page Hg Hp.
    destruct (builder_get_chunks _ _ _ Hbb Hg) as (es & Hes & He).
    destruct (finish_chunk b files es Hb Hfin Hes) as (id & bs & Hf).
    destruct (written_row_complete es (pb_volume b) (pb_fence b) id _ _ _ _ He Hp) as [loc Hloc].
    eexists id, bs, _, loc. split; [exact Hf|exact Hloc].
Qed.

Lemma insert_ok b e :
  builder_ok b -> BlxEntry_ok e -> len (bb_entries b) + 1 < W32 ->
  builder_ok (BlxBatchBuilder_insert b e).
Proof using Type.
  intros (Hm & Hk & Hl) He Hlt. split; [exact Hm|]. split; [now apply keep_newest_ok|].
  pose proof (keep_newest_len [e] (bb_entries b)) as Hn. simpl in *. rewrite len_cons, len_nil in Hn. lia.
Qed.
Lemma page_key_ok kind page : fits W32 (pid_page page) -> BlockKey_ok (BlockKey_from_page kind page).
Proof. unfold BlockKey_ok. now destruct kind. Qed.
Lemma object_ids_result_spec builder :
  builder_ok builder ->
  object_ids_result builder = inl tt
  <-> exists files, @BlxBatchBuilder_finish _ _ _ DecodeError builder = Ok files.
Proof using LL PL small_pages.
  intros Hb. unfold object_ids_result. rewrite (finish_run small_pages) by exact Hb.
  destruct (BlxBatchBuilder_object_ids_fit builder); [intuition eauto|].
  split; [discriminate|]. intros [files Hf]. discriminate.
Qed.

(** Adding a page reports an id overflow exactly when finishing the batch
    would panic: for a page of the volume, [try_add] keeps the batch well
    formed, holds the newest generation of the page, leaves every other block
    as it was, and answers [Ok] if and only if [finish] then returns files. *)
Lemma try_add_reports_overflow b page generation raw :
  PageBatch_ok b -> pid_volume page = pb_volume b -> fits W32 (pid_page page) ->
  fits W64 generation -> all_bytes raw -> len raw = page_size ->
  len (bb_entries (pb_builder b)) + 1 < W32 ->
  exists b' result,
    @PageBatchBuilder_try_add _ _ DecodeError b page generation raw = Ok (b', result)
    /\ PageBatch_ok b'
    /\ bb_entries (pb_builder b')
       = keep_newest (bb_entries (pb_builder b))
           (Entry_Data (BlockKey_from_page (pb_kind b) page) generation raw)
    /\ (result = inl tt
        <-> exists files, @PageBatchBuilder_finish _ _ _ DecodeError b' = Ok files).
Proof using LL PL small_pages.
  intros (Hb & Hk & Hn & Hw) Hv Hp Hg Hraw Hlen Hcount.
  unfold PageBatchBuilder_try_add, BlxBatchBuilder_add_data.
  rewrite Hlen, Z.eqb_refl, Hv, Z.eqb_refl. cbn [outcome_bind].
  set (e := Entry_Data _ _ _).
  assert (builder_ok (BlxBatchBuilder_insert (pb_builder b) e)) as Hok.
  { apply insert_ok; auto. split; [now apply page_key_ok|]. split; [exact Hg|]. split; assumption. }
  eexists _, _. split; [reflexivity|].
  split; [split; [exact Hok|auto]|]. split; [reflexivity|]. rewrite object_ids_result_spec by exact Hok.
  unfold PageBatchBuilder_finish. cbn [pb_builder with_builder].
  destruct (BlxBatchBuilder_finish (BlxBatchBuilder_insert (pb_builder b) e)) as [fs| |];
    cbn [outcome_bind]; split; intros [x Hx]; try discriminate; eauto.
Qed.
End Readable.
