(* ===== verification/Journal.v ===== *)
(** * Journal records ([journal.rs])

    One framed record per consistency point of a volume, and the migration
    form of a record, which carries the source's page lookup, block checksums
    and archive closure in a second frame. *)

From S2P Require Import Prelude Format Types OrdMap Head Blx BlxFile Manifest ManifestCodec.
From S2P Require Import PageFile.

Definition MAGIC_JOURNAL : Z := magic 66 74 82 49. (* BJR1 *)
Definition MAGIC_MIGRATION_INDEX : Z := magic 66 77 73 88. (* BMIX *)

Abbreviation MigrationBlockChecksums := (BTreeMap BlockKey (Z * Z)).
Record MigrationArchiveClosure := {
  mac_objects : list ObjectRef;
  mac_base : option BaseRef }.
Definition MigrationArchiveClosure_default : MigrationArchiveClosure :=
  {| mac_objects := []; mac_base := None |}.

Inductive RecordKind :=
| Kind_Commit
| Kind_Checkpoint (epoch vmstate vmstate_logical_length : Z).
Record MigrationSource := {
  ms_host : Z;
  ms_offer_fence : option Z }.
Record JournalRecord := {
  jr_config : VolumeConfig;
  jr_seq : Z;
  jr_fence : Z;
  jr_kind : RecordKind;
  jr_capture_seq : Z;
  jr_sync_covered_through : Z;
  jr_post_state_checksum : Z;
  jr_files : list ObjectRef;
  jr_runtime_page_index : BTreeMap PageId (Z * PageFileLoc);
  jr_migrated_from : option MigrationSource }.

Definition JournalRecord_commit_info (self : JournalRecord) : ReplicaCommitInfo :=
  {| rci_writer_fence := jr_fence self; rci_seq := jr_seq self;
     rci_sync_covered_through := jr_sync_covered_through self |}.
Definition JournalRecord_with_index (r : JournalRecord)
    (index : BTreeMap PageId (Z * PageFileLoc)) : JournalRecord :=
  {| jr_config := jr_config r; jr_seq := jr_seq r; jr_fence := jr_fence r;
     jr_kind := jr_kind r; jr_capture_seq := jr_capture_seq r;
     jr_sync_covered_through := jr_sync_covered_through r;
     jr_post_state_checksum := jr_post_state_checksum r; jr_files := jr_files r;
     jr_runtime_page_index := index; jr_migrated_from := jr_migrated_from r |}.

Section Records.
Context `{C : Crc} `{P : PageSize}.

Definition is_checkpoint (kind : RecordKind) : bool :=
  match kind with Kind_Checkpoint _ _ _ => true | Kind_Commit => false end.
Definition encode_kind (kind : RecordKind) (e : Enc) : Enc :=
  match kind with
  | Kind_Commit => e |> Enc_u8 0 |> Enc_u64 0 |> Enc_u64 0 |> Enc_u64 0
  | Kind_Checkpoint epoch vmstate vmstate_logical_length =>
      e |> Enc_u8 1 |> Enc_u64 epoch |> Enc_u64 vmstate |> Enc_u64 vmstate_logical_length
  end.
Definition encode_source (migrated_from : option MigrationSource) (e : Enc) : Enc :=
  let e := Enc_option (fun source e => Enc_u32 (ms_host source) e) migrated_from e in
  match match migrated_from with Some source => ms_offer_fence source | None => None end with
  | None => e |> Enc_u8 0 |> Enc_u64 0
  | Some fence => e |> Enc_u8 1 |> Enc_u64 fence
  end.
Definition JournalRecord_payload (self : JournalRecord) (volume : Z) : bytes :=
  Enc_new |> Enc_u16 8
    |> Enc_u32 page_size
    |> Enc_u64 volume
    |> Enc_u64 (jr_seq self)
    |> Enc_u64 (jr_fence self)
    |> encode_kind (jr_kind self)
    |> Enc_u64 (jr_capture_seq self)
    |> Enc_u64 (jr_sync_covered_through self)
    |> Enc_u64 (jr_post_state_checksum self)
    |> encode_source (jr_migrated_from self)
    |> Enc_u8 (VolumeKind_u8 (vc_kind (jr_config self)))
    |> Enc_u32 (vc_pages (jr_config self))
    |> Enc_u8 2
    |> Enc_u32 (len (jr_files self))
    |> Enc_each ObjectRef_encode_into (jr_files self)
    |> Enc_finish.
Definition JournalRecord_encode {E} (self : JournalRecord) (volume : Z) : outcome E bytes :=
  assert! VolumeConfig_valid (jr_config self) in
  assert! negb (is_checkpoint (jr_kind self)) || VolumeConfig_is_memory (jr_config self) in
  assert! page_size <? W32 in
  assert! len (jr_files self) <? W32 in
  seal_frame MAGIC_JOURNAL (JournalRecord_payload self volume).

Definition decode_kind : dec RecordKind :=
  let* kind_tag := Dec_u8 in
  let* epoch := Dec_u64 in
  let* vmstate := Dec_u64 in
  let* vmstate_logical_length := Dec_u64 in
  if (kind_tag =? 0) && (epoch =? 0) && (vmstate =? 0) && (vmstate_logical_length =? 0)
  then dec_ret Kind_Commit
  else if kind_tag =? 1 then dec_ret (Kind_Checkpoint epoch vmstate vmstate_logical_length)
  else dec_fail.
Definition decode_source : dec (option MigrationSource) :=
  let* migrated_host := Dec_option Dec_u32 in
  let* tag := Dec_u8 in
  let* fence := Dec_u64 in
  let* offered_fence :=
    (if (tag =? 0) && (fence =? 0) then dec_ret None
     else if tag =? 1 then dec_ret (Some fence) else dec_fail) in
  match migrated_host, offered_fence with
  | None, Some _ => dec_fail
  | None, None => dec_ret None
  | Some host, offer_fence => dec_ret (Some {| ms_host := host; ms_offer_fence := offer_fence |})
  end.
Definition decode_volume_kind (k : Z) : outcome DecodeError VolumeKind :=
  if k =? 0 then Ok VolumeKind_Memory else if k =? 1 then Ok VolumeKind_Data else Err DecodeErr.
Definition JournalRecord_decode_payload (volume : Z) : dec JournalRecord :=
  let* version := Dec_u16 in
  if negb (version =? 8) then dec_fail else
  let* size := Dec_u32 in
  if negb (size =? page_size) then dec_fail else
  let* v := Dec_u64 in
  if negb (v =? volume) then dec_fail else
  let* seq := Dec_u64 in
  let* fence := Dec_u64 in
  let* kind := decode_kind in
  let* capture_seq := Dec_u64 in
  let* sync_covered_through := Dec_u64 in
  let* post_state_checksum := Dec_u64 in
  let* migrated_from := decode_source in
  let* k := Dec_u8 in
  let* volume_kind := dec_lift (decode_volume_kind k) in
  let* pages := Dec_u32 in
  let config := {| vc_kind := volume_kind; vc_pages := pages |} in
  let* durability_tag := Dec_u8 in
  if negb (durability_tag =? 2) then dec_fail else
  if negb (VolumeConfig_valid config) then dec_fail else
  if is_checkpoint kind && negb (VolumeConfig_is_memory config) then dec_fail else
  let* file_count := Dec_u32 in
  let* files := dec_repeat (Z.to_nat file_count) ObjectRef_decode_from in
  let* _ := Dec_finish in
  let* _ := dec_lift (validate_journal_object_refs files) in
  dec_ret {| jr_config := config; jr_seq := seq; jr_fence := fence; jr_kind := kind;
             jr_capture_seq := capture_seq; jr_sync_covered_through := sync_covered_through;
             jr_post_state_checksum := post_state_checksum; jr_files := files;
             jr_runtime_page_index := []; jr_migrated_from := migrated_from |}.
Definition JournalRecord_decode (volume : Z) (bs : bytes) : outcome DecodeError JournalRecord :=
  let? payload := open_frame MAGIC_JOURNAL bs in
  Dec_run (JournalRecord_decode_payload volume) payload.

(** ** The migration form *)
Definition encode_index_page (x : PageId * (Z * PageFileLoc)) (e : Enc) : Enc :=
  let '(page, (generation, loc)) := x in
  e |> Enc_u32 (pid_page page) |> Enc_u64 generation |> Enc_u64 (pl_base loc)
    |> Enc_u64 (pl_fence loc) |> Enc_u64 (pl_object loc) |> Enc_u32 (pl_offset loc)
    |> Enc_u32 (pl_len loc).
Definition encode_block_checksum (x : BlockKey * (Z * Z)) (e : Enc) : Enc :=
  let '(key, (generation, checksum)) := x in
  e |> Enc_u8 (BlockSpace_u8 (bk_space key)) |> Enc_u32 (bk_block key) |> Enc_u64 generation
    |> Enc_u64 checksum.
Definition migration_index_payload (self : JournalRecord)
    (block_checksums : MigrationBlockChecksums) (archive : MigrationArchiveClosure) : bytes :=
  Enc_new |> Enc_u32 (len (jr_runtime_page_index self))
    |> Enc_each encode_index_page (jr_runtime_page_index self)
    |> Enc_u32 (len block_checksums)
    |> Enc_each encode_block_checksum block_checksums
    |> Enc_u32 (len (mac_objects archive))
    |> Enc_each ObjectRef_encode_into (mac_objects archive)
    |> encode_base_ref (mac_base archive)
    |> Enc_finish.
Definition JournalRecord_encode_migration_state {E} (self : JournalRecord) (volume : Z)
    (block_checksums : MigrationBlockChecksums) (archive : MigrationArchiveClosure)
  : outcome E bytes :=
  let? durable := JournalRecord_encode self volume in
  assert! len (jr_runtime_page_index self) <? W32 in
  assert! len block_checksums <? W32 in
  assert! len (mac_objects archive) <? W32 in
  let? index := seal_frame MAGIC_MIGRATION_INDEX
                  (migration_index_payload self block_checksums archive) in
  assert! len durable <? W64 in
  Ok (to_le 8 (len durable) ++ durable ++ index).
Definition JournalRecord_encode_migration_with_checksums {E} (self : JournalRecord) (volume : Z)
    (block_checksums : MigrationBlockChecksums) : outcome E bytes :=
  JournalRecord_encode_migration_state self volume block_checksums
    MigrationArchiveClosure_default.
Definition JournalRecord_encode_migration {E} (self : JournalRecord) (volume : Z)
  : outcome E bytes :=
  JournalRecord_encode_migration_with_checksums self volume [].

(** One round of the loop that reads the page index: the page must be one of
    the volume and new to the map. *)
Definition decode_index_page (config : VolumeConfig) (volume : Z)
    (index : BTreeMap PageId (Z * PageFileLoc)) : dec (BTreeMap PageId (Z * PageFileLoc)) :=
  let* page_no := Dec_u32 in
  let* generation := Dec_u64 in
  let* base := Dec_u64 in
  let* fence := Dec_u64 in
  let* object := Dec_u64 in
  let* offset := Dec_u32 in
  let* length := Dec_u32 in
  let loc := {| pl_base := base; pl_fence := fence; pl_object := object;
                pl_offset := offset; pl_len := length |} in
  let page := {| pid_volume := volume; pid_page := page_no |} in
  if negb (VolumeConfig_contains config page) then dec_fail else
  if bt_contains page index then dec_fail else
  dec_ret (bt_insert page (generation, loc) index).
Definition block_in_volume (config : VolumeConfig) (key : BlockKey) : bool :=
  match bk_space key with
  | Space_Memory =>
      bool_decide (vc_kind config = VolumeKind_Memory) && (bk_block key <? vc_pages config)
  | Space_Vmm => bool_decide (vc_kind config = VolumeKind_Memory)
  | Space_Data =>
      bool_decide (vc_kind config = VolumeKind_Data) && (bk_block key <? vc_pages config)
  end.
Definition decode_block_checksum (config : VolumeConfig) (checksums : MigrationBlockChecksums)
  : dec MigrationBlockChecksums :=
  let* s := Dec_u8 in
  let* space := dec_lift (BlockSpace_decode s) in
  let* block := Dec_u32 in
  let key := {| bk_space := space; bk_block := block |} in
  let* generation := Dec_u64 in
  let* checksum := Dec_u64 in
  if negb (block_in_volume config key) || bt_contains key checksums then dec_fail else
  dec_ret (bt_insert key (generation, checksum) checksums).
Fixpoint dec_iter {A} (n : nat) (step : A -> dec A) (acc : A) : dec A :=
  match n with
  | O => dec_ret acc
  | S n => let* acc := step acc in dec_iter n step acc
  end.
Definition decode_migration_archive : dec MigrationArchiveClosure :=
  let* archive_count := Dec_u32 in
  let* objects := dec_repeat (Z.to_nat archive_count) ObjectRef_decode_from in
  let* _ := dec_lift (validate_object_refs objects) in
  let* base := decode_base_ref in
  dec_ret {| mac_objects := objects; mac_base := base |}.
Definition decode_migration_index (config : VolumeConfig) (volume : Z)
  : dec (BTreeMap PageId (Z * PageFileLoc) * MigrationBlockChecksums * MigrationArchiveClosure) :=
  let* count := Dec_u32 in
  let* runtime_page_index := dec_iter (Z.to_nat count) (decode_index_page config volume) [] in
  let* checksum_count := Dec_u32 in
  let* block_checksums := dec_iter (Z.to_nat checksum_count) (decode_block_checksum config) [] in
  let* archive := decode_migration_archive in
  let* _ := Dec_finish in
  dec_ret (runtime_page_index, block_checksums, archive).
Definition JournalRecord_decode_migration_state (volume : Z) (bs : bytes)
  : outcome DecodeError (JournalRecord * MigrationBlockChecksums * MigrationArchiveClosure) :=
  let? prefix := ok_or (slice_get bs 0 8) DecodeErr in
  let durable_len := from_le prefix in
  let? durable_end := ok_or (checked_add W64 8 durable_len) DecodeErr in
  let? durable := ok_or (slice_get bs 8 durable_end) DecodeErr in
  let? record := JournalRecord_decode volume durable in
  let? frame := ok_or (slice_get bs durable_end (len bs)) DecodeErr in
  let? payload := open_frame MAGIC_MIGRATION_INDEX frame in
  let? (index, block_checksums, archive) :=
    Dec_run (decode_migration_index (jr_config record) volume) payload in
  Ok (JournalRecord_with_index record index, block_checksums, archive).
Definition JournalRecord_decode_migration_with_checksums (volume : Z) (bs : bytes)
  : outcome DecodeError (JournalRecord * MigrationBlockChecksums) :=
  let? (record, checksums, _) := JournalRecord_decode_migration_state volume bs in
  Ok (record, checksums).
End Records.
