(* ===== verification/JournalFormat.v ===== *)
(** * Journal records as exact formats

    The record of [journal.rs] is an exact format, and its migration form
    brings the whole migration state to the destination. *)

From S2P Require Import Prelude Format Types OrdMap Head Blx BlxFile Manifest ManifestCodec.
From S2P Require Import PageFile Journal.

(** ** Parts *)
Definition kind_bytes (k : RecordKind) : bytes := encode_kind k [].
Definition source_bytes (s : option MigrationSource) : bytes := encode_source s [].
Definition RecordKind_ok (k : RecordKind) : Prop :=
  match k with
  | Kind_Commit => True
  | Kind_Checkpoint epoch vmstate length => fits W64 epoch /\ fits W64 vmstate /\ fits W64 length
  end.
Definition MigrationSource_ok (s : MigrationSource) : Prop :=
  fits W32 (ms_host s) /\ option_ok (fits W64) (ms_offer_fence s).

Lemma kind_appends k e : encode_kind k e = e ++ kind_bytes k.
Proof. unfold kind_bytes, encode_kind. destruct k; enc_norm; reflexivity. Qed.
Lemma source_appends s e : encode_source s e = e ++ source_bytes s.
Proof.
  unfold source_bytes, encode_source. destruct s as [[h [f|]]|]; simpl; enc_norm; reflexivity.
Qed.
#[export] Hint Rewrite kind_appends source_appends : enc.
Lemma kind_bytes_bytes k : all_bytes (kind_bytes k).
Proof. unfold kind_bytes, encode_kind. destruct k; enc_norm; auto 10 with bytes. Qed.
Lemma source_bytes_bytes s : all_bytes (source_bytes s).
Proof.
  unfold source_bytes, encode_source. destruct s as [[h [f|]]|]; simpl; enc_norm; auto 10 with bytes.
Qed.
#[export] Hint Resolve kind_bytes_bytes source_bytes_bytes : bytes.

#[export] Instance kind_codec : Codec decode_kind kind_bytes RecordKind_ok.
Proof.
  split.
  - intros [|ep vm ln] Hx; unfold kind_bytes, encode_kind, decode_kind; simpl in *; enc_norm.
    + reads_tac. apply reads_ret.
    + destruct Hx as (?&?&?). reads_tac. apply reads_ret.
  - intros bs k rest Hb H. unfold decode_kind in H. do 8 dec_inv_step.
    destruct (_ && _) eqn:E0; [|destruct (Z.eqb_spec x 1) as [->|]; [|discriminate]];
      injection H as <- <-; unfold kind_bytes, encode_kind; enc_norm; [|split; [reflexivity|simpl; auto]].
    rewrite !andb_true_iff, !Z.eqb_eq in E0. destruct E0 as [[[-> ->] ->] ->].
    split; [reflexivity|exact I].
  - unfold decode_kind. total.
  - auto with bytes.
Qed.
#[export] Instance source_codec :
  Codec decode_source source_bytes (option_ok MigrationSource_ok).
Proof.
  split.
  - intros s Hx. unfold source_bytes, encode_source, decode_source.
    destruct s as [[h [f|]]|]; simpl in *; [destruct Hx as [? Hf]; simpl in *|destruct Hx; simpl in *|];
      enc_norm.
    + change (1 :: to_le 4 h ++ 1 :: to_le 8 f) with ((1 :: to_le 4 h) ++ [1] ++ to_le 8 f).
      eapply reads_bind; [apply (codec_reads (Codec := codec_option _ _ _ codec_u32) (Some h)); assumption|].
      reads_tac; apply reads_ret.
    + change (1 :: to_le 4 h ++ 0 :: to_le 8 0) with ((1 :: to_le 4 h) ++ [0] ++ to_le 8 0).
      eapply reads_bind; [apply (codec_reads (Codec := codec_option _ _ _ codec_u32) (Some h)); assumption|].
      reads_tac; apply reads_ret.
    + change (0 :: 0 :: to_le 8 0) with ([0] ++ [0] ++ to_le 8 0).
      eapply reads_bind; [exact (codec_reads (Codec := codec_option _ _ _ codec_u32) None I)|].
      reads_tac; apply reads_ret.
  - intros bs s rest Hb H. unfold decode_source in H. do 7 dec_inv_step.
    assert (r2 = r1 /\ ((x2 = None /\ x0 = 0 /\ x1 = 0) \/ (x2 = Some x1 /\ x0 = 1))) as [-> Ho].
    { destruct ((x0 =? 0) && (x1 =? 0)) eqn:E0.
      - rewrite andb_true_iff, !Z.eqb_eq in E0. injection Hd2 as <- <-. tauto.
      - destruct (Z.eqb_spec x0 1); [|discriminate]. injection Hd2 as <- <-. tauto. }
    destruct x as [h|], Ho as [(-> & -> & ->)|[-> ->]]; try discriminate;
      injection H as <- <-; unfold source_bytes, encode_source, MigrationSource_ok; simpl; enc_norm;
      simpl; rewrite ?app_assoc_r; simpl; rewrite ?app_assoc_r; auto.
  - unfold decode_source. total.
  - auto with bytes.
Qed.
#[global] Opaque kind_bytes source_bytes.

Lemma decode_volume_kind_u8 k : decode_volume_kind (VolumeKind_u8 k) = Ok k.
Proof. now destruct k. Qed.
Lemma decode_volume_kind_inv v k : decode_volume_kind v = Ok k -> v = VolumeKind_u8 k.
Proof. unfold decode_volume_kind. enum_cases. Qed.
Lemma decode_volume_kind_total v : no_panic (decode_volume_kind v).
Proof. unfold decode_volume_kind. no_panic. Qed.
#[export] Hint Resolve decode_volume_kind_u8 : reads.
#[export] Hint Resolve decode_volume_kind_total : panics.

Lemma validate_journal_object_refs_total `{PageSize} os : no_panic (validate_journal_object_refs os).
Proof. apply validate_objects_total. Qed.
Lemma validate_object_refs_total `{PageSize} os : no_panic (validate_object_refs os).
Proof. apply validate_objects_total. Qed.
#[export] Hint Resolve validate_journal_object_refs_total validate_object_refs_total : panics.

(** ** Records *)
Section Format.
Context `{C : Crc} `{CL : !CrcLaws C} `{P : PageSize} `{PL : !PageSizeLaws P}.

Definition JournalRecord_fields (r : JournalRecord) : Prop :=
  fits W64 (jr_seq r) /\ fits W64 (jr_fence r) /\ RecordKind_ok (jr_kind r)
  /\ fits W64 (jr_capture_seq r) /\ fits W64 (jr_sync_covered_through r)
  /\ fits W64 (jr_post_state_checksum r) /\ option_ok MigrationSource_ok (jr_migrated_from r)
  /\ fits W32 (vc_pages (jr_config r)) /\ Forall ObjectRef_ok (jr_files r)
  /\ len (jr_files r) < W32
  /\ VolumeConfig_valid (jr_config r) = true
  /\ negb (is_checkpoint (jr_kind r)) || VolumeConfig_is_memory (jr_config r) = true
  /\ validate_journal_object_refs (jr_files r) = Ok tt.

Lemma JournalRecord_payload_eq r volume :
  JournalRecord_payload r volume =
    to_le 2 8 ++ to_le 4 page_size ++ to_le 8 volume ++ to_le 8 (jr_seq r) ++ to_le 8 (jr_fence r)
    ++ kind_bytes (jr_kind r) ++ to_le 8 (jr_capture_seq r)
    ++ to_le 8 (jr_sync_covered_through r) ++ to_le 8 (jr_post_state_checksum r)
    ++ source_bytes (jr_migrated_from r) ++ [VolumeKind_u8 (vc_kind (jr_config r))]
    ++ to_le 4 (vc_pages (jr_config r)) ++ [2] ++ to_le 4 (len (jr_files r))
    ++ concat (map ObjectRef_bytes (jr_files r)).
Proof.
  unfold JournalRecord_payload.
  rewrite !Enc_each_app by (intros x e; rewrite ?ObjectRef_appends; reflexivity).
  enc_norm. rewrite ?app_assoc_r. simpl.
  now rewrite (map_ext _ ObjectRef_bytes) by (intros; now rewrite ObjectRef_appends).
Qed.

Lemma JournalRecord_codec volume : fits W64 volume ->
  WholeCodec (JournalRecord_decode_payload volume) (fun r => JournalRecord_payload r volume)
    (fun r => JournalRecord_fields r /\ jr_runtime_page_index r = []).
Proof using PL.
  intros Hv. pose proof page_size_bounds as Hps.
  assert (fits W16 8) as H8 by now vm_compute.
  assert (fits W8 2) as H2 by now vm_compute.
  assert (fits W32 page_size) as Hpf by (unfold fits; lia).
  split.
  - intros [[vk vp] sq fc kd cs sy ps fs ix mf] [Hf Hix]. unfold JournalRecord_fields in Hf.
    rewrite JournalRecord_payload_eq. cbn [jr_config jr_seq jr_fence jr_kind jr_capture_seq
      jr_sync_covered_through jr_post_state_checksum jr_files jr_runtime_page_index
      jr_migrated_from vc_kind vc_pages] in *. subst ix.
    destruct Hf as (F1 & F2 & F3 & F4 & F5 & F6 & F7 & F8 & F9 & F10 & Hcv & Hck & Hval).
    assert (fits W32 (len fs)) by (split; [apply len_nonneg|exact F10]).
    pose proof (len_to_nat fs). unfold JournalRecord_decode_payload.
    rewrite <- (app_nil_r (concat _)). reads_tac.
    all: try (now rewrite Z.eqb_refl).
    all: try (now rewrite Hcv).
    all: try (destruct (is_checkpoint kd), (VolumeConfig_is_memory _); (discriminate || reflexivity)).
  - intros bs r Hb H. unfold JournalRecord_decode_payload in H. apply Dec_run_Ok in H as [q H].
    dec_inv. rewrite negb_false_iff in Hg, Hg0, Hg1, Hg2, Hg3. rewrite Z.eqb_eq in Hg, Hg0, Hg1, Hg2.
    apply decode_volume_kind_inv in Ha0. destruct P14, x16.
    assert (x13 = len x14) as -> by (unfold fits, len in *; lia). subst.
    rewrite JournalRecord_payload_eq. unfold JournalRecord_fields. destruct P13.
    cbn [jr_config jr_seq jr_fence jr_kind jr_capture_seq jr_sync_covered_through
      jr_post_state_checksum jr_files jr_runtime_page_index jr_migrated_from vc_kind vc_pages].
    rewrite ?app_nil_r. split; [|reflexivity]. split; [|reflexivity].
    assert (negb (is_checkpoint x4) || VolumeConfig_is_memory {| vc_kind := x10; vc_pages := x11 |} = true)
      by (destruct (is_checkpoint x4), (VolumeConfig_is_memory _); (discriminate || reflexivity)).
    codec_conj; auto.
  - unfold JournalRecord_decode_payload. total.
  - intros r _. rewrite JournalRecord_payload_eq. repeat apply all_bytes_app_2; auto with bytes.
Qed.

Definition JournalRecord_ok (r : JournalRecord) (volume : Z) : Prop :=
  JournalRecord_fields r /\ jr_runtime_page_index r = []
  /\ len (JournalRecord_payload r volume) < W32.
Lemma JournalRecord_encode_eq {E} r volume :
  JournalRecord_fields r -> len (JournalRecord_payload r volume) < W32 ->
  @JournalRecord_encode _ _ E r volume
  = Ok (frame_bytes MAGIC_JOURNAL (JournalRecord_payload r volume)).
Proof using PL.
  intros (_ & _ & _ & _ & _ & _ & _ & _ & _ & Hl & Hv & Hk & _) Hp.
  pose proof page_size_bounds. unfold JournalRecord_encode. rewrite Hv, Hk.
  rewrite (proj2 (Z.ltb_lt page_size _)), (proj2 (Z.ltb_lt (len _) _)) by (assumption || lia).
  now apply seal_frame_Ok.
Qed.
#[export] Instance JournalRecord_format volume : fits W64 volume ->
  ExactFormat (fun r => @JournalRecord_encode _ _ DecodeError r volume)
    (JournalRecord_decode volume) (fun r => JournalRecord_ok r volume).
Proof using CL PL.
  intros Hv.
  destruct (framed_exact (E := DecodeError) MAGIC_JOURNAL _ _ _ (JournalRecord_codec volume Hv)
    ltac:(magic_tac)) as [Hw Hc Ht]. split.
  - intros r (Hf & Hi & Hl). rewrite JournalRecord_encode_eq by assumption.
    destruct (Hw r) as (bs & Hs & Hb & Hd); [auto|]. apply seal_frame_inv in Hs as [_ ->]. eauto.
  - intros bs r Hb Hd. destruct (Hc bs r Hb Hd) as [[[Hf Hi] Hl] Hs].
    split; [now split|]. rewrite JournalRecord_encode_eq by assumption.
    now apply seal_frame_inv in Hs as [_ ->].
  - exact Ht.
Qed.

(** The journal record is an exact format for its volume: a record with a
    valid configuration, a checkpoint only on a memory volume and a valid file
    set is written and read back; every byte string that decodes is the
    encoding of such a record; and no input makes the decoder panic. *)
Theorem JournalRecord_exact volume : fits W64 volume ->
  ExactFormat (fun r => @JournalRecord_encode _ _ DecodeError r volume)
    (JournalRecord_decode volume) (fun r => JournalRecord_ok r volume).
Proof using CL PL. apply JournalRecord_format. Qed.
End Format.

(** ** The migration form *)
Lemma reads_iter {A B} (step : A -> dec A) (enc : B -> bytes) (ins : A -> B -> A) l acc :
  (forall l1 x l2, l = l1 ++ x :: l2 ->
     reads (step (fold_left ins l1 acc)) (enc x) (ins (fold_left ins l1 acc) x)) ->
  reads (dec_iter (length l) step acc) (concat (map enc l)) (fold_left ins l acc).
Proof.
  revert acc. induction l as [|x l IH]; intros acc H; simpl; [apply reads_ret|].
  eapply reads_bind; [exact (H [] x l eq_refl)|]. apply IH.
  intros l1 y l2 ->. exact (H (x :: l1) y l2 eq_refl).
Qed.
Lemma dec_iter_total {A} (step : A -> dec A) n acc :
  (forall acc, dec_total (step acc)) -> dec_total (dec_iter n step acc).
Proof.
  intros Hs. revert acc. induction n as [|n IH]; intros acc; simpl; [apply dec_total_ret|].
  apply dec_total_bind; auto.
Qed.
Lemma dec_iter_inv {A} (Q : A -> Prop) (step : A -> dec A) n acc bs x rest :
  (forall acc bs x rest, Q acc -> all_bytes bs -> step acc bs = Ok (x, rest) -> Q x /\ all_bytes rest) ->
  Q acc -> all_bytes bs -> dec_iter n step acc bs = Ok (x, rest) -> Q x /\ all_bytes rest.
Proof.
  intros Hs. revert acc bs. induction n as [|n IH]; intros acc bs Hq Hb H; simpl in H.
  - injection H as <- <-. auto.
  - apply dec_bind_Ok in H as (y & r & Hy & H). destruct (Hs _ _ _ _ Hq Hb Hy). eauto.
Qed.

(** A sorted map is rebuilt by inserting its entries into an empty one, and no
    insertion meets its key. *)
Lemma sorted_split_fresh {K V} `{RustOrdLaws K} (m l1 l2 : list (K * V)) k v :
  bt_sorted m -> m = l1 ++ (k, v) :: l2 ->
  bt_contains k (fold_left (fun m e => bt_insert e.1 e.2 m) l1 []) = false.
Proof.
  intros Hs ->. apply bt_sorted_NoDup in Hs. rewrite map_app in Hs. simpl in Hs.
  pose proof (NoDup_remove_2 _ _ _ Hs) as Hni. apply NoDup_remove_1, NoDup_app_remove_r in Hs.
  unfold bt_contains. destruct (bt_get k _) as [v'|] eqn:E; [|reflexivity].
  apply bt_get_fold in E; [|exact Hs]. destruct E as [E|[_ E]]; [|discriminate].
  exfalso. apply Hni, in_app_iff. left. now apply (in_map fst) in E.
Qed.

Section Migration.
Context `{C : Crc} `{CL : !CrcLaws C} `{P : PageSize} `{PL : !PageSizeLaws P}.

Definition PageFileLoc_ok (l : PageFileLoc) : Prop :=
  fits W64 (pl_base l) /\ fits W64 (pl_fence l) /\ fits W64 (pl_object l)
  /\ fits W32 (pl_offset l) /\ fits W32 (pl_len l).
Definition index_page_ok (config : VolumeConfig) (volume : Z) (x : PageId * (Z * PageFileLoc)) : Prop :=
  pid_volume x.1 = volume /\ fits W32 (pid_page x.1) /\ VolumeConfig_contains config x.1 = true
  /\ fits W64 x.2.1 /\ PageFileLoc_ok x.2.2.
Definition block_checksum_ok (config : VolumeConfig) (x : BlockKey * (Z * Z)) : Prop :=
  BlockKey_ok x.1 /\ block_in_volume config x.1 = true /\ fits W64 x.2.1 /\ fits W64 x.2.2.
Definition archive_ok (a : MigrationArchiveClosure) : Prop :=
  Forall ObjectRef_ok (mac_objects a) /\ validate_object_refs (mac_objects a) = Ok tt
  /\ option_ok BaseRef_ok (mac_base a) /\ len (mac_objects a) < W32.
Definition migration_ok (volume : Z) (r : JournalRecord) (checksums : MigrationBlockChecksums)
    (archive : MigrationArchiveClosure) : Prop :=
  JournalRecord_fields r /\ bt_sorted (jr_runtime_page_index r)
  /\ Forall (index_page_ok (jr_config r) volume) (jr_runtime_page_index r)
  /\ bt_sorted checksums /\ Forall (block_checksum_ok (jr_config r)) checksums
  /\ archive_ok archive.

Lemma index_page_appends x e : encode_index_page x e = e ++ encode_index_page x [].
Proof. destruct x as [p [g l]]. unfold encode_index_page. enc_norm. reflexivity. Qed.
Lemma block_checksum_appends x e : encode_block_checksum x e = e ++ encode_block_checksum x [].
Proof. destruct x as [k [g c]]. unfold encode_block_checksum. enc_norm. reflexivity. Qed.

Lemma index_page_reads config volume x m :
  index_page_ok config volume x -> bt_contains x.1 m = false ->
  reads (decode_index_page config volume m) (encode_index_page x []) (bt_insert x.1 x.2 m).
Proof.
  destruct x as [[v p] [g [b f o off l]]]. unfold index_page_ok, PageFileLoc_ok. simpl.
  intros (-> & ? & Hc & ? & ? & ? & ? & ? & ?) Hn. unfold encode_index_page, decode_index_page. simpl.
  enc_norm. reads_tac; rewrite ?Hc, ?Hn; try reflexivity. 
Qed.
Lemma block_checksum_reads config x m :
  block_checksum_ok config x -> bt_contains x.1 m = false ->
  reads (decode_block_checksum config m) (encode_block_checksum x []) (bt_insert x.1 x.2 m).
Proof.
  destruct x as [[s b] [g c]]. unfold block_checksum_ok, BlockKey_ok. simpl.
  intros (? & Hc & ? & ?) Hn. unfold encode_block_checksum, decode_block_checksum. simpl.
  enc_norm. reads_tac; rewrite ?Hc, ?Hn; reflexivity.
Qed.

Lemma archive_reads a :
  archive_ok a ->
  reads decode_migration_archive
    (to_le 4 (len (mac_objects a)) ++ concat (map ObjectRef_bytes (mac_objects a))
     ++ base_ref_bytes (mac_base a)) a.
Proof.
  destruct a as [os b]. intros (Ho & Hv & Hb & Hl). simpl in *. unfold decode_migration_archive.
  assert (fits W32 (len os)) by (split; [apply len_nonneg|exact Hl]). pose proof (len_to_nat os).
  do 2 (reads_step; [reads_side|]). eapply reads_lift; [exact Hv|].
  eapply reads_bind_last; [apply (codec_reads (Codec := base_ref_codec)); exact Hb|apply reads_ret].
Qed.

Lemma migration_index_eq r checksums archive :
  migration_index_payload r checksums archive =
    to_le 4 (len (jr_runtime_page_index r))
    ++ concat (map (fun x => encode_index_page x []) (jr_runtime_page_index r))
    ++ to_le 4 (len checksums) ++ concat (map (fun x => encode_block_checksum x []) checksums)
    ++ (to_le 4 (len (mac_objects archive)) ++ concat (map ObjectRef_bytes (mac_objects archive))
        ++ base_ref_bytes (mac_base archive)).
Proof.
  unfold migration_index_payload.
  rewrite (Enc_each_app ObjectRef_encode_into) by (intros x e; rewrite ?ObjectRef_appends; reflexivity).
  rewrite (Enc_each_app encode_index_page) by (intros x e; apply index_page_appends).
  rewrite (Enc_each_app encode_block_checksum) by (intros x e; apply block_checksum_appends).
  enc_norm. rewrite ?app_assoc_r. simpl.
  now rewrite (map_ext _ ObjectRef_bytes) by (intros; now rewrite ObjectRef_appends).
Qed.
Lemma migration_index_reads volume r checksums archive :
  migration_ok volume r checksums archive ->
  len (jr_runtime_page_index r) < W32 -> len checksums < W32 ->
  Dec_run (decode_migration_index (jr_config r) volume) (migration_index_payload r checksums archive)
  = Ok (jr_runtime_page_index r, checksums, archive).
Proof using Type.
  intros (Hf & Hs & Hi & Hsc & Hc & Ha) Hl1 Hl2. rewrite migration_index_eq.
  assert (fits W32 (len (jr_runtime_page_index r))) by (split; [apply len_nonneg|exact Hl1]).
  assert (fits W32 (len checksums)) by (split; [apply len_nonneg|exact Hl2]).
  rewrite List.Forall_forall in Hi, Hc.
  refine (reads_all_bind _ _ _ _ _ _ (reads_u32 _ _) _); [assumption|]. rewrite len_to_nat.
  eapply reads_all_bind.
  { apply (reads_iter _ (fun x => encode_index_page x []) (fun m e => bt_insert e.1 e.2 m)).
    intros l1 [k v] l2 Heq. apply index_page_reads.
    - apply Hi. rewrite Heq. apply in_app_iff. right. now left.
    - eapply sorted_split_fresh; [exact Hs|exact Heq]. }
  refine (reads_all_bind _ _ _ _ _ _ (reads_u32 _ _) _); [assumption|]. rewrite len_to_nat.
  eapply reads_all_bind.
  { apply (reads_iter _ (fun x => encode_block_checksum x []) (fun m e => bt_insert e.1 e.2 m)).
    intros l1 [k v] l2 Heq. apply block_checksum_reads.
    - apply Hc. rewrite Heq. apply in_app_iff. right. now left.
    - eapply sorted_split_fresh; [exact Hsc|exact Heq]. }
  eapply reads_all_bind_last; [now apply archive_reads|]. apply reads_all_finish.
  fold (bt_collect (jr_runtime_page_index r)). fold (bt_collect checksums).
  rewrite !bt_collect_id by assumption. apply reads_all_ret.
Qed.

Lemma migration_state_encode {E} volume r checksums archive :
  migration_ok volume r checksums archive ->
  len (jr_runtime_page_index r) < W32 -> len checksums < W32 ->
  len (JournalRecord_payload r volume) < W32 ->
  len (migration_index_payload r checksums archive) < W32 ->
  @JournalRecord_encode_migration_state _ _ E r volume checksums archive
  = Ok (let durable := frame_bytes MAGIC_JOURNAL (JournalRecord_payload r volume) in
        to_le 8 (len durable) ++ durable
        ++ frame_bytes MAGIC_MIGRATION_INDEX (migration_index_payload r checksums archive)).
Proof using PL.
  intros (Hf & _ & _ & _ & _ & _ & _ & _ & Ha) H1 H2 H3 H4.
  unfold JournalRecord_encode_migration_state. rewrite JournalRecord_encode_eq by assumption.
  cbn [outcome_bind]. rewrite (proj2 (Z.ltb_lt (len (jr_runtime_page_index r)) _)),
    (proj2 (Z.ltb_lt (len checksums) _)), (proj2 (Z.ltb_lt (len (mac_objects archive)) _)) by assumption.
  rewrite seal_frame_Ok by exact H4. cbn [outcome_bind].
  rewrite len_frame_bytes, (proj2 (Z.ltb_lt (FRAME_HEADER + _) _)) by (unfold FRAME_HEADER; lia).
  reflexivity.
Qed.

Lemma record_index_irrelevant r index volume :
  JournalRecord_payload (JournalRecord_with_index r index) volume = JournalRecord_payload r volume.
Proof. reflexivity. Qed.
Lemma migration_decode volume r checksums archive :
  fits W64 volume -> migration_ok volume r checksums archive ->
  len (jr_runtime_page_index r) < W32 -> len checksums < W32 ->
  len (JournalRecord_payload r volume) < W32 ->
  len (migration_index_payload r checksums archive) < W32 ->
  let durable := frame_bytes MAGIC_JOURNAL (JournalRecord_payload r volume) in
  JournalRecord_decode_migration_state volume
    (to_le 8 (len durable) ++ durable
     ++ frame_bytes MAGIC_MIGRATION_INDEX (migration_index_payload r checksums archive))
  = Ok (r, checksums, archive).
Proof using CL PL.
  intros Hv Hm H1 H2 H3 H4 durable. pose proof Hm as (Hf & _).
  assert (0 <= len durable < 2 * W32) as Hd
    by (unfold durable; rewrite len_frame_bytes; pose proof (len_nonneg (JournalRecord_payload r volume));
        unfold FRAME_HEADER; lia).
  set (index := frame_bytes MAGIC_MIGRATION_INDEX _).
  assert (len (to_le 8 (len durable)) = 8) as H8 by apply len_to_le.
  assert (slice_get (to_le 8 (len durable) ++ durable ++ index) 8 (8 + len durable) = Some durable) as Hs1
    by (rewrite <- H8; apply slice_get_app).
  assert (slice_get (to_le 8 (len durable) ++ durable ++ index) (8 + len durable)
            (len (to_le 8 (len durable) ++ durable ++ index)) = Some index) as Hs2.
  { pose proof (slice_get_app (to_le 8 (len durable) ++ durable) index []) as Hs.
    rewrite app_nil_r, app_assoc_r, len_app, H8 in Hs. rewrite !len_app, H8, Z.add_assoc. exact Hs. }
  unfold JournalRecord_decode_migration_state.
  rewrite slice_prefix by (symmetry; exact H8). cbn [ok_or outcome_bind].
  rewrite from_le_to_le by (unfold fits; change (256 ^ Z.of_nat 8) with W64; lia).
  rewrite checked_add_Some by lia. cbn [ok_or outcome_bind]. rewrite Hs1. cbn [ok_or outcome_bind].
  assert (JournalRecord_decode volume durable = Ok (JournalRecord_with_index r [])) as ->.
  { destruct (format_writes (ExactFormat := JournalRecord_format volume Hv) (JournalRecord_with_index r []))
      as (bs & He & _ & Hdec); [split; [exact Hf|split; [reflexivity|exact H3]]|].
    rewrite JournalRecord_encode_eq in He by assumption. injection He as <-. exact Hdec. }
  cbn [outcome_bind]. rewrite Hs2. cbn [ok_or outcome_bind]. subst index.
  rewrite open_frame_bytes; [|magic_tac|exact H4]. cbn [outcome_bind].
  cbn [jr_config JournalRecord_with_index]. rewrite migration_index_reads by assumption.
  cbn [outcome_bind]. now destruct r.
Qed.

(** *** What a destination accepts *)
Definition accepted_index (config : VolumeConfig) (volume : Z)
    (index : BTreeMap PageId (Z * PageFileLoc)) : Prop :=
  bt_sorted index /\ Forall (index_page_ok config volume) index.
Definition accepted_checksums (config : VolumeConfig) (m : MigrationBlockChecksums) : Prop :=
  bt_sorted m /\ Forall (block_checksum_ok config) m.
Lemma bt_insert_all {K V} `{RustOrd K} (Q : K * V -> Prop) k v (m : BTreeMap K V) :
  Q (k, v) -> Forall Q m -> Forall Q (bt_insert k v m).
Proof.
  intros Hq. induction 1 as [|[k' v'] m Hx Hm IH]; simpl; [auto|]. destruct (cmp k k'); auto.
Qed.
Lemma decode_index_page_inv config volume m bs m' rest :
  accepted_index config volume m -> all_bytes bs ->
  decode_index_page config volume m bs = Ok (m', rest) ->
  accepted_index config volume m' /\ all_bytes rest.
Proof.
  intros [Hs Hf] Hb H. unfold decode_index_page in H. dec_inv. split; [|assumption].
  split; [now apply bt_insert_sorted|]. apply bt_insert_all; [|exact Hf].
  rewrite negb_false_iff in *. unfold index_page_ok, PageFileLoc_ok. simpl. auto 10.
Qed.
Lemma decode_block_checksum_inv config m bs m' rest :
  accepted_checksums config m -> all_bytes bs ->
  decode_block_checksum config m bs = Ok (m', rest) ->
  accepted_checksums config m' /\ all_bytes rest.
Proof.
  intros [Hs Hf] Hb H. unfold decode_block_checksum in H. dec_inv. split; [|assumption].
  split; [now apply bt_insert_sorted|]. apply bt_insert_all; [|exact Hf].
  apply orb_false_iff in Hg as [Hg _]. rewrite negb_false_iff in *.
  unfold block_checksum_ok, BlockKey_ok. simpl. auto.
Qed.
Lemma slice_get_bytes bs i j s : slice_get bs i j = Some s -> all_bytes bs -> all_bytes s.
Proof.
  unfold slice_get. destruct (_ && _); [|discriminate]. intros [= <-] Hb. now apply Forall_take, Forall_drop.
Qed.
Lemma decode_migration_index_inv config volume payload index checksums archive :
  all_bytes payload ->
  Dec_run (decode_migration_index config volume) payload = Ok (index, checksums, archive) ->
  accepted_index config volume index /\ accepted_checksums config checksums
  /\ validate_object_refs (mac_objects archive) = Ok tt.
Proof.
  intros Hb H. unfold decode_migration_index in H. apply Dec_run_Ok in H as [q H].
  apply dec_bind_Ok in H as (n & r0 & Hn & H).
  apply (codec_sound (Codec := codec_u32)) in Hn as [-> _]; [|exact Hb]. apply all_bytes_app in Hb as [_ Hb].
  apply dec_bind_Ok in H as (index' & r1 & Hi & H).
  apply (dec_iter_inv (accepted_index config volume)) in Hi as [Hix Hb1];
    [|eauto using decode_index_page_inv|split; constructor|assumption].
  apply dec_bind_Ok in H as (n' & r2 & Hn & H).
  apply (codec_sound (Codec := codec_u32)) in Hn as [-> _]; [|exact Hb1]. apply all_bytes_app in Hb1 as [_ Hb1].
  apply dec_bind_Ok in H as (cs & r3 & Hc & H).
  apply (dec_iter_inv (accepted_checksums config)) in Hc as [Hcs Hb2];
    [|eauto using decode_block_checksum_inv|split; constructor|assumption].
  unfold decode_migration_archive in H. dec_inv. simpl.
  match goal with H : validate_object_refs _ = Ok ?x |- _ => destruct x end. auto.
Qed.

Lemma decode_migration_state_total volume bs : fits W64 volume ->
  no_panic (JournalRecord_decode_migration_state volume bs).
Proof using CL PL.
  intros Hv. unfold JournalRecord_decode_migration_state.
  do 3 (apply no_panic_bind; [auto with panics|intros ? _]).
  apply no_panic_bind; [apply (format_total (ExactFormat := JournalRecord_format volume Hv))|intros r _].
  apply no_panic_bind; [auto with panics|intros ? _].
  apply no_panic_bind; [apply open_frame_total|intros p _].
  apply no_panic_bind; [|intros [[? ?] ?] _; discriminate]. apply dec_total_run.
  unfold decode_migration_index, decode_migration_archive. total;
    apply dec_iter_total; intros; unfold decode_index_page, decode_block_checksum; total.
Qed.

Lemma decode_migration_sound volume bs r checksums archive : fits W64 volume -> all_bytes bs ->
  JournalRecord_decode_migration_state volume bs = Ok (r, checksums, archive) ->
  JournalRecord_fields r /\ accepted_index (jr_config r) volume (jr_runtime_page_index r)
  /\ accepted_checksums (jr_config r) checksums /\ validate_object_refs (mac_objects archive) = Ok tt.
Proof using CL PL.
  intros Hv Hb H. unfold JournalRecord_decode_migration_state in H. inv_ok.
  destruct a5 as [[index cs] arch]. injection H as <- <- <-.
  apply slice_get_bytes in Ho0, Ho; [|exact Hb..].
  apply open_frame_inv in Ha4 as (-> & _ & Hp); [|exact Ho].
  destruct (format_canonical (ExactFormat := JournalRecord_format volume Hv) _ _ Ho0 Ha2) as [(Hf & _) _].
  destruct (decode_migration_index_inv _ _ _ _ _ _ Hp Ha5) as (? & ? & ?). auto.
Qed.

(** C27. Migration carries the whole state to the destination. The migration
    form of a record with its page lookup, block checksums and archive closure
    is read back exactly. Whatever bytes a peer sends, the decoder does not
    panic, and what it accepts is consistent with the record's own
    configuration: every page and block lies inside the volume, each at most
    once, and the archive references pass the archival checks. *)
Theorem migration_state_exact volume : fits W64 volume ->
  (forall r checksums archive,
     migration_ok volume r checksums archive ->
     len (jr_runtime_page_index r) < W32 -> len checksums < W32 ->
     len (JournalRecord_payload r volume) < W32 ->
     len (migration_index_payload r checksums archive) < W32 ->
     exists bs,
       @JournalRecord_encode_migration_state _ _ DecodeError r volume checksums archive = Ok bs
       /\ JournalRecord_decode_migration_state volume bs = Ok (r, checksums, archive))
  /\ (forall bs, no_panic (JournalRecord_decode_migration_state volume bs))
  /\ (forall bs r checksums archive, all_bytes bs ->
        JournalRecord_decode_migration_state volume bs = Ok (r, checksums, archive) ->
        JournalRecord_fields r
        /\ accepted_index (jr_config r) volume (jr_runtime_page_index r)
        /\ accepted_checksums (jr_config r) checksums
        /\ validate_object_refs (mac_objects archive) = Ok tt).
Proof using CL PL.
  intros Hv. split; [|split].
  - intros r checksums archive Hm H1 H2 H3 H4. eexists.
    rewrite migration_state_encode by assumption. split; [reflexivity|now apply migration_decode].
  - intros bs. now apply decode_migration_state_total.
  - intros bs r checksums archive. now apply decode_migration_sound.
Qed.
End Migration.
