(* ===== verification/HostState.v ===== *)
(** * The host's disk ledger and its scheduler ([engine/state.rs])

    One host keeps the size of every local blob it owns, refuses writes that
    would not fit the device, asks for reclamation when it stalls, and hands
    out volumes to work on in round-robin order. *)

From Stdlib Require Sorted.
From S2P Require Import Prelude Types OrdMap Text.

#[local] Open Scope Z_scope.

(** ** State *)
Record ReplicaKey := {
  rk_source : Z;
  rk_volume : Z;
  rk_assignment_epoch : Z }.
#[export] Instance ReplicaKey_eq_dec : EqDecision ReplicaKey.
Proof. solve_decision. Defined.
Definition ReplicaKey_fields (k : ReplicaKey) : Z * (Z * Z) :=
  (rk_source k, (rk_volume k, rk_assignment_epoch k)).
#[export] Instance ReplicaKey_ord : RustOrd ReplicaKey :=
  fun a b => cmp (ReplicaKey_fields a) (ReplicaKey_fields b).
#[export] Instance ReplicaKey_ord_laws : RustOrdLaws ReplicaKey.
Proof. apply (injected_ord_laws ReplicaKey_fields). intros [] [] [=]. now subst. Qed.

Record ReplicaState := {
  rs_artifacts : BTreeMap ReplicaArtifact (Z * bytes);
  rs_uncommitted_artifacts : BTreeSet ReplicaArtifact;
  rs_committed : option ReplicaCommitInfo;
  rs_committed_record : option bytes;
  rs_bytes : Z;
  rs_current_generation : Z;
  rs_current_file_bytes : Z }.
(** [ReplicaState::default()]. *)
Definition ReplicaState_default : ReplicaState :=
  {| rs_artifacts := []; rs_uncommitted_artifacts := []; rs_committed := None;
     rs_committed_record := None; rs_bytes := 0; rs_current_generation := 0;
     rs_current_file_bytes := 0 |}.

(** The configuration these operations read. *)
Record HostConfig := {
  hc_host : Z;
  hc_disk_capacity : option Z;
  hc_disk_headroom : Z;
  hc_spool_capacity_bytes : Z }.
(** Of [volumes] only the keys matter here; counters are write-only. *)
Record HostState := {
  hs_config : HostConfig;
  hs_volumes : BTreeSet Z;
  hs_replicas : BTreeMap ReplicaKey ReplicaState;
  hs_blob_sizes : BTreeMap string Z;
  hs_scheduled_volumes : BTreeSet Z;
  hs_scheduled_cursor : option Z;
  hs_disk_reclaim_requested : bool;
  hs_disk_reclaim_scan_cursor : option Z;
  hs_disk_reclaim_scan_remaining : Z }.
Definition with_blob_sizes (sizes : BTreeMap string Z) (st : HostState) : HostState :=
  {| hs_config := hs_config st; hs_volumes := hs_volumes st; hs_replicas := hs_replicas st;
     hs_blob_sizes := sizes; hs_scheduled_volumes := hs_scheduled_volumes st;
     hs_scheduled_cursor := hs_scheduled_cursor st;
     hs_disk_reclaim_requested := hs_disk_reclaim_requested st;
     hs_disk_reclaim_scan_cursor := hs_disk_reclaim_scan_cursor st;
     hs_disk_reclaim_scan_remaining := hs_disk_reclaim_scan_remaining st |}.
Definition with_replicas (replicas : BTreeMap ReplicaKey ReplicaState) (st : HostState) : HostState :=
  {| hs_config := hs_config st; hs_volumes := hs_volumes st; hs_replicas := replicas;
     hs_blob_sizes := hs_blob_sizes st; hs_scheduled_volumes := hs_scheduled_volumes st;
     hs_scheduled_cursor := hs_scheduled_cursor st;
     hs_disk_reclaim_requested := hs_disk_reclaim_requested st;
     hs_disk_reclaim_scan_cursor := hs_disk_reclaim_scan_cursor st;
     hs_disk_reclaim_scan_remaining := hs_disk_reclaim_scan_remaining st |}.
Definition with_schedule (scheduled : BTreeSet Z) (cursor : option Z) (st : HostState) : HostState :=
  {| hs_config := hs_config st; hs_volumes := hs_volumes st; hs_replicas := hs_replicas st;
     hs_blob_sizes := hs_blob_sizes st; hs_scheduled_volumes := scheduled;
     hs_scheduled_cursor := cursor;
     hs_disk_reclaim_requested := hs_disk_reclaim_requested st;
     hs_disk_reclaim_scan_cursor := hs_disk_reclaim_scan_cursor st;
     hs_disk_reclaim_scan_remaining := hs_disk_reclaim_scan_remaining st |}.
Definition with_reclaim (requested : bool) (cursor : option Z) (remaining : Z) (st : HostState)
  : HostState :=
  {| hs_config := hs_config st; hs_volumes := hs_volumes st; hs_replicas := hs_replicas st;
     hs_blob_sizes := hs_blob_sizes st; hs_scheduled_volumes := hs_scheduled_volumes st;
     hs_scheduled_cursor := hs_scheduled_cursor st; hs_disk_reclaim_requested := requested;
     hs_disk_reclaim_scan_cursor := cursor; hs_disk_reclaim_scan_remaining := remaining |}.

(** ** Reclaim requests and the two round robins *)
Definition request_disk_reclaim (st : HostState) : HostState :=
  if hs_disk_reclaim_requested st then st
  else with_reclaim true None (len (hs_volumes st)) st.
Definition note_blob_full (st : HostState) : HostState := request_disk_reclaim st.

(** [range((Excluded(cursor), Unbounded)).chain(range(..=cursor))]. *)
Definition after_cursor (cursor : option Z) (set : list Z) : list Z :=
  match cursor with
  | Some cursor => List.filter (fun v => cursor <? v) set ++ List.filter (fun v => v <=? cursor) set
  | None => set
  end.
(** The cursor moves to the last element selected, if any. *)
Definition move_cursor (cursor : option Z) (selected : list Z) : option Z :=
  match list.last selected with Some l => Some l | None => cursor end.
Definition schedule_volume (volume : Z) (st : HostState) : HostState :=
  if bt_contains volume (hs_volumes st)
  then with_schedule (bt_insert volume tt (hs_scheduled_volumes st)) (hs_scheduled_cursor st) st
  else st.
Definition take_scheduled_volumes (limit : Z) (st : HostState) : HostState * list Z :=
  let selected := take (Z.to_nat limit)
    (after_cursor (hs_scheduled_cursor st) (bt_keys (hs_scheduled_volumes st))) in
  (with_schedule (fold_left (fun s v => bt_remove v s) selected (hs_scheduled_volumes st))
     (move_cursor (hs_scheduled_cursor st) selected) st, selected).
Definition take_disk_reclaim_scan_volumes (limit : Z) (st : HostState) : HostState * list Z :=
  if negb (hs_disk_reclaim_requested st)
  then (with_reclaim false (hs_disk_reclaim_scan_cursor st) 0 st, [])
  else
    let limit := Z.min limit (hs_disk_reclaim_scan_remaining st) in
    let selected := take (Z.to_nat limit)
      (after_cursor (hs_disk_reclaim_scan_cursor st) (bt_keys (hs_volumes st))) in
    let remaining := saturating_sub (hs_disk_reclaim_scan_remaining st) (len selected) in
    (with_reclaim true (move_cursor (hs_disk_reclaim_scan_cursor st) selected)
       (match selected with [] => 0 | _ => remaining end) st, selected).

(** ** The ledger of local blobs *)
Section Ledger.
Context {E : Type}.
(** [Iterator::sum::<u64>] overflows like [+]. *)
Definition sum_u64 (l : list Z) : outcome E Z :=
  fold_outcome (fun total x => expect (checked_add W64 total x)) 0 l.
Definition blob_total (st : HostState) : outcome E Z := sum_u64 (bt_values (hs_blob_sizes st)).
Definition data_full (next : Z) (st : HostState) : bool :=
  match hc_disk_capacity (hs_config st) with
  | Some capacity => saturating_sub capacity (hc_disk_headroom (hs_config st)) <? next
  | None => false
  end.
Definition disk_full (next : Z) (st : HostState) : bool :=
  match hc_disk_capacity (hs_config st) with Some capacity => capacity <? next | None => false end.
Definition blob_size (name : string) (st : HostState) : Z := default 0 (bt_get name (hs_blob_sizes st)).

Definition record_blob (name : string) (bytes : Z) (st : HostState) : HostState :=
  with_blob_sizes (bt_insert name bytes (hs_blob_sizes st)) st.
Definition disk_reclaim_target_met (st : HostState) : outcome E bool :=
  match hc_disk_capacity (hs_config st) with
  | None => Ok true
  | Some capacity =>
      let? total := blob_total st in
      Ok (saturating_add W64 total (hc_disk_headroom (hs_config st)) <=? capacity)
  end.
Definition try_reserve_blob (name : string) (bytes : Z) (st : HostState)
  : outcome E (HostState * bool) :=
  let prior := blob_size name st in
  let? total := blob_total st in
  let next := saturating_add W64 (saturating_sub total prior) bytes in
  if data_full next st then Ok (request_disk_reclaim st, false)
  else Ok (record_blob name bytes st, true).
(** The total the device would hold with [blobs] in place. *)
Definition replaced_total (blobs : list (string * Z)) (st : HostState) : outcome E Z :=
  let? total := blob_total st in
  Ok (fold_left (fun next b =>
        saturating_add W64 (saturating_sub next (blob_size b.1 st)) b.2) blobs total).
Definition record_blobs (blobs : list (string * Z)) (st : HostState) : HostState :=
  fold_left (fun st b => record_blob b.1 b.2 st) blobs st.
Definition try_reserve_blobs (blobs : list (string * Z)) (st : HostState)
  : outcome E (HostState * bool) :=
  let? next := replaced_total blobs st in
  if data_full next st then Ok (request_disk_reclaim st, false)
  else Ok (record_blobs blobs st, true).
Definition try_reserve_metadata_blobs (blobs : list (string * Z)) (st : HostState)
  : outcome E (HostState * bool) :=
  let? next := replaced_total blobs st in
  if disk_full next st then Ok (request_disk_reclaim st, false)
  else Ok (record_blobs blobs st, true).
Definition append_blob (name : string) (bytes : Z) (st : HostState) : HostState :=
  with_blob_sizes (bt_update name 0 (fun stored => saturating_add W64 stored bytes)
                     (hs_blob_sizes st)) st.
Definition try_reserve_append (name : string) (bytes : Z) (st : HostState)
  : outcome E (HostState * bool) :=
  let? total := blob_total st in
  let next := saturating_add W64 total bytes in
  if data_full next st then Ok (request_disk_reclaim st, false)
  else Ok (append_blob name bytes st, true).
Definition rollback_append_reservation (name : string) (bytes : Z) (st : HostState) : HostState :=
  match bt_get name (hs_blob_sizes st) with
  | None => st
  | Some stored =>
      let stored := saturating_sub stored bytes in
      if stored =? 0 then with_blob_sizes (bt_remove name (hs_blob_sizes st)) st
      else with_blob_sizes (bt_insert name stored (hs_blob_sizes st)) st
  end.
Definition truncate_blob (name : string) (bytes : Z) (st : HostState) : HostState :=
  if bt_contains name (hs_blob_sizes st)
  then with_blob_sizes (bt_insert name bytes (hs_blob_sizes st)) st else st.
Definition forget_blobs (names : list string) (st : HostState) : HostState :=
  with_blob_sizes (fold_left (fun sizes name => bt_remove name sizes) names (hs_blob_sizes st)) st.
End Ledger.
