(* ===== verification/HostSafety.v ===== *)
(** * The disk ledger stays inside the device; the round robins are fair

    Reservations are granted exactly when the resulting total fits, a volume
    that is scheduled is handed out after a bounded number of rounds whatever
    else is scheduled meanwhile, and a reclaim scan visits each volume once. *)

From Stdlib Require Sorted.
From S2P Require Import Prelude Types OrdMap Text HostState.

#[local] Open Scope Z_scope.

(** ** Totals *)
Definition total (l : list Z) : Z := foldr Z.add 0 l.
Lemma total_app l k : total (l ++ k) = total l + total k.
Proof. induction l as [|x l IH]; simpl; [reflexivity|]. unfold total in *. simpl. lia. Qed.
Lemma sum_nonneg l : Forall (Z.le 0) l -> 0 <= total l.
Proof. induction 1; unfold total in *; simpl; lia. Qed.
Lemma sum_from {E} l : forall acc, Forall (Z.le 0) l -> acc + total l < W64 ->
  fold_outcome (fun t x => @expect E Z (checked_add W64 t x)) acc l = Ok (acc + total l).
Proof.
  induction l as [|x l IH]; intros acc Hl Ht; simpl; [f_equal; unfold total; simpl; lia|].
  apply Forall_cons_1 in Hl as [Hx Hl]. pose proof (sum_nonneg l Hl). unfold total in *. simpl in *.
  rewrite checked_add_Some by lia. simpl. rewrite IH by (auto || lia). f_equal. lia.
Qed.
Lemma sum_u64_total {E} l : Forall (Z.le 0) l -> total l < W64 -> @sum_u64 E l = Ok (total l).
Proof. intros Hl Ht. unfold sum_u64. now rewrite sum_from. Qed.

Definition ledger_total (m : BTreeMap string Z) : Z := total (bt_values m).
Lemma ledger_cons k v (m : BTreeMap string Z) : ledger_total ((k, v) :: m) = v + ledger_total m.
Proof. reflexivity. Qed.
Lemma ledger_insert k v (m : BTreeMap string Z) : bt_sorted m ->
  ledger_total (bt_insert k v m) = ledger_total m - default 0 (bt_get k m) + v.
Proof.
  induction m as [|[k' v'] m IH]; intros Hs; simpl; [unfold ledger_total, total; simpl; lia|].
  apply bt_sorted_cons in Hs as [Hs Hlt]. rewrite ledger_cons.
  destruct (cmp k k') eqn:E; rewrite ?ledger_cons; simpl; [lia| |rewrite IH by exact Hs; lia].
  rewrite (bt_get_below k v); [simpl; lia|]. eapply List.Forall_impl, Hlt.
  intros e He. unfold bt_lt in *. simpl in *. now apply (cmp_lt_trans _ k').
Qed.
Lemma remove_absent k (m : BTreeMap string Z) : bt_get k m = None -> bt_remove k m = m.
Proof.
  induction m as [|[k' v'] m IH]; simpl; [reflexivity|]. unfold bt_remove in *. simpl.
  destruct (cmp k k'); [discriminate| |]; intros H; now rewrite IH.
Qed.
Lemma ledger_remove k (m : BTreeMap string Z) : bt_sorted m ->
  ledger_total (bt_remove k m) = ledger_total m - default 0 (bt_get k m).
Proof.
  induction m as [|[k' v'] m IH]; intros Hs; [unfold ledger_total, total; simpl; lia|].
  apply bt_sorted_cons in Hs as [Hs Hlt]. unfold bt_remove in *. simpl. rewrite ledger_cons.
  destruct (cmp k k') eqn:E; simpl; rewrite ?ledger_cons, ?IH by exact Hs; try lia.
  apply cmp_eq in E as <-. pose proof (bt_get_below k v' m Hlt) as Hg. rewrite Hg. simpl. lia.
Qed.

(** ** The ledger's invariant *)
Record ledger_ok (capacity : Z) (st : HostState) : Prop := {
  lo_capacity : hc_disk_capacity (hs_config st) = Some capacity;
  lo_headroom : 0 <= hc_disk_headroom (hs_config st);
  lo_sorted : bt_sorted (hs_blob_sizes st);
  lo_sizes name size : bt_get name (hs_blob_sizes st) = Some size -> 0 <= size;
  lo_fits : ledger_total (hs_blob_sizes st) <= capacity }.

Inductive DiskOp :=
| Op_reserve (name : string) (bytes : Z)
| Op_reserve_all (blobs : list (string * Z))
| Op_reserve_metadata (blobs : list (string * Z))
| Op_reserve_append (name : string) (bytes : Z)
| Op_rollback_append (name : string) (bytes : Z)
| Op_truncate (name : string) (bytes : Z)
| Op_forget (names : list string).
Definition disk_op {E} (op : DiskOp) (st : HostState) : outcome E (HostState * bool) :=
  match op with
  | Op_reserve name bytes => try_reserve_blob name bytes st
  | Op_reserve_all blobs => try_reserve_blobs blobs st
  | Op_reserve_metadata blobs => try_reserve_metadata_blobs blobs st
  | Op_reserve_append name bytes => try_reserve_append name bytes st
  | Op_rollback_append name bytes => Ok (rollback_append_reservation name bytes st, true)
  | Op_truncate name bytes => Ok (truncate_blob name bytes st, true)
  | Op_forget names => Ok (forget_blobs names st, true)
  end.
(** What the device would hold after the operation, and what may be there. *)
Definition op_sizes (op : DiskOp) (m : BTreeMap string Z) : BTreeMap string Z :=
  match op with
  | Op_reserve name bytes => bt_insert name bytes m
  | Op_reserve_all blobs | Op_reserve_metadata blobs =>
      fold_left (fun m b => bt_insert b.1 b.2 m) blobs m
  | Op_reserve_append name bytes => bt_insert name (default 0 (bt_get name m) + bytes) m
  | Op_rollback_append name bytes =>
      match bt_get name m with
      | Some stored => if stored <=? bytes then bt_remove name m else bt_insert name (stored - bytes) m
      | None => m
      end
  | Op_truncate name bytes => if bt_contains name m then bt_insert name bytes m else m
  | Op_forget names => fold_left (fun m name => bt_remove name m) names m
  end.
Definition op_limit (op : DiskOp) (capacity headroom : Z) : Z :=
  match op with
  | Op_reserve _ _ | Op_reserve_all _ | Op_reserve_append _ _ => Z.max 0 (capacity - headroom)
  | _ => capacity
  end.
(** The requests are for sizes that fit, under distinct names; a truncation
    shortens. *)
Definition op_valid (op : DiskOp) (capacity : Z) (m : BTreeMap string Z) : Prop :=
  match op with
  | Op_reserve name bytes | Op_reserve_append name bytes => 0 <= bytes /\ capacity + bytes < W64
  | Op_reserve_all blobs | Op_reserve_metadata blobs =>
      Forall (fun b => 0 <= b.2) blobs /\ capacity + total (map snd blobs) < W64
      /\ List.NoDup (map fst blobs)
  | Op_rollback_append name bytes => 0 <= bytes
  | Op_truncate name bytes => 0 <= bytes <= default 0 (bt_get name m)
  | Op_forget names => True
  end.

Definition sizes_ok (m : BTreeMap string Z) : Prop :=
  bt_sorted m /\ forall name size, bt_get name m = Some size -> 0 <= size.
Lemma sizes_values m : sizes_ok m -> Forall (Z.le 0) (bt_values m).
Proof.
  intros [Hs Hp]. unfold bt_values. rewrite List.Forall_forall. intros v ([k v'] & <- & Hin)%in_map_iff.
  apply (Hp k). now apply In_bt_get.
Qed.
Lemma sizes_total m : sizes_ok m -> 0 <= ledger_total m.
Proof. intros H. now apply sum_nonneg, sizes_values. Qed.
Lemma sizes_insert k v m : sizes_ok m -> 0 <= v -> sizes_ok (bt_insert k v m).
Proof.
  intros [Hs Hp] Hv. split; [now apply bt_insert_sorted|]. intros name size.
  destruct (decide (name = k)) as [->|Hne].
  - rewrite bt_get_insert_eq. now intros [= <-].
  - rewrite bt_get_insert_ne by exact Hne. apply Hp.
Qed.
Lemma sizes_remove k m : sizes_ok m -> sizes_ok (bt_remove k m).
Proof.
  intros [Hs Hp]. split; [now apply bt_remove_sorted|]. intros name size.
  destruct (decide (name = k)) as [->|Hne].
  - now rewrite bt_get_remove_eq.
  - rewrite bt_get_remove_ne by exact Hne. apply Hp.
Qed.
Lemma sizes_prior k m : sizes_ok m -> 0 <= default 0 (bt_get k m) <= ledger_total m.
Proof.
  intros H. pose proof (sizes_total _ (sizes_remove k m H)) as Hr.
  rewrite ledger_remove in Hr by apply H. split; [|lia].
  destruct H as [_ Hp]. specialize (Hp k). destruct (bt_get k m); simpl; [auto|lia].
Qed.
Create HintDb ledger.
#[export] Hint Resolve sizes_insert sizes_remove sizes_values sizes_total : ledger.

Lemma replaced_fold m0 blobs : forall m, sizes_ok m ->
  (forall b, In b blobs -> bt_get b.1 m = bt_get b.1 m0) -> List.NoDup (map fst blobs) ->
  Forall (fun b => 0 <= b.2) blobs -> ledger_total m + total (map snd blobs) < W64 ->
  let m' := fold_left (fun m b => bt_insert b.1 b.2 m) blobs m in
  fold_left (fun next b => saturating_add W64 (saturating_sub next (default 0 (bt_get b.1 m0))) b.2)
    blobs (ledger_total m) = ledger_total m' /\ sizes_ok m'.
Proof.
  induction blobs as [|[k v] blobs IH]; intros m Hm Hsame Hnd Hv Ht; simpl in *; [auto|].
  apply List.NoDup_cons_iff in Hnd as [Hk Hnd]. apply Forall_cons_1 in Hv as [Hv Hvs]. simpl in *.
  pose proof (sizes_prior k m Hm) as Hp. pose proof (ledger_insert k v m (proj1 Hm)) as Hi.
  pose proof (Hsame (k, v) (or_introl eq_refl)) as Hk0. simpl in Hk0. rewrite <- Hk0. unfold total in Ht. simpl in Ht. fold (total (map snd blobs)) in Ht.
  assert (0 <= total (map snd blobs)).
  { apply sum_nonneg, List.Forall_map, Hvs. }
  replace (saturating_add W64 (saturating_sub (ledger_total m) (default 0 (bt_get k m))) v)
    with (ledger_total (bt_insert k v m)) by (unfold saturating_add, saturating_sub; lia).
  apply IH; auto with ledger; [|lia].
  intros [k' v'] Hin. simpl. rewrite bt_get_insert_ne; [apply (Hsame (k', v')); auto|].
  intros ->. apply Hk. now apply (in_map fst) in Hin.
Qed.
Lemma forget_sizes names : forall m, sizes_ok m ->
  let m' := fold_left (fun m name => bt_remove name m) names m in
  sizes_ok m' /\ ledger_total m' <= ledger_total m.
Proof.
  induction names as [|k names IH]; intros m Hm; simpl; [split; [auto|lia]|].
  destruct (IH (bt_remove k m) ltac:(auto with ledger)) as [H1 H2]. split; [exact H1|].
  rewrite ledger_remove in H2 by apply Hm. pose proof (sizes_prior k m Hm). simpl in *. lia.
Qed.

Lemma ledger_ok_sizes capacity st : ledger_ok capacity st -> sizes_ok (hs_blob_sizes st).
Proof. intros H. split; [apply (lo_sorted _ _ H)|apply (lo_sizes _ _ H)]. Qed.
Lemma blob_total_ok {E} capacity st : ledger_ok capacity st -> capacity < W64 ->
  @blob_total E st = Ok (ledger_total (hs_blob_sizes st)).
Proof.
  intros H Hc. apply sum_u64_total; [apply sizes_values, (ledger_ok_sizes _ _ H)|].
  pose proof (lo_fits _ _ H). unfold ledger_total in *. lia.
Qed.
Lemma request_keeps capacity st : ledger_ok capacity st -> ledger_ok capacity (request_disk_reclaim st).
Proof. intros []. unfold request_disk_reclaim. destruct (hs_disk_reclaim_requested st); now constructor. Qed.
Lemma request_reclaim st : hs_disk_reclaim_requested (request_disk_reclaim st) = true
  /\ hs_blob_sizes (request_disk_reclaim st) = hs_blob_sizes st.
Proof. unfold request_disk_reclaim. destruct (hs_disk_reclaim_requested st) eqn:E; auto. Qed.
Lemma ledger_replaced capacity st m : ledger_ok capacity st -> sizes_ok m -> ledger_total m <= capacity ->
  ledger_ok capacity (with_blob_sizes m st).
Proof. intros [] [] ?. now constructor. Qed.
Lemma record_blobs_sizes blobs : forall st,
  record_blobs blobs st = with_blob_sizes (fold_left (fun m b => bt_insert b.1 b.2 m) blobs (hs_blob_sizes st)) st.
Proof.
  unfold record_blobs. induction blobs as [|b blobs IH]; intros st; simpl; [now destruct st|].
  rewrite IH. reflexivity.
Qed.

(** A grant against [limit] is exact and keeps the invariant. *)
Lemma reserve_exact capacity st limit m full :
  ledger_ok capacity st -> sizes_ok m -> limit <= capacity ->
  full = (limit <? ledger_total m) ->
  let r := if full then (request_disk_reclaim st, false) else (with_blob_sizes m st, true) in
  ledger_ok capacity r.1 /\ r.2 = (ledger_total m <=? limit)
  /\ hs_blob_sizes r.1 = (if r.2 then m else hs_blob_sizes st)
  /\ (r.2 = false -> hs_disk_reclaim_requested r.1 = true).
Proof.
  intros H Hm Hl ->. destruct (Z.ltb_spec limit (ledger_total m)); simpl.
  - split; [now apply request_keeps|]. split; [symmetry; apply Z.leb_gt; lia|].
    split; [apply request_reclaim|intros _; apply request_reclaim].
  - split; [apply ledger_replaced; auto; lia|]. split; [symmetry; apply Z.leb_le; lia|]. easy.
Qed.
Lemma data_full_limit capacity st next : ledger_ok capacity st ->
  data_full next st = (Z.max 0 (capacity - hc_disk_headroom (hs_config st)) <? next).
Proof. intros H. unfold data_full. now rewrite (lo_capacity _ _ H). Qed.
Lemma disk_full_limit capacity st next : ledger_ok capacity st -> disk_full next st = (capacity <? next).
Proof. intros H. unfold disk_full. now rewrite (lo_capacity _ _ H). Qed.

Definition op_exact {E} (op : DiskOp) (capacity : Z) (st : HostState) : Prop :=
  exists st' granted, @disk_op E op st = Ok (st', granted)
  /\ ledger_ok capacity st'
  /\ granted = (ledger_total (op_sizes op (hs_blob_sizes st))
                <=? op_limit op capacity (hc_disk_headroom (hs_config st)))
  /\ hs_blob_sizes st' = (if granted then op_sizes op (hs_blob_sizes st) else hs_blob_sizes st)
  /\ (granted = false -> hs_disk_reclaim_requested st' = true).
Lemma rollback_exact capacity st name bytes : ledger_ok capacity st -> 0 <= bytes ->
  @op_exact unit (Op_rollback_append name bytes) capacity st.
Proof.
  intros H Hb. pose proof (ledger_ok_sizes _ _ H) as Hm. pose proof (lo_fits _ _ H) as Hf.
  unfold op_exact. simpl. unfold rollback_append_reservation.
  pose proof (sizes_prior name _ Hm) as Hp. pose proof (ledger_remove name _ (proj1 Hm)) as Hr.
  destruct (bt_get name (hs_blob_sizes st)) as [stored|] eqn:Hg; simpl in *.
  2:{ do 2 eexists. split; [reflexivity|]. split; [exact H|]. split; [symmetry; now apply Z.leb_le|easy]. }
  pose proof (ledger_insert name (stored - bytes) _ (proj1 Hm)) as Hi. rewrite Hg in Hi. simpl in Hi.
  destruct (Z.eqb_spec (saturating_sub stored bytes) 0) as [Hz|Hz];
    destruct (Z.leb_spec stored bytes); unfold saturating_sub in *; try lia; do 2 eexists; (split; [reflexivity|]).
  - split; [apply ledger_replaced; auto with ledger; lia|]. split; [symmetry; apply Z.leb_le; lia|easy].
  - replace (Z.max 0 (stored - bytes)) with (stored - bytes) by lia.
    split; [apply ledger_replaced; [exact H|apply sizes_insert; auto; lia|lia]|].
    split; [symmetry; apply Z.leb_le; lia|easy].
Qed.
Lemma truncate_exact capacity st name bytes : ledger_ok capacity st ->
  0 <= bytes <= default 0 (bt_get name (hs_blob_sizes st)) ->
  @op_exact unit (Op_truncate name bytes) capacity st.
Proof.
  intros H Hb. pose proof (ledger_ok_sizes _ _ H) as Hm. pose proof (lo_fits _ _ H) as Hf.
  unfold op_exact. simpl. unfold truncate_blob.
  pose proof (ledger_insert name bytes _ (proj1 Hm)) as Hi.
  destruct (bt_contains name (hs_blob_sizes st)); do 2 eexists; (split; [reflexivity|]).
  - split; [apply ledger_replaced; [exact H|apply sizes_insert; auto; lia|lia]|].
    split; [symmetry; apply Z.leb_le; lia|easy].
  - split; [exact H|]. split; [symmetry; now apply Z.leb_le|easy].
Qed.
Lemma reserve_all_exact capacity st blobs op : ledger_ok capacity st ->
  op = Op_reserve_all blobs \/ op = Op_reserve_metadata blobs ->
  op_valid op capacity (hs_blob_sizes st) -> @op_exact unit op capacity st.
Proof.
  intros H Hop Hv. pose proof (ledger_ok_sizes _ _ H) as Hm. pose proof (lo_fits _ _ H) as Hf.
  assert (Forall (fun b => 0 <= b.2) blobs /\ capacity + total (map snd blobs) < W64
    /\ List.NoDup (map fst blobs)) as (Hn & Ht & Hnd) by (destruct Hop as [->| ->]; exact Hv).
  assert (0 <= total (map snd blobs)) by now apply sum_nonneg, List.Forall_map.
  destruct (replaced_fold (hs_blob_sizes st) blobs (hs_blob_sizes st) Hm) as [He Hm']; auto; [lia|].
  assert (@replaced_total unit blobs st = Ok (ledger_total (op_sizes op (hs_blob_sizes st)))) as Hr.
  { unfold replaced_total. rewrite (blob_total_ok capacity) by (auto || lia). simpl.
    unfold blob_size. rewrite He. now destruct Hop as [->| ->]. }
  pose proof (lo_headroom _ _ H). pose proof (sizes_total _ Hm).
  destruct Hop as [->| ->]; unfold op_exact; simpl in *.
  - unfold try_reserve_blobs. rewrite Hr. simpl. rewrite (data_full_limit capacity), record_blobs_sizes by exact H.
    pose proof (reserve_exact capacity st (Z.max 0 (capacity - hc_disk_headroom (hs_config st))) _ _ H Hm' ltac:(lia) eq_refl) as HR.
    destruct (_ <? _); simpl in HR; do 2 eexists; (split; [reflexivity|]); exact HR.
  - unfold try_reserve_metadata_blobs. rewrite Hr. simpl. rewrite (disk_full_limit capacity), record_blobs_sizes by exact H.
    pose proof (reserve_exact capacity st capacity _ _ H Hm' (Z.le_refl _) eq_refl) as HR.
    destruct (_ <? _); simpl in HR; do 2 eexists; (split; [reflexivity|]); exact HR.
Qed.
Lemma reserve_one_exact capacity st name bs : ledger_ok capacity st ->
  op_valid (Op_reserve name bs) capacity (hs_blob_sizes st) -> @op_exact unit (Op_reserve name bs) capacity st.
Proof.
  intros H Hv. pose proof (ledger_ok_sizes _ _ H) as Hm. pose proof (lo_fits _ _ H) as Hf.
  pose proof (lo_headroom _ _ H) as Hh. pose proof (sizes_total _ Hm) as Ht.
  destruct Hv as [Hb Hcb]. pose proof (ledger_insert name bs _ (proj1 Hm)) as Hi. pose proof (sizes_prior name _ Hm) as Hp.
  pose proof (reserve_exact capacity st (Z.max 0 (capacity - hc_disk_headroom (hs_config st))) _ _ H
    (sizes_insert name bs _ Hm Hb) ltac:(lia) eq_refl) as HR.
  unfold op_exact. simpl. unfold try_reserve_blob. rewrite (blob_total_ok capacity) by (auto || lia). simpl.
  rewrite (data_full_limit capacity) by exact H. unfold blob_size.
  replace (saturating_add W64 _ bs) with (ledger_total (bt_insert name bs (hs_blob_sizes st)))
    by (unfold saturating_add, saturating_sub; lia).
  destruct (_ <? _); do 2 eexists; (split; [reflexivity|]); exact HR.
Qed.
Lemma reserve_append_exact capacity st name bs : ledger_ok capacity st ->
  op_valid (Op_reserve_append name bs) capacity (hs_blob_sizes st) -> @op_exact unit (Op_reserve_append name bs) capacity st.
Proof.
  intros H Hv. pose proof (ledger_ok_sizes _ _ H) as Hm. pose proof (lo_fits _ _ H) as Hf.
  pose proof (lo_headroom _ _ H) as Hh. pose proof (sizes_total _ Hm) as Ht.
  destruct Hv as [Hb Hcb]. set (m := bt_insert name (default 0 (bt_get name (hs_blob_sizes st)) + bs) (hs_blob_sizes st)).
  pose proof (ledger_insert name (default 0 (bt_get name (hs_blob_sizes st)) + bs) _ (proj1 Hm)) as Hi. pose proof (sizes_prior name _ Hm) as Hp.
  assert (0 <= default 0 (bt_get name (hs_blob_sizes st)) + bs) as H0 by lia.
  pose proof (reserve_exact capacity st (Z.max 0 (capacity - hc_disk_headroom (hs_config st))) _ _ H
    (sizes_insert name _ _ Hm H0) ltac:(lia) eq_refl) as HR.
  unfold op_exact. simpl. unfold try_reserve_append. rewrite (blob_total_ok capacity) by (auto || lia). simpl.
  rewrite (data_full_limit capacity) by exact H. unfold append_blob, bt_update. fold m in Hi, HR |- *.
  replace (saturating_add W64 (ledger_total _) bs) with (ledger_total m) by (unfold saturating_add; lia).
  replace (saturating_add W64 (default 0 _) bs) with (default 0 (bt_get name (hs_blob_sizes st)) + bs)
    by (unfold saturating_add; lia).
  destruct (_ <? _); do 2 eexists; (split; [reflexivity|]); exact HR.
Qed.

(** C23. The ledger never promises more than the device has. Starting from a
    ledger that fits the configured capacity, every reservation, rollback,
    truncation and deletion returns without overflowing its sums and leaves a
    ledger that fits; a reservation is granted exactly when the total it would
    lead to stays below the capacity less the headroom (below the capacity
    itself for commit metadata), it then leads to exactly that total, and a
    refusal changes no size and requests reclamation; and the reclaim target is
    reported met exactly when the headroom is free again. *)
Theorem disk_ledger_exact op capacity st :
  ledger_ok capacity st -> capacity < u64_MAX -> op_valid op capacity (hs_blob_sizes st) ->
  @op_exact unit op capacity st
  /\ @disk_reclaim_target_met unit st
     = Ok (ledger_total (hs_blob_sizes st) + hc_disk_headroom (hs_config st) <=? capacity).
Proof.
  intros H Hc Hv. pose proof (ledger_ok_sizes _ _ H) as Hm. pose proof (lo_fits _ _ H) as Hf.
  pose proof (lo_headroom _ _ H) as Hh. pose proof (sizes_total _ Hm) as Ht. split.
  2:{ unfold disk_reclaim_target_met. rewrite (lo_capacity _ _ H), (blob_total_ok capacity) by (auto || lia).
      simpl. f_equal. unfold saturating_add.
      destruct (Z.leb_spec (ledger_total (hs_blob_sizes st) + hc_disk_headroom (hs_config st)) capacity);
        [apply Z.leb_le|apply Z.leb_gt]; lia. }
  destruct op as [name bs|blobs|blobs|name bs|name bs|name bs|names]; try (now apply (reserve_all_exact capacity st blobs); auto).
  - now apply reserve_one_exact.
  - now apply reserve_append_exact.
  - now apply rollback_exact.
  - now apply truncate_exact.
  - destruct (forget_sizes names _ Hm) as [Hm' Ht']. unfold op_exact. simpl. do 2 eexists. split; [reflexivity|].
    split; [apply ledger_replaced; auto; lia|]. split; [symmetry; apply Z.leb_le; lia|easy].
Qed.

(** ** Round-robin order

    [cyc c u v]: starting just after [c] and going round, [u] comes before
    [v]. *)
Definition cyc (c u v : Z) : bool :=
  if c <? v then (c <? u) && (u <? v) else (c <? u) || (u <? v).
Definition cursor_at (cursor : option Z) : Z := default (-1) cursor.
Lemma volume_keys_sorted {V} (m : BTreeMap Z V) : bt_sorted m -> Sorted.StronglySorted Z.lt (bt_keys m).
Proof.
  unfold bt_sorted. induction 1 as [|[k v] m Hs IH Hk]; simpl; constructor; auto.
  unfold bt_keys. apply List.Forall_map. eapply List.Forall_impl, Hk. intros e He.
  now apply Z.compare_lt_iff in He.
Qed.
Lemma filter_sorted {A} (R : A -> A -> Prop) (f : A -> bool) l :
  Sorted.StronglySorted R l -> Sorted.StronglySorted R (List.filter f l).
Proof.
  induction 1 as [|x l Hs IH Hx]; simpl; [constructor|]. destruct (f x); [|exact IH].
  constructor; [exact IH|]. now apply Forall_list_filter.
Qed.
Lemma sorted_app {A} (R : A -> A -> Prop) l k : Sorted.StronglySorted R l -> Sorted.StronglySorted R k ->
  (forall x y, In x l -> In y k -> R x y) -> Sorted.StronglySorted R (l ++ k).
Proof.
  induction 1 as [|x l Hs IH Hx]; intros Hk H; simpl; [exact Hk|]. constructor.
  - apply IH; [exact Hk|]. intros; apply H; [now right|assumption].
  - apply Forall_app. split; [exact Hx|]. rewrite List.Forall_forall. intros y Hy. apply H; [now left|exact Hy].
Qed.
Lemma sorted_weaken {A} (R Q : A -> A -> Prop) l : Sorted.StronglySorted R l ->
  (forall x y, In x l -> In y l -> R x y -> Q x y) -> Sorted.StronglySorted Q l.
Proof.
  induction 1 as [|x l Hs IH Hx]; intros H; constructor.
  - apply IH. intros; apply H; auto; now right.
  - rewrite List.Forall_forall in *. intros y Hy. apply H; [now left|now right|auto].
Qed.
Lemma after_cursor_In cursor l x : In x (after_cursor cursor l) <-> In x l.
Proof.
  destruct cursor as [c|]; simpl; [|reflexivity]. rewrite in_app_iff, !filter_In.
  destruct (Z.ltb_spec c x), (Z.leb_spec x c); intuition (lia || congruence).
Qed.
Lemma after_cursor_sorted cursor l : Sorted.StronglySorted Z.lt l -> Forall (Z.le 0) l ->
  Sorted.StronglySorted (fun u v => cyc (cursor_at cursor) u v = true) (after_cursor cursor l).
Proof.
  intros Hs Hl. rewrite List.Forall_forall in Hl. destruct cursor as [c|]; simpl.
  - apply sorted_app.
    + eapply sorted_weaken; [apply filter_sorted, Hs|]. intros x y [_ Hx]%filter_In [_ Hy]%filter_In Hxy. unfold cyc. rewrite Hy. lia.
    + eapply sorted_weaken; [apply filter_sorted, Hs|]. intros x y [_ Hx]%filter_In [_ Hy]%filter_In Hxy. unfold cyc.
      destruct (Z.ltb_spec c y); lia.
    + intros x y [_ Hx]%filter_In [_ Hy]%filter_In. unfold cyc. destruct (Z.ltb_spec c y); lia.
  - eapply sorted_weaken; [exact Hs|]. intros x y Hx Hy Hxy. specialize (Hl x Hx) as H1. specialize (Hl y Hy) as H2.
    unfold cyc. destruct (Z.ltb_spec (-1) y); lia.
Qed.
Lemma sorted_take {A} (R : A -> A -> Prop) k (l : list A) v : Sorted.StronglySorted R l -> In v l ->
  ~ In v (take k l) -> length (take k l) = k /\ (forall u, In u (take k l) -> R u v)
  /\ match list.last (take k l) with
     | Some w => forall u, In u (take k l) -> u = w \/ R u w
     | None => k = 0%nat
     end.
Proof.
  revert k. induction l as [|x l IH]; intros k Hs Hv Hn; [easy|]. inversion Hs as [|? ? Hs' Hx]; subst.
  destruct k as [|k]; [simpl; repeat split; easy|]. simpl in *. rewrite List.Forall_forall in Hx.
  destruct Hv as [->|Hv]; [tauto|]. destruct (IH k Hs' Hv) as (H1 & H2 & H3); [tauto|].
  split; [lia|]. split; [intros u [->|Hu]; auto|].
  destruct (take k l) as [|y t] eqn:Ht; [intros u [->|[]]; auto|].
  change (list.last (x :: y :: t)) with (list.last (y :: t)).
  destruct (list.last (y :: t)) as [w|] eqn:Hw; [|apply last_None in Hw; discriminate].
  intros u [->|Hu]; [right|auto]. apply Hx. apply last_Some in Hw as [t' Hw].
  assert (In w (take k l)) as Hin by (rewrite Ht, Hw; apply in_app_iff; right; now left).
  rewrite <- (take_drop k l). apply in_app_iff. auto.
Qed.
Lemma sorted_NoDup {A} (R : A -> A -> Prop) l : (forall x, ~ R x x) ->
  Sorted.StronglySorted R l -> List.NoDup l.
Proof.
  intros Hirr. induction 1 as [|x l Hs IH Hx]; constructor; auto.
  rewrite List.Forall_forall in Hx. intros Hin. apply (Hirr x), Hx, Hin.
Qed.
Lemma cyc_irrefl c u : cyc c u u <> true.
Proof. unfold cyc. destruct (Z.ltb_spec c u); lia. Qed.
(** How many members of [universe] may still go before [v]. *)
Definition ahead (universe : list Z) (c v : Z) : Z := len (List.filter (fun u => cyc c u v) universe).
Lemma ahead_step universe c w v selected : List.NoDup universe -> List.NoDup selected ->
  (forall u, In u selected -> In u universe) ->
  (forall u, In u selected -> cyc c u v = true) -> In w selected ->
  (forall u, In u selected -> u = w \/ cyc c u w = true) ->
  ahead universe w v + len selected <= ahead universe c v.
Proof.
  intros Hu Hs Hin Hv Hw Hlast. unfold ahead, len.
  rewrite <- Nat2Z.inj_add, <- length_app. apply Nat2Z.inj_le, List.NoDup_incl_length.
  - apply List.NoDup_app; [now apply List.NoDup_filter|exact Hs|].
    intros u [_ Hc]%filter_In Hu'. specialize (Hv _ Hu') as H1. specialize (Hv _ Hw) as H2.
    destruct (Hlast _ Hu') as [->|H3]; unfold cyc in *;
      repeat match goal with H : context [if ?a <? ?b then _ else _] |- _ => destruct (Z.ltb_spec a b) end; lia.
  - intros u [[Hin' Hc]%filter_In|Hu']%in_app_iff; apply filter_In; [|auto].
    split; [exact Hin'|]. specialize (Hv _ Hw) as H2. unfold cyc in *;
      repeat match goal with |- context [if ?a <? ?b then _ else _] => destruct (Z.ltb_spec a b)
        | H : context [if ?a <? ?b then _ else _] |- _ => destruct (Z.ltb_spec a b) end; lia.
Qed.

(** One round of the supervisor: volumes become due, then a batch is taken. *)
Definition round (limit : Z) (due : list Z) (st : HostState) : HostState * list Z :=
  take_scheduled_volumes limit (fold_left (fun st v => schedule_volume v st) due st).
Fixpoint rounds (limit : Z) (dues : list (list Z)) (st : HostState) : HostState * list (list Z) :=
  match dues with
  | [] => (st, [])
  | due :: dues =>
      let '(st, selected) := round limit due st in
      let '(st, batches) := rounds limit dues st in
      (st, selected :: batches)
  end.
Record schedule_ok (st : HostState) : Prop := {
  so_volumes : bt_sorted (hs_volumes st);
  so_scheduled : bt_sorted (hs_scheduled_volumes st);
  so_nonneg : Forall (Z.le 0) (bt_keys (hs_volumes st));
  so_known v : In v (bt_keys (hs_scheduled_volumes st)) -> In v (bt_keys (hs_volumes st)) }.
Lemma schedule_ok_due due st : schedule_ok st ->
  let st' := fold_left (fun st v => schedule_volume v st) due st in
  schedule_ok st' /\ hs_volumes st' = hs_volumes st /\ hs_scheduled_cursor st' = hs_scheduled_cursor st
  /\ (forall v, In v (bt_keys (hs_scheduled_volumes st)) -> In v (bt_keys (hs_scheduled_volumes st'))).
Proof.
  revert st. induction due as [|x due IH]; intros st H; simpl; [auto|].
  assert (schedule_ok (schedule_volume x st) /\ hs_volumes (schedule_volume x st) = hs_volumes st
    /\ hs_scheduled_cursor (schedule_volume x st) = hs_scheduled_cursor st
    /\ forall v, In v (bt_keys (hs_scheduled_volumes st)) ->
         In v (bt_keys (hs_scheduled_volumes (schedule_volume x st)))) as (H1 & H2 & H3 & H4).
  { unfold schedule_volume. destruct (bt_contains x (hs_volumes st)) eqn:E; [|auto].
    apply bt_contains_In in E. destruct H as [A1 A2 A3 A4]. split; [|split; [easy|split; [easy|]]].
    - constructor; simpl; auto with btree. intros v [->|Hv]%bt_keys_insert; auto.
    - intros v Hv. simpl. apply bt_keys_insert. auto. }
  destruct (IH _ H1) as (G1 & G2 & G3 & G4). split; [exact G1|]. split; [congruence|]. split; [congruence|auto].
Qed.
Lemma removed_keys l : forall (s : BTreeSet Z), bt_sorted s ->
  let s' := fold_left (fun s v => bt_remove v s) l s in
  bt_sorted s' /\ (forall v, In v (bt_keys s') <-> In v (bt_keys s) /\ ~ In v l).
Proof.
  induction l as [|x l IH]; intros s Hs; simpl; [intuition|].
  destruct (IH (bt_remove x s)) as [H1 H2]; [auto with btree|]. split; [exact H1|].
  intros v. rewrite H2, bt_keys_remove. intuition congruence.
Qed.
(** A round takes [v], or brings it closer to its turn by a whole batch. *)
Lemma round_progress limit due st v : schedule_ok st -> 0 < limit ->
  In v (bt_keys (hs_scheduled_volumes st)) ->
  let r := round limit due st in
  schedule_ok r.1 /\ hs_volumes r.1 = hs_volumes st
  /\ (In v r.2 \/
      (In v (bt_keys (hs_scheduled_volumes r.1))
       /\ ahead (bt_keys (hs_volumes st)) (cursor_at (hs_scheduled_cursor r.1)) v + limit
          <= ahead (bt_keys (hs_volumes st)) (cursor_at (hs_scheduled_cursor st)) v)).
Proof.
  intros H Hl Hv. unfold round. destruct (schedule_ok_due due st H) as (H1 & H2 & H3 & H4).
  set (s := fold_left _ due st) in *. specialize (H4 v Hv). destruct H1 as [A1 A2 A3 A4].
  unfold take_scheduled_volumes. set (queue := after_cursor _ _).
  assert (Forall (Z.le 0) (bt_keys (hs_scheduled_volumes s))) as Hn.
  { rewrite List.Forall_forall in *. auto. }
  pose proof (after_cursor_sorted (hs_scheduled_cursor s) _ (volume_keys_sorted _ A2) Hn) as Hq. fold queue in Hq.
  assert (forall u, In u queue <-> In u (bt_keys (hs_scheduled_volumes s))) as Hqi by (intros; apply after_cursor_In).
  destruct (removed_keys (take (Z.to_nat limit) queue) _ A2) as [R1 R2]. simpl.
  split; [constructor; simpl; auto; intros u [Hu _]%R2; auto|]. split; [exact H2|].
  destruct (decide (In v (take (Z.to_nat limit) queue))) as [|Hno]; [now left|right].
  split; [apply R2; auto|]. rewrite <- H2, <- H3.
  destruct (sorted_take _ (Z.to_nat limit) queue v Hq) as (T1 & T2 & T3); [now apply Hqi|exact Hno|].
  unfold move_cursor. destruct (list.last (take (Z.to_nat limit) queue)) as [w|] eqn:Hw; [|lia]. simpl.
  replace limit with (len (take (Z.to_nat limit) queue)) at 1 by (unfold len; lia).
  apply ahead_step; auto.
  - now apply bt_sorted_NoDup.
  - apply List.NoDup_app_remove_r with (drop (Z.to_nat limit) queue). rewrite take_drop. eapply sorted_NoDup, Hq. intros u. apply cyc_irrefl.
  - intros u Hu. apply A4, Hqi. rewrite <- (take_drop (Z.to_nat limit) queue). apply in_app_iff. auto.
  - apply last_Some in Hw as [t Ht]. rewrite Ht. apply in_app_iff. right. now left.
Qed.
Lemma ahead_nonneg universe c v : 0 <= ahead universe c v.
Proof. apply len_nonneg. Qed.
Lemma ahead_bound universe c v : In v universe -> ahead universe c v < len universe.
Proof.
  unfold ahead. induction universe as [|x l IH]; simpl; [easy|]. intros [->|Hv].
  - destruct (cyc c v v) eqn:E; [now apply cyc_irrefl in E|]. pose proof (len_filter_le (fun u => cyc c u v) l).
    rewrite len_cons. lia.
  - specialize (IH Hv). destruct (cyc c x v); rewrite !len_cons; lia.
Qed.
Lemma rounds_progress limit dues : forall st v, schedule_ok st -> 0 < limit ->
  In v (bt_keys (hs_scheduled_volumes st)) -> ~ In v (concat (rounds limit dues st).2) ->
  limit * len dues <= ahead (bt_keys (hs_volumes st)) (cursor_at (hs_scheduled_cursor st)) v.
Proof.
  induction dues as [|due dues IH]; intros st v H Hl Hv Hno; cbn [rounds] in *.
  { rewrite len_nil. pose proof (ahead_nonneg (bt_keys (hs_volumes st)) (cursor_at (hs_scheduled_cursor st)) v). lia. }
  destruct (round_progress limit due st v H Hl Hv) as (H1 & H2 & H3).
  destruct (round limit due st) as [st1 sel]. cbn [fst snd] in *.
  specialize (IH st1 v H1 Hl). destruct (rounds limit dues st1) as [st2 batches]. simpl in *.
  rewrite in_app_iff in Hno. destruct H3 as [?|[H3 H4]]; [tauto|].
  specialize (IH H3 ltac:(tauto)). rewrite H2 in IH. rewrite len_cons. lia.
Qed.

(** C26. No volume starves. A volume that is due is handed out within as many
    rounds as it takes to go once round the host's volumes in batches of the
    limit, whatever other volumes keep becoming due in the meantime and
    wherever the cursor stands. *)
Theorem scheduled_fair limit dues st v :
  schedule_ok st -> 0 < limit -> In v (bt_keys (hs_scheduled_volumes st)) ->
  len (hs_volumes st) <= limit * len dues ->
  exists batch, In batch (rounds limit dues st).2 /\ In v batch.
Proof.
  intros H Hl Hv Hn. destruct (decide (In v (concat (rounds limit dues st).2))) as [Hin|Hno].
  { apply in_concat in Hin as (batch & Hb & Hvb). eauto. }
  pose proof (rounds_progress limit dues st v H Hl Hv Hno) as Hp.
  pose proof (ahead_bound (bt_keys (hs_volumes st)) (cursor_at (hs_scheduled_cursor st)) v (so_known _ H v Hv)) as Hb.
  unfold bt_keys in Hb at 2. rewrite len_map in Hb. lia.
Qed.

(** ** The reclaim scan *)
Fixpoint reclaim_scan (limit : Z) (calls : nat) (st : HostState) : HostState * list Z :=
  match calls with
  | O => (st, [])
  | S calls =>
      let '(st, selected) := take_disk_reclaim_scan_volumes limit st in
      let '(st, rest) := reclaim_scan limit calls st in
      (st, selected ++ rest)
  end.
Lemma scan_volumes limit calls : forall st, hs_volumes (reclaim_scan limit calls st).1 = hs_volumes st.
Proof.
  induction calls as [|calls IH]; intros st; cbn [reclaim_scan]; [reflexivity|].
  assert (hs_volumes (take_disk_reclaim_scan_volumes limit st).1 = hs_volumes st) as Hv.
  { unfold take_disk_reclaim_scan_volumes. now destruct (hs_disk_reclaim_requested st). }
  destruct (take_disk_reclaim_scan_volumes limit st) as [st1 sel]. specialize (IH st1).
  destruct (reclaim_scan limit calls st1) as [st2 rest]. simpl in *. congruence.
Qed.
(** The scan has visited the first [j] volumes. *)
Record scanning (j : nat) (st : HostState) : Prop := {
  sc_requested : hs_disk_reclaim_requested st = true;
  sc_sorted : bt_sorted (hs_volumes st);
  sc_within : (j <= length (hs_volumes st))%nat;
  sc_cursor : hs_disk_reclaim_scan_cursor st = list.last (take j (bt_keys (hs_volumes st)));
  sc_remaining : hs_disk_reclaim_scan_remaining st = len (hs_volumes st) - Z.of_nat j }.
Lemma sorted_split_at (l : list Z) k w : Sorted.StronglySorted Z.lt (l ++ w :: k) ->
  List.filter (fun v => w <? v) (l ++ w :: k) = k.
Proof.
  intros Hs. rewrite List.filter_app. simpl. rewrite Z.ltb_irrefl.
  assert (List.filter (fun v => w <? v) l = []) as ->.
  { induction l as [|x l IH]; simpl; [reflexivity|]. inversion Hs as [|? ? Hs' Hx]; subst.
    rewrite Forall_app in Hx. destruct Hx as [_ Hx]. apply Forall_cons_1 in Hx as [Hx _].
    destruct (Z.ltb_spec w x); [lia|]. now apply IH. }
  simpl. clear - Hs. induction l as [|x l IH]; simpl in Hs; inversion Hs as [|? ? Hs' Hx]; subst; [|now apply IH].
  clear - Hx. induction k as [|y k IH]; simpl; [reflexivity|]. apply Forall_cons_1 in Hx as [Hy Hx].
  destruct (Z.ltb_spec w y); [|lia]. f_equal. now apply IH.
Qed.
Lemma after_last (l : list Z) j : Sorted.StronglySorted Z.lt l -> (j <= length l)%nat ->
  exists rest, after_cursor (list.last (take j l)) l = drop j l ++ rest.
Proof.
  intros Hs Hj. destruct (list.last (take j l)) as [w|] eqn:Hw; simpl.
  - apply last_Some in Hw as [t Ht]. eexists. f_equal. rewrite <- (take_drop j l) at 1. rewrite Ht, <- app_assoc. simpl.
    apply sorted_split_at. rewrite <- (take_drop j l), Ht, <- app_assoc in Hs. exact Hs.
  - apply last_None in Hw. assert (j = 0%nat \/ l = []) as [->| ->].
    { destruct l, j; simpl in *; auto; discriminate. }
    + exists []. rewrite drop_0. now rewrite app_nil_r.
    + exists []. now rewrite drop_nil.
Qed.
Lemma scan_call limit j st : scanning j st -> 0 < limit ->
  let n := Nat.min (Z.to_nat limit) (length (hs_volumes st) - j) in
  let r := take_disk_reclaim_scan_volumes limit st in
  scanning (j + n) r.1 /\ hs_volumes r.1 = hs_volumes st /\ r.2 = take n (drop j (bt_keys (hs_volumes st))).
Proof.
  intros [Hr Hs Hj Hc Hm] Hl n. unfold take_disk_reclaim_scan_volumes. rewrite Hr, Hc, Hm. simpl.
  assert (length (bt_keys (hs_volumes st)) = length (hs_volumes st)) as Hk by apply length_map.
  destruct (after_last (bt_keys (hs_volumes st)) j (volume_keys_sorted _ Hs)) as (rest & ->); [lia|].
  replace (Z.to_nat (Z.min limit (len (hs_volumes st) - Z.of_nat j))) with n by (unfold n, len; lia).
  rewrite take_app_le by (rewrite length_drop; lia).
  set (sel := take n (drop j (bt_keys (hs_volumes st)))).
  assert (length sel = n) as Hsel by (unfold sel; rewrite length_take, length_drop; lia).
  assert (take (j + n) (bt_keys (hs_volumes st)) = take j (bt_keys (hs_volumes st)) ++ sel) as Htk.
  { unfold sel. rewrite take_take_drop. reflexivity. }
  split; [|auto]. constructor; simpl; auto; [lia| |].
  - rewrite Htk. unfold move_cursor. destruct (list.last sel) as [w|] eqn:Hw.
    + apply last_Some in Hw as [t ->]. now rewrite app_assoc, last_snoc.
    + apply last_None in Hw. rewrite Hw, app_nil_r. reflexivity.
  - destruct sel eqn:E; [simpl in *; unfold len; lia|]. rewrite <- E in *. unfold saturating_sub, len in *. lia.
Qed.
Lemma scan_calls limit calls : forall j st, scanning j st -> 0 < limit ->
  let n := Nat.min (calls * Z.to_nat limit) (length (hs_volumes st) - j) in
  let r := reclaim_scan limit calls st in
  scanning (j + n) r.1 /\ r.2 = take n (drop j (bt_keys (hs_volumes st))).
Proof.
  induction calls as [|calls IH]; intros j st H Hl; simpl.
  { rewrite Nat.add_0_r, take_0. auto. }
  destruct (scan_call limit j st H Hl) as (H1 & H2 & H3).
  destruct (take_disk_reclaim_scan_volumes limit st) as [st1 sel]. simpl in *.
  destruct (IH _ st1 H1 Hl) as [H4 H5]. destruct (reclaim_scan limit calls st1) as [st2 rest]. simpl in *.
  rewrite H2 in *. set (n1 := Nat.min (Z.to_nat limit) _) in *. pose proof (sc_within _ _ H) as Hj.
  set (n2 := Nat.min (calls * _) _) in *.
  replace (Nat.min _ _) with (n1 + n2)%nat by lia. split; [now rewrite Nat.add_assoc|].
  rewrite H3, H5. rewrite <- (take_take_drop (drop j (bt_keys (hs_volumes st))) n1 n2), drop_drop. f_equal.
Qed.

(** A reclaim scan ends and misses nothing. After a fresh request, any
    number of calls with a positive limit returns the host's volumes in
    ascending order, each exactly once, [calls * limit] of them or all; once
    all were returned every further call is empty, until another request. *)
Theorem reclaim_scan_exact limit calls st :
  bt_sorted (hs_volumes st) -> hs_disk_reclaim_requested st = false -> 0 < limit ->
  let r := reclaim_scan limit calls (request_disk_reclaim st) in
  r.2 = take (calls * Z.to_nat limit) (bt_keys (hs_volumes st))
  /\ List.NoDup r.2
  /\ hs_disk_reclaim_scan_remaining r.1 = Z.max 0 (len (hs_volumes st) - Z.of_nat calls * limit)
  /\ (len (hs_volumes st) <= Z.of_nat calls * limit ->
      r.2 = bt_keys (hs_volumes st) /\ forall more, (reclaim_scan limit more r.1).2 = []).
Proof.
  intros Hs Hr Hl r. assert (scanning 0 (request_disk_reclaim st)) as H0.
  { unfold request_disk_reclaim. rewrite Hr. constructor; simpl; auto; [lia|]. rewrite Z.sub_0_r. reflexivity. }
  assert (hs_volumes (request_disk_reclaim st) = hs_volumes st) as Hv by (unfold request_disk_reclaim; now rewrite Hr).
  destruct (scan_calls limit calls 0 _ H0 Hl) as [H1 H2]. fold r in H1, H2. rewrite Hv, Nat.sub_0_r, drop_0 in *. simpl in H1.
  assert (length (bt_keys (hs_volumes st)) = length (hs_volumes st)) as Hk by apply length_map.
  assert (r.2 = take (calls * Z.to_nat limit) (bt_keys (hs_volumes st))) as H3.
  { rewrite H2, <- Hk, <- take_take, firstn_all. reflexivity. }
  split; [exact H3|]. split.
  { rewrite H3. apply List.NoDup_app_remove_r with (drop (calls * Z.to_nat limit) (bt_keys (hs_volumes st))). rewrite take_drop. now apply bt_sorted_NoDup. }
  assert (hs_volumes r.1 = hs_volumes st) as Hv1.
  { rewrite <- Hv. apply scan_volumes. }
  split; [rewrite (sc_remaining _ _ H1), Hv1; unfold len; lia|].
  intros Hn. rewrite H3, firstn_all2 by (unfold len in *; lia). split; [reflexivity|]. intros more.
  destruct (scan_calls limit more _ _ H1 Hl) as [_ ->]. rewrite Hv1. unfold len in Hn.
  rewrite drop_ge by lia. now rewrite take_nil.
Qed.
