(* ===== verification/HostExamples.v ===== *)
(** * The host's ledger and scheduler on a small host *)

From Stdlib Require Sorted.
From S2P Require Import Prelude Types OrdMap Text HostState HostSafety.

#[local] Open Scope Z_scope.

(** Three volumes, a device of 100 bytes with 10 set aside, 60 in use. *)
Definition sample_host : HostState :=
  {| hs_config := {| hc_host := 1; hc_disk_capacity := Some 100; hc_disk_headroom := 10;
                     hc_spool_capacity_bytes := 1000 |};
     hs_volumes := bts_collect [3; 5; 9];
     hs_replicas := [];
     hs_blob_sizes := bt_collect [("a"%string, 40); ("b"%string, 20)];
     hs_scheduled_volumes := bts_collect [3; 5; 9];
     hs_scheduled_cursor := Some 5;
     hs_disk_reclaim_requested := false;
     hs_disk_reclaim_scan_cursor := None;
     hs_disk_reclaim_scan_remaining := 0 |}.
Lemma sample_ledger : ledger_ok 100 sample_host.
Proof.
  constructor; [reflexivity|vm_compute; discriminate|repeat constructor| |vm_compute; discriminate].
  intros name size H%bt_get_In. vm_compute in H. destruct H as [[= <- <-]|[[= <- <-]|[]]]; discriminate.
Defined.
Lemma sample_schedule : schedule_ok sample_host.
Proof. constructor; [repeat constructor|repeat constructor|repeat constructor; discriminate|auto]. Defined.

(** Thirty more bytes fit exactly; thirty-one do not. *)
Lemma disk_ledger_exact_witness :
  @op_exact unit (Op_reserve_append "b" 30) 100 sample_host
  /\ @op_exact unit (Op_reserve_append "b" 31) 100 sample_host
  /\ @try_reserve_append unit "b" 30 sample_host <> Ok (request_disk_reclaim sample_host, false)
  /\ @try_reserve_append unit "b" 31 sample_host = Ok (request_disk_reclaim sample_host, false).
Proof.
  split; [|split; [|split]].
  - apply (disk_ledger_exact (Op_reserve_append "b" 30) 100 sample_host sample_ledger); [reflexivity|split; [discriminate|reflexivity]].
  - apply (disk_ledger_exact (Op_reserve_append "b" 31) 100 sample_host sample_ledger); [reflexivity|split; [discriminate|reflexivity]].
  - vm_compute. discriminate.
  - reflexivity.
Defined.
(** With a batch of one, 5 waits for 9 and 3 although both come back due. *)
Lemma scheduled_fair_witness :
  (exists batch, In batch (rounds 1 [[]; [9]; [9; 3]] sample_host).2 /\ In 5 batch)
  /\ (rounds 1 [[]; [9]; [9; 3]] sample_host).2 = [[9]; [3]; [5]].
Proof.
  split; [|reflexivity]. apply (scheduled_fair 1 _ sample_host 5 sample_schedule); [reflexivity| |discriminate].
  simpl. auto.
Defined.
Lemma reclaim_scan_exact_witness :
  (reclaim_scan 2 1 (request_disk_reclaim sample_host)).2 = [3; 5]
  /\ (reclaim_scan 2 2 (request_disk_reclaim sample_host)).2 = bt_keys (hs_volumes sample_host).
Proof.
  destruct (reclaim_scan_exact 2 2 sample_host ltac:(repeat constructor) eq_refl ltac:(reflexivity)) as (_ & _ & _ & H).
  split; [reflexivity|]. now apply H.
Defined.
