(* ===== verification/ReplicaSpool.v ===== *)
(** * Replica spools ([replica_spool.rs], [replica_wire.rs])

    The append-only file in which a peer keeps another host's commits: artifact
    frames followed by commit frames. A restart scans the file up to the first
    torn frame. *)

From S2P Require Import Prelude Format Types OrdMap Blx BlxFile BlxScan Manifest PageFile Journal JournalFormat.

Definition MAGIC_REPLICA_ARTIFACT : Z := magic 66 82 65 49. (* BRA1 *)
Definition MAGIC_REPLICA_COMMIT : Z := magic 66 82 67 49. (* BRC1 *)

Record ReplicaArtifactFrame := {
  af_source : Z;
  af_volume : Z;
  af_assignment_epoch : Z;
  af_artifact : ReplicaArtifact;
  af_checksum : Z;
  af_bytes : bytes }.
Record ReplicaCommitFrame := {
  cf_source : Z;
  cf_volume : Z;
  cf_assignment_epoch : Z;
  cf_info : ReplicaCommitInfo;
  cf_required : list ReplicaArtifact;
  cf_record : bytes }.
#[export] Instance ReplicaCommitInfo_eq_dec : EqDecision ReplicaCommitInfo.
Proof. solve_decision. Defined.
#[export] Instance ReplicaCommitFrame_eq_dec : EqDecision ReplicaCommitFrame.
Proof. solve_decision. Defined.
Record ReplicaSpoolScan := {
  ss_valid_len : Z;
  ss_truncated_tail : bool;
  ss_artifacts : BTreeMap ReplicaArtifact ReplicaArtifactFrame;
  ss_uncommitted_artifacts : BTreeSet ReplicaArtifact;
  ss_commits : list ReplicaCommitFrame }.
Inductive ReplicaSpoolError := SpoolError.
(** [From<DecodeError>]. *)
Definition spool {A} (c : outcome DecodeError A) : outcome ReplicaSpoolError A :=
  map_err (fun _ => SpoolError) c.

(** ** [replica_wire.rs] *)
Definition encode_artifact (artifact : ReplicaArtifact) (e : Enc) : Enc :=
  match artifact with Blx fence object => e |> Enc_u8 0 |> Enc_u64 fence |> Enc_u64 object end.
Definition decode_artifact : dec ReplicaArtifact :=
  let* kind := Dec_u8 in
  guard* kind =? 0 in
  let* fence := Dec_u64 in
  let* object := Dec_u64 in
  dec_ret (Blx fence object).
Definition encode_commit_info (info : ReplicaCommitInfo) (e : Enc) : Enc :=
  e |> Enc_u64 (rci_writer_fence info) |> Enc_u64 (rci_seq info)
    |> Enc_u64 (rci_sync_covered_through info).
Definition decode_commit_info : dec ReplicaCommitInfo :=
  let* writer_fence := Dec_u64 in
  let* seq := Dec_u64 in
  let* sync_covered_through := Dec_u64 in
  dec_ret {| rci_writer_fence := writer_fence; rci_seq := seq;
             rci_sync_covered_through := sync_covered_through |}.

(** [windows(2)]: no adjacent pair is out of order. *)
Fixpoint strictly_ordered (l : list ReplicaArtifact) : bool :=
  match l with
  | x :: (y :: _) as l => cmp_ltb x y && strictly_ordered l
  | _ => true
  end.

Section Spool.
Context `{C : Crc} `{L : Lz4} `{P : PageSize}.

Definition verify_artifact (volume : Z) (artifact : ReplicaArtifact) (bs : bytes)
  : outcome ReplicaSpoolError unit :=
  match artifact with
  | Blx fence object =>
      let? (got_volume, got_fence, got_seg, _) := spool (scan_page_file bs) in
      check? bool_decide ((got_volume, got_fence, got_seg) = (volume, fence, object)) or SpoolError in
      Ok tt
  end.
Definition verify_record (volume : Z) (info : ReplicaCommitInfo) (bs : bytes)
  : outcome ReplicaSpoolError unit :=
  let? record := spool (JournalRecord_decode volume bs) in
  check? (jr_fence record =? rci_writer_fence info) && (jr_seq record =? rci_seq info)
         && (jr_sync_covered_through record =? rci_sync_covered_through info) or SpoolError in
  Ok tt.

(** ** Writing frames *)
Definition artifact_payload (frame : ReplicaArtifactFrame) : bytes :=
  Enc_new |> Enc_u16 2 |> Enc_u32 (af_source frame) |> Enc_u64 (af_volume frame)
    |> Enc_u64 (af_assignment_epoch frame) |> encode_artifact (af_artifact frame)
    |> Enc_u32 (af_checksum frame) |> Enc_u32 (len (af_bytes frame)) |> Enc_bytes (af_bytes frame)
    |> Enc_finish.
Definition seal_verified_replica_artifact (source volume assignment_epoch : Z)
    (artifact : ReplicaArtifact) (checksum : Z) (bs : bytes) : outcome ReplicaSpoolError bytes :=
  let? _ := verify_artifact volume artifact bs in
  check? len bs <? W32 or SpoolError in
  seal_frame MAGIC_REPLICA_ARTIFACT
    (artifact_payload {| af_source := source; af_volume := volume;
       af_assignment_epoch := assignment_epoch; af_artifact := artifact;
       af_checksum := checksum; af_bytes := bs |}).
Definition seal_replica_artifact (source volume assignment_epoch : Z)
    (artifact : ReplicaArtifact) (bs : bytes) : outcome ReplicaSpoolError bytes :=
  let checksum := crc32c bs in
  seal_verified_replica_artifact source volume assignment_epoch artifact checksum bs.
Definition commit_payload (frame : ReplicaCommitFrame) : bytes :=
  Enc_new |> Enc_u16 2 |> Enc_u32 (cf_source frame) |> Enc_u64 (cf_volume frame)
    |> Enc_u64 (cf_assignment_epoch frame) |> encode_commit_info (cf_info frame)
    |> Enc_u32 (len (cf_required frame)) |> Enc_each encode_artifact (cf_required frame)
    |> Enc_u32 (len (cf_record frame)) |> Enc_bytes (cf_record frame) |> Enc_finish.
Definition seal_replica_commit (source volume assignment_epoch : Z) (info : ReplicaCommitInfo)
    (required : list ReplicaArtifact) (record : bytes) : outcome ReplicaSpoolError bytes :=
  check? strictly_ordered required or SpoolError in
  let? _ := verify_record volume info record in
  check? len required <? W32 or SpoolError in
  check? len record <? W32 or SpoolError in
  seal_frame MAGIC_REPLICA_COMMIT
    (commit_payload {| cf_source := source; cf_volume := volume;
       cf_assignment_epoch := assignment_epoch; cf_info := info; cf_required := required;
       cf_record := record |}).

(** ** Reading frames *)
Definition artifact_fields : dec ReplicaArtifactFrame :=
  let* version := Dec_u16 in
  guard* version =? 2 in
  let* source := Dec_u32 in
  let* volume := Dec_u64 in
  let* assignment_epoch := Dec_u64 in
  let* artifact := decode_artifact in
  let* checksum := Dec_u32 in
  let* length := Dec_u32 in
  let* bs := Dec_bytes length in
  let* _ := Dec_finish in
  dec_ret {| af_source := source; af_volume := volume; af_assignment_epoch := assignment_epoch;
             af_artifact := artifact; af_checksum := checksum; af_bytes := bs |}.
Definition open_artifact (bs : bytes) : outcome ReplicaSpoolError ReplicaArtifactFrame :=
  let? payload := spool (open_frame MAGIC_REPLICA_ARTIFACT bs) in
  let? frame := spool (Dec_run artifact_fields payload) in
  check? crc32c (af_bytes frame) =? af_checksum frame or SpoolError in
  let? _ := verify_artifact (af_volume frame) (af_artifact frame) (af_bytes frame) in
  Ok frame.
Definition commit_fields : dec ReplicaCommitFrame :=
  let* version := Dec_u16 in
  guard* version =? 2 in
  let* source := Dec_u32 in
  let* volume := Dec_u64 in
  let* assignment_epoch := Dec_u64 in
  let* info := decode_commit_info in
  let* count := Dec_u32 in
  if 1000000 <? count then dec_fail else
  let* required := dec_repeat (Z.to_nat count) decode_artifact in
  guard* strictly_ordered required in
  let* length := Dec_u32 in
  let* record := Dec_bytes length in
  let* _ := Dec_finish in
  dec_ret {| cf_source := source; cf_volume := volume; cf_assignment_epoch := assignment_epoch;
             cf_info := info; cf_required := required; cf_record := record |}.
Definition open_commit (bs : bytes) : outcome ReplicaSpoolError ReplicaCommitFrame :=
  let? payload := spool (open_frame MAGIC_REPLICA_COMMIT bs) in
  let? frame := spool (Dec_run commit_fields payload) in
  let? _ := verify_record (cf_volume frame) (cf_info frame) (cf_record frame) in
  Ok frame.

(** ** The scan *)
Definition framed_len (bs : bytes) : option Z :=
  if len bs <? FRAME_HEADER then None else
  let payload := from_le (take 4 (drop 4 bs)) in
  let length := FRAME_HEADER + payload in
  if length <=? len bs then Some length else None.

Abbreviation Identity := (Z * Z * Z)%type.
Definition check_identity (identity : option Identity) (source volume assignment_epoch : Z)
  : outcome ReplicaSpoolError (option Identity) :=
  let incoming := (source, volume, assignment_epoch) in
  match identity with
  | None => Ok (Some incoming)
  | Some existing => check? bool_decide (existing = incoming) or SpoolError in Ok identity
  end.

(** What the scan has gathered from the frames so far. *)
Record Replay := {
  rp_identity : option Identity;
  rp_artifacts : BTreeMap ReplicaArtifact ReplicaArtifactFrame;
  rp_uncommitted : BTreeSet ReplicaArtifact;
  rp_commits : list ReplicaCommitFrame }.
Definition replay_start : Replay :=
  {| rp_identity := None; rp_artifacts := []; rp_uncommitted := []; rp_commits := [] |}.
Definition scan_artifact (r : Replay) (frame : ReplicaArtifactFrame) : outcome ReplicaSpoolError Replay :=
  let? identity := check_identity (rp_identity r) (af_source frame) (af_volume frame)
                     (af_assignment_epoch frame) in
  match bt_get (af_artifact frame) (rp_artifacts r) with
  | None =>
      Ok {| rp_identity := identity;
            rp_artifacts := bt_insert (af_artifact frame) frame (rp_artifacts r);
            rp_uncommitted := bt_insert (af_artifact frame) tt (rp_uncommitted r);
            rp_commits := rp_commits r |}
  | Some existing =>
      check? (af_checksum existing =? af_checksum frame)
             && bytes_eqb (af_bytes existing) (af_bytes frame) or SpoolError in
      Ok {| rp_identity := identity; rp_artifacts := rp_artifacts r;
            rp_uncommitted := rp_uncommitted r; rp_commits := rp_commits r |}
  end.
Definition rank (info : ReplicaCommitInfo) : Z * Z := (rci_sync_covered_through info, rci_seq info).
Definition scan_commit (r : Replay) (frame : ReplicaCommitFrame) : outcome ReplicaSpoolError Replay :=
  let? identity := check_identity (rp_identity r) (cf_source frame) (cf_volume frame)
                     (cf_assignment_epoch frame) in
  check? forallb (fun artifact => bt_contains artifact (rp_artifacts r)) (cf_required frame)
    or SpoolError in
  check? match list.last (rp_commits r) with
         | Some previous => negb (cmp_ltb (rank (cf_info frame)) (rank (cf_info previous)))
         | None => true
         end or SpoolError in
  if bool_decide (list.last (rp_commits r) = Some frame)
  then Ok {| rp_identity := identity; rp_artifacts := rp_artifacts r;
             rp_uncommitted := rp_uncommitted r; rp_commits := rp_commits r |}
  else Ok {| rp_identity := identity; rp_artifacts := rp_artifacts r;
             rp_uncommitted := fold_left (fun s artifact => bt_remove artifact s)
                                 (cf_required frame) (rp_uncommitted r);
             rp_commits := rp_commits r ++ [frame] |}.

Definition scan_done (valid_len : Z) (truncated : bool) (r : Replay) : ReplicaSpoolScan :=
  {| ss_valid_len := valid_len; ss_truncated_tail := truncated; ss_artifacts := rp_artifacts r;
     ss_uncommitted_artifacts := rp_uncommitted r; ss_commits := rp_commits r |}.
(** Every turn of the loop consumes at least a frame header. *)
Fixpoint scan_loop (fuel : nat) (rest : bytes) (valid_len : Z) (r : Replay)
  : outcome ReplicaSpoolError ReplicaSpoolScan :=
  match rest, fuel with
  | [], _ => Ok (scan_done valid_len false r)
  | _, O => Panic
  | _, S fuel =>
      match framed_len rest with
      | None => Ok (scan_done valid_len true r)
      | Some frame_len =>
          let frame := take (Z.to_nat frame_len) rest in
          let rest := drop (Z.to_nat frame_len) rest in
          let magic := from_le (take 4 frame) in
          if magic =? MAGIC_REPLICA_ARTIFACT then
            let? artifact := open_artifact frame in
            let? r := scan_artifact r artifact in
            scan_loop fuel rest (valid_len + frame_len) r
          else if magic =? MAGIC_REPLICA_COMMIT then
            let? commit := open_commit frame in
            let? r := scan_commit r commit in
            scan_loop fuel rest (valid_len + frame_len) r
          else Ok (scan_done valid_len true r)
      end
  end.
Definition scan_replica_spool (bs : bytes) : outcome ReplicaSpoolError ReplicaSpoolScan :=
  scan_loop (length bs) bs 0 replay_start.
End Spool.
