(* ===== verification/SpoolSafety.v ===== *)
(** * Replica spools survive torn writes ([replica_spool.rs])

    A scan returns exactly what the complete frames of the file say, whatever
    follows them. *)

From S2P Require Import Prelude Format Types OrdMap Blx BlxFile BlxScan Manifest PageFile Journal JournalFormat.
From S2P Require Import ReplicaSpool.

Definition artifact_bytes (a : ReplicaArtifact) : bytes := encode_artifact a [].
Definition ReplicaArtifact_ok (a : ReplicaArtifact) : Prop :=
  match a with Blx fence object => fits W64 fence /\ fits W64 object end.
Definition commit_info_bytes (i : ReplicaCommitInfo) : bytes := encode_commit_info i [].
Lemma encode_artifact_appends a : appends (encode_artifact a).
Proof. intros e. destruct a. unfold encode_artifact. enc_norm. reflexivity. Qed.
Lemma encode_commit_info_appends i e : encode_commit_info i e = e ++ commit_info_bytes i.
Proof. unfold commit_info_bytes, encode_commit_info. enc_norm. reflexivity. Qed.

#[export] Instance ReplicaArtifact_codec : Codec decode_artifact artifact_bytes ReplicaArtifact_ok.
Proof.
  split.
  - intros [f o] [Hf Ho]. unfold artifact_bytes, encode_artifact, decode_artifact. enc_norm.
    assert (fits W8 0) by (unfold fits; lia). reads_tac.
  - intros bs x rest Hb H. unfold decode_artifact in H. dec_inv. apply Z.eqb_eq in Hg. subst.
    unfold artifact_bytes, encode_artifact. enc_norm. split; [reflexivity|now split].
  - unfold decode_artifact. total.
  - intros [f o] [Hf Ho]. unfold artifact_bytes, encode_artifact. enc_norm. auto 20 with bytes.
Qed.
#[export] Instance ReplicaCommitInfo_codec :
  Codec decode_commit_info commit_info_bytes ReplicaCommitInfo_ok.
Proof.
  solve_codec ltac:(fun _ => unfold commit_info_bytes, encode_commit_info, decode_commit_info,
    ReplicaCommitInfo_ok in * ).
Qed.

Section Codecs.
Context `{C : Crc} `{CL : !CrcLaws C} `{L : Lz4} `{P : PageSize} `{PL : !PageSizeLaws P}.

Definition artifact_ok (f : ReplicaArtifactFrame) : Prop :=
  fits W32 (af_source f) /\ fits W64 (af_volume f) /\ fits W64 (af_assignment_epoch f)
  /\ ReplicaArtifact_ok (af_artifact f) /\ fits W32 (af_checksum f)
  /\ all_bytes (af_bytes f) /\ len (af_bytes f) < W32.
Definition commit_ok (f : ReplicaCommitFrame) : Prop :=
  fits W32 (cf_source f) /\ fits W64 (cf_volume f) /\ fits W64 (cf_assignment_epoch f)
  /\ ReplicaCommitInfo_ok (cf_info f) /\ Forall ReplicaArtifact_ok (cf_required f)
  /\ len (cf_required f) <= 1000000 /\ strictly_ordered (cf_required f) = true
  /\ all_bytes (cf_record f) /\ len (cf_record f) < W32.

Lemma artifact_payload_eq f : artifact_payload f
  = to_le 2 2 ++ to_le 4 (af_source f) ++ to_le 8 (af_volume f) ++ to_le 8 (af_assignment_epoch f)
    ++ artifact_bytes (af_artifact f) ++ to_le 4 (af_checksum f) ++ to_le 4 (len (af_bytes f))
    ++ af_bytes f.
Proof.
  unfold artifact_payload. rewrite (encode_artifact_appends (af_artifact f)). fold (artifact_bytes (af_artifact f)).
  enc_norm. reflexivity.
Qed.
Lemma commit_payload_eq f : commit_payload f
  = to_le 2 2 ++ to_le 4 (cf_source f) ++ to_le 8 (cf_volume f) ++ to_le 8 (cf_assignment_epoch f)
    ++ commit_info_bytes (cf_info f) ++ to_le 4 (len (cf_required f))
    ++ concat (map artifact_bytes (cf_required f)) ++ to_le 4 (len (cf_record f)) ++ cf_record f.
Proof.
  unfold commit_payload. rewrite Enc_each_app by apply encode_artifact_appends.
  rewrite encode_commit_info_appends. enc_norm. reflexivity.
Qed.
Lemma artifact_whole : WholeCodec artifact_fields artifact_payload artifact_ok.
Proof.
  split.
  - intros [s v e a c b] (H1 & H2 & H3 & H4 & H5 & H6 & H7). simpl in *. rewrite artifact_payload_eq.
    unfold artifact_fields. simpl. pose proof (len_nonneg b). assert (fits W32 (len b)) by (unfold fits; lia).
    assert (fits W16 2) by (unfold fits; lia). reads_tac.
  - intros bs x Hb H. assert (id (all_bytes bs)) as Hb0 by exact Hb. unfold artifact_fields in H. dec_inv. apply Z.eqb_eq in Hg. subst.
    unfold id in Hb0. rewrite !all_bytes_app in Hb0. rewrite artifact_payload_eq. unfold artifact_ok. simpl. unfold fits in *.
    rewrite P7 by lia. codec_conj; auto; lia.
  - unfold artifact_fields. total.
  - intros f (H1 & H2 & H3 & H4 & H5 & H6 & H7). rewrite artifact_payload_eq.
    repeat apply all_bytes_app_2; auto with bytes. now apply codec_bytes.
Qed.
Lemma commit_whole : WholeCodec commit_fields commit_payload commit_ok.
Proof.
  split.
  - intros [s v e i r b] (H1 & H2 & H3 & H4 & H5 & H6 & H7 & H8 & H9). simpl in *. rewrite commit_payload_eq.
    unfold commit_fields. simpl. pose proof (len_nonneg b). assert (fits W32 (len b)) by (unfold fits; lia).
    pose proof (len_nonneg r). assert (fits W32 (len r)) by (unfold fits; lia). pose proof (len_to_nat r).
    assert (fits W16 2) by (unfold fits; lia). reads_tac.
  - intros bs x Hb H. assert (id (all_bytes bs)) as Hb0 by exact Hb. unfold commit_fields in H. dec_inv. apply Z.eqb_eq in Hg. subst.
    unfold id in Hb0. rewrite !all_bytes_app in Hb0. rewrite commit_payload_eq. unfold commit_ok. simpl. unfold fits in *.
    destruct P6 as [Hn Hall]. assert (len x7 = x6) as -> by (unfold len; lia). rewrite P8 by lia.
    codec_conj; auto; lia.
  - unfold commit_fields. total.
  - intros f (H1 & H2 & H3 & H4 & H5 & H6 & H7 & H8 & H9). rewrite commit_payload_eq.
    rewrite List.Forall_forall in H5.
    repeat apply all_bytes_app_2; auto with bytes.
    apply all_bytes_concat. intros a Ha. now apply codec_bytes, H5.
Qed.

(** ** Frames of a spool *)
Inductive SpoolFrame :=
| F_artifact (frame : ReplicaArtifactFrame)
| F_commit (frame : ReplicaCommitFrame).
Definition SpoolFrame_bytes (x : SpoolFrame) : bytes :=
  match x with
  | F_artifact f => frame_bytes MAGIC_REPLICA_ARTIFACT (artifact_payload f)
  | F_commit f => frame_bytes MAGIC_REPLICA_COMMIT (commit_payload f)
  end.
(** What the writers guarantee: the fields fit their widths, the payload is
    checksummed and verified. *)
Definition SpoolFrame_ok (x : SpoolFrame) : Prop :=
  match x with
  | F_artifact f =>
      artifact_ok f /\ len (artifact_payload f) < W32 /\ af_checksum f = crc32c (af_bytes f)
      /\ verify_artifact (af_volume f) (af_artifact f) (af_bytes f) = Ok tt
  | F_commit f =>
      commit_ok f /\ len (commit_payload f) < W32
      /\ verify_record (cf_volume f) (cf_info f) (cf_record f) = Ok tt
  end.
Definition spool_bytes (frames : list SpoolFrame) : bytes := concat (map SpoolFrame_bytes frames).
Definition scan_frame (r : Replay) (x : SpoolFrame) : outcome ReplicaSpoolError Replay :=
  match x with F_artifact f => scan_artifact r f | F_commit f => scan_commit r f end.
Definition replay (r : Replay) (frames : list SpoolFrame) : outcome ReplicaSpoolError Replay :=
  fold_outcome scan_frame r frames.

Lemma spool_Ok {A} (c : outcome DecodeError A) x : spool c = Ok x <-> c = Ok x.
Proof. destruct c; simpl; split; congruence. Qed.
Lemma spool_total {A} (c : outcome DecodeError A) : no_panic c -> no_panic (spool c).
Proof. apply no_panic_map_err. Qed.
Lemma open_artifact_writes f : SpoolFrame_ok (F_artifact f) ->
  open_artifact (SpoolFrame_bytes (F_artifact f)) = Ok f.
Proof using CL.
  intros (Hok & Hl & Hc & Hv). unfold open_artifact. simpl.
  rewrite open_frame_bytes by (exact Hl || magic_tac). simpl.
  pose proof (whole_reads (WholeCodec := artifact_whole) f Hok) as Hr. unfold reads_all in Hr. rewrite Hr. simpl.
  rewrite Hc, Z.eqb_refl, Hv. reflexivity.
Qed.
Lemma open_commit_writes f : SpoolFrame_ok (F_commit f) ->
  open_commit (SpoolFrame_bytes (F_commit f)) = Ok f.
Proof using CL.
  intros (Hok & Hl & Hv). unfold open_commit. simpl.
  rewrite open_frame_bytes by (exact Hl || magic_tac). simpl.
  pose proof (whole_reads (WholeCodec := commit_whole) f Hok) as Hr. unfold reads_all in Hr. rewrite Hr. simpl.
  rewrite Hv. reflexivity.
Qed.
Lemma open_artifact_inv bs f : all_bytes bs -> open_artifact bs = Ok f ->
  SpoolFrame_ok (F_artifact f) /\ bs = SpoolFrame_bytes (F_artifact f).
Proof using Type.
  intros Hb H. unfold open_artifact in H.
  apply outcome_bind_Ok in H as (payload & Hp%spool_Ok & H).
  apply outcome_bind_Ok in H as (f' & Hf%spool_Ok & H).
  destruct (Z.eqb_spec (crc32c (af_bytes f')) (af_checksum f')) as [Hc|]; [|discriminate].
  apply outcome_bind_Ok in H as ([] & Hv & [= <-]).
  apply open_frame_inv in Hp as (-> & Hl & Hbp); [|exact Hb].
  destruct (whole_sound (WholeCodec := artifact_whole) _ _ Hbp Hf) as [Hok ->]. simpl. auto.
Qed.
Lemma open_commit_inv bs f : all_bytes bs -> open_commit bs = Ok f ->
  SpoolFrame_ok (F_commit f) /\ bs = SpoolFrame_bytes (F_commit f).
Proof using Type.
  intros Hb H. unfold open_commit in H.
  apply outcome_bind_Ok in H as (payload & Hp%spool_Ok & H).
  apply outcome_bind_Ok in H as (f' & Hf%spool_Ok & H).
  apply outcome_bind_Ok in H as ([] & Hv & [= <-]).
  apply open_frame_inv in Hp as (-> & Hl & Hbp); [|exact Hb].
  destruct (whole_sound (WholeCodec := commit_whole) _ _ Hbp Hf) as [Hok ->]. simpl. auto.
Qed.
Lemma scan_page_file_total bs : all_bytes bs -> no_panic (scan_page_file bs).
Proof using CL PL.
  intros Hb. unfold scan_page_file. apply no_panic_bind; [now apply scan_total|].
  intros [h f] _. apply no_panic_if; intros _; [auto with panics|].
  apply no_panic_bind; [|intros; auto with panics]. apply no_panic_collect.
  intros x Hx. apply list_elem_of_In, list_elem_of_omap in Hx as (e & _ & He).
  unfold scan_row in He. repeat case_match; simplify_eq; discriminate.
Qed.
Lemma verify_artifact_total volume a bs : all_bytes bs -> no_panic (verify_artifact volume a bs).
Proof using CL PL.
  intros Hb. destruct a. apply no_panic_bind; [now apply spool_total, scan_page_file_total|].
  intros [[[? ?] ?] ?] _. no_panic.
Qed.
Lemma open_artifact_total bs : all_bytes bs -> no_panic (open_artifact bs).
Proof using CL PL.
  intros Hb. unfold open_artifact. apply no_panic_bind; [apply spool_total, open_frame_total|].
  intros payload Hp%spool_Ok. apply open_frame_inv in Hp as (_ & _ & Hbp); [|exact Hb].
  apply no_panic_bind; [apply spool_total, dec_total_run, (whole_total (WholeCodec := artifact_whole))|].
  intros f Hf%spool_Ok. destruct (whole_sound (WholeCodec := artifact_whole) _ _ Hbp Hf) as [(_&_&_&_&_&Hbb&_) _].
  apply no_panic_if; intros _; [|auto with panics].
  apply no_panic_bind; [now apply verify_artifact_total|]. intros; auto with panics.
Qed.
Lemma open_commit_total bs : all_bytes bs -> no_panic (open_commit bs).
Proof using CL PL.
  intros Hb. unfold open_commit. apply no_panic_bind; [apply spool_total, open_frame_total|].
  intros payload Hp%spool_Ok. apply open_frame_inv in Hp as (_ & _ & Hbp); [|exact Hb].
  apply no_panic_bind; [apply spool_total, dec_total_run, (whole_total (WholeCodec := commit_whole))|].
  intros f Hf%spool_Ok. destruct (whole_sound (WholeCodec := commit_whole) _ _ Hbp Hf) as [(_&Hv&_) _].
  apply no_panic_bind; [|intros; auto with panics]. unfold verify_record.
  apply no_panic_bind; [apply spool_total, (format_total (ExactFormat := JournalRecord_format _ Hv))|].
  intros; no_panic.
Qed.

(** ** One turn of the scan *)
Lemma length_frame_bytes m (p : bytes) : length (frame_bytes m p) = (12 + length p)%nat.
Proof. unfold frame_bytes. rewrite !length_app, !length_to_le. lia. Qed.
Lemma len_sealed_frame m (p : bytes) : len (frame_bytes m p) = FRAME_HEADER + len p.
Proof. unfold len. rewrite length_frame_bytes. unfold FRAME_HEADER. lia. Qed.
Lemma frame_length_field m (p rest : bytes) : len p < W32 ->
  from_le (take 4 (drop 4 (frame_bytes m p ++ rest))) = len p.
Proof.
  intros Hl. unfold frame_bytes. rewrite <- !app_assoc. rewrite drop_app_length' by now rewrite length_to_le.
  rewrite take_app_length' by now rewrite length_to_le. apply from_le_to_le. pose proof (len_nonneg p).
  unfold fits. simpl. lia.
Qed.
Lemma framed_len_frame m (p rest : bytes) : len p < W32 ->
  framed_len (frame_bytes m p ++ rest) = Some (FRAME_HEADER + len p).
Proof.
  intros Hl. unfold framed_len. rewrite frame_length_field by exact Hl. rewrite len_app, len_sealed_frame.
  pose proof (len_nonneg p). pose proof (len_nonneg rest). unfold FRAME_HEADER in *.
  destruct (Z.ltb_spec (12 + len p + len rest) 12); [lia|].
  destruct (Z.leb_spec (12 + len p) (12 + len p + len rest)); [reflexivity|lia].
Qed.
Lemma framed_len_torn m (p : bytes) k : len p < W32 -> (k < length (frame_bytes m p))%nat ->
  framed_len (take k (frame_bytes m p)) = None.
Proof.
  intros Hl Hk. unfold framed_len. pose proof (len_nonneg p).
  assert (len (take k (frame_bytes m p)) = Z.of_nat k) as Hlk by (unfold len; rewrite length_take; lia).
  rewrite Hlk. unfold FRAME_HEADER. destruct (Z.ltb_spec (Z.of_nat k) 12); [reflexivity|].
  rewrite skipn_firstn_comm, take_take, Nat.min_l by lia.
  pose proof (frame_length_field m p [] Hl) as Hf. rewrite app_nil_r in Hf. rewrite Hf.
  rewrite length_frame_bytes in Hk. unfold len. destruct (Z.leb_spec (12 + Z.of_nat (length p)) (Z.of_nat k)); [lia|reflexivity].
Qed.
Lemma framed_len_inv bs n : framed_len bs = Some n -> all_bytes bs -> FRAME_HEADER <= n <= len bs.
Proof.
  unfold framed_len. intros H Hb. destruct (_ <? _); [discriminate|].
  destruct (Z.leb_spec (FRAME_HEADER + from_le (take 4 (drop 4 bs))) (len bs)); [|discriminate].
  injection H as <-. split; [|lia].
  assert (0 <= from_le (take 4 (drop 4 bs))); [|lia]. apply (from_le_range (take 4 (drop 4 bs))).
  now apply all_bytes_take, all_bytes_drop.
Qed.

Lemma SpoolFrame_long x : SpoolFrame_ok x -> (12 <= length (SpoolFrame_bytes x))%nat.
Proof. intros _. destruct x; simpl; rewrite length_frame_bytes; lia. Qed.
Lemma frame_magic m (p rest : bytes) : fits W32 m -> from_le (take 4 (frame_bytes m p ++ rest)) = m.
Proof.
  intros Hm. unfold frame_bytes. rewrite <- !app_assoc, take_app_length' by now rewrite length_to_le.
  apply from_le_to_le. exact Hm.
Qed.
Lemma scan_step x rest fuel n r r' : SpoolFrame_ok x -> scan_frame r x = Ok r' ->
  scan_loop (S fuel) (SpoolFrame_bytes x ++ rest) n r
  = scan_loop fuel rest (n + len (SpoolFrame_bytes x)) r'.
Proof using CL.
  intros Hok Hs.
  assert (SpoolFrame_bytes x ++ rest <> []) as Hne.
  { pose proof (SpoolFrame_long x Hok). destruct (SpoolFrame_bytes x); [simpl in *; lia|discriminate]. }
  assert (exists m p, SpoolFrame_bytes x = frame_bytes m p /\ len p < W32 /\ fits W32 m
    /\ m = match x with F_artifact _ => MAGIC_REPLICA_ARTIFACT | F_commit _ => MAGIC_REPLICA_COMMIT end)
    as (m & p & Hx & Hl & Hm & Hmx).
  { destruct x; simpl in *; do 2 eexists; (split; [reflexivity|]); (split; [apply Hok|]); split; try reflexivity; magic_tac. }
  assert (framed_len (SpoolFrame_bytes x ++ rest) = Some (len (SpoolFrame_bytes x))) as Hfl.
  { rewrite Hx, framed_len_frame, len_sealed_frame by exact Hl. reflexivity. }
  destruct (SpoolFrame_bytes x ++ rest) as [|b bs] eqn:Hcons; [easy|].
  cbn [scan_loop]. rewrite Hfl, <- Hcons.
  assert (Z.to_nat (len (SpoolFrame_bytes x)) = length (SpoolFrame_bytes x)) as -> by apply len_to_nat.
  rewrite take_app_length, drop_app_length.
  assert (from_le (take 4 (SpoolFrame_bytes x)) = m) as ->.
  { pose proof (frame_magic m p [] Hm) as H. rewrite app_nil_r in H. now rewrite Hx. }
  rewrite Hmx. destruct x as [f|f].
  - rewrite Z.eqb_refl, open_artifact_writes by exact Hok. simpl in *. now rewrite Hs.
  - change (MAGIC_REPLICA_COMMIT =? MAGIC_REPLICA_ARTIFACT) with false.
    rewrite Z.eqb_refl, open_commit_writes by exact Hok. simpl in *. now rewrite Hs.
Qed.
Lemma scan_frames frames : forall tail fuel n r r', Forall SpoolFrame_ok frames ->
  replay r frames = Ok r' -> (length (spool_bytes frames ++ tail) <= fuel)%nat ->
  exists fuel', (length tail <= fuel')%nat
    /\ scan_loop fuel (spool_bytes frames ++ tail) n r
       = scan_loop fuel' tail (n + len (spool_bytes frames)) r'.
Proof using CL.
  induction frames as [|x frames IH]; intros tail fuel n r r' Hok Hr Hf; simpl in *.
  { injection Hr as <-. exists fuel. rewrite Z.add_0_r. auto. }
  apply Forall_cons_1 in Hok as [Hx Hok]. apply outcome_bind_Ok in Hr as (r1 & H1 & Hr).
  unfold spool_bytes in *. simpl in *. rewrite <- app_assoc in *. pose proof (SpoolFrame_long x Hx).
  rewrite length_app in Hf. destruct fuel as [|fuel]; [lia|].
  rewrite (scan_step x _ fuel n r r1 Hx H1).
  destruct (IH tail fuel (n + len (SpoolFrame_bytes x)) r1 r' Hok Hr) as (fuel' & Hle & He); [lia|].
  exists fuel'. split; [exact Hle|]. rewrite He, len_app. f_equal. lia.
Qed.
Lemma scan_torn x k fuel n r : SpoolFrame_ok x -> (k < length (SpoolFrame_bytes x))%nat ->
  (k <= fuel)%nat ->
  scan_loop fuel (take k (SpoolFrame_bytes x)) n r = Ok (scan_done n (negb (k =? 0)%nat) r).
Proof using Type.
  intros Hok Hk Hf. assert (framed_len (take k (SpoolFrame_bytes x)) = None) as Hnone.
  { destruct x; apply framed_len_torn; auto; apply Hok. }
  destruct k as [|k]; [now destruct fuel|]. destruct fuel as [|fuel]; [lia|].
  destruct (take (S k) (SpoolFrame_bytes x)) as [|b bs] eqn:Ht.
  { apply (f_equal length) in Ht. rewrite length_take, Nat.min_l in Ht by lia. discriminate. }
  cbn [scan_loop]. now rewrite Hnone.
Qed.

(** ** Soundness of the scan on arbitrary bytes *)
Lemma framed_split bs n : framed_len bs = Some n -> all_bytes bs ->
  bs = take (Z.to_nat n) bs ++ drop (Z.to_nat n) bs /\ len (take (Z.to_nat n) bs) = n
  /\ (length (drop (Z.to_nat n) bs) < length bs)%nat
  /\ all_bytes (take (Z.to_nat n) bs) /\ all_bytes (drop (Z.to_nat n) bs).
Proof.
  intros H Hb. pose proof (framed_len_inv _ _ H Hb) as Hn. unfold FRAME_HEADER in Hn.
  split; [now rewrite take_drop|]. unfold len in *. rewrite length_take, length_drop.
  split; [lia|]. split; [lia|]. split; [now apply all_bytes_take|now apply all_bytes_drop].
Qed.
Lemma scan_loop_sound fuel : forall rest n r s, all_bytes rest -> (length rest <= fuel)%nat ->
  scan_loop fuel rest n r = Ok s ->
  exists frames tail r', rest = spool_bytes frames ++ tail /\ Forall SpoolFrame_ok frames
    /\ replay r frames = Ok r'
    /\ s = scan_done (n + len (spool_bytes frames)) (negb (bool_decide (tail = []))) r'.
Proof using Type.
  induction fuel as [|fuel IH]; intros rest n r s Hb Hf H.
  { destruct rest; [|simpl in Hf; lia]. injection H as <-. exists [], [], r.
    simpl. rewrite Z.add_0_r. auto. }
  destruct rest as [|b bs].
  { injection H as <-. exists [], [], r. simpl. rewrite Z.add_0_r. auto. }
  assert (forall s, s = scan_done n true r -> exists frames tail r', b :: bs = spool_bytes frames ++ tail
    /\ Forall SpoolFrame_ok frames /\ replay r frames = Ok r'
    /\ s = scan_done (n + len (spool_bytes frames)) (negb (bool_decide (tail = []))) r') as Hstop.
  { intros s' ->. exists [], (b :: bs), r. simpl. rewrite Z.add_0_r. auto. }
  cbn [scan_loop] in H. destruct (framed_len (b :: bs)) as [k|] eqn:Hk; [|injection H as <-; now apply Hstop].
  destruct (framed_split _ _ Hk Hb) as (Hsplit & Hlen & Hshort & Hb1 & Hb2).
  set (frame := take (Z.to_nat k) (b :: bs)) in *. set (rest := drop (Z.to_nat k) (b :: bs)) in *.
  assert (forall x r1, SpoolFrame_ok x -> frame = SpoolFrame_bytes x -> scan_frame r x = Ok r1 ->
    scan_loop fuel rest (n + k) r1 = Ok s -> exists frames tail r', b :: bs = spool_bytes frames ++ tail
    /\ Forall SpoolFrame_ok frames /\ replay r frames = Ok r'
    /\ s = scan_done (n + len (spool_bytes frames)) (negb (bool_decide (tail = []))) r') as Hgo.
  { intros x r1 Hx Hfx Hs Hl. destruct (IH rest (n + k) r1 s Hb2 ltac:(simpl in *; lia) Hl)
      as (frames & tail & r' & Hr & Hok & Hrep & ->).
    exists (x :: frames), tail, r'. unfold spool_bytes in *. simpl. rewrite <- app_assoc, <- Hfx, <- Hr.
    split; [exact Hsplit|]. split; [auto|].
    split; [unfold replay; simpl; now rewrite Hs|]. f_equal. rewrite len_app, <- Hlen. lia. }
  destruct (Z.eqb_spec (from_le (take 4 frame)) MAGIC_REPLICA_ARTIFACT); [|destruct (Z.eqb_spec (from_le (take 4 frame)) MAGIC_REPLICA_COMMIT)].
  - apply outcome_bind_Ok in H as (f & Ho & H). apply outcome_bind_Ok in H as (r1 & Hs & H).
    apply open_artifact_inv in Ho as [Hx Hfx]; [|exact Hb1]. now apply (Hgo (F_artifact f) r1).
  - apply outcome_bind_Ok in H as (f & Ho & H). apply outcome_bind_Ok in H as (r1 & Hs & H).
    apply open_commit_inv in Ho as [Hx Hfx]; [|exact Hb1]. now apply (Hgo (F_commit f) r1).
  - injection H as <-. now apply Hstop.
Qed.
Lemma scan_loop_total fuel : forall rest n r, all_bytes rest -> (length rest <= fuel)%nat ->
  no_panic (scan_loop fuel rest n r).
Proof using CL PL.
  induction fuel as [|fuel IH]; intros rest n r Hb Hf.
  { destruct rest; [discriminate|simpl in Hf; lia]. }
  destruct rest as [|b bs]; [discriminate|]. cbn [scan_loop].
  destruct (framed_len (b :: bs)) as [k|] eqn:Hk; [|discriminate].
  destruct (framed_split _ _ Hk Hb) as (_ & _ & Hshort & Hb1 & Hb2).
  assert (forall r1, no_panic (scan_loop fuel (drop (Z.to_nat k) (b :: bs)) (n + k) r1)) as Hgo.
  { intros r1. apply IH; [exact Hb2|simpl in *; lia]. }
  apply no_panic_if; intros _; [|apply no_panic_if; intros _; [|discriminate]].
  - apply no_panic_bind; [now apply open_artifact_total|]. intros f _.
    apply no_panic_bind; [|intros; apply Hgo]. unfold scan_artifact, check_identity. no_panic.
  - apply no_panic_bind; [now apply open_commit_total|]. intros f _.
    apply no_panic_bind; [|intros; apply Hgo]. unfold scan_commit, check_identity. no_panic.
Qed.

(** ** A cut of the file *)
Lemma spool_bytes_app a b : spool_bytes (a ++ b) = spool_bytes a ++ spool_bytes b.
Proof. unfold spool_bytes. now rewrite map_app, concat_app. Qed.
Lemma spool_bytes_one x : spool_bytes [x] = SpoolFrame_bytes x.
Proof. apply app_nil_r. Qed.
Lemma spool_cut frames : forall k, Forall SpoolFrame_ok frames -> (k <= length (spool_bytes frames))%nat ->
  exists kept lost torn, frames = kept ++ lost /\ take k (spool_bytes frames) = spool_bytes kept ++ torn
    /\ (length (spool_bytes kept) <= k)%nat
    /\ match lost with
       | [] => torn = []
       | x :: _ => exists j, (j < length (SpoolFrame_bytes x))%nat /\ torn = take j (SpoolFrame_bytes x)
                            /\ k = (length (spool_bytes kept) + j)%nat
       end.
Proof.
  induction frames as [|x frames IH]; intros k Hok Hk.
  { exists [], [], []. simpl in *. assert (k = 0%nat) as -> by lia. auto. }
  apply Forall_cons_1 in Hok as [Hx Hok]. unfold spool_bytes in *. simpl in *.
  destruct (decide (k < length (SpoolFrame_bytes x))%nat) as [Hlt|Hge].
  - exists [], (x :: frames), (take k (SpoolFrame_bytes x)). simpl. rewrite take_app_le by lia.
    split; [reflexivity|]. split; [reflexivity|]. split; [lia|]. exists k. auto.
  - rewrite length_app in Hk. destruct (IH (k - length (SpoolFrame_bytes x))%nat Hok) as (kept & lost & torn & H1 & H2 & H3 & H4); [lia|].
    exists (x :: kept), lost, torn. subst frames. simpl. rewrite take_app_ge, H2, length_app by lia.
    split; [reflexivity|]. split; [now rewrite app_assoc|]. split; [lia|].
    destruct lost; [exact H4|]. destruct H4 as (j & Hj & -> & Hk'). exists j. split; [exact Hj|]. split; [reflexivity|lia].
Qed.

(** C13. A crash costs at most the frame being written. Take any spool the
    writers could have produced (frames that verify, one identity, no
    conflicting artifact, commits after their artifacts and in order) and cut
    the file at any byte: the scan succeeds, returns exactly the artifacts and
    commits of the frames that lie whole before the cut, reports their length
    as the valid length, and flags a torn tail precisely when bytes remain. *)
Theorem spool_crash_recovery frames r k :
  Forall SpoolFrame_ok frames -> replay replay_start frames = Ok r ->
  (k <= length (spool_bytes frames))%nat ->
  exists kept lost r', frames = kept ++ lost /\ replay replay_start kept = Ok r'
    /\ scan_replica_spool (take k (spool_bytes frames))
       = Ok (scan_done (len (spool_bytes kept)) (len (spool_bytes kept) <? Z.of_nat k) r')
    /\ len (spool_bytes kept) <= Z.of_nat k
    /\ match lost with [] => True | x :: _ => Z.of_nat k < len (spool_bytes (kept ++ [x])) end.
Proof using CL.
  intros Hok Hr Hk. destruct (spool_cut frames k Hok Hk) as (kept & lost & torn & -> & Ht & Hle & Hl).
  unfold replay in Hr. rewrite fold_outcome_app in Hr. apply outcome_bind_Ok in Hr as (r' & Hr' & _).
  apply Forall_app in Hok as [Hok1 Hok2]. exists kept, lost, r'. split; [reflexivity|]. split; [exact Hr'|].
  unfold scan_replica_spool. rewrite Ht.
  destruct (scan_frames kept torn (length (spool_bytes kept ++ torn)) 0 replay_start r' Hok1 Hr') as (fuel & Hf & ->); [lia|].
  rewrite Z.add_0_l. destruct lost as [|x lost].
  - subst torn. destruct fuel; simpl; rewrite app_nil_r in *.
    + assert (k = length (spool_bytes kept)) as -> by lia. unfold len. rewrite Z.ltb_irrefl. repeat split; lia.
    + assert (k = length (spool_bytes kept)) as -> by lia. unfold len. rewrite Z.ltb_irrefl. repeat split; lia.
  - destruct Hl as (j & Hj & -> & ->). apply Forall_cons_1 in Hok2 as [Hx _].
    rewrite length_take, Nat.min_l in Hf by lia. rewrite (scan_torn x j) by (auto || lia).
    rewrite spool_bytes_app, spool_bytes_one, len_app. unfold len.
    split; [|split; lia]. do 2 f_equal. destruct j; simpl; symmetry; [apply Z.ltb_ge|apply Z.ltb_lt]; lia.
Qed.

(** ** What the gathered state means *)
Definition commit_le (c d : ReplicaCommitFrame) : Prop :=
  cmp_leb (rank (cf_info c)) (rank (cf_info d)) = true.
Record replay_ok (r : Replay) : Prop := {
  rpo_sorted : bt_sorted (rp_artifacts r);
  rpo_keyed a f : bt_get a (rp_artifacts r) = Some f -> af_artifact f = a /\ SpoolFrame_ok (F_artifact f)
    /\ rp_identity r = Some (af_source f, af_volume f, af_assignment_epoch f);
  rpo_commits c : In c (rp_commits r) -> SpoolFrame_ok (F_commit c)
    /\ rp_identity r = Some (cf_source c, cf_volume c, cf_assignment_epoch c)
    /\ (forall a, In a (cf_required c) -> bt_contains a (rp_artifacts r) = true);
  rpo_ranked : Sorted.StronglySorted commit_le (rp_commits r);
  rpo_uncommitted a : bt_contains a (rp_uncommitted r) = true <->
    bt_contains a (rp_artifacts r) = true /\ (forall c, In c (rp_commits r) -> ~ In a (cf_required c)) }.

Lemma check_identity_Ok i s v e i' : check_identity i s v e = Ok i' ->
  i' = Some (s, v, e) /\ (i = None \/ i = i').
Proof.
  unfold check_identity. destruct i as [x|]; [|intros [= <-]; auto].
  case_bool_decide as Hx; [|discriminate]. intros [= <-]. subst. auto.
Qed.
Lemma bt_contains_insert {V} a b (v : V) (m : BTreeMap ReplicaArtifact V) :
  bt_contains a (bt_insert b v m) = true <-> a = b \/ bt_contains a m = true.
Proof.
  unfold bt_contains. destruct (decide (a = b)) as [->|Hne].
  - rewrite bt_get_insert_eq. tauto.
  - rewrite bt_get_insert_ne by exact Hne. tauto.
Qed.
Lemma bt_contains_removes (l : list ReplicaArtifact) : forall (s : BTreeSet ReplicaArtifact) a,
  bt_contains a (fold_left (fun s b => bt_remove b s) l s) = true <-> bt_contains a s = true /\ ~ In a l.
Proof.
  induction l as [|b l IH]; intros s a; simpl; [tauto|]. rewrite IH. unfold bt_contains.
  destruct (decide (a = b)) as [->|Hne].
  - rewrite bt_get_remove_eq. intuition congruence.
  - rewrite bt_get_remove_ne by exact Hne. intuition congruence.
Qed.
Lemma replay_empty r : replay_ok r -> rp_identity r = None -> rp_artifacts r = [] /\ rp_commits r = [].
Proof.
  intros [_ Hk Hc _ _] Hn. split.
  - destruct (rp_artifacts r) as [|[a f] m] eqn:E; [reflexivity|].
    destruct (Hk a f) as (_ & _ & Hi); [simpl; now rewrite cmp_refl|congruence].
  - destruct (rp_commits r) as [|c l] eqn:E; [reflexivity|].
    destruct (Hc c (or_introl eq_refl)) as (_ & Hi & _). congruence.
Qed.
Lemma scan_artifact_ok r f r' : replay_ok r -> SpoolFrame_ok (F_artifact f) ->
  scan_artifact r f = Ok r' -> replay_ok r'.
Proof.
  intros R Hf H. unfold scan_artifact in H. apply outcome_bind_Ok in H as (i & [Hi Hi']%check_identity_Ok & H).
  assert (forall s v e, rp_identity r = Some (s, v, e) -> i = Some (s, v, e)) as Hsame.
  { intros s v e Hr. destruct Hi' as [Hi'|Hi']; congruence. }
  destruct R as [R1 R2 R3 R4 R5]. destruct (bt_get (af_artifact f) (rp_artifacts r)) as [old|] eqn:Hg.
  - destruct (_ && _); [|discriminate]. injection H as <-. constructor; simpl; auto.
    + intros a g Ha. destruct (R2 a g Ha) as (? & ? & ?). auto.
    + intros c Hc. destruct (R3 c Hc) as (? & ? & ?). auto.
  - injection H as <-. constructor; simpl; auto.
    + now apply bt_insert_sorted.
    + intros a g. destruct (decide (a = af_artifact f)) as [->|Hne].
      * rewrite bt_get_insert_eq. intros [= <-]. auto.
      * rewrite bt_get_insert_ne by exact Hne. intros Ha. destruct (R2 a g Ha) as (? & ? & ?). auto.
    + intros c Hc. destruct (R3 c Hc) as (? & ? & Hin). split; [auto|]. split; [auto|].
      intros a Ha. apply bt_contains_insert. auto.
    + intros a. rewrite !bt_contains_insert, R5. split; [|tauto].
      intros [->|?]; [|tauto]. split; [auto|]. intros c Hc Ha. destruct (R3 c Hc) as (_ & _ & Hin).
      specialize (Hin _ Ha). unfold bt_contains in Hin. now rewrite Hg in Hin.
Qed.
Lemma ranked_snoc l c : Sorted.StronglySorted commit_le l ->
  match list.last l with Some p => commit_le p c | None => True end -> Sorted.StronglySorted commit_le (l ++ [c]).
Proof.
  induction 1 as [|x l Hs IH Hx]; simpl; intros Hl; [repeat constructor|].
  destruct l as [|y l]; simpl in *.
  - repeat constructor. exact Hl.
  - constructor; [apply IH; exact Hl|]. change (y :: l ++ [c]) with ((y :: l) ++ [c]).
    apply Forall_app. split; [exact Hx|]. constructor; [|constructor].
    destruct (last_is_Some (y :: l)) as [_ Hsome]. destruct (Hsome ltac:(discriminate)) as [p Hp].
    change (match l with [] => Some y | _ :: _ => list.last l end) with (list.last (y :: l)) in Hl. rewrite Hp in Hl.
    rewrite List.Forall_forall in Hx. assert (commit_le x p) as Hxp.
    { apply Hx. apply last_Some in Hp as [l' ->]. apply in_app_iff. right. now left. }
    unfold commit_le in *. eapply cmp_le_trans; eauto.
Qed.
Lemma scan_commit_ok r f r' : replay_ok r -> SpoolFrame_ok (F_commit f) ->
  scan_commit r f = Ok r' -> replay_ok r'.
Proof.
  intros R Hf H. unfold scan_commit in H. apply outcome_bind_Ok in H as (i & [Hi Hi']%check_identity_Ok & H).
  assert (forall s v e, rp_identity r = Some (s, v, e) -> i = Some (s, v, e)) as Hsame.
  { intros s v e Hr. destruct Hi' as [Hi'|Hi']; congruence. }
  destruct (forallb _ _) eqn:Hreq; [|discriminate]. rewrite forallb_forall in Hreq.
  destruct R as [R1 R2 R3 R4 R5].
  destruct (match list.last (rp_commits r) with Some _ => _ | None => _ end) eqn:Hrank; [|discriminate].
  case_bool_decide as Hdup; injection H as <-; constructor; simpl; auto.
  - intros a g Ha. destruct (R2 a g Ha) as (? & ? & ?). auto.
  - intros c Hc. destruct (R3 c Hc) as (? & ? & ?). auto.
  - intros a g Ha. destruct (R2 a g Ha) as (? & ? & ?). auto.
  - intros c [Hc|[<-|[]]]%in_app_iff; [destruct (R3 c Hc) as (? & ? & ?); auto|]. auto.
  - apply ranked_snoc; [exact R4|]. destruct (list.last _); [|exact I].
    apply negb_true_iff, cmp_ltb_false in Hrank. exact Hrank.
  - intros a. rewrite bt_contains_removes, R5. setoid_rewrite in_app_iff. simpl. split.
    + intros [[H1 H2] H3]. split; [exact H1|]. intros c [Hc|[<-|[]]]; auto.
    + intros [H1 H2]. split; [split; [exact H1|auto]|]. apply H2. auto.
Qed.
Lemma replay_frames_ok frames : forall r r', replay_ok r -> Forall SpoolFrame_ok frames ->
  replay r frames = Ok r' -> replay_ok r'.
Proof.
  unfold replay. induction frames as [|x frames IH]; intros r r' R Hok H; simpl in H; [now injection H as <-|].
  apply Forall_cons_1 in Hok as [Hx Hok]. apply outcome_bind_Ok in H as (r1 & H1 & H).
  apply (IH r1); auto. destruct x; [now apply (scan_artifact_ok r frame)|now apply (scan_commit_ok r frame)].
Qed.
Lemma replay_start_ok : replay_ok replay_start.
Proof. split; simpl; try easy; try apply Sorted.SSorted_nil. Qed.

Lemma scan_sound bs s : all_bytes bs -> scan_replica_spool bs = Ok s ->
  exists frames tail r, bs = spool_bytes frames ++ tail /\ Forall SpoolFrame_ok frames
    /\ replay replay_start frames = Ok r /\ replay_ok r
    /\ s = scan_done (len (spool_bytes frames)) (negb (bool_decide (tail = []))) r.
Proof using Type.
  intros Hb H. destruct (scan_loop_sound _ _ _ _ _ Hb (le_n _) H) as (frames & tail & r & H1 & H2 & H3 & H4).
  exists frames, tail, r. split; [exact H1|]. split; [exact H2|]. split; [exact H3|].
  split; [|exact H4]. apply (replay_frames_ok frames replay_start); auto using replay_start_ok.
Qed.
Lemma scan_commits_ok bs s c : all_bytes bs -> scan_replica_spool bs = Ok s ->
  In c (ss_commits s) -> SpoolFrame_ok (F_commit c).
Proof using Type.
  intros Hb (frames & tail & r & _ & _ & _ & R & ->)%scan_sound Hc; [|exact Hb].
  now apply (rpo_commits r R).
Qed.

(** A scan of arbitrary bytes never panics and never manufactures a
    recovery point. Whatever it accepts is a sequence of frames that verify,
    byte for byte, followed by a tail that it reports as torn; its result is
    what those frames say; every commit it returns belongs to the spool's one
    volume, source and assignment, carries a journal record that decodes with
    the commit's fence, sequence and coverage, and finds all its artifacts in
    the scan; the commits never go back in coverage; and the uncommitted
    artifacts are exactly those no returned commit requires. *)
Theorem spool_scan_exact bs : all_bytes bs ->
  no_panic (scan_replica_spool bs)
  /\ forall s, scan_replica_spool bs = Ok s ->
     exists frames tail r, bs = spool_bytes frames ++ tail /\ Forall SpoolFrame_ok frames
       /\ replay replay_start frames = Ok r /\ replay_ok r
       /\ s = scan_done (len (spool_bytes frames)) (negb (bool_decide (tail = []))) r.
Proof using CL PL.
  intros Hb. split; [apply scan_loop_total; auto|]. intros s. now apply scan_sound.
Qed.
End Codecs.
