(* ===== verification/ReplicaInbox.v ===== *)
(** * The receiving side of replication ([engine/replica.rs], [engine/recovery.rs])

    A peer keeps one spool per (source, volume, assignment): a sequence of
    generation files to which it appends an artifact or a commit before it
    acknowledges it. After a restart it rebuilds its memory from the files. *)

From S2P Require Import Prelude Format Types OrdMap Text Head Layout HostState.
From S2P Require Import Blx BlxFile BlxScan Manifest PageFile Journal ReplicaSpool.

#[local] Open Scope Z_scope.

(** ** The outside world

    The local blob files, and what the device and the store answer. An append
    or a deletion that fails with [BlobError::Io], or that a power loss
    interrupts, may have taken effect in part. *)
Abbreviation LocalBlobs := (BTreeMap string bytes).
Inductive BlobError := BlobError_Full | BlobError_Io.
Inductive AppendResult :=
| Append_done
| Append_full
| Append_io (landed : option nat).
Inductive DeleteResult :=
| Delete_done
| Delete_io (deleted : nat).
Record World := {
  w_head : option bytes; (** the head object, when the store returns one *)
  w_append : AppendResult;
  w_delete : DeleteResult }.
Definition append_bytes (name : string) (bs : bytes) (blobs : LocalBlobs) : LocalBlobs :=
  bt_update name [] (fun stored => stored ++ bs) blobs.
Definition Blobs_append (w : World) (name : string) (bs : bytes) (blobs : LocalBlobs)
  : LocalBlobs * option BlobError :=
  match w_append w with
  | Append_done => (append_bytes name bs blobs, None)
  | Append_full => (blobs, Some BlobError_Full)
  | Append_io landed =>
      (match landed with Some k => append_bytes name (take k bs) blobs | None => blobs end,
       Some BlobError_Io)
  end.
Definition Blobs_delete_many_durable (w : World) (names : list string) (blobs : LocalBlobs)
  : LocalBlobs * option BlobError :=
  let delete names blobs := fold_left (fun blobs name => bt_remove name blobs) names blobs in
  match w_delete w with
  | Delete_done => (delete names blobs, None)
  | Delete_io k => (delete (take k names) blobs, Some BlobError_Io)
  end.

(** One host: its memory, its device, and whether it has stopped. *)
Record Node := {
  n_state : HostState;
  n_blobs : LocalBlobs;
  n_failed : bool }.
Definition fail (n : Node) : Node :=
  {| n_state := n_state n; n_blobs := n_blobs n; n_failed := true |}.

(** The messages of [PeerMsg] that a source sends to its peer, and the answers. *)
Inductive ReplicaMsg :=
| ReplicaPut (artifact : ReplicaArtifact) (checksum : Z) (bs : bytes)
| ReplicaCommit (info : ReplicaCommitInfo) (required : list ReplicaArtifact) (record : bytes)
| ReplicaStatus
| ReplicaRelease (through : ReplicaCommitInfo).
Inductive ReplicaReply :=
| ReplicaPutAck (key : ReplicaKey) (artifact : ReplicaArtifact) (checksum : Z)
| ReplicaCommitAck (key : ReplicaKey) (info : ReplicaCommitInfo)
| ReplicaStatusReply (key : ReplicaKey) (committed : option ReplicaCommitInfo)
| ReplicaReleaseAck (key : ReplicaKey) (through : ReplicaCommitInfo).

Definition MAX_REPLICA_SPOOL_GENERATION_BYTES : Z := 64 * 1024 * 1024.
Definition spool_name (key : ReplicaKey) (generation : Z) : string :=
  replica_spool_generation_blob (rk_source key) (rk_volume key) (rk_assignment_epoch key) generation.

(** ** The inbox of one key *)
Section Inbox.
Context `{C : Crc} `{L : Lz4} `{P : PageSize}.
Abbreviation result := (outcome unit).

Definition has_durable_spool (key : ReplicaKey) (st : HostState) : bool :=
  bt_contains key (hs_replicas st).
Definition append_plan (key : ReplicaKey) (additional : Z) (st : HostState) : option (Z * bool) :=
  let total := fold_left (saturating_add W64) (map rs_bytes (bt_values (hs_replicas st))) 0 in
  if hc_spool_capacity_bytes (hs_config st) <? saturating_add W64 total additional then None else
  let replica := bt_get key (hs_replicas st) in
  let current_generation := from_option rs_current_generation 0 replica in
  let current_file_bytes := from_option rs_current_file_bytes 0 replica in
  let rotated := negb (current_file_bytes =? 0)
    && (MAX_REPLICA_SPOOL_GENERATION_BYTES <? saturating_add W64 current_file_bytes additional) in
  Some (saturating_add W64 current_generation (Z.b2z rotated), rotated).

(** The stash assignments under which a head sends a volume to this host. *)
Definition assigned (key : ReplicaKey) (local : Z) (head : HeadRecord) : bool :=
  (head_holder head =? rk_source key)
  && match head_stash head with
     | None => false
     | Some stash =>
         ((sa_active_peer stash =? local)
          && (sa_active_assignment_epoch stash =? rk_assignment_epoch key))
         || (bool_decide (sa_transition_peer stash = Some local)
             && (sa_assignment_epoch stash =? rk_assignment_epoch key))
     end.
Definition authorized (w : World) (key : ReplicaKey) (st : HostState) : result bool :=
  if rk_assignment_epoch key =? 0 then Ok false else
  if has_durable_spool key st then Ok true else
  match w_head w with
  | None => Ok false
  | Some bs =>
      let? head := result_ok (HeadRecord_decode (rk_volume key) bs) in
      Ok (match head with
          | None => false
          | Some head => assigned key (hc_host (hs_config st)) head
          end)
  end.

(** The bookkeeping after an append: the default entry, the rotation, the
    sizes. *)
Definition grown (generation : Z) (rotated : bool) (additional : Z) (r : ReplicaState)
  : result ReplicaState :=
  let file_bytes := if rotated then 0 else rs_current_file_bytes r in
  let? total := expect (checked_add W64 (rs_bytes r) additional) in
  let? file_bytes := expect (checked_add W64 file_bytes additional) in
  Ok {| rs_artifacts := rs_artifacts r; rs_uncommitted_artifacts := rs_uncommitted_artifacts r;
        rs_committed := rs_committed r; rs_committed_record := rs_committed_record r;
        rs_bytes := total;
        rs_current_generation := if rotated then generation else rs_current_generation r;
        rs_current_file_bytes := file_bytes |}.
(** Reserve, append to the planned generation, then record the frame in
    memory: the part [put] and [commit] have in common. The answer is [true]
    when the frame is durable. *)
Definition append_frame (w : World) (key : ReplicaKey) (frame : bytes)
    (insert : ReplicaState -> ReplicaState) (n : Node) : result (Node * bool) :=
  match append_plan key (len frame) (n_state n) with
  | None => Ok (n, false)
  | Some (generation, rotated) =>
      let name := spool_name key generation in
      let? (st, reserved) := try_reserve_append name (len frame) (n_state n) in
      if negb reserved then Ok ({| n_state := st; n_blobs := n_blobs n; n_failed := n_failed n |}, false) else
      match Blobs_append w name frame (n_blobs n) with
      | (blobs, Some BlobError_Full) =>
          Ok ({| n_state := note_blob_full (rollback_append_reservation name (len frame) st);
                 n_blobs := blobs; n_failed := n_failed n |}, false)
      | (blobs, Some BlobError_Io) =>
          Ok (fail {| n_state := st; n_blobs := blobs; n_failed := n_failed n |}, false)
      | (blobs, None) =>
          let? replica := grown generation rotated (len frame)
                            (default ReplicaState_default (bt_get key (hs_replicas st))) in
          Ok ({| n_state := with_replicas (bt_insert key (insert replica) (hs_replicas st)) st;
                 n_blobs := blobs; n_failed := n_failed n |}, true)
      end
  end.

Definition insert_artifact (artifact : ReplicaArtifact) (checksum : Z) (bs : bytes) (r : ReplicaState)
  : ReplicaState :=
  {| rs_artifacts := bt_insert artifact (checksum, bs) (rs_artifacts r);
     rs_uncommitted_artifacts := bt_insert artifact tt (rs_uncommitted_artifacts r);
     rs_committed := rs_committed r; rs_committed_record := rs_committed_record r;
     rs_bytes := rs_bytes r; rs_current_generation := rs_current_generation r;
     rs_current_file_bytes := rs_current_file_bytes r |}.
Definition mark_uncommitted (artifact : ReplicaArtifact) (r : ReplicaState) : ReplicaState :=
  {| rs_artifacts := rs_artifacts r;
     rs_uncommitted_artifacts := bt_insert artifact tt (rs_uncommitted_artifacts r);
     rs_committed := rs_committed r; rs_committed_record := rs_committed_record r;
     rs_bytes := rs_bytes r; rs_current_generation := rs_current_generation r;
     rs_current_file_bytes := rs_current_file_bytes r |}.
Definition insert_commit (info : ReplicaCommitInfo) (required : list ReplicaArtifact) (record : bytes)
    (r : ReplicaState) : ReplicaState :=
  {| rs_artifacts := rs_artifacts r;
     rs_uncommitted_artifacts := fold_left (fun s artifact => bt_remove artifact s) required
                                   (rs_uncommitted_artifacts r);
     rs_committed := Some info; rs_committed_record := Some record;
     rs_bytes := rs_bytes r; rs_current_generation := rs_current_generation r;
     rs_current_file_bytes := rs_current_file_bytes r |}.
Definition set_replica (key : ReplicaKey) (r : ReplicaState) (n : Node) : Node :=
  {| n_state := with_replicas (bt_insert key r (hs_replicas (n_state n))) (n_state n);
     n_blobs := n_blobs n; n_failed := n_failed n |}.

Definition put (w : World) (key : ReplicaKey) (artifact : ReplicaArtifact) (checksum : Z) (bs : bytes)
    (n : Node) : result (Node * list ReplicaReply) :=
  let? authorized := authorized w key (n_state n) in
  if negb authorized || negb (crc32c bs =? checksum) then Ok (n, []) else
  let? frame := result_ok (seal_verified_replica_artifact (rk_source key) (rk_volume key)
                  (rk_assignment_epoch key) artifact checksum bs) in
  match frame with
  | None => Ok (n, [])
  | Some frame =>
      match bt_get key (hs_replicas (n_state n)) with
      | Some replica =>
          match bt_get artifact (rs_artifacts replica) with
          | Some (known, _) =>
              if known =? checksum
              then Ok (set_replica key (mark_uncommitted artifact replica) n,
                       [ReplicaPutAck key artifact checksum])
              else Ok (n, [])
          | None =>
              let? (n, durable) := append_frame w key frame (insert_artifact artifact checksum bs) n in
              Ok (n, if durable : bool then [ReplicaPutAck key artifact checksum] else [])
          end
      | None =>
          let? (n, durable) := append_frame w key frame (insert_artifact artifact checksum bs) n in
          Ok (n, if durable : bool then [ReplicaPutAck key artifact checksum] else [])
      end
  end.

Definition commit (w : World) (key : ReplicaKey) (info : ReplicaCommitInfo)
    (required : list ReplicaArtifact) (record : bytes) (n : Node)
  : result (Node * list ReplicaReply) :=
  let? authorized := authorized w key (n_state n) in
  if negb authorized then Ok (n, []) else
  let replica := bt_get key (hs_replicas (n_state n)) in
  let complete := forallb (fun artifact =>
    match replica with Some replica => bt_contains artifact (rs_artifacts replica) | None => false end)
    required in
  let? frame := result_ok (seal_replica_commit (rk_source key) (rk_volume key)
                  (rk_assignment_epoch key) info required record) in
  match frame with
  | None => Ok (n, [])
  | Some frame =>
      if negb complete then Ok (n, []) else
      let known := replica ≫= rs_committed in
      if bool_decide (known = Some info) then Ok (n, [ReplicaCommitAck key info]) else
      if match known with Some known => cmp_leb info known | None => false end then Ok (n, []) else
      let? (n, durable) := append_frame w key frame (insert_commit info required record) n in
      Ok (n, if durable : bool then [ReplicaCommitAck key info] else [])
  end.

Definition status (w : World) (key : ReplicaKey) (n : Node) : result (Node * list ReplicaReply) :=
  let? authorized := authorized w key (n_state n) in
  if negb authorized then Ok (n, []) else
  Ok (n, [ReplicaStatusReply key (bt_get key (hs_replicas (n_state n)) ≫= rs_committed)]).

(** [(0..=current_generation)] as names. *)
Definition generation_names (key : ReplicaKey) (current_generation : Z) : list string :=
  map (fun g => spool_name key (Z.of_nat g)) (seq 0 (S (Z.to_nat current_generation))).
Definition release (w : World) (key : ReplicaKey) (through : ReplicaCommitInfo) (n : Node)
  : result (Node * list ReplicaReply) :=
  let? authorized := authorized w key (n_state n) in
  if negb authorized then Ok (n, []) else
  match bt_get key (hs_replicas (n_state n)) with
  | None => Ok (n, [ReplicaReleaseAck key through])
  | Some replica =>
      let superseded := match rs_committed replica with
                        | Some committed => cmp_ltb through committed
                        | None => false
                        end in
      if superseded then Ok (n, [ReplicaReleaseAck key through]) else
      let releasable := match rs_committed replica with
                        | Some committed => cmp_leb committed through
                        | None => false
                        end
                        && match rs_uncommitted_artifacts replica with [] => true | _ => false end in
      if negb releasable then Ok (n, []) else
      let names := generation_names key (rs_current_generation replica) in
      match Blobs_delete_many_durable w names (n_blobs n) with
      | (blobs, Some _) => Ok ({| n_state := n_state n; n_blobs := blobs; n_failed := n_failed n |}, [])
      | (blobs, None) =>
          Ok ({| n_state := forget_blobs names
                              (with_replicas (bt_remove key (hs_replicas (n_state n))) (n_state n));
                 n_blobs := blobs; n_failed := n_failed n |},
              [ReplicaReleaseAck key through])
      end
  end.
Definition replica_message (w : World) (key : ReplicaKey) (message : ReplicaMsg) (n : Node)
  : result (Node * list ReplicaReply) :=
  match message with
  | ReplicaPut artifact checksum bs => put w key artifact checksum bs n
  | ReplicaCommit info required record => commit w key info required record n
  | ReplicaStatus => status w key n
  | ReplicaRelease through => release w key through n
  end.

(** ** Restart *)
Definition insert_replica (key : ReplicaKey) (r : ReplicaState) (st : HostState) : HostState :=
  with_replicas (bt_insert key r (hs_replicas st)) st.
Definition owns (key : ReplicaKey) (source volume assignment_epoch : Z) : bool :=
  bool_decide ((source, volume, assignment_epoch)
               = (rk_source key, rk_volume key, rk_assignment_epoch key)).
Definition recovered_replica (key : ReplicaKey) (scan : ReplicaSpoolScan)
    (current_generation current_file_bytes : Z) : ReplicaState :=
  let committed_cut :=
    match list.last (ss_commits scan) with
    | Some c => if owns key (cf_source c) (cf_volume c) (cf_assignment_epoch c) then Some c else None
    | None => None
    end in
  {| rs_artifacts := bt_collect (omap (fun '(artifact, f) =>
        if owns key (af_source f) (af_volume f) (af_assignment_epoch f)
        then Some (artifact, (af_checksum f, af_bytes f)) else None) (ss_artifacts scan));
     rs_uncommitted_artifacts := ss_uncommitted_artifacts scan;
     rs_committed := cf_info <$> committed_cut;
     rs_committed_record := cf_record <$> committed_cut;
     rs_bytes := ss_valid_len scan;
     rs_current_generation := current_generation;
     rs_current_file_bytes := current_file_bytes |}.
Definition set_len (name : string) (length : Z) (blobs : LocalBlobs) : LocalBlobs :=
  match bt_get name blobs with
  | Some bs => bt_insert name (take (Z.to_nat length) bs) blobs
  | None => blobs
  end.
(** [boundaries]: generation, start, length and name of each file. *)
Fixpoint boundaries (start : Z) (generations : BTreeMap Z (string * bytes))
  : list (Z * Z * Z * string) :=
  match generations with
  | [] => []
  | (generation, (name, bs)) :: rest => (generation, start, len bs, name) :: boundaries (start + len bs) rest
  end.
(** A truncation that fails with [BlobError::Io] abandons the recovery;
    [truncate_io] says whether the device does that. ([Full] is retried.) *)
Definition recover_replica_blobs (truncate_io : bool) (key : ReplicaKey)
    (generations : BTreeMap Z (string * bytes)) (n : Node) : result Node :=
  match list.last generations with
  | None => Ok n
  | Some (current_generation, (_, current_bytes)) =>
      let combined := concat (map (fun e => e.2.2) generations) in
      let? scan := result_ok (scan_replica_spool combined) in
      match scan with
      | None => Ok n
      | Some scan =>
          if ss_truncated_tail scan then
            match List.find (fun '(_, start, length, _) =>
                    ss_valid_len scan <? saturating_add W64 start length) (boundaries 0 generations) with
            | None => Ok n
            | Some (generation, start, _, name) =>
                if negb (generation =? current_generation) then Ok n else
                let valid := saturating_sub (ss_valid_len scan) start in
                if truncate_io then Err tt else
                Ok {| n_state := insert_replica key
                        (recovered_replica key scan current_generation valid)
                        (truncate_blob name valid (n_state n));
                      n_blobs := set_len name valid (n_blobs n);
                      n_failed := n_failed n |}
            end
          else
            Ok {| n_state := insert_replica key
                    (recovered_replica key scan current_generation (len current_bytes)) (n_state n);
                  n_blobs := n_blobs n; n_failed := n_failed n |}
      end
  end.
(** The spools of [recover_local]: files grouped by key, then one scan each. *)
Definition replica_blobs (scan : LocalBlobs) : BTreeMap ReplicaKey (BTreeMap Z (string * bytes)) :=
  fold_left (fun groups '(name, bs) =>
    match parse_blob name with
    | Some (Blob_ReplicaSpool source volume assignment_epoch generation) =>
        bt_update {| rk_source := source; rk_volume := volume;
                     rk_assignment_epoch := assignment_epoch |} []
          (bt_insert generation (name, bs)) groups
    | _ => groups
    end) scan [].
(** A restarted process: fresh memory, the files as they are. *)
Definition recover_spools (truncate_io : bool) (fresh : HostState) (blobs : LocalBlobs) : result Node :=
  let st := with_blob_sizes (map (fun '(name, bs) => (name, len bs)) blobs) fresh in
  fold_outcome (fun n '(key, generations) => recover_replica_blobs truncate_io key generations n)
    {| n_state := st; n_blobs := blobs; n_failed := false |} (replica_blobs blobs).
End Inbox.
