(* ===== verification/InboxSafety.v ===== *)
(** * What a peer acknowledges survives

    The memory of the inbox always says what a scan of its files would say, so
    that an acknowledged artifact or commit is still there after any sequence
    of messages, device failures and power losses that does not release it. *)

From Stdlib Require Sorted.
From S2P Require Import Prelude Format Types OrdMap Text Head Layout HostState HostSafety.
From S2P Require Import Blx BlxFile BlxScan Manifest PageFile Journal JournalFormat ReplicaSpool SpoolSafety ReplicaInbox.

#[local] Open Scope Z_scope.

Definition key_ok (key : ReplicaKey) : Prop :=
  fits W32 (rk_source key) /\ fits W64 (rk_volume key) /\ fits W64 (rk_assignment_epoch key).
Definition key_identity (key : ReplicaKey) : Z * Z * Z :=
  (rk_source key, rk_volume key, rk_assignment_epoch key).
Definition artifact_frame (key : ReplicaKey) (artifact : ReplicaArtifact) (checksum : Z) (bs : bytes)
  : ReplicaArtifactFrame :=
  {| af_source := rk_source key; af_volume := rk_volume key;
     af_assignment_epoch := rk_assignment_epoch key; af_artifact := artifact;
     af_checksum := checksum; af_bytes := bs |}.
Definition commit_frame (key : ReplicaKey) (info : ReplicaCommitInfo) (required : list ReplicaArtifact)
    (record : bytes) : ReplicaCommitFrame :=
  {| cf_source := rk_source key; cf_volume := rk_volume key;
     cf_assignment_epoch := rk_assignment_epoch key; cf_info := info; cf_required := required;
     cf_record := record |}.

(** ** Files and their names *)
Definition holds (blobs : LocalBlobs) (key : ReplicaKey) (files : list bytes) : Prop :=
  forall g, fits W64 g -> bt_get (spool_name key g) blobs = files !! Z.to_nat g.
Lemma spool_name_parse key g : key_ok key -> fits W64 g ->
  parse_blob (spool_name key g)
  = Some (Blob_ReplicaSpool (rk_source key) (rk_volume key) (rk_assignment_epoch key) g).
Proof. intros (Hs & Hv & He) Hg. now apply parse_spool_name. Qed.
Lemma spool_name_inj key key' g g' : key_ok key -> key_ok key' -> fits W64 g -> fits W64 g' ->
  spool_name key g = spool_name key' g' -> key = key' /\ g = g'.
Proof.
  intros Hk Hk' Hg Hg' H. pose proof (spool_name_parse key g Hk Hg) as H1.
  rewrite H, spool_name_parse in H1 by assumption. destruct key, key'. simpl in *. injection H1 as -> -> -> ->. auto.
Qed.
Lemma holds_other blobs blobs' key key' files :
  key_ok key -> key_ok key' -> key <> key' ->
  (forall name, (forall g, fits W64 g -> name <> spool_name key g) -> bt_get name blobs' = bt_get name blobs) ->
  holds blobs key' files -> holds blobs' key' files.
Proof.
  intros Hk Hk' Hne Hsame H g Hg. rewrite Hsame; [now apply H|].
  intros g' Hg' Heq. destruct (spool_name_inj key' key g g') as [-> _]; auto.
Qed.
Lemma append_bytes_get name bs blobs name' :
  bt_get name' (append_bytes name bs blobs)
  = if decide (name' = name) then Some (default [] (bt_get name blobs) ++ bs) else bt_get name' blobs.
Proof.
  unfold append_bytes, bt_update. destruct (decide (name' = name)) as [->|Hne].
  - apply bt_get_insert_eq.
  - now apply bt_get_insert_ne.
Qed.

(** ** What the writers append *)
Section Log.
Context `{C : Crc} `{CL : !CrcLaws C} `{L : Lz4} `{P : PageSize} `{PL : !PageSizeLaws P}.

Definition put_ok (artifact : ReplicaArtifact) (bs : bytes) : Prop :=
  ReplicaArtifact_ok artifact /\ all_bytes bs /\ len bs < 2 ^ 31.
Definition commit_msg_ok (info : ReplicaCommitInfo) (required : list ReplicaArtifact) (record : bytes) : Prop :=
  ReplicaCommitInfo_ok info /\ Forall ReplicaArtifact_ok required /\ len required <= 1000000
  /\ all_bytes record /\ len record < 2 ^ 31.
Lemma artifact_payload_len f : len (artifact_payload f) = 47 + len (af_bytes f).
Proof.
  rewrite artifact_payload_eq. destruct (af_artifact f) as [a b]. unfold artifact_bytes, encode_artifact. enc_norm.
  autorewrite with len. lia.
Qed.
Lemma commit_payload_len f : len (commit_payload f) <= 60 + 17 * len (cf_required f) + len (cf_record f).
Proof.
  rewrite commit_payload_eq. unfold commit_info_bytes, encode_commit_info. enc_norm.
  assert (len (concat (map artifact_bytes (cf_required f))) = 17 * len (cf_required f)) as H.
  { induction (cf_required f) as [|[a b] l IH]; [reflexivity|]. cbn [map concat]. rewrite len_app, IH, len_cons.
    unfold artifact_bytes, encode_artifact. enc_norm. autorewrite with len. lia. }
  autorewrite with len. rewrite H. lia.
Qed.
Lemma seal_artifact_cases key a checksum bs : key_ok key -> put_ok a bs -> crc32c bs = checksum ->
  (exists e, seal_verified_replica_artifact (rk_source key) (rk_volume key) (rk_assignment_epoch key) a checksum bs = Err e)
  \/ (SpoolFrame_ok (F_artifact (artifact_frame key a checksum bs))
      /\ seal_verified_replica_artifact (rk_source key) (rk_volume key) (rk_assignment_epoch key) a checksum bs
         = Ok (SpoolFrame_bytes (F_artifact (artifact_frame key a checksum bs)))).
Proof using CL PL.
  intros (Hs & Hv & He) (Ha & Hb & Hl) <-. unfold seal_verified_replica_artifact.
  pose proof (verify_artifact_total (rk_volume key) a bs Hb) as Ht.
  destruct (verify_artifact (rk_volume key) a bs) as [[]|e|] eqn:Hve; simpl; [|eauto|now destruct Ht].
  destruct (Z.ltb_spec (len bs) W32); [|lia]. right.
  assert (len (artifact_payload (artifact_frame key a (crc32c bs) bs)) < W32) as Hp.
  { rewrite artifact_payload_len. simpl. lia. }
  split; [|now rewrite seal_frame_Ok by exact Hp].
  split; [|auto]. unfold artifact_ok. simpl. pose proof (crc32c_range bs). intuition lia.
Qed.
Lemma verify_record_total volume info record : fits W64 volume -> no_panic (verify_record volume info record).
Proof using CL PL.
  intros Hv. unfold verify_record. apply no_panic_bind; [|intros; no_panic].
  apply spool_total, (format_total (ExactFormat := JournalRecord_format _ Hv)).
Qed.
Lemma seal_commit_cases key info required record : key_ok key -> commit_msg_ok info required record ->
  (exists e, seal_replica_commit (rk_source key) (rk_volume key) (rk_assignment_epoch key) info required record = Err e)
  \/ (SpoolFrame_ok (F_commit (commit_frame key info required record))
      /\ seal_replica_commit (rk_source key) (rk_volume key) (rk_assignment_epoch key) info required record
         = Ok (SpoolFrame_bytes (F_commit (commit_frame key info required record)))).
Proof using CL PL.
  intros (Hs & Hv & He) (Hi & Hr & Hn & Hb & Hl). unfold seal_replica_commit.
  destruct (strictly_ordered required) eqn:Ho; [|eauto].
  pose proof (verify_record_total (rk_volume key) info record Hv) as Ht.
  destruct (verify_record (rk_volume key) info record) as [[]|e|] eqn:Hve; simpl; [|eauto|now destruct Ht].
  destruct (Z.ltb_spec (len required) W32); [|lia]. destruct (Z.ltb_spec (len record) W32); [|lia]. right.
  pose proof (commit_payload_len (commit_frame key info required record)) as Hp. simpl in Hp.
  assert (len (commit_payload (commit_frame key info required record)) < W32) as Hp' by lia.
  split; [|now rewrite seal_frame_Ok by exact Hp'].
  split; [|split; [lia|exact Hve]]. unfold commit_ok. simpl. intuition lia.
Qed.

(** ** What a replay contains *)
Lemma replay_snoc frames x r rp rp' : replay r frames = Ok rp -> scan_frame rp x = Ok rp' ->
  replay r (frames ++ [x]) = Ok rp'.
Proof. unfold replay. intros H Hx. rewrite fold_outcome_app, H. simpl. now rewrite Hx. Qed.
Lemma scan_frame_keeps r x r' : scan_frame r x = Ok r' ->
  (forall a f, bt_get a (rp_artifacts r) = Some f -> bt_get a (rp_artifacts r') = Some f)
  /\ (forall c, In c (rp_commits r) -> In c (rp_commits r')).
Proof.
  destruct x as [f|c]; simpl; intros H.
  - unfold scan_artifact in H. apply outcome_bind_Ok in H as (i & _ & H).
    destruct (bt_get (af_artifact f) (rp_artifacts r)) eqn:Hg; inv_ok; [auto|]. split; [|auto]. simpl. intros a g Ha.
    rewrite bt_get_insert_ne; [exact Ha|]. intros ->. congruence.
  - unfold scan_commit in H. apply outcome_bind_Ok in H as (i & _ & H). inv_ok.
    case_bool_decide; injection H as <-; [auto|]. split; [auto|]. simpl. intros d Hd. apply in_app_iff. auto.
Qed.
Lemma replay_keeps frames : forall r r', replay r frames = Ok r' ->
  (forall a f, bt_get a (rp_artifacts r) = Some f -> bt_get a (rp_artifacts r') = Some f)
  /\ (forall c, In c (rp_commits r) -> In c (rp_commits r')).
Proof.
  unfold replay. induction frames as [|x frames IH]; intros r r' H; simpl in H; [now injection H as <-|].
  apply outcome_bind_Ok in H as (r1 & H1 & H). destruct (scan_frame_keeps _ _ _ H1) as [A1 A2].
  destruct (IH _ _ H) as [B1 B2]. auto.
Qed.
(** Every frame written is in the result of the scan ... *)
Lemma replay_has frames x : forall r r', replay r frames = Ok r' -> In x frames ->
  match x with
  | F_artifact f => exists f', bt_get (af_artifact f) (rp_artifacts r') = Some f'
                               /\ af_checksum f' = af_checksum f /\ af_bytes f' = af_bytes f
  | F_commit c => In c (rp_commits r')
  end.
Proof.
  unfold replay. induction frames as [|y frames IH]; intros r r' H Hin; [easy|]. simpl in H.
  apply outcome_bind_Ok in H as (r1 & H1 & H). destruct Hin as [->|Hin]; [|now apply (IH r1)].
  destruct (replay_keeps _ _ _ H) as [K1 K2]. destruct x as [f|c]; simpl in H1.
  - unfold scan_artifact in H1. apply outcome_bind_Ok in H1 as (i & _ & H1).
    destruct (bt_get (af_artifact f) (rp_artifacts r)) as [old|] eqn:Hg; inv_ok.
    + apply andb_true_iff in Hc as [Hc Hb]. apply Z.eqb_eq in Hc. apply bool_decide_eq_true in Hb.
      exists old. split; [apply K1; exact Hg|auto].
    + exists f. split; [apply K1; simpl; apply bt_get_insert_eq|auto].
  - unfold scan_commit in H1. apply outcome_bind_Ok in H1 as (i & _ & H1). inv_ok.
    apply K2. case_bool_decide as Hl; injection H1 as <-; simpl.
    + apply last_Some in Hl as [l ->]. apply in_app_iff. right. now left.
    + apply in_app_iff. right. now left.
Qed.
(** ... and nothing else is. *)
Lemma replay_only frames : forall r r', replay r frames = Ok r' ->
  (forall a f, bt_get a (rp_artifacts r') = Some f -> bt_get a (rp_artifacts r) = Some f
     \/ (In (F_artifact f) frames /\ af_artifact f = a))
  /\ (forall c, In c (rp_commits r') -> In c (rp_commits r) \/ In (F_commit c) frames).
Proof.
  unfold replay. induction frames as [|x frames IH]; intros r r' H; simpl in H; [injection H as <-; auto|].
  apply outcome_bind_Ok in H as (r1 & H1 & H). destruct (IH _ _ H) as [A1 A2].
  assert ((forall a f, bt_get a (rp_artifacts r1) = Some f -> bt_get a (rp_artifacts r) = Some f
     \/ (F_artifact f = x /\ af_artifact f = a))
    /\ (forall c, In c (rp_commits r1) -> In c (rp_commits r) \/ F_commit c = x)) as [B1 B2].
  { clear - H1. destruct x as [g|c]; simpl in H1.
    - unfold scan_artifact in H1. apply outcome_bind_Ok in H1 as (i & _ & H1).
      destruct (bt_get (af_artifact g) (rp_artifacts r)); inv_ok; split; auto. simpl. intros a f.
      destruct (decide (a = af_artifact g)) as [->|Hne]; [rewrite bt_get_insert_eq|rewrite bt_get_insert_ne by exact Hne; auto].
      intros [= <-]. auto.
    - unfold scan_commit in H1. apply outcome_bind_Ok in H1 as (i & _ & H1). inv_ok.
      case_bool_decide; injection H1 as <-; [auto|]. simpl. split; [auto|].
      intros d [Hd|[<-|[]]]%in_app_iff; auto. }
  split.
  - intros a f [Ha|[Ha He]]%A1; [|simpl; auto]. destruct (B1 a f Ha) as [?|[? ?]]; simpl; auto.
  - intros c [Hc|Hc]%A2; [|simpl; auto]. destruct (B2 c Hc); simpl; auto.
Qed.
End Log.

(** ** The log of one key

    The generation files of a spool hold a sequence of frames cut into files;
    a torn frame may follow the last one. *)
Record Log := {
  lg_full : list (list SpoolFrame);
  lg_cur : list SpoolFrame;
  lg_torn : bytes }.
Definition log_frames (lg : Log) : list SpoolFrame := concat (lg_full lg) ++ lg_cur lg.
(** [append_file g b]: append to file [g], creating it when it is the next. *)
Definition append_file (g : nat) (b : bytes) (files : list bytes) : list bytes :=
  take g files ++ (default [] (files !! g) ++ b) :: drop (S g) files.
Lemma append_file_lookup g b files i : (g <= length files)%nat ->
  append_file g b files !! i = if decide (i = g) then Some (default [] (files !! g) ++ b) else files !! i.
Proof.
  intros Hg. unfold append_file. assert (length (take g files) = g) as Ht by (rewrite length_take; lia).
  destruct (decide (i = g)) as [->|Hne].
  - rewrite lookup_app_r by lia. now rewrite Ht, Nat.sub_diag.
  - destruct (decide (i < g)%nat).
    + rewrite lookup_app_l, lookup_take_lt by lia. reflexivity.
    + rewrite lookup_app_r, Ht by lia. replace (i - g)%nat with (S (i - S g)) by lia. simpl.
      rewrite lookup_drop. f_equal. lia.
Qed.
Lemma holds_append blobs key files g b : key_ok key -> fits W64 g -> (Z.to_nat g <= length files)%nat ->
  holds blobs key files ->
  holds (append_bytes (spool_name key g) b blobs) key (append_file (Z.to_nat g) b files).
Proof.
  intros Hk Hg Hl H g' Hg'. rewrite append_bytes_get, append_file_lookup by exact Hl.
  destruct (decide (spool_name key g' = spool_name key g)) as [He|Hne].
  - apply spool_name_inj in He as [_ ->]; auto. rewrite decide_True by reflexivity. now rewrite H.
  - rewrite decide_False; [now apply H|]. intros He. apply Hne. f_equal. unfold fits in *. lia.
Qed.

Section Peer.
Context `{C : Crc} `{CL : !CrcLaws C} `{L : Lz4} `{P : PageSize} `{PL : !PageSizeLaws P}.
(** The commits a source sends under one key, and its promise: a later commit
    does not cover less. *)
Variable sends : ReplicaKey -> ReplicaCommitInfo -> Prop.
Definition ranked (key : ReplicaKey) : Prop := forall i j, sends key i -> sends key j ->
  cmp_ltb i j = true -> cmp_leb (rank i) (rank j) = true.

Definition log_files (lg : Log) : list bytes :=
  map spool_bytes (lg_full lg) ++ [spool_bytes (lg_cur lg) ++ lg_torn lg].
Definition newer (c d : ReplicaCommitFrame) : Prop := cmp_ltb (cf_info c) (cf_info d) = true.
Record frames_ok (key : ReplicaKey) (frames : list SpoolFrame) (rp : Replay) : Prop := {
  fo_frames : Forall SpoolFrame_ok frames;
  fo_replay : replay replay_start frames = Ok rp;
  fo_identity : rp_identity rp = None \/ rp_identity rp = Some (key_identity key);
  fo_sends c : In c (rp_commits rp) -> sends key (cf_info c);
  fo_newer : Sorted.StronglySorted newer (rp_commits rp) }.
Record log_ok (key : ReplicaKey) (lg : Log) (rp : Replay) : Prop := {
  lk_frames : frames_ok key (log_frames lg) rp;
  lk_full : Forall (fun fs => fs <> []) (lg_full lg);
  lk_size : len (spool_bytes (log_frames lg)) < 2 ^ 63;
  lk_torn : lg_torn lg = [] \/ exists x k, SpoolFrame_ok x /\ (k < length (SpoolFrame_bytes x))%nat
                                        /\ lg_torn lg = take k (SpoolFrame_bytes x) }.
Definition empty_log : Log := {| lg_full := []; lg_cur := []; lg_torn := [] |}.
Lemma start_frames_ok key : frames_ok key [] replay_start.
Proof. constructor; simpl; auto; try constructor; easy. Qed.
Lemma empty_log_ok key : log_ok key empty_log replay_start.
Proof. constructor; [apply start_frames_ok|constructor|reflexivity|now left]. Qed.
Lemma frames_replay_ok key frames rp : frames_ok key frames rp -> replay_ok rp.
Proof. intros [H1 H2 _ _ _]. eapply replay_frames_ok; eauto using replay_start_ok. Qed.
Lemma SpoolFrame_all_bytes x : SpoolFrame_ok x -> all_bytes (SpoolFrame_bytes x).
Proof.
  destruct x as [f|f]; intros (H & _); apply frame_bytes_bytes;
    [apply (whole_bytes (WholeCodec := artifact_whole))|apply (whole_bytes (WholeCodec := commit_whole))]; exact H.
Qed.
Lemma log_all_bytes key lg rp : log_ok key lg rp -> all_bytes (spool_bytes (log_frames lg) ++ lg_torn lg).
Proof.
  intros [[H _ _ _ _] _ _ Ht]. apply all_bytes_app. split.
  - apply all_bytes_concat. intros x Hx. rewrite List.Forall_forall in H. now apply SpoolFrame_all_bytes, H.
  - destruct Ht as [->|(x & k & Hx & _ & ->)]; [constructor|]. now apply all_bytes_take, SpoolFrame_all_bytes.
Qed.

(** ** A frame the inbox may append *)
Definition last_commit (rp : Replay) : option ReplicaCommitInfo := cf_info <$> list.last (rp_commits rp).
Lemma identity_ok key rp : rp_identity rp = None \/ rp_identity rp = Some (key_identity key) ->
  check_identity (rp_identity rp) (rk_source key) (rk_volume key) (rk_assignment_epoch key)
  = Ok (Some (key_identity key)).
Proof. intros [->| ->]; simpl; [reflexivity|]. now rewrite bool_decide_true. Qed.
Definition replay_with_artifact (key : ReplicaKey) (f : ReplicaArtifactFrame) (rp : Replay) : Replay :=
  {| rp_identity := Some (key_identity key);
     rp_artifacts := bt_insert (af_artifact f) f (rp_artifacts rp);
     rp_uncommitted := bt_insert (af_artifact f) tt (rp_uncommitted rp);
     rp_commits := rp_commits rp |}.
Lemma artifact_appends key frames rp a checksum bs :
  frames_ok key frames rp -> SpoolFrame_ok (F_artifact (artifact_frame key a checksum bs)) ->
  bt_get a (rp_artifacts rp) = None ->
  let f := artifact_frame key a checksum bs in
  frames_ok key (frames ++ [F_artifact f]) (replay_with_artifact key f rp).
Proof.
  intros [H1 H2 H3 H4 H5] Hf Hn f. constructor; simpl; auto.
  - apply Forall_app. auto.
  - eapply replay_snoc; [exact H2|]. simpl. unfold scan_artifact. simpl. rewrite identity_ok by exact H3. simpl.
    now rewrite Hn.
Qed.
Definition replay_with_commit (key : ReplicaKey) (c : ReplicaCommitFrame) (rp : Replay) : Replay :=
  {| rp_identity := Some (key_identity key);
     rp_artifacts := rp_artifacts rp;
     rp_uncommitted := fold_left (fun s a => bt_remove a s) (cf_required c) (rp_uncommitted rp);
     rp_commits := rp_commits rp ++ [c] |}.
Lemma newer_snoc l c : Sorted.StronglySorted newer l ->
  match list.last l with Some p => newer p c | None => True end -> Sorted.StronglySorted newer (l ++ [c]).
Proof.
  intros Hs Hl. apply sorted_app; [exact Hs|repeat constructor|]. intros x y Hx [<-|[]].
  destruct (list.last l) as [p|] eqn:Hp; [|apply last_None in Hp; now subst].
  apply last_Some in Hp as [l' ->]. apply in_app_iff in Hx as [Hx|[->|[]]]; [|exact Hl].
  assert (newer x p) as Hxp.
  { clear - Hs Hx. induction l' as [|y l' IH]; [easy|]. simpl in Hs. inversion Hs as [|? ? Hs' Hy]; subst.
    destruct Hx as [->|Hx]; [|now apply IH]. rewrite Forall_app in Hy. destruct Hy as [_ Hy].
    now apply Forall_cons_1 in Hy as [Hy _]. }
  unfold newer in *. rewrite cmp_ltb_lt in *. eapply cmp_lt_trans; eauto.
Qed.
Lemma commit_appends key frames rp info required record :
  frames_ok key frames rp -> SpoolFrame_ok (F_commit (commit_frame key info required record)) ->
  ranked key -> sends key info -> (forall a, In a required -> bt_contains a (rp_artifacts rp) = true) ->
  match last_commit rp with Some known => cmp_ltb known info = true | None => True end ->
  let c := commit_frame key info required record in
  frames_ok key (frames ++ [F_commit c]) (replay_with_commit key c rp).
Proof.
  intros [H1 H2 H3 H4 H5] Hc Hranked Hsend Hreq Hnew c. unfold last_commit in Hnew.
  constructor; simpl; auto.
  - apply Forall_app. auto.
  - eapply replay_snoc; [exact H2|]. simpl. unfold scan_commit. simpl. rewrite identity_ok by exact H3. simpl.
    assert (forallb (fun artifact => bt_contains artifact (rp_artifacts rp)) required = true) as -> by now apply forallb_forall.
    destruct (list.last (rp_commits rp)) as [p|] eqn:Hp; simpl in Hnew; [|reflexivity].
    assert (cmp_leb (rank (cf_info p)) (rank info) = true) as Hr.
    { apply Hranked; auto. apply H4. apply last_Some in Hp as [l ->]. apply in_app_iff. right. now left. }
    apply cmp_ltb_false in Hr. rewrite Hr. simpl. rewrite bool_decide_false; [reflexivity|].
    intros [= ->]. simpl in Hnew. apply cmp_ltb_lt in Hnew. now apply cmp_lt_irrefl in Hnew.
  - intros d [Hd|[<-|[]]]%in_app_iff; auto.
  - apply newer_snoc; [exact H5|]. destruct (list.last (rp_commits rp)); [exact Hnew|exact I].
Qed.

(** ** Memory and its log *)
Definition remembered (m : BTreeMap ReplicaArtifact ReplicaArtifactFrame)
  : BTreeMap ReplicaArtifact (Z * bytes) :=
  map (fun '(a, f) => (a, (af_checksum f, af_bytes f))) m.
Record knows (rp : Replay) (r : ReplicaState) : Prop := {
  kn_artifacts : rs_artifacts r = remembered (rp_artifacts rp);
  kn_uncommitted a : bt_contains a (rp_uncommitted rp) = true ->
    bt_contains a (rs_uncommitted_artifacts r) = true;
  kn_committed : rs_committed r = last_commit rp;
  kn_record : rs_committed_record r = cf_record <$> list.last (rp_commits rp) }.
Record sized (lg : Log) (r : ReplicaState) : Prop := {
  sz_bytes : rs_bytes r = len (spool_bytes (log_frames lg));
  sz_generation : rs_current_generation r = Z.of_nat (length (lg_full lg));
  sz_file : rs_current_file_bytes r = len (spool_bytes (lg_cur lg)) }.
Lemma remembered_get a m : bt_get a (remembered m) = (fun f => (af_checksum f, af_bytes f)) <$> bt_get a m.
Proof. induction m as [|[b f] m IH]; simpl; [reflexivity|]. destruct (cmp a b); auto. Qed.
Lemma remembered_contains a m : bt_contains a (remembered m) = bt_contains a m.
Proof. unfold bt_contains. rewrite remembered_get. now destruct (bt_get a m). Qed.
Lemma remembered_insert a f m :
  remembered (bt_insert a f m) = bt_insert a (af_checksum f, af_bytes f) (remembered m).
Proof. induction m as [|[b g] m IH]; simpl; [reflexivity|]. destruct (cmp a b); simpl; congruence. Qed.
Lemma knows_artifact key rp r a checksum bs : knows rp r ->
  knows (replay_with_artifact key (artifact_frame key a checksum bs) rp) (insert_artifact a checksum bs r).
Proof using Type.
  intros [H1 H2 H3 H4]. constructor; simpl; auto.
  - now rewrite H1, remembered_insert.
  - intros b. rewrite !bt_contains_insert. intros [->|Hb]; auto.
Qed.
Lemma knows_commit key rp r info required record : knows rp r ->
  knows (replay_with_commit key (commit_frame key info required record) rp) (insert_commit info required record r).
Proof using Type.
  intros [H1 H2 H3 H4]. constructor; simpl; auto.
  - intros a. rewrite !bt_contains_removes. intros [Hb Hc]. auto.
  - unfold last_commit. simpl. now rewrite last_snoc.
  - now rewrite last_snoc.
Qed.
Lemma knows_default : knows replay_start ReplicaState_default.
Proof. now constructor. Qed.
Lemma sized_default : sized empty_log ReplicaState_default.
Proof. now constructor. Qed.

(** ** Appending to a log *)
Definition rotate (rotated : bool) (lg : Log) : Log :=
  if rotated then {| lg_full := lg_full lg ++ [lg_cur lg]; lg_cur := []; lg_torn := [] |} else lg.
Definition log_push (x : SpoolFrame) (lg : Log) : Log :=
  {| lg_full := lg_full lg; lg_cur := lg_cur lg ++ [x]; lg_torn := [] |}.
Definition tear (torn : bytes) (lg : Log) : Log :=
  {| lg_full := lg_full lg; lg_cur := lg_cur lg; lg_torn := torn |}.
Lemma rotate_frames rotated lg : log_frames (rotate rotated lg) = log_frames lg.
Proof.
  destruct rotated; [|reflexivity]. unfold log_frames. simpl. rewrite concat_app. simpl. now rewrite !app_nil_r.
Qed.
Lemma push_frames x lg : log_frames (log_push x lg) = log_frames lg ++ [x].
Proof. unfold log_frames. simpl. now rewrite app_assoc. Qed.
Lemma rotate_ok rotated key lg rp : log_ok key lg rp -> lg_torn lg = [] ->
  (rotated = true -> lg_cur lg <> []) ->
  log_ok key (rotate rotated lg) rp.
Proof.
  intros [H1 H2 H0 H3] Ht Hr. constructor; rewrite ?rotate_frames; auto.
  - destruct rotated; [|exact H2]. simpl. apply Forall_app. split; [exact H2|]. constructor; auto.
  - destruct rotated; simpl; auto.
Qed.
Lemma log_push_ok key x lg rp rp' : log_ok key lg rp -> frames_ok key (log_frames lg ++ [x]) rp' ->
  len (spool_bytes (log_frames lg)) + len (SpoolFrame_bytes x) < 2 ^ 63 ->
  log_ok key (log_push x lg) rp'.
Proof.
  intros [H1 H2 _ H3] Hf Hs. constructor;
    [now rewrite push_frames|exact H2|rewrite push_frames, spool_bytes_app, spool_bytes_one, len_app; exact Hs|now left].
Qed.
Lemma tear_ok key x k lg rp : log_ok key lg rp -> SpoolFrame_ok x -> (k < length (SpoolFrame_bytes x))%nat ->
  log_ok key (tear (take k (SpoolFrame_bytes x)) lg) rp.
Proof. intros [H1 H2 H0 H3] Hx Hk. constructor; [exact H1|exact H2|exact H0|right; eauto]. Qed.
Lemma append_last_file b files f : append_file (length files) b (files ++ [f]) = files ++ [f ++ b].
Proof.
  unfold append_file. rewrite take_app_length, lookup_app_r, Nat.sub_diag by lia. simpl.
  rewrite drop_ge by (rewrite length_app; simpl; lia). reflexivity.
Qed.
Lemma append_next_file b files : append_file (length files) b files = files ++ [b].
Proof.
  unfold append_file. rewrite firstn_all, lookup_ge_None_2 by lia. simpl. now rewrite drop_ge by lia.
Qed.
(** Where the plan appends. *)
Definition target (rotated : bool) (lg : Log) : nat := length (lg_full (rotate rotated lg)).
Lemma append_log rotated lg b : lg_torn lg = [] ->
  append_file (target rotated lg) b (log_files lg) = log_files (tear b (rotate rotated lg)).
Proof.
  intros Ht. unfold target, log_files. rewrite Ht, app_nil_r. destruct rotated; simpl.
  - rewrite length_app. simpl. replace (length (lg_full lg) + 1)%nat with (length (map spool_bytes (lg_full lg) ++ [spool_bytes (lg_cur lg)]))
      by (rewrite length_app, length_map; simpl; lia).
    rewrite append_next_file, map_app. reflexivity.
  - rewrite <- (length_map spool_bytes (lg_full lg)), append_last_file. reflexivity.
Qed.
Lemma push_files x lg : log_files (log_push x lg) = log_files (tear (SpoolFrame_bytes x) lg).
Proof. unfold log_files. simpl. now rewrite spool_bytes_app, spool_bytes_one, app_nil_r. Qed.
End Peer.
