(* ===== verification/InboxDurable.v ===== *)
(** * The inbox against its files

    An invariant ties the memory and the ledger of the inbox to the frames its
    files hold; every message, failure and restart preserves it. *)

From Stdlib Require Sorted.
From S2P Require Import Prelude Format Types OrdMap Text Head Layout HostState HostSafety.
From S2P Require Import Blx BlxFile BlxScan Manifest PageFile Journal JournalFormat ReplicaSpool SpoolSafety.
From S2P Require Import ReplicaInbox InboxSafety.

#[local] Open Scope Z_scope.

(** The log each key has on disk. *)
Abbreviation Ghost := (ReplicaKey -> option Log).
Definition ghost_set (key : ReplicaKey) (lg : option Log) (G : Ghost) : Ghost :=
  fun k => if decide (k = key) then lg else G k.
Lemma ghost_set_eq key lg G : ghost_set key lg G key = lg.
Proof. unfold ghost_set. now rewrite decide_True. Qed.
Lemma ghost_set_ne key key' lg G : key' <> key -> ghost_set key lg G key' = G key'.
Proof. intros H. unfold ghost_set. now rewrite decide_False. Qed.
Definition frames_at (G : Ghost) (key : ReplicaKey) : list SpoolFrame := from_option log_frames [] (G key).
Definition log_at (G : Ghost) (key : ReplicaKey) : Log := default empty_log (G key).
Lemma frames_at_log G key : frames_at G key = log_frames (log_at G key).
Proof. unfold frames_at, log_at. now destruct (G key). Qed.

Lemma bt_get_removes {V} (names : list string) : forall (m : BTreeMap string V) name,
  bt_get name (fold_left (fun m k => bt_remove k m) names m)
  = if decide (In name names) then None else bt_get name m.
Proof.
  induction names as [|k names IH]; intros m name; simpl; [reflexivity|]. rewrite IH.
  destruct (decide (In name names)) as [Hin|Hin].
  - rewrite decide_True; auto.
  - destruct (decide (k = name)) as [->|Hne].
    + rewrite decide_True by auto. apply bt_get_remove_eq.
    + rewrite decide_False by tauto. now apply bt_get_remove_ne.
Qed.
Lemma removes_sorted {V} (names : list string) : forall (m : BTreeMap string V), bt_sorted m ->
  bt_sorted (fold_left (fun m k => bt_remove k m) names m).
Proof. induction names as [|k names IH]; intros m Hm; simpl; [exact Hm|]. apply IH. auto with btree. Qed.

(** ** Sums and reservations *)
Lemma saturating_fold_ge l : forall acc, 0 <= acc -> Forall (Z.le 0) l ->
  Z.min (W64 - 1) acc <= fold_left (saturating_add W64) l acc
  /\ forall x, In x l -> Z.min (W64 - 1) x <= fold_left (saturating_add W64) l acc.
Proof.
  induction l as [|y l IH]; intros acc Ha Hl; simpl; [split; [lia|easy]|].
  apply Forall_cons_1 in Hl as [Hy Hl]. destruct (IH (saturating_add W64 acc y)) as [H1 H2]; auto.
  { unfold saturating_add. lia. }
  unfold saturating_add in *. split; [lia|]. intros x [->|Hx]; [lia|auto].
Qed.
Lemma reserve_append_keeps {E} name b st st' granted : @try_reserve_append E name b st = Ok (st', granted) ->
  hs_replicas st' = hs_replicas st /\ hs_config st' = hs_config st.
Proof.
  unfold try_reserve_append. intros H. apply outcome_bind_Ok in H as (t & _ & H).
  destruct (data_full _ _); injection H as <- <-; [|auto]. unfold request_disk_reclaim. now destruct (hs_disk_reclaim_requested st).
Qed.
Lemma rollback_keeps name b st :
  hs_replicas (rollback_append_reservation name b st) = hs_replicas st
  /\ hs_config (rollback_append_reservation name b st) = hs_config st.
Proof.
  unfold rollback_append_reservation. destruct (bt_get name (hs_blob_sizes st)); [|auto]. now destruct (_ =? 0).
Qed.
(** Giving a reservation back restores every size. *)
Lemma rollback_restores name name' b (m : BTreeMap string Z) : sizes_ok m -> 0 <= b ->
  default 0 (bt_get name' (op_sizes (Op_rollback_append name b) (op_sizes (Op_reserve_append name b) m)))
  = default 0 (bt_get name' m).
Proof.
  intros Hm Hb. simpl. rewrite bt_get_insert_eq. pose proof (sizes_prior name m Hm) as Hp.
  destruct (Z.leb_spec (default 0 (bt_get name m) + b) b); destruct (decide (name' = name)) as [->|Hne].
  - rewrite bt_get_remove_eq. simpl. lia.
  - rewrite bt_get_remove_ne, bt_get_insert_ne by exact Hne. reflexivity.
  - rewrite bt_get_insert_eq. simpl. lia.
  - rewrite !bt_get_insert_ne by exact Hne. reflexivity.
Qed.

Section Host.
Context `{C : Crc} `{CL : !CrcLaws C} `{L : Lz4} `{P : PageSize} `{PL : !PageSizeLaws P}.
Variable sends : ReplicaKey -> ReplicaCommitInfo -> Prop.
(** The keys the invariant speaks about: a spool whose deletions complete and
    whose commits never cover less. Whatever happens to the others, it happens in
    files of their own. *)
Variable sound : ReplicaKey -> bool.
Definition good (key : ReplicaKey) : Prop := key_ok key /\ sound key = true.
Lemma good_ok key : good key -> key_ok key.
Proof. now intros []. Qed.
#[local] Hint Resolve good_ok : core.
Variable config : HostConfig.
Variable capacity : Z.
Hypothesis capacity_small : capacity < 2 ^ 63.
Hypothesis spool_capacity_small : hc_spool_capacity_bytes config < 2 ^ 63.

(** What the device holds is explained by the logs and fits the ledger. *)
Record disk_ok (G : Ghost) (n : Node) : Prop := {
  dk_sorted : bt_sorted (n_blobs n);
  dk_names name bs s v e g : bt_get name (n_blobs n) = Some bs ->
    parse_blob name = Some (Blob_ReplicaSpool s v e g) ->
    let key := {| rk_source := s; rk_volume := v; rk_assignment_epoch := e |} in
    name = spool_name key g /\ key_ok key /\ fits W64 g;
  dk_bytes name bs : bt_get name (n_blobs n) = Some bs -> all_bytes bs;
  dk_logs key : good key ->
    match G key with
    | None => holds (n_blobs n) key []
    | Some lg => holds (n_blobs n) key (log_files lg) /\ exists rp, log_ok sends key lg rp
    end;
  dk_ledger : ledger_ok capacity (n_state n);
  dk_covers name bs : bt_get name (n_blobs n) = Some bs -> len bs <= blob_size name (n_state n);
  dk_config : hs_config (n_state n) = config }.
(** The counters of an entry, so that none of them overflows. *)
Definition counts_ok (r : ReplicaState) : Prop :=
  0 <= rs_current_file_bytes r <= rs_bytes r /\ fits W64 (rs_current_generation r).
(** The memory says what the logs say. *)
Record memory_ok (G : Ghost) (n : Node) : Prop := {
  mm_sorted : bt_sorted (hs_replicas (n_state n));
  mm_keys key r : bt_get key (hs_replicas (n_state n)) = Some r -> key_ok key;
  mm_counts key r : bt_get key (hs_replicas (n_state n)) = Some r -> counts_ok r;
  mm_logs key : good key ->
    match G key, bt_get key (hs_replicas (n_state n)) with
    | None, None => True
    | Some lg, Some r =>
        lg_torn lg = [] /\ sized lg r
        /\ exists rp, replay replay_start (log_frames lg) = Ok rp /\ knows rp r
    | _, _ => False
    end }.

(** The replica of a key, or the default entry a first append makes. *)
Definition replica_of (key : ReplicaKey) (n : Node) : ReplicaState :=
  default ReplicaState_default (bt_get key (hs_replicas (n_state n))).
Lemma replica_log G n key : disk_ok G n -> memory_ok G n -> good key ->
  exists rp, log_ok sends key (log_at G key) rp /\ knows rp (replica_of key n)
    /\ lg_torn (log_at G key) = [] /\ sized (log_at G key) (replica_of key n).
Proof.
  intros D M Hk. pose proof (dk_logs G n D key Hk) as Hd. pose proof (mm_logs G n M key Hk) as Hm.
  unfold log_at, replica_of. destruct (G key) as [lg|], (bt_get key (hs_replicas (n_state n))) as [r|]; try easy; simpl.
  - destruct Hd as [_ [rp Hl]]. destruct Hm as (Ht & Hs & rp' & Hr & Hkn).
    assert (rp = rp') as <- by (pose proof (fo_replay _ _ _ _ (lk_frames _ _ _ _ Hl)); congruence).
    exists rp. auto.
  - exists replay_start. split; [apply empty_log_ok|]. auto using knows_default, sized_default.
Qed.
Lemma spool_bytes_count frames : Forall SpoolFrame_ok frames -> len frames <= len (spool_bytes frames).
Proof.
  induction 1 as [|x frames Hx Hf IH]; [reflexivity|]. unfold spool_bytes in *. simpl. rewrite len_app, len_cons.
  pose proof (SpoolFrame_long x Hx). unfold len in *. lia.
Qed.
Lemma full_count key lg rp : log_ok sends key lg rp -> Z.of_nat (length (lg_full lg)) <= len (spool_bytes (log_frames lg)).
Proof.
  intros [H1 H2 _ _]. pose proof (spool_bytes_count _ (fo_frames _ _ _ _ H1)) as Hc.
  assert ((length (lg_full lg) <= length (concat (lg_full lg)))%nat) as Hf.
  { clear - H2. induction H2 as [|x l Hx Hl IH]; simpl; [lia|]. rewrite length_app. destruct x; [easy|]. simpl. lia. }
  unfold log_frames in *. rewrite len_app in Hc. pose proof (len_nonneg (lg_cur lg)). unfold len in *. lia.
Qed.
Lemma sized_counts key lg rp r : log_ok sends key lg rp -> sized lg r -> counts_ok r.
Proof.
  intros Hl [S1 S2 S3]. pose proof (full_count _ _ _ Hl) as Hf. pose proof (lk_size _ _ _ _ Hl) as Hs.
  assert (0 <= len (spool_bytes (lg_cur lg)) <= len (spool_bytes (log_frames lg))) as Hc.
  { unfold log_frames. rewrite spool_bytes_app, len_app. pose proof (len_nonneg (spool_bytes (concat (lg_full lg)))).
    pose proof (len_nonneg (spool_bytes (lg_cur lg))). lia. }
  unfold counts_ok, fits. rewrite S1, S2, S3. lia.
Qed.
Lemma replica_counts G n key : memory_ok G n -> counts_ok (replica_of key n).
Proof.
  intros M. unfold replica_of. destruct (bt_get key (hs_replicas (n_state n))) as [r|] eqn:Hr; [now apply (mm_counts _ _ M key)|].
  split; [split; reflexivity|]. now split.
Qed.
(** What the plan of an append promises, for any key. *)
Lemma append_plan_bounds G n key additional generation rotated : disk_ok G n -> memory_ok G n -> 0 <= additional ->
  append_plan key additional (n_state n) = Some (generation, rotated) ->
  generation = saturating_add W64 (rs_current_generation (replica_of key n)) (Z.b2z rotated)
  /\ fits W64 generation /\ (rotated = true -> rs_current_file_bytes (replica_of key n) <> 0)
  /\ rs_bytes (replica_of key n) + additional < 2 ^ 63.
Proof using spool_capacity_small.
  intros D M Ha H. unfold append_plan in H.
  set (values := map rs_bytes (bt_values (hs_replicas (n_state n)))) in H.
  assert (Forall (Z.le 0) values) as Hv.
  { apply List.Forall_forall. unfold values, bt_values. rewrite map_map. intros x ([k r] & <- & Hin)%in_map_iff. simpl.
    apply In_bt_get in Hin; [|apply (mm_sorted _ _ M)]. destruct (mm_counts _ _ M k r Hin) as [[? ?] _]. lia. }
  destruct (saturating_fold_ge values 0) as [H0 Hge]; [lia|exact Hv|].
  assert (Z.min (W64 - 1) (rs_bytes (replica_of key n)) <= fold_left (saturating_add W64) values 0) as Hb.
  { unfold replica_of. destruct (bt_get key (hs_replicas (n_state n))) as [r|] eqn:Hg; simpl; [|lia].
    apply Hge. unfold values, bt_values. rewrite map_map. apply bt_get_In in Hg. now apply (in_map (fun e => rs_bytes e.2)) in Hg. }
  set (total := fold_left _ _ _) in *. rewrite (dk_config _ _ D) in H.
  destruct (Z.ltb_spec (hc_spool_capacity_bytes config) (saturating_add W64 total additional)) as [|Hcap]; [discriminate|].
  injection H as <- <-. unfold saturating_add in Hcap.
  assert (forall (f : ReplicaState -> Z) o, f ReplicaState_default = 0 ->
    from_option f 0 o = f (default ReplicaState_default o)) as Hd by (intros f [r|] Hf; simpl; congruence).
  rewrite !Hd by reflexivity. fold (replica_of key n). destruct (replica_counts G n key M) as [[? ?] Hgen].
  set (rotated := negb _ && _) in *. split; [reflexivity|]. unfold saturating_add, fits in *.
  split; [destruct rotated; simpl; lia|]. split; [|lia].
  intros Hr. unfold rotated in Hr. apply andb_prop in Hr as [Hr _]. now apply negb_true_iff, Z.eqb_neq in Hr.
Qed.
Lemma append_plan_spec G n key additional generation rotated rp : disk_ok G n -> memory_ok G n ->
  log_ok sends key (log_at G key) rp -> sized (log_at G key) (replica_of key n) -> 0 <= additional ->
  append_plan key additional (n_state n) = Some (generation, rotated) ->
  generation = Z.of_nat (target rotated (log_at G key)) /\ fits W64 generation
  /\ (rotated = true -> lg_cur (log_at G key) <> [])
  /\ rs_bytes (replica_of key n) + additional < 2 ^ 63.
Proof using spool_capacity_small.
  intros D M Hl Hs Ha H. destruct (append_plan_bounds G n key _ _ _ D M Ha H) as (-> & Hf & Hr & Hb).
  split; [|split; [exact Hf|split; [|exact Hb]]].
  - pose proof (full_count _ _ _ Hl). pose proof (lk_size _ _ _ _ Hl). rewrite (sz_generation _ _ Hs).
    unfold saturating_add, target, rotate. destruct rotated; simpl; rewrite ?length_app; simpl; lia.
  - intros Hrot Hc. apply (Hr Hrot). now rewrite (sz_file _ _ Hs), Hc.
Qed.

(** ** One append *)
(** The device after [b] was appended where the plan says, under a reservation
    for at least [b]. *)
Lemma disk_append G n key rotated b lg' rp' st failed : disk_ok G n -> good key -> all_bytes b ->
  let name := spool_name key (Z.of_nat (target rotated (log_at G key))) in
  fits W64 (Z.of_nat (target rotated (log_at G key))) ->
  lg_torn (log_at G key) = [] -> (rotated = true -> lg_cur (log_at G key) <> []) ->
  log_files lg' = log_files (tear b (rotate rotated (log_at G key))) -> log_ok sends key lg' rp' ->
  ledger_ok capacity st -> hs_config st = config ->
  (forall name', blob_size name' (n_state n) + (if decide (name' = name) then len b else 0) <= blob_size name' st) ->
  disk_ok (ghost_set key (Some lg') G)
    {| n_state := st; n_blobs := append_bytes name b (n_blobs n); n_failed := failed |}.
Proof.
  intros [D1 D2 Db D3 D4 D5 D6] Hk Hbytes name Hg Ht Hr Hf Hl Hst Hc Hsize. constructor; simpl; auto.
  - unfold append_bytes, bt_update. auto with btree.
  - intros name' bs s v e g Hget Hparse. rewrite append_bytes_get in Hget. destruct (decide (name' = name)) as [->|Hne].
    + unfold name in Hparse. rewrite spool_name_parse in Hparse by auto. injection Hparse as <- <- <- <-.
      destruct key. auto.
    + now apply (D2 name' bs).
  - intros name' bs. rewrite append_bytes_get. destruct (decide (name' = name)) as [->|Hne]; [|apply Db].
    intros [= <-]. apply all_bytes_app. split; [|exact Hbytes].
    destruct (bt_get name (n_blobs n)) as [old|] eqn:Ho; [exact (Db _ _ Ho)|constructor].
  - intros key' Hk'. destruct (decide (key' = key)) as [->|Hne].
    + rewrite ghost_set_eq. split; [|eauto]. rewrite Hf. specialize (D3 key Hk). unfold name, log_at in *.
      destruct (G key) as [lg|]; simpl in *.
      * rewrite <- append_log by exact Ht. rewrite <- (Nat2Z.id (target rotated lg)) at 2.
        apply holds_append; auto; [|apply D3]. rewrite Nat2Z.id. unfold target, log_files. rewrite length_app, length_map.
        destruct rotated; simpl; rewrite ?length_app; simpl; lia.
      * destruct rotated; [destruct Hr; [reflexivity|reflexivity]|]. apply (holds_append _ key [] 0 b); auto; now simpl.
    + rewrite ghost_set_ne by exact Hne. specialize (D3 key' Hk').
      assert (forall files, holds (n_blobs n) key' files -> holds (append_bytes name b (n_blobs n)) key' files) as Ho.
      { intros files. apply (holds_other _ _ key); auto. intros name' Hn. rewrite append_bytes_get, decide_False; [reflexivity|]. now apply Hn. }
      destruct (G key'); [|auto]. destruct D3. auto.
  - intros name' bs. rewrite append_bytes_get. specialize (Hsize name'). destruct (decide (name' = name)) as [->|Hne].
    + intros [= <-]. rewrite len_app. destruct (bt_get name (n_blobs n)) as [old|] eqn:Ho; simpl in *.
      * specialize (D5 _ _ Ho). lia.
      * rewrite len_nil. unfold blob_size in *. pose proof (sizes_prior name _ (ledger_ok_sizes _ _ D4)). lia.
    + intros Hget. specialize (D5 _ _ Hget). lia.
Qed.
(** The device is untouched; the ledger covers it still. *)
Lemma disk_same G n st failed : disk_ok G n -> ledger_ok capacity st -> hs_config st = config ->
  (forall name, blob_size name (n_state n) <= blob_size name st) ->
  disk_ok G {| n_state := st; n_blobs := n_blobs n; n_failed := failed |}.
Proof.
  intros [D1 D2 Db D3 D4 D5 D6] Hst Hc Hs. constructor; auto. intros name bs Hget. simpl in *.
  specialize (D5 _ _ Hget). specialize (Hs name). lia.
Qed.
Lemma memory_same G n st failed : memory_ok G n -> hs_replicas st = hs_replicas (n_state n) ->
  memory_ok G {| n_state := st; n_blobs := n_blobs n; n_failed := failed |}.
Proof. intros [M1 M2 Mc M3] Hr. constructor; simpl; rewrite Hr; auto. Qed.
(** The key's entry is replaced along with its log. *)
Lemma memory_set G n key lg rp r st blobs failed : memory_ok G n -> key_ok key ->
  hs_replicas st = bt_insert key r (hs_replicas (n_state n)) ->
  lg_torn lg = [] -> counts_ok r -> sized lg r -> replay replay_start (log_frames lg) = Ok rp -> knows rp r ->
  memory_ok (ghost_set key (Some lg) G) {| n_state := st; n_blobs := blobs; n_failed := failed |}.
Proof.
  intros [M1 M2 Mc M3] Hk Hr Ht Hn Hs Hrp Hkn. constructor; simpl; rewrite Hr.
  - auto with btree.
  - intros key' r'. destruct (decide (key' = key)) as [->|Hne]; [auto|]. rewrite bt_get_insert_ne by exact Hne. apply M2.
  - intros key' r'. destruct (decide (key' = key)) as [->|Hne]; [rewrite bt_get_insert_eq; now intros [= <-]|].
    rewrite bt_get_insert_ne by exact Hne. apply Mc.
  - intros key' Hk'. destruct (decide (key' = key)) as [->|Hne].
    + rewrite ghost_set_eq, bt_get_insert_eq. eauto.
    + rewrite ghost_set_ne, bt_get_insert_ne by exact Hne. now apply M3.
Qed.
Lemma SpoolFrame_short x : SpoolFrame_ok x -> 0 <= len (SpoolFrame_bytes x) < 2 ^ 33.
Proof.
  intros Hx. split; [apply len_nonneg|].
  destruct x; simpl in *; rewrite len_sealed_frame; unfold FRAME_HEADER; destruct Hx as (_ & Hx & _); lia.
Qed.
(** The reservation an append starts with. *)
Lemma reservation n name b : ledger_ok capacity (n_state n) -> 0 <= b < 2 ^ 33 ->
  exists st granted, @try_reserve_append unit name b (n_state n) = Ok (st, granted)
    /\ ledger_ok capacity st /\ hs_replicas st = hs_replicas (n_state n) /\ hs_config st = hs_config (n_state n)
    /\ hs_blob_sizes st = (if granted then op_sizes (Op_reserve_append name b) (hs_blob_sizes (n_state n))
                           else hs_blob_sizes (n_state n)).
Proof using capacity_small.
  intros Hl Hb. destruct (reserve_append_exact capacity (n_state n) name b Hl) as (st & granted & H1 & H2 & _ & H4 & _).
  { simpl. lia. }
  simpl in H1. exists st, granted. destruct (reserve_append_keeps _ _ _ _ _ H1). auto.
Qed.
Lemma reserved_size st st' name b : hs_blob_sizes st' = op_sizes (Op_reserve_append name b) (hs_blob_sizes st) ->
  forall name', blob_size name' st' = blob_size name' st + (if decide (name' = name) then b else 0).
Proof.
  intros H name'. unfold blob_size. rewrite H. simpl. destruct (decide (name' = name)) as [->|Hne].
  - now rewrite bt_get_insert_eq.
  - rewrite bt_get_insert_ne by exact Hne. lia.
Qed.
Lemma rollback_ok G n st name b : disk_ok G n -> ledger_ok capacity st -> hs_config st = config -> 0 <= b ->
  hs_replicas st = hs_replicas (n_state n) ->
  hs_blob_sizes st = op_sizes (Op_reserve_append name b) (hs_blob_sizes (n_state n)) ->
  let st' := note_blob_full (rollback_append_reservation name b st) in
  ledger_ok capacity st' /\ hs_config st' = config /\ hs_replicas st' = hs_replicas (n_state n)
  /\ forall name', blob_size name' (n_state n) <= blob_size name' st'.
Proof.
  intros D Hl Hc Hb Hr Hs st'. destruct (rollback_exact capacity st name b Hl Hb) as (st1 & granted & H1 & H2 & H3 & H4 & _).
  simpl in H1. injection H1 as <- <-. destruct (rollback_keeps name b st) as [K1 K2].
  assert (forall s, hs_config (note_blob_full s) = hs_config s /\ hs_replicas (note_blob_full s) = hs_replicas s) as Hn.
  { intros s. unfold note_blob_full, request_disk_reclaim. now destruct (hs_disk_reclaim_requested s). }
  split; [now apply request_keeps|]. unfold st'. destruct (Hn (rollback_append_reservation name b st)) as [-> ->].
  split; [congruence|]. split; [congruence|]. intros name'. unfold blob_size, note_blob_full.
  destruct (request_reclaim (rollback_append_reservation name b st)) as [_ ->]. rewrite H4, Hs.
  rewrite rollback_restores; [lia| |exact Hb]. apply (ledger_ok_sizes _ _ (dk_ledger _ _ D)).
Qed.
Definition appended (G : Ghost) (key : ReplicaKey) (x : SpoolFrame) (n' : Node) (durable : bool) : Prop :=
  exists G', (forall k, k <> key -> G' k = G k) /\ disk_ok G' n'
  /\ (n_failed n' = false -> memory_ok G' n')
  /\ (frames_at G' key = frames_at G key \/ frames_at G' key = frames_at G key ++ [x])
  /\ (durable = true -> n_failed n' = false /\ frames_at G' key = frames_at G key ++ [x]).
Lemma appended_same G key x n' : disk_ok G n' -> (n_failed n' = false -> memory_ok G n') -> appended G key x n' false.
Proof. intros D M. exists G. split; [auto|]. split; [exact D|]. split; [exact M|]. split; [now left|discriminate]. Qed.
Lemma grown_ok generation rotated b r lg : sized lg r -> rs_bytes r + b < 2 ^ 63 -> 0 <= b ->
  generation = Z.of_nat (target rotated lg) -> lg_torn lg = [] ->
  forall x, len (SpoolFrame_bytes x) = b ->
  exists r', grown generation rotated b r = Ok r' /\ sized (log_push x (rotate rotated lg)) r'
    /\ rs_artifacts r' = rs_artifacts r /\ rs_uncommitted_artifacts r' = rs_uncommitted_artifacts r
    /\ rs_committed r' = rs_committed r /\ rs_committed_record r' = rs_committed_record r.
Proof.
  intros [S1 S2 S3] Hb Hb0 -> Ht x Hx. unfold grown.
  assert (0 <= len (spool_bytes (lg_cur lg)) <= len (spool_bytes (log_frames lg))) as Hc.
  { unfold log_frames. rewrite spool_bytes_app, len_app. pose proof (len_nonneg (spool_bytes (concat (lg_full lg)))).
    pose proof (len_nonneg (spool_bytes (lg_cur lg))). lia. }
  rewrite (checked_add_Some _ (rs_bytes r)) by lia. simpl. rewrite checked_add_Some by (destruct rotated; lia). simpl.
  eexists. split; [reflexivity|]. split; [|auto]. constructor; simpl.
  - rewrite push_frames, rotate_frames, spool_bytes_app, spool_bytes_one, len_app. lia.
  - unfold target. now destruct rotated; simpl.
  - destruct rotated; cbn [lg_cur rotate]; rewrite spool_bytes_app, spool_bytes_one, len_app, Hx; [reflexivity|lia].
Qed.
(** An append that stops part-way leaves a torn frame, or the whole frame. *)
Lemma append_torn G n key rotated x k rp rp' st : disk_ok G n -> good key -> SpoolFrame_ok x ->
  let name := spool_name key (Z.of_nat (target rotated (log_at G key))) in
  fits W64 (Z.of_nat (target rotated (log_at G key))) ->
  lg_torn (log_at G key) = [] -> (rotated = true -> lg_cur (log_at G key) <> []) ->
  log_ok sends key (log_at G key) rp -> frames_ok sends key (frames_at G key ++ [x]) rp' ->
  len (spool_bytes (frames_at G key)) + len (SpoolFrame_bytes x) < 2 ^ 63 ->
  ledger_ok capacity st -> hs_config st = config ->
  hs_blob_sizes st = op_sizes (Op_reserve_append name (len (SpoolFrame_bytes x))) (hs_blob_sizes (n_state n)) ->
  appended G key x
    (fail {| n_state := st; n_blobs := append_bytes name (take k (SpoolFrame_bytes x)) (n_blobs n);
             n_failed := n_failed n |}) false.
Proof.
  intros D Hk Hx name Hg Ht Hr Hl Hfr Hbig Hst Hc Hs. pose proof (rotate_ok sends rotated key _ rp Hl Ht Hr) as Hrot.
  assert (forall name', blob_size name' (n_state n)
    + (if decide (name' = name) then len (take k (SpoolFrame_bytes x)) else 0) <= blob_size name' st) as Hsz.
  { intros name'. rewrite (reserved_size _ _ _ _ Hs). destruct (decide (name' = name)); [|lia].
    unfold len. rewrite length_take. lia. }
  assert (all_bytes (take k (SpoolFrame_bytes x))) as Hbytes by now apply all_bytes_take, SpoolFrame_all_bytes.
  rewrite frames_at_log in Hfr, Hbig. destruct (decide (k < length (SpoolFrame_bytes x))%nat) as [Hlt|Hge].
  - exists (ghost_set key (Some (tear (take k (SpoolFrame_bytes x)) (rotate rotated (log_at G key)))) G).
    split; [intros; now apply ghost_set_ne|]. split; [|split; [discriminate|split; [left|discriminate]]].
    + eapply disk_append; eauto. now apply (tear_ok _ _ _ _ _ rp).
    + unfold frames_at. rewrite ghost_set_eq. simpl. fold (frames_at G key). rewrite frames_at_log.
      apply (rotate_frames rotated (log_at G key)).
  - exists (ghost_set key (Some (log_push x (rotate rotated (log_at G key)))) G).
    split; [intros; now apply ghost_set_ne|]. split; [|split; [discriminate|split; [right|discriminate]]].
    + eapply disk_append; eauto.
      * rewrite push_files, firstn_all2 by lia. reflexivity.
      * apply (log_push_ok _ _ _ _ rp); [exact Hrot|rewrite rotate_frames; exact Hfr|rewrite rotate_frames; exact Hbig].
    + unfold frames_at at 1. rewrite ghost_set_eq. cbn [from_option]. now rewrite push_frames, rotate_frames, frames_at_log.
Qed.
(** The appended frame is recorded: in the file, in the ledger and in memory. *)
Lemma append_done G n key rotated x rp rp' st (insert : ReplicaState -> ReplicaState) r : disk_ok G n -> memory_ok G n -> n_failed n = false ->
  good key -> SpoolFrame_ok x ->
  let name := spool_name key (Z.of_nat (target rotated (log_at G key))) in
  fits W64 (Z.of_nat (target rotated (log_at G key))) ->
  lg_torn (log_at G key) = [] -> (rotated = true -> lg_cur (log_at G key) <> []) ->
  log_ok sends key (log_at G key) rp -> frames_ok sends key (frames_at G key ++ [x]) rp' ->
  len (spool_bytes (frames_at G key)) + len (SpoolFrame_bytes x) < 2 ^ 63 ->
  ledger_ok capacity st -> hs_config st = config -> hs_replicas st = hs_replicas (n_state n) ->
  hs_blob_sizes st = op_sizes (Op_reserve_append name (len (SpoolFrame_bytes x))) (hs_blob_sizes (n_state n)) ->
  sized (log_push x (rotate rotated (log_at G key))) (insert r) -> knows rp' (insert r) ->
  appended G key x
    {| n_state := with_replicas (bt_insert key (insert r) (hs_replicas st)) st;
       n_blobs := append_bytes name (SpoolFrame_bytes x) (n_blobs n); n_failed := n_failed n |} true.
Proof.
  intros D M Hn Hk Hx name Hg Ht Hr Hl Hfr Hbig Hst Hc Hrep Hs Hsz Hkn.
  pose proof (rotate_ok sends rotated key _ rp Hl Ht Hr) as Hrot. rewrite frames_at_log in Hfr, Hbig.
  exists (ghost_set key (Some (log_push x (rotate rotated (log_at G key)))) G).
  assert (frames_at (ghost_set key (Some (log_push x (rotate rotated (log_at G key)))) G) key = frames_at G key ++ [x]) as Hf.
  { unfold frames_at at 1. rewrite ghost_set_eq. cbn [from_option]. now rewrite push_frames, rotate_frames, frames_at_log. }
  split; [intros; now apply ghost_set_ne|]. split; [|split; [|auto]].
  - eapply disk_append; eauto using SpoolFrame_all_bytes.
    + apply push_files.
    + apply (log_push_ok _ _ _ _ rp); [exact Hrot|rewrite rotate_frames; exact Hfr|rewrite rotate_frames; exact Hbig].
    + destruct Hst. now constructor.
    + intros name'. pose proof (reserved_size _ _ _ _ Hs name') as Hz.
      change (blob_size name' (with_replicas _ _)) with (blob_size name' st). unfold name in Hz. rewrite Hz. reflexivity.
  - intros _. eapply (memory_set G n key _ rp' (insert r)); auto.
    + simpl. now rewrite Hrep.
    + refine (sized_counts key _ rp' _ (log_push_ok _ _ _ _ rp _ Hrot _ _) Hsz); rewrite rotate_frames; [exact Hfr|exact Hbig].
    + rewrite push_frames, rotate_frames. apply (fo_replay _ _ _ _ Hfr).
Qed.
Lemma append_frame_ok G n w key x insert rp rp' : disk_ok G n -> memory_ok G n -> n_failed n = false ->
  good key -> SpoolFrame_ok x ->
  replay replay_start (frames_at G key) = Ok rp -> frames_ok sends key (frames_at G key ++ [x]) rp' ->
  (forall lg r, sized lg r -> sized lg (insert r)) -> (forall r, knows rp r -> knows rp' (insert r)) ->
  exists n' durable, append_frame w key (SpoolFrame_bytes x) insert n = Ok (n', durable)
    /\ appended G key x n' durable.
Proof using capacity_small spool_capacity_small.
  intros D M Hn Hk Hx Hrp Hfr Hsi Hki. destruct (replica_log G n key D M Hk) as (rp0 & Hl & Hkn & Ht & Hsz).
  assert (rp0 = rp) as -> by (pose proof (fo_replay _ _ _ _ (lk_frames _ _ _ _ Hl)) as Hr; rewrite <- frames_at_log in Hr; congruence).
  pose proof (SpoolFrame_short x Hx) as Hlen. unfold append_frame.
  destruct (append_plan key (len (SpoolFrame_bytes x)) (n_state n)) as [[generation rotated]|] eqn:Hp.
  2:{ do 2 eexists. split; [reflexivity|]. now apply appended_same. }
  destruct (append_plan_spec G n key _ _ _ rp D M Hl Hsz (proj1 Hlen) Hp) as (-> & Hg & Hr & Hb).
  assert (len (spool_bytes (frames_at G key)) + len (SpoolFrame_bytes x) < 2 ^ 63) as Hbig.
  { rewrite frames_at_log, <- (sz_bytes _ _ Hsz). exact Hb. }
  set (name := spool_name key _). destruct (reservation n name _ (dk_ledger _ _ D) Hlen) as (st & granted & -> & Hst & Hrep & Hcfg & Hsizes).
  rewrite (dk_config _ _ D) in Hcfg. simpl. destruct granted; simpl.
  2:{ do 2 eexists. split; [reflexivity|]. apply appended_same.
      - apply disk_same; auto. intros name'. unfold blob_size. now rewrite Hsizes.
      - intros _. now apply memory_same. }
  unfold Blobs_append. destruct (w_append w) as [| |landed].
  - destruct (grown_ok (Z.of_nat (target rotated (log_at G key))) rotated _ _ _ Hsz Hb (proj1 Hlen) eq_refl Ht x eq_refl) as (r' & Hgr & Hsz' & K1 & K2 & K3 & K4).
    rewrite Hrep. fold (replica_of key n). rewrite Hgr. cbn [outcome_bind]. rewrite <- Hrep. do 2 eexists. split; [reflexivity|].
    apply (append_done G n key rotated x rp rp' st insert r'); auto.
    apply Hki. destruct Hkn as [A1 A2 A3 A4]. constructor; congruence || (rewrite K2; exact A2).
  - destruct (rollback_ok G n st name _ D Hst Hcfg (proj1 Hlen) Hrep Hsizes) as (R1 & R2 & R3 & R4).
    do 2 eexists. split; [reflexivity|]. apply appended_same; [now apply disk_same|intros _; now apply memory_same].
  - do 2 eexists. split; [reflexivity|]. destruct landed as [k|]; [now apply (append_torn G n key rotated x k rp rp')|].
    apply appended_same; [|discriminate]. apply (disk_same G n st true); auto. intros name'.
    rewrite (reserved_size _ _ _ _ Hsizes name'). destruct (decide (name' = name)); lia.
Qed.

(** ** One message *)
Hypothesis sends_ranked : forall key, sound key = true -> ranked sends key.
Definition msg_ok (key : ReplicaKey) (msg : ReplicaMsg) : Prop :=
  match msg with
  | ReplicaPut artifact _ bs => put_ok artifact bs
  | ReplicaCommit info required record => commit_msg_ok info required record /\ (sound key = true -> sends key info)
  | ReplicaStatus | ReplicaRelease _ => True
  end.
Definition has_artifact (frames : list SpoolFrame) (a : ReplicaArtifact) (Q : Z -> Prop) : Prop :=
  exists f, In (F_artifact f) frames /\ af_artifact f = a /\ Q (af_checksum f).
Definition has_commit (frames : list SpoolFrame) (info : ReplicaCommitInfo) : Prop :=
  exists c, In (F_commit c) frames /\ cf_info c = info.
(** What an answer tells the source. *)
Definition truthful (frames : list SpoolFrame) (key : ReplicaKey) (msg : ReplicaMsg) (reply : ReplicaReply) : Prop :=
  match reply, msg with
  | ReplicaPutAck k a checksum, ReplicaPut a' checksum' _ =>
      k = key /\ a = a' /\ checksum = checksum' /\ has_artifact frames a (eq checksum)
  | ReplicaCommitAck k info, ReplicaCommit info' required _ =>
      k = key /\ info = info' /\ has_commit frames info
      /\ forall a, In a required -> has_artifact frames a (fun _ => True)
  | ReplicaStatusReply k committed, ReplicaStatus =>
      k = key /\ forall info, committed = Some info -> has_commit frames info
  | ReplicaReleaseAck k through, ReplicaRelease through' => k = key /\ through = through'
  | _, _ => False
  end.
Definition handled (G : Ghost) (key : ReplicaKey) (msg : ReplicaMsg) (n' : Node) (replies : list ReplicaReply) : Prop :=
  exists G', (forall k, k <> key -> G' k = G k) /\ disk_ok G' n' /\ (n_failed n' = false -> memory_ok G' n')
  /\ ((exists more, frames_at G' key = frames_at G key ++ more)
      \/ (exists through, msg = ReplicaRelease through
          /\ forall info, has_commit (frames_at G key) info -> cmp_leb info through = true))
  /\ forall reply, In reply replies -> truthful (frames_at G' key) key msg reply.
Lemma handled_same G key msg n replies : disk_ok G n -> memory_ok G n ->
  (forall reply, In reply replies -> truthful (frames_at G key) key msg reply) -> handled G key msg n replies.
Proof.
  intros D M Hr. exists G. split; [auto|]. split; [exact D|]. split; [auto|]. split; [|exact Hr].
  left. exists []. now rewrite app_nil_r.
Qed.
Lemma handled_reject G key msg n : disk_ok G n -> memory_ok G n -> handled G key msg n [].
Proof. intros D M. now apply handled_same. Qed.
Lemma authorized_total w key st : fits W64 (rk_volume key) -> exists b, authorized w key st = Ok b.
Proof using CL.
  intros Hv. unfold authorized. destruct (_ =? 0); [eauto|]. destruct (has_durable_spool key st); [eauto|].
  destruct (w_head w) as [bs|]; [|eauto].
  pose proof (format_total (ExactFormat := HeadRecord_format (rk_volume key) Hv) bs) as Ht.
  destruct (HeadRecord_decode (rk_volume key) bs); simpl; [eauto|eauto|now destruct Ht].
Qed.
(** What the memory says about a key is what its frames say. *)
Lemma known_artifact G n key rp a checksum bs : disk_ok G n -> log_ok sends key (log_at G key) rp ->
  knows rp (replica_of key n) -> bt_get a (rs_artifacts (replica_of key n)) = Some (checksum, bs) ->
  has_artifact (frames_at G key) a (eq checksum).
Proof.
  intros D Hl Hkn Hg. rewrite (kn_artifacts _ _ Hkn), remembered_get in Hg.
  destruct (bt_get a (rp_artifacts rp)) as [f|] eqn:Hf; [|discriminate]. injection Hg as <- <-.
  destruct (proj1 (replay_only _ _ _ (fo_replay _ _ _ _ (lk_frames _ _ _ _ Hl))) a f Hf) as [H|[H1 H2]]; [discriminate|].
  exists f. rewrite frames_at_log. auto.
Qed.
Lemma known_commit G n key rp info : log_ok sends key (log_at G key) rp -> knows rp (replica_of key n) ->
  rs_committed (replica_of key n) = Some info -> has_commit (frames_at G key) info.
Proof.
  intros Hl Hkn Hc. rewrite (kn_committed _ _ Hkn) in Hc. unfold last_commit in Hc.
  destruct (list.last (rp_commits rp)) as [c|] eqn:Hlast; [|discriminate]. injection Hc as <-.
  assert (In c (rp_commits rp)) as Hin by (apply last_Some in Hlast as [l ->]; apply in_app_iff; right; now left).
  destruct (proj2 (replay_only _ _ _ (fo_replay _ _ _ _ (lk_frames _ _ _ _ Hl))) c Hin) as [H|H]; [easy|].
  exists c. rewrite frames_at_log. auto.
Qed.
Lemma has_artifact_more frames more a Q : has_artifact frames a Q -> has_artifact (frames ++ more) a Q.
Proof. intros (f & Hf & Ha & HQ). exists f. rewrite in_app_iff. auto. Qed.
Lemma has_artifact_any frames a Q : has_artifact frames a Q -> has_artifact frames a (fun _ => True).
Proof. intros (f & Hf & Ha & _). exists f. auto. Qed.
Lemma appended_handled G key x n' durable msg reply : appended G key x n' durable ->
  (durable = true -> truthful (frames_at G key ++ [x]) key msg reply) ->
  handled G key msg n' (if durable then [reply] else []).
Proof.
  intros (G' & Ho & D & M & Hf & Hd) Ht. exists G'. split; [exact Ho|]. split; [exact D|]. split; [exact M|]. split.
  - left. destruct Hf as [->| ->]; [exists []; now rewrite app_nil_r|eauto].
  - destruct durable; [|easy]. destruct (Hd eq_refl) as [_ He]. intros r [<-|[]]. rewrite He. now apply Ht.
Qed.
Lemma set_replica_ok G n key r r' : disk_ok G n -> memory_ok G n -> key_ok key ->
  bt_get key (hs_replicas (n_state n)) = Some r -> (counts_ok r -> counts_ok r') ->
  (forall lg, sized lg r -> sized lg r') -> (forall rp, knows rp r -> knows rp r') ->
  disk_ok G (set_replica key r' n) /\ memory_ok G (set_replica key r' n).
Proof.
  intros D [M1 M2 Mc M3] Hk Hr Hn Hs Hkn. split.
  { apply disk_same; auto; [|apply (dk_config _ _ D)|reflexivity]. destruct (dk_ledger _ _ D). now constructor. }
  constructor; simpl; [auto with btree| | |]; intros key'; (destruct (decide (key' = key)) as [->|Hne];
    [rewrite bt_get_insert_eq|rewrite bt_get_insert_ne by exact Hne]); [auto|apply M2| |apply Mc| |apply M3].
  { intros r0 [= <-]. apply Hn, (Mc key r Hr). }
  intros Hg. specialize (M3 key Hg). rewrite Hr in M3. destruct (G key); [|easy].
  destruct M3 as (H1 & H2 & rp & H3 & H4). split; [exact H1|]. split; [auto|]. exists rp. auto.
Qed.
Lemma knows_marked rp a r : knows rp r -> knows rp (mark_uncommitted a r).
Proof. intros [H1 H2 H3 H4]. constructor; simpl; auto. intros b Hb. apply bt_contains_insert. auto. Qed.

Lemma put_handled G n w key a checksum bs : disk_ok G n -> memory_ok G n -> n_failed n = false -> good key ->
  put_ok a bs -> exists n' replies, put w key a checksum bs n = Ok (n', replies)
    /\ handled G key (ReplicaPut a checksum bs) n' replies.
Proof using CL PL capacity_small spool_capacity_small.
  intros D M Hn Hk Hp. unfold put. destruct (authorized_total w key (n_state n) ltac:(apply (good_ok key Hk))) as [b ->]. simpl.
  destruct (negb b || negb (crc32c bs =? checksum)) eqn:Hrej; [do 2 eexists; split; [reflexivity|now apply handled_reject]|].
  apply orb_false_iff in Hrej as [_ Hc%negb_false_iff%Z.eqb_eq].
  destruct (seal_artifact_cases key a checksum bs (good_ok key Hk) Hp Hc) as [[e ->]|[Hx ->]]; simpl;
    [do 2 eexists; split; [reflexivity|now apply handled_reject]|].
  destruct (replica_log G n key D M Hk) as (rp & Hl & Hkn & Ht & Hsz). pose proof (lk_frames _ _ _ _ Hl) as Hf.
  rewrite <- frames_at_log in Hf. change (frame_bytes MAGIC_REPLICA_ARTIFACT (artifact_payload (artifact_frame key a checksum bs)))
    with (SpoolFrame_bytes (F_artifact (artifact_frame key a checksum bs))).
  assert (bt_get a (rs_artifacts (replica_of key n)) = None ->
    exists n' replies, (let? (n, durable) := append_frame w key (SpoolFrame_bytes (F_artifact (artifact_frame key a checksum bs)))
      (insert_artifact a checksum bs) n in Ok (n, if durable : bool then [ReplicaPutAck key a checksum] else [])) = Ok (n', replies)
    /\ handled G key (ReplicaPut a checksum bs) n' replies) as Happ.
  { intros Hnew. rewrite (kn_artifacts _ _ Hkn), remembered_get in Hnew. destruct (bt_get a (rp_artifacts rp)) eqn:Hga; [discriminate|].
    pose proof (artifact_appends sends key _ rp a checksum bs Hf Hx Hga) as Hf'.
    destruct (append_frame_ok G n w key _ (insert_artifact a checksum bs) rp _ D M Hn Hk Hx (fo_replay _ _ _ _ Hf) Hf') as (n' & durable & -> & Happ).
    { intros lg r []. now constructor. }
    { intros r. apply knows_artifact. }
    do 2 eexists. split; [reflexivity|]. apply (appended_handled _ _ _ _ _ _ _ Happ). intros _. simpl. split; [auto|]. split; [auto|].
    split; [auto|]. eexists. split; [apply in_app_iff; right; left; reflexivity|]. auto. }
  unfold replica_of in *. destruct (bt_get key (hs_replicas (n_state n))) as [r|] eqn:Hr; [|now apply Happ].
  simpl in *. destruct (bt_get a (rs_artifacts r)) as [[known bs']|] eqn:Ha; [|now apply Happ].
  destruct (Z.eqb_spec known checksum) as [->|]; [|do 2 eexists; split; [reflexivity|now apply handled_reject]].
  do 2 eexists. split; [reflexivity|]. destruct (set_replica_ok G n key r (mark_uncommitted a r) D M (good_ok key Hk) Hr) as [D' M'].
  { auto. }
  { intros lg []. now constructor. }
  { intros. now apply knows_marked. }
  apply handled_same; auto. intros reply [<-|[]]. simpl. split; [auto|]. split; [auto|]. split; [auto|].
  apply (known_artifact G n key rp a checksum bs' D Hl); unfold replica_of; now rewrite Hr.
Qed.

Lemma required_known G n key rp required : log_ok sends key (log_at G key) rp -> knows rp (replica_of key n) ->
  disk_ok G n ->
  forallb (fun a => match bt_get key (hs_replicas (n_state n)) with
                    | Some r => bt_contains a (rs_artifacts r) | None => false end) required = true ->
  (forall a, In a required -> bt_contains a (rp_artifacts rp) = true)
  /\ (forall a, In a required -> has_artifact (frames_at G key) a (fun _ => True)).
Proof.
  intros Hl Hkn D H. rewrite forallb_forall in H. split; intros a Ha; specialize (H a Ha); unfold replica_of in Hkn.
  - destruct (bt_get key (hs_replicas (n_state n))) as [r|]; [|discriminate]. simpl in Hkn.
    now rewrite (kn_artifacts _ _ Hkn), remembered_contains in H.
  - destruct (bt_get key (hs_replicas (n_state n))) as [r|] eqn:Hr; [|discriminate]. simpl in Hkn. unfold bt_contains in H.
    destruct (bt_get a (rs_artifacts r)) as [[c bs]|] eqn:Hg; [|discriminate]. eapply has_artifact_any.
    apply (known_artifact G n key rp a c bs D Hl); unfold replica_of; now rewrite Hr.
Qed.
Lemma commit_handled G n w key info required record : disk_ok G n -> memory_ok G n -> n_failed n = false -> good key ->
  commit_msg_ok info required record -> sends key info ->
  exists n' replies, commit w key info required record n = Ok (n', replies)
    /\ handled G key (ReplicaCommit info required record) n' replies.
Proof using CL PL capacity_small spool_capacity_small sends_ranked.
  intros D M Hn Hk Hp Hsend. unfold commit. destruct (authorized_total w key (n_state n) ltac:(apply (good_ok key Hk))) as [b ->]. simpl.
  destruct (negb b); [do 2 eexists; split; [reflexivity|now apply handled_reject]|].
  destruct (seal_commit_cases key info required record (good_ok key Hk) Hp) as [[e ->]|[Hx ->]]; simpl;
    [do 2 eexists; split; [reflexivity|now apply handled_reject]|].
  destruct (replica_log G n key D M Hk) as (rp & Hl & Hkn & Ht & Hsz). pose proof (lk_frames _ _ _ _ Hl) as Hf.
  rewrite <- frames_at_log in Hf.
  destruct (forallb _ required) eqn:Hreq; simpl; [|do 2 eexists; split; [reflexivity|now apply handled_reject]].
  change (frame_bytes MAGIC_REPLICA_COMMIT (commit_payload (commit_frame key info required record)))
    with (SpoolFrame_bytes (F_commit (commit_frame key info required record))).
  destruct (required_known G n key rp required Hl Hkn D Hreq) as [Hin Hart].
  assert (bt_get key (hs_replicas (n_state n)) ≫= rs_committed = rs_committed (replica_of key n)) as ->.
  { unfold replica_of. now destruct (bt_get key (hs_replicas (n_state n))). }
  case_bool_decide as Hsame.
  { do 2 eexists. split; [reflexivity|]. apply handled_same; auto. intros reply [<-|[]]. simpl.
    split; [auto|]. split; [auto|]. split; [|exact Hart]. now apply (known_commit G n key rp). }
  rewrite (kn_committed _ _ Hkn) in *.
  destruct (match last_commit rp with Some _ => _ | None => _ end) eqn:Hold; [do 2 eexists; split; [reflexivity|now apply handled_reject]|].
  assert (frames_ok sends key (frames_at G key ++ [F_commit (commit_frame key info required record)])
    (replay_with_commit key (commit_frame key info required record) rp)) as Hf'.
  { apply commit_appends; auto; [now apply sends_ranked, Hk|]. destruct (last_commit rp); [|exact I]. apply cmp_ltb_lt. now apply cmp_leb_false. }
  destruct (append_frame_ok G n w key _ (insert_commit info required record) rp _ D M Hn Hk Hx (fo_replay _ _ _ _ Hf) Hf') as (n' & durable & -> & Happ).
  { intros lg r []. now constructor. }
  { intros r. apply knows_commit. }
  do 2 eexists. split; [reflexivity|]. apply (appended_handled _ _ _ _ _ _ _ Happ). intros _. simpl. split; [auto|]. split; [auto|].
  split; [eexists; split; [apply in_app_iff; right; left; reflexivity|reflexivity]|].
  intros a Ha. apply has_artifact_more. auto.
Qed.
Lemma status_handled G n w key : disk_ok G n -> memory_ok G n -> good key ->
  exists n' replies, status w key n = Ok (n', replies) /\ handled G key ReplicaStatus n' replies.
Proof using CL.
  intros D M Hk. unfold status. destruct (authorized_total w key (n_state n) ltac:(apply (good_ok key Hk))) as [b ->]. simpl.
  destruct (negb b); do 2 eexists; (split; [reflexivity|]); [now apply handled_reject|].
  apply handled_same; auto. intros reply [<-|[]]. simpl. split; [auto|]. intros info Hi.
  destruct (replica_log G n key D M Hk) as (rp & Hl & Hkn & _). apply (known_commit G n key rp); auto.
  unfold replica_of. now destruct (bt_get key (hs_replicas (n_state n))).
Qed.

Lemma commits_below_last key frames rp info last : frames_ok sends key frames rp -> last_commit rp = Some last ->
  has_commit frames info -> cmp_leb info last = true.
Proof.
  intros [H1 H2 H3 H4 H5] Hl (c & Hc & <-). unfold last_commit in Hl.
  destruct (list.last (rp_commits rp)) as [d|] eqn:Hd; [|discriminate]. injection Hl as <-.
  pose proof (replay_has _ _ _ _ H2 Hc) as Hin. simpl in Hin. apply last_Some in Hd as [l Hd]. rewrite Hd in *.
  apply in_app_iff in Hin as [Hin|[->|[]]]; [|apply cmp_leb_le; auto].
  apply cmp_leb_le. left. apply cmp_ltb_lt. clear - H5 Hin. induction l as [|y l IH]; [easy|]. simpl in H5.
  inversion H5 as [|? ? Hs Hy]; subst. destruct Hin as [->|Hin]; [|now apply IH].
  rewrite Forall_app in Hy. destruct Hy as [_ Hy]. now apply Forall_cons_1 in Hy as [Hy _].
Qed.
Lemma generation_names_In key r lg name : sized lg r -> 
  In name (generation_names key (rs_current_generation r))
  <-> exists g : nat, (g < length (log_files lg))%nat /\ name = spool_name key (Z.of_nat g).
Proof.
  intros Hs. unfold generation_names, log_files. rewrite (sz_generation _ _ Hs), Nat2Z.id, length_app, length_map, in_map_iff.
  cbn [length]. split.
  - intros (g & <- & Hg%in_seq). exists g. split; [lia|reflexivity].
  - intros (g & Hg & ->). exists g. split; [reflexivity|]. apply in_seq. lia.
Qed.
(** All generations of the key are gone, and nothing else is. *)
Lemma released_ok G n key r lg failed : disk_ok G n -> memory_ok G n -> good key ->
  bt_get key (hs_replicas (n_state n)) = Some r -> G key = Some lg -> sized lg r -> lg_torn lg = [] ->
  let names := generation_names key (rs_current_generation r) in
  let n' := {| n_state := forget_blobs names (with_replicas (bt_remove key (hs_replicas (n_state n))) (n_state n));
               n_blobs := fold_left (fun m k => bt_remove k m) names (n_blobs n); n_failed := failed |} in
  disk_ok (ghost_set key None G) n' /\ memory_ok (ghost_set key None G) n'.
Proof.
  intros [D1 D2 Db D3 D4 D5 D6] [M1 M2 Mc M3] Hk Hr HG Hs Ht names n'.
  assert (forall name, In name names <-> exists g : nat, (g < length (log_files lg))%nat /\ name = spool_name key (Z.of_nat g)) as Hnames
    by (intros; now apply generation_names_In). clearbody names.
  assert (Z.of_nat (length (log_files lg)) < W64) as Hlen.
  { specialize (D3 key Hk). rewrite HG in D3. destruct D3 as [_ [rp Hlog]]. pose proof (full_count _ _ _ Hlog).
    pose proof (lk_size _ _ _ _ Hlog). unfold log_files. rewrite length_app, length_map. simpl. lia. }
  split; constructor; simpl; try exact D6; try (now apply removes_sorted); try (now apply bt_remove_sorted).
  - intros name bs s v e g. rewrite bt_get_removes. destruct (decide (In name names)); [discriminate|]. apply D2.
  - intros name bs. rewrite bt_get_removes. destruct (decide (In name names)); [discriminate|]. apply Db.
  - intros key' Hk'. destruct (decide (key' = key)) as [->|Hne].
    + rewrite ghost_set_eq. intros g Hg. rewrite bt_get_removes. destruct (decide (In _ names)) as [|Hno]; [reflexivity|].
      specialize (D3 key Hk). rewrite HG in D3. destruct D3 as [Hh _]. rewrite Hh by exact Hg. simpl.
      apply lookup_ge_None_2. destruct (decide (length (log_files lg) <= Z.to_nat g)%nat); [assumption|].
      destruct Hno. apply Hnames. exists (Z.to_nat g). split; [lia|]. f_equal. unfold fits in Hg. lia.
    + rewrite ghost_set_ne by exact Hne. specialize (D3 key' Hk').
      assert (forall files, holds (n_blobs n) key' files -> holds (n_blobs n') key' files) as Ho.
      { intros files. apply (holds_other _ _ key); auto. intros name Hn. simpl. rewrite bt_get_removes, decide_False; [reflexivity|].
        intros (g & Hg & He)%Hnames. apply (Hn (Z.of_nat g)); [|exact He]. unfold fits. lia. }
      destruct (G key'); [|auto]. destruct D3. auto.
  - destruct (forget_sizes names _ (ledger_ok_sizes _ _ D4)) as [F1 F2]. pose proof (lo_fits _ _ D4). destruct D4.
    constructor; simpl; auto; [apply F1|apply F1|]. simpl in F2. lia.
  - intros name bs. rewrite bt_get_removes. destruct (decide (In name names)) as [|Hno]; [discriminate|]. intros Hg.
    unfold blob_size. simpl. rewrite bt_get_removes, decide_False by exact Hno. now apply D5.
  - intros key' r' Hg. destruct (decide (key' = key)) as [->|Hne]; [auto|]. rewrite bt_get_remove_ne in Hg by exact Hne. eauto.
  - intros key' r' Hg. destruct (decide (key' = key)) as [->|Hne]; [now rewrite bt_get_remove_eq in Hg|].
    rewrite bt_get_remove_ne in Hg by exact Hne. eauto.
  - intros key' Hk'. destruct (decide (key' = key)) as [->|Hne].
    + now rewrite ghost_set_eq, bt_get_remove_eq.
    + rewrite ghost_set_ne, bt_get_remove_ne by exact Hne. now apply M3.
Qed.
Lemma release_handled G n w key through : disk_ok G n -> memory_ok G n -> good key ->
  w_delete w = Delete_done ->
  exists n' replies, release w key through n = Ok (n', replies) /\ handled G key (ReplicaRelease through) n' replies.
Proof using CL.
  intros D M Hk Hw. unfold release. destruct (authorized_total w key (n_state n) ltac:(apply (good_ok key Hk))) as [b ->]. simpl.
  assert (forall reply, In reply [ReplicaReleaseAck key through] ->
    forall frames, truthful frames key (ReplicaRelease through) reply) as Hack by (intros reply [<-|[]] frames; simpl; auto).
  destruct (negb b); [do 2 eexists; split; [reflexivity|now apply handled_reject]|].
  destruct (bt_get key (hs_replicas (n_state n))) as [r|] eqn:Hr; [|do 2 eexists; split; [reflexivity|apply handled_same; auto]].
  destruct (match rs_committed r with Some c => cmp_ltb through c | None => false end);
    [do 2 eexists; split; [reflexivity|apply handled_same; auto]|].
  destruct (rs_committed r) as [committed|] eqn:Hc; [|do 2 eexists; split; [reflexivity|now apply handled_reject]].
  destruct (cmp_leb committed through) eqn:Hle; [|do 2 eexists; split; [reflexivity|now apply handled_reject]].
  destruct (rs_uncommitted_artifacts r); [|do 2 eexists; split; [reflexivity|now apply handled_reject]]. simpl.
  unfold Blobs_delete_many_durable. rewrite Hw. do 2 eexists. split; [reflexivity|].
  destruct (replica_log G n key D M Hk) as (rp & Hl & Hkn & Ht & Hsz). unfold replica_of in Hkn, Hsz. rewrite Hr in Hkn, Hsz. simpl in Hkn, Hsz.
  pose proof (mm_logs _ _ M key Hk) as Hm. rewrite Hr in Hm. unfold log_at in *.
  destruct (G key) as [lg|] eqn:HG; [|easy]. simpl in *.
  destruct (released_ok G n key r lg (n_failed n) D M Hk Hr HG Hsz Ht) as [D' M'].
  exists (ghost_set key None G). split; [intros; now apply ghost_set_ne|]. split; [exact D'|]. split; [auto|].
  split; [|intros reply Hreply; now apply Hack]. right. exists through. split; [reflexivity|]. intros info Hi.
  apply cmp_le_trans with committed; [|exact Hle]. apply (commits_below_last key (log_frames lg) rp).
  - apply (lk_frames _ _ _ _ Hl).
  - rewrite <- (kn_committed _ _ Hkn). exact Hc.
  - unfold frames_at in Hi. now rewrite HG in Hi.
Qed.
Lemma message_handled G n w key msg : disk_ok G n -> memory_ok G n -> n_failed n = false -> good key ->
  msg_ok key msg -> (forall through, msg = ReplicaRelease through -> w_delete w = Delete_done) ->
  exists n' replies, replica_message w key msg n = Ok (n', replies) /\ handled G key msg n' replies.
Proof using CL PL capacity_small spool_capacity_small sends_ranked.
  intros D M Hn Hk Hm Hw. destruct msg; simpl in *.
  - now apply put_handled.
  - destruct Hm as [Hm Hs]. apply commit_handled; auto. apply Hs, Hk.
  - now apply status_handled.
  - apply release_handled; eauto.
Qed.

(** ** Messages of the other keys

    Nothing is said about their files, only that the messages do not panic and
    touch no file of a sound key. *)
Lemma disk_elsewhere G n key blobs st failed : disk_ok G n -> key_ok key -> sound key = false ->
  bt_sorted blobs ->
  (forall name, bt_get name blobs <> bt_get name (n_blobs n) -> exists g, fits W64 g /\ name = spool_name key g) ->
  (forall name bs, bt_get name blobs = Some bs -> all_bytes bs /\ len bs <= blob_size name st) ->
  ledger_ok capacity st -> hs_config st = config ->
  disk_ok G {| n_state := st; n_blobs := blobs; n_failed := failed |}.
Proof.
  intros [D1 D2 Db D3 D4 D5 D6] Hk Hu Hs Hch Hall Hst Hc. constructor; simpl; auto; try (intros name bs Hg; apply (Hall name bs Hg)).
  - intros name bs s v e g Hget Hp. destruct (decide (bt_get name blobs = bt_get name (n_blobs n))) as [He|Hne].
    + rewrite He in Hget. now apply (D2 name bs).
    + destruct (Hch name Hne) as (g' & Hg' & ->). rewrite spool_name_parse in Hp by assumption. injection Hp as <- <- <- <-.
      now destruct key.
  - intros key' Hk'. assert (key <> key') as Hne by (intros ->; destruct Hk'; congruence). specialize (D3 key' Hk').
    assert (forall files, holds (n_blobs n) key' files -> holds blobs key' files) as Ho.
    { intros files. apply (holds_other _ _ key); auto. intros name Hn.
      destruct (decide (bt_get name blobs = bt_get name (n_blobs n))) as [|Hd]; [assumption|].
      destruct (Hch name Hd) as (g & Hg & ->). now destruct (Hn g Hg). }
    destruct (G key'); [|auto]. destruct D3. auto.
Qed.
Lemma memory_elsewhere G n key o replicas st blobs failed : memory_ok G n -> key_ok key -> sound key = false ->
  hs_replicas st = replicas -> bt_sorted replicas ->
  (forall key', bt_get key' replicas = if decide (key' = key) then o else bt_get key' (hs_replicas (n_state n))) ->
  (forall r, o = Some r -> counts_ok r) ->
  memory_ok G {| n_state := st; n_blobs := blobs; n_failed := failed |}.
Proof.
  intros [M1 M2 Mc M3] Hk Hu Hr Hs Hget Ho. constructor; simpl; rewrite Hr; [exact Hs| | |]; intros key'; rewrite Hget;
    destruct (decide (key' = key)) as [->|Hne]; auto; [apply M2|apply Mc| |apply M3]. intros [_ Hg]. congruence.
Qed.
Lemma append_elsewhere G n key g b st failed : disk_ok G n -> key_ok key -> sound key = false -> fits W64 g -> all_bytes b ->
  ledger_ok capacity st -> hs_config st = config ->
  (forall name', blob_size name' (n_state n) + (if decide (name' = spool_name key g) then len b else 0) <= blob_size name' st) ->
  disk_ok G {| n_state := st; n_blobs := append_bytes (spool_name key g) b (n_blobs n); n_failed := failed |}.
Proof.
  intros D Hk Hu Hg Hb Hst Hc Hsize. apply (disk_elsewhere G n key); auto.
  - unfold append_bytes, bt_update. pose proof (dk_sorted _ _ D). auto with btree.
  - intros name. rewrite append_bytes_get. destruct (decide (name = spool_name key g)) as [->|]; [eauto|easy].
  - intros name bs. rewrite append_bytes_get. specialize (Hsize name). destruct (decide (name = spool_name key g)) as [->|Hne].
    + intros [= <-]. rewrite len_app. destruct (bt_get (spool_name key g) (n_blobs n)) as [old|] eqn:Ho; simpl.
      * pose proof (dk_covers _ _ D _ _ Ho). split; [|lia]. apply all_bytes_app. split; [exact (dk_bytes _ _ D _ _ Ho)|exact Hb].
      * split; [exact Hb|]. rewrite len_nil. unfold blob_size in *. pose proof (sizes_prior (spool_name key g) _ (ledger_ok_sizes _ _ (dk_ledger _ _ D))). lia.
    + intros Hget. pose proof (dk_covers _ _ D _ _ Hget). split; [exact (dk_bytes _ _ D _ _ Hget)|lia].
Qed.
Definition survives (G : Ghost) (n' : Node) : Prop := disk_ok G n' /\ (n_failed n' = false -> memory_ok G n').
Lemma grown_counts generation rotated b r : counts_ok r -> fits W64 generation -> 0 <= b -> rs_bytes r + b < 2 ^ 63 ->
  exists r', grown generation rotated b r = Ok r' /\ counts_ok r'.
Proof.
  intros [[? ?] Hg] Hf Hb Hbig. unfold grown. rewrite (checked_add_Some _ (rs_bytes r)) by lia. simpl.
  rewrite checked_add_Some by (destruct rotated; lia). simpl. eexists. split; [reflexivity|].
  split; simpl; [destruct rotated; lia|now destruct rotated].
Qed.
Lemma append_frame_other G n w key frame insert : disk_ok G n -> memory_ok G n -> n_failed n = false ->
  key_ok key -> sound key = false -> all_bytes frame -> 0 <= len frame < 2 ^ 33 ->
  (forall r, counts_ok r -> counts_ok (insert r)) ->
  exists n' durable, append_frame w key frame insert n = Ok (n', durable) /\ survives G n'.
Proof using capacity_small spool_capacity_small.
  intros D M Hn Hk Hu Hb Hlen Hi. unfold append_frame.
  destruct (append_plan key (len frame) (n_state n)) as [[generation rotated]|] eqn:Hp; [|do 2 eexists; now split; [reflexivity|split]].
  destruct (append_plan_bounds G n key _ _ _ D M (proj1 Hlen) Hp) as (_ & Hg & _ & Hbig).
  set (name := spool_name key _). destruct (reservation n name _ (dk_ledger _ _ D) Hlen) as (st & granted & -> & Hst & Hrep & Hcfg & Hsizes).
  rewrite (dk_config _ _ D) in Hcfg. simpl. destruct granted; simpl.
  2:{ do 2 eexists. split; [reflexivity|]. split; [|intros _; now apply memory_same].
      apply disk_same; auto. intros name'. unfold blob_size. now rewrite Hsizes. }
  pose proof (reserved_size _ _ _ _ Hsizes) as Hz. unfold Blobs_append. destruct (w_append w) as [| |landed].
  - destruct (grown_counts generation rotated (len frame) (replica_of key n)) as (r' & Hgr & Hc'); auto; [now apply (replica_counts G)|lia|].
    rewrite Hrep. fold (replica_of key n). rewrite Hgr. cbn [outcome_bind]. do 2 eexists. split; [reflexivity|]. split.
    + apply append_elsewhere; auto; [destruct Hst; now constructor|]. intros name'.
      change (blob_size name' (with_replicas _ _)) with (blob_size name' st). rewrite Hz. unfold name. lia.
    + intros _. eapply (memory_elsewhere G n key (Some (insert r'))); eauto; [apply bt_insert_sorted, (mm_sorted _ _ M)| |intros r [= <-]; auto].
      intros key'. destruct (decide (key' = key)) as [->|Hne]; [apply bt_get_insert_eq|now apply bt_get_insert_ne].
  - destruct (rollback_ok G n st name _ D Hst Hcfg (proj1 Hlen) Hrep Hsizes) as (R1 & R2 & R3 & R4).
    do 2 eexists. split; [reflexivity|]. split; [now apply disk_same|intros _; now apply memory_same].
  - do 2 eexists. split; [reflexivity|]. split; [|discriminate]. destruct landed as [k|].
    + apply append_elsewhere; auto; [now apply all_bytes_take|]. intros name'. rewrite Hz. unfold name.
      destruct (decide (name' = spool_name key generation)); [|lia]. unfold len. rewrite length_take. lia.
    + apply (disk_same G n st true); auto. intros name'. rewrite Hz. destruct (decide (name' = name)); lia.
Qed.
Lemma deletes_elsewhere G n key names st failed : disk_ok G n -> key_ok key -> sound key = false ->
  (forall name, In name names -> exists g, fits W64 g /\ name = spool_name key g) ->
  ledger_ok capacity st -> hs_config st = config ->
  (forall name, ~ In name names -> blob_size name (n_state n) <= blob_size name st) ->
  disk_ok G {| n_state := st; n_blobs := fold_left (fun m k => bt_remove k m) names (n_blobs n); n_failed := failed |}.
Proof.
  intros D Hk Hu Hn Hst Hc Hsize. apply (disk_elsewhere G n key); auto.
  - now apply removes_sorted, (dk_sorted _ _ D).
  - intros name. rewrite bt_get_removes. destruct (decide (In name names)); [auto|easy].
  - intros name bs. rewrite bt_get_removes. destruct (decide (In name names)) as [|Hno]; [discriminate|]. intros Hg.
    specialize (Hsize name Hno). pose proof (dk_covers _ _ D _ _ Hg). split; [exact (dk_bytes _ _ D _ _ Hg)|lia].
Qed.
Lemma generation_names_own key generation : fits W64 generation ->
  forall name, In name (generation_names key generation) -> exists g, fits W64 g /\ name = spool_name key g.
Proof.
  intros Hg name (g & <- & Hin%in_seq)%in_map_iff. exists (Z.of_nat g). split; [|reflexivity]. unfold fits in *. lia.
Qed.
Lemma release_other G n w key through : disk_ok G n -> memory_ok G n -> key_ok key -> sound key = false ->
  exists n' replies, release w key through n = Ok (n', replies) /\ survives G n'.
Proof using CL.
  intros D M Hk Hu. unfold release. destruct (authorized_total w key (n_state n) ltac:(apply Hk)) as [b ->]. cbn [outcome_bind].
  assert (survives G n) as Hsame by now split.
  destruct (negb b); [eauto|]. destruct (bt_get key (hs_replicas (n_state n))) as [r|] eqn:Hr; [|eauto].
  destruct (match rs_committed r with Some c => cmp_ltb through c | None => false end); [eauto|].
  destruct (negb _); [eauto|]. pose proof (mm_counts _ _ M key r Hr) as [_ Hg].
  pose proof (generation_names_own key _ Hg) as Hn. unfold Blobs_delete_many_durable. destruct (w_delete w) as [|k].
  - do 2 eexists. split; [reflexivity|]. set (names := generation_names _ _) in *. clearbody names. split.
    + apply (deletes_elsewhere G n key); auto; [| apply (dk_config _ _ D)|].
      * destruct (forget_sizes names _ (ledger_ok_sizes _ _ (dk_ledger _ _ D))) as [F1 F2].
        pose proof (lo_fits _ _ (dk_ledger _ _ D)). destruct (dk_ledger _ _ D).
        constructor; simpl; auto; [apply F1|apply F1|]. simpl in F2. lia.
      * intros name Hno. unfold blob_size. simpl. rewrite bt_get_removes, decide_False by exact Hno. lia.
    + intros _. eapply (memory_elsewhere G n key None); eauto; [apply bt_remove_sorted, (mm_sorted _ _ M)| |discriminate].
      intros key'. simpl. destruct (decide (key' = key)) as [->|Hne]; [apply bt_get_remove_eq|now apply bt_get_remove_ne].
  - do 2 eexists. split; [reflexivity|]. split.
    + apply (deletes_elsewhere G n key); auto; [|apply (dk_ledger _ _ D)|apply (dk_config _ _ D)|lia].
      intros name Hin. apply Hn. rewrite <- (take_drop k). apply in_app_iff. now left.
    + intros _. destruct M. constructor; assumption.
Qed.
Lemma message_other G n w key msg : disk_ok G n -> memory_ok G n -> n_failed n = false -> key_ok key -> sound key = false ->
  msg_ok key msg -> exists n' replies, replica_message w key msg n = Ok (n', replies) /\ survives G n'.
Proof using CL PL capacity_small spool_capacity_small.
  intros D M Hn Hk Hu Hm. assert (survives G n) as Hsame by now split.
  destruct (authorized_total w key (n_state n) ltac:(apply Hk)) as [b Hb].
  assert (forall x insert (reply : ReplicaReply), SpoolFrame_ok x -> (forall r, counts_ok r -> counts_ok (insert r)) ->
    exists n' replies, (let? (n, durable) := append_frame w key (SpoolFrame_bytes x) insert n in
      Ok (n, if durable : bool then [reply] else [])) = Ok (n', replies) /\ survives G n') as Happ.
  { intros x insert reply Hx Hi. destruct (append_frame_other G n w key (SpoolFrame_bytes x) insert D M Hn Hk Hu
      (SpoolFrame_all_bytes x Hx) (SpoolFrame_short x Hx) Hi) as (n' & durable & -> & Hs). do 2 eexists. now split; [reflexivity|]. }
  destruct msg as [a checksum bs|info required record| |through]; simpl in *; unfold put, commit, status; rewrite ?Hb; simpl.
  - destruct (negb b || negb (crc32c bs =? checksum)) eqn:Hrej; [eauto|].
    apply orb_false_iff in Hrej as [_ Hc%negb_false_iff%Z.eqb_eq].
    destruct (seal_artifact_cases key a checksum bs Hk Hm Hc) as [[e ->]|[Hx ->]]; simpl; [eauto|].
    specialize (Happ _ (insert_artifact a checksum bs) (ReplicaPutAck key a checksum) Hx ltac:(auto)).
    destruct (bt_get key (hs_replicas (n_state n))) as [r|] eqn:Hr; [|exact Happ].
    destruct (bt_get a (rs_artifacts r)) as [[known bs']|]; [|exact Happ]. destruct (known =? checksum); [|eauto].
    do 2 eexists. split; [reflexivity|]. split.
    + apply disk_same; auto; [|apply (dk_config _ _ D)|reflexivity]. destruct (dk_ledger _ _ D). now constructor.
    + intros _. eapply (memory_elsewhere G n key (Some (mark_uncommitted a r))); eauto; [apply bt_insert_sorted, (mm_sorted _ _ M)| |].
      * intros key'. simpl. destruct (decide (key' = key)) as [->|Hne]; [apply bt_get_insert_eq|now apply bt_get_insert_ne].
      * intros r' [= <-]. exact (mm_counts _ _ M key r Hr).
  - destruct (negb b); [eauto|]. destruct (seal_commit_cases key info required record Hk (proj1 Hm)) as [[e ->]|[Hx ->]]; simpl; [eauto|].
    destruct (negb _); [eauto|]. destruct (bool_decide _); [eauto|].
    destruct (match bt_get key (hs_replicas (n_state n)) ≫= rs_committed with Some _ => _ | None => _ end); [eauto|].
    exact (Happ _ (insert_commit info required record) (ReplicaCommitAck key info) Hx ltac:(auto)).
  - destruct (negb b); eauto.
  - now apply release_other.
Qed.
End Host.
