(* ===== verification/InboxRestart.v ===== *)
(** * A restart rebuilds the inbox from its files

    The files of every key are found again by their names, joined in order and
    scanned; the memory that results agrees with the logs, and at most a torn
    frame is cut off. *)

From Stdlib Require Sorted.
From S2P Require Import Prelude Format Types OrdMap Text Head Layout HostState HostSafety.
From S2P Require Import Blx BlxFile BlxScan Manifest PageFile Journal JournalFormat ReplicaSpool SpoolSafety.
From S2P Require Import ReplicaInbox InboxSafety InboxDurable.

#[local] Open Scope Z_scope.

(** ** Grouping files by key

    [ident] reads from a name the group a file belongs to and its generation. *)
Abbreviation Group := (BTreeMap Z (string * bytes)).
Section Grouping.
Context {K : Type} `{OL : RustOrdLaws K} `{KD : EqDecision K} (ident : string -> option (K * Z)).
Definition group_file (groups : BTreeMap K Group) (e : string * bytes) : BTreeMap K Group :=
  match ident e.1 with
  | Some (key, g) => bt_update key [] (bt_insert g (e.1, e.2)) groups
  | None => groups
  end.
Definition group_files (l : list (string * bytes)) : BTreeMap K Group := fold_left group_file l [].
Record groups_ok (l : list (string * bytes)) (groups : BTreeMap K Group) : Prop := {
  go_sorted : bt_sorted groups;
  go_inner key m : bt_get key groups = Some m -> bt_sorted m /\ m <> [];
  go_files key g name bs : default [] (bt_get key groups) <> [] /\ bt_get g (default [] (bt_get key groups)) = Some (name, bs)
    <-> In (name, bs) l /\ ident name = Some (key, g) }.
(** Two files of one group and generation would be one file. *)
Definition distinct_files (l : list (string * bytes)) : Prop :=
  forall e e' p, In e l -> In e' l -> ident e.1 = Some p -> ident e'.1 = Some p -> e = e'.
Lemma files_grouped l : distinct_files l -> groups_ok l (group_files l).
Proof.
  induction l as [|[name bs] l IH] using rev_ind; intros Hd.
  { constructor; simpl; [constructor|discriminate|]. intros; simpl. intuition easy. }
  unfold group_files. rewrite fold_left_app. simpl. fold (group_files l). destruct IH as [I1 I2 I3].
  { intros e e' p He He'. apply Hd; apply in_app_iff; auto. }
  set (groups := group_files l) in *. unfold group_file. simpl.
  destruct (ident name) as [[key g]|] eqn:Hs.
  2:{ constructor; auto. intros key g name' bs'. rewrite I3, in_app_iff. simpl. split; [tauto|].
      intros [[H|[[= <- <-]|[]]] H']; [auto|congruence]. }
  unfold bt_update. set (m := default [] (bt_get key groups)) in *.
  assert (bt_sorted m) as Hm.
  { unfold m. destruct (bt_get key groups) as [m'|] eqn:Hg; [apply (I2 _ _ Hg)|constructor]. }
  assert (bt_insert g (name, bs) m <> []) as Hne by (destruct m as [|[k v] m']; simpl; [discriminate|destruct (cmp g k); discriminate]).
  constructor; [auto with btree| |].
  - intros key' m'. destruct (decide (key' = key)) as [->|Hk].
    + rewrite bt_get_insert_eq. intros [= <-]. split; [auto with btree|exact Hne].
    + rewrite bt_get_insert_ne by exact Hk. apply I2.
  - intros key' g' name' bs'. rewrite in_app_iff. destruct (decide (key' = key)) as [->|Hk].
    + rewrite bt_get_insert_eq. simpl. destruct (decide (g' = g)) as [->|Hg].
      * rewrite bt_get_insert_eq. split.
        -- intros [_ [= <- <-]]. auto.
        -- intros [Hin Hs']. split; [exact Hne|]. destruct Hin as [Hin|[Hin|[]]]; [|now injection Hin as <- <-].
           specialize (Hd (name', bs') (name, bs) (key, g)). rewrite !in_app_iff in Hd. simpl in Hd.
           rewrite <- Hd; auto.
      * rewrite bt_get_insert_ne by exact Hg. specialize (I3 key g' name' bs'). fold m in I3. split.
        -- intros [_ H]. destruct I3 as [I3 _]. destruct I3 as [A B]; [split; [|exact H]|auto].
           intros E. rewrite E in H. discriminate.
        -- intros [[Hin|[[= <- <-]|[]]] Hs']; [|congruence]. split; [exact Hne|]. now apply I3.
    + rewrite bt_get_insert_ne by exact Hk. rewrite I3. simpl. split; [tauto|].
      intros [[H|[[= <- <-]|[]]] H']; [auto|congruence].
Qed.
End Grouping.
Definition file_identity (name : string) : option (ReplicaKey * Z) :=
  match parse_blob name with
  | Some (Blob_ReplicaSpool s v e g) =>
      Some ({| rk_source := s; rk_volume := v; rk_assignment_epoch := e |}, g)
  | _ => None
  end.
Lemma replica_blobs_groups blobs : replica_blobs blobs = group_files file_identity blobs.
Proof.
  unfold replica_blobs, group_files. generalize (@nil (ReplicaKey * Group)).
  induction blobs as [|[name bs] blobs IH]; intros groups; simpl; [reflexivity|]. rewrite IH. f_equal.
  unfold group_file, file_identity. simpl. now destruct (parse_blob name) as [[]|].
Qed.
Fixpoint gen_from (key : ReplicaKey) (i : nat) (files : list bytes) : BTreeMap Z (string * bytes) :=
  match files with
  | [] => []
  | bs :: files => (Z.of_nat i, (spool_name key (Z.of_nat i), bs)) :: gen_from key (S i) files
  end.
Lemma gen_from_get key files g : forall i,
  bt_get g (gen_from key i files)
  = if Z.of_nat i <=? g then (fun bs => (spool_name key g, bs)) <$> files !! (Z.to_nat g - i)%nat else None.
Proof.
  induction files as [|bs files IH]; intros i; simpl; [now destruct (_ <=? _)|].
  unfold cmp, Z_ord. rewrite IH. destruct (Z.compare_spec g (Z.of_nat i)) as [->|H|H].
  - rewrite Z.leb_refl. now rewrite Nat2Z.id, Nat.sub_diag.
  - destruct (Z.leb_spec (Z.of_nat i) g); [lia|]. now destruct (Z.leb_spec (Z.of_nat (S i)) g); [lia|].
  - destruct (Z.leb_spec (Z.of_nat i) g); [|lia]. destruct (Z.leb_spec (Z.of_nat (S i)) g); [|lia].
    replace (Z.to_nat g - i)%nat with (S (Z.to_nat g - S i)) by lia. reflexivity.
Qed.
Lemma gen_from_sorted key files : forall i, bt_sorted (gen_from key i files).
Proof.
  assert (forall files i e, In e (gen_from key i files) -> Z.of_nat i <= e.1) as Hge.
  { clear files. induction files as [|bs files IH]; intros i e; simpl; [easy|]. intros [<-|H]; simpl; [lia|].
    specialize (IH (S i) e H). lia. }
  induction files as [|bs files IH]; intros i; simpl; [constructor|]. apply bt_sorted_cons. split; [apply IH|].
  rewrite List.Forall_forall. intros e He%Hge. unfold bt_lt, cmp, Z_ord. simpl. apply Z.compare_lt_iff. lia.
Qed.

(** The group whose files are named and numbered like those of [key]. *)
Lemma group_of_files {K} `{OL : RustOrdLaws K} `{KD : EqDecision K} (ident : string -> option (K * Z)) l k key files :
  distinct_files ident l -> Z.of_nat (length files) < W64 ->
  (forall g name bs, In (name, bs) l /\ ident name = Some (k, g)
     <-> fits W64 g /\ name = spool_name key g /\ files !! Z.to_nat g = Some bs) ->
  bt_get k (group_files ident l) = match files with [] => None | _ => Some (gen_from key 0 files) end.
Proof.
  intros Hd Hfew Hin. destruct (files_grouped ident l Hd) as [_ G2 G3]. set (groups := group_files ident l) in *.
  destruct (bt_get k groups) as [m|] eqn:Hm.
  - assert (m = gen_from key 0 files) as ->.
    { apply bt_ext; [apply (G2 _ _ Hm)|apply gen_from_sorted|]. intros g. rewrite gen_from_get, Nat.sub_0_r.
      destruct (bt_get g m) as [[name bs]|] eqn:Hg.
      - assert (In (name, bs) l /\ ident name = Some (k, g)) as Hf.
        { apply G3. rewrite Hm. simpl. split; [apply (G2 _ _ Hm)|exact Hg]. }
        apply Hin in Hf as (Hfit & -> & Hget). destruct (Z.leb_spec (Z.of_nat 0) g); [|unfold fits in *; lia]. now rewrite Hget.
      - destruct (Z.leb_spec (Z.of_nat 0) g); [|reflexivity]. destruct (files !! Z.to_nat g) as [bs|] eqn:Hbs; [|reflexivity].
        assert (fits W64 g) as Hfit by (apply lookup_lt_Some in Hbs; unfold fits; lia).
        destruct (proj2 (Hin g (spool_name key g) bs)) as [H1 H2]; [auto|].
        assert (bt_get g (default [] (bt_get k groups)) = Some (spool_name key g, bs)) as Hc by (apply (G3 k g); auto).
        rewrite Hm in Hc. simpl in Hc. congruence. }
    destruct files; [|reflexivity]. now destruct (G2 _ _ Hm).
  - destruct files as [|bs files]; [reflexivity|]. exfalso.
    destruct (proj2 (Hin 0 (spool_name key 0) bs)) as [H1 H2]; [unfold fits; simpl; split; [lia|auto]|].
    destruct (proj2 (G3 k 0 (spool_name key 0) bs)) as [Hne _]; [auto|]. now rewrite Hm in Hne.
Qed.

Section Restart.
Context `{C : Crc} `{CL : !CrcLaws C} `{L : Lz4} `{P : PageSize} `{PL : !PageSizeLaws P}.
Variable sends : ReplicaKey -> ReplicaCommitInfo -> Prop.
Variable sound : ReplicaKey -> bool.
Variable config : HostConfig.
Variable capacity : Z.

Abbreviation disk_ok := (disk_ok sends sound config capacity).
Abbreviation memory_ok := (memory_ok sound).
Abbreviation good := (good sound).
Lemma key_of_good key : good key -> key_ok key.
Proof. apply good_ok. Qed.
#[local] Hint Resolve key_of_good : core.
Lemma disk_files_distinct G n : disk_ok G n -> distinct_files file_identity (n_blobs n).
Proof.
  intros D [name bs] [name' bs'] [key g] H H' Hs Hs'. simpl in *.
  apply In_bt_get in H; [|apply (dk_sorted _ _ _ _ _ _ D)]. apply In_bt_get in H'; [|apply (dk_sorted _ _ _ _ _ _ D)].
  unfold file_identity in *. destruct (parse_blob name) as [[]|] eqn:Hp; try discriminate. injection Hs as <- <-.
  destruct (parse_blob name') as [[]|] eqn:Hp'; try discriminate. injection Hs' as <- <- <- <-.
  destruct (dk_names _ _ _ _ _ _ D _ _ _ _ _ _ H Hp) as [-> _]. destruct (dk_names _ _ _ _ _ _ D _ _ _ _ _ _ H' Hp') as [-> _].
  congruence.
Qed.
Lemma log_files_last lg : log_files lg = map spool_bytes (lg_full lg) ++ [spool_bytes (lg_cur lg) ++ lg_torn lg].
Proof. reflexivity. Qed.
Lemma log_files_few key lg rp : log_ok sends key lg rp -> Z.of_nat (length (log_files lg)) < W64.
Proof.
  intros H. pose proof (full_count _ _ _ _ H). pose proof (lk_size _ _ _ _ H).
  unfold log_files. rewrite length_app, length_map. simpl. lia.
Qed.
(** What the files of a key are, whatever else is on the device. *)
Lemma file_identity_disk G n key g name bs : disk_ok G n -> key_ok key ->
  In (name, bs) (n_blobs n) /\ file_identity name = Some (key, g)
  <-> fits W64 g /\ name = spool_name key g /\ bt_get (spool_name key g) (n_blobs n) = Some bs.
Proof.
  intros D Hk. split.
  - intros [Hin Hs]. apply In_bt_get in Hin; [|apply (dk_sorted _ _ _ _ _ _ D)]. unfold file_identity in Hs.
    destruct (parse_blob name) as [[]|] eqn:Hp; try discriminate. injection Hs as <- <-.
    destruct (dk_names _ _ _ _ _ _ D _ _ _ _ _ _ Hin Hp) as (-> & _ & Hg). auto.
  - intros (Hg & -> & Hget). split; [now apply bt_get_In|]. unfold file_identity. rewrite spool_name_parse by assumption.
    now destruct key.
Qed.
Lemma group_of_key G n key : disk_ok G n -> good key ->
  bt_get key (replica_blobs (n_blobs n)) = (fun lg => gen_from key 0 (log_files lg)) <$> G key.
Proof.
  intros D Hk. rewrite replica_blobs_groups. pose proof (dk_logs _ _ _ _ _ _ D key Hk) as Hd.
  set (files := from_option log_files [] (G key)).
  assert (holds (n_blobs n) key files /\ Z.of_nat (length files) < W64) as [Hh Hfew].
  { unfold files. destruct (G key) as [lg|]; simpl; [|split; [exact Hd|lia]]. destruct Hd as [Hh [rp Hl]].
    split; [exact Hh|]. now apply (log_files_few _ _ _ Hl). }
  rewrite (group_of_files file_identity _ key key files (disk_files_distinct G n D) Hfew).
  - unfold files. destruct (G key) as [lg|]; simpl; [|reflexivity]. rewrite log_files_last. now destruct (lg_full lg).
  - intros g name bs. rewrite (file_identity_disk G n key g name bs D (good_ok _ _ Hk)). split; intros (Hg & -> & H); [rewrite Hh in H by exact Hg|rewrite <- Hh in H by exact Hg]; auto.
Qed.
Lemma group_keys_ok G n key m : disk_ok G n -> bt_get key (replica_blobs (n_blobs n)) = Some m -> key_ok key.
Proof.
  intros D H. rewrite replica_blobs_groups in H. destruct (files_grouped _ _ (disk_files_distinct G n D)) as [_ G2 G3].
  destruct (G2 _ _ H) as [_ Hne]. destruct m as [|[g [name bs]] m]; [easy|].
  specialize (G3 key g name bs). rewrite H in G3. simpl in G3. rewrite cmp_refl in G3.
  destruct (proj1 G3) as [Hin Hs]; [split; [discriminate|reflexivity]|].
  apply In_bt_get in Hin; [|apply (dk_sorted _ _ _ _ _ _ D)]. unfold file_identity in Hs.
  destruct (parse_blob name) as [[]|] eqn:Hp; try discriminate. injection Hs as <- <-.
  now destruct (dk_names _ _ _ _ _ _ D _ _ _ _ _ _ Hin Hp) as (_ & Hk & _).
Qed.

(** ** The scan of one spool *)
Lemma scan_log key lg rp : log_ok sends key lg rp ->
  scan_replica_spool (spool_bytes (log_frames lg) ++ lg_torn lg)
  = Ok (scan_done (len (spool_bytes (log_frames lg))) (negb (bool_decide (lg_torn lg = []))) rp).
Proof using CL.
  intros [[H1 H2 _ _ _] _ _ Ht]. unfold scan_replica_spool.
  destruct (scan_frames (log_frames lg) (lg_torn lg) _ 0 replay_start rp H1 H2 (le_n _)) as (fuel & Hf & ->).
  rewrite Z.add_0_l. destruct Ht as [Ht|(x & k & Hx & Hk & Ht)]; rewrite Ht in *.
  - rewrite bool_decide_true by reflexivity. now destruct fuel.
  - rewrite length_take, Nat.min_l in Hf by lia. rewrite (scan_torn x k) by (auto || lia). do 2 f_equal.
    destruct k as [|k]; [reflexivity|]. rewrite bool_decide_false; [reflexivity|].
    intros He. apply (f_equal length) in He. rewrite length_take, Nat.min_l in He by lia. discriminate.
Qed.
Lemma owns_identity key s v e : Some (s, v, e) = Some (key_identity key) -> owns key s v e = true.
Proof. intros [= -> -> ->]. unfold owns. now rewrite bool_decide_true. Qed.
Lemma log_identity key lg rp i : log_ok sends key lg rp -> rp_identity rp = Some i -> i = key_identity key.
Proof. intros H Hi. destruct (fo_identity _ _ _ _ (lk_frames _ _ _ _ H)); congruence. Qed.
Lemma recovered_knows key lg rp valid truncated generation file_bytes : log_ok sends key lg rp ->
  knows rp (recovered_replica key (scan_done valid truncated rp) generation file_bytes).
Proof.
  intros H. pose proof (frames_replay_ok _ _ _ _ (lk_frames _ _ _ _ H)) as R. unfold recovered_replica. simpl.
  assert (forall c, In c (rp_commits rp) -> owns key (cf_source c) (cf_volume c) (cf_assignment_epoch c) = true) as Hc.
  { intros c Hc. destruct (rpo_commits _ R c Hc) as (_ & Hi & _). apply owns_identity. now rewrite (log_identity _ _ _ _ H Hi). }
  assert ((match list.last (rp_commits rp) with
    | Some c => if owns key (cf_source c) (cf_volume c) (cf_assignment_epoch c) then Some c else None
    | None => None end) = list.last (rp_commits rp)) as Hlast.
  { destruct (list.last (rp_commits rp)) as [c|] eqn:Hl; [|reflexivity]. rewrite Hc; [reflexivity|].
    apply last_Some in Hl as [l ->]. apply in_app_iff. right. now left. }
  rewrite Hlast. constructor; simpl; auto.
  assert (bt_sorted (remembered (rp_artifacts rp))) as Hs.
  { pose proof (rpo_sorted _ R) as Hs. clear - Hs. induction Hs as [|[a f] m Hs IH Hm]; simpl; constructor; auto.
    unfold remembered. apply List.Forall_map. eapply List.Forall_impl, Hm. intros [b g]. unfold bt_lt. simpl. auto. }
  rewrite <- (bt_collect_id _ Hs). f_equal.
  assert (forall a f, In (a, f) (rp_artifacts rp) -> owns key (af_source f) (af_volume f) (af_assignment_epoch f) = true) as Ho.
  { intros a f Hin. apply In_bt_get in Hin; [|apply (rpo_sorted _ R)]. destruct (rpo_keyed _ R a f Hin) as (_ & _ & Hi).
    apply owns_identity. now rewrite (log_identity _ _ _ _ H Hi). }
  clear - Ho. induction (rp_artifacts rp) as [|[a f] m IH]; simpl; [reflexivity|].
  rewrite (Ho a f) by now left. f_equal. apply IH. intros b g Hin. apply (Ho b). now right.
Qed.
(** ** Where a torn frame is cut off *)
Lemma gen_from_bytes key files : forall i, concat (map (fun e => e.2.2) (gen_from key i files)) = concat files.
Proof. induction files as [|bs files IH]; intros i; simpl; [reflexivity|]. now rewrite IH. Qed.
Lemma gen_from_last key files f : forall i,
  list.last (gen_from key i (files ++ [f]))
  = Some (Z.of_nat (i + length files), (spool_name key (Z.of_nat (i + length files)), f)).
Proof.
  induction files as [|bs files IH]; intros i; simpl; [now rewrite Nat.add_0_r|].
  specialize (IH (S i)). rewrite Nat.add_succ_r. replace (S (i + length files)) with (S i + length files)%nat by lia.
  destruct (gen_from key (S i) (files ++ [f])) eqn:E; [discriminate|exact IH].
Qed.
Lemma find_torn key files f valid : forall i start,
  0 <= start -> start + len (concat files) <= valid < start + len (concat files) + len f -> valid < 2 ^ 63 ->
  List.find (fun '(_, s, length, _) => valid <? saturating_add W64 s length) (boundaries start (gen_from key i (files ++ [f])))
  = Some (Z.of_nat (i + length files), start + len (concat files), len f, spool_name key (Z.of_nat (i + length files))).
Proof.
  induction files as [|bs files IH]; intros i start Hs Hv Hb; simpl in *.
  - rewrite len_nil in *. destruct (Z.ltb_spec valid (saturating_add W64 start (len f))) as [|H]; [|unfold saturating_add in H; lia].
    now rewrite Nat.add_0_r, Z.add_0_r.
  - rewrite len_app in Hv. pose proof (len_nonneg bs). pose proof (len_nonneg (concat files)).
    destruct (Z.ltb_spec valid (saturating_add W64 start (len bs))) as [H'|_]; [unfold saturating_add in H'; lia|].
    rewrite IH by lia. rewrite len_app, Nat.add_succ_r, Z.add_assoc. reflexivity.
Qed.

Lemma log_cut_ok key lg rp : log_ok sends key lg rp -> log_ok sends key (tear [] lg) rp.
Proof. intros [H1 H2 H3 _]. constructor; auto. Qed.
Lemma log_joined lg : concat (log_files lg) = spool_bytes (log_frames lg) ++ lg_torn lg.
Proof.
  rewrite log_files_last, concat_app. simpl. rewrite app_nil_r. unfold log_frames. rewrite spool_bytes_app, <- app_assoc. f_equal.
  induction (lg_full lg) as [|fs l IH]; [reflexivity|]. simpl. now rewrite spool_bytes_app, IH.
Qed.
Lemma full_bytes lg : len (spool_bytes (log_frames lg)) = len (concat (map spool_bytes (lg_full lg))) + len (spool_bytes (lg_cur lg)).
Proof.
  pose proof (log_joined (tear [] lg)) as H. rewrite log_files_last, concat_app in H. simpl in H. rewrite !app_nil_r in H.
  change (log_frames (tear [] lg)) with (log_frames lg) in H. now rewrite <- H, len_app.
Qed.
(** The last file is cut back to its whole frames. *)
Lemma disk_truncate G n key lg st failed : disk_ok G n -> good key -> G key = Some lg ->
  let name := spool_name key (Z.of_nat (length (lg_full lg))) in
  let valid := len (spool_bytes (lg_cur lg)) in
  hs_blob_sizes st = hs_blob_sizes (truncate_blob name valid (n_state n)) -> hs_config st = hs_config (n_state n) ->
  disk_ok (ghost_set key (Some (tear [] lg)) G)
    {| n_state := st; n_blobs := set_len name valid (n_blobs n); n_failed := failed |}.
Proof.
  intros [D1 D2 Db D3 D4 D5 D6] Hk HG name valid Hs Hc. pose proof (D3 key Hk) as Hlog. rewrite HG in Hlog. destruct Hlog as [Hh [rp Hl]].
  pose proof (log_files_few _ _ _ Hl) as Hfew. rewrite log_files_last, length_app, length_map in Hfew. simpl in Hfew.
  assert (fits W64 (Z.of_nat (length (lg_full lg)))) as Hg by (unfold fits; lia).
  assert (log_files lg !! length (lg_full lg) = Some (spool_bytes (lg_cur lg) ++ lg_torn lg)) as Hlast.
  { rewrite log_files_last, lookup_app_r by (rewrite length_map; lia). now rewrite length_map, Nat.sub_diag. }
  assert (bt_get name (n_blobs n) = Some (spool_bytes (lg_cur lg) ++ lg_torn lg)) as Hn by (unfold name; rewrite Hh, Nat2Z.id by exact Hg; exact Hlast).
  pose proof (D5 _ _ Hn) as Hcov. rewrite len_app in Hcov. pose proof (len_nonneg (lg_torn lg)). pose proof (len_nonneg (spool_bytes (lg_cur lg))).
  unfold set_len. rewrite Hn. unfold valid. rewrite len_to_nat, take_app_length.
  destruct (truncate_exact capacity (n_state n) name valid D4) as (st' & ok & H1 & H2 & _ & _); [unfold blob_size in Hcov; unfold valid; lia|].
  simpl in H1. injection H1 as <- <-.
  assert (forall name', blob_size name' st = if decide (name' = name) then (if bt_contains name (hs_blob_sizes (n_state n)) then valid else 0) else blob_size name' (n_state n)) as Hsize.
  { intros name'. unfold blob_size. rewrite Hs. unfold truncate_blob, bt_contains. destruct (decide (name' = name)) as [->|Hne].
    - destruct (bt_get name (hs_blob_sizes (n_state n))) eqn:E; simpl; [now rewrite bt_get_insert_eq|now rewrite E].
    - destruct (bt_get name (hs_blob_sizes (n_state n))); simpl; [now rewrite bt_get_insert_ne|reflexivity]. }
  constructor; simpl; auto with btree.
  - intros name' bs s v e g. destruct (decide (name' = name)) as [->|Hne]; [intros _; apply (D2 _ _ _ _ _ _ Hn)|].
    rewrite bt_get_insert_ne by exact Hne. apply D2.
  - intros name' bs. destruct (decide (name' = name)) as [->|Hne]; [|rewrite bt_get_insert_ne by exact Hne; apply Db].
    rewrite bt_get_insert_eq. intros [= <-]. now apply (all_bytes_app _ (lg_torn lg)), (Db name).
  - intros key' Hk'. destruct (decide (key' = key)) as [->|Hne].
    + rewrite ghost_set_eq. split; [|exists rp; now apply log_cut_ok]. intros g Hg'. rewrite log_files_last. simpl.
      destruct (decide (g = Z.of_nat (length (lg_full lg)))) as [->|Hgne].
      * unfold name. rewrite bt_get_insert_eq, Nat2Z.id, lookup_app_r by (rewrite length_map; lia).
        now rewrite length_map, Nat.sub_diag, app_nil_r.
      * rewrite bt_get_insert_ne by (intros He; apply spool_name_inj in He as [_ He]; auto). rewrite Hh by exact Hg'.
        rewrite log_files_last. destruct (decide (Z.to_nat g < length (lg_full lg))%nat).
        -- rewrite !lookup_app_l by (rewrite length_map; lia). reflexivity.
        -- rewrite !lookup_ge_None_2; [reflexivity|rewrite length_app, length_map; simpl; unfold fits in *; lia..].
    + rewrite ghost_set_ne by exact Hne. specialize (D3 key' Hk').
      assert (forall files, holds (n_blobs n) key' files -> holds (bt_insert name (spool_bytes (lg_cur lg)) (n_blobs n)) key' files) as Ho.
      { intros files. apply (holds_other _ _ key); auto. intros name' Hn'. apply bt_get_insert_ne. now apply Hn'. }
      destruct (G key'); [|auto]. destruct D3. auto.
  - assert (hs_config (truncate_blob name valid (n_state n)) = hs_config st) as Hcfg
      by (rewrite Hc; unfold truncate_blob; now destruct (bt_contains _ _)).
    destruct H2 as [L1 L2 L3 L4 L5]. rewrite Hcfg in L1, L2. rewrite <- Hs in L3, L4, L5. now constructor.
  - intros name' bs. rewrite Hsize. destruct (decide (name' = name)) as [->|Hne].
    + rewrite bt_get_insert_eq. intros [= <-]. unfold blob_size, bt_contains in *. destruct (bt_get name (hs_blob_sizes (n_state n))); simpl in *; unfold valid; lia.
    + rewrite bt_get_insert_ne by exact Hne. apply D5.
  - congruence.
Qed.

Lemma recover_one Gd Gm n key lg : disk_ok Gd n -> memory_ok Gm n -> good key -> Gd key = Some lg ->
  exists n', recover_replica_blobs false key (gen_from key 0 (log_files lg)) n = Ok n'
    /\ n_failed n' = n_failed n /\ hs_config (n_state n') = hs_config (n_state n)
    /\ disk_ok (ghost_set key (Some (tear [] lg)) Gd) n' /\ memory_ok (ghost_set key (Some (tear [] lg)) Gm) n'.
Proof using CL.
  intros D M Hk HG. pose proof (dk_logs _ _ _ _ _ _ D key Hk) as Hlog. rewrite HG in Hlog. destruct Hlog as [Hh [rp Hl]].
  pose proof (fo_replay _ _ _ _ (lk_frames _ _ _ _ Hl)) as Hrp. pose proof (lk_size _ _ _ _ Hl) as Hsz. pose proof (full_bytes lg) as Hfull.
  unfold recover_replica_blobs. rewrite gen_from_bytes, log_joined, (scan_log _ _ _ Hl).
  rewrite log_files_last, gen_from_last, length_map, Nat.add_0_l. cbn [result_ok outcome_bind scan_done ss_truncated_tail].
  assert (forall generation file_bytes, generation = Z.of_nat (length (lg_full lg)) -> file_bytes = len (spool_bytes (lg_cur lg)) ->
    forall t, sized (tear [] lg) (recovered_replica key (scan_done (len (spool_bytes (log_frames lg))) t rp) generation file_bytes)) as Hsized
    by (intros; now constructor).
  pose proof (fun r => sized_counts sends key (tear [] lg) rp r (log_cut_ok _ _ _ Hl)) as Hcounts.
  case_bool_decide as Ht; cbn [negb].
  - eexists. split; [reflexivity|]. split; [reflexivity|]. split; [reflexivity|].
    assert (tear [] lg = lg) as Hcut by (destruct lg; simpl in *; now subst). split.
    + pose proof (disk_same sends sound config capacity Gd n (insert_replica key (recovered_replica key (scan_done (len (spool_bytes (log_frames lg))) false rp)
        (Z.of_nat (length (lg_full lg))) (len (spool_bytes (lg_cur lg) ++ lg_torn lg))) (n_state n)) (n_failed n) D) as D'.
      rewrite Hcut. constructor; try apply D'; try (destruct (dk_ledger _ _ _ _ _ _ D); now constructor); try apply (dk_config _ _ _ _ _ _ D); try reflexivity.
      intros key' Hk'. unfold ghost_set. destruct (decide (key' = key)) as [->|]; [eauto|]. now apply (dk_logs _ _ _ _ _ _ D).
    + assert (len (spool_bytes (lg_cur lg) ++ lg_torn lg) = len (spool_bytes (lg_cur lg))) as -> by now rewrite Ht, app_nil_r.
      eapply (memory_set sound Gm n key _ rp); eauto using recovered_knows.
  - cbn [ss_valid_len scan_done]. rewrite (find_torn key (map spool_bytes (lg_full lg)) _ _ 0 0); [|lia| |exact Hsz].
    2:{ rewrite len_app. pose proof (len_nonneg (spool_bytes (lg_cur lg))).
        assert (0 < len (lg_torn lg)); [|lia]. destruct (lg_torn lg); [easy|]. rewrite len_cons. pose proof (len_nonneg l). lia. }
    rewrite length_map, Nat.add_0_l, Z.add_0_l, Z.eqb_refl. cbn [negb].
    assert (saturating_sub (len (spool_bytes (log_frames lg))) (len (concat (map spool_bytes (lg_full lg)))) = len (spool_bytes (lg_cur lg))) as ->.
    { pose proof (len_nonneg (spool_bytes (lg_cur lg))). unfold saturating_sub. lia. }
    assert (forall name v st, hs_config (truncate_blob name v st) = hs_config st /\ hs_replicas (truncate_blob name v st) = hs_replicas st) as Htr
      by (intros; unfold truncate_blob; now destruct (bt_contains _ _)).
    eexists. split; [reflexivity|]. split; [reflexivity|]. split; [apply Htr|]. split.
    + apply (disk_truncate Gd n key lg); auto. simpl. apply Htr.
    + eapply (memory_set sound Gm n key _ rp); eauto using recovered_knows. simpl. now rewrite (proj2 (Htr _ _ _)).
Qed.

(** ** Every key *)
Definition own_files (n : Node) (key : ReplicaKey) (m : Group) : Prop := forall g name bs, In (g, (name, bs)) m ->
  fits W64 g /\ name = spool_name key g /\ bt_get name (n_blobs n) = Some bs.
Lemma boundaries_In g start l name m : forall s, In (g, start, l, name) (boundaries s m) ->
  exists bs, In (g, (name, bs)) m /\ l = len bs /\ s <= start.
Proof.
  induction m as [|[g' [name' bs']] m IH]; intros s; simpl; [easy|]. intros [[= <- <- <- <-]|Hin].
  - exists bs'. split; [now left|]. split; [reflexivity|lia].
  - destruct (IH _ Hin) as (bs & Hb & Hl & Hs). exists bs. pose proof (len_nonneg bs'). split; [now right|]. split; [exact Hl|lia].
Qed.
(** A recovery changes files of its own key only. *)
Lemma recover_blobs_own key m n n' : own_files n key m -> recover_replica_blobs false key m n = Ok n' ->
  forall name, bt_get name (n_blobs n') <> bt_get name (n_blobs n) -> exists g, fits W64 g /\ name = spool_name key g.
Proof.
  intros Hm H name Hne. unfold recover_replica_blobs in H. destruct (list.last m) as [[g [nm bs]]|]; [|injection H as <-; easy].
  apply outcome_bind_Ok in H as ([scan|] & _ & H); [|injection H as <-; easy].
  destruct (ss_truncated_tail scan); [|injection H as <-; easy].
  destruct (List.find _ _) as [[[[g' start] l] name']|] eqn:Hf; [|injection H as <-; easy].
  destruct (negb _); injection H as <-; [easy|]. apply find_some in Hf as [Hin _].
  destruct (boundaries_In _ _ _ _ _ _ Hin) as (bs' & Hin' & _). destruct (Hm _ _ _ Hin') as (Hg & -> & Hget).
  simpl in Hne. unfold set_len in Hne. rewrite Hget in Hne. destruct (decide (name = spool_name key g')) as [->|Hd]; [eauto|].
  now rewrite bt_get_insert_ne in Hne.
Qed.
Lemma truncate_elsewhere G n key g bs valid : disk_ok G n -> key_ok key -> sound key = false -> fits W64 g ->
  bt_get (spool_name key g) (n_blobs n) = Some bs -> 0 <= valid <= len bs ->
  forall r failed, disk_ok G
    {| n_state := insert_replica key r (truncate_blob (spool_name key g) valid (n_state n));
       n_blobs := set_len (spool_name key g) valid (n_blobs n); n_failed := failed |}.
Proof.
  intros D Hk Hu Hg Hget Hv r failed. pose proof (dk_covers _ _ _ _ _ _ D _ _ Hget) as Hcov. unfold set_len. rewrite Hget.
  set (name := spool_name key g) in *. unfold blob_size in Hcov.
  destruct (truncate_exact capacity (n_state n) name valid (dk_ledger _ _ _ _ _ _ D)) as (st & ok & H1 & H2 & _); [lia|].
  simpl in H1. injection H1 as <- <-.
  assert (forall name', (if decide (name' = name) then valid else blob_size name' (n_state n)) <= blob_size name' (truncate_blob name valid (n_state n))) as Hsz.
  { intros name'. unfold blob_size, truncate_blob, bt_contains. destruct (bt_get name (hs_blob_sizes (n_state n))) eqn:E; simpl in *;
      destruct (decide (name' = name)) as [->|Hd]; rewrite ?bt_get_insert_eq, ?bt_get_insert_ne, ?E by exact Hd; simpl; lia. }
  apply (disk_elsewhere sends sound config capacity G n key); auto.
  - apply bt_insert_sorted, (dk_sorted _ _ _ _ _ _ D).
  - intros name' Hne. destruct (decide (name' = name)) as [->|Hd]; [unfold name; eauto|]. now rewrite bt_get_insert_ne in Hne.
  - intros name' bs' Hget'. destruct (decide (name' = name)) as [->|Hd].
    + rewrite bt_get_insert_eq in Hget'. injection Hget' as <-. split; [now apply all_bytes_take, (dk_bytes _ _ _ _ _ _ D name)|].
      specialize (Hsz name). rewrite decide_True in Hsz by reflexivity. unfold len in *. rewrite length_take.
      change (blob_size name (insert_replica _ _ _)) with (blob_size name (truncate_blob name valid (n_state n))). lia.
    + rewrite bt_get_insert_ne in Hget' by exact Hd. split; [exact (dk_bytes _ _ _ _ _ _ D _ _ Hget')|].
      pose proof (dk_covers _ _ _ _ _ _ D _ _ Hget') as Hx. specialize (Hsz name'). rewrite decide_False in Hsz by exact Hd.
      change (blob_size name' (insert_replica _ _ _)) with (blob_size name' (truncate_blob name valid (n_state n))). lia.
  - destruct H2. now constructor.
  - simpl. unfold truncate_blob. pose proof (dk_config _ _ _ _ _ _ D). now destruct (bt_contains _ _).
Qed.
Lemma recover_other G Gm n key m : disk_ok G n -> memory_ok Gm n -> key_ok key -> sound key = false -> own_files n key m ->
  exists n', recover_replica_blobs false key m n = Ok n' /\ n_failed n' = n_failed n /\ disk_ok G n' /\ memory_ok Gm n'.
Proof using CL PL.
  intros D M Hk Hu Hm. unfold recover_replica_blobs. destruct (list.last m) as [[current [nm bs]]|] eqn:Hl; [|eauto 6].
  assert (In (current, (nm, bs)) m) as Hlast by (apply last_Some in Hl as [l ->]; apply in_app_iff; right; now left).
  destruct (Hm _ _ _ Hlast) as (Hgen & _ & _). set (combined := concat (map (fun e => e.2.2) m)).
  assert (all_bytes combined) as Hb.
  { apply all_bytes_concat. intros [g [name b]] Hin. destruct (Hm _ _ _ Hin) as (_ & _ & Hg).
    exact (dk_bytes _ _ _ _ _ _ D _ _ Hg). }
  assert (len bs <= len combined) as Hle.
  { unfold combined. apply last_Some in Hl as [l ->]. rewrite map_app, concat_app, len_app. simpl. rewrite app_nil_r.
    pose proof (len_nonneg (concat (map (fun e : Z * (string * bytes) => e.2.2) l))). simpl. lia. }
  assert (no_panic (scan_replica_spool combined)) as Hnp by now apply scan_loop_total.
  destruct (scan_replica_spool combined) as [scan|e|] eqn:Hscan; [|cbn; eauto 6|now destruct Hnp].
  destruct (scan_sound combined scan Hb Hscan) as (frames & tail & rp & Hc & _ & _ & _ & ->). cbn [result_ok outcome_bind scan_done ss_truncated_tail ss_valid_len].
  assert (0 <= len (spool_bytes frames)) by apply len_nonneg.
  assert (forall r st blobs, hs_replicas st = hs_replicas (n_state n) -> counts_ok r ->
    memory_ok Gm {| n_state := insert_replica key r st; n_blobs := blobs; n_failed := n_failed n |}) as Hmem.
  { intros r st blobs Hst Hr.
    apply (memory_elsewhere sound Gm n key (Some r) (bt_insert key r (hs_replicas (n_state n)))); auto; [simpl; now rewrite Hst|..].
    - apply bt_insert_sorted, (mm_sorted _ _ _ M).
    - intros key'. destruct (decide (key' = key)) as [->|Hne]; [apply bt_get_insert_eq|now apply bt_get_insert_ne].
    - intros r' [= <-]. exact Hr. }
  case_bool_decide as Ht; cbn [negb].
  - eexists. split; [reflexivity|]. split; [reflexivity|]. split.
    + apply disk_same; auto; [|apply (dk_config _ _ _ _ _ _ D)|reflexivity]. destruct (dk_ledger _ _ _ _ _ _ D). now constructor.
    + apply Hmem; [reflexivity|]. subst tail. rewrite app_nil_r in Hc. split; [|exact Hgen]. simpl. rewrite <- Hc. pose proof (len_nonneg bs). lia.
  - destruct (List.find _ _) as [[[[g start] l] name]|] eqn:Hf; [|eauto 6].
    destruct (negb (g =? current)); [eauto 6|]. apply find_some in Hf as [Hin Hlt%Z.ltb_lt].
    destruct (boundaries_In _ _ _ _ _ _ Hin) as (bs' & Hin' & -> & Hs). destruct (Hm _ _ _ Hin') as (Hg & -> & Hget).
    unfold saturating_add in Hlt. eexists. split; [reflexivity|]. split; [reflexivity|]. split.
    + apply (truncate_elsewhere G n key g bs'); auto. unfold saturating_sub. pose proof (len_nonneg bs'). lia.
    + apply Hmem; [unfold truncate_blob; now destruct (bt_contains _ _)|]. split; [|exact Hgen]. simpl. unfold saturating_sub. lia.
Qed.
Definition cut_all (keys : list ReplicaKey) (G G0 : Ghost) : Ghost :=
  fun key => if decide (In key keys) then tear [] <$> G key else G0 key.
(** What the restart knows of a group of files before it reads them. *)
Definition group_known (G : Ghost) (n : Node) (key : ReplicaKey) (m : Group) : Prop :=
  key_ok key /\ own_files n key m
  /\ (sound key = true -> exists lg, G key = Some lg /\ m = gen_from key 0 (log_files lg)).
Lemma recover_group Gd Gm n key m : disk_ok Gd n -> memory_ok Gm n -> group_known Gd n key m ->
  exists n', recover_replica_blobs false key m n = Ok n' /\ n_failed n' = n_failed n
    /\ exists Gd' Gm', disk_ok Gd' n' /\ memory_ok Gm' n'
       /\ (forall k, k <> key -> Gd' k = Gd k /\ Gm' k = Gm k)
       /\ (sound key = true -> Gd' key = tear [] <$> Gd key /\ Gm' key = tear [] <$> Gd key).
Proof using CL PL.
  intros D M (Hk & Hown & Hs). destruct (sound key) eqn:Es.
  - destruct (Hs eq_refl) as (lg & HG & ->).
    destruct (recover_one Gd Gm n key lg D M (conj Hk Es) HG) as (n' & -> & Hf & _ & D' & M').
    exists n'. split; [reflexivity|]. split; [exact Hf|]. do 2 eexists. split; [exact D'|]. split; [exact M'|].
    split; [intros k Hne; now rewrite !ghost_set_ne|]. intros _. now rewrite !ghost_set_eq, HG.
  - destruct (recover_other Gd Gm n key m D M Hk Es Hown) as (n' & -> & Hf & D' & M').
    exists n'. split; [reflexivity|]. split; [exact Hf|]. now exists Gd, Gm.
Qed.
Lemma group_known_kept Gd Gd' n n' key key' m m' : key <> key' -> own_files n key m -> key_ok key ->
  recover_replica_blobs false key m n = Ok n' -> (forall k, k <> key -> Gd' k = Gd k) ->
  group_known Gd n key' m' -> group_known Gd' n' key' m'.
Proof.
  intros Hne Hown Hk Hr HG (Hk' & Hown' & Hs). split; [exact Hk'|]. split.
  - intros g name bs Hin. destruct (Hown' g name bs Hin) as (Hg & -> & Hget). split; [exact Hg|]. split; [reflexivity|].
    rewrite <- Hget. destruct (decide (bt_get (spool_name key' g) (n_blobs n') = bt_get (spool_name key' g) (n_blobs n))) as [|Hd]; [assumption|].
    destruct (recover_blobs_own key m n n' Hown Hr _ Hd) as (g' & Hg' & He). now destruct (spool_name_inj key' key g g') as [-> _].
  - rewrite HG by congruence. exact Hs.
Qed.
Lemma recover_all groups : forall Gd Gm n, disk_ok Gd n -> memory_ok Gm n -> List.NoDup (map fst groups) ->
  (forall key m, In (key, m) groups -> group_known Gd n key m) ->
  exists n', fold_outcome (fun n '(key, generations) => recover_replica_blobs false key generations n) n groups = Ok n'
    /\ n_failed n' = n_failed n
    /\ exists Gd' Gm', disk_ok Gd' n' /\ memory_ok Gm' n'
       /\ forall key, sound key = true ->
          Gd' key = cut_all (map fst groups) Gd Gd key /\ Gm' key = cut_all (map fst groups) Gd Gm key.
Proof using CL PL.
  induction groups as [|[key m] groups IH]; intros Gd Gm n D M Hnd Hall; simpl.
  { exists n. split; [reflexivity|]. split; [reflexivity|]. exists Gd, Gm. auto. }
  simpl in Hnd. apply List.NoDup_cons_iff in Hnd as [Hnew Hnd]. pose proof (Hall key m (or_introl eq_refl)) as Hg.
  destruct (recover_group Gd Gm n key m D M Hg) as (n1 & Hr & Hf1 & Gd1 & Gm1 & D1 & M1 & Ho & Hs). rewrite Hr. simpl.
  destruct (IH Gd1 Gm1 n1 D1 M1 Hnd) as (n' & -> & Hf & Gd' & Gm' & D' & M' & H').
  { intros key' m' Hin. destruct Hg as (Hk & Hown & _). apply (group_known_kept Gd Gd1 n n1 key key' m m'); auto.
    - intros ->. apply Hnew. now apply (in_map fst) in Hin.
    - intros k Hne. now apply Ho.
    - apply Hall. now right. }
  exists n'. split; [reflexivity|]. split; [congruence|]. exists Gd', Gm'. split; [exact D'|]. split; [exact M'|].
  intros k Hk. destruct (H' k Hk) as [-> ->]. unfold cut_all. simpl. destruct (decide (k = key)) as [->|Hne].
  - rewrite (decide_False (P := In key (map fst groups)) _ (Gd1 key)), (decide_False (P := In key (map fst groups)) _ (Gm1 key)) by exact Hnew.
    rewrite !decide_True by auto. now apply Hs.
  - destruct (Ho k Hne) as [-> ->]. destruct (decide (In k (map fst groups))) as [H|H].
    + now rewrite !decide_True by auto.
    + now rewrite !decide_False by (intros [->|?]; auto).
Qed.
(** The ledger a restart begins with. *)
Lemma lens_get (blobs : LocalBlobs) name :
  bt_get name (map (fun '(name, bs) => (name, len bs)) blobs) = len <$> bt_get name blobs.
Proof. induction blobs as [|[k bs] blobs IH]; simpl; [reflexivity|]. now destruct (cmp name k). Qed.
Lemma lens_sorted (blobs : LocalBlobs) : bt_sorted blobs -> bt_sorted (map (fun '(name, bs) => (name, len bs)) blobs).
Proof.
  induction 1 as [|[k bs] blobs Hs IH Hk]; simpl; constructor; auto. apply List.Forall_map.
  eapply List.Forall_impl, Hk. intros [k' bs']. unfold bt_lt. auto.
Qed.
Lemma lens_total (blobs : LocalBlobs) : forall sizes, bt_sorted blobs -> sizes_ok sizes ->
  (forall name bs, bt_get name blobs = Some bs -> len bs <= default 0 (bt_get name sizes)) ->
  ledger_total (map (fun '(name, bs) => (name, len bs)) blobs) <= ledger_total sizes.
Proof.
  induction blobs as [|[k bs] blobs IH]; intros sizes Hs Hok Hc; simpl; [now apply sizes_total|].
  apply bt_sorted_cons in Hs as [Hs Hlt]. rewrite ledger_cons.
  pose proof (Hc k bs) as Hk. simpl in Hk. rewrite cmp_refl in Hk. specialize (Hk eq_refl).
  specialize (IH (bt_remove k sizes) Hs (sizes_remove k _ Hok)). rewrite ledger_remove in IH by apply Hok.
  enough (ledger_total (map (fun '(name, bs) => (name, len bs)) blobs) <= ledger_total sizes - default 0 (bt_get k sizes)) by lia.
  apply IH. intros name bs' Hget. destruct (decide (name = k)) as [->|Hne].
  - rewrite (bt_get_below k bs) in Hget by exact Hlt. discriminate.
  - rewrite bt_get_remove_ne by exact Hne. apply Hc. simpl. destruct (cmp name k) eqn:E; auto. apply cmp_eq in E. congruence.
Qed.
Lemma restart_disk G n fresh : disk_ok G n -> hs_config fresh = config ->
  disk_ok G {| n_state := with_blob_sizes (map (fun '(name, bs) => (name, len bs)) (n_blobs n)) fresh;
               n_blobs := n_blobs n; n_failed := false |}.
Proof.
  intros [D1 D2 Db D3 D4 D5 D6] Hc. constructor; simpl; auto.
  - pose proof (ledger_ok_sizes _ _ D4) as Hok. pose proof (lens_total _ _ D1 Hok D5) as Ht. destruct D4. constructor; simpl.
    + now rewrite Hc, <- D6.
    + now rewrite Hc, <- D6.
    + now apply lens_sorted.
    + intros name size. rewrite lens_get. destruct (bt_get name (n_blobs n)); [|discriminate]. intros [= <-]. apply len_nonneg.
    + lia.
  - intros name bs Hget. unfold blob_size. simpl. rewrite lens_get, Hget. reflexivity.
Qed.
Lemma restart_ok G n fresh : disk_ok G n -> hs_config fresh = config -> hs_replicas fresh = [] ->
  exists n', recover_spools false fresh (n_blobs n) = Ok n' /\ n_failed n' = false
    /\ exists G', disk_ok G' n' /\ memory_ok G' n' /\ forall key, good key -> frames_at G' key = frames_at G key.
Proof using CL PL.
  intros D Hc Hr. unfold recover_spools. set (n0 := {| n_state := _; n_blobs := _; n_failed := false |}).
  pose proof (restart_disk G n fresh D Hc) as D0. fold n0 in D0.
  assert (memory_ok (fun _ => None) n0) as M0 by (constructor; simpl; rewrite Hr; [constructor|discriminate|discriminate|easy]).
  pose proof (files_grouped _ _ (disk_files_distinct G n D)) as Hgr. rewrite <- replica_blobs_groups in Hgr.
  destruct (recover_all (replica_blobs (n_blobs n)) G (fun _ => None) n0 D0 M0) as (n' & -> & Hf & Gd & Gm & D' & M' & H').
  { apply bt_sorted_NoDup, (go_sorted _ _ _ Hgr). }
  { intros key m Hin. apply In_bt_get in Hin; [|apply (go_sorted _ _ _ Hgr)]. pose proof (group_keys_ok G n key m D Hin) as Hk.
    split; [exact Hk|]. split; [|intros Hs; rewrite (group_of_key G n key D (conj Hk Hs)) in Hin; destruct (G key) as [lg|]; [|discriminate];
      injection Hin as <-; eauto].
    intros g name bs Hm. destruct (go_inner _ _ _ Hgr _ _ Hin) as [Hsm Hne]. apply In_bt_get in Hm; [|exact Hsm].
    destruct (proj1 (file_identity_disk G n key g name bs D Hk)) as (Hg & -> & Hget); [|auto].
    apply (go_files _ _ _ Hgr). rewrite Hin. split; [exact Hne|exact Hm]. }
  exists n'. split; [reflexivity|]. split; [exact Hf|]. exists Gd. split; [exact D'|].
  assert (forall key, good key -> Gd key = tear [] <$> G key /\ Gm key = tear [] <$> G key) as Hcut.
  { intros key Hk. destruct (H' key (proj2 Hk)) as [-> ->]. unfold cut_all. destruct (decide (In key _)) as [|Hno]; [auto|].
    assert (G key = None) as ->; [|auto]. destruct (G key) as [lg|] eqn:HG; [|reflexivity]. destruct Hno.
    pose proof (group_of_key G n key D Hk) as Hg. rewrite HG in Hg. apply bt_get_In in Hg. now apply (in_map fst) in Hg. }
  split.
  - destruct M' as [M1 M2 Mc M3]. constructor; auto. intros key Hk. specialize (M3 key Hk). destruct (Hcut key Hk) as [-> E]. now rewrite E in M3.
  - intros key Hk. unfold frames_at. destruct (Hcut key Hk) as [-> _]. now destruct (G key).
Qed.
End Restart.
