(* ===== verification/InboxProtocol.v ===== *)
(** * What a source may rely on

    Any sequence of messages, device failures and restarts of one peer. *)

From S2P Require Import Prelude Format Types OrdMap Text Head Layout HostState HostSafety.
From S2P Require Import Blx BlxFile BlxScan Manifest PageFile Journal JournalFormat ReplicaSpool SpoolSafety.
From S2P Require Import ReplicaInbox InboxSafety InboxDurable InboxRestart.

#[local] Open Scope Z_scope.

(** A stopped host answers nothing until it is restarted; power loss is a
    restart whose last append went through in part. *)
Inductive InboxEvent :=
| Ev_message (w : World) (key : ReplicaKey) (msg : ReplicaMsg)
| Ev_restart.
Section Run.
Context `{C : Crc} `{L : Lz4} `{P : PageSize}.
Definition inbox_step (fresh : HostState) (n : Node) (ev : InboxEvent) : outcome unit (Node * list ReplicaReply) :=
  match ev with
  | Ev_message w key msg => if n_failed n then Ok (n, []) else replica_message w key msg n
  | Ev_restart => let? n := recover_spools false fresh (n_blobs n) in Ok (n, [])
  end.
Fixpoint inbox_run (fresh : HostState) (n : Node) (evs : list InboxEvent)
  : outcome unit (Node * list (list ReplicaReply)) :=
  match evs with
  | [] => Ok (n, [])
  | ev :: evs =>
      let? (n, out) := inbox_step fresh n ev in
      let? (n, outs) := inbox_run fresh n evs in
      Ok (n, out :: outs)
  end.
(** A host with no files. *)
Definition first_start (fresh : HostState) : Node :=
  {| n_state := with_blob_sizes [] fresh; n_blobs := []; n_failed := false |}.
End Run.

(** An answer that tells the source a commit is safe here. *)
Definition vouches (reply : ReplicaReply) (info : ReplicaCommitInfo) : Prop :=
  match reply with
  | ReplicaCommitAck _ i => i = info
  | ReplicaStatusReply _ (Some i) => i = info
  | _ => False
  end.

(** ** Releases without an answer *)
Section Release.
Context `{C : Crc} `{L : Lz4} `{P : PageSize}.
(** The store's head, when it can be read, no longer assigns the key here. *)
Definition unassigned (key : ReplicaKey) (local : Z) (w : World) : Prop :=
  match w_head w with
  | None => True
  | Some bs => match HeadRecord_decode (rk_volume key) bs with
               | Ok head => assigned key local head = false
               | Err _ => True
               | Panic => False
               end
  end.
(** The spool has no commit yet, or [through] reaches its newest commit and
    it holds artifacts that no commit names. *)
Definition unfinished (r : ReplicaState) (through : ReplicaCommitInfo) : Prop :=
  match rs_committed r with
  | None => True
  | Some committed => cmp_leb committed through = true /\ rs_uncommitted_artifacts r <> []
  end.

(** C39. A release can go unanswered for ever. Once a peer has deleted a
    retired spool, and the head no longer names the peer, every further release
    of it is refused without a word, however often the source retries: the one
    acknowledgement that was sent is the only one there can be. And a peer
    refuses, without a word and as often as it is asked, the release of a spool
    that has no commit, and a release that reaches the newest commit of a spool
    which also holds artifacts that no commit names. In all these cases the
    retries change nothing. (A release that a newer commit has superseded is
    acknowledged.) *)
Theorem release_may_stick key through n ws :
  n_failed n = false ->
  (bt_get key (hs_replicas (n_state n)) = None /\ Forall (unassigned key (hc_host (hs_config (n_state n)))) ws)
  \/ (exists r, bt_get key (hs_replicas (n_state n)) = Some r /\ unfinished r through) ->
  forall fresh, inbox_run fresh n (map (fun w => Ev_message w key (ReplicaRelease through)) ws)
    = Ok (n, map (fun _ => []) ws).
Proof.
  intros Hf Hstate fresh. assert (Forall (fun w => release w key through n = Ok (n, [])) ws) as Hall.
  { destruct Hstate as [[Hn Hws]|(r & Hr & Hu)].
    - eapply List.Forall_impl, Hws. intros w Hw. unfold release, authorized, has_durable_spool, bt_contains, unassigned in *. rewrite Hn.
      destruct (_ =? 0); [reflexivity|]. destruct (w_head w) as [bs|]; [|reflexivity].
      destruct (HeadRecord_decode (rk_volume key) bs) as [head|e|]; simpl; [now rewrite Hw|reflexivity|easy].
    - apply List.Forall_forall. intros w _. unfold release, authorized, has_durable_spool, bt_contains. rewrite Hr.
      destruct (_ =? 0); [reflexivity|]. simpl. unfold unfinished in Hu. destruct (rs_committed r) as [c|]; [|reflexivity].
      destruct Hu as [Hle Hne]. rewrite (proj2 (cmp_ltb_false through c) Hle), Hle.
      destruct (rs_uncommitted_artifacts r); [easy|reflexivity]. }
  induction Hall as [|w ws Hw _ IH]; simpl; [reflexivity|]. rewrite Hf, Hw. simpl.
  rewrite IH; [reflexivity|]. destruct Hstate as [[Hn Hws]|Hr]; [left|now right]. now apply Forall_cons_1 in Hws.
Qed.
End Release.

(** ** What a peer may be sent *)

(** Every message a source can send: a key that has a name, an artifact or a
    record of at most the size the protocol carries, the digests of the
    commit's parts within their width. *)
Definition wellformed (ev : InboxEvent) : Prop :=
  match ev with
  | Ev_message _ key msg => key_ok key /\ match msg with
      | ReplicaPut artifact _ bs => put_ok artifact bs
      | ReplicaCommit info required record => commit_msg_ok info required record
      | ReplicaStatus | ReplicaRelease _ => True
      end
  | Ev_restart => True
  end.
(** The commits the source of [key] sends, and the releases of [key] whose
    deletions the device does not complete. *)
Definition commit_of (key : ReplicaKey) (ev : InboxEvent) : option ReplicaCommitInfo :=
  match ev with
  | Ev_message _ k (ReplicaCommit info _ _) => if bool_decide (k = key) then Some info else None
  | _ => None
  end.
Definition interrupts (key : ReplicaKey) (ev : InboxEvent) : bool :=
  match ev with
  | Ev_message w k (ReplicaRelease _) =>
      bool_decide (k = key) && match w_delete w with Delete_done => false | _ => true end
  | _ => false
  end.
(** The key's own source commits in order (a later commit covers no less) and
    the key's own releases are not cut short by the device. Nothing is asked
    of the messages and failures of other keys. *)
Definition undisturbed (evs : list InboxEvent) (key : ReplicaKey) : bool :=
  forallb (fun ev => negb (interrupts key ev)) evs
  && forallb (fun i => forallb (fun j => negb (cmp_ltb i j) || cmp_leb (rank i) (rank j)) (omap (commit_of key) evs))
       (omap (commit_of key) evs).
Definition sent (evs : list InboxEvent) (key : ReplicaKey) (info : ReplicaCommitInfo) : Prop :=
  In info (omap (commit_of key) evs).

Section Protocol.
Context `{C : Crc} `{CL : !CrcLaws C} `{L : Lz4} `{P : PageSize} `{PL : !PageSizeLaws P}.
Variable sends : ReplicaKey -> ReplicaCommitInfo -> Prop.
Variable sound : ReplicaKey -> bool.
Hypothesis sends_ranked : forall key, sound key = true -> ranked sends key.
Variable fresh : HostState.
Variable capacity : Z.
Hypothesis fresh_capacity : hc_disk_capacity (hs_config fresh) = Some capacity.
Hypothesis capacity_small : 0 <= capacity < 2 ^ 63.
Hypothesis fresh_headroom : 0 <= hc_disk_headroom (hs_config fresh).
Hypothesis spool_capacity_small : hc_spool_capacity_bytes (hs_config fresh) < 2 ^ 63.
Hypothesis fresh_replicas : hs_replicas fresh = [].
#[local] Abbreviation disk_ok := (disk_ok sends sound (hs_config fresh) capacity).
#[local] Abbreviation memory_ok := (memory_ok sound).
#[local] Abbreviation good := (good sound).

Definition event_ok (ev : InboxEvent) : Prop :=
  match ev with
  | Ev_message w key msg => key_ok key /\ msg_ok sends sound key msg
      /\ (sound key = true -> interrupts key ev = false)
  | Ev_restart => True
  end.
Definition node_ok (G : Ghost) (n : Node) : Prop :=
  disk_ok G n /\ (n_failed n = false -> memory_ok G n).
(** No release among [evs] reaches the newest commits of [frames]. *)
Definition spared (key : ReplicaKey) (frames : list SpoolFrame) (evs : list InboxEvent) : Prop :=
  forall w through, In (Ev_message w key (ReplicaRelease through)) evs ->
    exists info, has_commit frames info /\ cmp_leb info through = false.
Definition answer_holds (key : ReplicaKey) (msg : ReplicaMsg) (out : list ReplicaReply) (frames : list SpoolFrame) : Prop :=
  forall reply, In reply out -> truthful frames key msg reply.

Lemma step_ok G n ev : node_ok G n -> event_ok ev ->
  exists n' out G', inbox_step fresh n ev = Ok (n', out) /\ node_ok G' n'
    /\ (forall key, good key -> spared key (frames_at G key) [ev] -> exists more, frames_at G' key = frames_at G key ++ more)
    /\ match ev with Ev_message _ key msg => good key -> answer_holds key msg out (frames_at G' key) | Ev_restart => True end.
Proof using CL PL sends_ranked capacity_small spool_capacity_small fresh_replicas.
  intros [D M] He. destruct ev as [w key msg|]; simpl in *.
  - destruct He as (Hk & Hm & Hw). destruct (n_failed n) eqn:Hf.
    { exists n, [], G. split; [reflexivity|]. split; [split; [exact D|congruence]|]. split; [|easy].
      intros key' _ _. exists []. now rewrite app_nil_r. }
    destruct (sound key) eqn:Es.
    + destruct (message_handled sends sound (hs_config fresh) capacity ltac:(lia) spool_capacity_small sends_ranked G n w key msg
        D (M eq_refl) Hf (conj Hk Es) Hm) as (n' & replies & -> & G' & Ho & D' & M' & Hfr & Hr).
      { intros through ->. specialize (Hw eq_refl). rewrite bool_decide_eq_true_2 in Hw by reflexivity. now destruct (w_delete w). }
      exists n', replies, G'. split; [reflexivity|]. split; [split; auto|]. split; [|auto].
      intros key' _ Hs. destruct (decide (key' = key)) as [->|Hne].
      * destruct Hfr as [Hfr|(through & -> & Hall)]; [exact Hfr|]. exfalso.
        destruct (Hs w through (or_introl eq_refl)) as (info & Hc & Hlt). rewrite (Hall info Hc) in Hlt. discriminate.
      * exists []. rewrite app_nil_r. unfold frames_at. now rewrite Ho.
    + destruct (message_other sends sound (hs_config fresh) capacity ltac:(lia) spool_capacity_small G n w key msg
        D (M eq_refl) Hf Hk Es Hm) as (n' & replies & -> & Hn').
      exists n', replies, G. split; [reflexivity|]. split; [exact Hn'|]. split; [|intros [_ Hs]; congruence].
      intros key' _ _. exists []. now rewrite app_nil_r.
  - destruct (restart_ok sends sound (hs_config fresh) capacity G n fresh D eq_refl fresh_replicas) as (n' & -> & Hf & G' & D' & M' & Hfr).
    exists n', [], G'. split; [reflexivity|]. split; [split; auto|]. split; [|exact I].
    intros key Hk _. exists []. rewrite app_nil_r. auto.
Qed.
Lemma spared_more key frames more evs : spared key frames evs -> spared key (frames ++ more) evs.
Proof using Type.
  intros H w through Hin. destruct (H w through Hin) as (info & (c & Hc & Hi) & Hlt). exists info. split; [|exact Hlt].
  exists c. rewrite in_app_iff. auto.
Qed.
Lemma run_ok evs : forall G n, node_ok G n -> Forall event_ok evs ->
  exists n' outs G', inbox_run fresh n evs = Ok (n', outs) /\ node_ok G' n'
    /\ (forall key, good key -> spared key (frames_at G key) evs -> exists more, frames_at G' key = frames_at G key ++ more)
    /\ forall i w key msg out, evs !! i = Some (Ev_message w key msg) -> outs !! i = Some out -> good key ->
       exists frames, answer_holds key msg out frames
         /\ (spared key frames (drop (S i) evs) -> exists more, frames_at G' key = frames ++ more).
Proof using CL PL sends_ranked capacity_small spool_capacity_small fresh_replicas.
  induction evs as [|ev evs IH]; intros G n HN Hev.
  { exists n, [], G. split; [reflexivity|]. split; [exact HN|]. split; [intros; exists []; now rewrite app_nil_r|easy]. }
  apply Forall_cons_1 in Hev as [He Hev]. destruct (step_ok G n ev HN He) as (n1 & out1 & G1 & H1 & HN1 & Hk1 & Ha1).
  destruct (IH G1 n1 HN1 Hev) as (n' & outs & G' & H2 & HN' & Hk & Ha). cbn [inbox_run]. rewrite H1. cbn [outcome_bind]. rewrite H2.
  exists n', (out1 :: outs), G'. split; [reflexivity|]. split; [exact HN'|]. split.
  - intros key Hg Hs. destruct (Hk1 key Hg) as [m1 E1]; [intros w t [->|[]]; apply (Hs w t); now left|].
    destruct (Hk key Hg) as [m2 E2]; [rewrite E1; apply spared_more; intros w t Hin; apply (Hs w t); now right|].
    exists (m1 ++ m2). now rewrite E2, E1, app_assoc.
  - intros [|i] w key msg out He' Ho Hg; simpl in *; [|eauto]. injection He' as ->. injection Ho as <-.
    exists (frames_at G1 key). rewrite drop_0. auto.
Qed.

(** ** What is in memory after a restart *)
Definition keeps_artifact (key : ReplicaKey) (a : ReplicaArtifact) (Q : Z -> Prop) (n : Node) : Prop :=
  exists r checksum bs, bt_get key (hs_replicas (n_state n)) = Some r
    /\ bt_get a (rs_artifacts r) = Some (checksum, bs) /\ Q checksum
    /\ checksum = crc32c bs /\ verify_artifact (rk_volume key) a bs = Ok tt.
Definition keeps_commit (key : ReplicaKey) (info : ReplicaCommitInfo) (n : Node) : Prop :=
  exists r c record, bt_get key (hs_replicas (n_state n)) = Some r
    /\ rs_committed r = Some c /\ cmp_leb info c = true
    /\ rs_committed_record r = Some record /\ verify_record (rk_volume key) c record = Ok tt.
Lemma frames_replica G n key x : disk_ok G n -> memory_ok G n -> good key ->
  In x (frames_at G key) ->
  exists r rp, bt_get key (hs_replicas (n_state n)) = Some r /\ knows rp r /\ frames_ok sends key (frames_at G key) rp.
Proof using Type.
  intros D M Hk Hx. pose proof (dk_logs _ _ _ _ _ _ D key Hk) as Hd. pose proof (mm_logs _ _ _ M key Hk) as Hm.
  unfold frames_at in *. destruct (G key) as [lg|]; [|easy]. destruct (bt_get key (hs_replicas (n_state n))) as [r|]; [|easy].
  destruct Hd as [_ [rp Hl]]. destruct Hm as (_ & _ & rp' & Hr & Hkn). pose proof (lk_frames _ _ _ _ Hl) as Hf.
  assert (rp' = rp) as -> by (pose proof (fo_replay _ _ _ _ Hf); simpl in *; congruence). exists r, rp. auto.
Qed.
Lemma identity_volume key (frames : list SpoolFrame) rp i : frames_ok sends key frames rp -> rp_identity rp = Some i -> i = key_identity key.
Proof using Type. intros H Hi. destruct (fo_identity _ _ _ _ H); congruence. Qed.
Lemma memory_artifact G n key a Q : disk_ok G n -> memory_ok G n -> good key ->
  has_artifact (frames_at G key) a Q -> keeps_artifact key a Q n.
Proof using Type.
  intros D M Hk (f & Hin & Ha & HQ). destruct (frames_replica G n key _ D M Hk Hin) as (r & rp & Hr & Hkn & Hf).
  destruct (replay_has _ _ _ _ (fo_replay _ _ _ _ Hf) Hin) as (f' & Hget & Hc & Hb). rewrite Ha in Hget.
  destruct (rpo_keyed _ (frames_replay_ok _ _ _ _ Hf) a f' Hget) as (Ha' & (_ & _ & Hcrc & Hv) & Hi).
  pose proof (identity_volume _ _ _ _ Hf Hi) as He. injection He as _ He _.
  exists r, (af_checksum f'), (af_bytes f'). split; [exact Hr|].
  rewrite (kn_artifacts _ _ Hkn), remembered_get, Hget. split; [reflexivity|]. split; [congruence|]. split; [exact Hcrc|].
  now rewrite <- He, <- Ha'.
Qed.
Lemma memory_commit G n key info : disk_ok G n -> memory_ok G n -> good key ->
  has_commit (frames_at G key) info -> keeps_commit key info n.
Proof using Type.
  intros D M Hk Hc. destruct Hc as (c & Hin & Hi). destruct (frames_replica G n key _ D M Hk Hin) as (r & rp & Hr & Hkn & Hf).
  pose proof (replay_has _ _ _ _ (fo_replay _ _ _ _ Hf) Hin) as Hcin. simpl in Hcin.
  destruct (list.last (rp_commits rp)) as [d|] eqn:Hl; [|apply last_None in Hl; now rewrite Hl in Hcin].
  assert (last_commit rp = Some (cf_info d)) as Hlast by (unfold last_commit; now rewrite Hl).
  assert (In d (rp_commits rp)) as Hd by (apply last_Some in Hl as [l ->]; apply in_app_iff; right; now left).
  destruct (rpo_commits _ (frames_replay_ok _ _ _ _ Hf) d Hd) as ((_ & _ & Hv) & Hid & _).
  pose proof (identity_volume _ _ _ _ Hf Hid) as He. injection He as _ He _.
  exists r, (cf_info d), (cf_record d). split; [exact Hr|]. split; [now rewrite (kn_committed _ _ Hkn)|].
  split; [apply (commits_below_last sends key (frames_at G key) rp); auto; exists c; auto|].
  split; [now rewrite (kn_record _ _ Hkn), Hl|]. now rewrite <- He.
Qed.
Lemma run_length evs : forall n n' outs, inbox_run fresh n evs = Ok (n', outs) -> length outs = length evs.
Proof using Type.
  induction evs as [|ev evs IH]; intros n n' outs H; cbn [inbox_run] in H; [now injection H as <- <-|].
  apply outcome_bind_Ok in H as ([n1 out] & _ & H). apply outcome_bind_Ok in H as ([n2 outs'] & H2 & H).
  injection H as <- <-. simpl. f_equal. eauto.
Qed.
Lemma first_start_ok : node_ok (fun _ => None) (first_start fresh).
Proof using fresh_capacity capacity_small fresh_headroom fresh_replicas.
  split.
  - constructor; simpl; [constructor|discriminate|discriminate|intros key _ g _; reflexivity| |discriminate|reflexivity].
    constructor; simpl; [exact fresh_capacity|exact fresh_headroom|constructor|discriminate|unfold ledger_total, total; simpl; lia].
  - intros _. constructor; simpl; rewrite fresh_replicas; [constructor|discriminate|discriminate|easy].
Qed.

Lemma truthful_vouches frames key msg reply info : truthful frames key msg reply -> vouches reply info ->
  has_commit frames info /\ forall info' required record, msg = ReplicaCommit info' required record ->
    forall a, In a required -> has_artifact frames a (fun _ => True).
Proof using Type.
  intros Ht Hv. destruct reply as [| |k [j|]|]; simpl in Hv; try easy; subst; destruct msg; simpl in Ht; try easy.
  - destruct Ht as (_ & <- & Hc & Ha). split; [exact Hc|]. now intros ? ? ? [= <- <- <-].
  - destruct Ht as (_ & Hc). split; [now apply Hc|discriminate].
Qed.

End Protocol.

Section Survival.
Context `{C : Crc} `{CL : !CrcLaws C} `{L : Lz4} `{P : PageSize} `{PL : !PageSizeLaws P}.
Lemma sent_In evs w key info required record :
  In (Ev_message w key (ReplicaCommit info required record)) evs -> sent evs key info.
Proof.
  intros H. apply list_elem_of_In, list_elem_of_omap. eexists. split; [apply list_elem_of_In, H|]. simpl.
  now rewrite bool_decide_eq_true_2 by reflexivity.
Qed.
Lemma undisturbed_ranked evs key : undisturbed evs key = true -> ranked (sent evs) key.
Proof.
  intros [_ H]%andb_true_iff i j Hi Hj Hlt. rewrite forallb_forall in H. specialize (H i Hi). rewrite forallb_forall in H.
  specialize (H j Hj). now rewrite Hlt in H.
Qed.
Lemma wellformed_event_ok evs : Forall wellformed evs -> Forall (event_ok (sent evs) (undisturbed evs)) evs.
Proof.
  rewrite !List.Forall_forall. intros H ev Hin. specialize (H ev Hin). destruct ev as [w key msg|]; simpl in *; [|exact I].
  destruct H as [Hk Hm]. split; [exact Hk|]. split.
  - destruct msg; auto. split; [exact Hm|]. intros _. eapply sent_In, Hin.
  - intros [Hi _]%andb_true_iff. rewrite forallb_forall in Hi. apply negb_true_iff, (Hi _ Hin).
Qed.

(** C1. What a peer acknowledges survives. Run any sequence of well-formed
    messages of any number of keys on a peer that starts without files, with
    appends that succeed, fail for want of space or stop after any number of
    bytes (an I/O error or a power loss, which stops the host), deletions that
    complete or not, and restarts anywhere. No message and no restart panics or
    fails. Take any key whose own source commits in order (a later commit covers
    no less) and none of whose own releases had its deletions cut short; the
    other keys are unconstrained. Restart the peer at the end: every commit of
    the key it ever vouched for, in an acknowledgement or a status reply, is
    covered by the commit it recovers, whose journal record verifies, and every
    artifact the acknowledged commit required is there and verifies, unless the
    source later released the key through that commit; and every artifact whose
    transfer it acknowledged is there with the acknowledged checksum, unless the
    source later released the key at all. *)
Theorem acknowledged_survives fresh capacity evs :
  hc_disk_capacity (hs_config fresh) = Some capacity -> 0 <= capacity < 2 ^ 63 ->
  0 <= hc_disk_headroom (hs_config fresh) -> hc_spool_capacity_bytes (hs_config fresh) < 2 ^ 63 ->
  hs_replicas fresh = [] -> Forall wellformed evs ->
  exists n outs n2, inbox_run fresh (first_start fresh) evs = Ok (n, outs)
    /\ length outs = length evs /\ recover_spools false fresh (n_blobs n) = Ok n2
    /\ forall i w key msg out reply, evs !! i = Some (Ev_message w key msg) -> outs !! i = Some out -> In reply out ->
       undisturbed evs key = true ->
       (forall info, vouches reply info ->
          (forall w' through, In (Ev_message w' key (ReplicaRelease through)) (drop (S i) evs) -> cmp_leb info through = false) ->
          keeps_commit key info n2
          /\ forall info' required record, msg = ReplicaCommit info' required record ->
             forall a, In a required -> keeps_artifact key a (fun _ => True) n2)
       /\ (forall a checksum, reply = ReplicaPutAck key a checksum ->
          (forall w' through, ~ In (Ev_message w' key (ReplicaRelease through)) (drop (S i) evs)) ->
          keeps_artifact key a (eq checksum) n2).
Proof using CL PL.
  intros Hcap Hsmall Hroom Hspool Hfresh Hwf. pose proof (wellformed_event_ok evs Hwf) as Hev.
  destruct (run_ok _ _ (undisturbed_ranked evs) fresh capacity Hsmall Hspool Hfresh evs _ _
    (first_start_ok (sent evs) (undisturbed evs) fresh capacity Hcap Hsmall Hroom Hfresh) Hev) as (n & outs & G & Hrun & [D _] & _ & Hans).
  destruct (restart_ok _ _ (hs_config fresh) capacity G n fresh D eq_refl Hfresh) as (n2 & Hrec & _ & G2 & D2 & M2 & Hfr).
  exists n, outs, n2. split; [exact Hrun|]. split; [now apply (run_length fresh evs (first_start fresh) n)|]. split; [exact Hrec|].
  intros i w key msg out reply He Ho Hin Hu.
  assert (good (undisturbed evs) key) as Hk by (split; [rewrite Forall_lookup in Hev; apply (Hev _ _ He)|exact Hu]).
  destruct (Hans i w key msg out He Ho Hk) as (frames & Ht & Hkeep). specialize (Ht reply Hin). split.
  - intros info Hv Hrel.
    destruct (truthful_vouches frames key msg reply info Ht Hv) as [Hc Hreq].
    destruct Hkeep as [more Hm]; [intros w' t Hr; exists info; split; [exact Hc|now apply (Hrel w')]|].
    rewrite <- (Hfr key Hk) in Hm. split.
    + eapply memory_commit; eauto. rewrite Hm. destruct Hc as (c & Hc & Hi). exists c. rewrite in_app_iff. auto.
    + intros info' required record Hmsg a Ha. eapply memory_artifact; eauto. rewrite Hm. apply has_artifact_more. eauto.
  - intros a checksum -> Hrel. destruct msg; simpl in Ht; try easy. destruct Ht as (_ & <- & <- & Ha).
    destruct Hkeep as [more Hm]; [intros w' t Hr; destruct (Hrel w' t Hr)|]. rewrite <- (Hfr key Hk) in Hm.
    eapply memory_artifact; eauto. rewrite Hm. now apply has_artifact_more.
Qed.
End Survival.

(** ** Files that a release leaves behind *)
Section Leftover.
Context `{C : Crc} `{CL : !CrcLaws C} `{L : Lz4} `{P : PageSize} `{PL : !PageSizeLaws P}.
(** The files of a key joined in generation order, as a restart joins them. *)
Definition joined (m : Group) : bytes := concat (map (fun e => e.2.2) m).
Definition spool_of (key : ReplicaKey) (blobs : LocalBlobs) : bytes :=
  joined (default [] (bt_get key (replica_blobs blobs))).
(** The first file of the key is gone and what is left is no spool. *)
Record leftover (key : ReplicaKey) (blobs : LocalBlobs) : Prop := {
  lo_sorted : bt_sorted blobs;
  lo_named name bs s v e g : bt_get name blobs = Some bs -> parse_blob name = Some (Blob_ReplicaSpool s v e g) ->
    name = spool_name {| rk_source := s; rk_volume := v; rk_assignment_epoch := e |} g /\ fits W64 g;
  lo_bytes name bs : bt_get name blobs = Some bs -> all_bytes bs;
  lo_first : bt_get (spool_name key 0) blobs = None;
  lo_unreadable : exists e, scan_replica_spool (spool_of key blobs) = Err e }.

(** A scan that starts with less accepts no less. *)
Record below (r r' : Replay) : Prop := {
  bl_artifacts : rp_artifacts r = rp_artifacts r';
  bl_identity : rp_identity r = None \/ rp_identity r = rp_identity r';
  bl_commits : list.last (rp_commits r) = None \/ list.last (rp_commits r) = list.last (rp_commits r') }.
Lemma below_identity i i' s v e j : (i = None \/ i = i') -> check_identity i' s v e = Ok j ->
  check_identity i s v e = Ok (Some (s, v, e)) /\ j = Some (s, v, e).
Proof.
  intros Hi H. destruct (check_identity_Ok _ _ _ _ _ H) as [-> _]. split; [|reflexivity].
  destruct Hi as [->| ->]; [reflexivity|exact H].
Qed.
Lemma below_artifact r r' f s' : below r r' -> scan_artifact r' f = Ok s' -> exists s, scan_artifact r f = Ok s /\ below s s'.
Proof.
  intros [Ha Hi Hc] H. unfold scan_artifact in *. apply outcome_bind_Ok in H as (j & Hj & H).
  destruct (below_identity _ _ _ _ _ _ Hi Hj) as [-> ->]. simpl. rewrite Ha.
  destruct (bt_get (af_artifact f) (rp_artifacts r')) as [x|].
  - destruct (_ && _); [|discriminate]. injection H as <-. eexists. split; [reflexivity|]. split; simpl; auto.
  - injection H as <-. eexists. split; [reflexivity|]. split; simpl; auto.
Qed.
Lemma below_commit r r' f s' : below r r' -> scan_commit r' f = Ok s' -> exists s, scan_commit r f = Ok s /\ below s s'.
Proof.
  intros [Ha Hi Hc] H. unfold scan_commit in *. apply outcome_bind_Ok in H as (j & Hj & H).
  destruct (below_identity _ _ _ _ _ _ Hi Hj) as [-> ->]. simpl. rewrite Ha.
  destruct (forallb _ (cf_required f)); [|discriminate].
  match type of H with (if ?b then _ else _) = _ => destruct b eqn:Hr; [|discriminate] end.
  assert (forall l : list ReplicaCommitFrame, list.last (l ++ [f]) = Some f) as Hl by (intros; apply last_snoc).
  destruct Hc as [Hn|Hs].
  - rewrite Hn. simpl. eexists. split; [reflexivity|].
    case_bool_decide as E; injection H as <-; (split; simpl; rewrite ?Hl; auto).
  - rewrite Hs, Hr. simpl. case_bool_decide as E; injection H as <-; (eexists; split; [reflexivity|]; split; simpl; rewrite ?Hl; auto).
Qed.
Lemma below_scan fuel : forall fuel' rest n n' r r' s', below r r' -> all_bytes rest -> (length rest <= fuel')%nat ->
  scan_loop fuel rest n' r' = Ok s' -> exists s, scan_loop fuel' rest n r = Ok s.
Proof.
  induction fuel as [|fuel IH]; intros [|fuel'] rest n n' r r' s' Hb Hby Hle H;
    destruct rest as [|b rest]; simpl in Hle; try lia; try discriminate; try (simpl; eauto; fail).
  cbn [scan_loop] in *. destruct (framed_len (b :: rest)) as [l|] eqn:Hl; [|eauto].
  destruct (framed_split _ _ Hl Hby) as (_ & _ & Hlt & _ & Hby'). simpl in Hlt. destruct (_ =? MAGIC_REPLICA_ARTIFACT).
  - apply outcome_bind_Ok in H as (f & -> & H). apply outcome_bind_Ok in H as (q & Hq & H). simpl.
    destruct (below_artifact _ _ _ _ Hb Hq) as (p & -> & Hp). simpl. eapply IH; eauto. lia.
  - destruct (_ =? MAGIC_REPLICA_COMMIT); [|eauto].
    apply outcome_bind_Ok in H as (f & -> & H). apply outcome_bind_Ok in H as (q & Hq & H). simpl.
    destruct (below_commit _ _ _ _ Hb Hq) as (p & -> & Hp). simpl. eapply IH; eauto. lia.
Qed.
Lemma scan_after_commit c rest s : SpoolFrame_ok (F_commit c) -> cf_required c = [] -> all_bytes rest ->
  scan_replica_spool (SpoolFrame_bytes (F_commit c) ++ rest) = Ok s -> exists s', scan_replica_spool rest = Ok s'.
Proof using CL.
  intros Hc Hr Hby H. unfold scan_replica_spool in *. rewrite <- (spool_bytes_one (F_commit c)) in H.
  destruct (scan_frames [F_commit c] rest (length (spool_bytes [F_commit c] ++ rest)) 0 replay_start
    {| rp_identity := Some (cf_source c, cf_volume c, cf_assignment_epoch c); rp_artifacts := [];
       rp_uncommitted := []; rp_commits := [c] |}) as (fuel & _ & Hs).
  - now constructor.
  - unfold replay. simpl. unfold scan_commit. simpl. now rewrite Hr.
  - lia.
  - rewrite Hs in H. eapply below_scan; [|exact Hby|lia|exact H]. split; simpl; auto.
Qed.

(** What a restart sees of the key once the commit is in its first file. *)
Lemma named_distinct blobs : bt_sorted blobs ->
  (forall name bs s v e g, bt_get name blobs = Some bs -> parse_blob name = Some (Blob_ReplicaSpool s v e g) ->
    name = spool_name {| rk_source := s; rk_volume := v; rk_assignment_epoch := e |} g /\ fits W64 g) ->
  groups_ok file_identity blobs (replica_blobs blobs).
Proof.
  intros Hs Hn. rewrite replica_blobs_groups. apply files_grouped. intros [name bs] [name' bs'] [key g] H H' Hi Hi'. simpl in *.
  apply In_bt_get in H; [|exact Hs]. apply In_bt_get in H'; [|exact Hs]. unfold file_identity in *.
  destruct (parse_blob name) as [[]|] eqn:Hp; try discriminate. injection Hi as <- <-.
  destruct (parse_blob name') as [[]|] eqn:Hp'; try discriminate. injection Hi' as <- <- <- <-.
  destruct (Hn _ _ _ _ _ _ H Hp) as [-> _]. destruct (Hn _ _ _ _ _ _ H' Hp') as [-> _]. congruence.
Qed.
Lemma leftover_group key blobs bs : leftover key blobs -> key_ok key -> all_bytes bs ->
  let blobs' := append_bytes (spool_name key 0) bs blobs in
  groups_ok file_identity blobs' (replica_blobs blobs') /\ (forall name b, bt_get name blobs' = Some b -> all_bytes b)
  /\ spool_of key blobs' = bs ++ spool_of key blobs /\ bt_sorted blobs'.
Proof.
  intros [Ls Ln Lb Lf _] Hk Hbs blobs'. pose proof (named_distinct _ Ls Ln) as [A1 A2 A3].
  assert (forall name, bt_get name blobs' = if decide (name = spool_name key 0) then Some bs else bt_get name blobs) as Hget.
  { intros name. unfold blobs'. now rewrite append_bytes_get, Lf. }
  assert (bt_sorted blobs') as Hs' by (unfold blobs', append_bytes, bt_update; auto with btree).
  pose proof (spool_name_parse key 0 Hk ltac:(unfold fits; lia)) as Hp0.
  assert (groups_ok file_identity blobs' (replica_blobs blobs')) as B.
  { apply named_distinct; [exact Hs'|]. intros name b s v e g. rewrite Hget. destruct (decide _) as [->|]; [|apply Ln].
    intros _. rewrite Hp0. intros [= <- <- <- <-]. destruct key. unfold fits. split; [reflexivity|lia]. }
  split; [exact B|]. split. { intros name b. rewrite Hget. destruct (decide _); [now intros [= <-]|apply Lb]. }
  split; [|exact Hs']. destruct B as [B1 B2 B3]. unfold spool_of.
  assert (forall K (OL : RustOrd K) (m : BTreeMap K Group) k, (forall x, bt_get k m = Some x -> bt_sorted x /\ x <> []) ->
    bt_sorted (default [] (bt_get k m))) as Hsd.
  { intros K OL m k H. destruct (bt_get k m); [now apply H|constructor]. }
  set (m := default [] (bt_get key (replica_blobs blobs))) in *.
  assert (bt_sorted m) as Hm by (apply Hsd, A2). 
  assert (forall g x, bt_get g m = Some x -> 0 < g) as Hpos.
  { intros g [name b] Hg. destruct (proj1 (A3 key g name b)) as [Hin Hi]; [split; [intros E; fold m in E; now rewrite E in Hg|exact Hg]|].
    apply In_bt_get in Hin; [|exact Ls]. unfold file_identity in Hi. destruct (parse_blob name) as [[]|] eqn:Hp; try discriminate.
    injection Hi as <- <-. destruct (Ln _ _ _ _ _ _ Hin Hp) as [-> [? ?]]. destruct (decide (generation = 0)) as [->|]; [congruence|lia]. }
  assert (bt_insert 0 (spool_name key 0, bs) m = (0, (spool_name key 0, bs)) :: m) as Hcons.
  { clearbody m. destruct m as [|[g x] m']; [reflexivity|]. specialize (Hpos g x). simpl in *. rewrite cmp_refl in Hpos.
    replace (cmp 0 g) with Lt; [reflexivity|]. symmetry. apply Z.compare_lt_iff, Hpos. reflexivity. }
  assert (default [] (bt_get key (replica_blobs blobs')) = bt_insert 0 (spool_name key 0, bs) m) as ->; [|now rewrite Hcons].
  apply bt_ext; [apply Hsd, B2|now apply bt_insert_sorted|]. intros g.
  assert (file_identity (spool_name key 0) = Some (key, 0)) as Hi0 by (unfold file_identity; rewrite Hp0; now destruct key).
  destruct (decide (g = 0)) as [->|Hg].
  { rewrite bt_get_insert_eq. apply (B3 key 0 (spool_name key 0) bs). split; [|exact Hi0]. apply bt_get_In. now rewrite Hget, decide_True. }
  rewrite bt_get_insert_ne by exact Hg.
  assert (forall name b, In (name, b) blobs' /\ file_identity name = Some (key, g) <-> In (name, b) blobs /\ file_identity name = Some (key, g)) as Hsame.
  { intros name b. destruct (decide (name = spool_name key 0)) as [->|Hne]; [rewrite Hi0; split; intros [_ H]; exfalso; apply Hg; congruence|].
    split; intros [H Hi]; (split; [|exact Hi]); apply bt_get_In; apply In_bt_get in H; auto; revert H; now rewrite Hget, decide_False by exact Hne. }
  destruct (bt_get g m) as [[name b]|] eqn:Ha.
  - apply (B3 key g name b), Hsame, A3. fold m. split; [|exact Ha]. intros E. now rewrite E in Ha.
  - destruct (bt_get g (default [] (bt_get key (replica_blobs blobs')))) as [[name b]|] eqn:Hb; [|reflexivity].
    rewrite <- Ha. symmetry. apply (A3 key g name b), Hsame, B3. split; [|exact Hb]. intros E. now rewrite E in Hb.
Qed.

Lemma group_bytes blobs key m g name bs : bt_sorted blobs -> (forall name b, bt_get name blobs = Some b -> all_bytes b) ->
  groups_ok file_identity blobs (replica_blobs blobs) -> In (key, m) (replica_blobs blobs) -> In (g, (name, bs)) m -> all_bytes bs.
Proof.
  intros Hs Hb [G1 G2 G3] Hin Hg. apply In_bt_get in Hin; [|exact G1]. destruct (G2 _ _ Hin) as [Hm Hne]. apply In_bt_get in Hg; [|exact Hm].
  destruct (proj1 (G3 key g name bs)) as [H _]; [rewrite Hin; auto|]. apply In_bt_get in H; eauto.
Qed.

(** A restart reads every group, and keeps no key whose files are no spool. *)
Lemma recover_group_total key m n : (forall g name bs, In (g, (name, bs)) m -> all_bytes bs) ->
  exists n', recover_replica_blobs false key m n = Ok n'
    /\ (forall k, k <> key -> bt_get k (hs_replicas (n_state n')) = bt_get k (hs_replicas (n_state n)))
    /\ ((exists e, scan_replica_spool (joined m) = Err e) -> n' = n).
Proof using CL PL.
  intros Hb. unfold recover_replica_blobs. destruct (list.last m) as [[g [name bs]]|]; [|eauto].
  assert (no_panic (scan_replica_spool (joined m))) as Hnp.
  { apply scan_loop_total; [|lia]. unfold joined. apply all_bytes_concat. intros [g' [name' bs']] Hin. exact (Hb _ _ _ Hin). }
  fold (joined m). destruct (scan_replica_spool (joined m)) as [scan|e|]; [|simpl; eauto|now destruct Hnp]. simpl.
  assert (forall k r st, k <> key -> bt_get k (hs_replicas (insert_replica key r st)) = bt_get k (hs_replicas st)) as Hins.
  { intros k r st Hk. simpl. now rewrite bt_get_insert_ne. }
  destruct (ss_truncated_tail scan); [destruct (List.find _ _) as [[[[gen start] l] name']|]; [destruct (negb _)|]|];
    (eexists; split; [reflexivity|]; split; [intros; cbn [n_state]; rewrite ?Hins by assumption; unfold truncate_blob; now try destruct (bt_contains _ _)|intros [e [=]]]).
Qed.
Lemma recover_total groups : forall n, List.NoDup (map fst groups) ->
  (forall key m g name bs, In (key, m) groups -> In (g, (name, bs)) m -> all_bytes bs) ->
  exists n', fold_outcome (fun n '(key, generations) => recover_replica_blobs false key generations n) n groups = Ok n'
    /\ forall k, (forall m, In (k, m) groups -> exists e, scan_replica_spool (joined m) = Err e) ->
       bt_get k (hs_replicas (n_state n')) = bt_get k (hs_replicas (n_state n)).
Proof using CL PL.
  induction groups as [|[key m] groups IH]; intros n Hnd Hb; simpl; [eauto|].
  simpl in Hnd. apply List.NoDup_cons_iff in Hnd as [Hnew Hnd].
  destruct (recover_group_total key m n) as (n1 & -> & Ho & Hs); [intros; eapply Hb; [left; reflexivity|eassumption]|]. simpl.
  destruct (IH n1 Hnd) as (n' & -> & Hk); [intros; eapply Hb; [right; eassumption|eassumption]|].
  exists n'. split; [reflexivity|]. intros k Hu. rewrite Hk by (intros; apply Hu; now right).
  destruct (decide (k = key)) as [->|Hne]; [|now apply Ho]. now rewrite (Hs (Hu m (or_introl eq_refl))).
Qed.
Lemma commit_appended w key info required record n n' : key_ok key -> commit_msg_ok info required record ->
  bt_get key (hs_replicas (n_state n)) = None ->
  commit w key info required record n = Ok (n', [ReplicaCommitAck key info]) ->
  required = [] /\ SpoolFrame_ok (F_commit (commit_frame key info required record))
  /\ n_blobs n' = append_bytes (spool_name key 0) (SpoolFrame_bytes (F_commit (commit_frame key info required record))) (n_blobs n).
Proof using CL PL.
  intros Hk Hm Hn H. unfold commit in H. apply outcome_bind_Ok in H as (b & _ & H). destruct (negb b); [discriminate|]. rewrite Hn in H.
  destruct (seal_commit_cases key info required record Hk Hm) as [[e He]|[Hx He]]; rewrite He in H; [discriminate|]. cbn [result_ok outcome_bind] in H.
  destruct required as [|a required]; [|discriminate]. cbn -[append_frame] in H. split; [reflexivity|]. split; [exact Hx|].
  apply outcome_bind_Ok in H as ([n1 durable] & Ha & H). destruct durable; [injection H as <-|discriminate].
  unfold append_frame, append_plan in Ha. rewrite Hn in Ha. simpl from_option in Ha. destruct (_ <? _); [discriminate|].
  cbn [negb andb Z.eqb Z.b2z] in Ha. apply outcome_bind_Ok in Ha as ([st reserved] & _ & Ha). destruct (negb reserved); [discriminate|].
  unfold Blobs_append in Ha. destruct (w_append w); [|discriminate|discriminate].
  apply outcome_bind_Ok in Ha as (r & _ & [= <-]). reflexivity.
Qed.

End Leftover.
