(* ===== verification/ReplicaRecovery.v ===== *)
(** * Recovery from a peer's spool ([replica_recovery.rs], [engine/recovery_policy.rs])

    When a primary is lost, an operator exports the newest complete commit from
    the spools its peers hold, claims the volume's head and publishes the
    recovered state as an archive. *)

From stdpp Require Import gmap pretty.
From Stdlib Require String.
From S2P Require Import Prelude Format Types Sorting OrdMap Text Head Blx BlxFile BlxScan Manifest Layout.
From S2P Require Import PageFile Journal ReplicaSpool.

#[local] Open Scope string_scope.
#[local] Open Scope Z_scope.

Abbreviation StoreObjects := (gmap string bytes).
Record ReplicaResidue := {
  rr_source : Z;
  rr_peer : Z;
  rr_assignment_epoch : Z;
  rr_bytes : bytes }.
Record ReplicaInventory := {
  ri_peer : Z;
  ri_assignment_epoch : Z;
  ri_committed : option ReplicaCommitInfo;
  ri_valid_bytes : Z;
  ri_torn_tail : bool }.
Record ReplicaExport := {
  re_source_peer : Z;
  re_assignment_epoch : Z;
  re_info : ReplicaCommitInfo;
  re_sync_covered_through : Z;
  re_blobs : list (string * bytes) }.
Inductive ReplicaRecoveryStatus := Recovery_Complete | Recovery_Incomplete.
Record ReplicaRecoveryReport := {
  rep_status : ReplicaRecoveryStatus;
  rep_inventories : list ReplicaInventory;
  rep_chosen_source : option Z;
  rep_chosen_assignment_epoch : option Z;
  rep_covered_sync_through : option Z;
  rep_missing_objects : list string;
  rep_corrupt_objects : list string }.
Record ReplicaRecoveryClaim := {
  rc_expected_version : Z;
  rc_head : HeadRecord }.
Record ReplicaPublication := {
  rpub_export : ReplicaExport;
  rpub_store_objects : list (string * bytes);
  rpub_head : HeadRecord }.
Inductive ReplicaRecoveryError :=
| Recovery_NoAssignment
| Recovery_UnnamedPeer (peer : Z)
| Recovery_StaleAssignment (peer assignment_epoch : Z)
| Recovery_CorruptSpool (peer : Z)
| Recovery_NoCommit
| Recovery_StoreRecoveryPointNewer
| Recovery_MissingObject (key : string)
| Recovery_CorruptObject (key : string).

(** ** [engine/recovery_policy.rs] *)
Inductive Verdict := Verdict_Resume (epoch vmstate : Z) | Verdict_ColdBoot.
Definition record_verdict (record : JournalRecord) : Verdict :=
  match jr_kind record with
  | Kind_Checkpoint epoch vmstate _ =>
      if bool_decide (vc_kind (jr_config record) = VolumeKind_Memory)
         && (jr_sync_covered_through record <=? jr_capture_seq record)
      then Verdict_Resume epoch vmstate else Verdict_ColdBoot
  | Kind_Commit => Verdict_ColdBoot
  end.
Definition recovery_metadata (record : JournalRecord) : RecoveryKind * Z * Z :=
  match jr_kind record with
  | Kind_Checkpoint epoch _ vmstate_logical_length =>
      if bool_decide (vc_kind (jr_config record) = VolumeKind_Memory)
         && match record_verdict record with Verdict_Resume _ _ => true | Verdict_ColdBoot => false end
      then (Recovery_Whole, epoch, vmstate_logical_length)
      else (Recovery_DiskOnly, 0, 0)
  | Kind_Commit => (Recovery_DiskOnly, 0, 0)
  end.

Definition manifest_verdict (kind : RecoveryKind) (epoch vmstate : Z) : Verdict * RecordKind :=
  match kind with
  | Recovery_Whole => (Verdict_Resume epoch vmstate, Kind_Checkpoint epoch vmstate vmstate)
  | Recovery_DiskOnly => (Verdict_ColdBoot, Kind_Commit)
  end.

(** ** The claim *)
Definition prepare_replica_recovery_claim (observed_version : Z) (observed_head : HeadRecord)
    (claimant : Z) (export : ReplicaExport) : ReplicaRecoveryClaim :=
  {| rc_expected_version := observed_version;
     rc_head :=
       {| head_volume := head_volume observed_head; head_holder := claimant; head_fence := 0;
          head_manifest := head_manifest observed_head;
          head_stash :=
            option_map (fun observed_assignment =>
              {| sa_assignment_epoch := re_assignment_epoch export;
                 sa_active_peer := re_source_peer export;
                 sa_active_assignment_epoch := re_assignment_epoch export;
                 sa_transition_peer := None;
                 sa_membership_epoch := sa_membership_epoch observed_assignment |})
              (head_stash observed_head);
          head_retired_stashes :=
            match head_stash observed_head with
            | Some _ => []
            | None => head_retired_stashes observed_head
            end |} |}.

(** Rank of a recovery point: coverage, capture, sequence. *)
Abbreviation Rank := (Z * (Z * Z))%type.
Abbreviation Candidate := (Rank * ReplicaResidue * ReplicaSpoolScan)%type.

Section Recovery.
Context `{C : Crc} `{L : Lz4} `{P : PageSize}.

Definition recovered {A} (e : ReplicaRecoveryError) {E} (c : outcome E A)
  : outcome ReplicaRecoveryError A := map_err (fun _ => e) c.

(** ** Choosing and verifying an export *)
Definition verify_scan_identity (source volume : Z) (residue : ReplicaResidue) (scan : ReplicaSpoolScan)
  : outcome ReplicaRecoveryError unit :=
  let identity_ok :=
    (rr_source residue =? source)
    && forallb (fun frame => (af_source frame =? rr_source residue) && (af_volume frame =? volume)
                             && (af_assignment_epoch frame =? rr_assignment_epoch residue))
         (bt_values (ss_artifacts scan))
    && forallb (fun commit => (cf_source commit =? rr_source residue) && (cf_volume commit =? volume)
                              && (cf_assignment_epoch commit =? rr_assignment_epoch residue))
         (ss_commits scan) in
  check? identity_ok or Recovery_CorruptSpool (rr_peer residue) in Ok tt.
Definition inventory_replica (source volume : Z) (residue : ReplicaResidue)
  : outcome ReplicaRecoveryError ReplicaInventory :=
  let? scan := recovered (Recovery_CorruptSpool (rr_peer residue)) (scan_replica_spool (rr_bytes residue)) in
  let? _ := verify_scan_identity source volume residue scan in
  Ok {| ri_peer := rr_peer residue; ri_assignment_epoch := rr_assignment_epoch residue;
        ri_committed := option_map cf_info (list.last (ss_commits scan));
        ri_valid_bytes := ss_valid_len scan; ri_torn_tail := ss_truncated_tail scan |}.

(** [BTreeMap<HostId, BTreeSet<u64>>] of the assignments a head names. *)
Definition allow (peer epoch : Z) (allowed : BTreeMap Z (BTreeSet Z)) : BTreeMap Z (BTreeSet Z) :=
  bt_update peer [] (fun epochs => bt_insert epoch tt epochs) allowed.
Definition allowed_replica_epochs (head : HeadRecord) (assignment : StashAssignment)
  : BTreeMap Z (BTreeSet Z) :=
  let allowed := allow (sa_active_peer assignment) (sa_active_assignment_epoch assignment) [] in
  let allowed :=
    match sa_transition_peer assignment with
    | Some peer => allow peer (sa_assignment_epoch assignment) allowed
    | None => allowed
    end in
  fold_left (fun allowed retired => allow (rs_peer retired) (rs_assignment_epoch retired) allowed)
    (head_retired_stashes head) allowed.

Definition commit_rank (commit : ReplicaCommitFrame) (record : JournalRecord) : Rank :=
  (rci_sync_covered_through (cf_info commit), (jr_capture_seq record, rci_seq (cf_info commit))).

(** The loop over the residues, for one residue. *)
Definition examine_residue (source volume head_version : Z) (head : HeadRecord)
    (assignment : StashAssignment) (candidates : list Candidate) (residue : ReplicaResidue)
  : outcome ReplicaRecoveryError (list Candidate) :=
  let allowed := allowed_replica_epochs head assignment in
  let named := match bt_get (rr_peer residue) allowed with
               | Some epochs => bt_contains (rr_assignment_epoch residue) epochs
               | None => false
               end in
  let possible_offline_replacement := sa_assignment_epoch assignment <? rr_assignment_epoch residue in
  if negb named && negb possible_offline_replacement then
    Err (if bt_contains (rr_peer residue) allowed
         then Recovery_StaleAssignment (rr_peer residue) (rr_assignment_epoch residue)
         else Recovery_UnnamedPeer (rr_peer residue))
  else
  let? scan := recovered (Recovery_CorruptSpool (rr_peer residue)) (scan_replica_spool (rr_bytes residue)) in
  let? _ := verify_scan_identity source volume residue scan in
  match list.last (ss_commits scan) with
  | Some commit =>
      let? record := recovered (Recovery_CorruptSpool (rr_peer residue))
                       (JournalRecord_decode volume (cf_record commit)) in
      if negb named
         && (negb (head_holder head =? source)
             || negb (rci_writer_fence (cf_info commit) =? head_version)
             || negb (jr_fence record =? head_version)
             || negb (jr_seq record =? rci_seq (cf_info commit))
             || negb (jr_sync_covered_through record =? rci_sync_covered_through (cf_info commit)))
      then Err (Recovery_StaleAssignment (rr_peer residue) (rr_assignment_epoch residue))
      else Ok (candidates ++ [(commit_rank commit record, residue, scan)])%list
  | None =>
      if negb named
      then Err (Recovery_StaleAssignment (rr_peer residue) (rr_assignment_epoch residue))
      else Ok candidates
  end.

(** The recovery point the head itself names. *)
Definition store_rank (volume : Z) (ptr : ManifestPtr) (store_objects : StoreObjects)
  : outcome ReplicaRecoveryError Rank :=
  let key := ManifestPtr_manifest_key ptr volume in
  let? bs := ok_or (store_objects !! key) (Recovery_MissingObject key) in
  check? checksum64 bs =? mp_checksum ptr or Recovery_CorruptObject key in
  let? store_record := recovered (Recovery_CorruptObject key) (Manifest_decode volume bs) in
  check? bool_decide ((m_writer_fence store_record, m_archive_seq store_record, m_capture_seq store_record)
                      = (mp_fence ptr, mp_seq ptr, mp_capture_seq ptr)) or Recovery_CorruptObject key in
  Ok (m_sync_covered_through store_record, (m_capture_seq store_record, m_archive_seq store_record)).

Definition artifact_of (scan : ReplicaSpoolScan) (artifact : ReplicaArtifact) (store_key : string)
    (store_objects : StoreObjects) : outcome ReplicaRecoveryError bytes :=
  ok_or (match bt_get artifact (ss_artifacts scan) with
         | Some frame => Some (af_bytes frame)
         | None => store_objects !! store_key
         end) (Recovery_MissingObject store_key).
Definition scans_as (volume fence object : Z) (bs : bytes) : outcome ReplicaRecoveryError bool :=
  let? scanned := result_ok (scan_page_file bs) in
  Ok match scanned with
     | Some (got_volume, got_fence, got_seg, _) =>
         bool_decide ((got_volume, got_fence, got_seg) = (volume, fence, object))
     | None => false
     end.
Definition needed_files (volume : Z) (record : JournalRecord) : BTreeSet ObjectIdentity :=
  bts_collect (map or_identity
    (List.filter (fun file => bool_decide (oi_namespace_kind (or_identity file) = Namespace_Volume)
                              && (oi_namespace_id (or_identity file) =? volume)) (jr_files record))).
Definition export_file (volume : Z) (scan : ReplicaSpoolScan) (store_objects : StoreObjects)
    (blobs : BTreeMap string bytes) (identity : ObjectIdentity)
  : outcome ReplicaRecoveryError (BTreeMap string bytes) :=
  let fence := oi_writer_fence identity in
  let object := oi_object_id identity in
  let key := blx_key volume fence object in
  let? bs := artifact_of scan (Blx fence object) key store_objects in
  let? intact := scans_as volume fence object bs in
  if negb intact then Err (Recovery_CorruptObject key) else
  Ok (bt_insert (blx_blob volume fence object) bs blobs).
Definition export_commit (volume : Z) (residue : ReplicaResidue) (scan : ReplicaSpoolScan)
    (commit : ReplicaCommitFrame) (store_objects : StoreObjects)
  : outcome ReplicaRecoveryError ReplicaExport :=
  let? record := recovered (Recovery_CorruptSpool (rr_peer residue))
                   (JournalRecord_decode volume (cf_record commit)) in
  let? blobs := fold_outcome (export_file volume scan store_objects) []
                  (bt_keys (needed_files volume record)) in
  let blobs := bt_insert (journal_blob volume (jr_fence record) (jr_seq record)) (cf_record commit) blobs in
  let blobs := bt_insert (journal_mirror_blob volume (jr_fence record) (jr_seq record)) (cf_record commit) blobs in
  Ok {| re_source_peer := rr_peer residue; re_assignment_epoch := rr_assignment_epoch residue;
        re_info := cf_info commit;
        re_sync_covered_through := rci_sync_covered_through (cf_info commit);
        re_blobs := blobs |}.

Definition candidate_leb (a b : Candidate) : bool := cmp_leb a.1.1 b.1.1.
Definition export_replica_recovery (source volume head_version : Z) (head : HeadRecord)
    (residues : list ReplicaResidue) (store_objects : StoreObjects)
  : outcome ReplicaRecoveryError ReplicaExport :=
  let? assignment := ok_or (head_stash head) Recovery_NoAssignment in
  let? candidates := fold_outcome (examine_residue source volume head_version head assignment) [] residues in
  match list.last (sort_by candidate_leb candidates) with
  | None => Err Recovery_NoCommit
  | Some (_, residue, scan) =>
      let? commit := expect (list.last (ss_commits scan)) in
      let? _ :=
        match head_manifest head with
        | None => Ok tt
        | Some ptr =>
            let? store := store_rank volume ptr store_objects in
            let? peer_record := recovered (Recovery_CorruptSpool (rr_peer residue))
                                  (JournalRecord_decode volume (cf_record commit)) in
            check? negb (cmp_ltb (commit_rank commit peer_record) store)
              or Recovery_StoreRecoveryPointNewer in
            Ok tt
        end in
      export_commit volume residue scan commit store_objects
  end.

(** ** The operator's report *)
(** The loop over the residues: the inventories, the corrupt spools and the
    best commit so far with its rank. *)
Abbreviation Best := (Z * Z * Z * Z)%type.
Definition peer_label (peer : Z) : string := "peer:" ++ pretty peer.
Definition residue_label (residue : ReplicaResidue) : string :=
  peer_label (rr_peer residue) ++ "/assignment:" ++ pretty (rr_assignment_epoch residue).
Definition report_residue (source volume : Z)
    (s : list ReplicaInventory * list string * option Best) (residue : ReplicaResidue)
  : outcome ReplicaRecoveryError (list ReplicaInventory * list string * option Best) :=
  let '(inventories, corrupt, best) := s in
  match inventory_replica source volume residue with
  | Ok inventory =>
      let best :=
        match ri_committed inventory with
        | Some info =>
            let rank := (rci_sync_covered_through info, rci_seq info) in
            if match best with
               | None => true
               | Some (covered, seq, _, _) => cmp_ltb (covered, seq) rank
               end
            then Some (rank, rr_peer residue, rr_assignment_epoch residue)
            else best
        | None => best
        end in
      Ok ((inventories ++ [inventory])%list, corrupt, best)
  | Err _ =>
      Ok (inventories,
          (corrupt ++ [residue_label residue])%list, best)
  | Panic => Panic
  end.
Definition sort_dedup (l : list string) : list string := dedup_by String.eqb (sort_by cmp_leb l).
Definition report_replica_recovery (source volume head_version : Z) (head : HeadRecord)
    (residues : list ReplicaResidue) (store_objects : StoreObjects)
  : outcome ReplicaRecoveryError ReplicaRecoveryReport :=
  let? (inventories, corrupt, best) := fold_outcome (report_residue source volume) ([], [], None) residues in
  let report (status : ReplicaRecoveryStatus) (chosen : option (Z * Z * Z)) (missing corrupt : list string) :=
    {| rep_status := status; rep_inventories := inventories;
       rep_chosen_source := option_map (fun c => c.1.1) chosen;
       rep_chosen_assignment_epoch := option_map (fun c => c.1.2) chosen;
       rep_covered_sync_through := option_map snd chosen;
       rep_missing_objects := sort_dedup missing; rep_corrupt_objects := sort_dedup corrupt |} in
  let best := option_map (fun '(covered, _, peer, epoch) => (peer, epoch, covered)) best in
  match export_replica_recovery source volume head_version head residues store_objects with
  | Ok export =>
      Ok (report Recovery_Complete
            (Some (re_source_peer export, re_assignment_epoch export, re_sync_covered_through export))
            [] corrupt)
  | Err (Recovery_MissingObject key) => Ok (report Recovery_Incomplete best [key] corrupt)
  | Err (Recovery_CorruptObject key) => Ok (report Recovery_Incomplete best [] (corrupt ++ [key])%list)
  | Err (Recovery_CorruptSpool peer) =>
      Ok (report Recovery_Incomplete best [] (corrupt ++ [peer_label peer])%list)
  | Err _ => Ok (report Recovery_Incomplete best [] corrupt)
  | Panic => Panic
  end.

(** ** Publication *)
Definition is_journal (name : string) : bool :=
  match parse_blob name with Some (Blob_Journal _ _ _) => true | _ => false end.
Definition is_blx (name : string) : bool :=
  match parse_blob name with Some (Blob_Blx _ _ _) => true | _ => false end.
Definition recovery_journal : ReplicaRecoveryError := Recovery_CorruptObject "recovery journal".
Definition with_fence (r : JournalRecord) (fence : Z) : JournalRecord :=
  {| jr_config := jr_config r; jr_seq := jr_seq r; jr_fence := fence; jr_kind := jr_kind r;
     jr_capture_seq := jr_capture_seq r; jr_sync_covered_through := jr_sync_covered_through r;
     jr_post_state_checksum := jr_post_state_checksum r; jr_files := jr_files r;
     jr_runtime_page_index := jr_runtime_page_index r; jr_migrated_from := jr_migrated_from r |}.
Definition refence_replica_export (volume : Z) (export : ReplicaExport) (new_fence : Z)
  : outcome ReplicaRecoveryError ReplicaExport :=
  let? found := ok_or (List.find (fun x => is_journal x.1) (re_blobs export)) Recovery_NoCommit in
  let? record := recovered recovery_journal (JournalRecord_decode volume found.2) in
  let record := with_fence record new_fence in
  let? record_bytes := JournalRecord_encode record volume in
  let blobs := (List.filter (fun x => negb (is_journal x.1)) (re_blobs export)
                ++ [(journal_blob volume new_fence (jr_seq record), record_bytes);
                    (journal_mirror_blob volume new_fence (jr_seq record), record_bytes)])%list in
  Ok {| re_source_peer := re_source_peer export; re_assignment_epoch := re_assignment_epoch export;
        re_info := {| rci_writer_fence := new_fence; rci_seq := rci_seq (re_info export);
                      rci_sync_covered_through := rci_sync_covered_through (re_info export) |};
        re_sync_covered_through := re_sync_covered_through export;
        re_blobs := sort_by (fun a b => cmp_leb a.1 b.1) blobs |}.

Definition publication_record (volume writer_fence : Z) (export : ReplicaExport)
  : outcome ReplicaRecoveryError (JournalRecord * bytes) :=
  let? found := ok_or (List.find (fun x => match parse_blob x.1 with
                                           | Some (Blob_Journal _ fence _) => fence =? writer_fence
                                           | _ => false
                                           end) (re_blobs export)) Recovery_NoCommit in
  let? record := recovered recovery_journal (JournalRecord_decode volume found.2) in
  Ok (record, found.2).

Definition recovery_batch (volume writer_fence : Z) (record : JournalRecord) : BatchMeta :=
  {| bm_namespace_kind := Namespace_Volume; bm_namespace_id := volume;
     bm_writer_fence := writer_fence; bm_first_object_id := u64_MAX - 1024;
     bm_min_seq := jr_seq record; bm_max_seq := jr_seq record; bm_batch_id := u64_MAX - 1024;
     bm_pre_state_checksum := jr_post_state_checksum record;
     bm_post_state_checksum := jr_post_state_checksum record |}.
Definition recovery_manifest (volume writer_fence : Z) (record : JournalRecord) (record_bytes : bytes)
    (list : FileListRef) : Manifest :=
  let '(recovery_kind, checkpoint_epoch, vmstate_logical_length) := recovery_metadata record in
  {| m_volume := volume; m_writer_fence := writer_fence; m_journal_seq := jr_seq record;
     m_archive_seq := jr_seq record; m_capture_seq := jr_capture_seq record;
     m_sync_covered_through := jr_sync_covered_through record; m_recovery_kind := recovery_kind;
     m_checkpoint_epoch := checkpoint_epoch; m_config := jr_config record;
     m_vmstate_logical_length := vmstate_logical_length; m_base := None;
     m_complete_list := Some list; m_post_state_checksum := jr_post_state_checksum record;
     m_metadata_checksum := checksum64 record_bytes; m_added := []; m_removed := [] |}.
Definition build_replica_archive (volume writer_fence : Z) (record : JournalRecord)
    (record_bytes : bytes) (export : ReplicaExport)
  : outcome ReplicaRecoveryError (list (string * bytes) * ManifestPtr) :=
  if jr_capture_seq record <? jr_sync_covered_through record then Err recovery_journal else
  let? inputs := collect_outcome (fun x => recovered (Recovery_CorruptObject x.1) (BlxObject_open x.2))
                   (List.filter (fun x => is_blx x.1) (re_blobs export)) in
  let? compacted := recovered (Recovery_CorruptObject "recovery blx")
                      (compact_objects (recovery_batch volume writer_fence record) inputs true) in
  let? objects := collect_outcome ObjectRef_from_blx compacted in
  let list := {| cfl_volume := volume; cfl_writer_fence := writer_fence; cfl_list_id := jr_seq record;
                 cfl_objects := objects |} in
  let? list_bytes := CompleteFileList_encode list in
  let? reference := CompleteFileList_reference list in
  let archive := recovery_manifest volume writer_fence record record_bytes reference in
  let? archive_bytes := recovered (Recovery_CorruptObject "recovery manifest") (Manifest_encode archive) in
  let manifest := Manifest_pointer archive archive_bytes in
  Ok ((zip_with (fun reference object => (ObjectIdentity_store_key (or_identity reference), bo_bytes object))
         objects compacted
       ++ [(complete_file_list_key volume writer_fence (jr_seq record), list_bytes);
           (manifest_key volume (mp_fence manifest) (mp_seq manifest), archive_bytes)])%list,
      manifest).

Definition prepare_replica_publication (volume claimant writer_fence : Z) (claimed_head : HeadRecord)
    (export : ReplicaExport) : outcome ReplicaRecoveryError ReplicaPublication :=
  let recovered_stash := {| rs_peer := re_source_peer export;
                            rs_assignment_epoch := re_assignment_epoch export;
                            rs_through := re_info export |} in
  let? export := refence_replica_export volume export writer_fence in
  let? (record, record_bytes) := publication_record volume writer_fence export in
  let? (store_objects, manifest) := build_replica_archive volume writer_fence record record_bytes export in
  Ok {| rpub_export := export; rpub_store_objects := store_objects;
        rpub_head := {| head_volume := volume; head_holder := claimant; head_fence := writer_fence;
                        head_manifest := Some manifest; head_stash := None;
                        head_retired_stashes := [recovered_stash] |} |}.
End Recovery.
