(* ===== verification/RecoverySafety.v ===== *)
(** * What recovery from a peer guarantees

    The export picks the newest complete commit among spools the head vouches
    for and contains everything it needs; publication turns it into an archive
    whose closure reads back as the recovered state. *)

From stdpp Require Import gmap.
From Stdlib Require String.
From S2P Require Import Prelude Format Types Sorting OrdMap Text Head Blx BlxFile BlxBatch BlxScan Manifest Layout.
From S2P Require Import ManifestCodec BatchRefs ManifestClosure PageFile Journal JournalFormat ReplicaSpool.
From S2P Require Import SpoolSafety ReplicaRecovery.

#[local] Open Scope Z_scope.

(** ** The assignments a head vouches for *)
Definition named_assignments (head : HeadRecord) (assignment : StashAssignment) : list (Z * Z) :=
  (sa_active_peer assignment, sa_active_assignment_epoch assignment)
  :: match sa_transition_peer assignment with
     | Some peer => [(peer, sa_assignment_epoch assignment)]
     | None => []
     end
  ++ map (fun retired => (rs_peer retired, rs_assignment_epoch retired)) (head_retired_stashes head).
Definition names (allowed : BTreeMap Z (BTreeSet Z)) (peer epoch : Z) : bool :=
  match bt_get peer allowed with Some epochs => bt_contains epoch epochs | None => false end.

Lemma names_allow allowed p e peer epoch :
  names (allow p e allowed) peer epoch = true <-> (peer, epoch) = (p, e) \/ names allowed peer epoch = true.
Proof.
  unfold names, allow, bt_update. destruct (decide (peer = p)) as [->|Hp].
  - rewrite bt_get_insert_eq. unfold bt_contains. destruct (decide (epoch = e)) as [->|He].
    + rewrite bt_get_insert_eq. tauto.
    + rewrite bt_get_insert_ne by exact He. destruct (bt_get p allowed) as [es|]; simpl.
      * split; [tauto|]. intros [[=]|]; [easy|assumption].
      * split; [discriminate|]. intros [[=]|]; [easy|assumption].
  - rewrite bt_get_insert_ne by exact Hp. split; [tauto|]. intros [[=]|]; [easy|assumption].
Qed.
Lemma names_retired retired : forall allowed peer epoch,
  names (fold_left (fun allowed retired => allow (rs_peer retired) (rs_assignment_epoch retired) allowed)
           retired allowed) peer epoch = true
  <-> In (peer, epoch) (map (fun r => (rs_peer r, rs_assignment_epoch r)) retired)
      \/ names allowed peer epoch = true.
Proof.
  induction retired as [|r rs IH]; intros allowed peer epoch; simpl; [tauto|].
  rewrite IH, names_allow. intuition congruence.
Qed.
Lemma allowed_named head assignment peer epoch :
  names (allowed_replica_epochs head assignment) peer epoch = true
  <-> In (peer, epoch) (named_assignments head assignment).
Proof.
  unfold allowed_replica_epochs, named_assignments. rewrite names_retired. simpl. rewrite in_app_iff.
  assert (names [] peer epoch = true <-> False) as Hnil by (simpl; split; [discriminate|tauto]).
  destruct (sa_transition_peer assignment); rewrite !names_allow, Hnil; simpl; intuition congruence.
Qed.

(** ** The chosen commit *)
Section Exporting.
Context `{C : Crc} `{CL : !CrcLaws C} `{L : Lz4} `{P : PageSize} `{PL : !PageSizeLaws P}.

(** A residue the loop accepts, with what its spool says. An assignment the
    head does not name must be newer than the head's and prove by its fences
    that it replaced the peer while the store was out of reach. *)
Definition vouched (source version : Z) (head : HeadRecord) (assignment : StashAssignment)
    (residue : ReplicaResidue) (commit : ReplicaCommitFrame) (record : JournalRecord) : Prop :=
  In (rr_peer residue, rr_assignment_epoch residue) (named_assignments head assignment)
  \/ (sa_assignment_epoch assignment < rr_assignment_epoch residue
      /\ head_holder head = source /\ rci_writer_fence (cf_info commit) = version
      /\ jr_fence record = version).
Definition spool_says (source volume : Z) (residue : ReplicaResidue) (scan : ReplicaSpoolScan)
    (commit : ReplicaCommitFrame) (record : JournalRecord) : Prop :=
  rr_source residue = source /\ scan_replica_spool (rr_bytes residue) = Ok scan
  /\ verify_scan_identity source volume residue scan = Ok tt
  /\ list.last (ss_commits scan) = Some commit
  /\ JournalRecord_decode volume (cf_record commit) = Ok record.

Lemma recovered_Ok {A E} e (c : outcome E A) x : recovered e c = Ok x <-> c = Ok x.
Proof. destruct c; simpl; split; congruence. Qed.
Lemma scan_identity_source source volume residue scan :
  verify_scan_identity source volume residue scan = Ok tt -> rr_source residue = source.
Proof.
  unfold verify_scan_identity. destruct (Z.eqb_spec (rr_source residue) source); [auto|].
  simpl. discriminate.
Qed.

Lemma examine_Ok source volume version head assignment candidates residue candidates' :
  examine_residue source volume version head assignment candidates residue = Ok candidates' ->
  (exists scan commit record, spool_says source volume residue scan commit record
     /\ vouched source version head assignment residue commit record
     /\ candidates' = candidates ++ [(commit_rank commit record, residue, scan)])
  \/ (exists scan, scan_replica_spool (rr_bytes residue) = Ok scan /\ ss_commits scan = []
      /\ In (rr_peer residue, rr_assignment_epoch residue) (named_assignments head assignment)
      /\ candidates' = candidates).
Proof.
  unfold examine_residue.
  fold (names (allowed_replica_epochs head assignment) (rr_peer residue) (rr_assignment_epoch residue)).
  destruct (names _ _ _) eqn:Hn.
  - apply allowed_named in Hn. cbn [negb andb].
    intros (scan & Hs%recovered_Ok & H)%outcome_bind_Ok. apply outcome_bind_Ok in H as ([] & Hv & H).
    destruct (list.last (ss_commits scan)) as [commit|] eqn:Hl.
    + apply outcome_bind_Ok in H as (record & Hr%recovered_Ok & [= <-]). left.
      exists scan, commit, record. repeat split; auto; [|now left]. eapply scan_identity_source; eauto.
    + injection H as <-. right. exists scan. apply last_None in Hl. auto.
  - cbn [negb]. destruct (Z.ltb_spec (sa_assignment_epoch assignment) (rr_assignment_epoch residue)) as [He|];
      [cbn [negb andb]|discriminate].
    intros (scan & Hs%recovered_Ok & H)%outcome_bind_Ok. apply outcome_bind_Ok in H as ([] & Hv & H).
    destruct (list.last (ss_commits scan)) as [commit|] eqn:Hl; [|discriminate].
    apply outcome_bind_Ok in H as (record & Hr%recovered_Ok & H).
    destruct (_ || _) eqn:Hor in H; [discriminate|]. injection H as <-.
    rewrite !orb_false_iff, !negb_false_iff, !Z.eqb_eq in Hor. destruct Hor as ((((? & ?) & ?) & _) & _).
    left. exists scan, commit, record. repeat split; auto; [|right; auto].
    eapply scan_identity_source; eauto.
Qed.

Definition candidate_from (source volume version : Z) (head : HeadRecord) (assignment : StashAssignment)
    (residues : list ReplicaResidue) (c : Candidate) : Prop :=
  exists commit record, In c.1.2 residues /\ spool_says source volume c.1.2 c.2 commit record
    /\ vouched source version head assignment c.1.2 commit record /\ c.1.1 = commit_rank commit record.
Lemma examine_residues source volume version head assignment residues : forall before candidates candidates',
  (forall c, In c candidates <-> candidate_from source volume version head assignment before c) ->
  fold_outcome (examine_residue source volume version head assignment) candidates residues = Ok candidates' ->
  forall c, In c candidates' <-> candidate_from source volume version head assignment (before ++ residues) c.
Proof.
  induction residues as [|r rs IH]; intros before candidates candidates' Hc H; simpl in H.
  { injection H as <-. rewrite app_nil_r. exact Hc. }
  apply outcome_bind_Ok in H as (cs & Hx & H).
  rewrite (app_assoc before [r] rs : before ++ r :: rs = _). apply (IH _ cs); [|exact H]. clear IH H.
  assert (forall c, candidate_from source volume version head assignment (before ++ [r]) c
    <-> In c candidates \/ (c.1.2 = r /\ candidate_from source volume version head assignment [r] c)) as Hsplit.
  { intros c. rewrite Hc. unfold candidate_from. setoid_rewrite in_app_iff. simpl. split.
    - intros (commit & record & [Hin|[<-|[]]] & H); [left|right]; eauto 10.
    - intros [(commit & record & Hin & H)|(_ & commit & record & Hin & H)]; eauto 10. }
  intros c. rewrite Hsplit.
  apply examine_Ok in Hx as [(scan & commit & record & Hs & Hv & ->)|(scan & Hs & Hn & _ & ->)].
  - rewrite in_app_iff. simpl. split.
    + intros [Hin|[<-|[]]]; [now left|right]. split; [reflexivity|]. exists commit, record. simpl. auto.
    + intros [Hin|(Hr & commit' & record' & _ & Hs' & _ & Hrank)]; [now left|]. right. left.
      destruct c as [[rk r'] s']. simpl in *. subst.
      destruct Hs as (_ & Hs1 & _ & Hs2 & Hs3), Hs' as (_ & Hs1' & _ & Hs2' & Hs3'). congruence.
  - split; [now left|]. intros [Hin|(Hr & commit' & record' & _ & Hs' & _)]; [exact Hin|].
    destruct Hs' as (_ & Hs1 & _ & Hs2 & _). rewrite Hr, Hs in Hs1. injection Hs1 as Hs1.
    rewrite <- Hs1, Hn in Hs2. discriminate.
Qed.
Lemma fold_outcome_each {A E B} (step : A -> B -> outcome E A) l : forall a a' x,
  fold_outcome step a l = Ok a' -> In x l -> exists b b', step b x = Ok b'.
Proof.
  induction l as [|y l IH]; intros a a' x H Hin; [destruct Hin|].
  simpl in H. apply outcome_bind_Ok in H as (b & Hb & H). destruct Hin as [<-|Hin]; eauto.
Qed.
(** No spool is passed over: the export fails unless the head vouches for
    every one that has a commit. *)
Lemma all_vouched source volume version head assignment residues candidates residue scan commit record :
  fold_outcome (examine_residue source volume version head assignment) [] residues = Ok candidates ->
  In residue residues -> spool_says source volume residue scan commit record ->
  vouched source version head assignment residue commit record.
Proof.
  intros H Hin (_ & Hs & _ & Hl & Hd). destruct (fold_outcome_each _ _ _ _ _ H Hin) as (b & b' & Hx).
  apply examine_Ok in Hx as [(scan' & commit' & record' & (_ & Hs' & _ & Hl' & Hd') & Hv & _)
                            |(scan' & Hs' & Hn & _)].
  - rewrite Hs in Hs'. injection Hs' as <-. rewrite Hl in Hl'. injection Hl' as <-.
    rewrite Hd in Hd'. now injection Hd' as <-.
  - rewrite Hs in Hs'. injection Hs' as <-. now rewrite Hn in Hl.
Qed.

Lemma candidate_leb_total a b : candidate_leb a b = true \/ candidate_leb b a = true.
Proof.
  unfold candidate_leb. rewrite !cmp_leb_le.
  destruct (cmp a.1.1 b.1.1) eqn:E; [apply cmp_eq in E as ->|auto|apply cmp_gt_lt in E]; auto.
Qed.
Lemma candidate_leb_trans a b c :
  candidate_leb a b = true -> candidate_leb b c = true -> candidate_leb a c = true.
Proof. unfold candidate_leb. apply cmp_le_trans. Qed.
Lemma sorted_last {A} (leb : A -> A -> bool) l x y :
  (forall a, leb a a = true) -> Sorted.StronglySorted (fun a b => leb a b = true) l ->
  list.last l = Some x -> In y l -> leb y x = true.
Proof.
  intros Hrefl. induction 1 as [|a l Hs IH Ha]; [discriminate|].
  destruct l as [|b l]; [intros [= <-] [<-|[]]; apply Hrefl|].
  intros Hl [<-|Hin]; [|now apply IH].
  rewrite List.Forall_forall in Ha. apply Ha, list_elem_of_In. now apply last_Some_elem_of.
Qed.
(** The last of the sorted candidates is the newest of all. *)
Lemma choose_newest candidates c :
  list.last (sort_by candidate_leb candidates) = Some c ->
  In c candidates /\ forall c', In c' candidates -> cmp_leb c'.1.1 c.1.1 = true.
Proof.
  intros Hl. split.
  - apply (In_sort_by candidate_leb), list_elem_of_In. now apply last_Some_elem_of.
  - intros c' Hc'. apply (sorted_last candidate_leb (sort_by candidate_leb candidates)); auto.
    + intros a. destruct (candidate_leb_total a a); auto.
    + apply sort_by_sorted; [exact candidate_leb_total|exact candidate_leb_trans].
    + now apply In_sort_by.
Qed.

(** ** What is exported *)
(** The bytes a file has in the scan, or in the store when the spool does not
    hold it. *)
Definition file_bytes (volume : Z) (scan : ReplicaSpoolScan) (store_objects : StoreObjects)
    (i : ObjectIdentity) : option bytes :=
  match bt_get (Blx (oi_writer_fence i) (oi_object_id i)) (ss_artifacts scan) with
  | Some frame => Some (af_bytes frame)
  | None => store_objects !! blx_key volume (oi_writer_fence i) (oi_object_id i)
  end.
Definition file_blob (volume : Z) (i : ObjectIdentity) : string :=
  blx_blob volume (oi_writer_fence i) (oi_object_id i).
Definition intact (volume : Z) (i : ObjectIdentity) (bs : bytes) : Prop :=
  exists entries, scan_page_file bs = Ok (volume, oi_writer_fence i, oi_object_id i, entries).
Lemma export_file_Ok volume scan store blobs i blobs' :
  export_file volume scan store blobs i = Ok blobs' ->
  exists bs, file_bytes volume scan store i = Some bs /\ intact volume i bs
    /\ blobs' = bt_insert (file_blob volume i) bs blobs.
Proof.
  unfold export_file, artifact_of, scans_as. intros (bs & Hbs & H)%outcome_bind_Ok.
  fold (file_bytes volume scan store i) in Hbs.
  destruct (file_bytes volume scan store i) as [b|]; [|discriminate]. injection Hbs as <-.
  apply outcome_bind_Ok in H as (ok & Hok & H). apply outcome_bind_Ok in Hok as (r & Hr & [= <-]).
  destruct r as [[[[v f] s] es]|]; [|discriminate]. case_bool_decide as Heq; [|discriminate].
  injection H as <-. injection Heq as -> -> ->. exists b. split; [reflexivity|]. split; [|reflexivity].
  exists es. destruct (scan_page_file b); simpl in Hr; congruence.
Qed.

Definition own_file (volume : Z) (i : ObjectIdentity) : Prop :=
  oi_namespace_kind i = Namespace_Volume /\ oi_namespace_id i = volume /\ ObjectIdentity_ok i.
Lemma file_blob_parse volume i : fits W64 volume -> ObjectIdentity_ok i ->
  parse_blob (file_blob volume i) = Some (Blob_Blx volume (oi_writer_fence i) (oi_object_id i)).
Proof.
  intros Hv (_ & Hf & Ho). exact (parse_blob_name (Blob_Blx volume (oi_writer_fence i) (oi_object_id i))
    (conj Hv (conj Hf Ho))).
Qed.
Lemma file_blob_inj volume i j : fits W64 volume -> own_file volume i -> own_file volume j ->
  file_blob volume i = file_blob volume j -> i = j.
Proof.
  intros Hv (Ki & Ni & Oi) (Kj & Nj & Oj) H. pose proof (file_blob_parse volume i Hv Oi) as Hi.
  rewrite H, file_blob_parse in Hi by assumption. injection Hi as Hf Ho. destruct i, j. simpl in *. congruence.
Qed.
Lemma export_files volume scan store ids : forall blobs blobs',
  fits W64 volume -> Forall (own_file volume) ids -> List.NoDup ids ->
  fold_outcome (export_file volume scan store) blobs ids = Ok blobs' ->
  (forall i, In i ids -> exists bs, file_bytes volume scan store i = Some bs /\ intact volume i bs
     /\ bt_get (file_blob volume i) blobs' = Some bs)
  /\ (forall name, (forall i, In i ids -> name <> file_blob volume i) ->
       bt_get name blobs' = bt_get name blobs).
Proof.
  induction ids as [|i ids IH]; intros blobs blobs' Hv Hown Hnd H; simpl in H.
  { injection H as <-. split; [intros ? []|auto]. }
  apply outcome_bind_Ok in H as (b1 & (bs & Hbs & Hi & ->)%export_file_Ok & H).
  apply Forall_cons_1 in Hown as [Ho Hown]. inversion Hnd as [|? ? Hni Hnd']; subst.
  destruct (IH _ _ Hv Hown Hnd' H) as [H1 H2]. split.
  - intros j [<-|Hj]; [|now apply H1]. exists bs. split; [exact Hbs|]. split; [exact Hi|].
    rewrite H2; [apply bt_get_insert_eq|]. intros j Hj Heq. apply Hni.
    rewrite List.Forall_forall in Hown. now rewrite (file_blob_inj volume i j Hv Ho (Hown j Hj) Heq).
  - intros name Hne. rewrite H2 by (intros j Hj; apply Hne; now right).
    apply bt_get_insert_ne. apply Hne. now left.
Qed.

Lemma needed_files_spec volume record : Forall ObjectRef_ok (jr_files record) ->
  List.NoDup (bt_keys (needed_files volume record))
  /\ Forall (own_file volume) (bt_keys (needed_files volume record))
  /\ forall i, In i (bt_keys (needed_files volume record)) <->
       exists file, In file (jr_files record) /\ or_identity file = i
         /\ oi_namespace_kind i = Namespace_Volume /\ oi_namespace_id i = volume.
Proof.
  intros Hok. rewrite List.Forall_forall in Hok.
  assert (forall i, In i (bt_keys (needed_files volume record)) <->
    exists file, In file (jr_files record) /\ or_identity file = i
      /\ oi_namespace_kind i = Namespace_Volume /\ oi_namespace_id i = volume) as Hin.
  { intros i. unfold needed_files. rewrite bts_collect_keys, in_map_iff. split.
    - intros (f & <- & [Hf Hc]%filter_In). apply andb_true_iff in Hc as [Hk Hn].
      apply bool_decide_eq_true in Hk. apply Z.eqb_eq in Hn. eauto 10.
    - intros (f & Hf & <- & Hk & Hn). exists f. split; [reflexivity|]. apply filter_In. split; [exact Hf|].
      rewrite bool_decide_eq_true_2 by exact Hk. now apply Z.eqb_eq. }
  split; [apply bt_sorted_NoDup, bt_collect_sorted|]. split; [|exact Hin].
  apply List.Forall_forall. intros i Hi. apply Hin in Hi as (f & Hf & <- & Hk & Hn).
  split; [exact Hk|]. split; [exact Hn|]. apply (Hok f Hf).
Qed.

Lemma export_commit_Ok volume residue scan commit store record e :
  fits W64 volume -> all_bytes (cf_record commit) ->
  JournalRecord_decode volume (cf_record commit) = Ok record ->
  export_commit volume residue scan commit store = Ok e ->
  re_source_peer e = rr_peer residue /\ re_assignment_epoch e = rr_assignment_epoch residue
  /\ re_info e = cf_info commit
  /\ bt_get (journal_blob volume (jr_fence record) (jr_seq record)) (re_blobs e) = Some (cf_record commit)
  /\ bt_get (journal_mirror_blob volume (jr_fence record) (jr_seq record)) (re_blobs e) = Some (cf_record commit)
  /\ (forall file, In file (jr_files record) ->
       oi_namespace_kind (or_identity file) = Namespace_Volume -> oi_namespace_id (or_identity file) = volume ->
       exists bs, file_bytes volume scan store (or_identity file) = Some bs
         /\ intact volume (or_identity file) bs
         /\ bt_get (file_blob volume (or_identity file)) (re_blobs e) = Some bs).
Proof.
  intros Hv Hb Hd H. unfold export_commit in H. rewrite Hd in H. cbn [recovered map_err outcome_bind] in H.
  apply outcome_bind_Ok in H as (blobs & Hf & [= <-]). cbn [re_source_peer re_assignment_epoch re_info re_blobs].
  destruct (format_canonical (ExactFormat := JournalRecord_format volume Hv) _ _ Hb Hd) as [[Hok _] _].
  assert (Forall ObjectRef_ok (jr_files record) /\ fits W64 (jr_seq record) /\ fits W64 (jr_fence record))
    as (Hrefs & Hseq & Hfence) by (unfold JournalRecord_fields in Hok; tauto).
  destruct (needed_files_spec volume record Hrefs) as (Hnd & Hown & Hin).
  destruct (export_files volume scan store _ [] blobs Hv Hown Hnd Hf) as [H1 _].
  split; [reflexivity|]. split; [reflexivity|]. split; [reflexivity|]. split; [|split].
  - destruct (decide (journal_blob volume (jr_fence record) (jr_seq record)
      = journal_mirror_blob volume (jr_fence record) (jr_seq record))) as [->|Hne];
      [apply bt_get_insert_eq|]. rewrite bt_get_insert_ne by exact Hne. apply bt_get_insert_eq.
  - apply bt_get_insert_eq.
  - intros file Hfile Hk Hn. destruct (H1 (or_identity file)) as (bs & Hbs & Hi & Hg); [apply Hin; eauto|].
    exists bs. split; [exact Hbs|]. split; [exact Hi|].
    pose proof (file_blob_parse volume (or_identity file) Hv) as Hp.
    rewrite List.Forall_forall in Hrefs. specialize (Hp ltac:(apply (Hrefs file Hfile))).
    rewrite !bt_get_insert_ne; [exact Hg|..]; intros Heq; rewrite Heq in Hp.
    + pose proof (parse_blob_name (Blob_Journal volume (jr_fence record) (jr_seq record))) as Hj.
      simpl in Hj. rewrite Hp in Hj. specialize (Hj (conj Hv (conj Hfence Hseq))). discriminate.
    + rewrite parse_mirror_name in Hp by assumption. discriminate.
Qed.

(** What the selection settles, before the export is read. *)
Lemma export_newest source volume version head residues store e :
  export_replica_recovery source volume version head residues store = Ok e ->
  exists assignment residue scan commit record,
    head_stash head = Some assignment /\ In residue residues
    /\ spool_says source volume residue scan commit record
    /\ vouched source version head assignment residue commit record
    /\ (forall residue' scan' commit' record', In residue' residues ->
         spool_says source volume residue' scan' commit' record' ->
         cmp_leb (commit_rank commit' record') (commit_rank commit record) = true)
    /\ (forall ptr, head_manifest head = Some ptr -> exists store_point,
         store_rank volume ptr store = Ok store_point
         /\ cmp_leb store_point (commit_rank commit record) = true)
    /\ export_commit volume residue scan commit store = Ok e.
Proof.
  intros H. unfold export_replica_recovery in H.
  destruct (head_stash head) as [assignment|] eqn:Ha; [|discriminate]. cbn [ok_or outcome_bind] in H.
  apply outcome_bind_Ok in H as (candidates & Hc & H).
  pose proof (examine_residues source volume version head assignment residues [] [] candidates) as Hall.
  specialize (Hall ltac:(intros c; split; [intros []|intros (?&?&[]&_)]) Hc). cbn [app] in Hall.
  destruct (list.last (sort_by candidate_leb candidates)) as [[[rk residue] scan]|] eqn:Hl; [|discriminate].
  destruct (choose_newest _ _ Hl) as [Hin Hmax].
  apply Hall in Hin as (commit & record & Hres & Hsay & Hvouch & Hrank). cbn [fst snd] in *. subst rk.
  pose proof Hsay as (_ & Hscan & _ & Hlast & Hdec). rewrite Hlast in H. cbn [expect outcome_bind] in H.
  apply outcome_bind_Ok in H as ([] & Hstore & H).
  exists assignment, residue, scan, commit, record. do 4 (split; [auto|]). split; [|split; [|exact H]].
  - intros residue' scan' commit' record' Hin' Hsay'.
    apply (Hmax (commit_rank commit' record', residue', scan')), Hall. exists commit', record'.
    split; [exact Hin'|]. split; [exact Hsay'|]. split; [|reflexivity].
    now apply (all_vouched source volume version head assignment residues candidates residue' scan').
  - intros ptr Hptr. rewrite Hptr in Hstore. apply outcome_bind_Ok in Hstore as (point & Hp & Hstore).
    exists point. split; [exact Hp|]. rewrite Hdec in Hstore. cbn [recovered map_err outcome_bind] in Hstore.
    destruct (cmp_ltb (commit_rank commit record) point) eqn:Hlt; [discriminate|].
    now apply cmp_ltb_false in Hlt.
Qed.

(** C8. An export is the newest complete commit that the volume's head vouches
    for. When [export_replica_recovery] succeeds, it took the last commit of
    one of the given spools: the head names that peer and assignment (active,
    in transition or retired), or the assignment is newer than the head's and
    its fences prove that the head's holder made it under the head's version;
    no given spool ends in a commit of higher rank, and the store's own
    manifest is not newer either. The exported blobs hold its journal record
    under both names and, for every file of the volume the record lists, bytes
    that scan as that file, taken from the spool or from the store. *)
Theorem recovery_export_exact source volume version head residues store e :
  fits W64 volume -> (forall residue, In residue residues -> all_bytes (rr_bytes residue)) ->
  export_replica_recovery source volume version head residues store = Ok e ->
  exists assignment residue scan commit record,
    head_stash head = Some assignment /\ In residue residues
    /\ spool_says source volume residue scan commit record
    /\ vouched source version head assignment residue commit record
    /\ (forall residue' scan' commit' record', In residue' residues ->
         spool_says source volume residue' scan' commit' record' ->
         cmp_leb (commit_rank commit' record') (commit_rank commit record) = true)
    /\ (forall ptr, head_manifest head = Some ptr -> exists store_point,
         store_rank volume ptr store = Ok store_point
         /\ cmp_leb store_point (commit_rank commit record) = true)
    /\ re_source_peer e = rr_peer residue /\ re_assignment_epoch e = rr_assignment_epoch residue
    /\ re_info e = cf_info commit
    /\ bt_get (journal_blob volume (jr_fence record) (jr_seq record)) (re_blobs e) = Some (cf_record commit)
    /\ bt_get (journal_mirror_blob volume (jr_fence record) (jr_seq record)) (re_blobs e) = Some (cf_record commit)
    /\ (forall file, In file (jr_files record) ->
         oi_namespace_kind (or_identity file) = Namespace_Volume -> oi_namespace_id (or_identity file) = volume ->
         exists bs, file_bytes volume scan store (or_identity file) = Some bs
           /\ intact volume (or_identity file) bs
           /\ bt_get (file_blob volume (or_identity file)) (re_blobs e) = Some bs).
Proof.
  intros Hv Hbytes (assignment & residue & scan & commit & record & Ha & Hres & Hsay & Hvouch & Hmax & Hstore & H)%export_newest.
  exists assignment, residue, scan, commit, record. do 6 (split; [auto|]). destruct Hsay as (_ & Hscan & _ & Hlast & Hdec).
  apply (export_commit_Ok volume residue scan commit store record e Hv); auto.
  apply last_Some_elem_of, list_elem_of_In in Hlast.
  destruct (scan_commits_ok _ _ _ (Hbytes residue Hres) Hscan Hlast) as (Hok & _). apply Hok.
Qed.

(** The operator's report calls a recovery complete exactly when the export
    succeeds, and then names what the export chose. *)
Lemma report_complete source volume version head residues store report :
  report_replica_recovery source volume version head residues store = Ok report ->
  rep_status report = Recovery_Complete <->
  exists e, export_replica_recovery source volume version head residues store = Ok e
    /\ rep_chosen_source report = Some (re_source_peer e)
    /\ rep_chosen_assignment_epoch report = Some (re_assignment_epoch e)
    /\ rep_covered_sync_through report = Some (re_sync_covered_through e).
Proof.
  unfold report_replica_recovery. intros ([[inventories corrupt] best] & _ & H)%outcome_bind_Ok.
  destruct (export_replica_recovery _ _ _ _ _ _) as [e|error|]; [|destruct error|discriminate];
    injection H as <-; cbn; split; try discriminate; eauto; intros (e' & He & _); discriminate.
Qed.
End Exporting.
