(* ===== verification/RecoveryPublish.v ===== *)
(** * Publishing a recovered volume

    [prepare_replica_publication] turns an export into the objects of an
    archive and the head that points at them. *)

From stdpp Require Import gmap.
From S2P Require Import Prelude Format Types Sorting OrdMap Text Head Blx BlxFile BlxBatch BlxScan Manifest Layout.
From S2P Require Import ManifestCodec BatchRefs ManifestClosure PageFile Journal JournalFormat ReplicaSpool.
From S2P Require Import ReplicaRecovery RecoverySafety.

#[local] Open Scope Z_scope.

Lemma find_all {A} (p : A -> bool) (Q : A -> Prop) l x :
  In x l -> p x = true -> (forall y, In y l -> p y = true -> Q y) ->
  exists y, List.find p l = Some y /\ Q y.
Proof.
  intros Hin Hp HQ. destruct (List.find p l) as [y|] eqn:E.
  - apply List.find_some in E as [Hy Hpy]. eauto.
  - rewrite (List.find_none _ _ E x Hin) in Hp. discriminate.
Qed.

Section Publish.
Context `{C : Crc} `{CL : !CrcLaws C} `{L : Lz4} `{LL : !Lz4Laws L} `{P : PageSize} `{PL : !PageSizeLaws P}.
Hypothesis small_pages : page_size <= 16 * 1024 * 1024.

(** The journal record of an export, which decodes. *)
Record recorded (volume : Z) (e : ReplicaExport) (r : JournalRecord) : Prop := {
  rc_sorted : bt_sorted (re_blobs e);
  rc_found : exists name bs, List.find (fun x => is_journal x.1) (re_blobs e) = Some (name, bs)
    /\ JournalRecord_decode volume bs = Ok r;
  rc_ok : JournalRecord_ok r volume }.
Abbreviation export_files e := (List.filter (fun x => is_blx x.1) (re_blobs e)).
(** An export with a record that decodes and files that hold entries. *)
Record recoverable (volume : Z) (e : ReplicaExport) (r : JournalRecord) (ess : list (list BlxEntry))
  : Prop := {
  rx_recorded : recorded volume e r;
  rx_covered : jr_sync_covered_through r <= jr_capture_seq r;
  rx_files : Forall2 (fun x es => exists f, x.2 = bo_bytes f /\ file_holds f es) (export_files e) ess;
  rx_entries : len (concat ess) < W32 }.
(** An export that cannot be published, and the error it gives: it has no
    journal record; the record does not decode; the record claims a sync beyond
    its capture; a file, the first such, does not open. *)
Inductive rejected (volume : Z) (e : ReplicaExport) : ReplicaRecoveryError -> Prop :=
| Rejected_no_record : List.find (fun x => is_journal x.1) (re_blobs e) = None -> rejected volume e Recovery_NoCommit
| Rejected_record name bs err : List.find (fun x => is_journal x.1) (re_blobs e) = Some (name, bs) ->
    JournalRecord_decode volume bs = Err err -> rejected volume e (Recovery_CorruptObject "recovery journal")
| Rejected_sync r : recorded volume e r -> jr_capture_seq r < jr_sync_covered_through r ->
    rejected volume e (Recovery_CorruptObject "recovery journal")
| Rejected_file r before name bs after err : recorded volume e r -> jr_sync_covered_through r <= jr_capture_seq r ->
    export_files e = before ++ (name, bs) :: after -> Forall (fun x => exists f, BlxObject_open x.2 = Ok f) before ->
    BlxObject_open bs = Err err -> rejected volume e (Recovery_CorruptObject name).

Lemma with_fence_ok volume r fence : fits W64 fence -> JournalRecord_ok r volume ->
  JournalRecord_ok (with_fence r fence) volume.
Proof.
  intros Hf (Hok & Hi & Hl). unfold JournalRecord_ok. rewrite JournalRecord_payload_eq in *.
  rewrite !len_app in *. autorewrite with len in *.
  unfold JournalRecord_fields in *. destruct r. simpl in *. intuition.
Qed.

(** ** The record under the new fence *)
Definition name_leb (a b : string * bytes) : bool := cmp_leb a.1 b.1.
Lemma name_leb_total a b : name_leb a b = true \/ name_leb b a = true.
Proof.
  unfold name_leb. rewrite !cmp_leb_le.
  destruct (cmp a.1 b.1) eqn:E; [apply cmp_eq in E as ->|auto|apply cmp_gt_lt in E]; auto.
Qed.
Lemma name_leb_trans a b c : name_leb a b = true -> name_leb b c = true -> name_leb a c = true.
Proof. unfold name_leb. apply cmp_le_trans. Qed.
Lemma bt_sorted_names (m : BTreeMap string bytes) :
  bt_sorted m -> Sorted.StronglySorted (fun a b => name_leb a b = true) m.
Proof.
  induction 1 as [|x m Hs IH Hx]; constructor; [exact IH|]. apply (List.Forall_impl _ (P := bt_lt x)); [|exact Hx].
  intros y Hy. unfold name_leb. apply cmp_leb_le. now left.
Qed.
Lemma bt_sorted_unique (m : BTreeMap string bytes) x y :
  bt_sorted m -> In x m -> In y m -> name_leb x y = true -> name_leb y x = true -> x = y.
Proof.
  intros Hs Hx Hy H1 H2. unfold name_leb in *. apply cmp_leb_le in H1, H2.
  assert (x.1 = y.1) as Heq.
  { destruct H1 as [H1|]; [|assumption]. destruct H2 as [H2|]; [|now symmetry].
    destruct (cmp_lt_irrefl x.1). now apply cmp_lt_trans with y.1. }
  destruct x as [n a], y as [n' b]. simpl in *. subst n'. apply In_bt_get in Hx, Hy; auto. congruence.
Qed.

Section Refence.
Context (volume fence : Z) (e : ReplicaExport) (r : JournalRecord).
Hypotheses (Hv : fits W64 volume) (Hfence : fits W64 fence) (R : recorded volume e r).

Definition new_record : bytes := frame_bytes MAGIC_JOURNAL (JournalRecord_payload (with_fence r fence) volume).
Definition new_blobs : list (string * bytes) :=
  List.filter (fun x => negb (is_journal x.1)) (re_blobs e)
  ++ [(journal_blob volume fence (jr_seq r), new_record);
      (journal_mirror_blob volume fence (jr_seq r), new_record)].
Definition refenced : ReplicaExport :=
  {| re_source_peer := re_source_peer e; re_assignment_epoch := re_assignment_epoch e;
     re_info := {| rci_writer_fence := fence; rci_seq := rci_seq (re_info e);
                   rci_sync_covered_through := rci_sync_covered_through (re_info e) |};
     re_sync_covered_through := re_sync_covered_through e; re_blobs := sort_by name_leb new_blobs |}.

Lemma new_record_decodes : JournalRecord_decode volume new_record = Ok (with_fence r fence).
Proof using CL PL Hv Hfence R.
  pose proof (with_fence_ok volume r fence Hfence (rc_ok _ _ _ R)) as Hok.
  destruct (format_writes (ExactFormat := JournalRecord_format volume Hv) _ Hok) as (bs & Hb & _ & Hd).
  destruct Hok as (H1 & _ & H3). rewrite JournalRecord_encode_eq in Hb by assumption. now injection Hb as <-.
Qed.
Lemma refence_Ok : refence_replica_export volume e fence = Ok refenced.
Proof using CL PL Hv Hfence R.
  unfold refence_replica_export. destruct (rc_found _ _ _ R) as (name & bs & -> & Hd).
  cbn [ok_or outcome_bind snd]. rewrite Hd. cbn [recovered map_err outcome_bind].
  destruct (with_fence_ok volume r fence Hfence (rc_ok _ _ _ R)) as (H1 & _ & H3).
  rewrite JournalRecord_encode_eq by assumption. reflexivity.
Qed.
Lemma journal_seq_fits : fits W64 (jr_seq r).
Proof using R. destruct (rc_ok _ _ _ R) as (H & _). apply H. Qed.
Lemma new_names : parse_blob (journal_blob volume fence (jr_seq r)) = Some (Blob_Journal volume fence (jr_seq r))
  /\ parse_blob (journal_mirror_blob volume fence (jr_seq r)) = Some (Blob_Journal volume fence (jr_seq r)).
Proof using Hv Hfence R.
  pose proof journal_seq_fits. split; [|now apply parse_mirror_name].
  now apply (parse_blob_name (Blob_Journal volume fence (jr_seq r))).
Qed.
Lemma publication_record_Ok : publication_record volume fence refenced = Ok (with_fence r fence, new_record).
Proof using CL PL Hv Hfence R.
  destruct new_names as [N1 N2]. unfold publication_record.
  destruct (find_all (fun x => match parse_blob x.1 with
                               | Some (Blob_Journal _ f _) => f =? fence
                               | _ => false
                               end) (fun x => x.2 = new_record) (re_blobs refenced)
              (journal_blob volume fence (jr_seq r), new_record)) as ([name bs] & Hf & Hbs).
  - simpl. apply In_sort_by, in_app_iff. right. now left.
  - simpl. now rewrite N1, Z.eqb_refl.
  - simpl. intros [n b] [Hin|Hin]%In_sort_by%in_app_iff; simpl.
    + apply filter_In in Hin as [_ Hj]. unfold is_journal in Hj. simpl in Hj.
      destruct (parse_blob n) as [[]|]; discriminate.
    + intros _. destruct Hin as [[= <- <-]|[[= <- <-]|[]]]; reflexivity.
  - rewrite Hf. cbn [ok_or outcome_bind snd] in *. subst bs. rewrite new_record_decodes. reflexivity.
Qed.
Lemma refenced_files :
  List.filter (fun x => is_blx x.1) (re_blobs refenced) = List.filter (fun x => is_blx x.1) (re_blobs e).
Proof using Hv Hfence R.
  pose proof (rc_sorted _ _ _ R) as Hs. symmetry. apply (sorted_unique name_leb name_leb_total).
  - intros x y [Hx _]%filter_In [Hy _]%filter_In. now apply (bt_sorted_unique (re_blobs e)).
  - now apply sorted_filter, bt_sorted_names.
  - apply sorted_filter, sort_by_sorted; [exact name_leb_total|exact name_leb_trans].
  - simpl re_blobs. rewrite (Permutation_filter_bool _ _ _ (sort_by_perm name_leb new_blobs)).
    unfold new_blobs. rewrite List.filter_app. destruct new_names as [N1 N2]. cbn [List.filter fst].
    assert (is_blx (journal_blob volume fence (jr_seq r)) = false) as -> by (unfold is_blx; now rewrite N1).
    assert (is_blx (journal_mirror_blob volume fence (jr_seq r)) = false) as -> by (unfold is_blx; now rewrite N2).
    rewrite app_nil_r.
    assert (forall l : list (string * bytes), List.filter (fun x => is_blx x.1) l
      = List.filter (fun x => is_blx x.1) (List.filter (fun x => negb (is_journal x.1)) l)) as <-; [|reflexivity].
    induction l as [|[n b] l IH]; [reflexivity|]. cbn [List.filter fst].
    destruct (is_journal n) eqn:Ej; cbn [negb List.filter fst]; rewrite IH; [|reflexivity].
    unfold is_journal in Ej. unfold is_blx at 1. now destruct (parse_blob n) as [[]|].
Qed.
End Refence.

(** ** The archive *)
Definition recovery_builder (volume fence : Z) (r : JournalRecord) (ess : list (list BlxEntry))
  : BlxBatchBuilder := compaction_builder (recovery_batch volume fence r) true (concat ess).

Lemma recovery_batch_ok volume fence r : fits W64 volume -> fits W64 fence -> JournalRecord_fields r ->
  BatchMeta_ok (recovery_batch volume fence r).
Proof.
  intros Hv Hf Hr. unfold JournalRecord_fields, BatchMeta_ok, recovery_batch, fits in *. simpl. intuition lia.
Qed.
Lemma recovery_entries volume fence r ess :
  bb_entries (recovery_builder volume fence r ess) = fold_left keep_newest (concat ess) [].
Proof.
  simpl. induction (fold_left keep_newest (concat ess) []) as [|[k [] ] m IH]; simpl; [reflexivity|..]; now f_equal.
Qed.
Lemma open_inputs (xs : list (string * bytes)) ess :
  Forall2 (fun x es => exists f, x.2 = bo_bytes f /\ file_holds f es) xs ess ->
  exists inputs, collect_outcome (fun x => recovered (Recovery_CorruptObject x.1) (BlxObject_open x.2)) xs
    = Ok inputs /\ Forall2 file_holds inputs ess.
Proof using CL LL PL small_pages.
  induction 1 as [|x es xs ess (f & Hf & Hh) _ (inputs & IH & Hi)]; [exists []; split; [reflexivity|constructor]|].
  exists (f :: inputs). cbn [collect_outcome]. rewrite Hf, (file_holds_open small_pages f es Hh). cbn [recovered map_err outcome_bind]. rewrite IH.
  split; [reflexivity|now constructor].
Qed.

(** One batch whose state checksum does not change. *)
Lemma chain_same key state os batches : (forall o, In o os ->
    (or_max_seq o, or_batch_id o) = key /\ (or_pre_state_checksum o, or_post_state_checksum o) = state) ->
  batches = [] \/ batches = [(key, state)] ->
  fold_outcome chain_insert batches os
  = Ok (match os with [] => batches | _ => [(key, state)] end).
Proof.
  revert batches. induction os as [|o os IH]; intros batches Ho Hb; [reflexivity|]. cbn [fold_outcome].
  destruct (Ho o (or_introl eq_refl)) as [Hk Hs].
  assert (chain_insert batches o = Ok [(key, state)]) as ->.
  { unfold chain_insert. rewrite Hk, Hs. destruct Hb as [->| ->]; [reflexivity|].
    cbn [bt_get]. rewrite cmp_refl. rewrite bool_decide_eq_true_2 by reflexivity. cbn [bt_insert].
    now rewrite cmp_refl. }
  cbn [outcome_bind]. rewrite IH; [now destruct os|intros o' Ho'; apply Ho; now right|now right].
Qed.
Lemma recovery_chain base key c os : (forall o, In o os ->
    (or_max_seq o, or_batch_id o) = key /\ (or_pre_state_checksum o, or_post_state_checksum o) = (c, c)) ->
  validate_file_state_chain base c os
  = if bool_decide (os = []) && negb (c =? base) then Err DecodeErr else Ok tt.
Proof.
  intros Ho. unfold validate_file_state_chain. rewrite (chain_same key (c, c)) by auto. cbn [outcome_bind].
  destruct os as [|o os]; simpl; [now destruct (c =? base)|]. now rewrite Z.eqb_refl.
Qed.

Section Archive.
Context (volume fence : Z) (r : JournalRecord) (ess : list (list BlxEntry)) (files : list BlxObject).
Abbreviation b := (recovery_builder volume fence r ess).
Hypotheses (Hv : fits W64 volume) (Hfence : fits W64 fence) (Hr : JournalRecord_fields r).
Hypotheses (Hcov : jr_sync_covered_through r <= jr_capture_seq r) (Hb : builder_ok b).
Hypothesis Hfiles : @BlxBatchBuilder_finish _ _ _ DecodeError b = Ok files.

Definition archive_list : CompleteFileList :=
  {| cfl_volume := volume; cfl_writer_fence := fence; cfl_list_id := jr_seq r;
     cfl_objects := map written_ref files |}.
Lemma archive_refs_sorted : bt_sorted (by_identity (map written_ref files)).
Proof using CL LL PL small_pages Hb Hfiles.
  destruct (finish_holds small_pages b files Hb Hfiles) as [-> _].
  set (chunks := builder_chunks b). set (count := len chunks). generalize 0 as i. generalize count. clear.
  induction chunks as [|es chunks IH]; intros count i; cbn [chunk_objects map by_identity]; [constructor|].
  constructor; [apply IH|]. apply List.Forall_forall. intros [k o] (-> & Hin)%In_by_identity.
  apply in_map_iff in Hin as (f & <- & Hin). apply list_elem_of_In, list_elem_of_lookup in Hin as [n Hn].
  apply chunk_objects_nth in Hn as (es' & _ & ->). unfold bt_lt, cmp, ObjectIdentity_ord. cbn.
  unfold cmp, prod_ord, cmp. cbn [fst snd Z_ord prod_ord]. unfold cmp, Z_ord.
  rewrite !Z.compare_refl. cbn [cmp_then]. apply Z.compare_lt_iff. lia.
Qed.
Lemma archive_refs_state o : In o (map written_ref files) ->
  (or_max_seq o, or_batch_id o) = (jr_seq r, u64_MAX - 1024)
  /\ (or_pre_state_checksum o, or_post_state_checksum o)
     = (jr_post_state_checksum r, jr_post_state_checksum r).
Proof using LL PL small_pages Hb Hfiles.
  destruct (finish_holds small_pages b files Hb Hfiles) as [-> _].
  intros (f & <- & Hin)%in_map_iff. apply list_elem_of_In, list_elem_of_lookup in Hin as [n Hn].
  now apply chunk_objects_nth in Hn as (es' & _ & ->).
Qed.
Lemma archive_list_ok : CompleteFileList_ok archive_list.
Proof using CL LL PL small_pages Hv Hfence Hr Hb Hfiles.
  pose proof (finish_refs small_pages b files Hb Hfiles) as Hrefs. pose proof Hfiles as Hrun.
  rewrite finish_run in Hrun by assumption.
  destruct (BlxBatchBuilder_object_ids_fit b) eqn:Hfit; [|discriminate].
  destruct (finish_holds small_pages b files Hb Hfiles) as [_ Hh]. pose proof (List.Forall2_length Hh) as Hlen.
  rewrite builder_fit_chunks in Hfit. simpl bb_meta in Hfit. unfold recovery_batch in Hfit. simpl in Hfit.
  assert (len files <= 1025) as Hcount.
  { unfold len in *. rewrite Hlen. apply orb_true_iff in Hfit as [H%Z.eqb_eq|H%Z.ltb_lt]; lia. }
  assert (len (map written_ref files) = len files) as Hlm by (unfold len; now rewrite length_map).
  unfold CompleteFileList_ok. cbn [cfl_volume cfl_writer_fence cfl_list_id cfl_objects archive_list].
  do 2 (split; [assumption|]). split; [apply Hr|]. split; [|split].
  - apply Forall_fmap. apply (List.Forall_impl _ (P := fun f => len (bo_bytes f) < W32 /\ ObjectRef_ok (written_ref f)));
      [unfold compose; tauto|exact Hrefs].
  - apply batch_refs_valid; [now apply (finish_batch_refs small_pages b)|lia|unfold MAX_OVERLAPPING_FILES; lia].
  - rewrite len_list_payload. cbn [cfl_objects archive_list]. rewrite Hlm.
    unfold FRAME_HEADER, OBJECT_REF_BYTES, MAX_METADATA_OBJECT_BYTES. lia.
Qed.

Definition archive_list_bytes : bytes := frame_bytes MAGIC_FILE_LIST (list_payload archive_list).
Definition archive_reference : FileListRef :=
  {| fl_writer_fence := fence; fl_list_id := jr_seq r; fl_checksum := checksum64 archive_list_bytes |}.
Definition archive (rb : bytes) : Manifest := recovery_manifest volume fence r rb archive_reference.
Lemma archive_list_encode {E} : @CompleteFileList_encode _ _ E archive_list = Ok archive_list_bytes
  /\ @CompleteFileList_reference _ _ E archive_list = Ok archive_reference.
Proof using CL LL PL small_pages Hv Hfence Hr Hb Hfiles.
  unfold CompleteFileList_reference. rewrite CompleteFileList_encode_eq by exact archive_list_ok. auto.
Qed.
Lemma recovery_metadata_fits : fits W64 (recovery_metadata r).1.2 /\ fits W64 (recovery_metadata r).2.
Proof using Hr.
  assert (fits W64 0) by (unfold fits; lia). assert (RecordKind_ok (jr_kind r)) as Hk by apply Hr.
  unfold recovery_metadata. destruct (jr_kind r) as [|epoch vmstate length]; [auto|].
  destruct Hk as (? & ? & ?). destruct (_ && _); auto.
Qed.
Lemma archive_ok rb : Manifest_ok (archive rb).
Proof using CL PL Hv Hfence Hr Hcov.
  destruct recovery_metadata_fits as [Hm1 Hm2]. pose proof (checksum64_range rb).
  pose proof (checksum64_range archive_list_bytes).
  unfold Manifest_ok, archive, recovery_manifest.
  destruct (recovery_metadata r) as [[kind epoch] length]. cbn [fst snd] in *.
  cbn [m_added m_removed]. split; [|split; [constructor|split; [constructor|split]]].
  - unfold prefix_ok, VolumeConfig_ok, FileListRef_ok, JournalRecord_fields, VolumeConfig_valid in *. cbn.
    rewrite Z.ltb_lt in Hr. unfold fits in *. intuition lia.
  - unfold validate_manifest_shape. cbn [m_capture_seq m_sync_covered_through m_complete_list m_removed m_added].
    rewrite (proj2 (Z.ltb_ge _ _)) by exact Hcov. reflexivity.
  - rewrite Manifest_payload_bytes. unfold prefix_bytes. cbn [m_added m_removed map concat].
    rewrite !len_app. autorewrite with len. unfold FRAME_HEADER, MAX_MANIFEST_BYTES. lia.
Qed.
(** The archive reads back as the recovered files. The state chain of a batch
    that does not change the state is checked only when there is a file. *)
Lemma archive_closure rb mb : Manifest_encode (archive rb) = Ok mb ->
  ManifestClosure_decode volume (Manifest_pointer (archive rb) mb) mb (Some archive_list_bytes)
  = if bool_decide (files = []) && negb (jr_post_state_checksum r =? 0) then Err DecodeErr
    else Ok {| mc_manifest := archive rb; mc_complete_list := Some archive_list;
               mc_files := map written_ref files |}.
Proof using CL LL PL small_pages Hv Hfence Hr Hcov Hb Hfiles.
  intros Hmb. pose proof (archive_ok rb) as Hok. pose proof archive_list_ok as Hlok.
  destruct (@archive_list_encode DecodeError) as [He Hre].
  assert (m_volume (archive rb) = volume /\ m_complete_list (archive rb) = Some archive_reference
    /\ m_added (archive rb) = [] /\ m_removed (archive rb) = [] /\ m_base (archive rb) = None
    /\ m_post_state_checksum (archive rb) = jr_post_state_checksum r) as (H1 & H2 & H3 & H4 & H5 & H6).
  { unfold archive, recovery_manifest. destruct (recovery_metadata r) as [[] ?]. auto 10. }
  rewrite <- H1 at 1. rewrite (closure_run (archive rb) (Some archive_list)); auto;
    [|rewrite H1; split; [reflexivity|exact Hlok]|unfold list_matches; now rewrite H2].
  unfold Manifest_current_files. rewrite H2, Hre. cbn [outcome_bind].
  rewrite bool_decide_eq_true_2 by reflexivity. cbn [outcome_bind list_objects cfl_objects archive_list].
  fold (by_identity (map written_ref files)). rewrite bt_collect_id by exact archive_refs_sorted.
  rewrite H3, H4. cbn [fold_outcome outcome_bind].
  replace (bt_values (by_identity (map written_ref files))) with (map written_ref files)
    by (unfold bt_values, by_identity; now rewrite map_map, map_id).
  assert (validate_objects (map written_ref files) (Some MAX_OVERLAPPING_FILES) = Ok tt) as -> by apply Hlok.
  cbn [outcome_bind]. unfold validate_state_chain. rewrite H5, H6.
  rewrite (recovery_chain 0 _ _ _ archive_refs_state).
  destruct files as [|f fs]; [|reflexivity]. rewrite !bool_decide_eq_true_2 by reflexivity.
  now destruct (jr_post_state_checksum r =? 0).
Qed.
End Archive.

Definition recovered_head (volume claimant fence : Z) (e : ReplicaExport) (manifest : ManifestPtr) : HeadRecord :=
  {| head_volume := volume; head_holder := claimant; head_fence := fence; head_manifest := Some manifest;
     head_stash := None;
     head_retired_stashes := [{| rs_peer := re_source_peer e; rs_assignment_epoch := re_assignment_epoch e;
                                 rs_through := re_info e |}] |}.
Definition archive_objects (volume fence : Z) (r : JournalRecord) (files : list BlxObject) (mb : bytes)
  : list (string * bytes) :=
  map (fun f => (ObjectIdentity_store_key (or_identity (written_ref f)), bo_bytes f)) files
  ++ [(complete_file_list_key volume fence (jr_seq r), archive_list_bytes volume fence r files);
      (manifest_key volume fence (jr_seq r), mb)].

Lemma zip_written files :
  zip_with (fun reference object => (ObjectIdentity_store_key (or_identity reference), bo_bytes object))
    (map written_ref files) files
  = map (fun f => (ObjectIdentity_store_key (or_identity (written_ref f)), bo_bytes f)) files.
Proof. induction files as [|f files IH]; [reflexivity|]. simpl. now rewrite IH. Qed.
Lemma with_fence_fields r fence : fits W64 fence -> JournalRecord_fields r ->
  JournalRecord_fields (with_fence r fence).
Proof. intros Hf. unfold JournalRecord_fields. destruct r. simpl. tauto. Qed.

Lemma build_archive_run volume fence e r ess rb : fits W64 volume -> fits W64 fence ->
  recoverable volume e r ess ->
  let b := recovery_builder volume fence r ess in
  let built := build_replica_archive volume fence (with_fence r fence) rb (refenced volume fence e r) in
  builder_ok b /\
  if BlxBatchBuilder_object_ids_fit b then
    exists files mb, @BlxBatchBuilder_finish _ _ _ DecodeError b = Ok files
      /\ Manifest_encode (archive volume fence r files rb) = Ok mb
      /\ built = Ok (archive_objects volume fence r files mb, Manifest_pointer (archive volume fence r files rb) mb)
  else built = Panic.
Proof using CL LL PL small_pages.
  intros Hv Hf R b built. destruct (rc_ok _ _ _ (rx_recorded _ _ _ _ R)) as (Hr & _ & _). pose proof (rx_covered _ _ _ _ R) as Hcov.
  destruct (open_inputs _ _ (rx_files _ _ _ _ R)) as (inputs & Hin & Hh).
  destruct (compact_run small_pages (recovery_batch volume fence r) inputs ess true
    (recovery_batch_ok volume fence r Hv Hf Hr) Hh (rx_entries _ _ _ _ R)) as (Hb & _ & Hrun).
  fold (recovery_builder volume fence r ess) in Hb, Hrun. fold b in Hb, Hrun. split; [exact Hb|].
  unfold built, build_replica_archive. clear built.
  change (jr_capture_seq (with_fence r fence)) with (jr_capture_seq r).
  change (jr_sync_covered_through (with_fence r fence)) with (jr_sync_covered_through r).
  rewrite (proj2 (Z.ltb_ge _ _)) by exact Hcov. rewrite (refenced_files volume fence e r Hv Hf (rx_recorded _ _ _ _ R)), Hin.
  cbn [outcome_bind]. change (recovery_batch volume fence (with_fence r fence)) with (recovery_batch volume fence r).
  rewrite Hrun, (finish_run small_pages b Hb).
  pose proof (finish_run (E := DecodeError) small_pages b Hb) as Hfin.
  destruct (BlxBatchBuilder_object_ids_fit b); [|reflexivity]. cbn [recovered map_err outcome_bind].
  set (files := chunk_objects _ _ _ _) in *.
  destruct (format_writes (ExactFormat := Manifest_format volume) (archive volume fence r files rb))
    as (mb & Hmb & _ & _).
  { split; [unfold archive, recovery_manifest; now destruct (recovery_metadata r) as [[] ?]|].
    now apply archive_ok. }
  exists files, mb. split; [reflexivity|]. split; [exact Hmb|].
  rewrite written_refs; [cbn [outcome_bind]|].
  2:{ apply (List.Forall_impl _ (P := fun f => len (bo_bytes f) < W32 /\ ObjectRef_ok (written_ref f)));
        [tauto|]. now apply (finish_refs small_pages b). }
  change (jr_seq (with_fence r fence)) with (jr_seq r). fold (archive_list volume fence r files).
  destruct (archive_list_encode volume fence r ess files Hv Hf Hr Hb Hfin (E := ReplicaRecoveryError)) as [-> ->].
  cbn [outcome_bind].
  change (recovery_manifest volume fence (with_fence r fence) rb (archive_reference volume fence r files))
    with (archive volume fence r files rb).
  rewrite Hmb. cbn [recovered map_err outcome_bind]. rewrite zip_written.
  unfold archive_objects, archive, recovery_manifest, Manifest_pointer. now destruct (recovery_metadata r) as [[] ?].
Qed.

(** The ids from the recovery batch's first one to the last there is. *)
Definition recovery_object_ids : Z := 1025.
Lemma recovery_ids_fit volume fence r ess :
  BlxBatchBuilder_object_ids_fit (recovery_builder volume fence r ess)
  = (len (builder_chunks (recovery_builder volume fence r ess)) <=? recovery_object_ids).
Proof.
  rewrite builder_fit_chunks. cbn [bb_meta recovery_builder compaction_builder recovery_batch bm_first_object_id].
  set (n := len (builder_chunks _)). pose proof (len_nonneg (builder_chunks (recovery_builder volume fence r ess))) as Hn. fold n in Hn.
  unfold recovery_object_ids. apply eq_true_iff_eq. rewrite orb_true_iff, Z.eqb_eq, Z.ltb_lt, Z.leb_le. lia.
Qed.
Lemma collect_rejected (before after : list (string * bytes)) name bs err :
  Forall (fun x => exists f, BlxObject_open x.2 = Ok f) before -> BlxObject_open bs = Err err ->
  collect_outcome (fun x => recovered (Recovery_CorruptObject x.1) (BlxObject_open x.2)) (before ++ (name, bs) :: after)
  = Err (Recovery_CorruptObject name).
Proof.
  intros Hb He. induction Hb as [|x before [f Hf] _ IH]; cbn [app collect_outcome fst snd]; [now rewrite He|].
  rewrite Hf. cbn [recovered map_err outcome_bind]. now rewrite IH.
Qed.
Lemma rejected_Err volume claimant fence claimed e err : fits W64 volume -> fits W64 fence -> rejected volume e err ->
  prepare_replica_publication volume claimant fence claimed e = Err err.
Proof using CL PL.
  intros Hv Hf H. unfold prepare_replica_publication. destruct H as [H|name bs err H Hd|r R Hs|r before name bs after err R Hs Hx Hb He].
  - unfold refence_replica_export. now rewrite H.
  - unfold refence_replica_export. rewrite H. cbn [ok_or outcome_bind snd]. now rewrite Hd.
  - rewrite (refence_Ok volume fence e r Hv Hf R). cbn [outcome_bind]. rewrite (publication_record_Ok volume fence e r Hv Hf R). cbn [outcome_bind].
    unfold build_replica_archive. change (jr_capture_seq (with_fence r fence)) with (jr_capture_seq r).
    change (jr_sync_covered_through (with_fence r fence)) with (jr_sync_covered_through r).
    now rewrite (proj2 (Z.ltb_lt _ _)) by exact Hs.
  - rewrite (refence_Ok volume fence e r Hv Hf R). cbn [outcome_bind]. rewrite (publication_record_Ok volume fence e r Hv Hf R). cbn [outcome_bind].
    unfold build_replica_archive. change (jr_capture_seq (with_fence r fence)) with (jr_capture_seq r).
    change (jr_sync_covered_through (with_fence r fence)) with (jr_sync_covered_through r).
    rewrite (proj2 (Z.ltb_ge _ _)) by exact Hs. rewrite (refenced_files volume fence e r Hv Hf R), Hx.
    now rewrite (collect_rejected _ _ _ _ err).
Qed.

(** C12. What publishing a recovered export does. An export without a journal
    record, with one that does not decode or that claims a sync beyond its
    capture, or with a file that does not open, is refused with the error that
    names what is wrong. Otherwise, with a record that decodes and files that
    hold entries, [prepare_replica_publication] panics when the compacted
    entries make more than 1025 files, the number of object ids left above the
    recovery batch id, and only then. In the remaining case it returns the
    record under the new fence, a head that names the claimant, the archive and
    the retired stash it came from, and the store objects of the archive. Their
    files merge to the newest entry of every key of the export. Whoever reads
    the archive finds exactly those files and no base, except that when there
    is no file and the state checksum is not that of an empty volume, the
    published archive is refused by its readers. *)
Theorem recovery_publication_exact volume claimant fence claimed e :
  fits W64 volume -> fits W64 fence ->
  let published := prepare_replica_publication volume claimant fence claimed e in
  (forall err, rejected volume e err -> published = Err err)
  /\ forall r ess, recoverable volume e r ess ->
     if len (builder_chunks (recovery_builder volume fence r ess)) <=? recovery_object_ids then
       exists files merged mb (m := archive volume fence r files (new_record volume fence r)) pointer,
         pointer = Manifest_pointer m mb
         /\ published = Ok {| rpub_export := refenced volume fence e r;
                              rpub_store_objects := archive_objects volume fence r files mb;
                              rpub_head := recovered_head volume claimant fence e pointer |}
         /\ JournalRecord_decode volume (new_record volume fence r) = Ok (with_fence r fence)
         /\ merge_files [] files = Ok merged
         /\ (forall k, newest_of k (concat ess) (bt_get k merged))
         /\ m_base m = None
         /\ ManifestClosure_decode volume pointer mb (Some (archive_list_bytes volume fence r files))
            = if bool_decide (files = []) && negb (jr_post_state_checksum r =? 0) then Err DecodeErr
              else Ok {| mc_manifest := m; mc_complete_list := Some (archive_list volume fence r files);
                         mc_files := map written_ref files |}
     else published = Panic.
Proof using CL LL PL small_pages.
  intros Hv Hf published. split; [intros err; now apply rejected_Err|]. intros r ess R.
  set (b := recovery_builder volume fence r ess). unfold published, prepare_replica_publication.
  rewrite (refence_Ok volume fence e r Hv Hf (rx_recorded _ _ _ _ R)). cbn [outcome_bind].
  rewrite (publication_record_Ok volume fence e r Hv Hf (rx_recorded _ _ _ _ R)). cbn [outcome_bind].
  destruct (build_archive_run volume fence e r ess (new_record volume fence r) Hv Hf R) as [Hb Hrun].
  rewrite recovery_ids_fit in Hrun. fold b in Hb, Hrun. destruct (len (builder_chunks b) <=? _); [|now rewrite Hrun].
  destruct Hrun as (files & mb & Hfin & Hmb & ->). cbn [outcome_bind].
  exists files, (bb_entries b), mb, (Manifest_pointer (archive volume fence r files (new_record volume fence r)) mb).
  destruct (rc_ok _ _ _ (rx_recorded _ _ _ _ R)) as (Hr & _ & _).
  do 2 (split; [reflexivity|]). split; [exact (new_record_decodes volume fence e r Hv Hf (rx_recorded _ _ _ _ R))|].
  split; [now apply (finish_merge small_pages b)|].
  split; [intros k; unfold b; rewrite recovery_entries; apply merge_newest|].
  split; [unfold archive, recovery_manifest; now destruct (recovery_metadata r) as [[] ?]|].
  apply (archive_closure volume fence r ess files Hv Hf Hr (rx_covered _ _ _ _ R) Hb Hfin _ mb Hmb).
Qed.
End Publish.
