(* ===== verification/RecoveryTool.v ===== *)
(** * The operator's recovery tool ([runtime/src/bin/peer_stash_recover.rs])

    The tool joins the spool files of a peer into residues, then reports,
    fetches what the report misses and reports again until nothing more can be
    fetched. *)

From stdpp Require Import gmap.
From S2P Require Import Prelude Format Types Sorting OrdMap Text Head Blx BlxFile BlxBatch BlxScan Manifest Layout.
From S2P Require Import ManifestCodec BatchRefs ManifestClosure PageFile Journal JournalFormat ReplicaSpool.
From S2P Require Import SpoolSafety ReplicaRecovery RecoverySafety.

#[local] Open Scope Z_scope.

(** A path stands for the file it names: its name below the root and its bytes. *)
Abbreviation FilePath := (string * bytes)%type.
Definition load_residues (source volume : Z) (files : list FilePath) : list (Z * Z * bytes) :=
  let generations : BTreeMap (Z * Z) (BTreeMap Z FilePath) :=
    fold_left (fun generations '(name, bs) =>
      match parse_blob name with
      | Some (Blob_ReplicaSpool s v assignment_epoch generation) =>
          if bool_decide ((s, v) = (source, volume))
          then bt_update (s, assignment_epoch) [] (bt_insert generation (name, bs)) generations
          else generations
      | _ => generations
      end) files [] in
  map (fun '((s, epoch), files) => (s, epoch, concat (map (fun path => path.2.2) files))) generations.
Definition residues (peer : Z) (owned : list (Z * Z * bytes)) : list ReplicaResidue :=
  map (fun '(source, assignment_epoch, bs) =>
    {| rr_source := source; rr_peer := peer; rr_assignment_epoch := assignment_epoch; rr_bytes := bs |}) owned.

(** The store as the tool reads it: in each round a key has an object, has
    none, or cannot be read. *)
Abbreviation StoreReads := (nat -> string -> option (option bytes)).

Section Tool.
Context `{C : Crc} `{L : Lz4} `{P : PageSize}.

Definition fetch (get : string -> option (option bytes)) (s : StoreObjects * bool) (key : string)
  : outcome ReplicaRecoveryError (StoreObjects * bool) :=
  let '(store_objects, fetched) := s in
  if bool_decide (is_Some (store_objects !! key)) then Ok s else
  let? found := expect (get key) in
  match found with
  | Some bs => Ok (<[key := bs]> store_objects, true)
  | None => Ok s
  end.
(** [None] is a loop that needs more than [fuel] rounds. *)
Fixpoint report_loop (fuel round : nat) (get : StoreReads) (source volume head_version : Z) (head : HeadRecord)
    (rs : list ReplicaResidue) (store_objects : StoreObjects)
  : outcome ReplicaRecoveryError (option (ReplicaRecoveryReport * StoreObjects)) :=
  match fuel with
  | O => Ok None
  | S fuel =>
      let? report := report_replica_recovery source volume head_version head rs store_objects in
      let? (store_objects, fetched) :=
        fold_outcome (fetch (get round)) (store_objects, false) (rep_missing_objects report) in
      if (fetched : bool) then report_loop fuel (S round) get source volume head_version head rs store_objects
      else Ok (Some (report, store_objects))
  end.

Inductive RecoverCommand := Command_report | Command_install.
(** [main], up to the installation: the report, and for [install] the export. *)
Definition recover_main (fuel : nat) (get : StoreReads) (command : RecoverCommand) (source peer volume : Z)
    (head_version : Z) (head_bytes source_claim : bytes) (files : list FilePath)
  : outcome ReplicaRecoveryError (option (ReplicaRecoveryReport * option ReplicaExport)) :=
  let? head := result_ok (HeadRecord_decode volume head_bytes) in
  let? head := expect head in
  assert! len source_claim =? 16 in
  let owned := load_residues source volume files in
  assert! negb (bool_decide (owned = [])) in
  let? result := report_loop fuel 0 get source volume head_version head (residues peer owned) ∅ in
  match result, command with
  | None, _ => Ok None
  | Some (report, _), Command_report => Ok (Some (report, None))
  | Some (report, store_objects), Command_install =>
      assert! match rep_status report with Recovery_Complete => true | Recovery_Incomplete => false end in
      let? export := result_ok (export_replica_recovery source volume head_version head (residues peer owned) store_objects) in
      let? export := expect export in
      Ok (Some (report, Some export))
  end.
End Tool.

(** The end of a branch that may stop with an error. *)
Ltac failure := let e := fresh in let H := fresh in intros e H; repeat case_match; try discriminate H; injection H as <-; simpl; auto.
Section Fetching.
Context `{C : Crc} `{CL : !CrcLaws C} `{L : Lz4} `{P : PageSize} `{PL : !PageSizeLaws P}.
Abbreviation recovery := (outcome ReplicaRecoveryError).

(** ** How an export can fail *)
Definition fails {A} (Q : ReplicaRecoveryError -> Prop) (c : recovery A) : Prop := forall e, c = Err e -> Q e.
Lemma fails_bind {A B} Q (f : A -> recovery B) c :
  fails Q c -> (forall a, c = Ok a -> fails Q (f a)) -> fails Q (outcome_bind f c).
Proof. unfold fails. destruct c; simpl; intros Hc Hf e' H; [now eapply Hf|apply Hc; congruence|discriminate]. Qed.
Lemma fails_recovered {A E} (Q : ReplicaRecoveryError -> Prop) e (c : outcome E A) : Q e -> fails Q (recovered e c).
Proof. intros He e'. destruct c; simpl; intros [= H]; congruence. Qed.
Lemma fails_fold {A B} Q (f : A -> B -> recovery A) l : (forall a x, In x l -> fails Q (f a x)) ->
  forall a, fails Q (fold_outcome f a l).
Proof.
  induction l as [|x l IH]; intros Hf a; [discriminate|]. simpl. apply fails_bind; [apply Hf; now left|].
  intros b _. apply IH. intros; apply Hf; now right.
Qed.
(** The keys of the files that the newest commit of a residue names. *)
Definition residue_keys (volume : Z) (residue : ReplicaResidue) : list string :=
  match scan_replica_spool (rr_bytes residue) with
  | Ok scan =>
      match list.last (ss_commits scan) with
      | Some commit =>
          match JournalRecord_decode volume (cf_record commit) with
          | Ok record => map (fun i => blx_key volume (oi_writer_fence i) (oi_object_id i))
                           (bt_keys (needed_files volume record))
          | _ => []
          end
      | None => []
      end
  | _ => []
  end.
Definition wanted_keys (volume : Z) (head : HeadRecord) (rs : list ReplicaResidue) : list string :=
  match head_manifest head with Some ptr => [ManifestPtr_manifest_key ptr volume] | None => [] end
  ++ concat (map (residue_keys volume) rs).
(** The spools decide the errors of the selection; after it the export fails
    only on objects of the store. *)
Lemma export_fails (Q : ReplicaRecoveryError -> Prop) source volume version head rs objects :
  (forall assignment candidates residue, head_stash head = Some assignment -> In residue rs ->
     fails Q (examine_residue source volume version head assignment candidates residue)) ->
  (forall assignment candidates, head_stash head = Some assignment ->
     fold_outcome (examine_residue source volume version head assignment) [] rs = Ok candidates ->
     candidates = [] -> Q Recovery_NoCommit) ->
  Q Recovery_NoAssignment -> Q Recovery_StoreRecoveryPointNewer -> (forall key, Q (Recovery_CorruptObject key)) ->
  (forall key, In key (wanted_keys volume head rs) -> objects !! key = None -> Q (Recovery_MissingObject key)) ->
  fails Q (export_replica_recovery source volume version head rs objects).
Proof using CL PL.
  intros Qx Qn Qa Qs Qc Qm. unfold export_replica_recovery.
  destruct (head_stash head) as [assignment|]; [cbn [ok_or outcome_bind]|failure].
  apply fails_bind; [apply fails_fold; auto|]. intros candidates Hc. specialize (Qn assignment candidates eq_refl Hc).
  pose proof (examine_residues source volume version head assignment rs [] [] candidates) as Hall.
  specialize (Hall ltac:(intros c; split; [intros []|intros (?&?&[]&_)]) Hc). cbn [app] in Hall.
  destruct (list.last (sort_by candidate_leb candidates)) as [[[rk residue] scan]|] eqn:Hl.
  2:{ intros e [= <-]. apply Qn. apply last_None in Hl. destruct candidates as [|c cs]; [reflexivity|].
      pose proof (proj2 (In_sort_by candidate_leb c (c :: cs)) (or_introl eq_refl)) as Hin. now rewrite Hl in Hin. }
  apply choose_newest in Hl as [Hin _]. apply Hall in Hin as (commit & record & Hres & (_ & Hscan & _ & Hlast & Hdec) & _).
  cbn [fst snd] in *. rewrite Hlast. cbn [expect outcome_bind]. unfold export_commit. rewrite Hdec. cbn [recovered map_err outcome_bind].
  apply fails_bind.
  - unfold wanted_keys in Qm. destruct (head_manifest head) as [ptr|]; [|discriminate]. apply fails_bind; [|intros store _; failure].
    unfold store_rank. apply fails_bind.
    + intros e. destruct (objects !! _) eqn:Ho; [discriminate|]. intros [= <-]. apply Qm; [now left|exact Ho].
    + intros bs _. destruct (_ =? _); [|failure]. apply fails_bind; [now apply fails_recovered|intros m _; failure].
  - intros _ _. apply fails_bind; [|discriminate]. apply fails_fold. intros blobs i Hi. unfold export_file. apply fails_bind.
    + intros e. unfold artifact_of. destruct (bt_get _ _); [discriminate|]. destruct (objects !! _) eqn:Ho; [discriminate|].
      intros [= <-]. apply Qm; [|exact Ho]. apply in_app_iff. right. apply in_concat. exists (residue_keys volume residue).
      split; [now apply in_map|]. unfold residue_keys. rewrite Hscan, Hlast, Hdec. apply in_map_iff. eauto.
    + intros bs _. apply fails_bind; [|intros ok _; failure]. unfold scans_as. destruct (scan_page_file bs); discriminate.
Qed.
(** An export that misses an object asks for one of these keys, and does not
    have it yet. *)
Definition misses (Q : string -> Prop) (e : ReplicaRecoveryError) : Prop :=
  match e with Recovery_MissingObject key => Q key | _ => True end.
Lemma export_asks source volume version head rs objects :
  fails (misses (fun key => In key (wanted_keys volume head rs) /\ objects !! key = None))
    (export_replica_recovery source volume version head rs objects).
Proof using CL PL.
  apply export_fails; simpl; auto. intros assignment candidates residue _ _. unfold examine_residue.
  destruct (_ && _); [failure|].
  apply fails_bind; [now apply fails_recovered|intros scan _]. apply fails_bind.
  { unfold verify_scan_identity. failure. }
  intros _ _. destruct (list.last _); [|failure].
  apply fails_bind; [now apply fails_recovered|intros record _]. failure.
Qed.

(** ** An export does not panic *)
Definition stored_bytes (objects : StoreObjects) : Prop := forall key bs, objects !! key = Some bs -> all_bytes bs.
Lemma scan_artifact_bytes bs s a f : all_bytes bs -> scan_replica_spool bs = Ok s ->
  bt_get a (ss_artifacts s) = Some f -> all_bytes (af_bytes f).
Proof using Type.
  intros Hb (frames & tail & r & _ & _ & _ & R & ->)%scan_sound Hf; [|exact Hb].
  destruct (rpo_keyed r R a f Hf) as (_ & ((_ & _ & _ & _ & _ & Hbs & _) & _) & _). exact Hbs.
Qed.
Lemma examine_total source volume version head assignment candidates residue :
  fits W64 volume -> all_bytes (rr_bytes residue) ->
  no_panic (examine_residue source volume version head assignment candidates residue).
Proof using CL PL.
  intros Hv Hb. unfold examine_residue, recovered, verify_scan_identity.
  pose proof (scan_loop_total (length (rr_bytes residue)) (rr_bytes residue) 0 replay_start Hb (le_n _)) as Hs.
  pose proof (fun bs => format_total (ExactFormat := JournalRecord_format volume Hv) bs) as Hd.
  no_panic.
Qed.
Lemma export_total source volume version head rs objects :
  fits W64 volume -> (forall residue, In residue rs -> all_bytes (rr_bytes residue)) -> stored_bytes objects ->
  no_panic (export_replica_recovery source volume version head rs objects).
Proof using CL PL.
  intros Hv Hb Ho. unfold export_replica_recovery. apply no_panic_bind; [auto with panics|intros assignment _].
  apply no_panic_bind; [apply no_panic_fold; intros; apply examine_total; auto|]. intros candidates Hc.
  pose proof (examine_residues source volume version head assignment rs [] [] candidates) as Hall.
  specialize (Hall ltac:(intros c; split; [intros []|intros (?&?&[]&_)]) Hc). cbn [app] in Hall.
  destruct (list.last (sort_by candidate_leb candidates)) as [[[rk residue] scan]|] eqn:Hl; [|discriminate].
  apply choose_newest in Hl as [Hin _]. apply Hall in Hin as (commit & record & Hres & (_ & Hscan & _ & Hlast & Hdec) & _).
  cbn [fst snd] in *. rewrite Hlast. cbn [expect outcome_bind].
  pose proof (fun bs => format_total (ExactFormat := Manifest_format volume) bs) as Hm.
  unfold export_commit, store_rank, recovered. rewrite Hdec. cbn [map_err outcome_bind].
  apply no_panic_bind; [no_panic|]. intros _ _. apply no_panic_bind; [|discriminate].
  apply no_panic_fold. intros blobs i _. unfold export_file, artifact_of, scans_as.
  apply no_panic_bind; [auto with panics|]. intros bs Hbs.
  assert (all_bytes bs) as Hbytes.
  { destruct (bt_get _ _) as [f|] eqn:Hf in Hbs; [injection Hbs as <-; now apply (scan_artifact_bytes _ _ _ _ (Hb residue Hres) Hscan Hf)|].
    destruct (objects !! _) as [b|] eqn:Hk in Hbs; [injection Hbs as <-; now apply (Ho _ _ Hk)|discriminate]. }
  pose proof (scan_page_file_total bs Hbytes) as Hp. apply no_panic_bind; [|intros ok _; no_panic].
  apply no_panic_bind; [now apply no_panic_result_ok|discriminate].
Qed.

(** ** Reading less of the store

    [c] computed on part of the objects, [c'] on all of [objects]: the results
    agree unless [c] misses an object that is there. *)
Definition agrees {A} (objects : StoreObjects) (c c' : recovery A) : Prop :=
  fails (misses (fun key => objects !! key = None)) c -> c' = c.
Lemma agrees_refl {A} objects (c : recovery A) : agrees objects c c.
Proof. easy. Qed.
Lemma agrees_bind {A B} objects (f f' : A -> recovery B) c c' :
  agrees objects c c' -> (forall a, agrees objects (f a) (f' a)) ->
  agrees objects (outcome_bind f c) (outcome_bind f' c').
Proof.
  unfold agrees. intros Hc Hf H. rewrite Hc.
  - destruct c as [a|e|]; [apply Hf, H|reflexivity..].
  - destruct c as [a|e|]; [discriminate|intros ? [= <-]; now apply H|discriminate].
Qed.
Lemma agrees_fold {A B} objects (f f' : A -> B -> recovery A) l :
  (forall a x, agrees objects (f a x) (f' a x)) -> forall a, agrees objects (fold_outcome f a l) (fold_outcome f' a l).
Proof.
  intros Hf. induction l as [|x l IH]; intros a; simpl; [apply agrees_refl|]. now apply agrees_bind.
Qed.
Lemma agrees_get part objects key (o o' : option bytes) : part ⊆ objects ->
  o = part !! key -> o' = objects !! key ->
  agrees objects (ok_or o (Recovery_MissingObject key)) (ok_or o' (Recovery_MissingObject key)).
Proof.
  intros Hs -> -> H. destruct (part !! key) as [bs|] eqn:Hp.
  - now rewrite (lookup_weaken _ _ _ _ Hp Hs).
  - simpl in *. now rewrite (H _ eq_refl : objects !! key = None).
Qed.
Lemma export_agrees source volume version head rs part objects : part ⊆ objects ->
  agrees objects (export_replica_recovery source volume version head rs part)
    (export_replica_recovery source volume version head rs objects).
Proof.
  intros Hs. unfold export_replica_recovery. apply agrees_bind; [easy|intros assignment].
  apply agrees_bind; [easy|intros candidates]. destruct (list.last _) as [[[rk residue] scan]|]; [|easy].
  apply agrees_bind; [easy|intros commit]. apply agrees_bind; [|intros _].
  - destruct (head_manifest head) as [ptr|]; [|easy]. apply agrees_bind; [|easy].
    apply agrees_bind; [now apply (agrees_get part)|easy].
  - apply agrees_bind; [easy|intros record]. apply agrees_bind; [|easy]. apply agrees_fold. intros blobs i.
    apply agrees_bind; [|easy]. unfold artifact_of. destruct (bt_get _ _); [easy|now apply (agrees_get part)].
Qed.
Definition missing_of {A} (c : recovery A) : list string :=
  match c with Err (Recovery_MissingObject key) => [key] | _ => [] end.
Lemma report_cases source volume version head rs objects :
  match report_replica_recovery source volume version head rs objects with
  | Ok report => rep_missing_objects report = missing_of (export_replica_recovery source volume version head rs objects)
  | Err _ => False
  | Panic => True
  end.
Proof.
  unfold report_replica_recovery.
  destruct (fold_outcome (report_residue source volume) _ rs) as [[[inventories corrupt] best]|e|] eqn:Hf; [|exfalso|exact I].
  - simpl. destruct (export_replica_recovery _ _ _ _ _ _) as [e|[]|]; reflexivity || exact I.
  - revert Hf. generalize (@nil ReplicaInventory, @nil string, @None (Z * Z * Z * Z)).
    induction rs as [|r rs IH]; intros s; simpl; [discriminate|]. destruct (report_residue source volume s r) eqn:Hr; simpl; [apply IH| |discriminate].
    intros _. unfold report_residue in Hr. destruct s as [[i c] b]. now destruct (inventory_replica source volume r).
Qed.
Lemma report_total source volume version head rs objects :
  fits W64 volume -> (forall residue, In residue rs -> all_bytes (rr_bytes residue)) -> stored_bytes objects ->
  exists report, report_replica_recovery source volume version head rs objects = Ok report.
Proof using CL PL.
  intros Hv Hb Ho. pose proof (report_cases source volume version head rs objects) as H.
  assert (no_panic (report_replica_recovery source volume version head rs objects)) as Ht.
  { unfold report_replica_recovery. apply no_panic_bind.
    - apply no_panic_fold. intros [[i c] b] residue Hin. unfold report_residue.
      assert (no_panic (inventory_replica source volume residue)) as Hi.
      { unfold inventory_replica, recovered, verify_scan_identity.
        pose proof (scan_loop_total (length (rr_bytes residue)) (rr_bytes residue) 0 replay_start (Hb _ Hin) (le_n _)). no_panic. }
      unfold no_panic in *. now destruct (inventory_replica source volume residue).
    - intros [[i c] b] _. pose proof (export_total source volume version head rs objects Hv Hb Ho) as He.
      unfold no_panic in *. now destruct (export_replica_recovery _ _ _ _ _ _) as [e|[]|]. }
  unfold no_panic in Ht. destruct (report_replica_recovery _ _ _ _ _ _); [eauto|easy..].
Qed.

(** ** The loop ends *)
Definition absent (objects : StoreObjects) (key : string) : bool := bool_decide (objects !! key = None).
Lemma absent_insert objects key bs k :
  absent (<[key := bs]> objects) k = negb (bool_decide (k = key)) && absent objects k.
Proof.
  unfold absent. destruct (decide (k = key)) as [->|Hk].
  - rewrite lookup_insert_eq. now rewrite bool_decide_false, (bool_decide_true (key = key)).
  - rewrite lookup_insert_ne by congruence. now rewrite (bool_decide_false (k = key)).
Qed.
Lemma absent_le objects key bs l :
  (length (List.filter (absent (<[key := bs]> objects)) l) <= length (List.filter (absent objects) l))%nat.
Proof.
  induction l as [|k l IH]; simpl; [lia|]. rewrite absent_insert.
  destruct (negb _), (absent objects k); simpl; lia.
Qed.
Lemma absent_lt objects key bs l : In key l -> objects !! key = None ->
  (length (List.filter (absent (<[key := bs]> objects)) l) < length (List.filter (absent objects) l))%nat.
Proof.
  intros Hin Hn. apply in_split in Hin as (a & b & ->). rewrite !List.filter_app. simpl.
  rewrite absent_insert, bool_decide_true by reflexivity. assert (absent objects key = true) as -> by now apply bool_decide_true.
  simpl. rewrite !length_app. simpl. pose proof (absent_le objects key bs a). pose proof (absent_le objects key bs b). lia.
Qed.
(** Every read is answered, and objects are bytes. *)
Definition readable (get : StoreReads) : Prop :=
  forall round key, exists found, get round key = Some found /\ forall bs, found = Some bs -> all_bytes bs.
Section Loop.
Context (get : StoreReads) (source volume version : Z) (head : HeadRecord) (rs : list ReplicaResidue).
Hypothesis get_readable : readable get.
Hypothesis volume_fits : fits W64 volume.
Hypothesis residue_bytes : forall residue, In residue rs -> all_bytes (rr_bytes residue).
Variable J : StoreObjects -> Prop.
Hypothesis J_fetch : forall round objects key bs, J objects -> objects !! key = None ->
  In key (wanted_keys volume head rs) -> get round key = Some (Some bs) -> J (<[key := bs]> objects).
Lemma loop_ends fuel : forall round objects, stored_bytes objects -> J objects ->
  (length (List.filter (absent objects) (wanted_keys volume head rs)) < fuel)%nat ->
  exists report objects' last, report_loop fuel round get source volume version head rs objects = Ok (Some (report, objects'))
    /\ report_replica_recovery source volume version head rs objects' = Ok report
    /\ (forall key, In key (rep_missing_objects report) -> get last key = Some None)
    /\ stored_bytes objects' /\ J objects'.
Proof using CL PL get_readable volume_fits residue_bytes J_fetch.
  induction fuel as [|fuel IH]; intros round objects Hs HJ Hf; [lia|]. cbn [report_loop].
  destruct (report_total source volume version head rs objects volume_fits residue_bytes Hs) as [report Hr].
  pose proof (report_cases source volume version head rs objects) as Hm. rewrite Hr in Hm |- *. cbn [outcome_bind].
  pose proof (export_asks source volume version head rs objects) as Ha.
  assert (rep_missing_objects report = [] \/ exists key, rep_missing_objects report = [key]
    /\ In key (wanted_keys volume head rs) /\ objects !! key = None) as [He|(key & He & Hin & Hn)].
  { rewrite Hm. destruct (export_replica_recovery _ _ _ _ _ _) as [e|[]|]; auto. right. eexists. split; [reflexivity|]. exact (Ha _ eq_refl). }
  - rewrite He. simpl. exists report, objects, round. split; [reflexivity|]. split; [exact Hr|]. rewrite He. easy.
  - rewrite He. cbn [fold_outcome fetch]. rewrite bool_decide_false by (rewrite Hn; apply is_Some_None).
    destruct (get_readable round key) as (found & Hg & Hb). rewrite Hg. cbn [expect outcome_bind]. destruct found as [bs|].
    + apply IH; [|now apply (J_fetch round)|pose proof (absent_lt objects key bs _ Hin Hn); lia].
      intros k b. destruct (decide (k = key)) as [->|Hk]; [rewrite lookup_insert_eq; intros [= <-]; auto|].
      rewrite lookup_insert_ne by congruence. apply Hs.
    + exists report, objects, round. split; [reflexivity|]. split; [exact Hr|]. rewrite He.
      split; [intros k [<-|[]]; exact Hg|auto].
Qed.
End Loop.

(** C24. The tool's loop ends, whatever the store answers. However the store
    changes between the reads, as long as it answers them, the loop returns
    after at most one round more than there are keys it can ask for: the
    manifest the head names and the files of the newest commit of each spool.
    Its report is the report on exactly the objects fetched, all of them keys
    of that list, and the objects it still misses were not in the store when
    they were last asked for. *)
Theorem recovery_fetch_terminates get source volume version head rs fuel :
  fits W64 volume -> (forall residue, In residue rs -> all_bytes (rr_bytes residue)) -> readable get ->
  (length (wanted_keys volume head rs) < fuel)%nat ->
  exists report objects last, report_loop fuel 0 get source volume version head rs ∅ = Ok (Some (report, objects))
    /\ report_replica_recovery source volume version head rs objects = Ok report
    /\ (forall key, In key (rep_missing_objects report) -> get last key = Some None)
    /\ (forall key bs, objects !! key = Some bs -> In key (wanted_keys volume head rs) /\ exists round, get round key = Some (Some bs)).
Proof using CL PL.
  intros Hv Hb Hg Hf.
  destruct (loop_ends get source volume version head rs Hg Hv Hb (fun objects => forall key bs, objects !! key = Some bs ->
    In key (wanted_keys volume head rs) /\ exists round, get round key = Some (Some bs))) with (fuel := fuel) (round := 0%nat) (objects := (∅ : StoreObjects))
    as (report & objects & last & H1 & H2 & H3 & _ & H4); [|easy..| |eauto 10].
  - intros round objects key bs HJ _ Hin Hget k b. destruct (decide (k = key)) as [->|Hk].
    + rewrite lookup_insert_eq. intros [= <-]. eauto.
    + rewrite lookup_insert_ne by congruence. apply HJ.
  - pose proof (List.filter_length_le (absent ∅) (wanted_keys volume head rs)). lia.
Qed.

(** C25. Fetching on demand is reading the whole store. While the store does
    not change, the loop's report is the report on the store itself, and the
    export from the objects it fetched is the export from the store: the same
    recovery, or the same reason why there is none. *)
Theorem recovery_fetch_exact store source volume version head rs fuel :
  fits W64 volume -> (forall residue, In residue rs -> all_bytes (rr_bytes residue)) -> stored_bytes store ->
  (length (wanted_keys volume head rs) < fuel)%nat ->
  exists report objects,
    report_loop fuel 0 (fun _ key => Some (store !! key)) source volume version head rs ∅ = Ok (Some (report, objects))
    /\ report_replica_recovery source volume version head rs store = Ok report
    /\ export_replica_recovery source volume version head rs objects = export_replica_recovery source volume version head rs store
    /\ objects ⊆ store.
Proof using CL PL.
  intros Hv Hb Hs Hf. assert (readable (fun _ key => Some (store !! key))) as Hg by (intros r k; eauto).
  destruct (loop_ends _ source volume version head rs Hg Hv Hb (fun objects => objects ⊆ store))
    with (fuel := fuel) (round := 0%nat) (objects := (∅ : StoreObjects))
    as (report & objects & last & H1 & H2 & H3 & _ & H4).
  - intros _ objects key bs Hsub _ _ [= Hk]. now apply insert_subseteq_l.
  - easy.
  - apply map_empty_subseteq.
  - pose proof (List.filter_length_le (absent ∅) (wanted_keys volume head rs)). lia.
  - pose proof (report_cases source volume version head rs objects) as Hm. rewrite H2 in Hm.
    assert (export_replica_recovery source volume version head rs store = export_replica_recovery source volume version head rs objects) as He.
    { apply export_agrees; [exact H4|]. intros [] Hkey; try exact I. simpl. rewrite Hkey in Hm. simpl in Hm.
      specialize (H3 key). rewrite Hm in H3. specialize (H3 (or_introl eq_refl)). congruence. }
    exists report, objects. split; [exact H1|]. split; [|auto]. rewrite <- H2. unfold report_replica_recovery. now rewrite He.
Qed.
End Fetching.
