(* ===== verification/PeerRecovery.v ===== *)
(** * From acknowledgement to recovery

    The tool reads the files a peer's inbox wrote, in whatever state the peer
    stopped: what the peer acknowledged is what the operator recovers. *)

From stdpp Require Import gmap.
From S2P Require Import Prelude Format Types OrdMap Text Head Layout HostState HostSafety.
From S2P Require Import Blx BlxFile BlxScan Manifest PageFile Journal JournalFormat ReplicaSpool SpoolSafety.
From S2P Require Import ReplicaInbox InboxSafety InboxDurable InboxRestart InboxProtocol.
From S2P Require Import ReplicaRecovery RecoverySafety RecoveryTool.

#[local] Open Scope Z_scope.

(** ** Loading groups files as a restart does *)
Definition residue_identity (source volume : Z) (name : string) : option (Z * Z * Z) :=
  match parse_blob name with
  | Some (Blob_ReplicaSpool s v e g) => if bool_decide ((s, v) = (source, volume)) then Some (s, e, g) else None
  | _ => None
  end.
Definition residue_key (source volume epoch : Z) : ReplicaKey :=
  {| rk_source := source; rk_volume := volume; rk_assignment_epoch := epoch |}.
Lemma residue_identity_file source volume name s e g :
  residue_identity source volume name = Some (s, e, g)
  <-> s = source /\ file_identity name = Some (residue_key source volume e, g).
Proof.
  unfold residue_identity, file_identity, residue_key. destruct (parse_blob name) as [[]|]; try (split; [discriminate|intros [_ [=]]]).
  case_bool_decide as H.
  - injection H as -> ->. split; [intros [= <- <- <-]; auto|intros [-> [= -> ->]]; reflexivity].
  - split; [discriminate|]. intros [-> [= -> -> _ _]]. easy.
Qed.
Lemma load_residues_groups source volume files :
  load_residues source volume files
  = map (fun '((s, epoch), files) => (s, epoch, concat (map (fun path => path.2.2) files)))
      (group_files (residue_identity source volume) files).
Proof.
  unfold load_residues, group_files. f_equal. generalize (@nil (Z * Z * Group)).
  induction files as [|[name bs] files IH]; intros groups; simpl; [reflexivity|]. rewrite IH. f_equal.
  unfold group_file, residue_identity. simpl. destruct (parse_blob name) as [[]|]; try reflexivity. now case_bool_decide.
Qed.

Section Loading.
Context `{C : Crc} `{CL : !CrcLaws C} `{L : Lz4} `{P : PageSize} `{PL : !PageSizeLaws P}.
Variable sends : ReplicaKey -> ReplicaCommitInfo -> Prop.
Variable sound : ReplicaKey -> bool.
Variable config : HostConfig.
Variable capacity : Z.
#[local] Abbreviation disk_ok := (disk_ok sends sound config capacity).

Lemma residue_files_distinct G n source volume : disk_ok G n -> distinct_files (residue_identity source volume) (n_blobs n).
Proof.
  intros D e e' [[s epoch] g] H H' (-> & Hf)%residue_identity_file (_ & Hf')%residue_identity_file.
  now apply (disk_files_distinct sends sound config capacity G n D e e' (residue_key source volume epoch, g)).
Qed.
Lemma group_of_residue G n source volume epoch : disk_ok G n -> good sound (residue_key source volume epoch) ->
  bt_get (source, epoch) (group_files (residue_identity source volume) (n_blobs n))
  = (fun lg => gen_from (residue_key source volume epoch) 0 (log_files lg)) <$> G (residue_key source volume epoch).
Proof.
  intros D Hk. set (key := residue_key source volume epoch) in *. rewrite <- (group_of_key sends sound config capacity G n key D Hk).
  rewrite replica_blobs_groups.
  destruct (files_grouped _ _ (disk_files_distinct _ _ _ _ G n D)) as [_ A2 A3].
  destruct (files_grouped _ _ (residue_files_distinct G n source volume D)) as [_ B2 B3].
  assert (forall g name bs, In (name, bs) (n_blobs n) /\ residue_identity source volume name = Some (source, epoch, g)
    <-> In (name, bs) (n_blobs n) /\ file_identity name = Some (key, g)) as Hsame.
  { intros g name bs. rewrite residue_identity_file. fold key. tauto. }
  set (ga := group_files file_identity (n_blobs n)) in *. set (gb := group_files (residue_identity source volume) (n_blobs n)) in *.
  assert (forall g, bt_get g (default [] (bt_get (source, epoch) gb)) = bt_get g (default [] (bt_get key ga))) as Hget.
  { intros g. destruct (bt_get g (default [] (bt_get key ga))) as [[name bs]|] eqn:Ha.
    - apply (B3 (source, epoch) g name bs), Hsame, A3. split; [|exact Ha]. now intros E; rewrite E in Ha.
    - destruct (bt_get g (default [] (bt_get (source, epoch) gb))) as [[name bs]|] eqn:Hb; [|reflexivity].
      rewrite <- Ha. symmetry. apply (A3 key g name bs), Hsame, B3. split; [|exact Hb]. now intros E; rewrite E in Hb. }
  assert (forall K (OL : RustOrd K) (m : BTreeMap K Group) k, (forall x, bt_get k m = Some x -> bt_sorted x /\ x <> []) ->
    bt_sorted (default [] (bt_get k m))) as Hs.
  { intros K OL m k H. destruct (bt_get k m); [now apply H|constructor]. }
  pose proof (bt_ext _ _ (Hs _ _ gb _ (B2 _)) (Hs _ _ ga _ (A2 _)) Hget) as Heq.
  destruct (bt_get (source, epoch) gb) as [x|] eqn:Hx, (bt_get key ga) as [y|] eqn:Hy; simpl in Heq; subst; try reflexivity.
  - now destruct (B2 _ _ Hx).
  - now destruct (A2 _ _ Hy).
Qed.
(** The residues are the logs of the source and volume, joined. *)
Lemma load_residues_logs G n source volume s epoch bs : disk_ok G n ->
  (forall epoch, sound (residue_key source volume epoch) = true) ->
  In (s, epoch, bs) (load_residues source volume (n_blobs n)) <->
  s = source /\ key_ok (residue_key source volume epoch)
  /\ exists lg, G (residue_key source volume epoch) = Some lg /\ bs = spool_bytes (log_frames lg) ++ lg_torn lg.
Proof.
  intros D Hs. rewrite load_residues_groups, in_map_iff. destruct (files_grouped _ _ (residue_files_distinct G n source volume D)) as [B1 B2 B3].
  split.
  - intros ([[s' epoch'] m] & [= -> -> <-] & Hin). apply In_bt_get in Hin; [|exact B1].
    destruct (B2 _ _ Hin) as [Hm Hne]. assert (exists g name b, bt_get g m = Some (name, b)) as (g & name & b & Hg).
    { destruct m as [|[g [name b]] m]; [easy|]. exists g, name, b. simpl. now rewrite cmp_refl. }
    destruct (proj1 (B3 (s, epoch) g name b)) as [Hb Hi]; [rewrite Hin; auto|]. apply residue_identity_file in Hi as [-> Hi].
    assert (key_ok (residue_key source volume epoch)) as Hk.
    { apply In_bt_get in Hb; [|apply (dk_sorted _ _ _ _ _ _ D)]. unfold file_identity in Hi.
      destruct (parse_blob name) as [[]|] eqn:Hp; try discriminate. injection Hi as -> -> ->.
      now destruct (dk_names _ _ _ _ _ _ D _ _ _ _ _ _ Hb Hp) as (_ & Hk & _). }
    split; [reflexivity|]. split; [exact Hk|]. rewrite (group_of_residue G n source volume epoch D (conj Hk (Hs epoch))) in Hin.
    destruct (G _) as [lg|]; [|discriminate]. injection Hin as <-. exists lg. split; [reflexivity|].
    now rewrite gen_from_bytes, log_joined.
  - intros (-> & Hk & lg & HG & ->). pose proof (group_of_residue G n source volume epoch D (conj Hk (Hs epoch))) as Hg. rewrite HG in Hg.
    apply bt_get_In in Hg. eexists (_, _). split; [|exact Hg]. simpl. now rewrite gen_from_bytes, log_joined.
Qed.

(** ** A log reads back as a spool *)
Definition residue_of (peer source epoch : Z) (lg : Log) : ReplicaResidue :=
  {| rr_source := source; rr_peer := peer; rr_assignment_epoch := epoch;
     rr_bytes := spool_bytes (log_frames lg) ++ lg_torn lg |}.
Lemma log_scans peer source volume epoch lg rp : log_ok sends (residue_key source volume epoch) lg rp ->
  exists scan, scan_replica_spool (rr_bytes (residue_of peer source epoch lg)) = Ok scan
    /\ ss_commits scan = rp_commits rp
    /\ verify_scan_identity source volume (residue_of peer source epoch lg) scan = Ok tt.
Proof using CL.
  intros H. eexists. split; [exact (scan_log sends _ _ _ H)|]. split; [reflexivity|].
  pose proof (frames_replay_ok _ _ _ _ (lk_frames _ _ _ _ H)) as R. unfold verify_scan_identity. simpl.
  assert (forall i, rp_identity rp = Some i -> i = (source, volume, epoch)) as Hid.
  { intros i Hi. exact (log_identity _ _ _ _ _ H Hi). }
  match goal with |- (if ?b then _ else _) = _ => enough (b = true) as -> by reflexivity end.
  rewrite Z.eqb_refl. apply andb_true_iff. split.
  - apply forallb_forall. intros f (e & <- & He)%in_map_iff. destruct e as [a f]. apply In_bt_get in He; [|apply (rpo_sorted _ R)].
    destruct (rpo_keyed _ R a f He) as (_ & _ & Hi). specialize (Hid _ Hi). simpl. injection Hid as -> -> ->. now rewrite !Z.eqb_refl.
  - apply forallb_forall. intros c Hc. destruct (rpo_commits _ R c Hc) as (_ & Hi & _). specialize (Hid _ Hi).
    injection Hid as -> -> ->. now rewrite !Z.eqb_refl.
Qed.
Lemma log_commit_decodes key lg rp c : log_ok sends key lg rp -> In c (rp_commits rp) ->
  exists record, JournalRecord_decode (rk_volume key) (cf_record c) = Ok record.
Proof.
  intros H Hc. pose proof (frames_replay_ok _ _ _ _ (lk_frames _ _ _ _ H)) as R.
  destruct (rpo_commits _ R c Hc) as ((_ & _ & Hv) & Hi & _). pose proof (log_identity _ _ _ _ _ H Hi) as He. injection He as _ He _.
  rewrite He in Hv. unfold verify_record, spool in Hv. destruct (JournalRecord_decode _ _); [eauto|discriminate..].
Qed.
(** The spool of a log with a commit says its newest commit. *)
Lemma log_says peer source volume epoch lg rp commit : log_ok sends (residue_key source volume epoch) lg rp ->
  list.last (rp_commits rp) = Some commit ->
  exists scan record, spool_says source volume (residue_of peer source epoch lg) scan commit record.
Proof using CL.
  intros H Hl. destruct (log_scans peer _ _ _ _ _ H) as (scan & Hs & Hc & Hv).
  destruct (log_commit_decodes _ _ _ commit H) as [record Hr]; [apply last_Some in Hl as [l ->]; apply in_app_iff; right; now left|].
  exists scan, record. repeat split; auto. now rewrite Hc.
Qed.
(** Such a spool is never called corrupt. *)
Definition unreadable (e : ReplicaRecoveryError) : Prop :=
  match e with Recovery_CorruptSpool _ | Recovery_NoCommit => True | _ => False end.
Lemma log_examined peer source volume epoch lg rp version head assignment candidates :
  log_ok sends (residue_key source volume epoch) lg rp ->
  fails (fun e => ~ unreadable e)
    (examine_residue source volume version head assignment candidates (residue_of peer source epoch lg)).
Proof using CL.
  intros H. destruct (log_scans peer _ _ _ _ _ H) as (scan & Hs & Hc & Hv). unfold examine_residue. rewrite Hs.
  cbn [recovered map_err outcome_bind]. rewrite Hv. cbn [outcome_bind]. destruct (_ && _); [failure|]. destruct (list.last _) as [commit|] eqn:Hl; [|failure].
  destruct (log_commit_decodes _ _ _ commit H) as [record Hr].
  { rewrite Hc in Hl. apply last_Some in Hl as [l ->]. apply in_app_iff. right. now left. }
  simpl in Hr. rewrite Hr. cbn [recovered map_err outcome_bind]. failure.
Qed.
End Loading.

Section Composition.
Context `{C : Crc} `{CL : !CrcLaws C} `{L : Lz4} `{P : PageSize} `{PL : !PageSizeLaws P}.
Variable sends : ReplicaKey -> ReplicaCommitInfo -> Prop.
Variable sound : ReplicaKey -> bool.
Hypothesis sends_ranked : forall key, sound key = true -> ranked sends key.
Variable fresh : HostState.
Variable capacity : Z.
#[local] Abbreviation disk_ok := (disk_ok sends sound (hs_config fresh) capacity).

(** The newest commit of a log covers what every commit of it covers. *)
Lemma log_newest key lg rp info : sound key = true -> log_ok sends key lg rp -> has_commit (log_frames lg) info ->
  exists commit, list.last (rp_commits rp) = Some commit
    /\ rci_sync_covered_through info <= rci_sync_covered_through (cf_info commit).
Proof using sends_ranked.
  intros Hs H Hc. pose proof (lk_frames _ _ _ _ H) as Hf. pose proof Hc as (c & Hin & Hi).
  pose proof (replay_has _ _ _ _ (fo_replay _ _ _ _ Hf) Hin) as Hcin. simpl in Hcin.
  destruct (list.last (rp_commits rp)) as [d|] eqn:Hl; [|apply last_None in Hl; now rewrite Hl in Hcin].
  exists d. split; [reflexivity|]. assert (last_commit rp = Some (cf_info d)) as Hlast by (unfold last_commit; now rewrite Hl).
  pose proof (commits_below_last sends key _ rp info _ Hf Hlast Hc) as Hle. apply cmp_leb_le in Hle as [Hlt|Heq]; [|rewrite Heq; lia].
  apply (cmp_le_fst (rank info) (rank (cf_info d))), (sends_ranked key Hs); [|apply (fo_sends _ _ _ _ Hf)|now apply cmp_ltb_lt].
  - rewrite <- Hi. now apply (fo_sends _ _ _ _ Hf).
  - apply last_Some in Hl as [l ->]. apply in_app_iff. right. now left.
Qed.
Lemma residue_logs G n peer source volume residue : disk_ok G n ->
  (forall epoch, sound (residue_key source volume epoch) = true) ->
  In residue (residues peer (load_residues source volume (n_blobs n))) ->
  exists epoch lg rp, residue = residue_of peer source epoch lg /\ log_ok sends (residue_key source volume epoch) lg rp.
Proof using Type.
  intros D Hs. unfold residues. rewrite in_map_iff. intros ([[s epoch] bs] & <- & Hin).
  apply (load_residues_logs sends sound (hs_config fresh) capacity G n) in Hin as (-> & Hk & lg & HG & ->); [|exact D|exact Hs].
  pose proof (dk_logs _ _ _ _ _ _ D _ (conj Hk (Hs epoch))) as Hd. rewrite HG in Hd. destruct Hd as [_ [rp Hl]]. exists epoch, lg, rp. auto.
Qed.

(** What the tool can say about a spool that holds [info]. *)
Definition recovers (info : ReplicaCommitInfo) (result : outcome ReplicaRecoveryError ReplicaExport) : Prop :=
  match result with
  | Ok export => rci_sync_covered_through info <= re_sync_covered_through export
  | Err e => ~ unreadable e
  | Panic => False
  end.
Lemma log_recovers G n key lg info peer version head store : disk_ok G n -> key_ok key ->
  (forall epoch, sound (residue_key (rk_source key) (rk_volume key) epoch) = true) -> G key = Some lg ->
  has_commit (log_frames lg) info -> stored_bytes store ->
  recovers info (export_replica_recovery (rk_source key) (rk_volume key) version head
    (residues peer (load_residues (rk_source key) (rk_volume key) (n_blobs n))) store).
Proof using CL PL sends_ranked.
  intros D Hk Hs HG Hc Hst. destruct key as [source volume epoch]. simpl in *. pose proof (dk_logs _ _ _ _ _ _ D _ (conj Hk (Hs epoch))) as Hd. rewrite HG in Hd.
  destruct Hd as [_ [rp Hl]]. destruct (log_newest _ _ _ _ (Hs epoch) Hl Hc) as (commit & Hlast & Hsync).
  destruct (log_says sends peer source volume epoch lg rp commit Hl Hlast) as (scan & record & Hsay).
  assert (In (residue_of peer source epoch lg) (residues peer (load_residues source volume (n_blobs n)))) as Hin.
  { apply in_map_iff. exists (source, epoch, spool_bytes (log_frames lg) ++ lg_torn lg). split; [reflexivity|].
    apply (load_residues_logs sends sound (hs_config fresh) capacity G n); eauto. }
  set (rs := residues peer _) in *.
  assert (forall residue, In residue rs -> exists epoch lg rp, residue = residue_of peer source epoch lg
    /\ log_ok sends (residue_key source volume epoch) lg rp) as Hrs by (intros; now apply (residue_logs G n)).
  destruct (export_replica_recovery source volume version head rs store) as [e|e|] eqn:He; simpl.
  - apply export_newest in He as (assignment & residue & scan' & commit' & record' & _ & _ & _ & _ & Hmax & _ & Hex).
    specialize (Hmax _ _ _ _ Hin Hsay). unfold export_commit in Hex. apply outcome_bind_Ok in Hex as (r & _ & Hex).
    apply outcome_bind_Ok in Hex as (blobs & _ & [= <-]). simpl. etransitivity; [exact Hsync|].
    exact (cmp_le_fst _ _ Hmax).
  - revert e He. apply export_fails; try easy.
    + intros assignment candidates residue _ Hr. apply Hrs in Hr as (epoch' & lg' & rp' & -> & Hl'). now apply (log_examined sends _ _ _ _ _ rp').
    + intros assignment candidates _ Hf ->. exfalso.
      pose proof (all_vouched source volume version head assignment rs [] _ _ _ _ Hf Hin Hsay) as Hv.
      pose proof (examine_residues source volume version head assignment rs [] [] []) as Hall.
      specialize (Hall ltac:(intros c; split; [intros []|intros (?&?&[]&_)]) Hf (commit_rank commit record, residue_of peer source epoch lg, scan)).
      apply Hall. exists commit, record. auto.
  - revert He. apply export_total; auto; [apply Hk|]. intros residue Hr. apply Hrs in Hr as (epoch' & lg' & rp' & -> & Hl').
    now apply (log_all_bytes sends _ _ _ Hl').
Qed.

End Composition.

Section Recovery.
Context `{C : Crc} `{CL : !CrcLaws C} `{L : Lz4} `{P : PageSize} `{PL : !PageSizeLaws P}.
(** C7. A sync that a peer acknowledged is not lost with its source. Run a
    peer as in the durability theorem, stop it at any point, even in the middle
    of an append or of a deletion, and hand its files to the operator's tool.
    Take any source and volume that commit in order under each assignment and
    whose releases were not cut short by the device; the other sources and
    volumes are unconstrained. For every commit of theirs that the peer vouched
    for and was not told to release: no spool of the source and volume is found
    corrupt or without a commit, nothing panics, and whatever the tool exports,
    against any head and store, covers at least the sync that commit covered.
    Otherwise the export names an assignment the head does not vouch for, or an
    object that the store lacks or holds damaged, or reports that the store is
    already ahead. *)
Theorem acknowledged_sync_recoverable fresh capacity evs :
  hc_disk_capacity (hs_config fresh) = Some capacity -> 0 <= capacity < 2 ^ 63 ->
  0 <= hc_disk_headroom (hs_config fresh) -> hc_spool_capacity_bytes (hs_config fresh) < 2 ^ 63 ->
  hs_replicas fresh = [] -> Forall wellformed evs ->
  exists n outs, inbox_run fresh (first_start fresh) evs = Ok (n, outs)
    /\ length outs = length evs
    /\ forall i w key msg out reply info, evs !! i = Some (Ev_message w key msg) -> outs !! i = Some out -> In reply out ->
       (forall epoch, undisturbed evs (residue_key (rk_source key) (rk_volume key) epoch) = true) ->
       vouches reply info ->
       (forall w' through, In (Ev_message w' key (ReplicaRelease through)) (drop (S i) evs) -> cmp_leb info through = false) ->
       forall peer version head store, stored_bytes store ->
       recovers info (export_replica_recovery (rk_source key) (rk_volume key) version head
         (residues peer (load_residues (rk_source key) (rk_volume key) (n_blobs n))) store).
Proof using CL PL.
  intros Hcap Hsmall Hroom Hspool Hfresh Hwf. pose proof (wellformed_event_ok evs Hwf) as Hev.
  destruct (run_ok _ _ (undisturbed_ranked evs) fresh capacity Hsmall Hspool Hfresh evs _ _
    (first_start_ok (sent evs) (undisturbed evs) fresh capacity Hcap Hsmall Hroom Hfresh) Hev) as (n & outs & G & Hrun & [D _] & _ & Hans).
  exists n, outs. split; [exact Hrun|]. split; [exact (run_length fresh evs _ n outs Hrun)|].
  intros i w key msg out reply info He Ho Hin Hu Hv Hrel peer version head store Hst.
  assert (good (undisturbed evs) key) as Hk.
  { split; [rewrite Forall_lookup in Hev; apply (Hev _ _ He)|]. destruct key as [s v e]. exact (Hu e). }
  destruct (Hans i w key msg out He Ho Hk) as (frames & Ht & Hkeep).
  destruct (truthful_vouches frames key msg reply info (Ht reply Hin) Hv) as [Hc _].
  destruct Hkeep as [more Hm]; [intros w' t Hr; exists info; split; [exact Hc|now apply (Hrel w')]|].
  destruct Hc as (c & Hc & Hi). unfold frames_at in Hm. destruct (G key) as [lg|] eqn:HG.
  - simpl in Hm. eapply (log_recovers _ _ (undisturbed_ranked evs)); eauto; [apply Hk|]. rewrite Hm. exists c. rewrite in_app_iff. auto.
  - simpl in Hm. symmetry in Hm. apply app_eq_nil in Hm as [-> _]. easy.
Qed.
End Recovery.
