(* ===== verification/RecoveryInstall.v ===== *)
(** * Installing a recovered volume ([runtime/src/replica_recovery.rs])

    [install_replica_recovery] claims the volume's head, publishes the archive
    and moves the head to it. Every call to the store is atomic; between two
    calls the other hosts may change the store, a call may find the store
    unavailable, and the answer to a write may be lost. *)

From stdpp Require Import gmap.
From Stdlib Require String.
From S2P Require Import Prelude Format Types Sorting OrdMap Text Head Blx BlxFile BlxBatch BlxScan Manifest Layout.
From S2P Require Import ManifestCodec BatchRefs ManifestClosure PageFile Journal JournalFormat ReplicaSpool.
From S2P Require Import SpoolSafety ReplicaRecovery RecoverySafety.

#[local] Open Scope Z_scope.

Record InstalledReplicaRecovery := { ir_writer_fence : Z; ir_head_version : Z }.
Inductive InstallReplicaRecoveryError :=
| Install_LocalTargetExists
| Install_HeadUnavailable
| Install_HeadMissing
| Install_HeadCorrupt
| Install_ClaimConflict
| Install_ExportCorrupt
| Install_PublishFailed
| Install_LocalIo.

Abbreviation VersionedStore := (gmap string (Z * bytes)).
(** What the installer wrote, with the object it replaced. *)
Record Write := { wr_key : string; wr_bytes : bytes; wr_version : Z; wr_before : option (Z * bytes) }.
Record Session := { se_store : VersionedStore; se_calls : nat; se_writes : list Write }.
Definition session_start (s : VersionedStore) : Session := {| se_store := s; se_calls := 0; se_writes := [] |}.

(** The store and everyone else who uses it: what the others do before the
    [n]-th call, or [None] for an outage; the version the store gives to a
    write; and whether the answer to a write is lost. *)
Record StoreWorld := {
  sw_others : nat -> VersionedStore -> option VersionedStore;
  sw_stamp : nat -> VersionedStore -> string -> Z;
  sw_lost : nat -> bool }.

Section Install.
Context `{C : Crc} `{L : Lz4} `{P : PageSize}.
Variable w : StoreWorld.

Definition store_get (key : string) : action Session unit (option (Z * bytes)) := fun s =>
  match sw_others w (se_calls s) (se_store s) with
  | None => ({| se_store := se_store s; se_calls := S (se_calls s); se_writes := se_writes s |}, Err tt)
  | Some st => ({| se_store := st; se_calls := S (se_calls s); se_writes := se_writes s |}, Ok (st !! key))
  end.
Definition write_if (allowed : option (Z * bytes) -> bool) (key : string) (bs : bytes) : action Session unit Z := fun s =>
  let n := se_calls s in
  match sw_others w n (se_store s) with
  | None => ({| se_store := se_store s; se_calls := S n; se_writes := se_writes s |}, Err tt)
  | Some st =>
      if allowed (st !! key) then
        let version := sw_stamp w n st key in
        ({| se_store := <[key := (version, bs)]> st; se_calls := S n;
            se_writes := se_writes s ++ [{| wr_key := key; wr_bytes := bs; wr_version := version;
                                            wr_before := st !! key |}] |},
         if sw_lost w n then Err tt else Ok version)
      else ({| se_store := st; se_calls := S n; se_writes := se_writes s |}, Err tt)
  end.
Definition store_put : string -> bytes -> action Session unit Z := write_if (fun _ => true).
Definition store_put_cas (key : string) (expected : option Z) : bytes -> action Session unit Z :=
  write_if (fun current => bool_decide (option_map fst current = expected)) key.

Definition or_fail {S E F A} (e : F) (c : action S E A) : action S F A :=
  fun s => let '(s, r) := c s in (s, map_err (fun _ => e) r).
Definition put_all (objects : list (string * bytes)) : action Session InstallReplicaRecoveryError unit :=
  act_fold (fun _ '(key, bs) => let! _ := or_fail Install_PublishFailed (store_put key bs) in act_ret tt) tt objects.
(** [target_exists] and [promoted] are what the local file system answers. *)
Definition install_replica_recovery (target_exists : outcome unit bool) (promoted : bool)
    (claimant volume verified_head_version : Z) (export : ReplicaExport)
  : action Session InstallReplicaRecoveryError InstalledReplicaRecovery :=
  let! found := act_lift (map_err (fun _ => Install_LocalIo) target_exists) in
  if (found : bool) then act_fail Install_LocalTargetExists else
  let! found := or_fail Install_HeadUnavailable (store_get (head_key volume)) in
  let! (observed_version, observed_bytes) := act_lift (ok_or found Install_HeadMissing) in
  let! observed := act_lift (map_err (fun _ => Install_HeadCorrupt) (HeadRecord_decode volume observed_bytes)) in
  if negb (observed_version =? verified_head_version) then act_fail Install_ClaimConflict else
  let claim := prepare_replica_recovery_claim observed_version observed claimant export in
  let! claim_bytes := act_lift (HeadRecord_encode (rc_head claim)) in
  let! writer_fence := or_fail Install_ClaimConflict
                         (store_put_cas (head_key volume) (Some (rc_expected_version claim)) claim_bytes) in
  let! publication := act_lift (map_err (fun _ => Install_ExportCorrupt)
                        (prepare_replica_publication volume claimant writer_fence (rc_head claim) export)) in
  let! _ := put_all (rpub_store_objects publication) in
  let! publication_bytes := act_lift (HeadRecord_encode (rpub_head publication)) in
  let! head_version := or_fail Install_ClaimConflict
                         (store_put_cas (head_key volume) (Some writer_fence) publication_bytes) in
  if promoted then act_ret {| ir_writer_fence := writer_fence; ir_head_version := head_version |}
  else act_fail Install_LocalIo.
End Install.

(** ** What an installation leaves behind *)
(** Versions of an object grow with every write, and nobody deletes a head. *)
Record StoreWorld_ok (head : string) (w : StoreWorld) : Prop := {
  sw_monotone n st st' v bs : sw_others w n st = Some st' -> st !! head = Some (v, bs) ->
    exists v' bs', st' !! head = Some (v', bs') /\ (v < v' \/ (v', bs') = (v, bs));
  sw_fresh n st key v bs : st !! key = Some (v, bs) -> v < sw_stamp w n st key }.
Definition contents (write : Write) : string * bytes := (wr_key write, wr_bytes write).

Definition not_ok {E A} (r : outcome E A) : Prop := forall a, r <> Ok a.
Lemma bind_run {S E A B} (c : action S E A) (k : A -> action S E B) s s' r : act_bind k c s = (s', r) ->
  exists s1 r1, c s = (s1, r1) /\ ((exists a, r1 = Ok a /\ k a s1 = (s', r)) \/ (s' = s1 /\ not_ok r1 /\ not_ok r)).
Proof.
  unfold act_bind. destruct (c s) as [s1 r1]. intros H. exists s1, r1. split; [reflexivity|].
  destruct r1 as [a|e|]; [left; eauto|right; injection H as <- <-; repeat split; discriminate..].
Qed.
Lemma lift_run {S E A B} (c : outcome E A) (k : A -> action S E B) s s' r : act_bind k (act_lift c) s = (s', r) ->
  (exists a, c = Ok a /\ k a s = (s', r)) \/ (s' = s /\ not_ok r).
Proof. intros (s1 & r1 & [= <- <-] & [H|(-> & _ & H)])%bind_run; auto. Qed.
Lemma map_err_Ok {E F A} (f : E -> F) (c : outcome E A) a : map_err f c = Ok a -> c = Ok a.
Proof. destruct c; simpl; congruence. Qed.
Lemma or_fail_run {S E F A} (e : F) (c : action S E A) s s' r : or_fail e c s = (s', r) ->
  exists r', c s = (s', r') /\ r = map_err (fun _ => e) r'.
Proof. unfold or_fail. destruct (c s) as [s1 r1]. intros [= <- <-]. eauto. Qed.

Section Installing.
Context `{C : Crc} `{L : Lz4} `{P : PageSize}.
Variables (claimant volume verified : Z) (export : ReplicaExport).
Abbreviation head := (head_key volume).

(** The claim replaces the verified head and keeps its archive. *)
Record claims (claim : Write) (observed : HeadRecord) : Prop := {
  cl_key : wr_key claim = head;
  cl_before : exists bs, wr_before claim = Some (verified, bs) /\ HeadRecord_decode volume bs = Ok observed;
  cl_bytes : HeadRecord_encode (E := InstallReplicaRecoveryError)
               (rc_head (prepare_replica_recovery_claim verified observed claimant export)) = Ok (wr_bytes claim);
  cl_newer : verified < wr_version claim }.
(** The publication replaces that claim and nothing else. *)
Record publishes (claim publish : Write) (publication : ReplicaPublication) : Prop := {
  pb_key : wr_key publish = head;
  pb_before : wr_before publish = Some (wr_version claim, wr_bytes claim);
  pb_bytes : HeadRecord_encode (E := InstallReplicaRecoveryError) (rpub_head publication) = Ok (wr_bytes publish);
  pb_newer : wr_version claim < wr_version publish }.
Definition prepared (claim : Write) (observed : HeadRecord) : outcome ReplicaRecoveryError ReplicaPublication :=
  prepare_replica_publication volume claimant (wr_version claim)
    (rc_head (prepare_replica_recovery_claim verified observed claimant export)) export.
Inductive installation : list Write -> outcome InstallReplicaRecoveryError InstalledReplicaRecovery -> Prop :=
| Not_claimed r : not_ok r -> installation [] r
| Only_claimed claim observed r : claims claim observed -> not_ok r -> installation [claim] r
| Half_published claim observed publication puts rest r :
    claims claim observed -> prepared claim observed = Ok publication ->
    rpub_store_objects publication = map contents puts ++ rest -> not_ok r -> installation (claim :: puts) r
| Published claim observed publication puts publish r :
    claims claim observed -> prepared claim observed = Ok publication ->
    rpub_store_objects publication = map contents puts -> publishes claim publish publication ->
    r = Ok {| ir_writer_fence := wr_version claim; ir_head_version := wr_version publish |} \/ not_ok r ->
    installation (claim :: puts ++ [publish]) r.

Variable w : StoreWorld.
Hypothesis w_ok : StoreWorld_ok head w.

Lemma get_run key s s' r : store_get w key s = (s', r) ->
  se_writes s' = se_writes s /\ (r = Ok (se_store s' !! key) \/ r = Err tt).
Proof using Type. unfold store_get. destruct (sw_others w _ _); intros [= <- <-]; auto. Qed.
Lemma write_run allowed key bs s s' r : write_if w allowed key bs s = (s', r) ->
  (se_writes s' = se_writes s /\ r = Err tt /\ (se_store s' = se_store s \/ exists n, sw_others w n (se_store s) = Some (se_store s')))
  \/ (exists n st, sw_others w n (se_store s) = Some st /\ allowed (st !! key) = true
      /\ se_store s' = <[key := (sw_stamp w n st key, bs)]> st
      /\ se_writes s' = se_writes s ++ [{| wr_key := key; wr_bytes := bs; wr_version := sw_stamp w n st key; wr_before := st !! key |}]
      /\ (r = Ok (sw_stamp w n st key) \/ r = Err tt)).
Proof using Type.
  unfold write_if. destruct (sw_others w (se_calls s) (se_store s)) as [st|] eqn:Ho; [|intros [= <- <-]; left; auto].
  destruct (allowed (st !! key)) eqn:Ha; [|intros [= <- <-]; left; simpl; eauto 10].
  intros [= <- <-]. right. exists (se_calls s), st. simpl. do 4 (split; [auto|]). destruct (sw_lost w (se_calls s)); auto.
Qed.
(** Once claimed, the head is the claim or something newer. *)
Definition kept (claim : Write) (st : VersionedStore) : Prop :=
  exists v bs, st !! head = Some (v, bs) /\ (wr_version claim < v \/ (v, bs) = (wr_version claim, wr_bytes claim)).
Lemma kept_others claim n st st' : sw_others w n st = Some st' -> kept claim st -> kept claim st'.
Proof using w_ok.
  intros Ho (v & bs & Hh & Hv). destruct (sw_monotone _ _ w_ok _ _ _ _ _ Ho Hh) as (v' & bs' & Hh' & Hv'). exists v', bs'.
  split; [exact Hh'|]. destruct Hv as [Hv|Hv], Hv' as [Hv'|Hv']; try (injection Hv' as -> ->); try (injection Hv as -> ->); auto; left; lia.
Qed.
Lemma kept_put claim n st key bs : kept claim st -> kept claim (<[key := (sw_stamp w n st key, bs)]> st).
Proof using w_ok.
  intros (v & b & Hh & Hv). unfold kept. destruct (decide (key = head)) as [->|Hk].
  - rewrite lookup_insert_eq. do 2 eexists. split; [reflexivity|]. left. pose proof (sw_fresh _ _ w_ok n st _ _ _ Hh).
    destruct Hv as [Hv|[= -> ->]]; lia.
  - rewrite lookup_insert_ne by exact Hk. eauto.
Qed.
Lemma put_all_cons key bs objects s :
  put_all w ((key, bs) :: objects) s
  = let '(s, r) := store_put w key bs s in
    match r with
    | Ok _ => put_all w objects s
    | Err _ => (s, Err Install_PublishFailed)
    | Panic => (s, Panic)
    end.
Proof using Type. unfold put_all. cbn [act_fold]. unfold act_bind, or_fail. now destruct (store_put w key bs s) as [s1 []]. Qed.
Lemma put_all_run claim objects : forall s s' r, put_all w objects s = (s', r) -> kept claim (se_store s) ->
  kept claim (se_store s')
  /\ exists puts rest, se_writes s' = se_writes s ++ puts /\ objects = map contents puts ++ rest
     /\ (r = Ok tt /\ rest = [] \/ r = Err Install_PublishFailed).
Proof using w_ok.
  induction objects as [|[key bs] objects IH]; intros s s' r H Hk.
  { change ((s, Ok tt) = (s', r)) in H. injection H as <- <-. split; [exact Hk|]. exists [], []. rewrite app_nil_r. auto. }
  rewrite put_all_cons in H.
  destruct (store_put w key bs s) as [s1 r1] eqn:Hp. apply write_run in Hp as [(Hw & -> & Hs)|(n & st & Ho & _ & Hs & Hw & Hr)].
  - injection H as <- <-. split; [|exists [], ((key, bs) :: objects); rewrite app_nil_r; auto].
    destruct Hs as [->|[n Hs]]; [exact Hk|]. now apply (kept_others claim n (se_store s)).
  - assert (kept claim (se_store s1)) as Hk1 by (rewrite Hs; apply kept_put, (kept_others claim n (se_store s)); auto).
    destruct Hr as [-> | ->].
    + destruct (IH s1 s' r H Hk1) as (Hk' & puts & rest & Hw' & Hobj & Hr). split; [exact Hk'|].
      eexists (_ :: puts), rest. split; [rewrite Hw', Hw, <- app_assoc; reflexivity|]. split; [simpl; now rewrite <- Hobj|exact Hr].
    + injection H as <- <-. split; [exact Hk1|]. eexists [_], objects. split; [exact Hw|]. split; [reflexivity|auto].
Qed.
Lemma publish_run claim observed publication puts s s' r (promoted : bool) :
  claims claim observed -> prepared claim observed = Ok publication ->
  rpub_store_objects publication = map contents puts -> kept claim (se_store s) -> se_writes s = claim :: puts ->
  (let! publication_bytes := act_lift (HeadRecord_encode (rpub_head publication)) in
   let! head_version := or_fail Install_ClaimConflict
                          (store_put_cas w head (Some (wr_version claim)) publication_bytes) in
   if promoted then act_ret {| ir_writer_fence := wr_version claim; ir_head_version := head_version |}
   else act_fail Install_LocalIo) s = (s', r) ->
  installation (se_writes s') r.
Proof using w_ok.
  intros Hc Hp Ho Hk Hw H.
  assert (forall r, not_ok r -> installation (claim :: puts) r) as Hhalf.
  { intros r' Hr'. apply (Half_published claim observed publication puts []); auto. now rewrite app_nil_r. }
  apply lift_run in H as [(bs & He & H)|[-> H]]; [|rewrite Hw; now apply Hhalf].
  apply bind_run in H as (s1 & r1 & (r1' & Hcas & ->)%or_fail_run & H).
  apply write_run in Hcas as [(Hw1 & -> & _)|(n & st & Hot & Ha & Hs & Hw1 & Hr)].
  { destruct H as [(v & [=] & _)|(-> & _ & H)]. rewrite Hw1, Hw. now apply Hhalf. }
  apply bool_decide_eq_true in Ha. destruct (kept_others claim n _ _ Hot Hk) as (v & b & Hh & Hv).
  rewrite Hh in Ha. injection Ha as Ha. destruct Hv as [Hv|Hv]; [lia|]. injection Hv as -> ->.
  assert (exists publish, se_writes s1 = claim :: puts ++ [publish] /\ wr_version publish = sw_stamp w n st head
    /\ publishes claim publish publication) as (publish & Hw2 & Hver & Hpub).
  { eexists. rewrite Hw1, Hw. split; [reflexivity|]. split; [reflexivity|]. split; auto. apply (sw_fresh _ _ w_ok _ _ _ _ _ Hh). }
  assert (se_writes s' = se_writes s1 /\ (r = Ok {| ir_writer_fence := wr_version claim; ir_head_version := wr_version publish |}
    \/ not_ok r)) as [-> Hres].
  { destruct H as [(v & Hv%map_err_Ok & H)|(-> & _ & H)]; [|auto].
    destruct Hr as [-> | ->]; [injection Hv as <-|discriminate]. rewrite Hver.
    destruct promoted; injection H as <- <-; [auto|]. split; [reflexivity|right; discriminate]. }
  rewrite Hw2. now apply (Published claim observed publication puts publish).
Qed.
Lemma claimed_run claim observed s s' r (promoted : bool) :
  claims claim observed -> kept claim (se_store s) -> se_writes s = [claim] ->
  (let! publication := act_lift (map_err (fun _ => Install_ExportCorrupt) (prepared claim observed)) in
   let! _ := put_all w (rpub_store_objects publication) in
   let! publication_bytes := act_lift (HeadRecord_encode (rpub_head publication)) in
   let! head_version := or_fail Install_ClaimConflict
                          (store_put_cas w head (Some (wr_version claim)) publication_bytes) in
   if promoted then act_ret {| ir_writer_fence := wr_version claim; ir_head_version := head_version |}
   else act_fail Install_LocalIo) s = (s', r) \/ (s' = s /\ not_ok r) ->
  installation (se_writes s') r.
Proof using w_ok.
  intros Hc Hk Hw [H|[-> H]]; [|rewrite Hw; now apply (Only_claimed claim observed)].
  apply lift_run in H as [(publication & Hp%map_err_Ok & H)|[-> H]]; [|rewrite Hw; now apply (Only_claimed claim observed)].
  apply bind_run in H as (s1 & r1 & Hput & H).
  destruct (put_all_run claim _ s s1 r1 Hput Hk) as (Hk1 & puts & rest & Hw1 & Ho & Hr). rewrite Hw in Hw1.
  destruct H as [([] & Hr1 & H)|(-> & Hr1 & H)].
  - destruct Hr as [[_ ->]|Hr]; [|congruence]. rewrite app_nil_r in Ho. now apply (publish_run claim observed publication puts s1 s' r promoted).
  - rewrite Hw1. now apply (Half_published claim observed publication puts rest).
Qed.

(** C9. An installation takes over exactly the head it was verified against.
    Whatever the other hosts do between the calls, and whichever call fails or
    loses its answer, what the installer writes is a prefix of this: the claim,
    directly over the verified version of the head, with the archive it named;
    the objects of the publication prepared for the claim's version; and the
    new head, directly over that claim, so nobody touched the head in between.
    The head moves to the archive only after every object of it was written,
    and each head is newer than the one it replaced. Success is reported only
    for the whole sequence, with the versions of the two heads. *)
Theorem install_exact target_exists promoted store s r :
  install_replica_recovery w target_exists promoted claimant volume verified export (session_start store) = (s, r) ->
  installation (se_writes s) r.
Proof using w_ok.
  intros H. assert (forall r, not_ok r -> installation [] r) as Hnone by apply Not_claimed.
  apply lift_run in H as [(found & _ & H)|[-> H]]; [|now apply Hnone].
  destruct found; [injection H as <- <-; now apply Hnone|].
  apply bind_run in H as (s0 & r0 & (r0' & Hget & ->)%or_fail_run & H). apply get_run in Hget as [Hw0 Hget].
  destruct H as [(found & ->%map_err_Ok & H)|(-> & _ & H)]; [|rewrite Hw0; now apply Hnone].
  apply lift_run in H as [([version bs] & Hf & H)|[-> H]]; [|rewrite Hw0; now apply Hnone].
  destruct found as [[v b]|]; [|discriminate]. injection Hf as -> ->.
  apply lift_run in H as [(observed & Hd%map_err_Ok & H)|[-> H]]; [|rewrite Hw0; now apply Hnone].
  destruct (Z.eqb_spec version verified) as [->|]; cbn [negb] in H; [|injection H as <- <-; rewrite Hw0; now apply Hnone].
  apply lift_run in H as [(claim_bytes & He & H)|[-> H]]; [|rewrite Hw0; now apply Hnone].
  destruct Hget as [Hget|]; [|discriminate]. injection Hget as Hget.
  apply bind_run in H as (s1 & r1 & (r1' & Hcas & ->)%or_fail_run & H).
  apply write_run in Hcas as [(Hw1 & -> & _)|(n & st & Hot & Ha & Hs & Hw1 & Hr)].
  { destruct H as [(x & [=] & _)|(-> & _ & H)]. rewrite Hw1, Hw0. now apply Hnone. }
  apply bool_decide_eq_true in Ha. destruct (sw_monotone _ _ w_ok _ _ _ _ _ Hot (eq_sym Hget)) as (v' & b' & Hh & Hv).
  rewrite Hh in Ha. injection Ha as ->. destruct Hv as [Hv|[= ->]]; [simpl in Hv; lia|].
  set (claim := {| wr_key := head; wr_bytes := claim_bytes; wr_version := sw_stamp w n st head; wr_before := st !! head |}) in Hw1.
  assert (claims claim observed) as Hc.
  { split; [reflexivity| |exact He|apply (sw_fresh _ _ w_ok _ _ _ _ _ Hh)]. exists bs. auto. }
  rewrite Hw0 in Hw1. simpl in Hw1. apply (claimed_run claim observed s1 s r promoted Hc); auto.
  - exists (wr_version claim), claim_bytes. rewrite Hs, lookup_insert_eq. auto.
  - destruct H as [(fence & Hf%map_err_Ok & H)|(-> & _ & H)]; [left|now right].
    destruct Hr as [-> | ->]; [injection Hf as <-|discriminate]. exact H.
Qed.
End Installing.

(** ** Trying again *)
Section Retry.
Context `{C : Crc} `{CL : !CrcLaws C} `{L : Lz4} `{P : PageSize} `{PL : !PageSizeLaws P}.
Lemma claimed_assignments version observed claimant export assignment :
  head_stash (rc_head (prepare_replica_recovery_claim version observed claimant export)) = Some assignment ->
  named_assignments (rc_head (prepare_replica_recovery_claim version observed claimant export)) assignment
    = [(re_source_peer export, re_assignment_epoch export)]
  /\ sa_assignment_epoch assignment = re_assignment_epoch export.
Proof. simpl. destruct (head_stash observed) as [a|] eqn:Ha; [|discriminate]. intros [= <-]. now unfold named_assignments; simpl. Qed.
(** The chosen spool alone gives the same export under the claim. *)
Lemma claim_keeps_export source volume version head rs store e claimed_version claimant :
  export_replica_recovery source volume version head rs store = Ok e ->
  exists residue, In residue rs
    /\ export_replica_recovery source volume claimed_version
         (rc_head (prepare_replica_recovery_claim version head claimant e)) [residue] store = Ok e.
Proof.
  intros (assignment & residue & scan & commit & record & Ha & Hin & Hsay & _ & _ & Hstore & Hex)%export_newest.
  exists residue. split; [exact Hin|].
  assert (re_source_peer e = rr_peer residue /\ re_assignment_epoch e = rr_assignment_epoch residue) as [Hp He].
  { unfold export_commit in Hex. apply outcome_bind_Ok in Hex as (r & _ & Hex).
    apply outcome_bind_Ok in Hex as (blobs & _ & [= <-]). auto. }
  destruct Hsay as (_ & Hscan & Hid & Hlast & Hdec). set (claimed := rc_head _).
  assert (exists a, head_stash claimed = Some a /\ named_assignments claimed a = [(rr_peer residue, rr_assignment_epoch residue)])
    as (a & Hs & Hnamed).
  { unfold claimed. simpl. rewrite Ha. simpl. eexists. split; [reflexivity|]. now rewrite <- Hp, <- He. }
  unfold export_replica_recovery. rewrite Hs. cbn [ok_or outcome_bind fold_outcome]. unfold examine_residue.
  assert (names (allowed_replica_epochs claimed a) (rr_peer residue) (rr_assignment_epoch residue) = true) as Hn.
  { apply allowed_named. rewrite Hnamed. now left. }
  unfold names in Hn. rewrite Hn, Hscan. cbn [negb andb recovered map_err outcome_bind]. rewrite Hid. cbn [outcome_bind].
  rewrite Hlast, Hdec. cbn [recovered map_err outcome_bind app].
  unfold sort_by. cbn [foldr insert_by list.last]. rewrite Hlast. cbn [expect outcome_bind]. change (head_manifest claimed) with (head_manifest head).
  destruct (head_manifest head) as [ptr|]; [|exact Hex].
  destruct (Hstore ptr eq_refl) as (point & -> & Hle). cbn [outcome_bind]. rewrite Hdec. cbn [recovered map_err outcome_bind].
  now rewrite (proj2 (cmp_ltb_false _ _) Hle).
Qed.

(** An installation that stops after its claim cannot simply be repeated.
    The claim names only the spool the export came from. That spool alone
    still gives the same export under the claimed head. But the tool hands over
    every spool the peer holds of the source and volume, and one more of them,
    not newer than the chosen one, makes every further export fail, also when
    the original head vouched for it as retired. *)
Theorem retry_after_claim source volume version head rs store e claimed_version claimant :
  export_replica_recovery source volume version head rs store = Ok e ->
  let claimed := rc_head (prepare_replica_recovery_claim version head claimant e) in
  (exists residue, In residue rs
     /\ export_replica_recovery source volume claimed_version claimed [residue] store = Ok e)
  /\ (forall residue rs' store' e', In residue rs' ->
       (rr_peer residue, rr_assignment_epoch residue) <> (re_source_peer e, re_assignment_epoch e) ->
       rr_assignment_epoch residue <= re_assignment_epoch e ->
       export_replica_recovery source volume claimed_version claimed rs' store' <> Ok e').
Proof using CL PL.
  intros He claimed. split; [now apply claim_keeps_export|].
  intros residue rs' store' e' Hin Hne Hle H. unfold export_replica_recovery in H.
  destruct (head_stash claimed) as [assignment|] eqn:Hs; [|discriminate]. cbn [ok_or outcome_bind] in H.
  destruct (claimed_assignments version head claimant e assignment Hs) as [Hnamed Hepoch].
  fold claimed in Hnamed. apply outcome_bind_Ok in H as (candidates & Hc & _).
  destruct (fold_outcome_each _ _ _ _ _ Hc Hin) as (b & b' & Hx).
  apply examine_Ok in Hx as [(scan & commit & record & _ & [Hv|[Hv _]] & _)|(scan & _ & _ & Hv & _)];
    [|rewrite Hepoch in Hv; lia|]; rewrite Hnamed in Hv; destruct Hv as [Hv|[]]; congruence.
Qed.
End Retry.
