(* ===== verification/StashProtocol.v ===== *)
(** * The stash assignment protocol of a primary ([engine/replica.rs],
    [engine/backup.rs], [engine/state.rs])

    Three kinds of tasks of one host write the head of a volume: the
    replication, which moves the passive stash ([transition_stash],
    [activate_stash], [cas_assignment]), the publication, which moves the
    archive ([publish], [publish_head]) and the cleanup after a released stash
    ([remove_retired_stash]). They share the volume's state and run between
    each other's awaits. Here each task is the list of its await points, each
    await point a function of the answer, and a step of the system is one
    task, the store, a peer or the environment. *)

From stdpp Require Import gmap.
From S2P Require Import Prelude Format Types Sorting OrdMap Text Head Blx Manifest Layout Journal Placement.

#[local] Open Scope Z_scope.

(** ** The volume's state, as far as these tasks use it *)
Record VolumeState := {
  vs_run_generation : Z;
  vs_fence : Z;
  vs_head_version : option Z;
  vs_backed : option ManifestPtr;
  vs_stash_assignment : option StashAssignment;
  vs_retired_stashes : list RetiredStash;
  vs_best_record : option JournalRecord;
  vs_peer_committed : option ReplicaCommitInfo;
  vs_peer_committed_record : option JournalRecord;
  vs_peer_committed_through : Z;
  vs_peer_published : option ReplicaCommitInfo;
  vs_sync_ack_through : Z;
  vs_pending_syncs : list Z;
  vs_backed_blx_files : BTreeSet ObjectIdentity;
  vs_archive_base : option BaseRef;
  vs_archive_objects : list ObjectRef;
  vs_publication : bool;
  vs_replication : bool;
  vs_interrupted : bool }.

(** [ClusterPlacementConfig], without the authority's timing. *)
Record ClusterPlacementConfig := { cpc_membership_epoch : Z; cpc_roster : list Z }.

(** The host, with the one volume of the protocol, and the releases it waits
    for as (peer, assignment epoch, through). *)
Record Primary := {
  pr_host : Z;
  pr_placement : option ClusterPlacementConfig;
  pr_authorized : bool;
  pr_volume : option VolumeState;
  pr_replica_releases : list (Z * Z * ReplicaCommitInfo);
  pr_failed : bool }.

Definition with_volume (h : Primary) (v : option VolumeState) : Primary :=
  {| pr_host := pr_host h; pr_placement := pr_placement h; pr_authorized := pr_authorized h;
     pr_volume := v; pr_replica_releases := pr_replica_releases h; pr_failed := pr_failed h |}.
Definition with_releases (h : Primary) (releases : list (Z * Z * ReplicaCommitInfo)) : Primary :=
  {| pr_host := pr_host h; pr_placement := pr_placement h; pr_authorized := pr_authorized h;
     pr_volume := pr_volume h; pr_replica_releases := releases; pr_failed := pr_failed h |}.
Definition fail (h : Primary) : Primary :=
  {| pr_host := pr_host h; pr_placement := pr_placement h; pr_authorized := pr_authorized h;
     pr_volume := pr_volume h; pr_replica_releases := pr_replica_releases h; pr_failed := true |}.
Definition volume_at (h : Primary) (run_generation : Z) : option VolumeState :=
  match pr_volume h with
  | Some v => if vs_run_generation v =? run_generation then Some v else None
  | None => None
  end.
(** [if let Some(volume_state) = volume_at_mut(..) { .. }] *)
Definition volume_update (run_generation : Z) (f : VolumeState -> VolumeState) (h : Primary) : Primary :=
  match volume_at h run_generation with
  | Some v => with_volume h (Some (f v))
  | None => h
  end.

(** What the head says, as the volume remembers it. *)
Definition set_head (version : option Z) (backed : option ManifestPtr) (stash : option StashAssignment)
    (retired : list RetiredStash) (v : VolumeState) : VolumeState :=
  {| vs_run_generation := vs_run_generation v; vs_fence := vs_fence v;
     vs_head_version := version; vs_backed := backed; vs_stash_assignment := stash;
     vs_retired_stashes := retired; vs_best_record := vs_best_record v;
     vs_peer_committed := vs_peer_committed v; vs_peer_committed_record := vs_peer_committed_record v;
     vs_peer_committed_through := vs_peer_committed_through v; vs_peer_published := vs_peer_published v;
     vs_sync_ack_through := vs_sync_ack_through v; vs_pending_syncs := vs_pending_syncs v;
     vs_backed_blx_files := vs_backed_blx_files v; vs_archive_base := vs_archive_base v;
     vs_archive_objects := vs_archive_objects v; vs_publication := vs_publication v;
     vs_replication := vs_replication v; vs_interrupted := vs_interrupted v |}.
Definition set_head_version (version : Z) (v : VolumeState) : VolumeState :=
  set_head (Some version) (vs_backed v) (vs_stash_assignment v) (vs_retired_stashes v) v.
(** What the peer and the archive hold, and which syncs wait. *)
Definition set_commits (committed : option ReplicaCommitInfo) (record : option JournalRecord)
    (through : Z) (published : option ReplicaCommitInfo) (ack_through : Z) (pending : list Z)
    (backed_files : BTreeSet ObjectIdentity) (v : VolumeState) : VolumeState :=
  {| vs_run_generation := vs_run_generation v; vs_fence := vs_fence v;
     vs_head_version := vs_head_version v; vs_backed := vs_backed v;
     vs_stash_assignment := vs_stash_assignment v; vs_retired_stashes := vs_retired_stashes v;
     vs_best_record := vs_best_record v; vs_peer_committed := committed;
     vs_peer_committed_record := record; vs_peer_committed_through := through;
     vs_peer_published := published; vs_sync_ack_through := ack_through; vs_pending_syncs := pending;
     vs_backed_blx_files := backed_files; vs_archive_base := vs_archive_base v;
     vs_archive_objects := vs_archive_objects v; vs_publication := vs_publication v;
     vs_replication := vs_replication v; vs_interrupted := vs_interrupted v |}.
Definition forget_committed (v : VolumeState) : VolumeState :=
  set_commits None None (vs_peer_committed_through v) (vs_peer_published v) (vs_sync_ack_through v)
    (vs_pending_syncs v) (vs_backed_blx_files v) v.
(** The operation slots and the record that a capture leaves. *)
Definition set_work (best : option JournalRecord) (publication replication interrupted : bool)
    (v : VolumeState) : VolumeState :=
  {| vs_run_generation := vs_run_generation v; vs_fence := vs_fence v;
     vs_head_version := vs_head_version v; vs_backed := vs_backed v;
     vs_stash_assignment := vs_stash_assignment v; vs_retired_stashes := vs_retired_stashes v;
     vs_best_record := best; vs_peer_committed := vs_peer_committed v;
     vs_peer_committed_record := vs_peer_committed_record v;
     vs_peer_committed_through := vs_peer_committed_through v; vs_peer_published := vs_peer_published v;
     vs_sync_ack_through := vs_sync_ack_through v; vs_pending_syncs := vs_pending_syncs v;
     vs_backed_blx_files := vs_backed_blx_files v; vs_archive_base := vs_archive_base v;
     vs_archive_objects := vs_archive_objects v; vs_publication := publication;
     vs_replication := replication; vs_interrupted := interrupted |}.
Definition set_publication (running : bool) (v : VolumeState) : VolumeState :=
  set_work (vs_best_record v) running (vs_replication v) (vs_interrupted v) v.
Definition set_replication (running : bool) (v : VolumeState) : VolumeState :=
  set_work (vs_best_record v) (vs_publication v) running (vs_interrupted v) v.

(** ** [HostState] and [VolumeState] *)
Definition adopt_assignment (version : Z) (assignment : StashAssignment) (retired : list RetiredStash)
    (v : VolumeState) : VolumeState :=
  let v := if bool_decide (vs_stash_assignment v = Some assignment) then v else forget_committed v in
  set_head (Some version) (vs_backed v) (Some assignment) retired v.
Definition adopt_assignment_from_head (version : Z) (head : HeadRecord) (v : VolumeState) : VolumeState :=
  let v := if bool_decide (vs_stash_assignment v = head_stash head) then v else forget_committed v in
  set_head (Some version) (head_manifest head) (head_stash head) (head_retired_stashes head) v.

(** The syncs that are acknowledged come second. *)
Definition finish_primary_commit (run_generation : Z) (info : ReplicaCommitInfo) (record : JournalRecord)
    (h : Primary) : Primary * list Z :=
  match volume_at h run_generation with
  | None => (h, [])
  | Some v =>
      let newer := match vs_peer_committed v with
                   | None => true
                   | Some committed => cmp_leb committed info
                   end in
      let committed := if newer then Some info else vs_peer_committed v in
      let committed_record := if newer then Some record else vs_peer_committed_record v in
      let through := Z.max (vs_peer_committed_through v) (rci_sync_covered_through info) in
      if negb (pr_authorized h) then
        (with_volume h (Some (set_commits committed committed_record through (vs_peer_published v)
           (vs_sync_ack_through v) (vs_pending_syncs v) (vs_backed_blx_files v) v)), [])
      else
        let ack_through := Z.max (vs_sync_ack_through v) (rci_sync_covered_through info) in
        (with_volume h (Some (set_commits committed committed_record through (vs_peer_published v) ack_through
           (List.filter (fun barrier => negb (barrier <=? ack_through)) (vs_pending_syncs v))
           (vs_backed_blx_files v) v)),
         List.filter (fun barrier => barrier <=? ack_through) (vs_pending_syncs v))
  end.

(** ** Choosing the stash *)
Section Stash.
Variable volume : Z.

Definition initial_stash (h : Primary) : option StashAssignment :=
  match pr_placement h with
  | None => None
  | Some placement =>
      match rank_stash_candidates (cpc_membership_epoch placement) (pr_host h) volume (cpc_roster placement) with
      | [] => None
      | target :: _ =>
          Some {| sa_assignment_epoch := 1; sa_active_peer := target; sa_active_assignment_epoch := 1;
                  sa_transition_peer := None; sa_membership_epoch := cpc_membership_epoch placement |}
      end
  end.

(** The loop over the candidates: the next epoch whose candidate is another
    peer. [usize] is as wide as [u64]. *)
Fixpoint next_candidate (n : nat) (candidates : list Z) (active next_epoch : Z) : option (Z * Z) :=
  match n with
  | O => None
  | S n =>
      match checked_add W64 next_epoch 1 with
      | None => None
      | Some next_epoch =>
          match nth_error candidates (Z.to_nat ((next_epoch - 1) mod len candidates)) with
          | Some candidate =>
              if negb (candidate =? active) then Some (next_epoch, candidate)
              else next_candidate n candidates active next_epoch
          | None => None
          end
      end
  end.
(** The proposal of [transition_stash]. *)
Definition transition_proposal (run_generation : Z) (h : Primary) : option StashAssignment :=
  match volume_at h run_generation with
  | None => None
  | Some v =>
      if MAX_RETIRED_STASHES <=? len (vs_retired_stashes v) then None else
      match vs_stash_assignment v with
      | None => None
      | Some current =>
          if bool_decide (sa_transition_peer current <> None) then Some current else
          match pr_placement h with
          | None => None
          | Some placement =>
              let candidates := rank_stash_candidates (cpc_membership_epoch placement) (pr_host h) volume
                                  (cpc_roster placement) in
              match next_candidate (length candidates) candidates (sa_active_peer current)
                      (sa_assignment_epoch current) with
              | None => None
              | Some (next_epoch, next) =>
                  Some {| sa_assignment_epoch := next_epoch; sa_active_peer := sa_active_peer current;
                          sa_active_assignment_epoch := sa_active_assignment_epoch current;
                          sa_transition_peer := Some next;
                          sa_membership_epoch := sa_membership_epoch current |}
              end
          end
      end
  end.
(** The assignment and the retired stashes of [activate_stash]. *)
Definition activation (run_generation target assignment_epoch : Z) (info : ReplicaCommitInfo) (h : Primary)
  : option (StashAssignment * list RetiredStash) :=
  match volume_at h run_generation with
  | None => None
  | Some v =>
      match vs_stash_assignment v with
      | None => None
      | Some current =>
          if negb (sa_assignment_epoch current =? assignment_epoch)
             || negb (bool_decide (sa_transition_peer current = Some target)) then None else
          let former := {| rs_peer := sa_active_peer current;
                           rs_assignment_epoch := sa_active_assignment_epoch current;
                           rs_through := info |} in
          Some ({| sa_assignment_epoch := assignment_epoch; sa_active_peer := target;
                   sa_active_assignment_epoch := assignment_epoch; sa_transition_peer := None;
                   sa_membership_epoch := sa_membership_epoch current |},
                if bool_decide (In former (vs_retired_stashes v)) then vs_retired_stashes v
                else vs_retired_stashes v ++ [former])
      end
  end.

Definition of_volume (identity : ObjectIdentity) : bool :=
  bool_decide (oi_namespace_kind identity = Namespace_Volume) && (oi_namespace_id identity =? volume).
Definition replica_closure (run_generation : Z) (record : JournalRecord) (h : Primary)
  : option (list ReplicaArtifact) :=
  match volume_at h run_generation with
  | None => None
  | Some v =>
      let peer_blx := bts_collect (List.filter of_volume
                        match vs_peer_committed_record v with
                        | Some record => map or_identity (jr_files record)
                        | None => []
                        end) in
      let required := List.filter (fun identity => negb (bt_contains identity (vs_backed_blx_files v))
                                                   && negb (bt_contains identity peer_blx))
                        (List.filter of_volume (map or_identity (jr_files record))) in
      Some (bt_keys (bts_collect (map (fun identity => Blx (oi_writer_fence identity) (oi_object_id identity))
                                   required)))
  end.

(** ** What a publication takes from the volume *)
Record PublishSnapshot := {
  ps_record : JournalRecord;
  ps_base : option BaseRef;
  ps_base_objects : list ObjectRef;
  ps_blx_files : BTreeSet ObjectIdentity;
  ps_blx_refs : list ObjectRef;
  ps_backed : option ManifestPtr;
  ps_published_commit : option ReplicaCommitInfo;
  ps_commit : ReplicaCommitInfo;
  ps_state_checksum : Z }.
Definition publish_snapshot (run_generation : Z) (h : Primary) : option PublishSnapshot :=
  match volume_at h run_generation with
  | None => None
  | Some v =>
      match (if bool_decide (vs_stash_assignment v <> None) then vs_peer_committed_record v
             else vs_best_record v) with
      | None => None
      | Some record =>
          let blx_refs := List.filter (fun file => of_volume (or_identity file)) (jr_files record) in
          Some {| ps_record := record; ps_base := vs_archive_base v;
                  ps_base_objects := List.filter (fun object => negb (of_volume (or_identity object)))
                                       (vs_archive_objects v);
                  ps_blx_files := bts_collect (map or_identity blx_refs); ps_blx_refs := blx_refs;
                  ps_backed := vs_backed v; ps_published_commit := vs_peer_published v;
                  ps_commit := JournalRecord_commit_info record;
                  ps_state_checksum := jr_post_state_checksum record |}
      end
  end.
Definition already_published (snapshot : PublishSnapshot) : bool :=
  match ps_published_commit snapshot with
  | Some published =>
      cmp_leb (rci_writer_fence (ps_commit snapshot), rci_seq (ps_commit snapshot))
        (rci_writer_fence published, rci_seq published)
      && (rci_sync_covered_through (ps_commit snapshot) <=? rci_sync_covered_through published)
  | None =>
      match ps_backed snapshot with
      | Some backed => jr_capture_seq (ps_record snapshot) <=? mp_capture_seq backed
      | None => false
      end
  end.
End Stash.

(** ** The tasks *)
(** A request to the store waits to be executed, then its answer is on the
    way. *)
Inductive PutAnswer := Put_Ok (version : Z) | Put_Conflict | Put_Unavailable | Put_TooLarge.
Inductive GetAnswer := Get_Found (version : Z) (bs : bytes) | Get_Missing | Get_Unavailable | Get_TooLarge.
Inductive Waiting (A : Type) := Requested | Answered (a : A).
#[global] Arguments Requested {A}.
#[global] Arguments Answered {A} _.

Inductive PublishHead := Published (version : Z) | Fenced | Fatal.
Inductive PublishPc :=
| Publish_prepare (snapshot : PublishSnapshot)
| Publish_put (snapshot : PublishSnapshot) (pointer : ManifestPtr) (expected : Z) (head : HeadRecord)
    (w : Waiting PutAnswer)
| Publish_get (snapshot : PublishSnapshot) (pointer : ManifestPtr) (head : HeadRecord) (w : Waiting GetAnswer)
| Publish_delay (snapshot : PublishSnapshot) (pointer : ManifestPtr)
| Publish_again
| Publish_end.

Inductive CasPc :=
| Cas_put (expected : Z) (head : HeadRecord) (current : option StashAssignment)
    (current_retired : list RetiredStash) (w : Waiting PutAnswer)
| Cas_get (head : HeadRecord) (current : option StashAssignment) (current_retired : list RetiredStash)
    (w : Waiting GetAnswer)
| Cas_delay
| Cas_return (adopted : bool).

Inductive ReleasePc :=
| Release_put (expected : Z) (head : HeadRecord) (w : Waiting PutAnswer)
| Release_get (w : Waiting GetAnswer)
| Release_return (removed : bool).

Inductive PeerAnswer :=
| Peer_status (committed : option (option ReplicaCommitInfo))
| Peer_transferred (ok : bool)
| Peer_committed (ok : bool).
Inductive ReplicatePc :=
| Replicate_status
| Replicate_transfer (required : list ReplicaArtifact)
| Replicate_commit (required : list ReplicaArtifact)
| Replicate_transition (assignment : StashAssignment) (retired : list RetiredStash) (pc : CasPc)
| Replicate_activate (assignment : StashAssignment) (retired : list RetiredStash) (pc : CasPc)
| Replicate_end.
Record ReplicationRun := {
  rn_run_generation : Z;
  rn_target : Z;
  rn_assignment_epoch : Z;
  rn_record : JournalRecord }.

Section Tasks.
Context `{C : Crc}.
Variable volume : Z.

(** *** [publish_head] *)
Definition publish_head_loop (run_generation : Z) (snapshot : PublishSnapshot) (pointer : ManifestPtr)
    (h : Primary) : PublishPc + PublishHead :=
  match volume_at h run_generation with
  | Some v =>
      match vs_head_version v with
      | Some expected =>
          inl (Publish_put snapshot pointer expected
                 {| head_volume := volume; head_holder := pr_host h; head_fence := vs_fence v;
                    head_manifest := Some pointer; head_stash := vs_stash_assignment v;
                    head_retired_stashes := vs_retired_stashes v |} Requested)
      | None => inr Fenced
      end
  | None => inr Fenced
  end.
Definition publish_head_put (snapshot : PublishSnapshot) (pointer : ManifestPtr) (head : HeadRecord)
    (answer : PutAnswer) : PublishPc + PublishHead :=
  match answer with
  | Put_Ok version => inr (Published version)
  | Put_Conflict | Put_Unavailable => inl (Publish_get snapshot pointer head Requested)
  | Put_TooLarge => inr Fatal
  end.
Definition at_least (manifest pointer : ManifestPtr) : bool :=
  cmp_leb (mp_capture_seq pointer, mp_seq pointer) (mp_capture_seq manifest, mp_seq manifest).
Definition publish_head_get (run_generation : Z) (snapshot : PublishSnapshot) (pointer : ManifestPtr)
    (head : HeadRecord) (answer : GetAnswer) (h : Primary) : Primary * (PublishPc + PublishHead) :=
  match answer with
  | Get_Found version bs =>
      match HeadRecord_decode volume bs with
      | Ok found =>
          if negb (head_holder found =? head_holder head) || negb (head_fence found =? head_fence head)
          then (h, inr Fenced)
          else if match head_manifest found with
                  | Some manifest => at_least manifest pointer
                  | None => false
                  end then (h, inr (Published version))
          else
            (* [host.volumes.get_mut(&volume)], without the run generation *)
            let h := match pr_volume h with
                     | Some v => with_volume h (Some (set_head_version version v))
                     | None => h
                     end in
            (h, publish_head_loop run_generation snapshot pointer h)
      | _ => (h, inr Fatal)
      end
  | Get_Missing => (h, inr Fenced)
  | Get_Unavailable => (h, inl (Publish_delay snapshot pointer))
  | Get_TooLarge => (h, inr Fatal)
  end.

(** *** [publish] *)
Definition finish_publication (run_generation : Z) (h : Primary) : Primary :=
  volume_update run_generation (set_publication false) h.
Definition publish_iteration (run_generation : Z) (h : Primary) : Primary * PublishPc :=
  match publish_snapshot volume run_generation h with
  | None => (finish_publication run_generation h, Publish_end)
  | Some snapshot =>
      if match volume_at h run_generation with Some v => vs_interrupted v | None => true end
      then (finish_publication run_generation h, Publish_end)
      else (h, Publish_prepare snapshot)
  end.
Definition publish (h : Primary) : option (Z * (Primary * PublishPc)) :=
  match pr_volume h with
  | Some v =>
      if vs_publication v then None else
      let h := with_volume h (Some (set_publication true v)) in
      Some (vs_run_generation v, publish_iteration (vs_run_generation v) h)
  | None => None
  end.
(** [published] is where the new releases are queued ([retry_releases]). *)
Definition retry_releases (h : Primary) : Primary :=
  match pr_volume h with
  | Some v =>
      match vs_peer_published v, vs_backed v with
      | Some info, Some _ =>
          let discovered :=
            match vs_stash_assignment v with
            | Some assignment => [(sa_active_peer assignment, sa_active_assignment_epoch assignment, info)]
            | None => []
            end
            ++ map (fun retired => (rs_peer retired, rs_assignment_epoch retired, rs_through retired))
                 (List.filter (fun retired => cmp_leb (rs_through retired) info) (vs_retired_stashes v)) in
          with_releases h (fold_left (fun releases release =>
            if bool_decide (In release releases) then releases else releases ++ [release])
            discovered (pr_replica_releases h))
      | _, _ => h
      end
  | None => h
  end.
Definition published (snapshot : PublishSnapshot) (pointer : ManifestPtr) (version : Z) (v : VolumeState)
  : VolumeState :=
  let v := set_head (Some version) (Some pointer) (vs_stash_assignment v) (vs_retired_stashes v) v in
  set_commits (vs_peer_committed v) (vs_peer_committed_record v) (vs_peer_committed_through v)
    (if bool_decide (vs_stash_assignment v <> None) then Some (ps_commit snapshot) else vs_peer_published v)
    (vs_sync_ack_through v) (vs_pending_syncs v)
    (fold_left (fun files identity => bt_insert identity tt files) (bt_keys (ps_blx_files snapshot))
       (vs_backed_blx_files v)) v.
Definition publish_result (run_generation : Z) (snapshot : PublishSnapshot) (pointer : ManifestPtr)
    (result : PublishHead) (h : Primary) : Primary * PublishPc :=
  match result with
  | Published version =>
      match volume_at h run_generation with
      | None => (h, Publish_end)
      | Some v => (retry_releases (with_volume h (Some (published snapshot pointer version v))), Publish_again)
      end
  | Fenced =>
      (match volume_at h run_generation with Some _ => with_volume h None | None => h end, Publish_end)
  | Fatal => (finish_publication run_generation (fail h), Publish_end)
  end.
Definition publish_next (run_generation : Z) (snapshot : PublishSnapshot) (pointer : ManifestPtr)
    (next : PublishPc + PublishHead) (h : Primary) : Primary * PublishPc :=
  match next with
  | inl pc => (h, pc)
  | inr result => publish_result run_generation snapshot pointer result h
  end.
(** The archive is prepared; [compact_only] is what [archive_needs_compaction]
    found when the snapshot was published already. *)
Definition publish_prepared (run_generation : Z) (snapshot : PublishSnapshot) (needs_compaction : bool)
    (prepared : option ManifestPtr) (h : Primary) : Primary * PublishPc :=
  let interrupted := match volume_at h run_generation with Some v => vs_interrupted v | None => true end in
  if interrupted || (already_published snapshot && negb needs_compaction)
  then (finish_publication run_generation h, Publish_end)
  else match prepared with
       | None => (h, Publish_again)
       | Some pointer =>
           publish_next run_generation snapshot pointer (publish_head_loop run_generation snapshot pointer h) h
       end.

(** *** [cas_assignment] *)
Definition cas_assignment_loop (run_generation : Z) (assignment : StashAssignment) (retired : list RetiredStash)
    (h : Primary) : CasPc :=
  match volume_at h run_generation with
  | None => Cas_return false
  | Some v =>
      match vs_head_version v with
      | None => Cas_return false
      | Some expected =>
          Cas_put expected
            {| head_volume := volume; head_holder := pr_host h; head_fence := vs_fence v;
               head_manifest := vs_backed v; head_stash := Some assignment; head_retired_stashes := retired |}
            (vs_stash_assignment v) (vs_retired_stashes v) Requested
      end
  end.
Definition adopt (run_generation version : Z) (assignment : StashAssignment) (retired : list RetiredStash)
    (h : Primary) : Primary * CasPc :=
  match volume_at h run_generation with
  | None => (h, Cas_return false)
  | Some v => (with_volume h (Some (adopt_assignment version assignment retired v)), Cas_return true)
  end.
Definition cas_assignment_put (run_generation : Z) (assignment : StashAssignment) (retired : list RetiredStash)
    (head : HeadRecord) (current : option StashAssignment) (current_retired : list RetiredStash)
    (answer : PutAnswer) (h : Primary) : Primary * CasPc :=
  match answer with
  | Put_Ok version => adopt run_generation version assignment retired h
  | Put_TooLarge => (h, Cas_return false)
  | Put_Conflict | Put_Unavailable => (h, Cas_get head current current_retired Requested)
  end.
Definition cas_assignment_get (run_generation : Z) (assignment : StashAssignment) (retired : list RetiredStash)
    (head : HeadRecord) (current : option StashAssignment) (current_retired : list RetiredStash)
    (answer : GetAnswer) (h : Primary) : Primary * CasPc :=
  match answer with
  | Get_Unavailable => (h, Cas_get head current current_retired Requested)
  | Get_Missing | Get_TooLarge => (h, Cas_return false)
  | Get_Found version bs =>
      match HeadRecord_decode volume bs with
      | Ok found =>
          match volume_at h run_generation with
          | None => (h, Cas_return false)
          | Some v =>
              if negb (head_holder found =? pr_host h) || negb (head_fence found =? vs_fence v)
              then (fail h, Cas_return false)
              else if bool_decide (found = head) then adopt run_generation version assignment retired h
              else if bool_decide (head_stash found = current)
                      && bool_decide (head_retired_stashes found = current_retired)
              then (with_volume h (Some (set_head (Some version) (head_manifest found)
                      (vs_stash_assignment v) (vs_retired_stashes v) v)), Cas_delay)
              else (with_volume h (Some (adopt_assignment_from_head version found v)), Cas_return true)
          end
      | _ => (h, Cas_return false)
      end
  end.

(** *** [remove_retired_stash] *)
Definition remove_retired_loop (run_generation : Z) (retired : RetiredStash) (h : Primary) : ReleasePc :=
  match volume_at h run_generation with
  | None => Release_return false
  | Some v =>
      if negb (bool_decide (In retired (vs_retired_stashes v))) then Release_return true else
      match vs_head_version v with
      | None => Release_return false
      | Some expected =>
          Release_put expected
            {| head_volume := volume; head_holder := pr_host h; head_fence := vs_fence v;
               head_manifest := vs_backed v; head_stash := vs_stash_assignment v;
               head_retired_stashes := List.filter (fun entry => negb (bool_decide (entry = retired)))
                                         (vs_retired_stashes v) |} Requested
      end
  end.
Definition remove_retired_put (run_generation : Z) (head : HeadRecord) (answer : PutAnswer) (h : Primary)
  : Primary * ReleasePc :=
  match answer with
  | Put_Ok version =>
      match volume_at h run_generation with
      | None => (h, Release_return false)
      | Some v => (with_volume h (Some (set_head (Some version) (vs_backed v) (vs_stash_assignment v)
                     (head_retired_stashes head) v)), Release_return true)
      end
  | Put_TooLarge => (h, Release_return false)
  | Put_Conflict | Put_Unavailable => (h, Release_get Requested)
  end.
Definition remove_retired_get (run_generation : Z) (retired : RetiredStash) (answer : GetAnswer) (h : Primary)
  : Primary * ReleasePc :=
  match answer with
  | Get_Unavailable => (h, Release_get Requested)
  | Get_Missing | Get_TooLarge => (h, Release_return false)
  | Get_Found version bs =>
      match HeadRecord_decode volume bs with
      | Ok found =>
          match volume_at h run_generation with
          | None => (h, Release_return false)
          | Some v =>
              if negb (head_holder found =? pr_host h) || negb (head_fence found =? vs_fence v)
              then (fail h, Release_return false)
              else
                let h := with_volume h (Some (adopt_assignment_from_head version found v)) in
                (h, if bool_decide (In retired (head_retired_stashes found))
                    then remove_retired_loop run_generation retired h else Release_return true)
          end
      | _ => (h, Release_return false)
      end
  end.
(** [ReplicaReleaseAck]: the release is forgotten, and a retired stash that it
    names is removed from the head. [swap_remove] puts the last entry in the
    place of the removed one. *)
Definition swap_remove {A} (i : nat) (l : list A) : list A :=
  match list.last l with
  | Some z => if bool_decide (S i = length l) then take i l else <[i := z]> (take (length l - 1) l)
  | None => l
  end.
Definition release_acknowledged (peer assignment_epoch : Z) (through : ReplicaCommitInfo) (h : Primary)
  : Primary * option (Z * RetiredStash) :=
  match list_find (fun release => release = (peer, assignment_epoch, through)) (pr_replica_releases h) with
  | None => (h, None)
  | Some (i, _) =>
      let h := with_releases h (swap_remove i (pr_replica_releases h)) in
      (h, match pr_volume h with
          | Some v =>
              match List.find (fun retired => bool_decide
                      ((rs_peer retired, rs_assignment_epoch retired, rs_through retired)
                       = (peer, assignment_epoch, through))) (vs_retired_stashes v) with
              | Some retired => Some (vs_run_generation v, retired)
              | None => None
              end
          | None => None
          end)
  end.

(** *** [replicate] *)
Definition replicate (h : Primary) : option (Primary * ReplicationRun) :=
  match pr_volume h with
  | None => None
  | Some v =>
      match vs_best_record v, vs_stash_assignment v with
      | Some record, Some stash =>
          let needed := match vs_peer_committed v with
                        | None => true
                        | Some committed => cmp_ltb committed (JournalRecord_commit_info record)
                        end in
          if negb needed || vs_replication v then None else
          Some (with_volume h (Some (set_replication true v)),
                {| rn_run_generation := vs_run_generation v;
                   rn_target := default (sa_active_peer stash) (sa_transition_peer stash);
                   rn_assignment_epoch := sa_assignment_epoch stash; rn_record := record |})
      | _, _ => None
      end
  end.
Definition finish_replication (run : ReplicationRun) (h : Primary) : Primary :=
  volume_update (rn_run_generation run) (set_replication false) h.
(** A segment of [replicate] ends at the next await; the second value is the
    commit whose syncs it acknowledged to the guest, if it did. *)
Definition Segment : Type := Primary * option ReplicaCommitInfo * ReplicatePc.
Definition acknowledges (run : ReplicationRun) (h : Primary) : option ReplicaCommitInfo :=
  match volume_at h (rn_run_generation run) with
  | Some _ => if pr_authorized h then Some (JournalRecord_commit_info (rn_record run)) else None
  | None => None
  end.
Definition replicate_finish (run : ReplicationRun) (h : Primary) : Segment :=
  let acknowledged := acknowledges run h in
  let '(h, _) := finish_primary_commit (rn_run_generation run) (JournalRecord_commit_info (rn_record run))
                   (rn_record run) h in
  (finish_replication run h, acknowledged, Replicate_end).
Definition replicate_abort (run : ReplicationRun) (h : Primary) : Segment :=
  (finish_replication run h, None, Replicate_end).
Definition transition_returns (run : ReplicationRun) (assignment : StashAssignment) (retired : list RetiredStash)
    (pc : CasPc) (h : Primary) : Segment :=
  match pc with
  | Cas_return _ => replicate_abort run h
  | _ => (h, None, Replicate_transition assignment retired pc)
  end.
Definition transition_stash (run : ReplicationRun) (h : Primary) : Segment :=
  match transition_proposal volume (rn_run_generation run) h with
  | None => replicate_abort run h
  | Some proposal =>
      let retired := match pr_volume h with Some v => vs_retired_stashes v | None => [] end in
      transition_returns run proposal retired
        (cas_assignment_loop (rn_run_generation run) proposal retired h) h
  end.
Definition activate_returns (run : ReplicationRun) (assignment : StashAssignment) (retired : list RetiredStash)
    (pc : CasPc) (h : Primary) : Segment :=
  match pc with
  | Cas_return true => replicate_finish run h
  | Cas_return false => replicate_abort run h
  | _ => (h, None, Replicate_activate assignment retired pc)
  end.
Definition transitioning (run : ReplicationRun) (h : Primary) : bool :=
  match pr_volume h with
  | Some v =>
      match vs_stash_assignment v with
      | Some stash => (sa_assignment_epoch stash =? rn_assignment_epoch run)
                      && bool_decide (sa_transition_peer stash = Some (rn_target run))
      | None => false
      end
  | None => false
  end.
Definition replicate_committed (run : ReplicationRun) (h : Primary) : Segment :=
  if transitioning run h then
    match activation (rn_run_generation run) (rn_target run) (rn_assignment_epoch run)
            (JournalRecord_commit_info (rn_record run)) h with
    | None => replicate_abort run h
    | Some (assignment, retired) =>
        activate_returns run assignment retired
          (cas_assignment_loop (rn_run_generation run) assignment retired h) h
    end
  else replicate_finish run h.
Definition replicate_status (run : ReplicationRun) (committed : option (option ReplicaCommitInfo)) (h : Primary)
  : Segment :=
  match committed with
  | None => transition_stash run h
  | Some status =>
      if match status with
         | Some committed => cmp_leb (JournalRecord_commit_info (rn_record run)) committed
         | None => false
         end then replicate_finish run h
      else match replica_closure volume (rn_run_generation run) (rn_record run) h with
           | None => replicate_abort run h
           | Some required => (h, None, Replicate_transfer required)
           end
  end.
Definition replicate_peer (run : ReplicationRun) (pc : ReplicatePc) (answer : PeerAnswer) (h : Primary)
  : option Segment :=
  match pc, answer with
  | Replicate_status, Peer_status committed => Some (replicate_status run committed h)
  | Replicate_transfer required, Peer_transferred ok =>
      Some (if (ok : bool) then (h, None, Replicate_commit required) else transition_stash run h)
  | Replicate_commit _, Peer_committed ok =>
      Some (if (ok : bool) then replicate_committed run h else transition_stash run h)
  | _, _ => None
  end.
End Tasks.

(** ** The system *)
Record Ack := { ak_peer : Z; ak_assignment_epoch : Z; ak_info : ReplicaCommitInfo }.
Record System := {
  sy_cell : option (Z * bytes);
  sy_primary : Primary;
  sy_publication : option (Z * PublishPc);
  sy_replication : option (ReplicationRun * ReplicatePc);
  sy_cleanups : list (Z * RetiredStash * ReleasePc);
  sy_acks : list Ack }.
Inductive Who := The_publication | The_replication | A_cleanup (i : nat).
(** What becomes of a request that the store executes: the store is down; it
    is executed and the answer lost; or it is executed, a write getting the
    given version; or it is refused for its size. *)
Inductive Fate := Down | Lost (version : Z) | Done (version : Z) | Refused.
Inductive Event :=
| Ev_publish
| Ev_prepared (needs_compaction : bool) (pointer : option ManifestPtr)
| Ev_replicate
| Ev_peer (answer : PeerAnswer)
| Ev_release_ack (peer assignment_epoch : Z) (through : ReplicaCommitInfo)
| Ev_store (who : Who) (fate : Fate)
| Ev_answer (who : Who)
| Ev_timer (who : Who)
| Ev_capture (record : JournalRecord)
| Ev_sync (barrier : Z)
| Ev_authority (serving : bool)
| Ev_interrupt (interrupted : bool)
| Ev_close
| Ev_takeover (version : Z) (head : HeadRecord).

Section System.
Context `{C : Crc}.
Variable volume : Z.

Definition set_cell (c : option (Z * bytes)) (s : System) : System :=
  {| sy_cell := c; sy_primary := sy_primary s; sy_publication := sy_publication s;
     sy_replication := sy_replication s; sy_cleanups := sy_cleanups s; sy_acks := sy_acks s |}.
Definition set_primary (h : Primary) (s : System) : System :=
  {| sy_cell := sy_cell s; sy_primary := h; sy_publication := sy_publication s;
     sy_replication := sy_replication s; sy_cleanups := sy_cleanups s; sy_acks := sy_acks s |}.
Definition set_publishing (t : option (Z * PublishPc)) (s : System) : System :=
  {| sy_cell := sy_cell s; sy_primary := sy_primary s; sy_publication := t;
     sy_replication := sy_replication s; sy_cleanups := sy_cleanups s; sy_acks := sy_acks s |}.
Definition set_replicating (t : option (ReplicationRun * ReplicatePc)) (s : System) : System :=
  {| sy_cell := sy_cell s; sy_primary := sy_primary s; sy_publication := sy_publication s;
     sy_replication := t; sy_cleanups := sy_cleanups s; sy_acks := sy_acks s |}.
Definition set_cleanups (ts : list (Z * RetiredStash * ReleasePc)) (s : System) : System :=
  {| sy_cell := sy_cell s; sy_primary := sy_primary s; sy_publication := sy_publication s;
     sy_replication := sy_replication s; sy_cleanups := ts; sy_acks := sy_acks s |}.
Definition add_ack (a : Ack) (s : System) : System :=
  {| sy_cell := sy_cell s; sy_primary := sy_primary s; sy_publication := sy_publication s;
     sy_replication := sy_replication s; sy_cleanups := sy_cleanups s; sy_acks := sy_acks s ++ [a] |}.

(** A compare-and-swap of the head. Versions grow; a head that cannot be
    encoded has no step. *)
Definition cell_version (c : option (Z * bytes)) : Z := match c with Some (v, _) => v | None => 0 end.
Definition execute_put (expected : Z) (head : HeadRecord) (fate : Fate) (c : option (Z * bytes))
  : option (option (Z * bytes) * PutAnswer) :=
  match fate with
  | Down => Some (c, Put_Unavailable)
  | Refused => Some (c, Put_TooLarge)
  | Lost version | Done version =>
      if bool_decide (option_map fst c = Some expected) then
        if version <=? cell_version c then None else
        match HeadRecord_encode (E := DecodeError) head with
        | Ok bs => Some (Some (version, bs), match fate with Done _ => Put_Ok version | _ => Put_Unavailable end)
        | _ => None
        end
      else Some (c, match fate with Done _ => Put_Conflict | _ => Put_Unavailable end)
  end.
Definition execute_get (fate : Fate) (c : option (Z * bytes)) : GetAnswer :=
  match fate with
  | Down | Lost _ => Get_Unavailable
  | Refused => Get_TooLarge
  | Done _ => match c with Some (version, bs) => Get_Found version bs | None => Get_Missing end
  end.

(** The requests that wait for the store. *)
Definition publish_execute (pc : PublishPc) (fate : Fate) (c : option (Z * bytes))
  : option (option (Z * bytes) * PublishPc) :=
  match pc with
  | Publish_put snapshot pointer expected head Requested =>
      match execute_put expected head fate c with
      | Some (c, a) => Some (c, Publish_put snapshot pointer expected head (Answered a))
      | None => None
      end
  | Publish_get snapshot pointer head Requested =>
      Some (c, Publish_get snapshot pointer head (Answered (execute_get fate c)))
  | _ => None
  end.
Definition cas_execute (pc : CasPc) (fate : Fate) (c : option (Z * bytes)) : option (option (Z * bytes) * CasPc) :=
  match pc with
  | Cas_put expected head current retired Requested =>
      match execute_put expected head fate c with
      | Some (c, a) => Some (c, Cas_put expected head current retired (Answered a))
      | None => None
      end
  | Cas_get head current retired Requested =>
      Some (c, Cas_get head current retired (Answered (execute_get fate c)))
  | _ => None
  end.
Definition release_execute (pc : ReleasePc) (fate : Fate) (c : option (Z * bytes))
  : option (option (Z * bytes) * ReleasePc) :=
  match pc with
  | Release_put expected head Requested =>
      match execute_put expected head fate c with
      | Some (c, a) => Some (c, Release_put expected head (Answered a))
      | None => None
      end
  | Release_get Requested => Some (c, Release_get (Answered (execute_get fate c)))
  | _ => None
  end.
Definition replicate_execute (pc : ReplicatePc) (fate : Fate) (c : option (Z * bytes))
  : option (option (Z * bytes) * ReplicatePc) :=
  match pc with
  | Replicate_transition assignment retired cas =>
      match cas_execute cas fate c with
      | Some (c, cas) => Some (c, Replicate_transition assignment retired cas)
      | None => None
      end
  | Replicate_activate assignment retired cas =>
      match cas_execute cas fate c with
      | Some (c, cas) => Some (c, Replicate_activate assignment retired cas)
      | None => None
      end
  | _ => None
  end.

(** The segments that an answer or a timer starts. *)
Definition publish_answer (gen : Z) (pc : PublishPc) (h : Primary) : option (Primary * PublishPc) :=
  match pc with
  | Publish_put snapshot pointer _ head (Answered a) =>
      Some (publish_next gen snapshot pointer (publish_head_put snapshot pointer head a) h)
  | Publish_get snapshot pointer head (Answered a) =>
      let '(h, next) := publish_head_get volume gen snapshot pointer head a h in
      Some (publish_next gen snapshot pointer next h)
  | _ => None
  end.
Definition publish_timer (gen : Z) (pc : PublishPc) (h : Primary) : option (Primary * PublishPc) :=
  match pc with
  | Publish_delay snapshot pointer =>
      Some (publish_next gen snapshot pointer (publish_head_loop volume gen snapshot pointer h) h)
  | Publish_again => Some (publish_iteration volume gen h)
  | _ => None
  end.
Definition cas_answer (gen : Z) (assignment : StashAssignment) (retired : list RetiredStash) (pc : CasPc)
    (h : Primary) : option (Primary * CasPc) :=
  match pc with
  | Cas_put _ head current current_retired (Answered a) =>
      Some (cas_assignment_put gen assignment retired head current current_retired a h)
  | Cas_get head current current_retired (Answered a) =>
      Some (cas_assignment_get volume gen assignment retired head current current_retired a h)
  | _ => None
  end.
Definition replicate_answer (run : ReplicationRun) (pc : ReplicatePc) (h : Primary) : option Segment :=
  match pc with
  | Replicate_transition assignment retired cas =>
      match cas_answer (rn_run_generation run) assignment retired cas h with
      | Some (h, cas) => Some (transition_returns run assignment retired cas h)
      | None => None
      end
  | Replicate_activate assignment retired cas =>
      match cas_answer (rn_run_generation run) assignment retired cas h with
      | Some (h, cas) => Some (activate_returns run assignment retired cas h)
      | None => None
      end
  | _ => None
  end.
Definition replicate_timer (run : ReplicationRun) (pc : ReplicatePc) (h : Primary) : option Segment :=
  match pc with
  | Replicate_transition assignment retired Cas_delay =>
      Some (transition_returns run assignment retired
              (cas_assignment_loop volume (rn_run_generation run) assignment retired h) h)
  | Replicate_activate assignment retired Cas_delay =>
      Some (activate_returns run assignment retired
              (cas_assignment_loop volume (rn_run_generation run) assignment retired h) h)
  | _ => None
  end.
Definition release_answer (gen : Z) (retired : RetiredStash) (pc : ReleasePc) (h : Primary)
  : option (Primary * ReleasePc) :=
  match pc with
  | Release_put _ head (Answered a) => Some (remove_retired_put gen head a h)
  | Release_get (Answered a) => Some (remove_retired_get volume gen retired a h)
  | _ => None
  end.

Definition publish_goes (gen : Z) (next : option (Primary * PublishPc)) (s : System) : option System :=
  match next with
  | Some (h, Publish_end) => Some (set_publishing None (set_primary h s))
  | Some (h, pc) => Some (set_publishing (Some (gen, pc)) (set_primary h s))
  | None => None
  end.
Definition replicate_goes (run : ReplicationRun) (next : option Segment) (s : System) : option System :=
  match next with
  | Some (h, acknowledged, pc) =>
      let s := set_primary h s in
      let s := match acknowledged with
               | Some info => add_ack {| ak_peer := rn_target run;
                                         ak_assignment_epoch := rn_assignment_epoch run; ak_info := info |} s
               | None => s
               end in
      Some (set_replicating match pc with Replicate_end => None | _ => Some (run, pc) end s)
  | None => None
  end.

Definition step_store (who : Who) (fate : Fate) (s : System) : option System :=
  match who with
  | The_publication =>
      match sy_publication s with
      | Some (gen, pc) =>
          match publish_execute pc fate (sy_cell s) with
          | Some (c, pc) => Some (set_publishing (Some (gen, pc)) (set_cell c s))
          | None => None
          end
      | None => None
      end
  | The_replication =>
      match sy_replication s with
      | Some (run, pc) =>
          match replicate_execute pc fate (sy_cell s) with
          | Some (c, pc) => Some (set_replicating (Some (run, pc)) (set_cell c s))
          | None => None
          end
      | None => None
      end
  | A_cleanup i =>
      match sy_cleanups s !! i with
      | Some (gen, retired, pc) =>
          match release_execute pc fate (sy_cell s) with
          | Some (c, pc) => Some (set_cleanups (<[i := (gen, retired, pc)]> (sy_cleanups s)) (set_cell c s))
          | None => None
          end
      | None => None
      end
  end.
Definition step_answer (who : Who) (s : System) : option System :=
  let h := sy_primary s in
  match who with
  | The_publication =>
      match sy_publication s with
      | Some (gen, pc) => publish_goes gen (publish_answer gen pc h) s
      | None => None
      end
  | The_replication =>
      match sy_replication s with
      | Some (run, pc) => replicate_goes run (replicate_answer run pc h) s
      | None => None
      end
  | A_cleanup i =>
      match sy_cleanups s !! i with
      | Some (gen, retired, pc) =>
          match release_answer gen retired pc h with
          | Some (h, pc) => Some (set_cleanups (<[i := (gen, retired, pc)]> (sy_cleanups s)) (set_primary h s))
          | None => None
          end
      | None => None
      end
  end.
Definition step_timer (who : Who) (s : System) : option System :=
  let h := sy_primary s in
  match who with
  | The_publication =>
      match sy_publication s with
      | Some (gen, pc) => publish_goes gen (publish_timer gen pc h) s
      | None => None
      end
  | The_replication =>
      match sy_replication s with
      | Some (run, pc) => replicate_goes run (replicate_timer run pc h) s
      | None => None
      end
  | A_cleanup _ => None
  end.
Definition edit_volume (f : VolumeState -> VolumeState) (s : System) : option System :=
  match pr_volume (sy_primary s) with
  | Some v => Some (set_primary (with_volume (sy_primary s) (Some (f v))) s)
  | None => None
  end.
Definition step (e : Event) (s : System) : option System :=
  let h := sy_primary s in
  match e with
  | Ev_publish =>
      match sy_publication s, publish volume h with
      | None, Some (gen, next) => publish_goes gen (Some next) s
      | _, _ => None
      end
  | Ev_prepared needs_compaction pointer =>
      match sy_publication s with
      | Some (gen, Publish_prepare snapshot) =>
          publish_goes gen (Some (publish_prepared volume gen snapshot needs_compaction pointer h)) s
      | _ => None
      end
  | Ev_replicate =>
      match sy_replication s, replicate h with
      | None, Some (h, run) => Some (set_replicating (Some (run, Replicate_status)) (set_primary h s))
      | _, _ => None
      end
  | Ev_peer answer =>
      match sy_replication s with
      | Some (run, pc) => replicate_goes run (replicate_peer volume run pc answer h) s
      | None => None
      end
  | Ev_release_ack peer epoch through =>
      let '(h, found) := release_acknowledged peer epoch through h in
      let s := set_primary h s in
      Some match found with
           | Some (gen, retired) =>
               set_cleanups (sy_cleanups s ++ [(gen, retired, remove_retired_loop volume gen retired h)]) s
           | None => s
           end
  | Ev_store who fate => step_store who fate s
  | Ev_answer who => step_answer who s
  | Ev_timer who => step_timer who s
  | Ev_capture record =>
      edit_volume (fun v => set_work (Some record) (vs_publication v) (vs_replication v) (vs_interrupted v) v) s
  | Ev_sync barrier =>
      edit_volume (fun v => set_commits (vs_peer_committed v) (vs_peer_committed_record v)
        (vs_peer_committed_through v) (vs_peer_published v) (vs_sync_ack_through v)
        (vs_pending_syncs v ++ [barrier]) (vs_backed_blx_files v) v) s
  | Ev_authority serving =>
      Some (set_primary {| pr_host := pr_host h; pr_placement := pr_placement h; pr_authorized := serving;
                           pr_volume := pr_volume h; pr_replica_releases := pr_replica_releases h;
                           pr_failed := pr_failed h |} s)
  | Ev_interrupt interrupted =>
      edit_volume (fun v => set_work (vs_best_record v) (vs_publication v) (vs_replication v) interrupted v) s
  | Ev_close => Some (set_primary (with_volume h None) s)
  | Ev_takeover version head =>
      if (version <=? cell_version (sy_cell s)) || (head_holder head =? pr_host h) then None else
      match HeadRecord_encode (E := DecodeError) head with
      | Ok bs => Some (set_cell (Some (version, bs)) s)
      | _ => None
      end
  end.
Fixpoint run (events : list Event) (s : System) : option System :=
  match events with
  | [] => Some s
  | e :: events => match step e s with Some s => run events s | None => None end
  end.
End System.
