(* ===== verification/StashSafety.v ===== *)
(** * What the tasks that write a head guarantee

    However the tasks, the store and the other hosts interleave, a host writes
    only over its own heads, and what it writes is well formed. While the
    replication is the only writer, a sync is acknowledged only when the head
    names the peer that holds it. *)

From stdpp Require Import gmap.
From S2P Require Import Prelude Format Types Sorting OrdMap Text Head Blx Manifest Layout Journal Placement.
From S2P Require Import ReplicaRecovery RecoverySafety StashProtocol.

#[local] Open Scope Z_scope.

Section Safety.
Context `{C : Crc} `{CL : !CrcLaws C}.
Variables (volume host fence : Z).
Hypotheses (Hvolume : fits W64 volume) (Hhost : fits W32 host) (Hfence : fits W64 fence).
Abbreviation cell := (option (Z * bytes)).

(** ** Heads of this holder and fence *)
(** A move of the stash ends in one more retired stash, so there is room. *)
Record roomy (stash : option StashAssignment) (retired : list RetiredStash) : Prop := {
  ro_bound : len retired <= MAX_RETIRED_STASHES;
  ro_retired : Forall RetiredStash_ok retired;
  ro_stash : option_ok StashAssignment_ok stash;
  ro_moving a p : stash = Some a -> sa_transition_peer a = Some p -> len retired < MAX_RETIRED_STASHES }.
Record ours (h : HeadRecord) : Prop := {
  our_volume : head_volume h = volume;
  our_holder : head_holder h = host;
  our_fence : head_fence h = fence;
  our_manifest : option_ok ManifestPtr_ok (head_manifest h);
  our_stash : roomy (head_stash h) (head_retired_stashes h) }.
Lemma ours_encodes h : ours h ->
  exists bs, (forall E, HeadRecord_encode (E := E) h = Ok bs) /\ HeadRecord_decode volume bs = Ok h.
Proof using CL Hvolume Hhost Hfence.
  intros [H1 H2 H3 H4 [H5 H6 H7 _]].
  assert (HeadRecord_ok h) as Hok.
  { unfold HeadRecord_ok. rewrite H1, H2, H3. auto 10. }
  destruct (format_writes (ExactFormat := HeadRecord_format volume Hvolume) h (conj H1 Hok)) as (bs & He & _ & Hd).
  exists bs. split; [|exact Hd]. intros E. unfold HeadRecord_encode in *.
  rewrite (proj2 (Z.leb_le _ _) H5) in *. revert He. unfold seal_frame.
  now destruct (_ <? _); intros [= <-].
Qed.

(** A version some task remembers, and an object some task read: they are
    older than the head, or the head itself. *)
Definition tame (bs : bytes) : Prop := forall h, HeadRecord_decode volume bs = Ok h ->
  head_holder h = host -> head_fence h = fence -> ours h.
Definition cell_ok (c : cell) : Prop := exists v bs, c = Some (v, bs) /\ tame bs.
Definition holds_ours (c : cell) : Prop := exists v bs h,
  c = Some (v, bs) /\ HeadRecord_decode volume bs = Ok h /\ ours h.
Definition known (c : cell) (n : Z) : Prop := n < cell_version c \/ n = cell_version c /\ holds_ours c.
Definition seen (c : cell) (n : Z) (b : bytes) : Prop :=
  tame b /\ (n < cell_version c \/ c = Some (n, b)).
Definition grows (c c' : cell) : Prop := c' = c \/ cell_version c < cell_version c'.
Lemma known_grows c c' n : grows c c' -> known c n -> known c' n.
Proof. intros [->|Hg] H; [exact H|]. left. destruct H as [H|[H _]]; lia. Qed.
Lemma seen_grows c c' n b : grows c c' -> seen c n b -> seen c' n b.
Proof. intros [->|Hg] [Ht H]; [now split|]. split; [exact Ht|]. left. destruct H as [H|H]; [lia|]. rewrite H in Hg. simpl in Hg. lia. Qed.
(** A head that was read and has this holder and fence may be adopted. *)
Lemma seen_known c n b h : seen c n b -> HeadRecord_decode volume b = Ok h ->
  head_holder h = host -> head_fence h = fence -> known c n /\ ours h.
Proof.
  intros [Ht H] Hd H1 H2. pose proof (Ht h Hd H1 H2) as Ho. split; [|exact Ho].
  destruct H as [H|H]; [now left|]. right. rewrite H. split; [reflexivity|]. exists n, b, h. auto.
Qed.

(** ** The invariant *)
Definition record_ok (r : JournalRecord) : Prop := ReplicaCommitInfo_ok (JournalRecord_commit_info r).
Record volume_ok (c : cell) (v : VolumeState) : Prop := {
  vo_fence : vs_fence v = fence;
  vo_version : option_ok (known c) (vs_head_version v);
  vo_backed : option_ok ManifestPtr_ok (vs_backed v);
  vo_stash : roomy (vs_stash_assignment v) (vs_retired_stashes v);
  vo_record : option_ok record_ok (vs_best_record v) }.
Record primary_ok (c : cell) (h : Primary) : Prop := {
  po_host : pr_host h = host;
  po_roster : option_ok (fun p => Forall (fits W32) (cpc_roster p)) (pr_placement h);
  po_volume : option_ok (volume_ok c) (pr_volume h) }.
Definition put_ok (c : cell) (expected : Z) (head : HeadRecord) (w : Waiting PutAnswer) : Prop :=
  known c expected /\ ours head /\ match w with Answered (Put_Ok n) => known c n | _ => True end.
Definition get_ok (c : cell) (w : Waiting GetAnswer) : Prop :=
  match w with Answered (Get_Found n bs) => seen c n bs | _ => True end.
Definition publish_ok (c : cell) (pc : PublishPc) : Prop :=
  match pc with
  | Publish_put _ pointer expected head w => ManifestPtr_ok pointer /\ put_ok c expected head w
  | Publish_get _ pointer head w => ManifestPtr_ok pointer /\ ours head /\ get_ok c w
  | Publish_delay _ pointer => ManifestPtr_ok pointer
  | _ => True
  end.
Definition cas_ok (c : cell) (pc : CasPc) : Prop :=
  match pc with
  | Cas_put expected head _ _ w => put_ok c expected head w
  | Cas_get head _ _ w => ours head /\ get_ok c w
  | _ => True
  end.
Definition release_ok (c : cell) (pc : ReleasePc) : Prop :=
  match pc with
  | Release_put expected head w => put_ok c expected head w /\ len (head_retired_stashes head) < MAX_RETIRED_STASHES
  | Release_get w => get_ok c w
  | _ => True
  end.
Definition replicate_ok (c : cell) (pc : ReplicatePc) : Prop :=
  match pc with
  | Replicate_transition a r cas | Replicate_activate a r cas => roomy (Some a) r /\ cas_ok c cas
  | _ => True
  end.
Record consistent (s : System) : Prop := {
  co_cell : cell_ok (sy_cell s);
  co_primary : primary_ok (sy_cell s) (sy_primary s);
  co_publish : option_ok (fun t => publish_ok (sy_cell s) t.2) (sy_publication s);
  co_replicate : option_ok (fun t => record_ok (rn_record t.1) /\ replicate_ok (sy_cell s) t.2) (sy_replication s);
  co_cleanups : Forall (fun t => release_ok (sy_cell s) t.2) (sy_cleanups s) }.
Definition event_ok (e : Event) : Prop :=
  match e with
  | Ev_prepared _ pointer => option_ok ManifestPtr_ok pointer
  | Ev_capture record => record_ok record
  | Ev_takeover _ head => head_volume head = volume /\ HeadRecord_ok head /\ head_holder head <> host
  | _ => True
  end.

Lemma put_grows c c' e h w : grows c c' -> put_ok c e h w -> put_ok c' e h w.
Proof.
  intros Hg (H1 & H2 & H3). split; [now apply (known_grows c)|]. split; [exact H2|].
  destruct w as [|[]]; auto. now apply (known_grows c).
Qed.
Lemma get_grows c c' w : grows c c' -> get_ok c w -> get_ok c' w.
Proof. intros Hg. destruct w as [|[]]; simpl; auto. now apply seen_grows. Qed.
Lemma publish_grows c c' pc : grows c c' -> publish_ok c pc -> publish_ok c' pc.
Proof.
  intros Hg. destruct pc; simpl; auto.
  - intros [? ?]. split; [assumption|now apply (put_grows c)].
  - intros (? & ? & ?). do 2 (split; [assumption|]). now apply (get_grows c).
Qed.
Lemma cas_grows c c' pc : grows c c' -> cas_ok c pc -> cas_ok c' pc.
Proof.
  intros Hg. destruct pc; simpl; auto; [now apply put_grows|]. intros [? ?]. split; [assumption|now apply (get_grows c)].
Qed.
Lemma release_grows c c' pc : grows c c' -> release_ok c pc -> release_ok c' pc.
Proof. intros Hg. destruct pc; simpl; auto; [|now apply get_grows]. intros [? ?]. split; [now apply (put_grows c)|assumption]. Qed.
Lemma replicate_grows c c' pc : grows c c' -> replicate_ok c pc -> replicate_ok c' pc.
Proof. intros Hg. destruct pc; simpl; auto; intros [? ?]; (split; [assumption|now apply (cas_grows c)]). Qed.
Lemma primary_grows c c' h : grows c c' -> primary_ok c h -> primary_ok c' h.
Proof.
  intros Hg [H1 H2 H3]. split; auto. destruct (pr_volume h) as [v|]; [|exact I]. destruct H3 as [V1 V2 V3 V4 V5].
  split; auto. destruct (vs_head_version v); [|exact I]. now apply (known_grows c).
Qed.

(** ** The store *)
Lemma execute_put_ok c e h fate c' a : cell_ok c -> put_ok c e h Requested ->
  execute_put e h fate c = Some (c', a) ->
  grows c c' /\ cell_ok c' /\ put_ok c' e h (Answered a)
  /\ (c' = c \/ holds_ours c /\ exists v' bs', c' = Some (v', bs') /\ HeadRecord_decode volume bs' = Ok h).
Proof using CL Hvolume Hhost Hfence.
  intros Hc (Hk & Ho & _) H.
  assert (forall a, (forall n, a <> Put_Ok n) -> (c, a) = (c', a) ->
    grows c c' /\ cell_ok c' /\ put_ok c' e h (Answered a)
    /\ (c' = c \/ holds_ours c /\ exists v' bs', c' = Some (v', bs') /\ HeadRecord_decode volume bs' = Ok h)) as Hsame.
  { intros a' Ha [= <-]. split; [now left|]. split; [exact Hc|]. split; [|now left]. split; [exact Hk|]. split; [exact Ho|].
    destruct a'; auto. now destruct (Ha version). }
  assert (forall version (lost : bool),
    (if bool_decide (option_map fst c = Some e) then
       if version <=? cell_version c then None else
       match HeadRecord_encode (E := DecodeError) h with
       | Ok bs => Some (Some (version, bs), if lost then Put_Unavailable else Put_Ok version)
       | _ => None
       end
     else Some (c, if lost then Put_Unavailable else Put_Conflict)) = Some (c', a) ->
    grows c c' /\ cell_ok c' /\ put_ok c' e h (Answered a)
    /\ (c' = c \/ holds_ours c /\ exists v' bs', c' = Some (v', bs') /\ HeadRecord_decode volume bs' = Ok h)) as Hrun.
  { intros version lost. destruct (bool_decide_reflect (option_map fst c = Some e)) as [Heq|_].
    2:{ intros [= <- <-]. destruct lost; apply Hsame; auto; discriminate. }
    destruct (Z.leb_spec version (cell_version c)) as [|Hv]; [discriminate|].
    destruct (ours_encodes h Ho) as (bs & -> & Hd). intros [= <- <-].
    assert (holds_ours c) as Hours.
    { destruct c as [[v b]|]; [|discriminate]. injection Heq as ->. destruct Hk as [Hk|[_ Hk]]; [simpl in Hk; lia|exact Hk]. }
    assert (grows c (Some (version, bs))) as Hg by (right; exact Hv).
    split; [exact Hg|]. split; [exists version, bs; split; [reflexivity|]; intros h' Hd'; congruence|].
    split; [|right; eauto 10]. split; [now apply (known_grows c)|]. split; [exact Ho|]. destruct lost; [exact I|].
    right. split; [reflexivity|]. exists version, bs, h. auto. }
  destruct fate as [|version|version|]; simpl in H.
  - injection H as <- <-. apply Hsame; [discriminate|reflexivity].
  - exact (Hrun version true H).
  - exact (Hrun version false H).
  - injection H as <- <-. apply Hsame; [discriminate|reflexivity].
Qed.
(** What the host may do to the head. *)
Definition replaced (c c' : cell) : Prop :=
  c' = c \/ holds_ours c /\ holds_ours c' /\ cell_version c < cell_version c'.
Lemma put_replaced c c' h : grows c c' -> ours h ->
  c' = c \/ holds_ours c /\ (exists v' bs', c' = Some (v', bs') /\ HeadRecord_decode volume bs' = Ok h) ->
  replaced c c'.
Proof.
  intros [->|Hg] Ho H; [now left|]. destruct H as [H|[H1 (v & bs & -> & Hd)]]; [now left|]. right.
  split; [exact H1|]. split; [exists v, bs, h; auto|exact Hg].
Qed.
Lemma execute_get_ok c fate : cell_ok c -> get_ok c (Answered (execute_get fate c)).
Proof.
  intros (v & bs & -> & Ht). destruct fate; simpl; auto. split; [exact Ht|now right].
Qed.

(** ** The volume *)
Lemma volume_at_Some h g v : volume_at h g = Some v -> pr_volume h = Some v /\ vs_run_generation v = g.
Proof.
  unfold volume_at. destruct (pr_volume h) as [w|]; [|discriminate].
  destruct (Z.eqb_spec (vs_run_generation w) g); intros [= <-]; auto.
Qed.
Lemma volume_at_ok c h g v : primary_ok c h -> volume_at h g = Some v -> volume_ok c v.
Proof. intros [_ _ H] [Hv _]%volume_at_Some. now rewrite Hv in H. Qed.
Lemma primary_with c h v : primary_ok c h -> option_ok (volume_ok c) v -> primary_ok c (with_volume h v).
Proof. intros [H1 H2 _] Hv. split; auto. Qed.
Lemma primary_same c h h' : pr_host h' = pr_host h -> pr_placement h' = pr_placement h ->
  pr_volume h' = pr_volume h -> primary_ok c h -> primary_ok c h'.
Proof. intros E1 E2 E3 [H1 H2 H3]. split; congruence. Qed.
Lemma set_head_ok c n backed stash retired v : volume_ok c v -> known c n -> option_ok ManifestPtr_ok backed ->
  roomy stash retired -> volume_ok c (set_head (Some n) backed stash retired v).
Proof. intros [H1 _ _ _ H5] Hn Hb Hr. split; auto. Qed.
Lemma set_commits_ok c committed record through published ack pending files v :
  volume_ok c v -> volume_ok c (set_commits committed record through published ack pending files v).
Proof. intros []. now split. Qed.
Lemma set_work_ok c best publication replication interrupted v : volume_ok c v -> option_ok record_ok best ->
  volume_ok c (set_work best publication replication interrupted v).
Proof. intros [] ?. now split. Qed.
Lemma update_ok c g f h : (forall v, volume_ok c v -> volume_ok c (f v)) -> primary_ok c h ->
  primary_ok c (volume_update g f h).
Proof.
  intros Hf Hh. unfold volume_update. destruct (volume_at h g) as [v|] eqn:Hv; [|exact Hh].
  apply primary_with; [exact Hh|]. apply Hf. now apply (volume_at_ok c h g).
Qed.
Lemma adopt_assignment_ok c n a r v : volume_ok c v -> known c n -> roomy (Some a) r ->
  volume_ok c (adopt_assignment n a r v).
Proof.
  intros Hv Hn Hr. unfold adopt_assignment. case_bool_decide; apply set_head_ok; auto;
    try apply set_commits_ok; auto; apply Hv.
Qed.
Lemma adopt_head_ok c n h v : volume_ok c v -> known c n -> ours h -> volume_ok c (adopt_assignment_from_head n h v).
Proof.
  intros Hv Hn []. unfold adopt_assignment_from_head. case_bool_decide; apply set_head_ok; auto; now apply set_commits_ok.
Qed.
Lemma finish_primary_commit_ok c g info record h : primary_ok c h ->
  primary_ok c (finish_primary_commit g info record h).1.
Proof.
  intros Hh. unfold finish_primary_commit. destruct (volume_at h g) as [v|] eqn:Hv; [|exact Hh].
  pose proof (volume_at_ok c h g v Hh Hv). destruct (negb (pr_authorized h)); simpl; apply primary_with; auto;
    now apply set_commits_ok.
Qed.

(** ** The publication *)
Definition next_ok (c : cell) (next : PublishPc + PublishHead) : Prop :=
  match next with inl pc => publish_ok c pc | inr (Published n) => known c n | inr _ => True end.
Lemma publish_head_loop_ok c g snapshot p h : primary_ok c h -> ManifestPtr_ok p ->
  next_ok c (publish_head_loop volume g snapshot p h).
Proof.
  intros Hh Hp. unfold publish_head_loop. destruct (volume_at h g) as [v|] eqn:Hv; [|exact I].
  pose proof (volume_at_ok c h g v Hh Hv) as [V1 V2 V3 V4 V5].
  destruct (vs_head_version v) as [e|]; [|exact I]. split; [exact Hp|]. split; [exact V2|]. split; [|exact I].
  split; auto. apply (po_host _ _ Hh).
Qed.
Lemma publish_result_ok c g snapshot p result h : primary_ok c h -> ManifestPtr_ok p -> next_ok c (inr result) ->
  let next := publish_result g snapshot p result h in primary_ok c next.1 /\ publish_ok c next.2.
Proof.
  intros Hh Hp Hr. destruct result as [n| |]; simpl in *.
  - destruct (volume_at h g) as [v|] eqn:Hv; [|now split]. split; [|exact I].
    apply (primary_same c (with_volume h (Some (published snapshot p n v)))); try reflexivity.
    + unfold retry_releases. simpl. now repeat case_match.
    + unfold retry_releases. simpl. now repeat case_match.
    + unfold retry_releases. simpl. now repeat case_match.
    + apply primary_with; [exact Hh|]. pose proof (volume_at_ok c h g v Hh Hv) as Vo.
      apply set_commits_ok, set_head_ok; auto. apply Vo.
  - split; [|exact I]. destruct (volume_at h g); [now apply primary_with|exact Hh].
  - split; [|exact I]. apply update_ok; [|now apply (primary_same c h)].
    intros v Hv. apply set_work_ok; [exact Hv|apply Hv].
Qed.
Lemma publish_next_ok c g snapshot p next h : primary_ok c h -> ManifestPtr_ok p -> next_ok c next ->
  let r := publish_next g snapshot p next h in primary_ok c r.1 /\ publish_ok c r.2.
Proof. intros Hh Hp Hn. destruct next as [pc|result]; [now split|now apply publish_result_ok]. Qed.
Lemma finish_publication_ok c g h : primary_ok c h -> primary_ok c (finish_publication g h).
Proof. apply update_ok. intros v Hv. apply set_work_ok; [exact Hv|apply Hv]. Qed.
Lemma publish_iteration_ok c g h : primary_ok c h ->
  let r := publish_iteration volume g h in primary_ok c r.1 /\ publish_ok c r.2.
Proof.
  intros Hh. unfold publish_iteration. destruct (publish_snapshot volume g h); simpl;
    [|split; [now apply finish_publication_ok|exact I]].
  destruct (match _ with Some v => vs_interrupted v | None => true end); simpl;
    (split; [try apply finish_publication_ok; assumption|exact I]).
Qed.
Lemma publish_start_ok c h g r : primary_ok c h -> publish volume h = Some (g, r) ->
  primary_ok c r.1 /\ publish_ok c r.2.
Proof.
  intros Hh. unfold publish. destruct (pr_volume h) as [v|] eqn:Hv; [|discriminate].
  destruct (vs_publication v); [discriminate|]. intros [= <- <-]. apply publish_iteration_ok, primary_with; [exact Hh|].
  pose proof (po_volume _ _ Hh) as Vo. rewrite Hv in Vo. apply set_work_ok; [exact Vo|apply Vo].
Qed.
Lemma publish_prepared_ok c g snapshot compaction p h : primary_ok c h -> option_ok ManifestPtr_ok p ->
  let r := publish_prepared volume g snapshot compaction p h in primary_ok c r.1 /\ publish_ok c r.2.
Proof.
  intros Hh Hp. unfold publish_prepared. destruct (_ || _); [split; [now apply finish_publication_ok|exact I]|].
  destruct p as [p|]; [|now split]. apply publish_next_ok; auto. now apply publish_head_loop_ok.
Qed.
Lemma publish_head_get_ok c g snapshot p head a h : primary_ok c h -> ManifestPtr_ok p -> ours head ->
  get_ok c (Answered a) ->
  let r := publish_head_get volume g snapshot p head a h in primary_ok c r.1 /\ next_ok c r.2.
Proof.
  intros Hh Hp Ho Ha. destruct a as [n bs| | |]; simpl; auto.
  destruct (HeadRecord_decode volume bs) as [found| |] eqn:Hd; [|now split..].
  destruct (negb _ || negb _) eqn:Hg; [now split|].
  apply orb_false_iff in Hg as [G1 G2]. rewrite negb_false_iff, Z.eqb_eq in G1, G2.
  rewrite (our_holder _ Ho) in G1. rewrite (our_fence _ Ho) in G2.
  destruct (seen_known c n bs found Ha Hd G1 G2) as [Hk Hf].
  destruct (match head_manifest found with Some _ => _ | None => false end); [now split|].
  assert (primary_ok c (match pr_volume h with
            | Some v => with_volume h (Some (set_head_version n v))
            | None => h
            end)) as Hh'.
  { pose proof (po_volume _ _ Hh) as Vo. destruct (pr_volume h) as [v|]; [|exact Hh].
    apply primary_with; [exact Hh|]. apply set_head_ok; auto; apply Vo. }
  split; [exact Hh'|now apply publish_head_loop_ok].
Qed.
Lemma publish_answer_ok c g pc h r : primary_ok c h -> publish_ok c pc -> publish_answer volume g pc h = Some r ->
  primary_ok c r.1 /\ publish_ok c r.2.
Proof.
  intros Hh Hpc. destruct pc as [|sn p e head w|sn p head w| | |]; simpl; try discriminate.
  - destruct w as [|a]; [discriminate|]. intros [= <-]. destruct Hpc as (Hp & _ & Ho & Ha).
    apply publish_next_ok; auto. destruct a; simpl; auto. 
  - destruct w as [|a]; [discriminate|]. destruct Hpc as (Hp & Ho & Ha).
    pose proof (publish_head_get_ok c g sn p head a h Hh Hp Ho Ha) as Hr.
    destruct (publish_head_get volume g sn p head a h) as [h' next]. intros [= <-]. destruct Hr. now apply publish_next_ok.
Qed.
Lemma publish_timer_ok c g pc h r : primary_ok c h -> publish_ok c pc -> publish_timer volume g pc h = Some r ->
  primary_ok c r.1 /\ publish_ok c r.2.
Proof.
  intros Hh Hpc. destruct pc; simpl; try discriminate; intros [= <-].
  - apply publish_next_ok; auto. now apply publish_head_loop_ok.
  - now apply publish_iteration_ok.
Qed.

(** ** The replication *)
Lemma In_candidates e p v roster x : In x (rank_stash_candidates e p v roster) -> In x roster.
Proof.
  unfold rank_stash_candidates. intros ([sc y] & <- & Hin%In_sort_by)%in_map_iff.
  apply in_map_iff in Hin as (z & [= <- <-] & Hz). now apply filter_In in Hz.
Qed.
Lemma next_candidate_spec candidates active n : forall e e' x,
  next_candidate n candidates active e = Some (e', x) ->
  In x candidates /\ x <> active /\ e < e' < W64.
Proof.
  induction n as [|n IH]; intros e e' x; simpl; [discriminate|].
  destruct (checked_add W64 e 1) as [e1|] eqn:He; [|discriminate]. apply checked_add_inv in He as [-> He].
  destruct (nth_error candidates _) as [y|] eqn:Hy; [|discriminate].
  destruct (Z.eqb_spec y active) as [->|Hne]; simpl.
  - intros (H1 & H2 & H3)%IH. split; [exact H1|]. split; [exact H2|]. lia.
  - intros [= <- <-]. apply nth_error_In in Hy. split; [exact Hy|]. split; [exact Hne|]. lia.
Qed.
Lemma transition_proposal_ok c g h a : primary_ok c h -> transition_proposal volume g h = Some a ->
  exists v, volume_at h g = Some v /\ roomy (Some a) (vs_retired_stashes v).
Proof.
  intros Hh. unfold transition_proposal. destruct (volume_at h g) as [v|] eqn:Hv; [|discriminate].
  destruct (Z.leb_spec MAX_RETIRED_STASHES (len (vs_retired_stashes v))) as [|Hroom]; [discriminate|].
  pose proof (volume_at_ok c h g v Hh Hv) as [_ _ _ [R1 R2 R3 R4] _].
  destruct (vs_stash_assignment v) as [current|]; [|discriminate]. simpl in R3. intros H. exists v. split; [reflexivity|].
  case_bool_decide; [injection H as <-; now split|].
  pose proof (po_roster _ _ Hh) as Hro. destruct (pr_placement h) as [placement|]; [|discriminate]. simpl in Hro.
  destruct (next_candidate _ _ _ _) as [[e x]|] eqn:Hn; [|discriminate]. injection H as <-.
  apply next_candidate_spec in Hn as (Hx%In_candidates & Hne & He). rewrite List.Forall_forall in Hro.
  split; [lia|exact R2| |intros; assumption]. destruct R3 as (F1 & F2 & F3 & _ & F5 & _).
  unfold StashAssignment_ok. simpl. unfold fits in *. repeat split; try tauto; try lia; try congruence; try apply (Hro x Hx).
Qed.
Lemma activation_ok c g target epoch info h a r : primary_ok c h -> ReplicaCommitInfo_ok info ->
  activation g target epoch info h = Some (a, r) -> roomy (Some a) r.
Proof.
  intros Hh Hi. unfold activation. destruct (volume_at h g) as [v|] eqn:Hv; [|discriminate].
  pose proof (volume_at_ok c h g v Hh Hv) as [_ _ _ [R1 R2 R3 R4] _].
  destruct (vs_stash_assignment v) as [current|]; [|discriminate]. simpl in R3.
  destruct (Z.eqb_spec (sa_assignment_epoch current) epoch) as [<-|]; [|discriminate].
  destruct (bool_decide_reflect (sa_transition_peer current = Some target)) as [Ht|]; [|discriminate]. simpl.
  intros [= <- <-]. pose proof (R4 current target eq_refl Ht) as Hroom. destruct R3 as (F1 & F2 & F3 & F4 & F5 & F6 & F7).
  rewrite Ht in F4. simpl in F4. split.
  - case_bool_decide; [exact R1|]. rewrite len_app, len_cons, len_nil. lia.
  - case_bool_decide; [exact R2|]. apply Forall_app. split; [exact R2|]. constructor; [|constructor]. now split.
  - unfold StashAssignment_ok. simpl. repeat split; auto; try apply F1; try apply F4; try apply F5; discriminate.
  - intros a p [= <-]. discriminate.
Qed.
Lemma cas_loop_ok c g a r h : primary_ok c h -> roomy (Some a) r -> cas_ok c (cas_assignment_loop volume g a r h).
Proof.
  intros Hh Hr. unfold cas_assignment_loop. destruct (volume_at h g) as [v|] eqn:Hv; [|exact I].
  pose proof (volume_at_ok c h g v Hh Hv) as [V1 V2 V3 V4 V5].
  destruct (vs_head_version v); [|exact I]. split; [exact V2|]. split; [|exact I]. split; auto. apply (po_host _ _ Hh).
Qed.
Lemma adopt_ok c g n a r h : primary_ok c h -> known c n -> roomy (Some a) r ->
  let next := adopt g n a r h in primary_ok c next.1 /\ cas_ok c next.2.
Proof.
  intros Hh Hn Hr. unfold adopt. destruct (volume_at h g) as [v|] eqn:Hv; [|now split]. split; [|exact I].
  apply primary_with; [exact Hh|]. apply adopt_assignment_ok; auto. now apply (volume_at_ok c h g).
Qed.
Lemma cas_answer_ok c g a r pc h next : primary_ok c h -> roomy (Some a) r -> cas_ok c pc ->
  cas_answer volume g a r pc h = Some next -> primary_ok c next.1 /\ cas_ok c next.2.
Proof.
  intros Hh Hr Hpc. destruct pc as [e head cur curR w|head cur curR w| |]; simpl; try discriminate;
    (destruct w as [|ans]; [discriminate|]); intros [= <-].
  - destruct Hpc as (_ & Ho & Ha). destruct ans; simpl; try (split; [exact Hh|]; simpl; auto). now apply adopt_ok.
  - destruct Hpc as [Ho Ha]. destruct ans as [n bs| | |]; simpl; try (split; [exact Hh|]; simpl; auto).
    destruct (HeadRecord_decode volume bs) as [found| |] eqn:Hd; try (split; [exact Hh|exact I]).
    destruct (volume_at h g) as [v|] eqn:Hv; [|now split]. pose proof (volume_at_ok c h g v Hh Hv) as Vo.
    destruct (negb _ || negb _) eqn:Hg; [split; [now apply (primary_same c h)|exact I]|].
    apply orb_false_iff in Hg as [G1 G2]. rewrite negb_false_iff, Z.eqb_eq in G1, G2.
    rewrite (po_host _ _ Hh) in G1. rewrite (vo_fence _ _ Vo) in G2.
    destruct (seen_known c n bs found Ha Hd G1 G2) as [Hk Hf].
    case_bool_decide; [now apply adopt_ok|]. destruct (_ && _); (split; [|exact I]); apply primary_with; auto.
    + apply set_head_ok; auto; [apply Hf|apply Vo].
    + now apply adopt_head_ok.
Qed.
Definition segment_ok (c : cell) (seg : Segment) : Prop := primary_ok c seg.1.1 /\ replicate_ok c seg.2.
Lemma finish_replication_ok c run h : primary_ok c h -> primary_ok c (finish_replication run h).
Proof. apply update_ok. intros v Hv. apply set_work_ok; [exact Hv|apply Hv]. Qed.
Lemma abort_ok c run h : primary_ok c h -> segment_ok c (replicate_abort run h).
Proof. intros Hh. split; [now apply finish_replication_ok|exact I]. Qed.
Lemma finish_ok c run h : primary_ok c h -> segment_ok c (replicate_finish run h).
Proof.
  intros Hh. unfold replicate_finish.
  pose proof (finish_primary_commit_ok c (rn_run_generation run) (JournalRecord_commit_info (rn_record run))
    (rn_record run) h Hh) as Hp.
  destruct (finish_primary_commit _ _ _ _) as [h' done]. split; [now apply finish_replication_ok|exact I].
Qed.
Lemma transition_returns_ok c run a r pc h : primary_ok c h -> roomy (Some a) r -> cas_ok c pc ->
  segment_ok c (transition_returns run a r pc h).
Proof. intros Hh Hr Hpc. destruct pc; try (split; [exact Hh|now split]). now apply abort_ok. Qed.
Lemma activate_returns_ok c run a r pc h : primary_ok c h -> roomy (Some a) r -> cas_ok c pc ->
  segment_ok c (activate_returns run a r pc h).
Proof.
  intros Hh Hr Hpc. destruct pc as [| | |[]]; try (split; [exact Hh|now split]); [now apply finish_ok|now apply abort_ok].
Qed.
Lemma transition_stash_ok c run h : primary_ok c h -> segment_ok c (transition_stash volume run h).
Proof.
  intros Hh. unfold transition_stash. destruct (transition_proposal _ _ _) as [a|] eqn:Ha; [|now apply abort_ok].
  destruct (transition_proposal_ok c _ _ _ Hh Ha) as (v & [-> _]%volume_at_Some & Hr).
  apply transition_returns_ok; auto. now apply cas_loop_ok.
Qed.
Lemma replicate_peer_ok c run pc answer h seg : primary_ok c h -> record_ok (rn_record run) ->
  replicate_peer volume run pc answer h = Some seg -> segment_ok c seg.
Proof.
  intros Hh Hi. pose proof (transition_stash_ok c run h Hh). pose proof (finish_ok c run h Hh). pose proof (abort_ok c run h Hh).
  destruct pc, answer as [st|ok|ok]; simpl; try discriminate; intros [= <-].
  - destruct st as [st|]; simpl; [|assumption]. destruct (match st with Some _ => _ | None => false end); [assumption|].
    destruct (replica_closure _ _ _ _); [|assumption]. now split.
  - destruct ok; [|assumption]. now split.
  - destruct ok; [|assumption]. unfold replicate_committed. destruct (transitioning run h); [|assumption].
    destruct (activation _ _ _ _ _) as [[a r]|] eqn:Ha; [|assumption].
    pose proof (activation_ok c _ _ _ _ _ _ _ Hh Hi Ha). apply activate_returns_ok; auto. now apply cas_loop_ok.
Qed.
Lemma replicate_answer_ok c run pc h seg : primary_ok c h -> replicate_ok c pc ->
  replicate_answer volume run pc h = Some seg -> segment_ok c seg.
Proof.
  intros Hh Hpc. destruct pc as [| | |a r cas|a r cas|]; simpl; try discriminate; destruct Hpc as [Hr Hc];
    destruct (cas_answer _ _ _ _ _ _) as [[h' cas']|] eqn:Hn; try discriminate; intros [= <-];
    destruct (cas_answer_ok c _ _ _ _ _ _ Hh Hr Hc Hn); [now apply transition_returns_ok|now apply activate_returns_ok].
Qed.
Lemma replicate_timer_ok c run pc h seg : primary_ok c h -> replicate_ok c pc ->
  replicate_timer volume run pc h = Some seg -> segment_ok c seg.
Proof.
  intros Hh Hpc. destruct pc as [| | |a r []|a r []|]; simpl; try discriminate; destruct Hpc as [Hr Hc]; intros [= <-];
    [apply transition_returns_ok|apply activate_returns_ok]; auto; now apply cas_loop_ok.
Qed.

(** ** The cleanups *)
Lemma remaining_roomy stash retired x : roomy stash retired ->
  roomy stash (List.filter (fun entry => negb (bool_decide (entry = x))) retired).
Proof.
  intros [R1 R2 R3 R4]. pose proof (len_filter_le (fun entry => negb (bool_decide (entry = x))) retired) as Hl.
  split; [lia| |exact R3|]; [|intros a p H1 H2; specialize (R4 a p H1 H2); lia].
  apply List.Forall_forall. intros y [Hy _]%filter_In. rewrite List.Forall_forall in R2. auto.
Qed.
Lemma len_remaining (x : RetiredStash) retired : In x retired ->
  len (List.filter (fun entry => negb (bool_decide (entry = x))) retired) < len retired.
Proof.
  induction retired as [|y l IH]; [easy|]. intros Hin. simpl. case_bool_decide as E; simpl; rewrite ?len_cons.
  - pose proof (len_filter_le (fun entry => negb (bool_decide (entry = x))) l). lia.
  - destruct Hin as [->|Hin]; [easy|]. specialize (IH Hin). lia.
Qed.
Lemma remove_loop_ok c g x h : primary_ok c h -> release_ok c (remove_retired_loop volume g x h).
Proof.
  intros Hh. unfold remove_retired_loop. destruct (volume_at h g) as [v|] eqn:Hv; [|exact I].
  pose proof (volume_at_ok c h g v Hh Hv) as [V1 V2 V3 V4 V5]. case_bool_decide as Hin; simpl; [|exact I].
  destruct (vs_head_version v); [|exact I]. split.
  - split; [exact V2|]. split; [|exact I]. split; auto; [apply (po_host _ _ Hh)|now apply remaining_roomy].
  - simpl. pose proof (len_remaining _ _ Hin). pose proof (ro_bound _ _ V4). lia.
Qed.
Lemma release_answer_ok c g x pc h r : primary_ok c h -> release_ok c pc -> release_answer volume g x pc h = Some r ->
  primary_ok c r.1 /\ release_ok c r.2.
Proof.
  intros Hh Hpc. destruct pc as [e head w|w|]; simpl; try discriminate; (destruct w as [|a]; [discriminate|]); intros [= <-].
  - destruct Hpc as ((_ & Ho & Ha) & Hl). destruct a; simpl; try (split; [exact Hh|]; simpl; auto).
    destruct (volume_at h g) as [v|] eqn:Hv; [|now split]. split; [|exact I]. apply primary_with; [exact Hh|].
    pose proof (volume_at_ok c h g v Hh Hv) as Vo. apply set_head_ok; auto; [apply Vo|].
    destruct (vo_stash _ _ Vo) as [_ _ R3 _]. split; [lia|apply (our_stash _ Ho)|exact R3|auto].
  - destruct a as [n bs| | |]; simpl; try (split; [exact Hh|]; simpl; auto).
    destruct (HeadRecord_decode volume bs) as [found| |] eqn:Hd; try (split; [exact Hh|exact I]).
    destruct (volume_at h g) as [v|] eqn:Hv; [|now split]. pose proof (volume_at_ok c h g v Hh Hv) as Vo.
    destruct (negb _ || negb _) eqn:Hg; [split; [now apply (primary_same c h)|exact I]|].
    apply orb_false_iff in Hg as [G1 G2]. rewrite negb_false_iff, Z.eqb_eq in G1, G2.
    rewrite (po_host _ _ Hh) in G1. rewrite (vo_fence _ _ Vo) in G2.
    destruct (seen_known c n bs found Hpc Hd G1 G2) as [Hk Hf].
    assert (primary_ok c (with_volume h (Some (adopt_assignment_from_head n found v)))) as Hh'
      by (apply primary_with; [exact Hh|now apply adopt_head_ok]).
    split; [exact Hh'|]. simpl. case_bool_decide; [now apply remove_loop_ok|exact I].
Qed.

(** ** The system *)
Definition takes_over (e : Event) : bool := match e with Ev_takeover _ _ => true | _ => false end.
Lemma publish_execute_ok c pc fate c' pc' : cell_ok c -> publish_ok c pc -> publish_execute pc fate c = Some (c', pc') ->
  grows c c' /\ cell_ok c' /\ publish_ok c' pc' /\ replaced c c'.
Proof using CL Hvolume Hhost Hfence.
  intros Hc Hpc. destruct pc as [|sn p e head []|sn p head []| | |]; simpl; try discriminate.
  - destruct Hpc as [Hp Hput]. destruct (execute_put e head fate c) as [[c1 a]|] eqn:He; [|discriminate]. intros [= <- <-].
    destruct (execute_put_ok c e head fate c1 a Hc Hput He) as (Hg & Hc' & Ho & Hr). do 2 (split; [assumption|]).
    split; [now split|]. now apply (put_replaced c c1 head); [|apply Ho|].
  - intros [= <- <-]. destruct Hpc as (Hp & Ho & _). split; [now left|]. split; [exact Hc|]. split; [|now left].
    split; [exact Hp|]. split; [exact Ho|]. now apply execute_get_ok.
Qed.
Lemma cas_execute_ok c pc fate c' pc' : cell_ok c -> cas_ok c pc -> cas_execute pc fate c = Some (c', pc') ->
  grows c c' /\ cell_ok c' /\ cas_ok c' pc' /\ replaced c c'.
Proof using CL Hvolume Hhost Hfence.
  intros Hc Hpc. destruct pc as [e head cur curR []|head cur curR []| |]; simpl; try discriminate.
  - destruct (execute_put e head fate c) as [[c1 a]|] eqn:He; [|discriminate]. intros [= <- <-].
    destruct (execute_put_ok c e head fate c1 a Hc Hpc He) as (Hg & Hc' & Ho & Hr). do 3 (split; [assumption|]).
    now apply (put_replaced c c1 head); [|apply Ho|].
  - intros [= <- <-]. destruct Hpc as [Ho _]. split; [now left|]. split; [exact Hc|]. split; [|now left].
    split; [exact Ho|]. now apply execute_get_ok.
Qed.
Lemma replicate_execute_ok c pc fate c' pc' : cell_ok c -> replicate_ok c pc ->
  replicate_execute pc fate c = Some (c', pc') ->
  grows c c' /\ cell_ok c' /\ replicate_ok c' pc' /\ replaced c c'.
Proof using CL Hvolume Hhost Hfence.
  intros Hc Hpc. destruct pc as [| | |a r cas|a r cas|]; simpl; try discriminate; destruct Hpc as [Hr Hcas];
    (destruct (cas_execute cas fate c) as [[c1 cas1]|] eqn:He; [|discriminate]); intros [= <- <-];
    destruct (cas_execute_ok c cas fate c1 cas1 Hc Hcas He) as (Hg & Hc' & Ho & Hrep); do 2 (split; [assumption|]);
    (split; [now split|assumption]).
Qed.
Lemma release_execute_ok c pc fate c' pc' : cell_ok c -> release_ok c pc -> release_execute pc fate c = Some (c', pc') ->
  grows c c' /\ cell_ok c' /\ release_ok c' pc' /\ replaced c c'.
Proof using CL Hvolume Hhost Hfence.
  intros Hc Hpc. destruct pc as [e head []|[]|]; simpl; try discriminate.
  - destruct Hpc as [Hput Hl]. destruct (execute_put e head fate c) as [[c1 a]|] eqn:He; [|discriminate]. intros [= <- <-].
    destruct (execute_put_ok c e head fate c1 a Hc Hput He) as (Hg & Hc' & Ho & Hr). do 2 (split; [assumption|]).
    split; [now split|]. now apply (put_replaced c c1 head); [|apply Ho|].
  - intros [= <- <-]. split; [now left|]. split; [exact Hc|]. split; [|now left]. now apply execute_get_ok.
Qed.

Lemma consistent_cell s c : consistent s -> grows (sy_cell s) c -> cell_ok c -> consistent (set_cell c s).
Proof.
  intros [H1 H2 H3 H4 H5] Hg Hc. split; simpl.
  - exact Hc.
  - now apply (primary_grows (sy_cell s)).
  - destruct (sy_publication s) as [[g pc]|]; [|exact I]. now apply (publish_grows (sy_cell s)).
  - destruct (sy_replication s) as [[run pc]|]; [|exact I]. destruct H4. split; [assumption|now apply (replicate_grows (sy_cell s))].
  - apply (List.Forall_impl _ (P := fun t => release_ok (sy_cell s) t.2)); [|exact H5]. intros t. now apply release_grows.
Qed.
Lemma consistent_primary s h : consistent s -> primary_ok (sy_cell s) h -> consistent (set_primary h s).
Proof. intros [] Hh. now split. Qed.
Lemma consistent_publishing s t : consistent s -> option_ok (fun t => publish_ok (sy_cell s) t.2) t ->
  consistent (set_publishing t s).
Proof. intros [] Ht. now split. Qed.
Lemma consistent_replicating s t : consistent s ->
  option_ok (fun t => record_ok (rn_record t.1) /\ replicate_ok (sy_cell s) t.2) t -> consistent (set_replicating t s).
Proof. intros [] Ht. now split. Qed.
Lemma consistent_cleanups s ts : consistent s -> Forall (fun t => release_ok (sy_cell s) t.2) ts ->
  consistent (set_cleanups ts s).
Proof. intros [] Ht. now split. Qed.
Lemma consistent_ack s a : consistent s -> consistent (add_ack a s).
Proof. intros []. now split. Qed.

Lemma publish_goes_ok s g next s' : consistent s ->
  (forall r, next = Some r -> primary_ok (sy_cell s) r.1 /\ publish_ok (sy_cell s) r.2) ->
  publish_goes g next s = Some s' -> consistent s' /\ sy_cell s' = sy_cell s.
Proof.
  intros Hs Hn. destruct next as [[h pc]|]; [|discriminate]. destruct (Hn _ eq_refl) as [Hh Hpc].
  assert (consistent (set_primary h s)) as H1 by now apply consistent_primary.
  destruct pc; simpl; intros [= <-]; (split; [|reflexivity]); now apply consistent_publishing.
Qed.
Lemma replicate_goes_ok s run next s' : consistent s -> record_ok (rn_record run) ->
  (forall seg, next = Some seg -> segment_ok (sy_cell s) seg) ->
  replicate_goes run next s = Some s' -> consistent s' /\ sy_cell s' = sy_cell s.
Proof.
  intros Hs Hr Hn. destruct next as [[[h acked] pc]|]; [|discriminate]. destruct (Hn _ eq_refl) as [Hh Hpc].
  assert (consistent (set_primary h s)) as H1 by now apply consistent_primary.
  destruct acked as [info|], pc; simpl; intros [= <-]; (split; [|reflexivity]); apply consistent_replicating;
    try apply consistent_ack; try exact H1; try exact I; now split.
Qed.

Lemma edit_ok s f s' : consistent s -> (forall v, volume_ok (sy_cell s) v -> volume_ok (sy_cell s) (f v)) ->
  edit_volume f s = Some s' -> consistent s' /\ sy_cell s' = sy_cell s.
Proof.
  intros Hs Hf. unfold edit_volume. pose proof (po_volume _ _ (co_primary _ Hs)) as Vo.
  destruct (pr_volume (sy_primary s)) as [v|]; [|discriminate]. intros [= <-]. split; [|reflexivity].
  apply consistent_primary; [exact Hs|]. apply primary_with; [apply Hs|now apply Hf].
Qed.
Lemma step_store_ok s who fate s' : consistent s -> step_store who fate s = Some s' ->
  consistent s' /\ replaced (sy_cell s) (sy_cell s').
Proof using CL Hvolume Hhost Hfence.
  intros Hs. pose proof (co_cell _ Hs) as Hc. destruct who as [| |i]; simpl.
  - pose proof (co_publish _ Hs) as Hp. destruct (sy_publication s) as [[g pc]|]; [|discriminate].
    destruct (publish_execute pc fate (sy_cell s)) as [[c pc']|] eqn:He; [|discriminate]. intros [= <-].
    destruct (publish_execute_ok _ pc fate c pc' Hc Hp He) as (Hg & Hc' & Hpc & Hr). split; [|exact Hr].
    apply consistent_publishing; [now apply consistent_cell|exact Hpc].
  - pose proof (co_replicate _ Hs) as Hp. destruct (sy_replication s) as [[run pc]|]; [|discriminate]. destruct Hp as [Hi Hp].
    destruct (replicate_execute pc fate (sy_cell s)) as [[c pc']|] eqn:He; [|discriminate]. intros [= <-].
    destruct (replicate_execute_ok _ pc fate c pc' Hc Hp He) as (Hg & Hc' & Hpc & Hr). split; [|exact Hr].
    apply consistent_replicating; [now apply consistent_cell|now split].
  - destruct (sy_cleanups s !! i) as [[[g x] pc]|] eqn:Hi; [|discriminate].
    pose proof (proj1 (Forall_lookup _ _) (co_cleanups _ Hs) _ _ Hi) as Hp. simpl in Hp.
    destruct (release_execute pc fate (sy_cell s)) as [[c pc']|] eqn:He; [|discriminate]. intros [= <-].
    destruct (release_execute_ok _ pc fate c pc' Hc Hp He) as (Hg & Hc' & Hpc & Hr). split; [|exact Hr].
    pose proof (consistent_cell s c Hs Hg Hc') as Hs'. apply consistent_cleanups; [exact Hs'|].
    apply Forall_insert; [apply (co_cleanups _ Hs')|exact Hpc].
Qed.
Lemma step_task_ok s who s' : consistent s -> step_answer volume who s = Some s' \/ step_timer volume who s = Some s' ->
  consistent s' /\ sy_cell s' = sy_cell s.
Proof.
  intros Hs. pose proof (co_primary _ Hs) as Hh. destruct who as [| |i]; simpl.
  - pose proof (co_publish _ Hs) as Hp. destruct (sy_publication s) as [[g pc]|]; [|intros [|]; discriminate].
    intros [H|H]; (apply (publish_goes_ok s g _ s' Hs) in H; [exact H|]); intros r Hr;
      [now apply (publish_answer_ok _ g pc (sy_primary s))|now apply (publish_timer_ok _ g pc (sy_primary s))].
  - pose proof (co_replicate _ Hs) as Hp. destruct (sy_replication s) as [[run pc]|]; [|intros [|]; discriminate].
    destruct Hp as [Hi Hp]. intros [H|H]; (apply (replicate_goes_ok s run _ s' Hs Hi) in H; [exact H|]); intros seg Hseg;
      [now apply (replicate_answer_ok _ run pc (sy_primary s))|now apply (replicate_timer_ok _ run pc (sy_primary s))].
  - intros [H|]; [|discriminate]. destruct (sy_cleanups s !! i) as [[[g x] pc]|] eqn:Hi; [|discriminate].
    pose proof (proj1 (Forall_lookup _ _) (co_cleanups _ Hs) _ _ Hi) as Hp. simpl in Hp.
    destruct (release_answer volume g x pc (sy_primary s)) as [[h pc']|] eqn:Ha; [|discriminate]. injection H as <-.
    destruct (release_answer_ok _ _ _ _ _ _ Hh Hp Ha) as [Hh' Hpc]. split; [|reflexivity].
    apply consistent_cleanups; [now apply consistent_primary|]. apply Forall_insert; [apply Hs|exact Hpc].
Qed.
Lemma system_step s e s' : consistent s -> event_ok e -> step volume e s = Some s' ->
  consistent s' /\ (takes_over e = false -> replaced (sy_cell s) (sy_cell s')).
Proof using CL Hvolume Hhost Hfence.
  intros Hs He H. pose proof (co_primary _ Hs) as Hh.
  assert (consistent s' /\ sy_cell s' = sy_cell s -> consistent s' /\ (takes_over e = false -> replaced (sy_cell s) (sy_cell s')))
    as Hsame by (intros [? ?]; split; [assumption|now left]).
  destruct e; cbn [step] in H.
  - apply Hsame. destruct (sy_publication s); [discriminate|]. destruct (publish volume (sy_primary s)) as [[g r]|] eqn:Hp; [|discriminate].
    apply (publish_goes_ok s g (Some r) s' Hs); [|exact H]. intros r' [= <-]. now apply (publish_start_ok _ (sy_primary s) g).
  - apply Hsame. destruct (sy_publication s) as [[g []]|]; try discriminate.
    apply (publish_goes_ok s g _ s' Hs) in H; [exact H|]. intros r [= <-]. now apply publish_prepared_ok.
  - apply Hsame. destruct (sy_replication s); [discriminate|]. unfold replicate in H.
    pose proof (po_volume _ _ Hh) as Vo. destruct (pr_volume (sy_primary s)) as [v|]; [|discriminate]. simpl in Vo.
    pose proof (vo_record _ _ Vo) as Hr. destruct (vs_best_record v) as [record|] eqn:Eb, (vs_stash_assignment v); try discriminate.
    destruct (_ || _) in H; [discriminate|]. injection H as <-. split; [|reflexivity].
    apply consistent_replicating; [apply consistent_primary; [exact Hs|apply primary_with; [exact Hh|]]|now split].
    apply set_work_ok; [exact Vo|]. rewrite Eb. exact Hr.
  - apply Hsame. pose proof (co_replicate _ Hs) as Hp. destruct (sy_replication s) as [[run pc]|]; [|discriminate].
    destruct Hp as [Hi _]. apply (replicate_goes_ok s run _ s' Hs Hi) in H; [exact H|]. intros seg Hseg.
    now apply (replicate_peer_ok _ run pc answer (sy_primary s)).
  - apply Hsame. assert (primary_ok (sy_cell s) (release_acknowledged peer assignment_epoch through (sy_primary s)).1) as Hh'.
    { unfold release_acknowledged. destruct (list_find _ _) as [[i x]|]; [|exact Hh]. now apply (primary_same _ (sy_primary s)). }
    destruct (release_acknowledged _ _ _ _) as [h [[g x]|]]; injection H as <-; (split; [|reflexivity]).
    + apply consistent_cleanups; [now apply consistent_primary|]. apply Forall_app. split; [apply Hs|].
      constructor; [|constructor]. now apply remove_loop_ok.
    + now apply consistent_primary.
  - destruct (step_store_ok s who fate s' Hs H). now split.
  - apply Hsame. apply (step_task_ok s who s' Hs). now left.
  - apply Hsame. apply (step_task_ok s who s' Hs). now right.
  - apply Hsame. apply (edit_ok s _ s' Hs) in H; [exact H|]. intros v Hv. now apply set_work_ok.
  - apply Hsame. apply (edit_ok s _ s' Hs) in H; [exact H|]. intros v Hv. now apply set_commits_ok.
  - apply Hsame. injection H as <-. split; [|reflexivity]. apply consistent_primary; [exact Hs|]. now apply (primary_same _ (sy_primary s)).
  - apply Hsame. apply (edit_ok s _ s' Hs) in H; [exact H|]. intros v Hv. apply set_work_ok; [exact Hv|apply Hv].
  - apply Hsame. injection H as <-. split; [|reflexivity]. apply consistent_primary; [exact Hs|now apply primary_with].
  - split; [|discriminate]. destruct He as (Hvol & Hok & Hne).
    destruct (Z.leb_spec version (cell_version (sy_cell s))) as [|Hver]; [discriminate|]. simpl in H.
    destruct (_ =? _) in H; [discriminate|].
    destruct (format_writes (ExactFormat := HeadRecord_format volume Hvolume) head (conj Hvol Hok)) as (bs & Hen & _ & Hd).
    rewrite Hen in H. injection H as <-. apply consistent_cell; [exact Hs|now right|].
    exists version, bs. split; [reflexivity|]. intros h' Hd' Hho. rewrite Hd in Hd'. injection Hd' as <-. now destruct Hne.
Qed.
Lemma system_run events : forall s s', consistent s -> Forall event_ok events -> run volume events s = Some s' -> consistent s'.
Proof using CL Hvolume Hhost Hfence.
  induction events as [|e events IH]; intros s s' Hs He H; simpl in H; [now injection H as <-|].
  destruct (step volume e s) as [s1|] eqn:H1; [|discriminate]. inversion_clear He.
  apply (IH s1); auto. now apply (system_step s e).
Qed.
(** Nobody but another host takes the head away from another host. *)
Lemma lost_head_stays events : forall s s', consistent s -> Forall event_ok events ->
  Forall (fun e => takes_over e = false) events -> ~ holds_ours (sy_cell s) -> run volume events s = Some s' ->
  sy_cell s' = sy_cell s.
Proof using CL Hvolume Hhost Hfence.
  induction events as [|e events IH]; intros s s' Hs He Ht Hn H; simpl in H; [now injection H as <-|].
  destruct (step volume e s) as [s1|] eqn:H1; [|discriminate]. inversion_clear He. inversion_clear Ht.
  destruct (system_step s e s1 Hs) as [Hs1 Hr]; auto. destruct Hr as [Hr|[Hr _]]; [assumption| |easy].
  rewrite (IH s1 s'); auto. now rewrite Hr.
Qed.

(** The heads that tasks ask the store to write. *)
Inductive pending (s : System) : HeadRecord -> Prop :=
| Pending_publication g snapshot pointer expected head :
    sy_publication s = Some (g, Publish_put snapshot pointer expected head Requested) -> pending s head
| Pending_transition run a r expected head current retired :
    sy_replication s = Some (run, Replicate_transition a r (Cas_put expected head current retired Requested)) ->
    pending s head
| Pending_activation run a r expected head current retired :
    sy_replication s = Some (run, Replicate_activate a r (Cas_put expected head current retired Requested)) ->
    pending s head
| Pending_cleanup g x expected head :
    In (g, x, Release_put expected head Requested) (sy_cleanups s) -> pending s head.
Lemma pending_ours s head : consistent s -> pending s head -> ours head.
Proof.
  intros [_ _ H3 H4 H5] [g sn p e h E|run a r e h cur curR E|run a r e h cur curR E|g x e h E].
  - rewrite E in H3. apply H3.
  - rewrite E in H4. apply H4.
  - rewrite E in H4. apply H4.
  - rewrite List.Forall_forall in H5. apply (H5 _ E).
Qed.

(** C6. A host only ever replaces its own heads. Let any number of its tasks
    write the head of a volume (a publication, a replication that moves the
    stash, cleanups of retired stashes), let the store delay, lose and refuse
    requests and answers, and let other hosts take the head over at any
    moment. Every head a task asks to write encodes, decodes to the same
    record and names this host and its fence; a step that is not a takeover
    leaves the head alone or replaces a head of this host and fence by a newer
    one of the same; and from the moment another host holds the head, nothing
    this host does changes it, however late its requests arrive. *)
Theorem head_writes_fenced s events s' :
  consistent s -> Forall event_ok events -> run volume events s = Some s' ->
  (forall head, pending s' head -> head_holder head = host /\ head_fence head = fence
     /\ exists bs, HeadRecord_encode (E := DecodeError) head = Ok bs /\ HeadRecord_decode volume bs = Ok head)
  /\ (forall e s'', event_ok e -> takes_over e = false -> step volume e s' = Some s'' ->
        replaced (sy_cell s') (sy_cell s''))
  /\ (forall events' s'', Forall event_ok events' -> Forall (fun e => takes_over e = false) events' ->
        ~ holds_ours (sy_cell s') -> run volume events' s' = Some s'' -> sy_cell s'' = sy_cell s').
Proof using CL Hvolume Hhost Hfence.
  intros Hs He H. pose proof (system_run events s s' Hs He H) as Hs'. split; [|split].
  - intros head Hp%pending_ours; [|exact Hs']. split; [apply Hp|]. split; [apply Hp|].
    destruct (ours_encodes head Hp) as (bs & Hen & Hd). eauto.
  - intros e s'' Hev Ht Hst. now apply (system_step s' e s'' Hs' Hev Hst).
  - intros events' s'' Hev Ht Hn Hrun. now apply (lost_head_stays events' s' s'').
Qed.

(** ** Acknowledged syncs *)
Definition mine (c : cell) (head : HeadRecord) : Prop := exists n bs,
  c = Some (n, bs) /\ HeadRecord_decode volume bs = Ok head /\ head_holder head = host /\ head_fence head = fence.
Definition vouches (head : HeadRecord) (peer epoch : Z) : Prop :=
  exists a, head_stash head = Some a /\ In (peer, epoch) (named_assignments head a).
Definition acked (c : cell) (run : ReplicationRun) : Prop :=
  forall head, mine c head -> vouches head (rn_target run) (rn_assignment_epoch run).

(** The volume remembers the head as it is. *)
Definition written (c : cell) (head : HeadRecord) : Prop :=
  exists n bs, c = Some (n, bs) /\ HeadRecord_decode volume bs = Ok head.
Definition in_step (c : cell) (v : VolumeState) : Prop := exists n bs h,
  c = Some (n, bs) /\ HeadRecord_decode volume bs = Ok h /\ vs_head_version v = Some n
  /\ vs_stash_assignment v = head_stash h /\ vs_retired_stashes v = head_retired_stashes h.
(** The replication works for the assignment it started with. *)
Definition assigned (run : ReplicationRun) (v : VolumeState) : Prop := exists stash,
  vs_stash_assignment v = Some stash /\ rn_target run = default (sa_active_peer stash) (sa_transition_peer stash)
  /\ rn_assignment_epoch run = sa_assignment_epoch stash.
Definition proposes (a : StashAssignment) (r : list RetiredStash) (head : HeadRecord) (v : VolumeState)
    (current : option StashAssignment) (current_retired : list RetiredStash) : Prop :=
  head_stash head = Some a /\ head_retired_stashes head = r /\ current = vs_stash_assignment v
  /\ current_retired = vs_retired_stashes v.
Definition cas_tracked (c : cell) (v : VolumeState) (a : StashAssignment) (r : list RetiredStash) (pc : CasPc) : Prop :=
  match pc with
  | Cas_put expected head current retired w => proposes a r head v current retired
      /\ match w with
         | Requested => in_step c v /\ vs_head_version v = Some expected
         | Answered (Put_Ok n) => exists bs, c = Some (n, bs) /\ HeadRecord_decode volume bs = Ok head
         | Answered Put_TooLarge => False
         | Answered _ => in_step c v \/ written c head
         end
  | Cas_get head current retired w => proposes a r head v current retired
      /\ (in_step c v \/ written c head)
      /\ match w with
         | Answered (Get_Found n bs) => c = Some (n, bs)
         | Answered Get_Unavailable | Requested => True
         | Answered _ => False
         end
  | Cas_delay => in_step c v
  | Cas_return adopted => in_step c v /\ (adopted = true -> vs_stash_assignment v = Some a)
  end.
Definition tracked (c : cell) (h : Primary) (t : option (ReplicationRun * ReplicatePc)) : Prop :=
  forall v, pr_volume h = Some v ->
  match t with
  | None => in_step c v
  | Some (run, pc) => vs_run_generation v = rn_run_generation run /\
      match pc with
      | Replicate_transition a r cas => cas_tracked c v a r cas
      | Replicate_activate a r cas => cas_tracked c v a r cas
      | _ => in_step c v /\ assigned run v
      end
  end.
Definition next_task (run : ReplicationRun) (pc : ReplicatePc) : option (ReplicationRun * ReplicatePc) :=
  match pc with Replicate_end => None | _ => Some (run, pc) end.
(** An activation makes the replication's target the active peer. *)
Definition aims (t : option (ReplicationRun * ReplicatePc)) : Prop :=
  match t with
  | Some (run, Replicate_activate a _ _) =>
      sa_active_peer a = rn_target run /\ sa_active_assignment_epoch a = rn_assignment_epoch run
  | _ => True
  end.
Definition lawful (c : cell) (run : ReplicationRun) (seg : Segment) : Prop :=
  tracked c seg.1.1 (next_task run seg.2) /\ aims (next_task run seg.2) /\ (seg.1.2 <> None -> acked c run).

Lemma in_step_same c v v' : vs_head_version v' = vs_head_version v ->
  vs_stash_assignment v' = vs_stash_assignment v -> vs_retired_stashes v' = vs_retired_stashes v ->
  in_step c v -> in_step c v'.
Proof. intros E1 E2 E3 (n & bs & h & H1 & H2 & H3 & H4 & H5). exists n, bs, h. rewrite E1, E2, E3. auto. Qed.
Lemma tracked_update c g f h : (forall v, in_step c v -> in_step c (f v)) ->
  tracked c h None -> tracked c (volume_update g f h) None.
Proof.
  intros Hf Ht. unfold volume_update. destruct (volume_at h g) as [v|] eqn:Hv; [|exact Ht].
  intros v' [= <-]. apply Hf, Ht. now apply volume_at_Some in Hv.
Qed.
Lemma finish_tracked c run h : tracked c h None -> tracked c (finish_replication run h) None.
Proof. apply tracked_update. intros v. now apply in_step_same. Qed.
Lemma abort_lawful c run h : tracked c h None -> lawful c run (replicate_abort run h).
Proof. intros Ht. split; [now apply finish_tracked|easy]. Qed.
Lemma finish_lawful c run h : tracked c h None -> (pr_volume h <> None -> acked c run) -> lawful c run (replicate_finish run h).
Proof.
  intros Ht Ha. unfold replicate_finish.
  assert (tracked c (finish_primary_commit (rn_run_generation run) (JournalRecord_commit_info (rn_record run))
                       (rn_record run) h).1 None) as Ht'.
  { unfold finish_primary_commit. destruct (volume_at h _) as [v|] eqn:Hv; [|exact Ht]. apply volume_at_Some in Hv as [Hv _].
    destruct (negb (pr_authorized h)); simpl; intros v' [= <-]; apply (in_step_same c v), Ht; auto. }
  assert (acknowledges run h <> None -> acked c run) as Hk.
  { unfold acknowledges. destruct (volume_at h _) as [v|] eqn:Hv; [|easy]. apply volume_at_Some in Hv as [Hv _].
    intros _. apply Ha. now rewrite Hv. }
  destruct (finish_primary_commit _ _ _ _) as [h' done]. split; [now apply finish_tracked|]. split; [exact I|exact Hk].
Qed.

Lemma written_mine c head : mine c head -> written c head.
Proof. intros (n & bs & H1 & H2 & _). now exists n, bs. Qed.
Lemma written_unique c head head' : written c head -> written c head' -> head = head'.
Proof. intros (n & bs & -> & H1) (n' & bs' & [= <- <-] & H2). congruence. Qed.
Lemma in_step_written c v : in_step c v -> exists h, written c h
  /\ vs_stash_assignment v = head_stash h /\ vs_retired_stashes v = head_retired_stashes h.
Proof. intros (n & bs & h & H1 & H2 & _ & H4 & H5). exists h. split; [now exists n, bs|auto]. Qed.
Lemma assigned_acked c v run : in_step c v -> option_ok StashAssignment_ok (vs_stash_assignment v) -> assigned run v ->
  acked c run.
Proof.
  unfold acked. intros (h & Hw & Hst & _)%in_step_written Hok (stash & Hs & -> & ->) head Hm%written_mine.
  rewrite (written_unique c head h Hm Hw). rewrite Hs in Hok, Hst. exists stash. split; [now symmetry|].
  unfold named_assignments. destruct Hok as (_ & _ & _ & _ & _ & _ & Hact).
  destruct (sa_transition_peer stash) as [p|] eqn:Et; simpl; [right; now left|]. left. now rewrite Hact.
Qed.
Lemma activated_acked c v a run : in_step c v -> vs_stash_assignment v = Some a -> sa_active_peer a = rn_target run ->
  sa_active_assignment_epoch a = rn_assignment_epoch run -> acked c run.
Proof.
  unfold acked. intros (h & Hw & Hst & _)%in_step_written Ha <- <- head Hm%written_mine.
  rewrite (written_unique c head h Hm Hw). exists a. split; [congruence|]. now left.
Qed.

Lemma cas_loop_tracked c h v g a r : pr_volume h = Some v -> vs_run_generation v = g -> in_step c v ->
  cas_tracked c v a r (cas_assignment_loop volume g a r h).
Proof.
  intros Hv <- Hin. unfold cas_assignment_loop, volume_at. rewrite Hv, Z.eqb_refl.
  pose proof Hin as (n & bs & hd & _ & _ & Hver & _). rewrite Hver. simpl. unfold proposes. auto 10.
Qed.
Lemma transition_returns_lawful c run a r pc h :
  (forall v, pr_volume h = Some v -> vs_run_generation v = rn_run_generation run /\ cas_tracked c v a r pc) ->
  lawful c run (transition_returns run a r pc h).
Proof.
  intros H. destruct pc as [| | |b]; try (split; [exact H|easy]).
  apply abort_lawful. intros v Hv. now apply H in Hv as (_ & Hin & _).
Qed.
Lemma activate_returns_lawful c run a r pc h :
  sa_active_peer a = rn_target run -> sa_active_assignment_epoch a = rn_assignment_epoch run ->
  (forall v, pr_volume h = Some v -> vs_run_generation v = rn_run_generation run /\ cas_tracked c v a r pc) ->
  lawful c run (activate_returns run a r pc h).
Proof.
  intros H1 H2 H.
  destruct pc as [| | |b]; try (split; [exact H|now split]).
  assert (tracked c h None) as Ht by (intros v Hv; now apply H in Hv as (_ & Hin & _)).
  destruct b; [|now apply abort_lawful]. apply finish_lawful; [exact Ht|]. destruct (pr_volume h) as [v|] eqn:Hv; [|easy].
  intros _. destruct (H v eq_refl) as (_ & Hin & Ha). apply (activated_acked c v a); auto.
Qed.
(** [tracked] for a replication that waits for its peer. *)
Definition waits (c : cell) (run : ReplicationRun) (h : Primary) : Prop :=
  forall v, pr_volume h = Some v -> vs_run_generation v = rn_run_generation run /\ in_step c v /\ assigned run v.
Lemma waits_tracked c run h : waits c run h -> tracked c h None.
Proof. intros Hw v Hv. now apply Hw in Hv as (_ & ? & _). Qed.
Lemma transition_lawful c run h : waits c run h -> lawful c run (transition_stash volume run h).
Proof.
  intros Hw. pose proof (waits_tracked c run h Hw) as Ht. unfold transition_stash.
  destruct (transition_proposal _ _ _); [|now apply abort_lawful]. apply transition_returns_lawful.
  intros v Hv. destruct (Hw v Hv) as (Hg & Hin & _). split; [exact Hg|]. now apply cas_loop_tracked.
Qed.
Lemma waits_acked c run h : primary_ok c h -> waits c run h -> pr_volume h <> None -> acked c run.
Proof.
  intros Hh Hw. pose proof (po_volume _ _ Hh) as Vo. destruct (pr_volume h) as [v|] eqn:Hv; [|easy]. intros _.
  destruct (Hw v Hv) as (_ & Hin & Ha). apply (assigned_acked c v); auto. apply (ro_stash _ _ (vo_stash _ _ Vo)).
Qed.
Lemma activation_inv g target epoch info h a r : activation g target epoch info h = Some (a, r) ->
  sa_active_peer a = target /\ sa_active_assignment_epoch a = epoch.
Proof.
  unfold activation. destruct (volume_at h g) as [v|]; [|discriminate]. destruct (vs_stash_assignment v); [|discriminate].
  destruct (_ || _); [discriminate|]. intros [= <- _]. now split.
Qed.
Lemma replicate_peer_lawful c run pc answer h seg : primary_ok c h -> tracked c h (Some (run, pc)) ->
  replicate_peer volume run pc answer h = Some seg -> lawful c run seg.
Proof.
  intros Hh Ht H.
  assert (waits c run h) as Hw by (intros v Hv; specialize (Ht v Hv); destruct pc, answer; try discriminate; exact Ht).
  pose proof (waits_tracked c run h Hw) as Hn. pose proof (waits_acked c run h Hh Hw) as Ha.
  pose proof (transition_lawful c run h Hw) as Htr. pose proof (finish_lawful c run h Hn Ha) as Hf.
  pose proof (abort_lawful c run h Hn) as Hab.
  destruct pc, answer as [st|ok|ok]; try discriminate; injection H as <-.
  - destruct st as [st|]; simpl; [|exact Htr]. destruct (match st with Some _ => _ | None => false end); [exact Hf|].
    destruct (replica_closure _ _ _ _); [|exact Hab]. split; [exact Hw|easy].
  - destruct ok; [|exact Htr]. split; [exact Hw|easy].
  - destruct ok; [|exact Htr]. unfold replicate_committed. destruct (transitioning run h); [|exact Hf].
    destruct (activation _ _ _ _ _) as [[a r]|] eqn:Hac; [|exact Hab]. apply activation_inv in Hac as [H1 H2].
    apply activate_returns_lawful; auto. intros v Hv. destruct (Hw v Hv) as (Hg & Hin & _). split; [exact Hg|].
    now apply cas_loop_tracked.
Qed.

Lemma adopt_tracked c g n bs head a r h v h' pc : pr_volume h = Some v -> vs_run_generation v = g ->
  c = Some (n, bs) -> HeadRecord_decode volume bs = Ok head -> head_stash head = Some a ->
  head_retired_stashes head = r -> adopt g n a r h = (h', pc) ->
  forall v', pr_volume h' = Some v' -> vs_run_generation v' = g /\ cas_tracked c v' a r pc.
Proof.
  intros Hv <- Hc Hd Ha Hr. unfold adopt, volume_at. rewrite Hv, Z.eqb_refl. intros [= <- <-] v' [= <-].
  unfold adopt_assignment. split; [now case_bool_decide|]. split; [|intros _; now case_bool_decide].
  exists n, bs, head. split; [exact Hc|]. split; [exact Hd|]. rewrite Ha, Hr. now case_bool_decide.
Qed.
Lemma cas_answer_tracked c g a r pc h h' pc' v : primary_ok c h -> (exists head, mine c head) ->
  pr_volume h = Some v -> vs_run_generation v = g -> cas_tracked c v a r pc ->
  cas_answer volume g a r pc h = Some (h', pc') ->
  forall v', pr_volume h' = Some v' -> vs_run_generation v' = g /\ cas_tracked c v' a r pc'.
Proof.
  intros Hh [mh Hm] Hv Hg Hpc. destruct pc as [e head cur curR w|head cur curR w| |]; simpl; try discriminate;
    (destruct w as [|ans]; [discriminate|]).
  - destruct Hpc as [Hp Hw]. pose proof Hp as (P1 & P2 & _). destruct ans as [n| | |]; simpl; try easy.
    + destruct Hw as (bs & Hc & Hd). intros [= H]. exact (adopt_tracked c g n bs head a r h v h' pc' Hv Hg Hc Hd P1 P2 H).
    + intros [= <- <-] v' Hv'. rewrite Hv in Hv'. injection Hv' as <-. split; [exact Hg|]. simpl. auto.
    + intros [= <- <-] v' Hv'. rewrite Hv in Hv'. injection Hv' as <-. split; [exact Hg|]. simpl. auto.
  - destruct Hpc as (Hp & Hi & Hw). pose proof Hp as (P1 & P2 & P3 & P4). destruct ans as [n bs| | |]; simpl; try easy.
    2:{ intros [= <- <-] v' Hv'. rewrite Hv in Hv'. injection Hv' as <-. split; [exact Hg|]. simpl. auto. }
    destruct Hm as (n' & bs' & Hc' & Hd & M1 & M2). rewrite Hw in Hc'. injection Hc' as <- <-. rewrite Hd.
    unfold volume_at. rewrite Hv, Hg, Z.eqb_refl. pose proof (po_volume _ _ Hh) as Vo. rewrite Hv in Vo.
    rewrite (po_host _ _ Hh), (vo_fence _ _ Vo), M1, M2, !Z.eqb_refl. simpl.
    case_bool_decide as Eh; [subst mh; intros [= H]; exact (adopt_tracked c g n bs head a r h v h' pc' Hv Hg Hw Hd P1 P2 H)|].
    destruct Hi as [Hi|Hi]; [|destruct Eh; apply (written_unique c); [now exists n, bs|exact Hi]].
    destruct (in_step_written c v Hi) as (h0 & Hw0 & S1 & S2).
    assert (h0 = mh) as -> by (apply (written_unique c); [exact Hw0|now exists n, bs]).
    rewrite P3, P4, S1, S2, !bool_decide_eq_true_2 by reflexivity. simpl. intros [= <- <-] v' [= <-].
    split; [exact Hg|]. exists n, bs, mh. simpl. auto 10.
Qed.
Lemma replicate_answer_lawful c run pc h seg : primary_ok c h -> (exists head, mine c head) -> tracked c h (Some (run, pc)) ->
  aims (Some (run, pc)) ->
  replicate_answer volume run pc h = Some seg \/ replicate_timer volume run pc h = Some seg -> lawful c run seg.
Proof.
  intros Hh Hm Ht Ha0.
  assert (forall a r cas, (forall v, pr_volume h = Some v -> vs_run_generation v = rn_run_generation run /\ cas_tracked c v a r cas) ->
    forall h' cas', cas_answer volume (rn_run_generation run) a r cas h = Some (h', cas') ->
    forall v', pr_volume h' = Some v' -> vs_run_generation v' = rn_run_generation run /\ cas_tracked c v' a r cas') as Hcas.
  { intros a r cas Hc h' cas' Ha v' Hv'. destruct (pr_volume h) as [v|] eqn:Hv.
    - destruct (Hc v eq_refl) as [Hg Hcv]. exact (cas_answer_tracked c _ a r cas h h' cas' v Hh Hm Hv Hg Hcv Ha v' Hv').
    - exfalso. revert Ha. destruct cas as [e head cur curR []|head cur curR []| |]; simpl; try discriminate;
        unfold cas_assignment_put, cas_assignment_get, adopt, volume_at; rewrite ?Hv; intros [= Ha];
        repeat case_match; congruence. }
  destruct pc as [| | |a r cas|a r cas|]; simpl; try (intros [|]; discriminate).
  - assert (forall v, pr_volume h = Some v -> vs_run_generation v = rn_run_generation run /\ cas_tracked c v a r cas) as Hc by exact Ht.
    intros [H|H].
    + destruct (cas_answer _ _ _ _ _ _) as [[h' cas']|] eqn:Ha; [|discriminate]. injection H as <-.
      apply transition_returns_lawful. exact (Hcas a r cas Hc h' cas' Ha).
    + destruct cas; try discriminate. injection H as <-. apply transition_returns_lawful. intros v Hv.
      destruct (Hc v Hv) as [Hg Hin]. split; [exact Hg|now apply cas_loop_tracked].
  - assert (forall v, pr_volume h = Some v -> vs_run_generation v = rn_run_generation run /\ cas_tracked c v a r cas) as Hc
      by exact Ht.
    intros [H|H].
    + destruct (cas_answer _ _ _ _ _ _) as [[h' cas']|] eqn:Ha; [|discriminate]. injection H as <-.
      apply activate_returns_lawful; [apply Ha0..|]. exact (Hcas a r cas Hc h' cas' Ha).
    + destruct cas; try discriminate. injection H as <-. apply activate_returns_lawful; [apply Ha0..|]. intros v Hv.
      destruct (Hc v Hv) as [Hg Hin]. split; [exact Hg|now apply cas_loop_tracked].
Qed.

(** *** Executions in which the replication is the only writer *)
Definition replicates (e : Event) : bool :=
  match e with Ev_publish | Ev_release_ack _ _ _ | Ev_store _ Refused => false | _ => true end.
Record followed (s : System) : Prop := {
  fo_publication : sy_publication s = None;
  fo_cleanups : sy_cleanups s = [];
  fo_tracked : (exists head, mine (sy_cell s) head) ->
    tracked (sy_cell s) (sy_primary s) (sy_replication s) /\ aims (sy_replication s) }.

Definition same_view (v v' : VolumeState) : Prop :=
  vs_run_generation v' = vs_run_generation v /\ vs_head_version v' = vs_head_version v
  /\ vs_stash_assignment v' = vs_stash_assignment v /\ vs_retired_stashes v' = vs_retired_stashes v.
Lemma same_view_in_step c v v' : same_view v v' -> in_step c v -> in_step c v'.
Proof. intros (_ & E1 & E2 & E3). now apply in_step_same. Qed.
Lemma tracked_same c h t v v' : pr_volume h = Some v -> same_view v v' -> tracked c h t ->
  tracked c (with_volume h (Some v')) t.
Proof.
  intros Hv Hs Ht w [= <-]. pose proof (same_view_in_step c v v' Hs) as Hin. specialize (Ht v Hv).
  destruct Hs as (E0 & E1 & E2 & E3). destruct t as [[run pc]|]; [|auto]. destruct Ht as [Hg Ht]. split; [congruence|].
  assert (forall a r cas, cas_tracked c v a r cas -> cas_tracked c v' a r cas) as Hcas.
  { intros a r cas. destruct cas as [e head cur curR w|head cur curR w| |]; simpl; unfold proposes; rewrite ?E1, ?E2, ?E3; auto.
    - destruct w as [|[]]; tauto.
    - tauto.
    - tauto. }
  unfold assigned in *. rewrite E2. destruct pc; auto; destruct Ht; auto.
Qed.
Lemma mine_ours c : cell_ok c -> (exists head, mine c head) <-> holds_ours c.
Proof.
  intros (v & bs & -> & Ht). split.
  - intros (h & n & b & [= <- <-] & Hd & H1 & H2). exists v, bs, h. auto.
  - intros (n & b & h & [= <- <-] & Hd & Ho). exists h, v, bs. destruct Ho. auto.
Qed.
Lemma cas_execute_tracked c v a r pc fate c' pc' : cas_ok c pc -> (exists head, mine c head) -> fate <> Refused ->
  cas_tracked c v a r pc -> cas_execute pc fate c = Some (c', pc') -> cas_tracked c' v a r pc'.
Proof using CL Hvolume Hhost Hfence.
  intros Hok [mh Hm] Hf Hpc. destruct pc as [e head cur curR []|head cur curR []| |]; simpl; try discriminate.
  - destruct Hpc as [Hp [Hin Hver]]. destruct Hok as (_ & Ho & _). pose proof Hin as (n & bs & h0 & Hc & _ & Hn & _).
    rewrite Hver in Hn. injection Hn as <-. destruct (ours_encodes head Ho) as (hb & Hen & Hd).
    assert (bool_decide (option_map fst c = Some e) = true) as Hmatch by (apply bool_decide_eq_true_2; now rewrite Hc).
    unfold execute_put. rewrite Hmatch, Hen. destruct fate as [|version|version|]; try easy.
    + intros [= <- <-]. split; [exact Hp|]. now left.
    + destruct (version <=? cell_version c); [discriminate|]. intros [= <- <-]. split; [exact Hp|]. right. now exists version, hb.
    + destruct (version <=? cell_version c); [discriminate|]. intros [= <- <-]. split; [exact Hp|]. now exists hb.
  - destruct Hpc as (Hp & Hi & _). destruct Hm as (n & bs & -> & _). intros [= <- <-]. split; [exact Hp|]. split; [exact Hi|].
    now destruct fate.
Qed.

(** A sync that a step acknowledges is held by a peer that the head names. *)
Definition acks_named (s s' : System) : Prop := forall ack, sy_acks s' = sy_acks s ++ [ack] ->
  forall head, mine (sy_cell s') head -> vouches head (ak_peer ack) (ak_assignment_epoch ack).
Lemma no_ack s s' : sy_acks s' = sy_acks s -> acks_named s s'.
Proof. intros E ack Hack. rewrite E in Hack. apply (f_equal length) in Hack. rewrite length_app in Hack. simpl in Hack. lia. Qed.
Lemma followed_segment s run seg s' : followed s ->
  ((exists head, mine (sy_cell s) head) -> lawful (sy_cell s) run seg) ->
  replicate_goes run (Some seg) s = Some s' ->
  followed s' /\ acks_named s s'.
Proof.
  intros [F1 F2 _] Hl. destruct seg as [[h acknowledged] pc]. intros H.
  assert (sy_cell s' = sy_cell s /\ sy_primary s' = h /\ sy_publication s' = None /\ sy_cleanups s' = []
    /\ sy_replication s' = next_task run pc) as (E1 & E2 & E3 & E4 & E5)
    by (destruct acknowledged, pc; injection H as <-; simpl; auto).
  split; [split; rewrite ?E1, ?E2, ?E5; auto; intros Hm; now destruct (Hl Hm) as (? & ? & _)|].
  intros ack Hack head Hm. rewrite E1 in Hm. destruct (Hl (ex_intro _ head Hm)) as (_ & _ & Hacked).
  destruct acknowledged as [info|].
  - assert (ack = {| ak_peer := rn_target run; ak_assignment_epoch := rn_assignment_epoch run; ak_info := info |}) as ->.
    { destruct pc; injection H as <-; simpl in Hack; apply app_inv_head in Hack; now injection Hack as <-. }
    simpl. apply Hacked; [discriminate|exact Hm].
  - assert (sy_acks s' = sy_acks s) as Hs by (destruct pc; injection H as <-; reflexivity).
    apply (no_ack s s' Hs ack Hack head). now rewrite E1.
Qed.
(** The volume changed, but not what it remembers of the head. *)
Lemma followed_same s s' : followed s -> sy_cell s' = sy_cell s -> sy_publication s' = None -> sy_cleanups s' = [] ->
  sy_replication s' = sy_replication s -> sy_acks s' = sy_acks s ->
  (tracked (sy_cell s) (sy_primary s) (sy_replication s) -> tracked (sy_cell s) (sy_primary s') (sy_replication s)) ->
  followed s' /\ acks_named s s'.
Proof.
  intros [F1 F2 F3] E1 E2 E3 E4 E5 Ht.
  split; [split; rewrite ?E1, ?E4; auto; intros Hm; destruct (F3 Hm); auto|now apply no_ack].
Qed.
Lemma followed_edit s f s' : followed s -> (forall v, same_view v (f v)) -> edit_volume f s = Some s' ->
  followed s' /\ acks_named s s'.
Proof.
  intros Hs Hf. unfold edit_volume. destruct (pr_volume (sy_primary s)) as [v|] eqn:Hv; [|discriminate]. intros [= <-].
  apply (followed_same s _ Hs); try reflexivity; [apply Hs..|]. now apply (tracked_same _ _ _ v).
Qed.

Lemma task_followed s who s' : consistent s -> followed s ->
  step_answer volume who s = Some s' \/ step_timer volume who s = Some s' -> followed s' /\ acks_named s s'.
Proof.
  intros Hs Hf Ht. pose proof Hf as [F1 F2 F3].
  destruct who as [| |i]; simpl in Ht; rewrite ?F1, ?F2 in Ht; [now destruct Ht| |now destruct Ht].
  destruct (sy_replication s) as [[run pc]|] eqn:Et; [|now destruct Ht].
  assert (exists seg, (replicate_answer volume run pc (sy_primary s) = Some seg
      \/ replicate_timer volume run pc (sy_primary s) = Some seg) /\ replicate_goes run (Some seg) s = Some s')
    as (seg & Hseg & Hgo).
  { destruct Ht as [Ht|Ht]; [destruct (replicate_answer volume run pc (sy_primary s)) as [seg|]|
      destruct (replicate_timer volume run pc (sy_primary s)) as [seg|]]; try discriminate; exists seg; auto. }
  apply (followed_segment s run seg s' Hf); [|exact Hgo]. intros Hm. destruct (F3 Hm).
  apply (replicate_answer_lawful _ run pc (sy_primary s)); auto. apply Hs.
Qed.
Lemma start_followed s s' : followed s -> step volume Ev_replicate s = Some s' -> followed s' /\ acks_named s s'.
Proof.
  intros [F1 F2 F3] H. cbn [step] in H. destruct (sy_replication s) eqn:Et; [discriminate|]. unfold replicate in H.
  destruct (pr_volume (sy_primary s)) as [v|] eqn:Hv; [|discriminate].
  destruct (vs_best_record v) as [record|], (vs_stash_assignment v) as [stash|] eqn:Est; try discriminate.
  destruct (_ || _) in H; [discriminate|]. injection H as <-. split; [|now apply no_ack].
  split; [exact F1|exact F2|]. simpl. intros Hm. split; [|exact I]. destruct (F3 Hm) as [Ht _].
  intros w [= <-]. split; [reflexivity|]. split; [apply (in_step_same _ v), Ht; auto|]. exists stash. auto.
Qed.
Lemma store_followed s who fate s' : consistent s -> followed s -> fate <> Refused ->
  step_store who fate s = Some s' -> followed s' /\ acks_named s s'.
Proof using CL Hvolume Hhost Hfence.
  intros Hs [F1 F2 F3] Hfate H. destruct (step_store_ok s who fate s' Hs H) as [_ Hrep].
  destruct who as [| |i]; simpl in H; rewrite ?F1, ?F2 in H; try discriminate.
  pose proof (co_replicate _ Hs) as Hro. destruct (sy_replication s) as [[run pc]|] eqn:Et; [|discriminate]. destruct Hro as [_ Hro].
  destruct (replicate_execute pc fate (sy_cell s)) as [[c pc']|] eqn:Hex; [|discriminate]. injection H as <-.
  split; [|now apply no_ack]. split; [exact F1|exact F2|]. simpl in *. intros Hm.
  assert (exists head, mine (sy_cell s) head) as Hm0.
  { destruct Hrep as [Hc|[Hc _]]; [now rewrite Hc in Hm|]. now apply mine_ours; [apply Hs|]. }
  destruct (F3 Hm0) as [Ht Ha].
  destruct pc as [| | |a r cas|a r cas|]; simpl in Hex; try discriminate;
    (destruct (cas_execute cas fate (sy_cell s)) as [[c1 cas1]|] eqn:Hc; [|discriminate]); injection Hex as <- <-;
    (split; [|exact Ha]); intros v Hv; destruct (Ht v Hv) as [Hg Hcas]; (split; [exact Hg|]);
    exact (cas_execute_tracked _ v a r cas fate c1 cas1 (proj2 Hro) Hm0 Hfate Hcas Hc).
Qed.
Lemma takeover_followed s version head s' : followed s -> event_ok (Ev_takeover version head) ->
  step volume (Ev_takeover version head) s = Some s' -> followed s' /\ acks_named s s'.
Proof using CL Hvolume.
  intros [F1 F2 _] (Hvol & Hok & Hne) H. cbn [step] in H. destruct (_ || _) in H; [discriminate|].
  destruct (format_writes (ExactFormat := HeadRecord_format volume Hvolume) head (conj Hvol Hok)) as (bs & Hen & _ & Hd).
  rewrite Hen in H. injection H as <-. split; [|now apply no_ack]. split; auto. simpl.
  intros (h & n & b & [= <- <-] & Hd' & Ho & _). rewrite Hd in Hd'. now injection Hd' as <-.
Qed.
Lemma step_followed s e s' : consistent s -> followed s -> event_ok e -> replicates e = true -> step volume e s = Some s' ->
  followed s' /\ acks_named s s'.
Proof using CL Hvolume Hhost Hfence.
  intros Hs Hf He Hr H. pose proof Hf as [F1 F2 F3].
  destruct e; try discriminate.
  - cbn [step] in H. now rewrite F1 in H.
  - now apply start_followed.
  - cbn [step] in H. destruct (sy_replication s) as [[run pc]|] eqn:Et; [|discriminate].
    destruct (replicate_peer volume run pc answer (sy_primary s)) as [seg|] eqn:Hp; [|discriminate].
    apply (followed_segment s run seg s' Hf); [|exact H]. intros Hm. destruct (F3 Hm).
    apply (replicate_peer_lawful _ run pc answer (sy_primary s)); auto. apply Hs.
  - apply (store_followed s who fate); auto. intros ->. discriminate.
  - apply (task_followed s who); auto.
  - apply (task_followed s who); auto.
  - now apply (followed_edit _ _ _ Hf) in H.
  - now apply (followed_edit _ _ _ Hf) in H.
  - cbn [step] in H. injection H as <-. apply (followed_same s _ Hf); auto.
  - now apply (followed_edit _ _ _ Hf) in H.
  - cbn [step] in H. injection H as <-. apply (followed_same s _ Hf); auto. intros _ v [=].
  - now apply (takeover_followed s version head).
Qed.
Lemma run_followed events : forall s s', consistent s -> followed s -> Forall event_ok events ->
  Forall (fun e => replicates e = true) events -> run volume events s = Some s' -> consistent s' /\ followed s'.
Proof using CL Hvolume Hhost Hfence.
  induction events as [|e events IH]; intros s s' Hs Hf He Hr H; simpl in H; [injection H as <-; auto|].
  destruct (step volume e s) as [s1|] eqn:H1; [|discriminate]. inversion_clear He. inversion_clear Hr.
  destruct (step_followed s e s1) as [Hf1 _]; auto. apply (IH s1); auto. now apply (system_step s e).
Qed.

(** *** The peer's own word *)
(** The answer says that the peer holds the commit of the replication. *)
Definition confirms (run : ReplicationRun) (pc : ReplicatePc) (answer : PeerAnswer) : bool :=
  match pc, answer with
  | Replicate_status, Peer_status (Some (Some committed)) => cmp_leb (JournalRecord_commit_info (rn_record run)) committed
  | Replicate_commit _, Peer_committed ok => ok
  | _, _ => false
  end.
Definition ack_of (run : ReplicationRun) : Ack :=
  {| ak_peer := rn_target run; ak_assignment_epoch := rn_assignment_epoch run;
     ak_info := JournalRecord_commit_info (rn_record run) |}.
(** Among [events] from [s], the peer that the replication had asked, for the
    assignment and the commit of [ack], answered that it holds the commit. *)
Definition confirmed (s : System) (events : list Event) (ack : Ack) : Prop :=
  exists before answer after s0 run0 pc0, events = before ++ Ev_peer answer :: after
    /\ run volume before s = Some s0 /\ sy_replication s0 = Some (run0, pc0)
    /\ confirms run0 pc0 answer = true /\ ack = ack_of run0.
Definition activates (pc : ReplicatePc) : bool := match pc with Replicate_activate _ _ _ => true | _ => false end.
(** A segment that acknowledges, or starts to activate, has the peer's word. *)
Definition earned (word : bool) (run : ReplicationRun) (seg : Segment) : Prop :=
  (forall info, seg.1.2 = Some info -> word = true /\ info = JournalRecord_commit_info (rn_record run))
  /\ (activates seg.2 = true -> word = true).
Lemma finish_earned run h : earned true run (replicate_finish run h).
Proof.
  unfold replicate_finish, acknowledges. destruct (finish_primary_commit _ _ _ _). split; [|easy]. simpl. intros info.
  destruct (volume_at h _); [|discriminate]. destruct (pr_authorized h); [|discriminate]. now intros [= <-].
Qed.
Lemma abort_earned word run h : earned word run (replicate_abort run h).
Proof. now split. Qed.
Lemma transition_returns_earned word run a r pc h : earned word run (transition_returns run a r pc h).
Proof. destruct pc; now split. Qed.
Lemma transition_earned word run h : earned word run (transition_stash volume run h).
Proof. unfold transition_stash. destruct (transition_proposal _ _ _); [apply transition_returns_earned|now split]. Qed.
Lemma activate_returns_earned run a r pc h : earned true run (activate_returns run a r pc h).
Proof. destruct pc as [| | |[]]; try (now split); apply finish_earned. Qed.
Lemma replicate_peer_earned run pc answer h seg : replicate_peer volume run pc answer h = Some seg ->
  earned (confirms run pc answer) run seg.
Proof.
  intros H. destruct pc, answer as [st|ok|ok]; try discriminate; injection H as <-; simpl.
  - destruct st as [[c|]|]; simpl; [|destruct (replica_closure _ _ _ _); now split|apply transition_earned].
    destruct (cmp_leb _ c); [apply finish_earned|]. destruct (replica_closure _ _ _ _); now split.
  - destruct ok; [now split|apply transition_earned].
  - destruct ok; [|apply transition_earned]. unfold replicate_committed. destruct (transitioning run h); [|apply finish_earned].
    destruct (activation _ _ _ _ _) as [[a r]|]; [apply activate_returns_earned|apply abort_earned].
Qed.
Lemma replicate_answer_earned run pc h seg :
  replicate_answer volume run pc h = Some seg \/ replicate_timer volume run pc h = Some seg -> earned (activates pc) run seg.
Proof.
  intros [H|H]; destruct pc as [| | |a r cas|a r cas|]; try discriminate; simpl in H.
  - destruct (cas_answer _ _ _ _ _ _) as [[h' cas']|]; [|discriminate]. injection H as <-. apply transition_returns_earned.
  - destruct (cas_answer _ _ _ _ _ _) as [[h' cas']|]; [|discriminate]. injection H as <-. apply activate_returns_earned.
  - destruct cas; try discriminate. injection H as <-. apply transition_returns_earned.
  - destruct cas; try discriminate. injection H as <-. apply activate_returns_earned.
Qed.
(** What a step may rely on: the replication activates already, or the step is
    the peer's word. *)
Definition has_word (e : Event) (run : ReplicationRun) (pc : ReplicatePc) : bool :=
  activates pc || match e with Ev_peer answer => confirms run pc answer | _ => false end.
Definition word_kept (e : Event) (s s' : System) : Prop :=
  (forall run' pc', sy_replication s' = Some (run', pc') -> activates pc' = true ->
     exists pc, sy_replication s = Some (run', pc) /\ has_word e run' pc = true)
  /\ (forall ack, sy_acks s' = sy_acks s ++ [ack] ->
     exists run0 pc, sy_replication s = Some (run0, pc) /\ has_word e run0 pc = true /\ ack = ack_of run0).
Lemma word_same e s s' : sy_replication s' = sy_replication s -> sy_acks s' = sy_acks s -> word_kept e s s'.
Proof.
  intros Hr Ha. split.
  - intros run' pc' H Hact. rewrite Hr in H. exists pc'. split; [exact H|]. unfold has_word. now rewrite Hact.
  - intros ack H. rewrite Ha in H. apply (f_equal length) in H. rewrite length_app in H. simpl in H. lia.
Qed.
Lemma word_segment e s run0 pc word seg s' : sy_replication s = Some (run0, pc) -> earned word run0 seg ->
  (word = true -> has_word e run0 pc = true) -> replicate_goes run0 (Some seg) s = Some s' -> word_kept e s s'.
Proof.
  intros Hr [E1 E2] Hw H. destruct seg as [[h acknowledged] pc1]. simpl in *. split.
  - intros run' pc' Hn Hact. assert (run' = run0 /\ pc' = pc1) as [-> ->].
    { destruct acknowledged, pc1; injection H as <-; simpl in Hn; try discriminate; now injection Hn as <- <-. }
    exists pc. auto.
  - intros ack Hack. destruct acknowledged as [info|].
    + destruct (E1 info eq_refl) as [Hword ->]. exists run0, pc. split; [exact Hr|]. split; [auto|].
      destruct pc1; injection H as <-; simpl in Hack; apply app_inv_head in Hack; now injection Hack as <-.
    + exfalso. assert (sy_acks s' = sy_acks s) as Hs by (destruct pc1; injection H as <-; reflexivity).
      rewrite Hs in Hack. apply (f_equal length) in Hack. rewrite length_app in Hack. simpl in Hack. lia.
Qed.
Lemma publish_goes_same gen next s s' : publish_goes gen next s = Some s' ->
  sy_replication s' = sy_replication s /\ sy_acks s' = sy_acks s.
Proof. destruct next as [[h []]|]; intros [= <-]; auto. Qed.
Lemma edit_same f s s' : edit_volume f s = Some s' -> sy_replication s' = sy_replication s /\ sy_acks s' = sy_acks s.
Proof. unfold edit_volume. destruct (pr_volume _); intros [= <-]; auto. Qed.
Lemma task_word e who s s' : step_answer volume who s = Some s' \/ step_timer volume who s = Some s' -> word_kept e s s'.
Proof.
  intros H. destruct who as [| |i]; simpl in H.
  - destruct (sy_publication s) as [[gen pc]|]; [|now destruct H].
    destruct H as [H|H]; apply publish_goes_same in H as [? ?]; now apply word_same.
  - destruct (sy_replication s) as [[run0 pc]|] eqn:Hr; [|now destruct H].
    assert (exists seg, (replicate_answer volume run0 pc (sy_primary s) = Some seg
        \/ replicate_timer volume run0 pc (sy_primary s) = Some seg) /\ replicate_goes run0 (Some seg) s = Some s')
      as (seg & Hseg & Hgo).
    { destruct H as [H|H]; [destruct (replicate_answer volume run0 pc (sy_primary s)) as [seg|]|
        destruct (replicate_timer volume run0 pc (sy_primary s)) as [seg|]]; try discriminate; exists seg; auto. }
    apply (word_segment e s run0 pc _ seg s' Hr (replicate_answer_earned _ _ _ _ Hseg)); [|exact Hgo].
    unfold has_word. now intros ->.
  - destruct H as [H|H]; [|discriminate]. destruct (sy_cleanups s !! i) as [[[gen retired] pc]|]; [|discriminate].
    destruct (release_answer _ _ _ _ _) as [[h pc']|]; [|discriminate]. injection H as <-. now apply word_same.
Qed.
Lemma store_word e who fate s s' : step_store who fate s = Some s' -> word_kept e s s'.
Proof.
  intros H. destruct who as [| |i]; simpl in H.
  - destruct (sy_publication s) as [[gen pc]|]; [|discriminate]. destruct (publish_execute _ _ _) as [[c pc']|]; [|discriminate].
    injection H as <-. now apply word_same.
  - destruct (sy_replication s) as [[run0 pc]|] eqn:Hr; [|discriminate].
    destruct (replicate_execute pc fate (sy_cell s)) as [[c pc']|] eqn:Hex; [|discriminate]. injection H as <-. split.
    + intros run' pc1 [= <- <-] Hact. exists pc. split; [exact Hr|]. unfold has_word.
      destruct pc; simpl in Hex; try discriminate; destruct (cas_execute _ _ _) as [[c1 cas1]|]; try discriminate;
        injection Hex as _ <-; [discriminate|reflexivity].
    + intros ack Hack. apply (f_equal length) in Hack. rewrite length_app in Hack. simpl in Hack. lia.
  - destruct (sy_cleanups s !! i) as [[[gen retired] pc]|]; [|discriminate].
    destruct (release_execute _ _ _) as [[c pc']|]; [|discriminate]. injection H as <-. now apply word_same.
Qed.
Lemma step_word e s s' : step volume e s = Some s' -> word_kept e s s'.
Proof.
  intros H. destruct e; cbn [step] in H.
  - destruct (sy_publication s); [discriminate|]. destruct (publish _ _) as [[gen next]|]; [|discriminate].
    apply publish_goes_same in H as [? ?]. now apply word_same.
  - destruct (sy_publication s) as [[gen []]|]; try discriminate. apply publish_goes_same in H as [? ?]. now apply word_same.
  - destruct (sy_replication s) eqn:Hr; [discriminate|]. destruct (replicate _) as [[h run0]|]; [|discriminate]. injection H as <-.
    split; [now intros run' pc' [= <- <-]|]. intros ack Hack. apply (f_equal length) in Hack. rewrite length_app in Hack. simpl in Hack. lia.
  - destruct (sy_replication s) as [[run0 pc]|] eqn:Hr; [|discriminate].
    destruct (replicate_peer volume run0 pc answer (sy_primary s)) as [seg|] eqn:Hp; [|discriminate].
    apply (word_segment _ s run0 pc _ seg s' Hr (replicate_peer_earned _ _ _ _ _ Hp)); [|exact H].
    intros Hc. unfold has_word. rewrite Hc. apply orb_true_r.
  - destruct (release_acknowledged _ _ _ _) as [h [[gen retired]|]]; injection H as <-; now apply word_same.
  - now apply (store_word _ who fate).
  - apply (task_word _ who). auto.
  - apply (task_word _ who). auto.
  - apply edit_same in H as [? ?]. now apply word_same.
  - apply edit_same in H as [? ?]. now apply word_same.
  - injection H as <-. now apply word_same.
  - apply edit_same in H as [? ?]. now apply word_same.
  - injection H as <-. now apply word_same.
  - destruct (_ || _) in H; [discriminate|]. destruct (HeadRecord_encode head); [|discriminate..]. injection H as <-. now apply word_same.
Qed.
Lemma run_snoc events e : forall s s' s'', run volume events s = Some s' -> step volume e s' = Some s'' ->
  run volume (events ++ [e]) s = Some s''.
Proof.
  induction events as [|e0 events IH]; intros s s' s'' H He; simpl in *; [injection H as ->; now rewrite He|].
  destruct (step volume e0 s) as [s1|]; [|discriminate]. eauto.
Qed.
Lemma confirmed_more s events more ack : confirmed s events ack -> confirmed s (events ++ more) ack.
Proof.
  intros (b & an & af & s0 & r & pc & -> & H). exists b, an, (af ++ more), s0, r, pc. split; [|exact H]. now rewrite <- app_assoc.
Qed.
Lemma word_confirmed s events s' e run0 pc : run volume events s = Some s' -> sy_replication s' = Some (run0, pc) ->
  (activates pc = true -> confirmed s events (ack_of run0)) -> has_word e run0 pc = true ->
  confirmed s (events ++ [e]) (ack_of run0).
Proof.
  intros Hrun Hr Hc [Ha|Hw]%orb_true_iff; [now apply confirmed_more, Hc|]. destruct e; try discriminate.
  exists events, answer, [], s', run0, pc. auto.
Qed.
Lemma run_word s events : sy_replication s = None -> forall s', run volume events s = Some s' ->
  forall run' pc', sy_replication s' = Some (run', pc') -> activates pc' = true -> confirmed s events (ack_of run').
Proof.
  intros Hs. induction events as [|e events IH] using rev_ind; intros s' H run' pc' Hr Ha; [injection H as ->; congruence|].
  assert (exists s1, run volume events s = Some s1 /\ step volume e s1 = Some s') as (s1 & H1 & H2).
  { clear - H. revert s H. induction events as [|e0 events IH]; intros s H; simpl in *.
    - exists s. split; [reflexivity|]. destruct (step volume e s); [exact H|discriminate].
    - destruct (step volume e0 s) as [s1|]; [|discriminate]. now apply IH. }
  destruct (proj1 (step_word e s1 s' H2) run' pc' Hr Ha) as (pc & Hr1 & Hw).
  apply (word_confirmed s events s1 e run' pc H1 Hr1); [|exact Hw]. intros Hact. now apply (IH s1 H1 run' pc).
Qed.

(** No task is running and the volume remembers the head as it is. *)
Definition at_rest (s : System) : Prop :=
  sy_publication s = None /\ sy_replication s = None /\ sy_cleanups s = []
  /\ forall v, pr_volume (sy_primary s) = Some v -> in_step (sy_cell s) v.

(** C14. A sync is acknowledged only when the peer itself has said that it holds
    the commit, and, without other writers, only when the head names that peer.
    Start with no task running and with the volume remembering the head as it
    is, and let the replication run as often as it likes: against peers that
    answer or not, a store that delays and loses requests and answers, captures,
    and other hosts that take the volume over. No publication runs, no retired
    stash is removed, and the store refuses no request for its size. Whenever a
    step acknowledges the syncs of a commit to the guest as held by a peer under
    an assignment, a replication to that peer under that assignment had been
    answered, by that step or before: that the peer had committed that commit, or
    had a newer one. And the head in the store, if this host still holds it under
    its fence, names the peer and the assignment, so that recovery will ask that
    peer. *)
Theorem replication_acks_named s events s' e s'' ack :
  consistent s -> at_rest s -> Forall event_ok (e :: events) -> Forall (fun e => replicates e = true) (e :: events) ->
  run volume events s = Some s' -> step volume e s' = Some s'' -> sy_acks s'' = sy_acks s' ++ [ack] ->
  confirmed s (events ++ [e]) ack
  /\ forall head, mine (sy_cell s'') head -> exists assignment, head_stash head = Some assignment
     /\ names (allowed_replica_epochs head assignment) (ak_peer ack) (ak_assignment_epoch ack) = true.
Proof using CL Hvolume Hhost Hfence.
  intros Hs (I1 & I2 & I3 & I4) He Hr Hrun Hstep Hack. inversion_clear He. inversion_clear Hr. split.
  - destruct (proj2 (step_word e s' s'' Hstep) ack Hack) as (run0 & pc & Hr0 & Hw & ->).
    apply (word_confirmed s events s' e run0 pc Hrun Hr0); [|exact Hw]. intros Ha. exact (run_word s events I2 s' Hrun run0 pc Hr0 Ha).
  - intros head Hm. assert (followed s) as Hf by (split; auto; intros _; rewrite I2; now split).
    destruct (run_followed events s s') as [Hs' Hf']; auto. destruct (step_followed s' e s'') as [_ Hn]; auto.
    destruct (Hn ack Hack head Hm) as (a & Ha & Hin). exists a. split; [exact Ha|]. now apply allowed_named.
Qed.
End Safety.
