(* ===== verification/StashExamples.v ===== *)
(** * The stash protocol, computed

    Two interleavings of tasks that lose what another task wrote to the head,
    and the runs that show the theorems at work. *)

From stdpp Require Import gmap.
From S2P Require Import Prelude Format Crc32c Types OrdMap Text Head Blx Manifest Layout Journal Placement.
From S2P Require Import ReplicaRecovery RecoverySafety StashProtocol StashSafety.

#[local] Open Scope Z_scope.

(** Host 1 holds volume 7 under fence 5, with peer 3 as its stash. *)
Definition cut (n : Z) : JournalRecord :=
  {| jr_config := {| vc_kind := VolumeKind_Data; vc_pages := 64 |};
     jr_seq := n; jr_fence := 5; jr_kind := Kind_Commit; jr_capture_seq := n;
     jr_sync_covered_through := n; jr_post_state_checksum := 0; jr_files := [];
     jr_runtime_page_index := []; jr_migrated_from := None |}.
Definition archive_of (n : Z) : ManifestPtr :=
  {| mp_fence := 5; mp_journal_seq := n; mp_seq := n; mp_capture_seq := n; mp_checksum := 0 |}.
Definition first_stash : StashAssignment :=
  {| sa_assignment_epoch := 1; sa_active_peer := 3; sa_active_assignment_epoch := 1;
     sa_transition_peer := None; sa_membership_epoch := 1 |}.
Definition primary (head_version : Z) (head : HeadRecord) (committed best : Z) : Primary :=
  {| pr_host := 1; pr_placement := Some {| cpc_membership_epoch := 1; cpc_roster := [1; 2; 3; 4] |};
     pr_authorized := true;
     pr_volume := Some
       {| vs_run_generation := 1; vs_fence := 5; vs_head_version := Some head_version;
          vs_backed := head_manifest head; vs_stash_assignment := head_stash head;
          vs_retired_stashes := head_retired_stashes head; vs_best_record := Some (cut best);
          vs_peer_committed := Some (JournalRecord_commit_info (cut committed));
          vs_peer_committed_record := Some (cut committed); vs_peer_committed_through := committed;
          vs_peer_published := None; vs_sync_ack_through := committed; vs_pending_syncs := [];
          vs_backed_blx_files := []; vs_archive_base := None; vs_archive_objects := [];
          vs_publication := false; vs_replication := false; vs_interrupted := false |};
     pr_replica_releases := []; pr_failed := false |}.
Definition head_of (manifest : option ManifestPtr) (retired : list RetiredStash) : HeadRecord :=
  {| head_volume := 7; head_holder := 1; head_fence := 5; head_manifest := manifest;
     head_stash := Some first_stash; head_retired_stashes := retired |}.
Definition idle (head_version : Z) (head : HeadRecord) (h : Primary) : System :=
  {| sy_cell := match HeadRecord_encode (E := DecodeError) head with
                | Ok bs => Some (head_version, bs)
                | _ => None
                end;
     sy_primary := h; sy_publication := None; sy_replication := None; sy_cleanups := []; sy_acks := [] |}.

(** Peer 3 does not answer, so the stash moves to peer 4. The head that says so
    is written, and before its answer arrives a publication meets the conflict
    and writes the head again, with the assignment it still remembers. *)
Definition drop_events : list Event :=
  [ Ev_capture (cut 2); Ev_sync 2; Ev_replicate; Ev_peer (Peer_status None);
    Ev_publish; Ev_prepared false (Some (archive_of 1));
    Ev_store The_replication (Done 7);
    Ev_store The_publication (Done 8); Ev_answer The_publication;
    Ev_store The_publication (Done 8); Ev_answer The_publication;
    Ev_store The_publication (Done 8); Ev_answer The_publication;
    Ev_answer The_replication;
    Ev_replicate; Ev_peer (Peer_status (Some None)); Ev_peer (Peer_transferred true);
    Ev_peer (Peer_committed true);
    Ev_store The_replication (Done 9); Ev_answer The_replication;
    Ev_store The_replication (Done 9); Ev_answer The_replication ].
Definition start := idle 6 (head_of None []) (primary 6 (head_of None []) 1 1).

Definition head_in (s : System) : option (Z * HeadRecord) :=
  match sy_cell s with
  | Some (v, bs) => match HeadRecord_decode 7 bs with Ok h => Some (v, h) | _ => None end
  | None => None
  end.

(** C35. A publication can take back a move of the stash and with it a sync that
    was acknowledged. Peer 3 fails, the replication writes a head that moves
    the stash to peer 4, and a publication that meets the conflict only takes
    over the version it finds ([publish_head]) and writes the head again with
    the assignment it remembers. The replication then commits to peer 4, finds
    another assignment in the head and, because [cas_assignment] returns true
    when it adopts that one, acknowledges the sync: the head names only peer 3,
    which does not have it. *)
Theorem publication_drops_assignment : exists events s,
  run 7 events start = Some s
  /\ sy_acks s = [{| ak_peer := 4; ak_assignment_epoch := 2; ak_info := JournalRecord_commit_info (cut 2) |}]
  /\ exists v h, head_in s = Some (v, h) /\ head_holder h = 1 /\ head_fence h = 5
     /\ head_stash h = Some first_stash /\ head_retired_stashes h = []
     /\ names (allowed_replica_epochs h first_stash) 4 2 = false.
Proof.
  exists drop_events. destruct (run 7 drop_events start) as [s|] eqn:H.
  - exists s. split; [reflexivity|].
    assert (match run 7 drop_events start with
            | Some s => sy_acks s = [{| ak_peer := 4; ak_assignment_epoch := 2; ak_info := JournalRecord_commit_info (cut 2) |}]
                /\ head_in s = Some (8, head_of (Some (archive_of 1)) [])
            | None => False
            end) as Hv by (vm_compute; auto).
    rewrite H in Hv. destruct Hv as [Ha Hh]. split; [exact Ha|]. do 2 eexists. split; [exact Hh|]. vm_compute. auto 10.
  - exfalso. assert (run 7 drop_events start <> None) as Hn by (vm_compute; discriminate). now apply Hn.
Qed.

(** The answer to a cleanup's read is slow. Meanwhile archive 2 is published and
    peer 3 is asked to release what it covers; then the old answer makes the
    volume remember archive 1 again. The next publication takes over the head's
    version, and with that version the replication writes archive 1 back. *)
Definition old_stash : RetiredStash :=
  {| rs_peer := 2; rs_assignment_epoch := 0; rs_through := JournalRecord_commit_info (cut 1) |}.
Definition with_cleanup := with_releases (primary 6 (head_of (Some (archive_of 1)) [old_stash]) 2 2)
  [(2, 0, JournalRecord_commit_info (cut 1))].
Definition second_start := idle 6 (head_of (Some (archive_of 1)) [old_stash]) with_cleanup.
Definition publish_second : list Event :=
  [ Ev_release_ack 2 0 (JournalRecord_commit_info (cut 1));
    Ev_store (A_cleanup 0) Down; Ev_answer (A_cleanup 0); Ev_store (A_cleanup 0) (Done 7);
    Ev_publish; Ev_prepared false (Some (archive_of 2));
    Ev_store The_publication (Done 7); Ev_answer The_publication ].
Definition write_first_back : list Event :=
  [ Ev_answer (A_cleanup 0);
    Ev_capture (cut 3); Ev_replicate; Ev_peer (Peer_status (Some None)); Ev_peer (Peer_transferred true);
    Ev_peer (Peer_committed true);
    Ev_timer The_publication; Ev_prepared false (Some (archive_of 3));
    Ev_store The_publication (Done 8); Ev_answer The_publication;
    Ev_store The_publication (Done 8); Ev_answer The_publication;
    Ev_capture (cut 4); Ev_replicate; Ev_peer (Peer_status None);
    Ev_store The_replication (Done 8) ].
Definition archive_in (s : System) : option ManifestPtr :=
  match head_in s with Some (_, h) => head_manifest h | None => None end.

(** C36. The head can go back to an older archive. After archive 2 was published
    and the peer was asked to release the commit it covers, a late answer to a
    read makes the volume forget that archive ([adopt_assignment_from_head]),
    and another task writes archive 1 into the head, over the head that names
    archive 2. *)
Theorem archive_pointer_regresses : exists events events' s s',
  run 7 events second_start = Some s /\ archive_in s = Some (archive_of 2)
  /\ In (3, 1, JournalRecord_commit_info (cut 2)) (pr_replica_releases (sy_primary s))
  /\ run 7 events' s = Some s' /\ archive_in s' = Some (archive_of 1).
Proof.
  exists publish_second, write_first_back.
  destruct (run 7 publish_second second_start) as [s|] eqn:H.
  - assert (match run 7 publish_second second_start with
            | Some s => archive_in s = Some (archive_of 2)
                /\ In (3, 1, JournalRecord_commit_info (cut 2)) (pr_replica_releases (sy_primary s))
                /\ match run 7 write_first_back s with
                   | Some s' => archive_in s' = Some (archive_of 1)
                   | None => False
                   end
            | None => False
            end) as Hv by (vm_compute; auto).
    rewrite H in Hv. destruct Hv as (H1 & H2 & H3). exists s.
    destruct (run 7 write_first_back s) as [s'|]; [|easy]. exists s'. auto.
  - exfalso. assert (run 7 publish_second second_start <> None) as Hn by (vm_compute; discriminate). now apply Hn.
Qed.

(** ** The theorems at work *)
Ltac fits_tac := unfold fits; lia.
Lemma first_stash_ok : StashAssignment_ok first_stash.
Proof. unfold StashAssignment_ok. simpl. repeat split; try fits_tac; easy. Qed.
Lemma start_head_ours : ours 7 1 5 (head_of None []).
Proof.
  split; try reflexivity; try exact I. split; [vm_compute; discriminate|constructor|exact first_stash_ok|]. intros a p [= <-]. discriminate.
Qed.
Lemma start_cell : exists bs, sy_cell start = Some (6, bs) /\ HeadRecord_decode 7 bs = Ok (head_of None []).
Proof.
  destruct (ours_encodes 7 1 5 ltac:(fits_tac) ltac:(fits_tac) ltac:(fits_tac) _ start_head_ours) as (bs & He & Hd).
  exists bs. unfold start, idle. simpl. now rewrite He.
Qed.
Lemma cut_ok n : fits W64 n -> record_ok (cut n).
Proof. intros H. unfold record_ok, ReplicaCommitInfo_ok. simpl. repeat split; try apply H; lia. Qed.
Lemma start_consistent : consistent 7 1 5 start.
Proof.
  destruct start_cell as (bs & Hc & Hd). pose proof start_head_ours as Ho. split.
  - exists 6, bs. split; [exact Hc|]. intros h Hh _ _. congruence.
  - split; [reflexivity|repeat constructor; fits_tac|]. split.
    + reflexivity.
    + right. rewrite Hc. split; [reflexivity|]. exists 6, bs, (head_of None []). auto.
    + exact I.
    + exact (our_stash _ _ _ _ Ho).
    + apply cut_ok. fits_tac.
  - exact I.
  - exact I.
  - constructor.
Qed.
Lemma start_idle : at_rest 7 start.
Proof.
  destruct start_cell as (bs & Hc & Hd). split; [reflexivity|]. split; [reflexivity|]. split; [reflexivity|].
  intros v [= <-]. exists 6, bs, (head_of None []). auto.
Qed.
Definition other_head : HeadRecord :=
  {| head_volume := 7; head_holder := 2; head_fence := 9; head_manifest := None; head_stash := None;
     head_retired_stashes := [] |}.
Lemma other_head_ok : HeadRecord_ok other_head.
Proof. unfold HeadRecord_ok. simpl. repeat split; try fits_tac; try constructor. vm_compute. discriminate. Qed.

(** Host 2 takes the volume over while the publication's write is on its way. *)
Definition overtaken : list Event :=
  [ Ev_publish; Ev_prepared false (Some (archive_of 1)); Ev_takeover 7 other_head ].
Definition afterwards : list Event :=
  [ Ev_store The_publication (Done 8); Ev_answer The_publication;
    Ev_store The_publication (Done 8); Ev_answer The_publication ].
Lemma head_writes_fenced_witness : exists s s', run 7 overtaken start = Some s /\ run 7 afterwards s = Some s'
  /\ sy_cell s' = sy_cell s /\ pr_volume (sy_primary s') = None.
Proof.
  destruct (run 7 overtaken start) as [s|] eqn:H;
    [|exfalso; assert (run 7 overtaken start <> None) as Hn by (vm_compute; discriminate); now apply Hn].
  assert (match run 7 overtaken start with
          | Some s => match run 7 afterwards s with Some s' => pr_volume (sy_primary s') = None | None => False end
          | None => False
          end) as Hv by (vm_compute; reflexivity).
  assert (match run 7 overtaken start with Some s => head_in s = Some (7, other_head) | None => False end) as Hh
    by (vm_compute; reflexivity).
  rewrite H in Hv, Hh. destruct (run 7 afterwards s) as [s'|] eqn:H'; [|easy]. exists s, s'.
  split; [reflexivity|]. split; [exact H'|]. split; [|exact Hv].
  assert (Forall (event_ok 7 1) overtaken) as Hev.
  { constructor; [exact I|]. constructor; [unfold event_ok; simpl; unfold ManifestPtr_ok; simpl; repeat split; lia|].
    constructor; [|constructor]. split; [reflexivity|]. split; [apply other_head_ok|discriminate]. }
  destruct (head_writes_fenced 7 1 5 ltac:(fits_tac) ltac:(fits_tac) ltac:(fits_tac) start overtaken s
    start_consistent Hev H) as (_ & _ & Hlast).
  apply (Hlast afterwards); [repeat constructor|repeat constructor| |exact H'].
  intros (v & bs & h & Hc & Hd & Ho). unfold head_in in Hh. rewrite Hc, Hd in Hh. injection Hh as _ ->.
  pose proof (our_holder _ _ _ _ Ho) as E. discriminate E.
Defined.

(** Peer 3 fails, the stash moves to peer 4, and the answer to the write that
    makes peer 4 the active one is lost. *)
Definition move_events : list Event :=
  [ Ev_capture (cut 2); Ev_sync 2; Ev_replicate; Ev_peer (Peer_status None);
    Ev_store The_replication (Done 7); Ev_answer The_replication;
    Ev_replicate; Ev_peer (Peer_status (Some None)); Ev_peer (Peer_transferred true); Ev_peer (Peer_committed true);
    Ev_store The_replication (Lost 8); Ev_answer The_replication; Ev_store The_replication (Done 9) ].
Definition move_ack : Ack := {| ak_peer := 4; ak_assignment_epoch := 2; ak_info := JournalRecord_commit_info (cut 2) |}.
Lemma replication_acks_named_witness : exists s' s'' v head,
  run 7 move_events start = Some s' /\ step 7 (Ev_answer The_replication) s' = Some s''
  /\ sy_acks s'' = sy_acks s' ++ [move_ack] /\ head_in s'' = Some (v, head)
  /\ confirmed 7 start (move_events ++ [Ev_answer The_replication]) move_ack
  /\ exists assignment, head_stash head = Some assignment
     /\ names (allowed_replica_epochs head assignment) (ak_peer move_ack) (ak_assignment_epoch move_ack) = true.
Proof.
  destruct (run 7 move_events start) as [s'|] eqn:H;
    [|exfalso; assert (run 7 move_events start <> None) as Hn by (vm_compute; discriminate); now apply Hn].
  assert (match run 7 move_events start with
          | Some s => match step 7 (Ev_answer The_replication) s with
                      | Some s'' => sy_acks s'' = sy_acks s ++ [move_ack]
                          /\ match head_in s'' with
                             | Some (_, h) => head_holder h = 1 /\ head_fence h = 5
                             | None => False
                             end
                      | None => False
                      end
          | None => False
          end) as Hv by (vm_compute; auto).
  rewrite H in Hv. destruct (step 7 (Ev_answer The_replication) s') as [s''|] eqn:Hs; [|easy]. destruct Hv as [Ha Hh].
  destruct (head_in s'') as [[v head]|] eqn:Hi; [|easy]. exists s', s'', v, head.
  split; [reflexivity|]. split; [exact Hs|]. split; [exact Ha|]. split; [exact Hi|].
  assert (Forall (event_ok 7 1) (Ev_answer The_replication :: move_events)) as Hev.
  { unfold move_events. constructor; [exact I|]. constructor; [apply cut_ok; fits_tac|].
    repeat (apply List.Forall_cons; [exact I|]). apply List.Forall_nil. }
  destruct (replication_acks_named 7 1 5 ltac:(fits_tac) ltac:(fits_tac) ltac:(fits_tac) start move_events s'
    (Ev_answer The_replication) s'' move_ack start_consistent start_idle Hev ltac:(repeat constructor) H Hs Ha) as [Hconf Hn].
  split; [exact Hconf|]. apply Hn. unfold head_in in Hi. destruct (sy_cell s'') as [[n bs]|] eqn:Hc; [|discriminate].
  destruct (HeadRecord_decode 7 bs) as [h| |] eqn:Hd; [|discriminate Hi..]. injection Hi as E1 E2. subst n h.
  destruct Hh as [Hh1 Hh2]. exists v, bs. exact (conj eq_refl (conj Hd (conj Hh1 Hh2))).
Defined.
