(* ===== verification/ArchivePublish.v ===== *)
(** * Preparing an archive ([engine/backup.rs], [engine/store_retry.rs])

    [prepare_archive] copies the files of a journal record that the previous
    archive does not cover into the store, compacts the archive when its files
    overlap too much or do not form a chain of states, and writes the complete
    file list and the manifest that the head will point at.

    An [Option] is an outcome whose only error is [tt], so that what was
    written before [None] is kept. *)

From stdpp Require Import gmap.
From Stdlib Require String.
From S2P Require Import Prelude Format Types Sorting OrdMap Text Head Blx BlxFile Manifest Layout.
From S2P Require Import Journal ReplicaRecovery StashProtocol.

#[local] Open Scope Z_scope.
#[local] Open Scope rust_scope.

Abbreviation Objects := (gmap string bytes).
Record ArchiveWorld := { aw_store : Objects; aw_calls : nat }.
(** The store with everyone else who uses it, and the local device. Outages are
    waited for; [ae_refuses] is any other failure of a call, and
    [ae_interrupted] what [VolumeRun::interrupted] answers. *)
Record ArchiveEnv := {
  ae_others : nat -> Objects -> Objects;
  ae_refuses : nat -> bool;
  ae_interrupted : nat -> bool;
  ae_blobs : Objects }.

Section Archive.
Context `{C : Crc} `{L : Lz4} `{P : PageSize}.
Variable env : ArchiveEnv.

(** ** Calls *)
Definition call {A} (f : Objects -> Objects * outcome unit A) : action ArchiveWorld unit A := fun w =>
  let n := aw_calls w in
  let st := ae_others env n (aw_store w) in
  if ae_refuses env n then ({| aw_store := st; aw_calls := S n |}, Err tt)
  else let '(st, r) := f st in ({| aw_store := st; aw_calls := S n |}, r).
Definition get (key : string) : action ArchiveWorld unit (option bytes) :=
  call (fun st => (st, Ok (st !! key))).
(** [store_retry::read], [write] and [write_immutable]. *)
Definition get_retry (key : string) : action ArchiveWorld unit bytes :=
  let! found := get key in
  act_lift (ok_or found tt).
Definition put_retry (key : string) (bs : bytes) : action ArchiveWorld unit unit :=
  call (fun st => (<[key := bs]> st, Ok tt)).
Definition put_immutable_retry (key : string) (bs : bytes) : action ArchiveWorld unit unit :=
  let! created := call (fun st => match st !! key with
                                  | None => (<[key := bs]> st, Ok true)
                                  | Some _ => (st, Ok false)
                                  end) in
  if (created : bool) then act_ret tt else
  let! found := get key in
  if bool_decide (found = Some bs) then act_ret tt else act_fail tt.
Definition read_blob_retry (name : string) : action ArchiveWorld unit bytes :=
  act_lift (ok_or (ae_blobs env !! name) tt).
Definition unless_interrupted : action ArchiveWorld unit unit := fun w =>
  (w, if ae_interrupted env (aw_calls w) then Err tt else Ok tt).
(** [.ok()?] *)
Definition ok_q {E A} (c : outcome E A) : action ArchiveWorld unit A := act_lift (map_err (fun _ => tt) c).

Definition load_archive_metadata (volume : Z) (pointer : option ManifestPtr)
  : action ArchiveWorld unit (option (Manifest * option CompleteFileList)) :=
  match pointer with
  | None => act_ret None
  | Some pointer =>
      let! bs := get_retry (ManifestPtr_manifest_key pointer volume) in
      let! manifest := ok_q (Manifest_decode volume bs) in
      let! list_bytes := match m_complete_list manifest with
                         | Some reference =>
                             let! bs := get_retry (FileListRef_store_key reference volume) in act_ret (Some bs)
                         | None => act_ret None
                         end in
      let! closure := ok_q (ManifestClosure_decode volume pointer bs list_bytes) in
      act_ret (Some (mc_manifest closure, mc_complete_list closure))
  end.
Definition archive_needs_compaction (volume : Z) (pointer : option ManifestPtr) : ArchiveWorld -> ArchiveWorld * bool := fun w =>
  match load_archive_metadata volume pointer w with
  | (w, Ok (Some (manifest, list))) =>
      (w, match Manifest_current_files manifest list with
          | Ok files => MAX_OVERLAPPING_FILES <=? max_object_overlap files
          | _ => false
          end)
  | (w, _) => (w, false)
  end.
Definition source_object_is_covered (frontier : option (Z * Z)) (writer_fence max_seq : Z) : bool :=
  match frontier with
  | Some (fence, seq) => (writer_fence =? fence) && (max_seq <=? seq)
  | None => false
  end.

(** ** Copying the record's files *)
Definition copy_source (volume : Z) (frontier : option (Z * Z)) (current : BTreeMap ObjectIdentity ObjectRef)
    (reference : ObjectRef) : action ArchiveWorld unit (BTreeMap ObjectIdentity ObjectRef) :=
  let! _ := unless_interrupted in
  let identity := or_identity reference in
  if bt_contains identity current then act_ret current else
  if source_object_is_covered frontier (oi_writer_fence identity) (or_max_seq reference) then act_ret current else
  let! bs := read_blob_retry (blx_blob volume (oi_writer_fence identity) (oi_object_id identity)) in
  let! object := ok_q (BlxObject_open bs) in
  let! found := ok_q (ObjectRef_from_blx (E := unit) object) in
  if negb (bool_decide (found = reference)) then act_fail tt else
  let! _ := put_immutable_retry (ObjectIdentity_store_key identity) bs in
  let! _ := unless_interrupted in
  act_ret (bt_insert identity reference current).

(** ** Compaction *)
Definition group_reference (groups : BTreeMap (Z * Z) (list ObjectRef)) (reference : ObjectRef)
  : outcome unit (BTreeMap (Z * Z) (list ObjectRef)) :=
  let partition := BlockKey_file_partition (or_first_key reference) in
  if negb (bool_decide (BlockKey_file_partition (or_last_key reference) = partition)) then Err tt else
  Ok (bt_update partition [] (fun references => references ++ [reference]) groups).
Definition add_input (newest : BTreeMap BlockKey BlxEntry) (reference : ObjectRef)
  : action ArchiveWorld unit (BTreeMap BlockKey BlxEntry) :=
  let! bs := get_retry (ObjectIdentity_store_key (or_identity reference)) in
  if negb (checksum64 bs =? or_object_checksum reference) then act_fail tt else
  ok_q (BlxCompactor_add_object newest bs).
Definition archive_batch (volume : Z) (snapshot : PublishSnapshot) (next_object_id : Z) : BatchMeta :=
  {| bm_namespace_kind := Namespace_Volume; bm_namespace_id := volume;
     bm_writer_fence := jr_fence (ps_record snapshot); bm_first_object_id := next_object_id;
     bm_min_seq := jr_seq (ps_record snapshot); bm_max_seq := jr_seq (ps_record snapshot);
     bm_batch_id := next_object_id; bm_pre_state_checksum := ps_state_checksum snapshot;
     bm_post_state_checksum := ps_state_checksum snapshot |}.
Definition put_compacted (current_files : list ObjectRef) (object : BlxObject)
  : action ArchiveWorld unit (list ObjectRef) :=
  let! reference := ok_q (ObjectRef_from_blx (E := unit) object) in
  let! _ := put_immutable_retry (ObjectIdentity_store_key (or_identity reference)) (bo_bytes object) in
  let! _ := unless_interrupted in
  act_ret (current_files ++ [reference]).
Definition compact_group (volume : Z) (snapshot : PublishSnapshot) (s : Z * list ObjectRef) (references : list ObjectRef)
  : action ArchiveWorld unit (Z * list ObjectRef) :=
  let '(next_object_id, current_files) := s in
  let! _ := unless_interrupted in
  let! newest := act_fold add_input [] references in
  let! compacted := ok_q (BlxCompactor_finish newest (archive_batch volume snapshot next_object_id) true) in
  let! next_object_id := act_lift (ok_or (checked_add W64 next_object_id (len compacted)) tt) in
  let! current_files := act_fold put_compacted current_files compacted in
  act_ret (next_object_id, current_files).
Definition combined_valid (snapshot : PublishSnapshot) (own : list ObjectRef) : bool :=
  is_ok (validate_object_refs (ps_base_objects snapshot ++ own)).
Definition chain_valid (snapshot : PublishSnapshot) (own : list ObjectRef) : bool :=
  is_ok (validate_file_state_chain
    (match ps_base snapshot with Some base => br_post_state_checksum base | None => 0 end)
    (ps_state_checksum snapshot) own).
Definition compact_archive (volume : Z) (snapshot : PublishSnapshot) (current_files : list ObjectRef)
  : action ArchiveWorld unit (list ObjectRef) :=
  let! groups := act_lift (fold_outcome group_reference [] current_files) in
  let! next_object_id := act_lift (ok_or (compaction_object_id_start (jr_seq (ps_record snapshot))) tt) in
  let! (_, current_files) := act_fold (compact_group volume snapshot) (next_object_id, []) (bt_values groups) in
  if negb (combined_valid snapshot current_files) || negb (chain_valid snapshot current_files)
  then act_fail tt else act_ret current_files.

(** ** The manifest *)
Definition archive_seq_of (previous : option (Manifest * option CompleteFileList)) : Z :=
  match previous with Some (manifest, _) => saturating_add W64 (m_archive_seq manifest) 1 | None => 0 end.
(** The complete list, the added files, the removed files and a new list. *)
Definition archive_changes (volume : Z) (snapshot : PublishSnapshot)
    (previous : option (Manifest * option CompleteFileList)) (current_files : list ObjectRef)
  : outcome unit (option FileListRef * list ObjectRef * list ObjectIdentity * option CompleteFileList) :=
  match previous with
  | None =>
      let list := {| cfl_volume := volume; cfl_writer_fence := jr_fence (ps_record snapshot);
                     cfl_list_id := jr_seq (ps_record snapshot); cfl_objects := current_files |} in
      let? reference := CompleteFileList_reference list in
      Ok (Some reference, [], [], Some list)
  | Some (previous_manifest, previous_list) =>
      let baseline := bt_collect (map (fun object => (or_identity object, object)) (list_objects previous_list)) in
      let current := bt_collect (map (fun object => (or_identity object, object)) current_files) in
      Ok (m_complete_list previous_manifest,
          map snd (List.filter (fun x => negb (bt_contains x.1 baseline)) current),
          List.filter (fun identity => negb (bt_contains identity current)) (bt_keys baseline),
          None)
  end.
Definition archive_manifest (volume : Z) (snapshot : PublishSnapshot) (archive_seq : Z) (record_bytes : bytes)
    (complete_list : option FileListRef) (added : list ObjectRef) (removed : list ObjectIdentity) : Manifest :=
  let record := ps_record snapshot in
  let '(recovery_kind, checkpoint_epoch, vmstate_logical_length) := recovery_metadata record in
  {| m_volume := volume; m_writer_fence := jr_fence record; m_journal_seq := jr_seq record;
     m_archive_seq := archive_seq; m_capture_seq := jr_capture_seq record;
     m_sync_covered_through := jr_sync_covered_through record; m_recovery_kind := recovery_kind;
     m_checkpoint_epoch := checkpoint_epoch; m_config := jr_config record;
     m_vmstate_logical_length := vmstate_logical_length; m_base := ps_base snapshot;
     m_complete_list := complete_list; m_post_state_checksum := ps_state_checksum snapshot;
     m_metadata_checksum := checksum64 record_bytes; m_added := added; m_removed := removed |}.
Definition write_archive (volume : Z) (snapshot : PublishSnapshot)
    (previous : option (Manifest * option CompleteFileList)) (current_files : list ObjectRef)
  : action ArchiveWorld unit ManifestPtr :=
  let! (complete_list, added, removed, new_list) := act_lift (archive_changes volume snapshot previous current_files) in
  let! record_bytes := act_lift (JournalRecord_encode (ps_record snapshot) volume) in
  let archive_seq := archive_seq_of previous in
  let manifest := archive_manifest volume snapshot archive_seq record_bytes complete_list added removed in
  let prior_list := match previous with Some (_, list) => list | None => None end in
  let! bounded := ok_q (bound_manifest manifest prior_list archive_seq) in
  let new_list := match bd_new_complete_list bounded with Some list => Some list | None => new_list end in
  let! _ := match new_list with
            | Some list =>
                let! bs := act_lift (CompleteFileList_encode list) in
                let! _ := put_immutable_retry (CompleteFileList_store_key list) bs in
                unless_interrupted
            | None => act_ret tt
            end in
  let! manifest_bytes := ok_q (Manifest_encode (bd_manifest bounded)) in
  let pointer := Manifest_pointer (bd_manifest bounded) manifest_bytes in
  let! _ := put_retry (ManifestPtr_pending_key pointer volume) manifest_bytes in
  let! _ := unless_interrupted in
  let! _ := put_immutable_retry (ManifestPtr_manifest_key pointer volume) manifest_bytes in
  act_ret pointer.

(** [PreparedArchive] is the pointer; its pending key is a function of it. *)
Definition prepare_archive (volume : Z) (snapshot : PublishSnapshot) (force_compaction : bool)
  : action ArchiveWorld unit ManifestPtr :=
  let! previous := load_archive_metadata volume (ps_backed snapshot) in
  let! _ := unless_interrupted in
  let! previous_files := match previous with
                         | None => act_ret []
                         | Some (manifest, list) => ok_q (Manifest_current_files manifest list)
                         end in
  let frontier := match previous with
                  | Some (manifest, _) => Some (m_writer_fence manifest, m_journal_seq manifest)
                  | None => None
                  end in
  let current := bt_collect (map (fun object => (or_identity object, object)) previous_files) in
  let! current := act_fold (copy_source volume frontier) current (ps_blx_refs snapshot) in
  let current_files := bt_values current in
  let! current_files :=
    if negb (combined_valid snapshot current_files) || negb (chain_valid snapshot current_files)
       || (force_compaction && (MAX_OVERLAPPING_FILES <=? max_object_overlap current_files))
    then compact_archive volume snapshot current_files
    else act_ret current_files in
  write_archive volume snapshot previous current_files.
End Archive.
