(* ===== verification/ArchiveSafety.v ===== *)
(** * What preparing an archive guarantees

    Whatever else happens in the store, preparing an archive only adds objects;
    when it succeeds, the new manifest reads back to files that hold, for every
    block, the newest version among the previous archive and the copied files. *)

From stdpp Require Import gmap.
From Stdlib Require String.
From S2P Require Import Prelude Format Types Sorting OrdMap Text Head Blx BlxFile BlxBatch Manifest Layout.
From S2P Require Import ManifestCodec ManifestOverlap BatchRefs ManifestClosure Journal JournalFormat.
From S2P Require Import ReplicaRecovery StashProtocol ArchivePublish.

#[local] Open Scope Z_scope.
#[local] Open Scope rust_scope.

(** ** Runs of actions that succeed *)
Lemma act_bind_Ok {S E A B} (k : A -> action S E B) (c : action S E A) s s' b :
  act_bind k c s = (s', Ok b) -> exists s1 a, c s = (s1, Ok a) /\ k a s1 = (s', Ok b).
Proof. unfold act_bind. destruct (c s) as [s1 [a|e|]]; [eauto|discriminate..]. Qed.
Lemma act_lift_Ok {S E A} (c : outcome E A) (s s' : S) a : act_lift c s = (s', Ok a) -> s' = s /\ c = Ok a.
Proof. unfold act_lift. now intros [= <- ->]. Qed.
(** A loop that succeeds keeps an invariant that its body keeps. *)
Lemma act_fold_Ok {S E A B} (I : list B -> S -> A -> Prop) (f : A -> B -> action S E A) l :
  forall done s acc s' acc',
  (forall done x s acc s' acc', In x l -> I done s acc -> f acc x s = (s', Ok acc') -> I (done ++ [x]) s' acc') ->
  I done s acc -> act_fold f acc l s = (s', Ok acc') -> I (done ++ l) s' acc'.
Proof.
  induction l as [|x l IH]; intros done s acc s' acc' Hf HI H; simpl in H.
  - injection H as <- <-. now rewrite app_nil_r.
  - apply act_bind_Ok in H as (s1 & a1 & H1 & H). replace (done ++ x :: l) with ((done ++ [x]) ++ l) by now rewrite <- app_assoc.
    apply (IH (done ++ [x]) s1 a1); auto; [|now apply (Hf done x s acc); auto with datatypes].
    intros d y t a t' a' Hy. apply Hf. now right.
Qed.

Create HintDb steady.

(** ** The store only grows *)
Section Steady.
Context `{C : Crc} `{L : Lz4} `{P : PageSize}.
Variables (env : ArchiveEnv) (volume : Z).
(** Nobody else changes or deletes an object while the archive is prepared:
    the collector spares young objects and the archive of the head. *)
Definition preserving : Prop := forall n st key bs, st !! key = Some bs -> ae_others env n st !! key = Some bs.
Hypothesis others : preserving.

(** Only pending manifests are overwritten. *)
Definition pending_name (key : string) : Prop := exists v fence seq, key = pending_manifest_key v fence seq.
Definition kept (st st' : Objects) : Prop :=
  forall key bs, ~ pending_name key -> st !! key = Some bs -> st' !! key = Some bs.
Lemma kept_refl st : kept st st.
Proof. now intros key bs. Qed.
Lemma kept_trans a b c : kept a b -> kept b c -> kept a c.
Proof. intros H1 H2 key bs Hn H. auto. Qed.
Definition steady {A} (c : action ArchiveWorld unit A) : Prop :=
  forall w w' r, c w = (w', r) -> kept (aw_store w) (aw_store w').
Lemma steady_lift {A} (r : outcome unit A) : steady (act_lift r).
Proof. intros w w' r' [= <- <-]. apply kept_refl. Qed.
Lemma steady_bind {A B} (k : A -> action ArchiveWorld unit B) c : steady c -> (forall a, steady (k a)) -> steady (act_bind k c).
Proof.
  intros Hc Hk w w' r. unfold act_bind. destruct (c w) as [w1 [a|e|]] eqn:E; intros H; try (injection H as <- <-; exact (Hc _ _ _ E)).
  apply (kept_trans _ (aw_store w1)); [exact (Hc _ _ _ E)|exact (Hk a _ _ _ H)].
Qed.
Lemma steady_fold {A B} (f : A -> B -> action ArchiveWorld unit A) l : (forall a x, steady (f a x)) -> forall a, steady (act_fold f a l).
Proof. intros Hf. induction l as [|x l IH]; intros a; simpl; [apply (steady_lift (Ok a))|]. now apply steady_bind. Qed.
Lemma steady_call {A} (f : Objects -> Objects * outcome unit A) :
  (forall st st' r, f st = (st', r) -> kept st st') -> steady (call env f).
Proof using others.
  intros Hf w w' r. unfold call. assert (kept (aw_store w) (ae_others env (aw_calls w) (aw_store w))) as Ho
    by (intros key bs _; apply others).
  destruct (ae_refuses env (aw_calls w)); [now intros [= <- <-]|].
  destruct (f _) as [st r'] eqn:E. intros [= <- <-]. exact (kept_trans _ _ _ Ho (Hf _ _ _ E)).
Qed.
Lemma steady_get key : steady (get env key).
Proof using others. apply steady_call. intros st st' r [= <- <-]. apply kept_refl. Qed.
Lemma kept_create st key bs : st !! key = None -> kept st (<[key := bs]> st).
Proof. intros Hn k b _ Hk. rewrite lookup_insert_ne; [exact Hk|congruence]. Qed.
Lemma steady_interrupted : steady (unless_interrupted env).
Proof. intros w w' r [= <- <-]. apply kept_refl. Qed.
End Steady.
#[export] Hint Resolve steady_lift steady_get steady_interrupted : steady.

Ltac steady :=
  repeat match goal with
  | |- steady (act_bind _ _) => apply steady_bind; [|intros]
  | |- steady (act_fold _ _ _) => apply steady_fold; intros
  | |- steady (match ?x with _ => _ end) => destruct x
  | |- steady (if ?b then _ else _) => destruct b
  | |- steady (act_ret ?a) => apply (steady_lift (Ok a))
  | |- steady (act_fail ?e) => apply (steady_lift (Err e))
  | |- steady (ok_q _) => apply steady_lift
  | |- steady _ => solve [auto with steady]
  end.

Section Writes.
Context `{C : Crc} `{L : Lz4} `{P : PageSize}.
Variables (env : ArchiveEnv) (volume : Z).
Hypothesis others : preserving env.

Lemma steady_get_retry key : steady (get_retry env key).
Proof using others. unfold get_retry. steady. Qed.
Lemma steady_put_immutable key bs : steady (put_immutable_retry env key bs).
Proof using others.
  unfold put_immutable_retry. steady. apply steady_call; [exact others|]. intros st st' r.
  destruct (st !! key) eqn:E; intros [= <- <-]; [apply kept_refl|now apply kept_create].
Qed.
Lemma steady_put_pending p bs : steady (put_retry env (ManifestPtr_pending_key p volume) bs).
Proof using others.
  apply steady_call; [exact others|]. intros st st' r [= <- <-] key b Hn Hk.
  rewrite lookup_insert_ne; [exact Hk|]. intros <-. apply Hn. now exists volume, (mp_fence p), (mp_seq p).
Qed.
Hint Resolve steady_get_retry steady_put_immutable steady_put_pending : steady.
Lemma steady_load pointer : steady (load_archive_metadata env volume pointer).
Proof using others. unfold load_archive_metadata. steady. Qed.
Lemma steady_copy frontier current reference : steady (copy_source env volume frontier current reference).
Proof using others. unfold copy_source, read_blob_retry. cbv zeta. steady. Qed.
Lemma steady_group snapshot s references : steady (compact_group env volume snapshot s references).
Proof using others. unfold compact_group, add_input, put_compacted. steady. Qed.
Lemma steady_compact snapshot files : steady (compact_archive env volume snapshot files).
Proof using others. pose proof steady_group. unfold compact_archive. steady. Qed.
Lemma steady_write snapshot previous files : steady (write_archive env volume snapshot previous files).
Proof using others. unfold write_archive. cbv zeta. steady. Qed.
Hint Resolve steady_load steady_copy steady_compact steady_write : steady.
Lemma steady_prepare snapshot force : steady (prepare_archive env volume snapshot force).
Proof using others. unfold prepare_archive. cbv zeta. steady. Qed.

(** ** What successful calls did *)
Lemma call_Ok {A} (f : Objects -> Objects * outcome unit A) w w' a : call env f w = (w', Ok a) ->
  exists st, kept (aw_store w) st /\ f st = (aw_store w', Ok a).
Proof using others.
  unfold call. destruct (ae_refuses env (aw_calls w)); [discriminate|].
  destruct (f _) as [st r] eqn:E. intros [= <- ->]. exists (ae_others env (aw_calls w) (aw_store w)).
  split; [intros key bs _; apply others|exact E].
Qed.
Lemma get_retry_Ok key w w' bs : get_retry env key w = (w', Ok bs) -> aw_store w' !! key = Some bs.
Proof using others.
  unfold get_retry. intros (w1 & found & Hg & [-> Hf]%act_lift_Ok)%act_bind_Ok.
  apply call_Ok in Hg as (st & _ & [= Hst Hv]). rewrite <- Hst, Hv. destruct found; now inversion Hf.
Qed.
Lemma put_immutable_Ok key bs w w' : put_immutable_retry env key bs w = (w', Ok tt) -> aw_store w' !! key = Some bs.
Proof using others.
  unfold put_immutable_retry. intros (w1 & created & Hc & H)%act_bind_Ok.
  apply call_Ok in Hc as (st & _ & Hc). destruct (st !! key) eqn:E; injection Hc as Hst <-.
  - apply act_bind_Ok in H as (w2 & found & Hg & H). apply call_Ok in Hg as (st2 & _ & [= Hst2 Hv]).
    case_bool_decide as Hf; [|discriminate]. injection H as <-. now rewrite <- Hst2, Hv.
  - injection H as <-. rewrite <- Hst. apply lookup_insert_eq.
Qed.
Lemma interrupted_Ok w w' u : unless_interrupted env w = (w', Ok u) -> w' = w.
Proof. now intros [= <- _]. Qed.
End Writes.

(** ** Files that are valid beside a base are valid alone *)
Section Alone.
Context `{P : PageSize}.
Abbreviation Grouping := (BTreeSet ObjectIdentity * BTreeMap (ObjectIdentity * Z) Batch)%type.
Implicit Types (own base : list ObjectRef) (big small : Grouping).

Record agrees own big small : Prop := {
  ag_ids k : In k (bt_keys small.1) -> In k (bt_keys big.1);
  ag_batches k : In k (map batch_key own) -> bt_get k small.2 = bt_get k big.2;
  ag_own k : In k (bt_keys small.2) -> In k (map batch_key own);
  ag_sorted : bt_sorted small.2 }.
Lemma agrees_step own big small o big' : agrees own big small -> In o own -> group_object big o = Ok big' ->
  exists small', group_object small o = Ok small' /\ agrees own big' small'.
Proof.
  intros A Ho. destruct big as [ids bs], small as [ids' bs']. assert (In (batch_key o) (map batch_key own)) as Hk by now apply in_map.
  unfold group_object, bts_insert. pose proof (ag_batches _ _ _ A _ Hk) as Hb. simpl in Hb. rewrite Hb.
  destruct (bt_contains (or_identity o) ids) eqn:E; [discriminate|]. simpl negb. cbv iota.
  assert (bt_contains (or_identity o) ids' = false) as ->.
  { apply not_true_iff_false. intros H%bt_contains_In. apply not_true_iff_false in E. apply E, bt_contains_In, (ag_ids _ _ _ A), H. }
  simpl negb. cbv iota. destruct (_ || _); [discriminate|]. intros [= <-]. eexists. split; [reflexivity|].
  split; simpl.
  - intros k. rewrite !bt_keys_insert. intros [->|H]; [now left|right]. exact (ag_ids _ _ _ A _ H).
  - intros k Hin. destruct (decide (k = batch_key o)) as [->|Hne]; [now rewrite !bt_get_insert_eq|].
    rewrite !bt_get_insert_ne by exact Hne. exact (ag_batches _ _ _ A _ Hin).
  - intros k. rewrite bt_keys_insert. intros [->|H]; [exact Hk|exact (ag_own _ _ _ A _ H)].
  - apply bt_insert_sorted, (ag_sorted _ _ _ A).
Qed.
Lemma agrees_folded own l : (forall o, In o l -> In o own) -> forall big small big',
  agrees own big small -> fold_outcome group_object big l = Ok big' ->
  exists small', fold_outcome group_object small l = Ok small' /\ agrees own big' small'.
Proof.
  induction l as [|o l IH]; intros Hl big small big' A H; simpl in H.
  - injection H as <-. exists small. now split.
  - apply outcome_bind_Ok in H as (big1 & H1 & H). destruct (agrees_step _ _ _ _ _ A (Hl o (or_introl eq_refl)) H1) as (small1 & Hs & A1).
    cbn [fold_outcome]. rewrite Hs. apply (IH (fun x Hx => Hl x (or_intror Hx)) big1); assumption.
Qed.
Lemma group_keys l : forall s s' k, fold_outcome group_object s l = Ok s' -> In k (bt_keys s'.2) ->
  In k (bt_keys s.2) \/ In k (map batch_key l).
Proof.
  induction l as [|o l IH]; intros [ids bs] s' k H Hk; simpl in H; [injection H as <-; now left|].
  apply outcome_bind_Ok in H as (s1 & H1 & H). unfold group_object, bts_insert in H1.
  destruct (bt_contains _ _); [discriminate|]. simpl in H1. destruct (_ || _); [discriminate|]. injection H1 as <-.
  destruct (IH _ _ _ H Hk) as [Hk'|]; [|right; now right]. simpl in Hk'. rewrite bt_keys_insert in Hk'.
  destruct Hk' as [->|]; [right; now left|now left].
Qed.
Lemma overlap_suffix base own k : overlap_at own k <= overlap_at (base ++ own) k.
Proof. unfold overlap_at. rewrite List.filter_app, len_app. pose proof (len_nonneg (List.filter (covers k) base)). lia. Qed.

Lemma validate_suffix base own :
  (forall o, In o (base ++ own) -> cmp_leb (or_first_key o) (or_last_key o) = true) -> len (base ++ own) < W64 ->
  (forall a b, In a base -> In b own -> batch_key a <> batch_key b) ->
  validate_object_refs (base ++ own) = Ok tt -> validate_object_refs own = Ok tt.
Proof.
  intros Hord Hlen Hdis. unfold validate_object_refs, validate_objects.
  intros ([ids bs] & Hg & H)%outcome_bind_Ok. rewrite fold_outcome_app in Hg. apply outcome_bind_Ok in Hg as (s0 & H0 & Hg).
  destruct (agrees_folded own own (fun _ H => H) s0 ([], []) (ids, bs)) as ([ids' bs'] & Hs & A); [|exact Hg|].
  { split; simpl; [easy| |easy|constructor]. intros k (b & <- & Hb)%in_map_iff. symmetry. apply bt_get_None. intros Hk.
    destruct (group_keys _ _ _ _ H0 Hk) as [[]|(a & Ha & Hin)%in_map_iff]. now apply (Hdis a b). }
  rewrite Hs. cbn [outcome_bind]. destruct (forallb batch_complete (bt_values bs)) eqn:Hc; [|discriminate].
  assert (forallb batch_complete (bt_values bs') = true) as ->.
  { apply forallb_forall. intros b ([k b'] & Hb & Hin)%in_map_iff. simpl in Hb. subst b'.
    rewrite forallb_forall in Hc. apply Hc. apply in_map_iff. exists (k, b). split; [reflexivity|]. apply bt_get_In.
    rewrite <- (ag_batches _ _ _ A k (ag_own _ _ _ A k (in_map fst _ _ Hin)) : bt_get k bs' = bt_get k bs).
    apply In_bt_get; [apply A|exact Hin]. }
  simpl negb in *. cbv iota in *. rewrite len_app in Hlen. pose proof (len_nonneg base).
  pose proof (sweep_run own (fun o Ho => Hord o ltac:(apply in_app_iff; now right)) ltac:(lia) (Some MAX_OVERLAPPING_FILES) [] _ eq_refl) as Hsw.
  rewrite balance_nil in Hsw. rewrite Hsw, (proj2 (forallb_forall _ _)); [reflexivity|]. intros k _. apply Z.leb_le.
  transitivity (overlap_at (base ++ own) k); [apply overlap_suffix|].
  assert (len (base ++ own) < W64) as Hl2 by (rewrite len_app; lia).
  pose proof (sweep_run (base ++ own) Hord Hl2 (Some MAX_OVERLAPPING_FILES) [] _ eq_refl) as Hsb. rewrite balance_nil in Hsb.
  rewrite Hsb in H. destruct (forallb _ (bt_keys _)) eqn:Hall; [|discriminate]. rewrite forallb_forall in Hall.
  destruct (Z.lt_ge_cases 0 (overlap_at (base ++ own) k)) as [Hpos|Hz]; [|unfold MAX_OVERLAPPING_FILES; lia].
  destruct (overlap_attained _ _ Hpos) as (x & Hx & Hle). apply Hall, Z.leb_le in Hx. lia.
Qed.
End Alone.

(** ** The changes of a manifest give back the files *)
Section Changes.
Context `{C : Crc} `{P : PageSize}.

Lemma remove_files_run ids m : List.NoDup ids -> (forall k, In k ids -> bt_get k m <> None) ->
  exists m', fold_outcome remove_file m ids = Ok m'.
Proof.
  intros Hnd. revert m. induction Hnd as [|i ids Hi Hnd IH]; intros m Hm; simpl; [eauto|].
  unfold remove_file at 2. destruct (bt_get i m) eqn:E; [|destruct (Hm i (or_introl eq_refl) E)]. cbn [outcome_bind].
  apply IH. intros k Hk. rewrite bt_get_remove_ne by congruence. apply Hm. now right.
Qed.
Lemma insert_files_run os m : List.NoDup (map or_identity os) -> (forall o, In o os -> bt_get (or_identity o) m = None) ->
  exists m', fold_outcome insert_file m os = Ok m'.
Proof.
  revert m. induction os as [|o os IH]; intros m Hnd Hm; simpl; [eauto|]. inversion Hnd as [|? ? Ho Hnd']; subst.
  unfold insert_file at 2. rewrite (Hm o (or_introl eq_refl)). cbn [outcome_bind]. apply IH; [exact Hnd'|].
  intros x Hx. rewrite bt_get_insert_ne; [apply Hm; now right|]. intros He. apply Ho. rewrite <- He. now apply in_map.
Qed.
Lemma values_by_identity files : bt_values (by_identity files) = files.
Proof. unfold bt_values, by_identity. now rewrite map_map, map_id. Qed.
Lemma keyed_by_identity files : keyed (by_identity files).
Proof. intros k o [-> _]%In_by_identity. reflexivity. Qed.
(** Files sorted by identity are determined by their members. *)
Lemma files_of_map m files : bt_sorted m -> keyed m -> bt_sorted (by_identity files) ->
  (forall o, In o (bt_values m) <-> In o files) -> bt_values m = files.
Proof.
  intros Hs Hk Hf Hin. rewrite <- (values_by_identity files). f_equal. apply bt_ext; [exact Hs|exact Hf|].
  assert (forall a b o k, bt_sorted a -> bt_sorted b -> keyed a -> keyed b ->
    (forall o, In o (bt_values a) -> In o (bt_values b)) -> bt_get k a = Some o -> bt_get k b = Some o) as Hle.
  { intros a b o k Ha Hb Hka Hkb Hab Hg. pose proof (Hka _ _ (bt_get_In _ _ _ Hg)) as ->. apply values_by_get; [exact Hb|exact Hkb|].
    apply Hab. now apply values_by_get. }
  intros k. destruct (bt_get k m) as [o|] eqn:E; [symmetry|destruct (bt_get k (by_identity files)) as [o|] eqn:E2; [|reflexivity]; rewrite <- E];
    (eapply Hle; [| | | | |eassumption]); auto using keyed_by_identity; intros x; rewrite values_by_identity; apply Hin.
Qed.
Lemma NoDup_filter_keys {K V} (f : K * V -> bool) (m : BTreeMap K V) :
  List.NoDup (map fst m) -> List.NoDup (map fst (List.filter f m)).
Proof.
  induction m as [|x m IH]; simpl; intros H; [constructor|]. inversion H as [|? ? Hx Hm]; subst.
  destruct (f x); [|auto]. simpl. constructor; [|auto]. intros (y & Hy & Hin)%in_map_iff. apply filter_In in Hin as [Hin _].
  apply Hx. rewrite <- Hy. now apply in_map.
Qed.

(** The added and removed files that [archive_changes] computes. *)
Definition added_to (l : option CompleteFileList) (files : list ObjectRef) : list ObjectRef :=
  map snd (List.filter (fun x => negb (bt_contains x.1 (bt_collect (by_identity (list_objects l))))) (by_identity files)).
Definition removed_from (l : option CompleteFileList) (files : list ObjectRef) : list ObjectIdentity :=
  List.filter (fun identity => negb (bt_contains identity (by_identity files))) (bt_keys (bt_collect (by_identity (list_objects l)))).
Lemma In_added l files o : In o (added_to l files) <->
  In o files /\ ~ In (or_identity o) (bt_keys (bt_collect (by_identity (list_objects l)))).
Proof.
  unfold added_to. rewrite in_map_iff. split.
  - intros ([k o'] & Ho & Hin). simpl in Ho. subst o'. apply filter_In in Hin as [Hin Hc]. simpl in Hc.
    apply In_by_identity in Hin as [-> Hin]. split; [exact Hin|]. rewrite <- bt_contains_In. now destruct (bt_contains _ _).
  - intros [Hin Hn]. exists (or_identity o, o). split; [reflexivity|]. apply filter_In. split; [now apply In_by_identity|].
    simpl. rewrite <- bt_contains_In in Hn. now destruct (bt_contains _ _).
Qed.
Lemma keys_collected l k : bt_sorted (by_identity l) \/ List.NoDup (map or_identity l) ->
  In k (bt_keys (bt_collect (by_identity l))) <-> exists o, In o l /\ k = or_identity o.
Proof.
  intros Hl. assert (List.NoDup (map fst (by_identity l))) as Hnd.
  { rewrite keys_by_identity. destruct Hl as [Hs|Hd]; [|exact Hd]. rewrite <- keys_by_identity. now apply bt_sorted_NoDup. }
  rewrite <- bt_contains_In. unfold bt_contains. destruct (bt_get k (bt_collect (by_identity l))) as [o|] eqn:E.
  - apply bt_get_collect in E; [|exact Hnd]. apply In_by_identity in E as [-> Ho]. split; [eauto|reflexivity].
  - split; [discriminate|]. intros (o & Ho & ->). exfalso.
    assert (bt_get (or_identity o) (bt_collect (by_identity l)) = Some o) as H; [|congruence].
    apply bt_get_collect; [exact Hnd|]. now apply In_by_identity.
Qed.
Lemma In_removed l files k : List.NoDup (map or_identity (list_objects l)) -> In k (removed_from l files) <->
  (exists o, In o (list_objects l) /\ k = or_identity o) /\ ~ exists o, In o files /\ k = or_identity o.
Proof.
  intros Hnd. unfold removed_from. rewrite filter_In, keys_collected by now right.
  assert (negb (bt_contains k (by_identity files)) = true <-> ~ exists o, In o files /\ k = or_identity o) as ->; [|reflexivity].
  rewrite negb_true_iff, <- not_true_iff_false, bt_contains_In. unfold bt_keys. rewrite keys_by_identity, in_map_iff.
  split; intros H (o & H1 & H2); apply H; eauto.
Qed.

Lemma changes_current m l files :
  m_added m = added_to l files -> m_removed m = removed_from l files -> list_matches m l -> bt_sorted (by_identity files) ->
  (forall o o', In o (list_objects l) -> In o' files -> or_identity o = or_identity o' -> o = o') ->
  validate_object_refs files = Ok tt -> validate_state_chain m files = Ok tt ->
  Manifest_current_files m l = Ok files.
Proof.
  intros Ha Hr Hl Hs Hsame Hv Hc. pose proof (list_matches_distinct _ _ Hl) as Hnd.
  destruct (remove_files_run (m_removed m) (bt_collect (by_identity (list_objects l)))) as [m1 H1].
  { rewrite Hr. apply List.NoDup_filter. apply bt_sorted_NoDup, bt_collect_sorted. }
  { intros k Hk Hg. rewrite Hr in Hk. apply filter_In in Hk as [Hk _]. apply bt_get_None in Hg. contradiction. }
  pose proof (remove_files_spec _ _ _ (bt_collect_sorted _) H1) as [_ Hg1].
  destruct (insert_files_run (m_added m) m1) as [m2 H2].
  { rewrite Ha. unfold added_to. assert (forall x : list (ObjectIdentity * ObjectRef), keyed x -> map or_identity (map snd x) = map fst x) as Hmap.
    { intros x Hx. rewrite map_map. apply map_ext_in. intros [k o] Hin. symmetry. now apply Hx. }
    rewrite Hmap; [apply NoDup_filter_keys, bt_sorted_NoDup, Hs|]. intros k o Hin%filter_In. now apply (keyed_by_identity files). }
  { intros o Ho. rewrite Ha in Ho. apply In_added in Ho as [_ Ho]. rewrite Hg1. destruct (decide _); [reflexivity|]. now apply bt_get_None. }
  destruct (replay_files _ _ _ _ _ Hnd H1 H2) as (Hs2 & Hk2 & Hin2).
  assert (bt_values m2 = files) as Hvals.
  { apply files_of_map; [exact Hs2|exact Hk2|exact Hs|]. intros o. rewrite Hin2, Ha, Hr, In_added, In_removed, keys_collected by auto. split.
    - intros [[H _]|[Hin Hn]]; [exact H|]. destruct (decide (In (or_identity o) (map or_identity files))) as [Hi|Hi].
      + apply in_map_iff in Hi as (o' & He & Ho'). now rewrite (Hsame o o').
      + destruct Hn. split; [eauto|]. intros (o' & Ho' & He). apply Hi. rewrite He. now apply in_map.
    - intros Ho. destruct (decide (In (or_identity o) (map or_identity (list_objects l)))) as [Hi|Hi].
      + apply in_map_iff in Hi as (o' & He & Ho'). right. rewrite <- (Hsame o' o); auto. split; [exact Ho'|]. intros [_ Hn].
        apply Hn. exists o. now rewrite He.
      + left. split; [exact Ho|]. intros (o' & Ho' & He). apply Hi. rewrite He. now apply in_map. }
  unfold Manifest_current_files. replace (match m_complete_list m with Some _ => _ | None => _ end) with (@Ok DecodeError _ tt).
  2:{ unfold list_matches in Hl. destruct (m_complete_list m), l; try contradiction; [|reflexivity]. rewrite Hl. cbn [outcome_bind].
      now rewrite bool_decide_eq_true_2. }
  cbn [outcome_bind]. fold (by_identity (list_objects l)). rewrite H1. cbn [outcome_bind]. rewrite H2. cbn [outcome_bind].
  rewrite Hvals. unfold validate_object_refs in Hv. rewrite Hv. cbn [outcome_bind]. now rewrite Hc.
Qed.
End Changes.

(** ** Entries that keep the newest version of every block *)
(** Every entry of [outs] is one of [ins], and for every entry of [ins] there
    is one of the same block in [outs] that is at least as new. *)
Definition keeps_newest (ins outs : list BlxEntry) : Prop :=
  (forall e, In e outs -> In e ins)
  /\ (forall e, In e ins -> exists e', In e' outs /\ BlxEntry_key e' = BlxEntry_key e
        /\ BlxEntry_generation e <= BlxEntry_generation e').
Lemma keeps_newest_same ins outs : (forall e, In e ins <-> In e outs) -> keeps_newest ins outs.
Proof. intros H. split; [intros e; apply H|]. intros e He. exists e. split; [now apply H|]. split; [reflexivity|lia]. Qed.
Lemma keeps_newest_app i1 i2 o1 o2 : keeps_newest i1 o1 -> keeps_newest i2 o2 -> keeps_newest (i1 ++ i2) (o1 ++ o2).
Proof.
  intros [A1 B1] [A2 B2]. split; intros e; rewrite !in_app_iff; intros [H|H]; auto.
  - destruct (B1 e H) as (e' & ? & ?). exists e'. rewrite in_app_iff. auto.
  - destruct (B2 e H) as (e' & ? & ?). exists e'. rewrite in_app_iff. auto.
Qed.
Lemma keeps_newest_trans a b c : keeps_newest a b -> keeps_newest b c -> keeps_newest a c.
Proof.
  intros [A1 B1] [A2 B2]. split; [auto|]. intros e (e1 & H1 & Hk1 & Hg1)%B1. destruct (B2 e1 H1) as (e2 & H2 & Hk2 & Hg2).
  exists e2. split; [exact H2|]. split; [congruence|lia].
Qed.
Lemma keeps_newest_of ins outs k r : keeps_newest ins outs -> newest_of k outs r -> newest_of k ins r.
Proof.
  intros [A B]. destruct r as [e|]; simpl.
  - intros (Hin & Hk & Hmax). split; [auto|]. split; [exact Hk|]. intros e' He' Hk'.
    destruct (B e' He') as (e2 & H2 & Hk2 & Hg2). specialize (Hmax e2 H2 ltac:(congruence)). lia.
  - intros Hn e' He' Hk'. destruct (B e' He') as (e2 & H2 & Hk2 & _). apply (Hn e2 H2). congruence.
Qed.
Lemma merged_keeps_newest `{P : PageSize} es : Forall BlxEntry_ok es -> keeps_newest es (bt_values (fold_left keep_newest es [])).
Proof.
  intros Hok. assert (map_ok (fold_left keep_newest es [])) as Hm by (apply fold_keep_newest_ok; [split; constructor|exact Hok]).
  destruct Hm as [Hs Hf]. rewrite List.Forall_forall in Hf. split.
  - intros e ([k e'] & He & Hin)%in_map_iff. simpl in He. subst e'. pose proof (merge_newest k es) as Hn.
    rewrite (In_bt_get _ _ _ Hs Hin) in Hn. apply Hn.
  - intros e He. pose proof (merge_newest (BlxEntry_key e) es) as Hn.
    destruct (bt_get (BlxEntry_key e) (fold_left keep_newest es [])) as [e'|] eqn:E; [|now destruct (Hn e He)].
    destruct Hn as (_ & Hk & Hmax). exists e'. split; [|split; [exact Hk|now apply Hmax]].
    apply in_map_iff. exists (BlxEntry_key e, e'). split; [reflexivity|]. now apply bt_get_In.
Qed.

(** ** Files in the store *)
Section Stored.
Context `{C : Crc} `{CL : !CrcLaws C} `{L : Lz4} `{LL : !Lz4Laws L} `{P : PageSize} `{PL : !PageSizeLaws P}.
Hypothesis small_pages : page_size <= 16 * 1024 * 1024.
Implicit Types (st : Objects) (o : ObjectRef).

(** The store holds the file of a reference, with these entries. *)
Definition stored st o (es : list BlxEntry) : Prop :=
  exists f, st !! ObjectIdentity_store_key (or_identity o) = Some (bo_bytes f) /\ file_holds f es /\ o = written_ref f.

Lemma name_not_pending k : (forall v fence seq, StoreKey_wrap k <> Key_PendingManifest v fence seq) ->
  ~ pending_name (StoreKey_name k).
Proof.
  intros Hk (v & fence & seq & He). pose proof (parse_any_name k) as H. rewrite He in H.
  pose proof (parse_any_name (Key_PendingManifest v fence seq)) as H2. cbn [StoreKey_name] in H2. rewrite H2 in H.
  injection H as H. symmetry in H. exact (Hk _ _ _ H).
Qed.
Lemma file_not_pending i : ~ pending_name (ObjectIdentity_store_key i).
Proof.
  unfold ObjectIdentity_store_key. destruct (oi_namespace_kind i).
  - apply (name_not_pending (Key_Blx (oi_namespace_id i) (oi_writer_fence i) (oi_object_id i))). discriminate.
  - apply (name_not_pending (Key_ImportedBaseBlx (oi_namespace_id i) (oi_writer_fence i) (oi_object_id i))). discriminate.
Qed.
Lemma list_not_pending a b c : ~ pending_name (complete_file_list_key a b c).
Proof. apply (name_not_pending (Key_CompleteFileList a b c)). discriminate. Qed.
Lemma manifest_not_pending a b c : ~ pending_name (archive_manifest_key a b c).
Proof. apply (name_not_pending (Key_ArchiveManifest a b c)). discriminate. Qed.
Lemma stored_kept st st' o es : kept st st' -> stored st o es -> stored st' o es.
Proof. intros Hk (f & Hf & H). exists f. split; [|exact H]. apply Hk; [apply file_not_pending|exact Hf]. Qed.

Lemma file_holds_ok f es : file_holds f es ->
  len (bo_bytes f) < W32 /\ ObjectRef_ok (written_ref f) /\ es <> [] /\ Forall BlxEntry_ok es /\ bo_checksum f = checksum64 (bo_bytes f).
Proof using CL LL PL small_pages.
  intros [m id index count es' Hg Hm Hid Hi Hc]. destruct (chunk_ref_ok small_pages m id index count es' Hg Hm Hid Hi Hc).
  split; [assumption|]. split; [assumption|]. destruct Hg as [(Hne & Hok & _) _]. auto.
Qed.
Lemma stored_ok st o es : stored st o es -> ObjectRef_ok o /\ es <> [] /\ Forall BlxEntry_ok es.
Proof using CL LL PL small_pages. intros (f & _ & Hf & ->). now apply file_holds_ok in Hf as (_ & ? & ? & ? & _). Qed.
Lemma from_blx_written {E} f es o : file_holds f es -> ObjectRef_from_blx (E := E) f = Ok o -> o = written_ref f.
Proof using CL LL PL small_pages.
  intros (Hl & _)%file_holds_ok. unfold ObjectRef_from_blx. rewrite (proj2 (Z.ltb_lt _ _) Hl). now intros [= <-].
Qed.
(** Files are not empty, so there are at most as many as entries. *)
Lemma len_files_entries (content : ObjectRef -> list BlxEntry) os :
  (forall o, In o os -> content o <> []) -> len os <= len (concat (map content os)).
Proof.
  intros H. rewrite <- (len_map content os). apply len_concat_le. apply List.Forall_forall.
  intros es (o & <- & Ho)%in_map_iff. auto.
Qed.
End Stored.
