(* ===== verification/ArchiveExact.v ===== *)
(** * A prepared archive holds the newest version of every block

    The copy loop, the compaction and the manifest of [prepare_archive], each
    with what a successful run of it has put into the store, and the theorem
    about the whole. *)

From stdpp Require Import gmap.
From Stdlib Require String.
From S2P Require Import Prelude Format Types Sorting OrdMap Text Head Blx BlxFile BlxBatch Manifest Layout.
From S2P Require Import ManifestCodec ManifestOverlap BatchRefs ManifestClosure Journal JournalFormat.
From S2P Require Import ReplicaRecovery StashProtocol ArchivePublish ArchiveSafety.

#[local] Open Scope Z_scope.
#[local] Open Scope rust_scope.

Lemma filter_all {A} (f : A -> bool) l : (forall x, In x l -> f x = true) -> List.filter f l = l.
Proof.
  induction l as [|x l IH]; intros H; simpl; [reflexivity|]. rewrite (H x (or_introl eq_refl)), IH; [reflexivity|].
  intros y Hy. apply H. now right.
Qed.

Section Prepare.
Context `{C : Crc} `{CL : !CrcLaws C} `{L : Lz4} `{LL : !Lz4Laws L} `{P : PageSize} `{PL : !PageSizeLaws P}.
Hypothesis small_pages : page_size <= 16 * 1024 * 1024.
Variables (env : ArchiveEnv) (volume : Z) (snapshot : PublishSnapshot).
Hypothesis others : preserving env.
(** The entries of the files that exist before the publication. *)
Variable content : ObjectRef -> list BlxEntry.

Abbreviation entries files := (concat (map content files)).
Abbreviation stored_in w := (fun o => stored (aw_store w) o (content o)).

Lemma kept_after {A} (c : action ArchiveWorld unit A) w w' r : steady c -> c w = (w', r) -> kept (aw_store w) (aw_store w').
Proof. intros H. exact (H w w' r). Qed.

(** ** The files of the record are copied *)
(** A blob on the local device is a file the engine wrote. *)
Definition local_files : Prop := forall o bs, In o (ps_blx_refs snapshot) ->
  ae_blobs env !! blx_blob volume (oi_writer_fence (or_identity o)) (oi_object_id (or_identity o)) = Some bs ->
  exists f, bs = bo_bytes f /\ file_holds f (content o).
Hypothesis local : local_files.

(** The archive up to which the previous publication went holds what the file
    holds: it is of the same writer, and saw the file's last sequence number. *)
Definition covered_by (frontier : option (Z * Z)) (o : ObjectRef) : Prop :=
  exists seq, frontier = Some (oi_writer_fence (or_identity o), seq) /\ or_max_seq o <= seq.
(** The files an archive is made of, each once: the previous ones, and exactly
    those of the record that the previous archive does not cover. *)
Record archive_inputs (frontier : option (Z * Z)) (previous files : list ObjectRef) : Prop := {
  ai_distinct : List.NoDup (map or_identity files);
  ai_previous o : In o previous -> In o files;
  ai_known o : In o files -> In o previous \/ In o (ps_blx_refs snapshot) /\ ~ covered_by frontier o;
  ai_record o : In o (ps_blx_refs snapshot) -> ~ covered_by frontier o -> exists o', In o' files /\ or_identity o' = or_identity o }.
Lemma source_covered frontier o :
  source_object_is_covered frontier (oi_writer_fence (or_identity o)) (or_max_seq o) = true <-> covered_by frontier o.
Proof.
  unfold source_object_is_covered, covered_by. destruct frontier as [[fence seq]|]; [|split; [discriminate|intros (? & [=] & _)]].
  rewrite andb_true_iff, Z.eqb_eq, Z.leb_le. split; [intros [-> ?]; eauto|intros (s & [= -> ->] & ?); auto].
Qed.

Record copied_so_far (frontier : option (Z * Z)) (previous done : list ObjectRef) (w : ArchiveWorld)
    (current : BTreeMap ObjectIdentity ObjectRef) : Prop := {
  cs_sorted : bt_sorted current;
  cs_keyed : keyed current;
  cs_stored o : In o (bt_values current) -> stored_in w o;
  cs_previous o : In o previous -> In o (bt_values current);
  cs_known o : In o (bt_values current) -> In o previous \/ In o (ps_blx_refs snapshot) /\ ~ covered_by frontier o;
  cs_done o : In o done -> ~ covered_by frontier o -> In (or_identity o) (bt_keys current) }.
Lemma copied_kept frontier previous done w w' current : kept (aw_store w) (aw_store w') ->
  copied_so_far frontier previous done w current -> copied_so_far frontier previous done w' current.
Proof. intros Hk []. split; auto. intros o Ho. exact (stored_kept _ _ _ _ Hk (cs_stored0 o Ho)). Qed.
Lemma values_insert (m : BTreeMap ObjectIdentity ObjectRef) o x : bt_sorted m -> keyed m ->
  bt_get (or_identity o) m = None ->
  keyed (bt_insert (or_identity o) o m) /\ (In x (bt_values (bt_insert (or_identity o) o m)) <-> x = o \/ In x (bt_values m)).
Proof.
  intros Hs Hk Hn. pose proof (bt_insert_sorted (or_identity o) o m Hs) as Hs'.
  assert (keyed (bt_insert (or_identity o) o m)) as Hk'.
  { apply keyed_by_get; [exact Hs'|]. intros k y. destruct (decide (k = or_identity o)) as [->|Hne].
    - rewrite bt_get_insert_eq. now intros [= ->].
    - rewrite bt_get_insert_ne by exact Hne. intros H. now apply Hk, bt_get_In. }
  split; [exact Hk'|]. rewrite !values_by_get by assumption.
  destruct (decide (or_identity x = or_identity o)) as [He|Hne].
  - rewrite He, bt_get_insert_eq, Hn. split; [intros [= ->]; now left|intros [->|]; [reflexivity|discriminate]].
  - rewrite bt_get_insert_ne by exact Hne. split; [now right|]. intros [->|H]; [congruence|exact H].
Qed.

Lemma copy_source_Ok frontier previous done o w current w' current' :
  In o (ps_blx_refs snapshot) -> copied_so_far frontier previous done w current ->
  copy_source env volume frontier current o w = (w', Ok current') ->
  copied_so_far frontier previous (done ++ [o]) w' current'.
Proof using CL LL PL small_pages others local.
  intros Ho I H. pose proof (kept_after _ _ _ _ (steady_copy env volume others frontier current o) H) as Hkept.
  unfold copy_source in H. apply act_bind_Ok in H as (w0 & u0 & ->%interrupted_Ok & H). cbv zeta in H.
  assert (forall c, copied_so_far frontier previous done w c ->
    (~ covered_by frontier o -> In (or_identity o) (bt_keys c)) -> copied_so_far frontier previous (done ++ [o]) w c) as Hsnoc.
  { intros c [] Hd. split; auto. intros x. rewrite in_app_iff. intros [Hx|[<-|[]]]; auto. }
  destruct (bt_contains (or_identity o) current) eqn:Ec.
  { injection H as <- <-. apply Hsnoc; [exact I|]. intros _. now apply bt_contains_In. }
  destruct (source_object_is_covered _ _ _) eqn:Es.
  { injection H as <- <-. apply Hsnoc; [exact I|]. intros Hn. destruct Hn. now apply source_covered. }
  assert (~ covered_by frontier o) as Hunc by (intros Hc%source_covered; congruence).
  apply act_bind_Ok in H as (w1 & bs & [-> Hb]%act_lift_Ok & H). apply act_bind_Ok in H as (w1 & object & [-> Hop]%act_lift_Ok & H).
  apply act_bind_Ok in H as (w1 & found & [-> Hf]%act_lift_Ok & H). case_bool_decide as Hfo; [|discriminate]. subst found. cbn [negb] in H.
  apply act_bind_Ok in H as (w1 & [] & Hput & H). apply act_bind_Ok in H as (w2 & u2 & ->%interrupted_Ok & H). injection H as -> <-.
  assert (stored_in w' o) as Hst.
  { destruct (ae_blobs env !! _) as [bs'|] eqn:Eb; [|discriminate]. injection Hb as ->.
    destruct (local o bs Ho Eb) as (f & -> & Hh). rewrite (file_holds_open small_pages f _ Hh) in Hop. injection Hop as <-.
    exists f. split; [exact (put_immutable_Ok env others _ _ _ _ Hput)|]. split; [exact Hh|].
    destruct (ObjectRef_from_blx f) as [o'| |] eqn:Ef in Hf; try discriminate. injection Hf as ->. exact (from_blx_written small_pages _ _ _ Hh Ef). }
  pose proof (copied_kept _ _ _ _ _ _ Hkept I) as [Hs Hk Hsto Hpre Hkno Hdone].
  assert (bt_get (or_identity o) current = None) as Hn by (unfold bt_contains in Ec; now destruct (bt_get _ current)).
  pose proof (fun x => values_insert current o x Hs Hk Hn) as Hv. split.
  - now apply bt_insert_sorted.
  - apply (Hv o).
  - intros x [->|Hx]%Hv; auto.
  - intros x Hx. apply Hv. auto.
  - intros x [->|Hx]%Hv; auto.
  - intros x. rewrite in_app_iff, bt_keys_insert. intros [Hx|[<-|[]]] Hc; auto.
Qed.

Lemma copy_all_Ok frontier previous w w' current :
  bt_sorted (by_identity previous) -> (forall o, In o previous -> stored_in w o) ->
  act_fold (copy_source env volume frontier) (bt_collect (by_identity previous)) (ps_blx_refs snapshot) w = (w', Ok current) ->
  bt_sorted current /\ keyed current /\ (forall o, In o (bt_values current) -> stored_in w' o)
  /\ archive_inputs frontier previous (bt_values current).
Proof using CL LL PL small_pages others local.
  intros Hs Hst H. rewrite bt_collect_id in H by exact Hs.
  apply (act_fold_Ok (copied_so_far frontier previous)) with (done := []) in H.
  - destruct H as [H1 H2 H3 H4 H5 H6]. split; [exact H1|]. split; [exact H2|]. split; [exact H3|]. split; auto.
    { rewrite <- keys_by_identity, by_identity_keyed by exact H2. now apply bt_sorted_NoDup. }
    intros o Ho Hc. pose proof (H6 o Ho Hc) as Hk. apply in_map_iff in Hk as ([k x] & Hx & Hin). simpl in Hx. subst k.
    exists x. split; [|symmetry; exact (H2 _ _ Hin)]. apply in_map_iff. now exists (or_identity o, x).
  - intros done x s acc s' acc' Hx HI. apply copy_source_Ok; assumption.
  - split; rewrite ?values_by_identity; auto using keyed_by_identity. intros o [].
Qed.

(** ** Compaction *)
Hypothesis volume_fits : fits W64 volume.
Hypothesis record_fields : JournalRecord_fields (ps_record snapshot).
Hypothesis checksum_fits : fits W64 (ps_state_checksum snapshot).
Abbreviation fence := (jr_fence (ps_record snapshot)).

Lemma group_references files : forall groups groups', bt_sorted groups ->
  fold_outcome group_reference groups files = Ok groups' -> concat (bt_values groups') ≡ₚ concat (bt_values groups) ++ files.
Proof.
  assert (forall k (x : ObjectRef) (m : BTreeMap (Z * Z) (list ObjectRef)), bt_sorted m ->
    concat (bt_values (bt_update k [] (fun l => l ++ [x]) m)) ≡ₚ concat (bt_values m) ++ [x]) as Hupd.
  { intros k x m Hs. unfold bt_update. induction Hs as [|[k' l] m Hs IH Hlt]; simpl; [reflexivity|].
    destruct (cmp k k') eqn:E; simpl.
    - rewrite app_assoc_r. now rewrite (Permutation_app_comm [x]), app_assoc_r.
    - rewrite (proj2 (bt_get_None k m)); [simpl; now rewrite (Permutation_app_comm _ [x])|].
      intros ([k2 l2] & Hk & Hin)%in_map_iff. simpl in Hk. subst k2. rewrite List.Forall_forall in Hlt. apply Hlt in Hin.
      unfold bt_lt in Hin. simpl in Hin. rewrite (cmp_antisym k' k), Hin in E. discriminate.
    - now rewrite IH, app_assoc_r. }
  induction files as [|o files IH]; intros groups groups' Hs H; simpl in H; [injection H as <-; now rewrite app_nil_r|].
  apply outcome_bind_Ok in H as (g1 & H1 & H). unfold group_reference in H1. destruct (negb _); [discriminate|]. injection H1 as <-.
  rewrite (IH _ _ (bt_insert_sorted _ _ _ Hs) H). fold (bt_update (BlockKey_file_partition (or_first_key o)) [] (fun l => l ++ [o]) groups).
  now rewrite Hupd, app_assoc_r by exact Hs.
Qed.

Lemma add_inputs_Ok w0 references w w' newest :
  (forall o, In o references -> stored_in w0 o) -> kept (aw_store w0) (aw_store w) ->
  act_fold (add_input env) [] references w = (w', Ok newest) -> newest = fold_left keep_newest (entries references) [].
Proof using CL LL PL small_pages others.
  intros Hst Hk H.
  apply (act_fold_Ok (fun done w acc => kept (aw_store w0) (aw_store w) /\ acc = fold_left keep_newest (entries done) [])) with (done := []) in H.
  - apply H.
  - intros done x s acc s' acc' Hx [Hks ->] Hstep.
    assert (kept (aw_store s) (aw_store s')) as Hks'.
    { refine (kept_after (add_input env _ x) _ _ _ _ Hstep). unfold add_input. steady. now apply steady_get_retry. }
    split; [exact (kept_trans _ _ _ Hks Hks')|]. unfold add_input in Hstep. apply act_bind_Ok in Hstep as (s1 & bs & Hg & Hstep).
    apply get_retry_Ok in Hg; [|exact others]. destruct (checksum64 bs =? _); [|discriminate]. apply act_lift_Ok in Hstep as [-> Hadd].
    destruct (stored_kept _ _ _ _ (kept_trans _ _ _ Hks Hks') (Hst x Hx)) as (f & Hf & Hh & _). rewrite Hg in Hf. injection Hf as ->.
    rewrite (add_object_file small_pages _ f _ Hh) in Hadd. injection Hadd as <-.
    now rewrite map_app, concat_app, fold_left_app; simpl; rewrite app_nil_r.
  - now split.
Qed.
Lemma group_output next es files : 0 <= next < W64 -> Forall BlxEntry_ok es -> len es < W32 ->
  BlxCompactor_finish (fold_left keep_newest es []) (archive_batch volume snapshot next) true = Ok files ->
  exists chunks, Forall2 file_holds files chunks /\ keeps_newest es (concat chunks) /\ len files <= len es
    /\ forall n f, files !! n = Some f -> or_identity (written_ref f) = ObjectIdentity_volume volume fence (next + Z.of_nat n).
Proof using CL LL PL small_pages volume_fits record_fields checksum_fits.
  intros Hn Hok Hl. assert (map_ok (fold_left keep_newest es [])) as Hm by (apply fold_keep_newest_ok; [split; constructor|exact Hok]).
  assert (BatchMeta_ok (archive_batch volume snapshot next)) as Hmeta.
  { destruct record_fields as (H1 & H2 & _). unfold BatchMeta_ok, archive_batch. simpl. unfold fits in *. intuition lia. }
  rewrite (compactor_builder _ _ _ Hmeta Hm).
  replace (List.filter _ _) with (fold_left keep_newest es []) by (symmetry; apply filter_all; intros x _; now destruct x.2).
  set (b := {| bb_meta := _ |}). intros Hf.
  pose proof (keep_newest_len es []) as Hlen. rewrite len_nil in Hlen.
  assert (builder_ok b) as Hb by (split; [exact Hmeta|split; [exact Hm|simpl; lia]]).
  destruct (finish_holds small_pages b files Hb Hf) as [Heq Hh]. destruct (builder_chunks_good small_pages b Hb) as (Hcat & _ & Hch & _).
  exists (builder_chunks b). split; [exact Hh|]. rewrite Hcat. split; [now apply merged_keeps_newest|].
  unfold len in *. rewrite (Forall2_length _ _ _ Hh). split; [simpl in Hch; lia|].
  intros n f Hnf. rewrite Heq in Hnf. apply chunk_objects_nth in Hnf as (ch & _ & ->). reflexivity.
Qed.

Lemma put_compacted_Ok chunks objects w w' out out' :
  Forall2 file_holds objects chunks ->
  act_fold (put_compacted env) out objects w = (w', Ok out') ->
  out' = out ++ map written_ref objects /\ Forall2 (stored (aw_store w')) (map written_ref objects) chunks.
Proof using CL LL PL small_pages others.
  intros Hh H. assert (forall f, In f objects -> exists es, file_holds f es) as Hall.
  { intros f [n Hn]%list_elem_of_In%list_elem_of_lookup. destruct (Forall2_lookup_l _ _ _ _ _ Hh Hn) as (es & _ & He). eauto. }
  apply (act_fold_Ok (fun done w acc => acc = out ++ map written_ref done
    /\ forall f, In f done -> aw_store w !! ObjectIdentity_store_key (or_identity (written_ref f)) = Some (bo_bytes f))) with (done := []) in H.
  - destruct H as [-> H]. split; [reflexivity|]. simpl in H. apply Forall2_fmap_l.
    apply Forall2_same_length_lookup_2; [exact (Forall2_length _ _ _ Hh)|]. intros n f es Hf He.
    exists f. split; [apply H; now apply list_elem_of_In, list_elem_of_lookup_2 with n|].
    split; [exact (Forall2_lookup_lr _ _ _ _ _ _ Hh Hf He)|reflexivity].
  - intros done f s acc s' acc' Hf [-> Hs] Hstep.
    assert (kept (aw_store s) (aw_store s')) as Hk.
    { refine (kept_after ((put_compacted env) _ f) _ _ _ _ Hstep). unfold put_compacted. steady. now apply steady_put_immutable. }
    destruct (Hall f Hf) as [es Hes]. unfold put_compacted in Hstep. apply act_bind_Ok in Hstep as (s1 & o & [-> Ho]%act_lift_Ok & Hstep).
    destruct (ObjectRef_from_blx f) as [o'| |] eqn:Ef in Ho; try discriminate. injection Ho as <-. apply (from_blx_written small_pages _ _ _ Hes) in Ef as ->.
    apply act_bind_Ok in Hstep as (s1 & [] & Hput & Hstep). apply act_bind_Ok in Hstep as (s2 & u & ->%interrupted_Ok & Hstep).
    injection Hstep as -> <-. split; [now rewrite map_app, app_assoc_r|]. intros g. rewrite in_app_iff. intros [Hg|[<-|[]]].
    + apply Hk; [apply file_not_pending|now apply Hs].
    + exact (put_immutable_Ok env others _ _ _ _ Hput).
  - split; [now rewrite app_nil_r|easy].
Qed.

(** What the groups compacted so far have left. *)
Record compacted (start : Z) (done : list ObjectRef) (w : ArchiveWorld) (next : Z) (out : list ObjectRef) (ess : list (list BlxEntry)) : Prop := {
  cp_stored : Forall2 (stored (aw_store w)) out ess;
  cp_newest : keeps_newest (entries done) (concat ess);
  cp_next : next = start + len out;
  cp_fits : next < W64;
  cp_count : len out <= len (entries done);
  cp_ids n o : out !! n = Some o -> or_identity o = ObjectIdentity_volume volume fence (start + Z.of_nat n) }.
Lemma compact_group_Ok start w0 done references w next out ess w' next' out' : 0 <= start ->
  (forall o, In o references -> stored_in w0 o) -> len (entries references) < W32 -> kept (aw_store w0) (aw_store w) ->
  compacted start done w next out ess ->
  compact_group env volume snapshot (next, out) references w = (w', Ok (next', out')) ->
  exists ess', compacted start (done ++ references) w' next' out' ess'.
Proof using CL LL PL small_pages others volume_fits record_fields checksum_fits.
  intros Hstart Hst Hl Hk [H1 H2 H3 H4 H5 H6] H. pose proof (len_nonneg out).
  pose proof (kept_after _ _ _ _ (steady_group env volume others snapshot (next, out) references) H) as Hk'.
  unfold compact_group in H. apply act_bind_Ok in H as (w1 & u & ->%interrupted_Ok & H). apply act_bind_Ok in H as (w1 & newest & Hadd & H).
  pose proof (add_inputs_Ok w0 references w w1 newest Hst Hk Hadd) as ->.
  apply act_bind_Ok in H as (w2 & objects & [-> Hfin]%act_lift_Ok & H).
  apply act_bind_Ok in H as (w2 & nx & [-> Hnx]%act_lift_Ok & H). apply act_bind_Ok in H as (w2 & cf & Hput & H). injection H as -> <- <-.
  assert (Forall BlxEntry_ok (entries references)) as Hok.
  { apply List.Forall_forall. intros e (es & (o & <- & Ho)%in_map_iff & He)%in_concat.
    destruct (stored_ok small_pages _ _ _ (Hst o Ho)) as (_ & _ & Hf). rewrite List.Forall_forall in Hf. auto. }
  destruct (BlxCompactor_finish _ _ _) as [objects'| |] eqn:Ef in Hfin; try discriminate. injection Hfin as ->.
  apply group_output in Ef as (chunks & Hh & Hkn & Hlen & Hid); [|lia|exact Hok|exact Hl].
  destruct (checked_add W64 next (len objects)) as [x|] eqn:Ea; [|discriminate]. injection Hnx as ->. apply checked_add_inv in Ea as [-> Ha].
  destruct (put_compacted_Ok chunks objects w1 w' out cf Hh Hput) as [-> Hnew]. exists (ess ++ chunks). split.
  - apply Forall2_app; [|exact Hnew]. eapply Forall2_impl; [exact H1|]. intros o es. now apply stored_kept.
  - rewrite map_app, !concat_app. now apply keeps_newest_app.
  - rewrite len_app, len_map. lia.
  - exact Ha.
  - rewrite map_app, concat_app, !len_app, len_map. lia.
  - intros n o [Hn|[Hge Hn]]%lookup_app_Some; [now apply H6|]. apply list_lookup_fmap_Some in Hn as (f & -> & Hf).
    rewrite (Hid _ _ Hf). f_equal. rewrite H3. unfold len. lia.
Qed.

Lemma ids_sorted out : forall start,
  (forall n o, out !! n = Some o -> or_identity o = ObjectIdentity_volume volume fence (start + Z.of_nat n)) -> bt_sorted (by_identity out).
Proof.
  induction out as [|o out IH]; intros start Hid; [constructor|]. constructor.
  - apply (IH (start + 1)). intros n x Hn. rewrite (Hid (S n) x Hn). f_equal. lia.
  - apply List.Forall_forall. intros [k x] [-> [n Hn]%list_elem_of_In%list_elem_of_lookup]%In_by_identity.
    unfold bt_lt. cbn [fst]. rewrite (Hid 0%nat o eq_refl), (Hid (S n) x Hn).
    unfold cmp, ObjectIdentity_ord, ObjectIdentity_fields, cmp, prod_ord, cmp_then, cmp, Z_ord. simpl.
    rewrite !Z.compare_refl. apply Z.compare_lt_iff. lia.
Qed.
Lemma entries_perm a b : a ≡ₚ b -> len (entries a) = len (entries b) /\ forall e, In e (entries a) <-> In e (entries b).
Proof.
  intros Hp. assert (entries a ≡ₚ entries b) as He by (now rewrite Hp). split; [unfold len; now rewrite He|].
  intros e. rewrite <- !list_elem_of_In. now rewrite He.
Qed.
Lemma len_entries_part (x : list ObjectRef) ls : In x ls -> len (entries x) <= len (entries (concat ls)).
Proof.
  induction ls as [|l ls IH]; simpl; [easy|]. rewrite map_app, concat_app, len_app. pose proof (len_nonneg (entries l)).
  pose proof (len_nonneg (entries (concat ls))). intros [->|H1%IH]; lia.
Qed.
Lemma compact_archive_Ok files w w' out :
  (forall o, In o files -> stored_in w o) -> len (entries files) < W32 ->
  compact_archive env volume snapshot files w = (w', Ok out) ->
  exists start next ess, compaction_object_id_start (jr_seq (ps_record snapshot)) = Some start
    /\ compacted start files w' next out ess /\ combined_valid snapshot out = true /\ chain_valid snapshot out = true.
Proof using CL LL PL small_pages others volume_fits record_fields checksum_fits.
  intros Hst Hl H. unfold compact_archive in H. apply act_bind_Ok in H as (w1 & groups & [-> Hg]%act_lift_Ok & H).
  apply act_bind_Ok in H as (w1 & start & [-> Hs]%act_lift_Ok & H). apply act_bind_Ok in H as (w1 & [next cf] & Hfold & H).
  destruct (compaction_object_id_start _) as [start'|] eqn:Es in Hs; [|discriminate]. injection Hs as ->.
  destruct (compaction_start_Some (jr_seq (ps_record snapshot)) start) as [Hseq Hpos]; [apply record_fields|exact Es|].
  assert (0 <= jr_seq (ps_record snapshot)) as Hjs by apply record_fields.
  apply group_references in Hg; [|constructor]. simpl in Hg. destruct (entries_perm _ _ Hg) as [Hlen Hin].
  apply (act_fold_Ok (fun done w1 acc => kept (aw_store w) (aw_store w1) /\ exists ess, compacted start (concat done) w1 acc.1 acc.2 ess))
    with (done := []) in Hfold.
  - destruct Hfold as [Hk (ess & Hc)]. simpl in Hc. destruct (combined_valid snapshot cf) eqn:Ecv; [|discriminate].
    destruct (chain_valid snapshot cf) eqn:Ech; [|discriminate]. injection H as -> ->. exists start, next, ess.
    split; [exact Es|]. split; [|now split]. destruct Hc as [H1 H2 H3 H4 H5 H6]. split; auto; [|lia].
    eapply keeps_newest_trans; [|exact H2]. apply keeps_newest_same. intros e. symmetry. apply Hin.
  - intros done x s [nx acc] s' [nx' acc'] Hx [Hk (ess & Hc)] Hstep.
    pose proof (kept_after _ _ _ _ (steady_group env volume others snapshot (nx, acc) x) Hstep) as Hk'.
    split; [exact (kept_trans _ _ _ Hk Hk')|]. rewrite concat_app. simpl. rewrite app_nil_r.
    apply (compact_group_Ok start w (concat done) x s nx acc ess); auto; [lia| |].
    + intros o Ho. apply Hst. apply list_elem_of_In. rewrite <- Hg. apply list_elem_of_In, in_concat. eauto.
    + pose proof (len_entries_part x _ Hx). lia.
  - split; [apply kept_refl|]. exists []. split; cbn [concat map fst snd]; rewrite ?len_nil; [apply List.Forall2_nil|now apply keeps_newest_same|lia|lia|apply len_nonneg|easy].
Qed.
End Prepare.
