(* ===== verification/ArchiveRead.v ===== *)
(** * A prepared archive reads back

    What [write_archive] has put into the store under the pointer it returns,
    and the theorem about [prepare_archive] as a whole. *)

From stdpp Require Import gmap.
From Stdlib Require String.
From S2P Require Import Prelude Format Types Sorting OrdMap Text Head Blx BlxFile BlxBatch Manifest Layout.
From S2P Require Import ManifestCodec ManifestOverlap BatchRefs ManifestClosure Journal JournalFormat.
From S2P Require Import ReplicaRecovery StashProtocol ArchivePublish ArchiveSafety ArchiveExact.

#[local] Open Scope Z_scope.
#[local] Open Scope rust_scope.

(** ** Identities within one archive *)
Section Identities.
Context `{C : Crc} `{P : PageSize}.

Lemma inserted_fresh os : forall m m', fold_outcome insert_file m os = Ok m' ->
  forall o, In o os -> bt_get (or_identity o) m = None.
Proof.
  induction os as [|x os IH]; intros m m' H o Ho; [destruct Ho|]. simpl in H. apply outcome_bind_Ok in H as (m1 & H1 & H).
  unfold insert_file in H1. destruct (bt_get (or_identity x) m) eqn:E; [discriminate|]. injection H1 as <-.
  destruct Ho as [<-|Ho]; [exact E|]. specialize (IH _ _ H o Ho).
  destruct (decide (or_identity o = or_identity x)) as [->|Hne]; [exact E|]. now rewrite bt_get_insert_ne in IH.
Qed.
Lemma shape_disjoint m o : validate_manifest_shape m = Ok tt -> In o (m_added m) -> ~ In (or_identity o) (m_removed m).
Proof.
  unfold validate_manifest_shape. destruct (_ || _); [discriminate|]. intros (u & _ & H)%outcome_bind_Ok Ho Hr. cbv zeta in H.
  destruct (_ || existsb _ _) eqn:E; [discriminate|]. apply orb_false_iff in E as [_ E]. apply not_true_iff_false in E. apply E.
  apply existsb_exists. exists (or_identity o). split; [apply bts_collect_keys; now apply in_map|]. apply bt_contains_In. now apply bts_collect_keys.
Qed.
(** An identity of the complete list means one file in the archive. *)
Lemma current_same_identity m l fs o o' : Manifest_current_files m l = Ok fs -> validate_manifest_shape m = Ok tt ->
  In o (list_objects l) -> In o' fs -> or_identity o = or_identity o' -> o = o'.
Proof.
  intros (Hl & (m1 & m2 & H1 & H2 & ->) & _)%current_files_inv Hshape Ho Ho' He.
  pose proof (list_matches_distinct _ _ Hl) as Hnd. destruct (replay_files _ _ _ _ _ Hnd H1 H2) as (_ & _ & Hin). apply Hin in Ho'.
  assert (forall x, In x (list_objects l) -> bt_get (or_identity x) (bt_collect (by_identity (list_objects l))) = Some x) as Hget.
  { intros x Hx. apply bt_get_collect; [now rewrite keys_by_identity|]. now apply In_by_identity. }
  destruct Ho' as [Ha|[Hlist _]].
  - exfalso. pose proof (inserted_fresh _ _ _ H2 o' Ha) as Hn. apply remove_files_spec in H1 as [_ Hg]; [|apply bt_collect_sorted].
    rewrite Hg, <- He in Hn. destruct (decide (In (or_identity o) (m_removed m))) as [Hr|_].
    + apply (shape_disjoint m o' Hshape Ha). now rewrite <- He.
    + rewrite (Hget o Ho) in Hn. discriminate.
  - pose proof (Hget o Ho) as G1. rewrite He, (Hget o' Hlist) in G1. now injection G1.
Qed.
End Identities.

Section Read.
Context `{C : Crc} `{CL : !CrcLaws C} `{L : Lz4} `{LL : !Lz4Laws L} `{P : PageSize} `{PL : !PageSizeLaws P}.
Variables (volume : Z) (snapshot : PublishSnapshot).
Hypothesis volume_fits : fits W64 volume.
Hypothesis record_fields : JournalRecord_fields (ps_record snapshot).
Hypothesis checksum_fits : fits W64 (ps_state_checksum snapshot).
Hypothesis base_fits : option_ok BaseRef_ok (ps_base snapshot).
Implicit Types (st : Objects).

(** ** What the store says under a pointer *)
Definition list_read st (r : option FileListRef) (lb : option bytes) : Prop :=
  match r with
  | None => lb = None
  | Some r => exists bs, lb = Some bs /\ all_bytes bs /\ st !! FileListRef_store_key r volume = Some bs
  end.
Definition archive_reads st (pointer : ManifestPtr) (c : ManifestClosure) : Prop :=
  exists mb lb, st !! ManifestPtr_manifest_key pointer volume = Some mb /\ all_bytes mb
    /\ list_read st (m_complete_list (mc_manifest c)) lb /\ ManifestClosure_decode volume pointer mb lb = Ok c.
Lemma list_read_kept st st' r lb : kept st st' -> list_read st r lb -> list_read st' r lb.
Proof. intros Hk. destruct r as [r|]; [|auto]. intros (bs & H1 & H2 & H3). exists bs. split; [exact H1|]. split; [exact H2|]. apply Hk; [unfold FileListRef_store_key; apply list_not_pending|exact H3]. Qed.
Lemma archive_reads_kept st st' p c : kept st st' -> archive_reads st p c -> archive_reads st' p c.
Proof.
  intros Hk (mb & lb & H1 & H2 & H3 & H4). exists mb, lb. split; [apply Hk; [unfold ManifestPtr_manifest_key, manifest_key; apply manifest_not_pending|exact H1]|].
  split; [exact H2|]. split; [exact (list_read_kept _ _ _ _ Hk H3)|exact H4].
Qed.
Lemma archive_reads_facts st p c : archive_reads st p c ->
  Manifest_ok (mc_manifest c) /\ list_ok_for volume (mc_complete_list c)
  /\ Manifest_current_files (mc_manifest c) (mc_complete_list c) = Ok (mc_files c)
  /\ exists lb, list_read st (m_complete_list (mc_manifest c)) lb /\ list_bytes_of (mc_complete_list c) lb.
Proof using CL PL.
  intros (mb & lb & _ & Hmb & Hl & Hd). apply closure_canonical in Hd as (H1 & _ & _ & _ & H2 & H3 & H4); [|exact Hmb|].
  - split; [exact H1|]. split; [exact H2|]. split; [exact H4|]. exists lb. now split.
  - intros bs ->. destruct (m_complete_list _); simpl in Hl; [|discriminate]. now destruct Hl as (b & [= ->] & Hb & _).
Qed.

Lemma closure_manifest pointer mb lb c : ManifestClosure_decode volume pointer mb lb = Ok c ->
  Manifest_decode volume mb = Ok (mc_manifest c)
  /\ (m_writer_fence (mc_manifest c), m_journal_seq (mc_manifest c), m_archive_seq (mc_manifest c), m_capture_seq (mc_manifest c))
     = (mp_fence pointer, mp_journal_seq pointer, mp_seq pointer, mp_capture_seq pointer).
Proof.
  unfold ManifestClosure_decode. destruct (negb (_ =? _)); [discriminate|]. intros (m & -> & Hd)%outcome_bind_Ok.
  case_bool_decide as Hp; [|discriminate]. apply outcome_bind_Ok in Hd as (l & _ & Hd). now apply outcome_bind_Ok in Hd as (fs & _ & [= <-]).
Qed.

(** A manifest and a list that are valid and encode are read back. *)
Lemma encoded_ok m mb : prefix_ok m -> Forall ObjectRef_ok (m_added m) -> Forall ObjectIdentity_ok (m_removed m) ->
  Manifest_encode m = Ok mb -> Manifest_ok m /\ all_bytes mb.
Proof using CL PL.
  intros Hp Ha Hr He. assert (Manifest_ok m) as Hok.
  { split; [exact Hp|]. split; [exact Ha|]. split; [exact Hr|]. pose proof He as Hb%Manifest_encode_bound. unfold Manifest_encode, assert_manifest_shape in He.
    destruct (validate_manifest_shape m) as [[]| |]; try discriminate. split; [reflexivity|]. cbn [is_ok outcome_bind] in He.
    do 3 (destruct (_ <? _); [|discriminate]). apply outcome_bind_Ok in He as (bs & [_ ->]%seal_frame_inv & He).
    destruct (_ <? _); [discriminate|]. injection He as <-. now rewrite len_frame_bytes in Hb. }
  split; [exact Hok|]. destruct (format_writes (ExactFormat := Manifest_format (m_volume m)) m) as (bs & Hb & Hall & _); [auto|].
  rewrite He in Hb. now injection Hb as ->.
Qed.
Lemma encoded_list_ok {E} fence' id files bs : fits W64 fence' -> fits W64 id -> Forall ObjectRef_ok files ->
  let l := {| cfl_volume := volume; cfl_writer_fence := fence'; cfl_list_id := id; cfl_objects := files |} in
  @CompleteFileList_encode _ _ E l = Ok bs ->
  CompleteFileList_ok l /\ all_bytes bs /\ @CompleteFileList_encode _ _ DecodeError l = Ok bs
  /\ forall E', @CompleteFileList_reference _ _ E' l = Ok {| fl_writer_fence := fence'; fl_list_id := id; fl_checksum := checksum64 bs |}.
Proof using CL PL volume_fits.
  intros Hf Hi Ho l He. pose proof He as (H1 & Heq & H2)%CompleteFileList_encode_inv.
  assert (CompleteFileList_ok l) as Hok by exact (conj volume_fits (conj Hf (conj Hi (conj Ho (conj H1 H2))))). split; [exact Hok|].
  assert (forall E', @CompleteFileList_encode _ _ E' l = Ok bs) as Henc by (intros E'; rewrite CompleteFileList_encode_eq by exact Hok; now rewrite Heq).
  destruct (bound_writes (BoundFormat := CompleteFileList_format volume) l) as (bs' & r & Hb & Hall & _); [auto|].
  rewrite Henc in Hb. injection Hb as <-. split; [exact Hall|]. split; [apply Henc|]. intros E'. unfold CompleteFileList_reference. now rewrite Henc.
Qed.

(** ** The manifest that is written *)
Abbreviation fence := (jr_fence (ps_record snapshot)).
Definition metadata (c : ManifestClosure) : Manifest * option CompleteFileList := (mc_manifest c, mc_complete_list c).
Definition prior_list (previous : option ManifestClosure) : option CompleteFileList :=
  match previous with Some c => mc_complete_list c | None => None end.
Definition previous_ok (previous : option ManifestClosure) : Prop :=
  forall c, previous = Some c -> Manifest_ok (mc_manifest c) /\ list_ok_for volume (mc_complete_list c)
    /\ Manifest_current_files (mc_manifest c) (mc_complete_list c) = Ok (mc_files c).
(** Files that may become the archive. *)
Record publishable (previous : option ManifestClosure) (files : list ObjectRef) : Prop := {
  pb_sorted : bt_sorted (by_identity files);
  pb_refs : Forall ObjectRef_ok files;
  pb_valid : validate_object_refs files = Ok tt;
  pb_chain : chain_valid snapshot files = true;
  pb_same o o' : In o (list_objects (prior_list previous)) -> In o' files -> or_identity o = or_identity o' -> o = o' }.

Lemma archive_prefix_ok seq rb cl added removed : fits W64 seq -> option_ok FileListRef_ok cl ->
  prefix_ok (archive_manifest volume snapshot seq rb cl added removed).
Proof using CL volume_fits record_fields checksum_fits base_fits.
  intros Hs Hcl. pose proof (checksum64_range rb) as Hrb. assert (fits W64 0) as H0 by (unfold fits; lia).
  destruct record_fields as (F1 & F2 & F3 & F4 & F5 & F6 & F7 & F8 & _ & _ & F9 & _).
  assert (fits W64 (recovery_metadata (ps_record snapshot)).1.2 /\ fits W64 (recovery_metadata (ps_record snapshot)).2) as [Hm1 Hm2].
  { unfold recovery_metadata. destruct (jr_kind _) as [|epoch vmstate length]; [auto|]. destruct F3 as (? & ? & ?). destruct (_ && _); auto. }
  unfold archive_manifest. destruct (recovery_metadata _) as [[kind epoch] length]. unfold prefix_ok.
  cbn [m_volume m_writer_fence m_journal_seq m_archive_seq m_capture_seq m_sync_covered_through m_checkpoint_epoch m_config
    m_vmstate_logical_length m_base m_complete_list m_post_state_checksum m_metadata_checksum fst snd] in *.
  unfold VolumeConfig_valid in F9. apply Z.ltb_lt in F9. unfold VolumeConfig_ok, fits in *. repeat split; try assumption; lia.
Qed.
Lemma archive_seq_fits previous : previous_ok previous -> fits W64 (archive_seq_of (option_map metadata previous)).
Proof.
  intros Hp. destruct previous as [c|]; simpl; [|unfold fits; lia]. destruct (Hp c eq_refl) as (((_ & _ & _ & Hs & _) & _) & _).
  unfold saturating_add, fits in *. lia.
Qed.
Lemma archive_state_chain seq rb cl added removed files : chain_valid snapshot files = true ->
  validate_state_chain (archive_manifest volume snapshot seq rb cl added removed) files = Ok tt.
Proof.
  unfold chain_valid, validate_state_chain, archive_manifest. destruct (recovery_metadata _) as [[kind epoch] length].
  cbn [m_base m_post_state_checksum]. now destruct (validate_file_state_chain _ _ _) as [[]| |].
Qed.
Lemma archive_manifest_changes seq rb cl added removed : let m := archive_manifest volume snapshot seq rb cl added removed in
  m_volume m = volume /\ m_writer_fence m = fence /\ m_complete_list m = cl /\ m_added m = added /\ m_removed m = removed.
Proof. unfold archive_manifest. now destruct (recovery_metadata _) as [[kind epoch] length]. Qed.

Lemma changes_files previous files cl added removed nl seq rb :
  previous_ok previous -> publishable previous files -> fits W64 seq ->
  archive_changes volume snapshot (option_map metadata previous) files = Ok (cl, added, removed, nl) ->
  let m := archive_manifest volume snapshot seq rb cl added removed in
  let l := match nl with Some l => Some l | None => prior_list previous end in
  Manifest_current_files m l = Ok files /\ prefix_ok m /\ Forall ObjectRef_ok added /\ Forall ObjectIdentity_ok removed /\ list_ok_for volume l
  /\ (nl <> None -> prior_list previous = None /\ m_complete_list m <> None).
Proof using CL PL volume_fits record_fields checksum_fits base_fits.
  intros Hp [H1 H2 H3 H4 H5] Hseq Hc. cbv zeta. destruct record_fields as (F1 & F2 & _).
  destruct (archive_manifest_changes seq rb cl added removed) as (Hm1 & Hm2 & Hm3 & Hm4 & Hm5).
  destruct previous as [c|]; cbn [option_map] in Hc.
  - unfold archive_changes, metadata in Hc. injection Hc as <- <- <- <-. destruct (Hp c eq_refl) as (Ho & Hl & Hf). cbn [prior_list] in *.
    destruct (current_files_inv _ _ _ Hf) as (Hmatch & _). fold (by_identity (list_objects (mc_complete_list c))) (by_identity files) in *.
    rewrite (bt_collect_id (by_identity files)) in * by exact H1. fold (added_to (mc_complete_list c) files) (removed_from (mc_complete_list c) files) in *.
    split; [|split; [|split; [|split; [|split; [exact Hl|easy]]]]].
    + apply changes_current; auto; [|now apply archive_state_chain]. unfold list_matches in *. now rewrite Hm3.
    + apply archive_prefix_ok; [exact Hseq|]. destruct Ho as [Hpre _]. apply Hpre.
    + apply List.Forall_forall. intros o [Ho' _]%In_added. rewrite List.Forall_forall in H2. auto.
    + apply List.Forall_forall. intros k [(o & Ho' & ->) _]%In_removed; [|exact (list_matches_distinct _ _ Hmatch)].
      destruct (mc_complete_list c) as [l|]; [|destruct Ho']. destruct Hl as (_ & _ & _ & _ & Hall & _). rewrite List.Forall_forall in Hall. now apply Hall in Ho' as [? _].
  - unfold archive_changes in Hc. apply outcome_bind_Ok in Hc as (r & Hr & Hc). injection Hc as <- <- <- <-.
    unfold CompleteFileList_reference in Hr. apply outcome_bind_Ok in Hr as (bs & He & Hr). injection Hr as <-.
    apply encoded_list_ok in He as (Hok & Hall & Henc & Href); [|assumption..].
    split; [|split; [|split; [constructor|split; [constructor|split; [now split|]]]]].
    + apply current_files_of_list; auto; [now rewrite Hm3| |now apply archive_state_chain]. unfold list_matches. rewrite Hm3. apply Href.
    + apply archive_prefix_ok; [exact Hseq|]. simpl. split; [exact F2|]. split; [exact F1|apply checksum64_range].
    + intros _. split; [reflexivity|]. now rewrite Hm3.
Qed.

(** Bounding keeps the position and the configuration of a manifest. *)
Definition same_publication (a b : Manifest) : Prop := Manifest_with_list a no_list = Manifest_with_list b no_list.
Lemma bounded_files m prior nl files seq b mb :
  let l := match nl with Some l => Some l | None => prior end in
  Manifest_current_files m l = Ok files -> prefix_ok m -> Forall ObjectRef_ok (m_added m) -> Forall ObjectIdentity_ok (m_removed m) ->
  list_ok_for volume l -> (nl <> None -> prior = None /\ m_complete_list m <> None) -> m_volume m = volume -> fits W64 seq ->
  Forall ObjectRef_ok files -> bound_manifest m prior seq = Ok b -> Manifest_encode (bd_manifest b) = Ok mb ->
  let fl := match bd_new_complete_list b with Some x => Some x | None => l end in
  Manifest_current_files (bd_manifest b) fl = Ok files /\ Manifest_ok (bd_manifest b) /\ all_bytes mb /\ list_ok_for volume fl
  /\ same_publication (bd_manifest b) m.
Proof using CL PL volume_fits.
  cbv zeta. intros Hf Hp Ha Hr Hl Hnl Hv Hs Ho Hb He. pose proof Hb as Hb'. unfold bound_manifest in Hb.
  destruct (Manifest_encode m) as [mb0|e|] eqn:Em; [| |discriminate].
  - injection Hb as <-. cbn [bd_manifest bd_new_complete_list] in *. destruct (encoded_ok m mb Hp Ha Hr He). split; [exact Hf|].
    split; [assumption|]. split; [assumption|]. split; [assumption|]. reflexivity.
  - destruct nl as [x|].
    { exfalso. destruct (Hnl ltac:(discriminate)) as [-> Hn]. destruct (Manifest_current_files m None) as [fs| |] eqn:Ec; try discriminate.
      apply current_files_inv in Ec as (Hm & _). unfold list_matches in Hm. destruct (m_complete_list m); [destruct Hm|now apply Hn]. }
    destruct (bound_manifest_files m prior seq b files Hb' Hf) as (_ & _ & Hfin).
    rewrite Hf in Hb. cbn [outcome_bind] in Hb. apply outcome_bind_Ok in Hb as (r & Href & Hb). apply outcome_bind_Ok in Hb as (bs & _ & Hb).
    injection Hb as <-. cbn [bd_manifest bd_new_complete_list] in *. unfold CompleteFileList_reference in Href. rewrite Hv in Href.
    apply outcome_bind_Ok in Href as (lb & Hlb & Hr'). injection Hr' as <-. pose proof Hp as (_ & Hfe & _).
    apply encoded_list_ok in Hlb as (Hok & Hall & Henc & Href); [|assumption..].
    assert (prefix_ok (Manifest_with_list m {| fl_writer_fence := m_writer_fence m; fl_list_id := seq; fl_checksum := checksum64 lb |})) as Hp'.
    { unfold prefix_ok in *. cbn. pose proof (checksum64_range lb). unfold FileListRef_ok. cbn. tauto. }
    destruct (encoded_ok _ mb Hp' (List.Forall_nil _) (List.Forall_nil _) He) as [Hmok Hmb].
    split; [exact Hfin|]. split; [exact Hmok|]. split; [exact Hmb|]. split; [|reflexivity]. rewrite Hv. now split.
Qed.

(** ** The list and the manifest are in the store *)
Definition list_stored st (l : option CompleteFileList) : Prop :=
  match l with
  | None => True
  | Some x => exists bs, @CompleteFileList_encode _ _ DecodeError x = Ok bs /\ all_bytes bs /\ st !! CompleteFileList_store_key x = Some bs
  end.
Lemma list_stored_kept st st' l : kept st st' -> list_stored st l -> list_stored st' l.
Proof.
  intros Hk. destruct l as [x|]; [|easy]. intros (bs & H1 & H2 & H3). exists bs. split; [exact H1|]. split; [exact H2|].
  apply Hk; [unfold CompleteFileList_store_key; apply list_not_pending|exact H3].
Qed.
Lemma list_stored_read st m l : list_matches m l -> list_ok_for volume l -> list_stored st l ->
  exists lb, list_read st (m_complete_list m) lb /\ list_bytes_of l lb.
Proof.
  unfold list_matches. destruct (m_complete_list m) as [r|], l as [x|]; simpl; try easy; [|intros _ _ _; now exists None].
  intros Hr [Hv _] (bs & He & Hb & Hst). unfold CompleteFileList_reference in Hr. rewrite He in Hr. injection Hr as <-.
  exists (Some bs). split; [|exact He]. exists bs. split; [reflexivity|]. split; [exact Hb|].
  unfold FileListRef_store_key, CompleteFileList_store_key in *. now rewrite Hv in Hst.
Qed.
Lemma list_read_stored st m l lb : list_matches m l -> list_ok_for volume l ->
  list_read st (m_complete_list m) lb -> list_bytes_of l lb -> list_stored st l.
Proof.
  unfold list_matches. destruct (m_complete_list m) as [r|], l as [x|]; simpl; try easy.
  intros Hr [Hv _] (bs & -> & Hb & Hst) He. unfold CompleteFileList_reference in Hr. rewrite He in Hr. injection Hr as <-.
  exists bs. split; [exact He|]. split; [exact Hb|]. unfold FileListRef_store_key, CompleteFileList_store_key in *. now rewrite Hv.
Qed.

Variable env : ArchiveEnv.
Hypothesis others : preserving env.

Lemma put_list_Ok l w w' u :
  (match l with
   | Some x => let! bs := act_lift (CompleteFileList_encode x) in
               let! _ := put_immutable_retry env (CompleteFileList_store_key x) bs in unless_interrupted env
   | None => act_ret tt
   end) w = (w', Ok u) ->
  list_ok_for volume l -> kept (aw_store w) (aw_store w') /\ list_stored (aw_store w') l.
Proof using CL PL others.
  destruct l as [x|]; [|intros [= <- _] _; split; [apply kept_refl|exact I]]. intros H [Hv Hok].
  apply act_bind_Ok in H as (w1 & bs & [-> He]%act_lift_Ok & H). apply act_bind_Ok in H as (w1 & [] & Hput & ->%interrupted_Ok).
  split; [exact (steady_put_immutable env others _ _ _ _ _ Hput)|].
  destruct (bound_writes (BoundFormat := CompleteFileList_format volume) x) as (bs' & r & Hb & Hall & _); [auto|].
  rewrite CompleteFileList_encode_eq in He by exact Hok. rewrite CompleteFileList_encode_eq in Hb by exact Hok.
  injection He as <-. injection Hb as <-. eexists. split; [now apply CompleteFileList_encode_eq|]. split; [exact Hall|].
  exact (put_immutable_Ok env others _ _ _ _ Hput).
Qed.
Lemma write_archive_Ok previous files w w' pointer :
  previous_ok previous -> publishable previous files -> list_stored (aw_store w) (prior_list previous) ->
  write_archive env volume snapshot (option_map metadata previous) files w = (w', Ok pointer) ->
  exists c rb, archive_reads (aw_store w') pointer c /\ mc_files c = files
    /\ @JournalRecord_encode _ _ unit (ps_record snapshot) volume = Ok rb
    /\ same_publication (mc_manifest c) (archive_manifest volume snapshot (archive_seq_of (option_map metadata previous)) rb None [] []).
Proof using CL PL volume_fits record_fields checksum_fits base_fits others.
  intros Hp Hpub Hls H. unfold write_archive in H. apply act_bind_Ok in H as (w1 & [[[cl added] removed] nl] & [-> Hc]%act_lift_Ok & H).
  apply act_bind_Ok in H as (w1 & rb & [-> Hrb]%act_lift_Ok & H). cbv zeta in H. pose proof (archive_seq_fits _ Hp) as Hseq.
  set (seq := archive_seq_of _) in *. destruct (changes_files previous files cl added removed nl seq rb Hp Hpub Hseq Hc) as (Hcf & Hpre & Had & Hre & Hlok & Hnl).
  destruct (archive_manifest_changes seq rb cl added removed) as (Hm1 & _ & _ & Hm4 & Hm5).
  assert (same_publication (archive_manifest volume snapshot seq rb cl added removed) (archive_manifest volume snapshot seq rb None [] [])) as Hsame.
  { unfold same_publication, archive_manifest. now destruct (recovery_metadata _) as [[? ?] ?]. }
  set (m := archive_manifest _ _ _ _ cl _ _) in *.
  apply act_bind_Ok in H as (w1 & b & [-> Hb]%act_lift_Ok & H). destruct (bound_manifest _ _ _) as [b'| |] eqn:Eb in Hb; try discriminate. injection Hb as ->.
  apply act_bind_Ok in H as (w1 & u1 & Hput1 & H). apply act_bind_Ok in H as (w2 & mb & [-> Hmb]%act_lift_Ok & H).
  destruct (Manifest_encode (bd_manifest b)) as [mb'| |] eqn:Em in Hmb; try discriminate. injection Hmb as ->.
  replace (match option_map metadata previous with Some (_, list) => list | None => None end) with (prior_list previous) in Eb by now destruct previous.
  destruct (bounded_files m (prior_list previous) nl files seq b mb Hcf Hpre) as (Hbf & Hbok & Hball & Hblok & Hbsame); auto; try (now rewrite ?Hm4, ?Hm5); [apply Hpub|].
  set (fl := match bd_new_complete_list b with Some x => Some x | None => match nl with Some l => Some l | None => prior_list previous end end) in *.
  assert (kept (aw_store w) (aw_store w1) /\ list_stored (aw_store w1) fl) as [Hk1 Hfl].
  { apply put_list_Ok in Hput1.
    - destruct Hput1 as [Hk Hs]. split; [exact Hk|]. pose proof (list_stored_kept _ _ _ Hk Hls). subst fl. destruct (bd_new_complete_list b); [exact Hs|]. now destruct nl.
    - subst fl. destruct (bd_new_complete_list b); [exact Hblok|]. destruct nl; [exact Hblok|exact I]. }
  apply act_bind_Ok in H as (w2 & u2 & Hpend & H). apply act_bind_Ok in H as (w3 & u3 & ->%interrupted_Ok & H).
  apply act_bind_Ok in H as (w3 & [] & Hman & H). injection H as <- <-.
  assert (kept (aw_store w1) (aw_store w3)) as Hk2.
  { apply (kept_trans _ (aw_store w2)); [exact (steady_put_pending env volume others _ _ _ _ _ Hpend)|exact (steady_put_immutable env others _ _ _ _ _ Hman)]. }
  destruct (current_files_inv _ _ _ Hbf) as (Hmatch & _).
  destruct (list_stored_read (aw_store w3) (bd_manifest b) fl Hmatch Hblok (list_stored_kept _ _ _ Hk2 Hfl)) as (lb & Hlr & Hlb).
  assert (m_volume (bd_manifest b) = volume) as Hbv by (apply (f_equal m_volume) in Hbsame; cbn in Hbsame; congruence).
  exists {| mc_manifest := bd_manifest b; mc_complete_list := fl; mc_files := files |}, rb.
  split; [|split; [reflexivity|split; [exact Hrb|exact (eq_trans Hbsame Hsame)]]].
  exists mb, lb. split; [exact (put_immutable_Ok env others _ _ _ _ Hman)|]. split; [exact Hball|]. split; [exact Hlr|].
  pose proof (closure_run (bd_manifest b) fl mb lb Hbok) as Hrun. rewrite Hbv in Hrun. rewrite Hrun by assumption. now rewrite Hbf.
Qed.
End Read.

(** ** [prepare_archive] *)
Section Archive.
Context `{C : Crc} `{CL : !CrcLaws C} `{L : Lz4} `{LL : !Lz4Laws L} `{P : PageSize} `{PL : !PageSizeLaws P}.
Hypothesis small_pages : page_size <= 16 * 1024 * 1024.

Definition previous_files (previous : option ManifestClosure) : list ObjectRef :=
  match previous with Some c => mc_files c | None => [] end.
Definition frontier_of (previous : option ManifestClosure) : option (Z * Z) :=
  match previous with Some c => Some (m_writer_fence (mc_manifest c), m_journal_seq (mc_manifest c)) | None => None end.
(** The object ids that belong to compactions of this record. *)
Definition reserved (record : JournalRecord) (i : ObjectIdentity) : Prop :=
  exists start, compaction_object_id_start (jr_seq record) = Some start
    /\ oi_writer_fence i = jr_fence record /\ start <= oi_object_id i < start + W32.

(** The world in which an archive is prepared: a valid record, the previous
    archive with its files in the store, local files that the engine wrote. *)
Record archive_setting (env : ArchiveEnv) (volume : Z) (snapshot : PublishSnapshot) (st : Objects)
    (previous : option ManifestClosure) (content : ObjectRef -> list BlxEntry) : Prop := {
  as_others : preserving env;
  as_volume : fits W64 volume;
  as_record : JournalRecord_fields (ps_record snapshot);
  as_checksum : fits W64 (ps_state_checksum snapshot);
  as_base : option_ok BaseRef_ok (ps_base snapshot);
  as_base_files o : In o (ps_base_objects snapshot) -> ObjectRef_ok o /\ of_volume volume (or_identity o) = false;
  as_base_few : len (ps_base_objects snapshot) < W32;
  as_refs o : In o (ps_blx_refs snapshot) -> of_volume volume (or_identity o) = true;
  as_local : local_files env volume snapshot content;
  as_previous : match ps_backed snapshot, previous with
                | None, None => True
                | Some pointer, Some c => archive_reads volume st pointer c
                | _, _ => False
                end;
  as_stored o : In o (previous_files previous) -> stored st o (content o) /\ of_volume volume (or_identity o) = true;
  as_identities o o' : In o (list_objects (prior_list previous)) -> In o' (ps_blx_refs snapshot) ->
    or_identity o = or_identity o' -> o = o';
  as_unreserved o : In o (list_objects (prior_list previous)) -> ~ reserved (ps_record snapshot) (or_identity o);
  as_few : len (concat (map content (previous_files previous ++ ps_blx_refs snapshot))) < W32 }.

Section Setting.
Variables (env : ArchiveEnv) (volume : Z) (snapshot : PublishSnapshot) (st : Objects) (previous : option ManifestClosure)
  (content : ObjectRef -> list BlxEntry).
Hypothesis S : archive_setting env volume snapshot st previous content.

Lemma setting_previous_ok : previous_ok volume previous.
Proof using CL PL S.
  intros c ->. pose proof (as_previous _ _ _ _ _ _ S) as Hp. destruct (ps_backed snapshot); [|destruct Hp].
  now apply archive_reads_facts in Hp as (? & ? & ? & _).
Qed.
Lemma setting_list_stored : list_stored st (prior_list previous).
Proof using CL PL S.
  pose proof (as_previous _ _ _ _ _ _ S) as Hp. destruct (ps_backed snapshot), previous as [c|]; [|contradiction|contradiction|exact I].
  apply archive_reads_facts in Hp as (_ & Hl & Hf & lb & Hr & Hb). destruct (current_files_inv _ _ _ Hf) as (Hm & _). exact (list_read_stored _ _ _ _ _ Hm Hl Hr Hb).
Qed.
Lemma load_Ok w w' r : aw_store w = st -> load_archive_metadata env volume (ps_backed snapshot) w = (w', Ok r) -> r = option_map metadata previous.
Proof using S.
  intros <- H. pose proof (as_others _ _ _ _ _ _ S) as Ho. pose proof (as_previous _ _ _ _ _ _ S) as Hp.
  destruct (ps_backed snapshot) as [p|], previous as [c|]; [|contradiction|contradiction|now injection H as _ <-]. cbn [load_archive_metadata] in H.
  destruct Hp as (mb & lb & Hmb & _ & Hlb & Hd).
  destruct (closure_manifest _ _ _ _ _ Hd) as [Hm _].
  apply act_bind_Ok in H as (w1 & bs & Hg & H). pose proof (steady_get_retry env Ho _ _ _ _ Hg) as Hk1. apply get_retry_Ok in Hg; [|exact Ho].
  unfold ManifestPtr_manifest_key, manifest_key in Hmb, Hg. rewrite (Hk1 _ _ (manifest_not_pending _ _ _) Hmb) in Hg. injection Hg as <-.
  apply act_bind_Ok in H as (w2 & m & [-> Hm']%act_lift_Ok & H). rewrite Hm in Hm'. injection Hm' as <-.
  apply act_bind_Ok in H as (w2 & lb' & Hl & H). apply act_bind_Ok in H as (w3 & c' & [-> Hd']%act_lift_Ok & H). injection H as _ <-.
  assert (lb' = lb) as ->; [|now rewrite Hd in Hd'; injection Hd' as <-].
  unfold list_read in Hlb. destruct (m_complete_list (mc_manifest c)) as [ref|]; [|injection Hl as _ <-; now rewrite Hlb].
  destruct Hlb as (bs & -> & _ & Hst). apply act_bind_Ok in Hl as (w3 & bs' & Hg & Hl). injection Hl as _ <-.
  pose proof (steady_get_retry env Ho _ _ _ _ Hg) as Hk2. apply get_retry_Ok in Hg; [|exact Ho].
  unfold FileListRef_store_key in Hst, Hg. rewrite (kept_trans _ _ _ Hk1 Hk2 _ _ (list_not_pending _ _ _) Hst) in Hg. now injection Hg as <-.
Qed.

Lemma own_valid files : Forall ObjectRef_ok files -> (forall o, In o files -> of_volume volume (or_identity o) = true) -> len files < W32 ->
  combined_valid snapshot files = true -> validate_object_refs files = Ok tt.
Proof using S.
  intros Hok Hv Hl Hc. rewrite List.Forall_forall in Hok. pose proof (as_base_files _ _ _ _ _ _ S) as Hb. pose proof (as_base_few _ _ _ _ _ _ S).
  apply (validate_suffix (ps_base_objects snapshot)).
  - intros o Ho. assert (ObjectRef_ok o) as Ho' by (apply in_app_iff in Ho as [Ho|Ho]; [now apply Hb|now apply Hok]).
    unfold ObjectRef_ok in Ho'. tauto.
  - rewrite len_app. lia.
  - intros a b Ha Hb' He. destruct (Hb a Ha) as [_ Hna]. pose proof (Hv b Hb') as Hvb. unfold batch_key, batch_namespace in He. injection He as H1 H2 _ _.
    unfold of_volume in *. rewrite H1, H2 in Hna. congruence.
  - unfold combined_valid in Hc. now destruct (validate_object_refs _) as [[]| |].
Qed.
Lemma len_inputs files : archive_inputs snapshot (frontier_of previous) (previous_files previous) files -> List.NoDup files ->
  len (concat (map content files)) < W32.
Proof using S.
  intros I Hnd. pose proof (as_few _ _ _ _ _ _ S) as Hf. assert (files ⊆+ previous_files previous ++ ps_blx_refs snapshot) as (k & Hk)%submseteq_Permutation.
  { apply NoDup_submseteq; [now apply NoDup_ListNoDup|]. intros o Ho%list_elem_of_In. apply list_elem_of_In, in_app_iff. destruct (ai_known _ _ _ _ I o Ho) as [|[]]; auto. }
  destruct (entries_perm content _ _ Hk) as [Hl _]. rewrite Hl, map_app, concat_app, len_app in Hf. pose proof (len_nonneg (concat (map content k))). lia.
Qed.
Lemma inputs_publishable w current : bt_sorted current -> keyed current ->
  (forall o, In o (bt_values current) -> stored (aw_store w) o (content o)) ->
  archive_inputs snapshot (frontier_of previous) (previous_files previous) (bt_values current) ->
  combined_valid snapshot (bt_values current) = true -> chain_valid snapshot (bt_values current) = true ->
  publishable snapshot previous (bt_values current).
Proof using CL LL PL S small_pages.
  intros Hs Hk Hst I Hc Hch. assert (bt_sorted (by_identity (bt_values current))) as Hsi by now rewrite by_identity_keyed.
  assert (List.NoDup (bt_values current)) as Hnd.
  { apply (NoDup_map_inv or_identity). rewrite <- keys_by_identity. now apply bt_sorted_NoDup. }
  assert (Forall ObjectRef_ok (bt_values current)) as Hok.
  { apply List.Forall_forall. intros o Ho. now destruct (stored_ok small_pages _ _ _ (Hst o Ho)) as (? & ? & ?). }
  pose proof (len_inputs _ I Hnd) as Hl.
  assert (len (bt_values current) <= len (concat (map content (bt_values current)))).
  { apply len_files_entries. intros o Ho. now destruct (stored_ok small_pages _ _ _ (Hst o Ho)) as (? & ? & ?). }
  split; [exact Hsi|exact Hok| |exact Hch|].
  - apply own_valid; [exact Hok| |lia|exact Hc]. intros o [Hp|[Hr _]]%(ai_known _ _ _ _ I); [now apply (as_stored _ _ _ _ _ _ S)|now apply (as_refs _ _ _ _ _ _ S)].
  - intros o o' Ho [Hp|[Hr _]]%(ai_known _ _ _ _ I) He; [|now apply (as_identities _ _ _ _ _ _ S)].
    pose proof setting_previous_ok as Hpo. destruct previous as [c|]; [|destruct Ho]. destruct (Hpo c eq_refl) as (Hm & _ & Hf).
    apply (current_same_identity _ _ _ o o' Hf); auto. apply Hm.
Qed.
Lemma compacted_publishable start files w next out ess :
  compaction_object_id_start (jr_seq (ps_record snapshot)) = Some start ->
  len (concat (map content files)) < W32 -> compacted volume snapshot content start files w next out ess ->
  combined_valid snapshot out = true -> chain_valid snapshot out = true -> publishable snapshot previous out.
Proof using CL LL PL S small_pages.
  intros Hstart Hl [H1 H2 H3 H4 H5 H6] Hc Hch.
  assert (Forall ObjectRef_ok out) as Hok.
  { apply Forall_lookup. intros n o Ho. destruct (Forall2_lookup_l _ _ _ _ _ H1 Ho) as (es & _ & He). now apply (stored_ok small_pages) in He. }
  assert (forall o, In o out -> exists n, or_identity o = ObjectIdentity_volume volume (jr_fence (ps_record snapshot)) (start + n) /\ 0 <= n < W32) as Hid.
  { intros o [n Hn]%list_elem_of_In%list_elem_of_lookup. exists (Z.of_nat n). split; [now apply H6|].
    apply lookup_lt_Some in Hn. unfold len in *. lia. }
  split; [now apply (ids_sorted volume snapshot out start)|exact Hok| |exact Hch|].
  - apply own_valid; [exact Hok| |lia|exact Hc]. intros o (n & -> & _)%Hid. unfold of_volume. cbn [oi_namespace_kind oi_namespace_id ObjectIdentity_volume].
    now rewrite bool_decide_eq_true_2, Z.eqb_refl.
  - intros o o' Ho (n & Ho' & Hn)%Hid He. destruct (as_unreserved _ _ _ _ _ _ S o Ho). exists start. split; [exact Hstart|]. rewrite He, Ho'. simpl. split; [reflexivity|lia].
Qed.

(** The files of an archive hold, for every block, the newest version among
    the previous files and those of the record that the previous archive does
    not cover. *)
Definition holds_newest (st' : Objects) (files : list ObjectRef) : Prop :=
  exists inputs ess, archive_inputs snapshot (frontier_of previous) (previous_files previous) inputs
    /\ Forall2 (stored st') files ess /\ keeps_newest (concat (map content inputs)) (concat ess).
Lemma holds_newest_kept st1 st2 files : kept st1 st2 -> holds_newest st1 files -> holds_newest st2 files.
Proof.
  intros Hk (inputs & ess & H1 & H2 & H3). exists inputs, ess. split; [exact H1|]. split; [|exact H3].
  eapply Forall2_impl; [exact H2|]. intros o es. now apply stored_kept.
Qed.
Lemma choose_files_Ok (force : bool) w w' current files :
  bt_sorted current -> keyed current -> (forall o, In o (bt_values current) -> stored (aw_store w) o (content o)) ->
  archive_inputs snapshot (frontier_of previous) (previous_files previous) (bt_values current) ->
  (if negb (combined_valid snapshot (bt_values current)) || negb (chain_valid snapshot (bt_values current)) || force
   then compact_archive env volume snapshot (bt_values current) else act_ret (bt_values current)) w = (w', Ok files) ->
  kept (aw_store w) (aw_store w') /\ publishable snapshot previous files /\ holds_newest (aw_store w') files.
Proof using CL LL PL S small_pages.
  intros Hs Hk Hst Hin H. assert (List.NoDup (bt_values current)) as Hnd.
  { apply (NoDup_map_inv or_identity). rewrite <- keys_by_identity, by_identity_keyed by exact Hk. now apply bt_sorted_NoDup. }
  pose proof (len_inputs _ Hin Hnd) as Hl. pose proof (as_others _ _ _ _ _ _ S) as Ho.
  destruct (_ || force) eqn:E.
  - pose proof (steady_compact env volume Ho _ _ _ _ _ H) as Hkept. split; [exact Hkept|].
    destruct (compact_archive_Ok small_pages env volume snapshot Ho content (as_volume _ _ _ _ _ _ S) (as_record _ _ _ _ _ _ S) (as_checksum _ _ _ _ _ _ S)
      _ w w' files Hst Hl H) as (start & next & ess & Hstart & Hc & Hcv & Hch).
    split; [exact (compacted_publishable _ _ _ _ _ _ Hstart Hl Hc Hcv Hch)|]. destruct Hc as [H1 H2 _ _ _ _].
    exists (bt_values current), ess. now split.
  - injection H as <- <-. apply orb_false_iff in E as [E _]. apply orb_false_iff in E as [E1 E2]. apply negb_false_iff in E1, E2.
    split; [apply kept_refl|]. split; [now apply (inputs_publishable w)|]. exists (bt_values current), (map content (bt_values current)).
    split; [exact Hin|]. split; [|now apply keeps_newest_same]. apply Forall2_fmap_r, Forall_Forall2_diag, List.Forall_forall. exact Hst.
Qed.
Lemma prepare_Ok force w w' pointer : aw_store w = st ->
  prepare_archive env volume snapshot force w = (w', Ok pointer) ->
  exists c rb, archive_reads volume (aw_store w') pointer c /\ holds_newest (aw_store w') (mc_files c)
    /\ @JournalRecord_encode _ _ unit (ps_record snapshot) volume = Ok rb
    /\ same_publication (mc_manifest c) (archive_manifest volume snapshot (archive_seq_of (option_map metadata previous)) rb None [] []).
Proof using CL LL PL S small_pages.
  intros Hw H. pose proof (as_others _ _ _ _ _ _ S) as Ho. unfold prepare_archive in H.
  apply act_bind_Ok in H as (w1 & prev & Hload & H). pose proof (load_Ok _ _ _ Hw Hload) as ->.
  pose proof (steady_load env volume Ho _ _ _ _ Hload) as Hk1. rewrite Hw in Hk1.
  apply act_bind_Ok in H as (w2 & u & ->%interrupted_Ok & H). apply act_bind_Ok in H as (w2 & pf & Hpf & H). cbv zeta in H.
  assert (w2 = w1 /\ pf = previous_files previous /\ bt_sorted (by_identity pf)) as (-> & -> & Hsorted).
  { pose proof setting_previous_ok as Hpo. destruct previous as [c|]; cbn [option_map metadata] in Hpf; [|injection Hpf as -> <-; repeat split; constructor].
    destruct (Hpo c eq_refl) as (_ & _ & Hf). rewrite Hf in Hpf. injection Hpf as -> <-. split; [reflexivity|]. split; [reflexivity|].
    apply current_files_inv in Hf as (Hl & (m1 & m2 & E1 & E2 & ->) & _).
    destruct (replay_files _ _ _ _ _ (list_matches_distinct _ _ Hl) E1 E2) as (Hs & Hk & _). now rewrite by_identity_keyed. }
  apply act_bind_Ok in H as (w2 & current & Hcopy & H).
  assert (kept (aw_store w1) (aw_store w2)) as Hk2 by (refine (kept_after _ _ _ _ _ Hcopy); apply steady_fold; intros; now apply steady_copy).
  replace (match option_map metadata previous with Some (m, _) => _ | None => _ end) with (frontier_of previous) in Hcopy by now destruct previous as [[]|].
  destruct (copy_all_Ok small_pages env volume snapshot Ho content (as_local _ _ _ _ _ _ S) (frontier_of previous) _ w1 w2 current Hsorted) as (Hs & Hk & Hst & Hin); [|exact Hcopy|].
  { intros o Ho'. apply (stored_kept _ _ _ _ Hk1). now apply (as_stored _ _ _ _ _ _ S). }
  apply act_bind_Ok in H as (w3 & files & Hfiles & H).
  assert (kept (aw_store w2) (aw_store w3) /\ publishable snapshot previous files /\ holds_newest (aw_store w3) files) as (Hk3 & Hpub & Hnew).
  { exact (choose_files_Ok _ _ _ _ _ Hs Hk Hst Hin Hfiles). }
  pose proof (steady_write env volume Ho _ _ _ _ _ _ H) as Hk4.
  destruct (write_archive_Ok volume snapshot (as_volume _ _ _ _ _ _ S) (as_record _ _ _ _ _ _ S) (as_checksum _ _ _ _ _ _ S) (as_base _ _ _ _ _ _ S)
    env Ho previous files w3 w' pointer setting_previous_ok Hpub) as (c & rb & Hr & <- & Hrb & Hsame); [|exact H|].
  { apply (list_stored_kept st); [exact (kept_trans _ _ _ Hk1 (kept_trans _ _ _ Hk2 Hk3))|exact setting_list_stored]. }
  exists c, rb. split; [exact Hr|]. split; [exact (holds_newest_kept _ _ _ Hk4 Hnew)|]. now split.
Qed.
End Setting.

(** C4. Preparing an archive loses nothing. Other users of the store may add
    objects at any time but neither delete nor alter one. Whatever the outcome,
    every object that was in the store, pending manifests apart, is still there
    unchanged. When it succeeds, the pointer it returns names the record's fence,
    journal and capture sequence, and reading the store under that pointer gives a
    manifest closure with the record's state, each of whose files is in the
    store; and every version of a block that is the newest those files hold, or
    that there is none, is so among the inputs: the previous archive's files and
    exactly the record's files that the previous archive does not cover, a file
    being covered when it is of the previous archive's writer and ends at or
    before its journal sequence. Compaction, the bounding of the manifest and the
    delta against the previous list are all included. *)
Theorem prepare_archive_exact env volume snapshot previous content force w w' r :
  archive_setting env volume snapshot (aw_store w) previous content ->
  prepare_archive env volume snapshot force w = (w', r) ->
  kept (aw_store w) (aw_store w')
  /\ forall pointer, r = Ok pointer -> exists c inputs ess,
       (mp_fence pointer, mp_journal_seq pointer, mp_capture_seq pointer)
       = (jr_fence (ps_record snapshot), jr_seq (ps_record snapshot), jr_capture_seq (ps_record snapshot))
       /\ archive_reads volume (aw_store w') pointer c
       /\ m_post_state_checksum (mc_manifest c) = ps_state_checksum snapshot
       /\ m_sync_covered_through (mc_manifest c) = jr_sync_covered_through (ps_record snapshot)
       /\ archive_inputs snapshot (frontier_of previous) (previous_files previous) inputs
       /\ Forall2 (stored (aw_store w')) (mc_files c) ess
       /\ forall k v, newest_of k (concat ess) v -> newest_of k (concat (map content inputs)) v.
Proof using CL LL PL small_pages.
  intros S H. split; [exact (steady_prepare env volume (as_others _ _ _ _ _ _ S) snapshot force w w' r H)|]. intros pointer ->.
  destruct (prepare_Ok env volume snapshot _ previous content S force w w' pointer eq_refl H) as (c & rb & Hr & (inputs & ess & Hi & Hs & Hn) & _ & Hsame).
  exists c, inputs, ess. pose proof Hr as (mb & lb & _ & _ & _ & [_ Hp]%closure_manifest). injection Hp as P1 P2 _ P4.
  unfold same_publication, Manifest_with_list, archive_manifest in Hsame. destruct (recovery_metadata _) as [[kind epoch] length]. injection Hsame as _ H2 H3 _ H5 H6 _ _ _ _ _ H11 _.
  split; [congruence|]. split; [exact Hr|]. split; [exact H11|]. split; [exact H6|]. split; [exact Hi|]. split; [exact Hs|].
  intros k v. now apply keeps_newest_of.
Qed.

(** C37. An abandoned manifest blocks every later publication under its name. If
    the name that the next archive would use, made of the writer's fence and the
    archive sequence after the previous archive's, already holds a manifest of
    another journal record (left by a publication that was interrupted after
    writing it), then preparing an archive never succeeds, however often it is
    retried, until someone deletes that manifest. *)
Theorem orphan_manifest_blocks env volume snapshot previous content force w orphan m :
  archive_setting env volume snapshot (aw_store w) previous content ->
  aw_store w !! archive_manifest_key volume (jr_fence (ps_record snapshot)) (archive_seq_of (option_map metadata previous)) = Some orphan ->
  Manifest_decode volume orphan = Ok m -> m_journal_seq m <> jr_seq (ps_record snapshot) ->
  forall w' pointer, prepare_archive env volume snapshot force w <> (w', Ok pointer).
Proof using CL LL PL small_pages.
  intros S Ho Hd Hne w' pointer H. pose proof (steady_prepare env volume (as_others _ _ _ _ _ _ S) snapshot force _ _ _ H) as Hk.
  destruct (prepare_Ok env volume snapshot _ previous content S force w w' pointer eq_refl H) as (c & rb & (mb & lb & Hmb & _ & _ & Hc) & _ & _ & Hsame).
  destruct (closure_manifest _ _ _ _ _ Hc) as [Hm Hp]. injection Hp as P1 P2 P3 P4.
  unfold same_publication, Manifest_with_list, archive_manifest in Hsame. destruct (recovery_metadata _) as [[kind epoch] length]. injection Hsame as _ H2 H3 H4 _ _ _ _ _ _ _ _ _.
  pose proof (Hk _ _ (manifest_not_pending _ _ _) Ho) as Ho'. unfold ManifestPtr_manifest_key, manifest_key in Hmb.
  rewrite <- P1, <- P3, H2, H4, Ho' in Hmb. injection Hmb as <-. rewrite Hd in Hm. injection Hm as ->. contradiction.
Qed.
End Archive.
