(* ===== verification/LocalCapture.v ===== *)
(** * Local captures ([engine/capture.rs], [engine/reclaim.rs])

    A capture writes the dirty pages of a volume into new local BLX files,
    then a journal record, in two copies, that names every file a restart
    needs, and then deletes the records and files that nothing needs any more.
    Compaction rescues live pages out of files that are mostly dead;
    [reclaim_backed_blx_files] unlinks files that the object store also has. *)

From S2P Require Import Prelude Format Types OrdMap Sorting Head Blx BlxFile BlxBatch BlxState Manifest.
From S2P Require Import Text Layout PageFile Journal.

#[local] Open Scope Z_scope.

(** ** Updating one field of a record *)
Class Eta (R : Type) := eta : R -> R.
Class Setter {R T : Type} (proj : R -> T) := set_field : (T -> T) -> R -> R.
Ltac setter proj :=
  let R := lazymatch type of proj with ?R -> _ => R end in
  let body := eval hnf in (@eta R _) in
  lazymatch eval pattern proj in body with
  | ?f _ =>
      let s := eval cbv beta in (fun g => f (fun r => g (proj r))) in exact s
  end.
#[export] Hint Extern 1 (Setter ?proj) => setter proj : typeclass_instances.
Definition upd {R T} (proj : R -> T) {S : Setter proj} (x : T) : R -> R := set_field (proj := proj) (fun _ => x).

(** ** The volume *)
(** The fields of [VolumeState] that captures, cleanup and restarts read or
    write. A pending sync is its barrier. *)
Record VolumeState := {
  v_config : VolumeConfig;
  v_fence : Z;
  v_ready : bool;
  v_epoch : Z;
  v_mutation_seq : Z;
  v_block_checksums : BTreeMap BlockKey (Z * Z);
  v_state_checksum : Z;
  v_pending_tombstones : BTreeSet BlockKey;
  v_page_locs : BTreeMap PageId (Z * PageFileLoc);
  v_next_gen : Z;
  v_next_seq : Z;
  v_next_object_id : Z;
  v_best_record : option JournalRecord;
  v_local_covered_through : Z;
  v_sync_ack_through : Z;
  v_pending_syncs : list Z;
  v_pinned : option JournalRecord;
  v_record_writes : BTreeMap Z (Z * Z);
  v_record_blx_files : BTreeMap Z (BTreeSet ObjectIdentity);
  v_blx_blobs : list (ObjectIdentity * Z);
  v_blx_refs : BTreeMap ObjectIdentity ObjectRef;
  v_vmm_blx_files : BTreeSet ObjectIdentity;
  v_archive_objects : list ObjectRef;
  v_archive_base : option BaseRef;
  v_archived_memory_usable : bool;
  v_tombstone_blx_files : BTreeSet ObjectIdentity;
  v_backed_blx_files : BTreeSet ObjectIdentity;
  v_replicating_blx_files : BTreeSet ObjectIdentity;
  v_publishing_blx_files : BTreeSet ObjectIdentity;
  v_outbound : option Z;
  v_peer_source : option Z;
  v_peer_source_offer_fence : option Z;
  v_peer_committed_record : option JournalRecord }.
#[export] Instance VolumeState_eta : Eta VolumeState := fun v =>
  Build_VolumeState (v_config v) (v_fence v) (v_ready v) (v_epoch v) (v_mutation_seq v) (v_block_checksums v)
    (v_state_checksum v) (v_pending_tombstones v) (v_page_locs v) (v_next_gen v) (v_next_seq v)
    (v_next_object_id v) (v_best_record v) (v_local_covered_through v) (v_sync_ack_through v)
    (v_pending_syncs v) (v_pinned v) (v_record_writes v) (v_record_blx_files v) (v_blx_blobs v)
    (v_blx_refs v) (v_vmm_blx_files v) (v_archive_objects v) (v_archive_base v)
    (v_archived_memory_usable v) (v_tombstone_blx_files v) (v_backed_blx_files v)
    (v_replicating_blx_files v) (v_publishing_blx_files v) (v_outbound v) (v_peer_source v)
    (v_peer_source_offer_fence v) (v_peer_committed_record v).
Definition VolumeState_fresh (config : VolumeConfig) : VolumeState :=
  {| v_config := config; v_fence := 1; v_ready := false; v_epoch := 0; v_mutation_seq := 0; v_block_checksums := [];
     v_state_checksum := 0; v_pending_tombstones := []; v_page_locs := []; v_next_gen := 0;
     v_next_seq := 0; v_next_object_id := 0; v_best_record := None; v_local_covered_through := 0;
     v_sync_ack_through := 0; v_pending_syncs := []; v_pinned := None; v_record_writes := [];
     v_record_blx_files := []; v_blx_blobs := []; v_blx_refs := []; v_vmm_blx_files := [];
     v_archive_objects := []; v_archive_base := None; v_archived_memory_usable := true;
     v_tombstone_blx_files := []; v_backed_blx_files := []; v_replicating_blx_files := [];
     v_publishing_blx_files := []; v_outbound := None; v_peer_source := None;
     v_peer_source_offer_fence := None; v_peer_committed_record := None |}.

Definition set_extend {K} `{RustOrd K} (s : BTreeSet K) (l : list K) : BTreeSet K :=
  fold_left (fun s k => bt_insert k tt s) l s.
Definition opt_list {A} (o : option A) : list A := match o with Some x => [x] | None => [] end.
Definition is_local (location : PageFileLoc) : bool := pl_base location =? 0.
(** [location.identity(page.volume)] of the local entries of a page map. *)
Definition local_identities (pages : BTreeMap PageId (Z * PageFileLoc)) : list ObjectIdentity :=
  omap (fun e => if is_local e.2.2 then Some (PageFileLoc_identity e.2.2 (pid_volume e.1)) else None)
    pages.

(** ** Which files a record names *)
Definition needed_blx (volume : VolumeState) : BTreeSet ObjectIdentity :=
  let needed_blx := bts_collect (local_identities (v_page_locs volume)) in
  let needed_blx := set_extend needed_blx (bt_keys (v_tombstone_blx_files volume)) in
  set_extend needed_blx (bt_keys (v_vmm_blx_files volume)).
Definition batch_of_file (file : ObjectRef) : Z * Z :=
  (oi_writer_fence (or_identity file), or_batch_id file).
Definition recovery_files (volume : VolumeState) : list ObjectRef :=
  let needed_batches :=
    bts_collect (map (fun e => batch_of_file e.2)
                   (List.filter (fun e => bt_contains e.1 (needed_blx volume)) (v_blx_refs volume))) in
  List.filter (fun file => bt_contains (batch_of_file file) needed_batches)
    (bt_values (v_blx_refs volume)).

Definition initial_record (config : VolumeConfig) (fence : Z) : JournalRecord :=
  {| jr_config := config; jr_seq := 0; jr_fence := fence; jr_kind := Kind_Commit;
     jr_capture_seq := 0; jr_sync_covered_through := 0; jr_post_state_checksum := 0;
     jr_files := []; jr_runtime_page_index := []; jr_migrated_from := None |}.

(** ** Retention, cleanup and reclaim *)
Definition is_volume_file (identity : ObjectIdentity) : bool :=
  bool_decide (oi_namespace_kind identity = Namespace_Volume).
Definition retained_records (volume : VolumeState) : list JournalRecord :=
  opt_list (v_best_record volume) ++ opt_list (v_pinned volume)
  ++ opt_list (v_peer_committed_record volume).
Definition retain_record (volume : VolumeState)
    (s : BTreeSet (Z * Z) * BTreeSet ObjectIdentity) (record : JournalRecord)
  : BTreeSet (Z * Z) * BTreeSet ObjectIdentity :=
  let '(records, blx_files) := s in
  let records := bt_insert (jr_fence record, jr_seq record) tt records in
  let blx_files := set_extend blx_files
                     (List.filter is_volume_file (map or_identity (jr_files record))) in
  let blx_files := match bt_get (jr_seq record) (v_record_blx_files volume) with
                   | Some written => set_extend blx_files (bt_keys written)
                   | None => blx_files
                   end in
  (records, set_extend blx_files (local_identities (jr_runtime_page_index record))).
Definition retention_closure (volume : VolumeState) : BTreeSet (Z * Z) * BTreeSet ObjectIdentity :=
  fold_left (retain_record volume) (retained_records volume) ([], []).

(** What one cleanup deletes, decided before its first await. *)
Record Cleanup := {
  c_names : list string;
  c_records : list (Z * Z);
  c_blx : list ObjectIdentity }.
Definition identity_blob (volume : Z) (identity : ObjectIdentity) : string :=
  blx_blob volume (oi_writer_fence identity) (oi_object_id identity).
Definition cleanup_keep_blx (volume_state : VolumeState) : BTreeSet ObjectIdentity :=
  let keep_blx := (retention_closure volume_state).2 in
  let keep_blx := set_extend keep_blx
    (List.filter (fun blx => negb (bt_contains blx (v_backed_blx_files volume_state)))
       (bt_keys (v_tombstone_blx_files volume_state))) in
  let keep_blx := set_extend keep_blx (bt_keys (v_publishing_blx_files volume_state)) in
  set_extend keep_blx (bt_keys (v_replicating_blx_files volume_state)).
Definition cleanup_plan (volume : Z) (volume_state : VolumeState) : Cleanup :=
  let keep_records := (retention_closure volume_state).1 in
  let keep_blx := cleanup_keep_blx volume_state in
  let records_to_remove :=
    omap (fun '(seq, (fence, _)) =>
            if bt_contains (fence, seq) keep_records then None else Some (fence, seq))
      (v_record_writes volume_state) in
  let blx_to_remove :=
    omap (fun e => if bt_contains e.1 keep_blx then None else Some e.1) (v_blx_blobs volume_state) in
  {| c_names := concat (map (fun '(fence, seq) => [journal_blob volume fence seq;
                                                   journal_mirror_blob volume fence seq])
                          records_to_remove)
                ++ map (identity_blob volume) blx_to_remove;
     c_records := records_to_remove; c_blx := blx_to_remove |}.
Definition without {K V} `{RustOrd K} (gone : list K) (m : BTreeMap K V) : BTreeMap K V :=
  fold_left (fun m k => bt_remove k m) gone m.
(** The state update once the deletions are durable. *)
Definition cleanup_done (cleanup : Cleanup) (v : VolumeState) : VolumeState :=
  let seqs := map snd (c_records cleanup) in
  let blx_set := bts_collect (c_blx cleanup) in
  v |> upd v_record_writes (without seqs (v_record_writes v))
    |> upd v_record_blx_files (without seqs (v_record_blx_files v))
    |> upd v_blx_blobs (List.filter (fun e => negb (bt_contains e.1 blx_set)) (v_blx_blobs v))
    |> upd v_tombstone_blx_files
         (List.filter (fun e => negb (bt_contains e.1 blx_set)) (v_tombstone_blx_files v))
    |> upd v_vmm_blx_files
         (List.filter (fun e => negb (bt_contains e.1 blx_set)) (v_vmm_blx_files v))
    |> upd v_blx_refs (List.filter (fun e => negb (bt_contains e.1 blx_set)) (v_blx_refs v)).

(** The file that reclaim unlinks next, and the state once it is gone. *)
Definition reclaim_candidate (v : VolumeState) : option ObjectIdentity :=
  fst <$> List.find (fun e => bt_contains e.1 (v_backed_blx_files v)) (v_blx_blobs v).
Definition reclaim_done (identity : ObjectIdentity) (v : VolumeState) : VolumeState :=
  v |> upd v_blx_blobs (List.filter (fun e => negb (bool_decide (e.1 = identity))) (v_blx_blobs v))
    |> upd v_tombstone_blx_files (bt_remove identity (v_tombstone_blx_files v))
    |> upd v_vmm_blx_files (bt_remove identity (v_vmm_blx_files v))
    |> upd v_blx_refs (bt_remove identity (v_blx_refs v)).

(** ** Captures *)
Definition ROLL_THRESHOLD : Z := 256.
Definition COMPACT_BATCH : nat := 8.
Record Checkpoint := {
  ck_req : option Z;
  ck_epoch : Z;
  ck_vmstate : Z;
  ck_vmstate_bytes : bytes }.
Record CompactionRescue := {
  cr_victim : Z * Z;
  cr_entries : list (PageId * Z * PageFileLoc * bytes) }.

Definition saturating_mul (w a b : Z) : Z := Z.min (w - 1) (a * b).
(** [x += y] on a [u64]. *)
Definition plus {E} (x y : Z) : outcome E Z := expect (checked_add W64 x y).
Definition names_file (fence object : Z) (location : PageFileLoc) : bool :=
  is_local location && (pl_fence location =? fence) && (pl_object location =? object).

Section Capture.
Context `{C : Crc} `{L : Lz4} `{P : PageSize}.

(** *** Compaction *)
Definition add_live {E} (volume : Z) (live : BTreeMap ObjectIdentity Z) (entry : PageId * (Z * PageFileLoc))
  : outcome E (BTreeMap ObjectIdentity Z) :=
  let location := entry.2.2 in
  if is_local location
  then let identity := PageFileLoc_identity location volume in
       let? sum := plus (default 0 (bt_get identity live)) (pl_len location) in
       Ok (bt_insert identity sum live)
  else Ok live.
Definition compaction_candidates {E} (volume : Z) (v : VolumeState)
  : outcome E (list (Z * ObjectIdentity)) :=
  let? live_by_blx := fold_outcome (add_live volume) [] (v_page_locs v) in
  Ok (take COMPACT_BATCH (sort_by cmp_leb
    (omap (fun '(identity, size) =>
       let live := default 0 (bt_get identity live_by_blx) in
       if (0 <? live) && (saturating_mul W64 live 2 <=? size)
       then Some (saturating_mul W64 live 1000000 / size, identity) else None)
      (v_blx_blobs v)))).
(** One entry of a victim: [None] skips it, [Err] marks the file damaged. *)
Definition rescue_entry (volume : Z) (expected : BTreeMap PageId (Z * PageFileLoc)) (bs : bytes)
    (decoded : list (PageId * Z * PageFileLoc * bytes)) (entry : PageId * Z * PageFileLoc)
  : outcome DecodeError (list (PageId * Z * PageFileLoc * bytes)) :=
  let '(page, generation, location) := entry in
  if negb (bool_decide (bt_get page expected = Some (generation, location))) then Ok decoded else
  let? frame := ok_or (slice_get bs (pl_offset location) (pl_offset location + pl_len location)) DecodeErr in
  let? (decoded_page, decoded_generation, raw) := open_entry volume frame in
  if bool_decide ((decoded_page, decoded_generation) = (page, generation))
  then Ok (decoded ++ [(page, generation, location, raw)]) else Err DecodeErr.
(** [read] is the device: [None] stands for a missing file and for an error. *)
Definition rescue_file {E} (volume : Z) (v : VolumeState) (read : string -> option bytes)
    (rescues : list CompactionRescue) (candidate : Z * ObjectIdentity)
  : outcome E (list CompactionRescue) :=
  let fence := oi_writer_fence candidate.2 in
  let blx := oi_object_id candidate.2 in
  let expected := List.filter (fun e => names_file fence blx e.2.2) (v_page_locs v) in
  match read (blx_blob volume fence blx) with
  | None => Ok rescues
  | Some bs =>
      let? scanned := result_ok (scan_page_file bs) in
      match scanned with
      | None => Ok rescues
      | Some (owner, blob_fence, blob_object, entries) =>
          if negb (bool_decide ((owner, blob_fence, blob_object) = (volume, fence, blx)))
          then Ok rescues else
          let? decoded := result_ok (fold_outcome (rescue_entry volume expected bs) [] entries) in
          match decoded with
          | Some decoded =>
              if len decoded =? len expected
              then Ok (rescues ++ [{| cr_victim := (fence, blx); cr_entries := decoded |}])
              else Ok rescues
          | None => Ok rescues
          end
      end
  end.
Definition prepare_compaction {E} (volume : Z) (migration_running : bool) (v : VolumeState)
    (read : string -> option bytes) : outcome E (list CompactionRescue) :=
  if negb (v_ready v) then Ok [] else
  if bool_decide (is_Some (v_outbound v)) || migration_running
     || (len (v_page_locs v) <? ROLL_THRESHOLD) then Ok [] else
  let? candidates := compaction_candidates volume v in
  fold_outcome (rescue_file volume v read) [] candidates.

(** The rescues that still apply when the capture is cut. *)
Definition all_live_covered (v : VolumeState) (flush_set : BTreeSet PageId)
    (prepared : CompactionRescue) : bool :=
  let prepared_pages :=
    bt_collect (map (fun '(page, generation, location, _) => (page, (generation, location)))
                  (cr_entries prepared)) in
  forallb (fun '(page, entry) =>
      negb (names_file (cr_victim prepared).1 (cr_victim prepared).2 entry.2)
      || bt_contains page flush_set
      || bool_decide (bt_get page prepared_pages = Some entry))
    (v_page_locs v).
Definition live_rescue (v : VolumeState) (flush_set : BTreeSet PageId)
    (entry : PageId * Z * PageFileLoc * bytes) : option (PageId * bytes) :=
  let '(page, generation, location, bs) := entry in
  if negb (bt_contains page flush_set)
     && bool_decide (bt_get page (v_page_locs v) = Some (generation, location))
  then Some (page, bs) else None.
Definition select_rescues (v : VolumeState) (flush_set : BTreeSet PageId)
    (prepared : list CompactionRescue) : list (PageId * bytes) :=
  concat (map (fun p => omap (live_rescue v flush_set) (cr_entries p))
            (List.filter (all_live_covered v flush_set) prepared)).

(** *** The cut: sequence numbers, ids and generations are taken *)
Record Cut := {
  cut_seq : Z;
  cut_capture_seq : Z;
  cut_first_object : Z;
  cut_fence : Z;
  cut_unread : list (PageId * Z);
  cut_rescues : list (PageId * Z * bytes);
  cut_tombstones : list (BlockKey * Z) }.
Definition take_gen {E A B} (f : A -> Z -> B) (s : list B * Z) (x : A) : outcome E (list B * Z) :=
  let? next := plus s.2 1 in Ok (s.1 ++ [f x s.2], next).
Definition tombstone_gen {E} (seq : Z) (s : list (BlockKey * Z) * Z) (key : BlockKey)
  : outcome E (list (BlockKey * Z) * Z) :=
  if bool_decide (bk_space key = Space_Vmm) then Ok (s.1 ++ [(key, seq)], s.2)
  else take_gen pair s key.
(** [pages] is the sorted set of pages to read. *)
Definition capture_cut {E} (v : VolumeState) (pages : list PageId) (rescues : list (PageId * bytes))
  : outcome E (VolumeState * Cut) :=
  let seq := v_next_seq v in
  let? next_seq := plus seq 1 in
  let first_object := v_next_object_id v in
  let? next_object_id :=
    plus first_object (len pages + len rescues + len (v_pending_tombstones v)) in
  let? (unread, next_gen) := fold_outcome (take_gen pair) ([], v_next_gen v) pages in
  let? (rescues, next_gen) :=
    fold_outcome (take_gen (fun r g => (r.1, g, r.2))) ([], next_gen) rescues in
  let? (tombstones, next_gen) :=
    fold_outcome (tombstone_gen seq) ([], next_gen) (bt_keys (v_pending_tombstones v)) in
  Ok (v |> upd v_next_seq next_seq |> upd v_next_object_id next_object_id
        |> upd v_next_gen next_gen,
      {| cut_seq := seq; cut_capture_seq := v_mutation_seq v; cut_first_object := first_object;
         cut_fence := v_fence v; cut_unread := unread; cut_rescues := rescues;
         cut_tombstones := tombstones |}).
(** [batch_pages]: each page read from the guest, or as it was when a fault
    copied it, with the generation of the cut, then the rescued pages. *)
Definition batch_pages (cut : Cut) (contents : PageId -> bytes) : list (PageId * Z * bytes) :=
  map (fun p => (p.1, p.2, contents p.1)) (cut_unread cut) ++ cut_rescues cut.

(** *** The batch *)
Definition is_vmm (key : BlockKey) : bool := bool_decide (bk_space key = Space_Vmm).
Definition capture_checksums {E} (v : VolumeState) (seq : Z) (pages : list (PageId * Z * bytes))
    (checkpoint : option Checkpoint) : outcome E (Z * BTreeMap BlockKey (Z * Z)) :=
  let s := fold_left (fun s '(page, generation, bs) =>
             replace_state_block s (BlockKey_from_page (vc_kind (v_config v)) page)
               (Some (generation, checksum64 bs))) pages (v_state_checksum v, v_block_checksums v) in
  match checkpoint with
  | None => Ok s
  | Some checkpoint =>
      let old_vmm := List.filter is_vmm (bt_keys s.2) in
      let s := fold_left (fun s key => replace_state_block s key None) old_vmm s in
      let? blocks := vmm_snapshot_blocks (ck_vmstate_bytes checkpoint) in
      Ok (fold_left (fun s b => replace_state_block s b.1 (Some (seq, checksum64 b.2))) blocks s)
  end.
Definition add_pending_tombstone {E} (kind : VolumeKind) (volume : Z) (builder : PageBatchBuilder)
    (tombstone : BlockKey * Z) : outcome E PageBatchBuilder :=
  let '(key, generation) := tombstone in
  if is_vmm key then Ok (PageBatchBuilder_add_vmm_tombstone builder (bk_block key) generation)
  else match BlockKey_to_page key kind volume with
       | Some page =>
           let? (builder, result) := PageBatchBuilder_try_add_tombstone builder page generation in
           match result with inl _ => Ok builder | inr _ => Panic end
       | None => Ok builder
       end.
Definition div_ceil (a b : Z) : Z := (a + b - 1) / b.
Definition add_checkpoint {E} (v : VolumeState) (seq : Z) (builder : PageBatchBuilder)
    (checkpoint : Checkpoint) : outcome E PageBatchBuilder :=
  let old_vmm_blocks :=
    bts_collect (map bk_block (List.filter is_vmm (bt_keys (v_block_checksums v)))) in
  let new_count := div_ceil (len (ck_vmstate_bytes checkpoint)) page_size in
  let builder := fold_left (fun builder block =>
      if new_count <=? block then PageBatchBuilder_add_vmm_tombstone builder block seq else builder)
    (bt_keys old_vmm_blocks) builder in
  PageBatchBuilder_add_vmm_snapshot builder seq (ck_vmstate_bytes checkpoint).
Definition capture_batch {E} (volume : Z) (v : VolumeState) (cut : Cut)
    (pages : list (PageId * Z * bytes)) (checkpoint : option Checkpoint) (post_state_checksum : Z)
  : outcome E PageBatchBuilder :=
  let kind := vc_kind (v_config v) in
  let? builder := PageBatchBuilder_new_with_checksums kind volume (cut_fence cut)
                    (cut_first_object cut) (cut_seq cut) (v_state_checksum v) post_state_checksum in
  let? builder := fold_outcome (fun builder '(page, generation, bs) =>
                    PageBatchBuilder_add builder page generation bs) builder pages in
  let? builder := fold_outcome (add_pending_tombstone kind volume) builder (cut_tombstones cut) in
  match checkpoint with
  | Some checkpoint => add_checkpoint v (cut_seq cut) builder checkpoint
  | None => Ok builder
  end.

(** *** After each file, and the record *)
Definition LocalFile : Type := Z * bytes * PageFileEntries.
Definition has_tombstone (footer : BlxFooter) : bool :=
  existsb (fun entry => bool_decide (fe_kind entry = EntryKind_Tombstone)) (bf_entries footer).
(** [None] is the early return when the written bytes do not open. *)
Definition install_file {E} (volume fence post_state_checksum : Z)
    (block_checksums : BTreeMap BlockKey (Z * Z)) (file : LocalFile) (v : VolumeState)
  : outcome E (VolumeState * bool) :=
  let '(blx, bs, entries) := file in
  let identity := ObjectIdentity_volume volume fence blx in
  let v := v |> upd v_page_locs (fold_left (fun locs '(page, generation, location) =>
                                   bt_insert page (generation, location) locs) entries (v_page_locs v))
             |> upd v_blx_blobs (v_blx_blobs v ++ [(identity, len bs)]) in
  let? opened := result_ok (BlxObject_open bs) in
  match opened with
  | None => Ok (v, false)
  | Some object =>
      let? reference := ObjectRef_from_blx object in
      Ok (v |> upd v_blx_refs (bt_insert identity reference (v_blx_refs v))
            |> upd v_tombstone_blx_files
                 (if has_tombstone (bo_footer object)
                  then bt_insert identity tt (v_tombstone_blx_files v)
                  else v_tombstone_blx_files v)
            |> upd v_state_checksum post_state_checksum
            |> upd v_block_checksums block_checksums, true)
  end.
Definition batch_identities (volume fence : Z) (files : list LocalFile) : BTreeSet ObjectIdentity :=
  bts_collect (map (fun file => ObjectIdentity_volume volume fence file.1.1) files).
Definition capture_covered (v : VolumeState) (capture_seq : Z) : Z :=
  fold_left Z.max (List.filter (fun barrier => barrier <=? capture_seq) (v_pending_syncs v))
    (v_local_covered_through v).
Definition record_overlay (migration : bool) (v : VolumeState) : BTreeMap PageId (Z * PageFileLoc) :=
  if migration || bool_decide (is_Some (v_peer_source v))
     || existsb (fun e => negb (is_local e.2.2)) (v_page_locs v)
  then v_page_locs v else [].
Definition capture_journal (migration : bool) (v : VolumeState) (cut : Cut)
    (checkpoint : option Checkpoint) (post_state_checksum : Z) : JournalRecord :=
  {| jr_config := v_config v; jr_seq := cut_seq cut; jr_fence := cut_fence cut;
     jr_kind := match checkpoint with
                | Some c => Kind_Checkpoint (ck_epoch c) (ck_vmstate c) (len (ck_vmstate_bytes c))
                | None => Kind_Commit
                end;
     jr_capture_seq := cut_capture_seq cut;
     jr_sync_covered_through := capture_covered v (cut_capture_seq cut);
     jr_post_state_checksum := post_state_checksum;
     jr_files := recovery_files v;
     jr_runtime_page_index := record_overlay migration v;
     jr_migrated_from := (fun host => {| ms_host := host;
                                         ms_offer_fence := v_peer_source_offer_fence v |})
                           <$> v_peer_source v |}.
Definition write_record_copies {E} (volume : Z) (v : VolumeState) (record : JournalRecord)
    (block_checksums : BTreeMap BlockKey (Z * Z)) : outcome E bytes :=
  match jr_migrated_from record with
  | Some _ => JournalRecord_encode_migration_state record volume block_checksums
                {| mac_objects := v_archive_objects v; mac_base := v_archive_base v |}
  | None => JournalRecord_encode record volume
  end.
(** The commit: the new state, and the barriers of the syncs it completes. *)
Definition capture_commit (volume : Z) (complete_memory_snapshot : bool) (cut : Cut)
    (files : list LocalFile) (checkpoint : option Checkpoint) (record : JournalRecord)
    (v : VolumeState) : VolumeState * list Z :=
  let acked barrier := barrier <=? v_sync_ack_through v in
  let v' :=
    v |> upd v_best_record (Some record)
      |> upd v_archived_memory_usable (complete_memory_snapshot || v_archived_memory_usable v)
      |> upd v_pending_tombstones (without (map fst (cut_tombstones cut)) (v_pending_tombstones v))
      |> upd v_next_object_id
           (match list.last files with
            | Some file => Z.max (v_next_object_id v) (saturating_add W64 file.1.1 1)
            | None => v_next_object_id v
            end)
      |> upd v_local_covered_through (jr_sync_covered_through record)
      |> upd v_pending_syncs (List.filter (fun b => negb (acked b)) (v_pending_syncs v))
      |> upd v_record_writes (bt_insert (jr_seq record)
           (cut_fence cut, jr_sync_covered_through record) (v_record_writes v))
      |> upd v_record_blx_files (bt_insert (jr_seq record)
           (batch_identities volume (cut_fence cut) files) (v_record_blx_files v)) in
  (match checkpoint with
   | Some c => v' |> upd v_epoch (ck_epoch c) |> upd v_pinned (Some record)
   | None => v'
   end, List.filter acked (v_pending_syncs v)).
Definition creation_commit (record : JournalRecord) (v : VolumeState) : VolumeState :=
  v |> upd v_next_seq 1 |> upd v_best_record (Some record)
    |> upd v_record_writes (bt_insert (jr_seq record) (v_fence v, 0) (v_record_writes v)).
End Capture.
