(* ===== verification/LocalTask.v ===== *)
(** * The capture task and its device ([engine/capture.rs], [engine/reclaim.rs])

    [capture_record] as a task: it waits at the write of each file, at the two
    writes of the record, and in the deletions of its cleanup, while the guest
    writes, syncs arrive, replication and publication move, and cleanups of
    earlier captures are still deleting. [crash_image] is what a crash at any
    of these points may leave on the device. *)

From stdpp Require Import gmap.
From S2P Require Import Prelude Format Types OrdMap Sorting Head Blx BlxFile BlxBatch BlxState Manifest.
From S2P Require Import Text Layout PageFile Journal LocalCapture.

#[local] Open Scope Z_scope.

Abbreviation Device := (gmap string bytes).

(** What a capture keeps across its awaits. *)
Record Running := {
  ru_cut : Cut;
  ru_checkpoint : option Checkpoint;
  ru_migration : bool;
  ru_complete_memory : bool;
  ru_files : list LocalFile;
  ru_post_checksum : Z;
  ru_block_checksums : BTreeMap BlockKey (Z * Z) }.
(** In [Capture_files] the first file of the list is being written; in
    [Capture_record] both copies of the record are. *)
Inductive CapturePc :=
| Capture_idle
| Capture_files (r : Running) (rest : list LocalFile)
| Capture_record (r : Running) (record : JournalRecord) (bs : bytes).
(** [lh_failed] also stands for a panic: the process is gone. *)
Record LocalHost := {
  lh_volume : VolumeState;
  lh_device : Device;
  lh_prepared : list CompactionRescue;
  lh_capture : CapturePc;
  lh_cleanups : list Cleanup;
  lh_failed : bool }.
#[export] Instance LocalHost_eta : Eta LocalHost := fun h =>
  Build_LocalHost (lh_volume h) (lh_device h) (lh_prepared h) (lh_capture h) (lh_cleanups h)
    (lh_failed h).

(** What starts a capture: the cache's unstable pages, the pages to read (all
    of memory for the first checkpoint after a cold boot) and what the guest's
    memory holds. *)
Record CaptureStart := {
  cs_flushed : list PageId;
  cs_pages : list PageId;
  cs_contents : PageId -> bytes;
  cs_checkpoint : option Checkpoint;
  cs_migration : bool;
  cs_complete_memory : bool }.
Inductive LocalEvent :=
| Ev_write
| Ev_sync
| Ev_acked (through : Z)
| Ev_protected
| Ev_others (backed publishing replicating : BTreeSet ObjectIdentity)
    (peer_committed : option JournalRecord)
| Ev_prepare (migration_running : bool)
| Ev_capture (start : CaptureStart) (admitted : bool)
| Ev_file_written (ok admitted : bool)
| Ev_record_written (primary mirror : bool)
| Ev_deleted (cleanup : nat) (ok : bool)
| Ev_cleaned (cleanup : nat).

Section Task.
Context `{C : Crc} `{L : Lz4} `{P : PageSize}.
Variable volume : Z.

Definition fail (h : LocalHost) : LocalHost := upd lh_failed true h.
(** A panic ends the process. *)
Definition or_dead (h : LocalHost) (c : outcome unit LocalHost) : LocalHost :=
  match c with Ok h => h | Err _ | Panic => fail h end.
Definition on_volume (f : VolumeState -> VolumeState) (h : LocalHost) : LocalHost :=
  upd lh_volume (f (lh_volume h)) h.
Definition file_name (r : Running) (file : LocalFile) : string :=
  blx_blob volume (cut_fence (ru_cut r)) file.1.1.
Definition record_names (record : JournalRecord) : string * string :=
  (journal_blob volume (jr_fence record) (jr_seq record),
   journal_mirror_blob volume (jr_fence record) (jr_seq record)).

Definition start_record (r : Running) (h : LocalHost) : outcome unit LocalHost :=
  let v := lh_volume h in
  let v := match ru_checkpoint r with
           | Some _ => upd v_vmm_blx_files
                         (batch_identities volume (cut_fence (ru_cut r)) (ru_files r)) v
           | None => v
           end in
  let record := capture_journal (ru_migration r) v (ru_cut r) (ru_checkpoint r) (ru_post_checksum r) in
  let? bs := write_record_copies volume v record (ru_block_checksums r) in
  Ok (h |> upd lh_volume v |> upd lh_capture (Capture_record r record bs)).
(** The head of the loop over the files: [admitted] is the answer of
    [try_reserve_blob]; a refusal gives the capture up. *)
Definition start_file (r : Running) (rest : list LocalFile) (admitted : bool) (h : LocalHost)
  : outcome unit LocalHost :=
  match rest with
  | [] => start_record r h
  | _ => Ok (upd lh_capture (if admitted then Capture_files r rest else Capture_idle) h)
  end.
(** Up to the first reservation: the cut, the checksums and the batch. *)
Definition build_capture (start : CaptureStart) (h : LocalHost)
  : outcome unit (VolumeState * Cut * (Z * BTreeMap BlockKey (Z * Z)) * PageBatchBuilder) :=
  let rescues := select_rescues (lh_volume h) (bts_collect (cs_flushed start)) (lh_prepared h) in
  let? (v, cut) := capture_cut (lh_volume h) (cs_pages start) rescues in
  let pages := batch_pages cut (cs_contents start) in
  let? (post, blocks) := capture_checksums v (cut_seq cut) pages (cs_checkpoint start) in
  let? builder := capture_batch volume v cut pages (cs_checkpoint start) post in
  Ok (v, cut, (post, blocks), builder).
Definition start_capture (start : CaptureStart) (admitted : bool) (h : LocalHost)
  : outcome unit LocalHost :=
  let? (v, cut, (post, blocks), builder) := build_capture start h in
  let? files := PageBatchBuilder_finish builder in
  let r := {| ru_cut := cut; ru_checkpoint := cs_checkpoint start;
              ru_migration := cs_migration start; ru_complete_memory := cs_complete_memory start;
              ru_files := files; ru_post_checksum := post; ru_block_checksums := blocks |} in
  start_file r files admitted (h |> upd lh_volume v |> upd lh_prepared []).
Definition file_written (r : Running) (file : LocalFile) (rest : list LocalFile) (admitted : bool)
    (h : LocalHost) : outcome unit LocalHost :=
  let h := upd lh_device (<[file_name r file := file.1.2]> (lh_device h)) h in
  let? (v, opened) := install_file volume (cut_fence (ru_cut r)) (ru_post_checksum r)
                        (ru_block_checksums r) file (lh_volume h) in
  let h := upd lh_volume v h in
  if (opened : bool) then start_file r rest admitted h else Ok (upd lh_capture Capture_idle h).
Definition write_if (ok : bool) (name : string) (bs : bytes) (device : Device) : Device :=
  if ok then <[name := bs]> device else device.
Definition record_written (r : Running) (record : JournalRecord) (bs : bytes)
    (primary mirror : bool) (h : LocalHost) : LocalHost :=
  let names := record_names record in
  let h := upd lh_device (write_if mirror names.2 bs (write_if primary names.1 bs (lh_device h))) h in
  if primary && mirror then
    let v := (capture_commit volume (ru_complete_memory r) (ru_cut r) (ru_files r)
                (ru_checkpoint r) record (lh_volume h)).1 in
    let cleanup := cleanup_plan volume v in
    h |> upd lh_volume v |> upd lh_capture Capture_idle
      |> upd lh_cleanups (lh_cleanups h ++ match c_names cleanup with [] => [] | _ => [cleanup] end)
  else fail h.
Definition drop_name (cleanup : Cleanup) : Cleanup :=
  {| c_names := tail (c_names cleanup); c_records := c_records cleanup; c_blx := c_blx cleanup |}.

(** A guest's sync of a data volume waits for its barrier, unless that is
    acknowledged already. *)
Definition guest_sync (v : VolumeState) : VolumeState :=
  if negb (v_ready v) || negb (bool_decide (vc_kind (v_config v) = VolumeKind_Data)) then v else
  if v_mutation_seq v <=? v_sync_ack_through v then v
  else upd v_pending_syncs (v_pending_syncs v ++ [v_mutation_seq v]) v.
(** A turn of its loop: the volume can be used once the peer has committed the
    record of its creation. *)
Definition protect_initial_replica (v : VolumeState) : VolumeState :=
  match v_best_record v, v_peer_committed_record v with
  | Some required, Some committed =>
      if cmp_leb (JournalRecord_commit_info required) (JournalRecord_commit_info committed)
      then upd v_ready true v else v
  | _, _ => v
  end.

Definition step (h : LocalHost) (event : LocalEvent) : LocalHost :=
  if lh_failed h then h else
  match event with
  | Ev_write =>
      if negb (v_ready (lh_volume h)) then h else
      or_dead h (let? seq := plus (v_mutation_seq (lh_volume h)) 1 in
                 Ok (on_volume (upd v_mutation_seq seq) h))
  | Ev_sync => on_volume guest_sync h
  | Ev_acked through =>
      on_volume (fun v => upd v_sync_ack_through (Z.max (v_sync_ack_through v) through) v) h
  | Ev_protected => on_volume protect_initial_replica h
  | Ev_others backed publishing replicating peer_committed =>
      on_volume (fun v => v |> upd v_backed_blx_files backed |> upd v_publishing_blx_files publishing
                            |> upd v_replicating_blx_files replicating
                            |> upd v_peer_committed_record peer_committed) h
  | Ev_prepare migration_running =>
      or_dead h (let? prepared := prepare_compaction volume migration_running (lh_volume h)
                                    (fun name => lh_device h !! name) in
                 Ok (upd lh_prepared prepared h))
  | Ev_capture start admitted =>
      match lh_capture h with
      | Capture_idle =>
          if v_ready (lh_volume h) then or_dead h (start_capture start admitted h) else h
      | _ => h
      end
  | Ev_file_written ok admitted =>
      match lh_capture h with
      | Capture_files r (file :: rest) =>
          if ok then or_dead h (file_written r file rest admitted h) else fail h
      | _ => h
      end
  | Ev_record_written primary mirror =>
      match lh_capture h with
      | Capture_record r record bs => record_written r record bs primary mirror h
      | _ => h
      end
  | Ev_deleted n ok =>
      match lh_cleanups h !! n with
      | Some cleanup =>
          match c_names cleanup with
          | name :: _ =>
              if ok then h |> upd lh_device (delete name (lh_device h))
                           |> upd lh_cleanups (<[n := drop_name cleanup]> (lh_cleanups h))
              else fail h
          | [] => h
          end
      | None => h
      end
  | Ev_cleaned n =>
      match lh_cleanups h !! n with
      | Some cleanup =>
          match c_names cleanup with
          | [] => h |> upd lh_volume (cleanup_done cleanup (lh_volume h))
                    |> upd lh_cleanups (delete n (lh_cleanups h))
          | _ => h
          end
      | None => h
      end
  end.
Definition run (h : LocalHost) (events : list LocalEvent) : LocalHost := fold_left step events h.

(** A new volume whose head was claimed under [fence], as [finish_creation]
    leaves it: with its first record on the device, and not yet ready. *)
Definition created (config : VolumeConfig) (fence : Z) : outcome unit LocalHost :=
  let v := upd v_fence fence (VolumeState_fresh config) in
  let record := initial_record config (v_fence v) in
  let? bs := write_record_copies volume v record [] in
  let names := record_names record in
  Ok {| lh_volume := creation_commit record v; lh_device := {[ names.1 := bs; names.2 := bs ]};
        lh_prepared := []; lh_capture := Capture_idle; lh_cleanups := []; lh_failed := false |}.

(** A turn of the reclaim loop: the file of the volume that it drops, and the
    host once that is gone. *)
Definition reclaim_one (h : LocalHost) : option (ObjectIdentity * LocalHost) :=
  identity ← reclaim_candidate (lh_volume h);
  Some (identity, h |> upd lh_device (delete (identity_blob volume identity) (lh_device h))
                    |> upd lh_volume (reclaim_done identity (lh_volume h))).

(** The names being written, and with what. *)
Definition in_flight (h : LocalHost) : list (string * bytes) :=
  match lh_capture h with
  | Capture_idle | Capture_files _ [] => []
  | Capture_files r (file :: _) => [(file_name r file, file.1.2)]
  | Capture_record _ record bs => let names := record_names record in [(names.1, bs); (names.2, bs)]
  end.
(** A write cut by a crash leaves nothing or a prefix. *)
Definition crash_image (h : LocalHost) (device : Device) : Prop :=
  forall name, device !! name = lh_device h !! name
  \/ exists bs n, In (name, bs) (in_flight h) /\ device !! name = Some (take n bs).
End Task.
