(* ===== verification/LocalRecovery.v ===== *)
(** * Recovering local volumes after a restart ([engine/recovery.rs])

    The scan hands over every named local file; BLX payloads stay on the
    device and are described by bounded reads of their header, trailer and
    footer. Each volume takes the newest record whose files are all there,
    unless a record on the device promises a later sync. *)

From stdpp Require Import gmap.
From S2P Require Import Prelude Format Types OrdMap Sorting Head Blx BlxFile BlxBatch BlxState Manifest.
From S2P Require Import Text Layout PageFile Journal ReplicaRecovery LocalCapture LocalTask.

#[local] Open Scope Z_scope.

Record BlobEntry := { be_name : string; be_bytes : bytes; be_len : Z }.
Record Found := {
  fo_records : list JournalRecord;
  fo_migration_checksums : BTreeMap (Z * Z) MigrationBlockChecksums;
  fo_migration_archives : BTreeMap (Z * Z) MigrationArchiveClosure;
  fo_journals : list (Z * Z);
  fo_blx_files : list (ObjectIdentity * Z);
  fo_record_blx_files : BTreeMap Z (BTreeSet ObjectIdentity);
  fo_tombstone_blx_files : BTreeSet ObjectIdentity;
  fo_blx_refs : BTreeMap ObjectIdentity ObjectRef;
  fo_blx_footers : BTreeMap ObjectIdentity BlxFooter;
  fo_names : list string;
  fo_max_seq : Z;
  fo_max_object_id : Z;
  fo_handoff : option Z }.
#[export] Instance Found_eta : Eta Found := fun f =>
  Build_Found (fo_records f) (fo_migration_checksums f) (fo_migration_archives f) (fo_journals f)
    (fo_blx_files f) (fo_record_blx_files f) (fo_tombstone_blx_files f) (fo_blx_refs f)
    (fo_blx_footers f) (fo_names f) (fo_max_seq f) (fo_max_object_id f) (fo_handoff f).
Definition Found_default : Found :=
  {| fo_records := []; fo_migration_checksums := []; fo_migration_archives := [];
     fo_journals := []; fo_blx_files := []; fo_record_blx_files := []; fo_tombstone_blx_files := [];
     fo_blx_refs := []; fo_blx_footers := []; fo_names := []; fo_max_seq := 0;
     fo_max_object_id := 0; fo_handoff := None |}.
Definition MAGIC_HANDOFF : Z := magic 66 72 70 49. (* BHF1 *)

Section Recovery.
Context `{C : Crc} `{L : Lz4} `{P : PageSize}.

(** ** The scan *)
Definition is_blx (name : BlobName) : bool := match name with Blob_Blx _ _ _ => true | _ => false end.
Definition scan_entry_of (file : string * bytes) : option BlobEntry :=
  kind ← parse_blob file.1;
  Some {| be_name := file.1; be_bytes := if is_blx kind then [] else file.2; be_len := len file.2 |}.
Definition scan_blob_dir_for_recovery (device : Device) : list BlobEntry :=
  omap scan_entry_of (map_to_list device).
(** Reads past the end are short. *)
Definition read_range (device : Device) (name : string) (offset length : Z) : option bytes :=
  (fun bs : bytes => take (Z.to_nat length) (drop (Z.to_nat offset) bs)) <$> device !! name.

(** ** Collecting what a volume has *)
Definition decode_handoff (volume : Z) (bs : bytes) : outcome DecodeError Z :=
  let? payload := open_frame MAGIC_HANDOFF bs in
  Dec_run (let* version := Dec_u16 in
           if negb (version =? 1) then dec_fail else
           let* v := Dec_u64 in
           if negb (v =? volume) then dec_fail else
           let* to := Dec_u32 in
           let* _ := Dec_finish in dec_ret to) payload.
Definition collect_journal {E} (volume fence seq : Z) (bs : bytes) (entry : Found) : outcome E Found :=
  let? next := plus seq 1 in
  let entry := entry |> upd fo_journals (fo_journals entry ++ [(fence, seq)])
                     |> upd fo_max_seq (Z.max (fo_max_seq entry) next) in
  let named record := (jr_fence record =? fence) && (jr_seq record =? seq) in
  let? decoded := result_ok (JournalRecord_decode volume bs) in
  match decoded with
  | Some record =>
      Ok (if named record then upd fo_records (fo_records entry ++ [record]) entry else entry)
  | None =>
      let? decoded := result_ok (JournalRecord_decode_migration_state volume bs) in
      match decoded with
      | Some (record, checksums, archive) =>
          Ok (if named record then
                entry |> upd fo_migration_checksums
                           (bt_insert (fence, seq) checksums (fo_migration_checksums entry))
                      |> upd fo_migration_archives
                           (bt_insert (fence, seq) archive (fo_migration_archives entry))
                      |> upd fo_records (fo_records entry ++ [record])
              else entry)
      | None => Ok entry
      end
  end.
Definition header_names (volume fence object : Z) (header : BlxHeader) : bool :=
  bool_decide (bh_namespace_kind header = Namespace_Volume) && (bh_namespace_id header =? volume)
  && (bh_writer_fence header =? fence) && (bh_object_id header =? object)
  && (bh_min_seq header =? bh_max_seq header).
Definition note_record_file (seq : Z) (identity : ObjectIdentity) (entry : Found) : Found :=
  upd fo_record_blx_files (bt_update seq [] (bt_insert identity tt) (fo_record_blx_files entry)) entry.
Definition note_tombstones (footer : BlxFooter) (identity : ObjectIdentity) (entry : Found) : Found :=
  if has_tombstone footer
  then upd fo_tombstone_blx_files (bt_insert identity tt (fo_tombstone_blx_files entry)) entry
  else entry.
Definition note_file (identity : ObjectIdentity) (reference : ObjectRef) (footer : BlxFooter)
    (entry : Found) : Found :=
  entry |> upd fo_blx_refs (bt_insert identity reference (fo_blx_refs entry))
        |> upd fo_blx_footers (bt_insert identity footer (fo_blx_footers entry)).
Definition collect_blx {E} (volume fence object : Z) (blob : BlobEntry) (entry : Found)
  : outcome E Found :=
  let? next := plus object 1 in
  let identity := ObjectIdentity_volume volume fence object in
  let entry := entry |> upd fo_max_object_id (Z.max (fo_max_object_id entry) next)
                     |> upd fo_blx_files (fo_blx_files entry ++ [(identity, be_len blob)]) in
  let? header := result_ok (BlxHeader_open (be_bytes blob)) in
  let entry := match header with
               | Some (header, _) =>
                   if header_names volume fence object header
                   then note_record_file (bh_max_seq header) identity entry else entry
               | None => entry
               end in
  let? scanned := result_ok (BlxObject_scan (be_bytes blob)) in
  let entry := match scanned with
               | Some (_, footer) => note_tombstones footer identity entry
               | None => entry
               end in
  let? blx := result_ok (BlxObject_open (be_bytes blob)) in
  match blx with
  | Some blx => let? reference := ObjectRef_from_blx blx in
                Ok (note_file identity reference (bo_footer blx) entry)
  | None => Ok entry
  end.
Definition collect_named {E} (parsed : BlobName) (blob : BlobEntry) (entry : Found) : outcome E Found :=
  let entry := upd fo_names (fo_names entry ++ [be_name blob]) entry in
  match parsed with
  | Blob_Journal volume fence seq => collect_journal volume fence seq (be_bytes blob) entry
  | Blob_Blx volume fence object => collect_blx volume fence object blob entry
  | Blob_Handoff volume =>
      let? handoff := result_ok (decode_handoff volume (be_bytes blob)) in
      Ok (upd fo_handoff handoff entry)
  | _ => Ok entry
  end.
Definition blob_volume (parsed : BlobName) : option Z :=
  match parsed with
  | Blob_Journal volume _ _ | Blob_Blx volume _ _ | Blob_Handoff volume => Some volume
  | Blob_ReplicaSpool _ _ _ _ => None
  end.
Definition at_volume {E} (volume : Z) (f : Found -> outcome E Found) (found : BTreeMap Z Found)
  : outcome E (BTreeMap Z Found) :=
  let? entry := f (default Found_default (bt_get volume found)) in
  Ok (bt_insert volume entry found).
Definition collect_blob {E} (found : BTreeMap Z Found) (blob : BlobEntry)
  : outcome E (BTreeMap Z Found) :=
  match parse_blob (be_name blob) with
  | None => Ok found
  | Some parsed =>
      match blob_volume parsed with
      | Some volume => at_volume volume (collect_named parsed blob) found
      | None => Ok found
      end
  end.

(** *** Bounded reads of one BLX file; [None] wherever the source returns early. *)
Definition metadata_ref (header : BlxHeader) (size footer_offset footer_length : Z) : ObjectRef :=
  {| or_identity := {| oi_namespace_kind := bh_namespace_kind header;
                       oi_namespace_id := bh_namespace_id header;
                       oi_writer_fence := bh_writer_fence header;
                       oi_object_id := bh_object_id header |};
     or_min_seq := bh_min_seq header; or_max_seq := bh_max_seq header;
     or_batch_id := bh_batch_id header; or_chunk_index := bh_chunk_index header;
     or_chunk_count := bh_chunk_count header; or_first_key := bh_first_key header;
     or_last_key := bh_last_key header; or_pre_state_checksum := bh_pre_state_checksum header;
     or_post_state_checksum := bh_post_state_checksum header; or_size := size;
     or_footer_offset := footer_offset; or_footer_length := footer_length;
     or_object_checksum := 0 |}.
Definition footer_matches (header : BlxHeader) (footer : BlxFooter) (footer_offset : Z) : bool :=
  (len (bf_entries footer) =? bh_entry_count header)
  && bool_decide (fe_key <$> List.hd_error (bf_entries footer) = Some (bh_first_key header))
  && bool_decide (fe_key <$> list.last (bf_entries footer) = Some (bh_last_key header))
  && bool_decide ((e ← list.last (bf_entries footer); checked_add W32 (fe_offset e) (fe_length e))
                  = Some footer_offset).
Definition read_blx_metadata (device : Device) (blob : BlobEntry) (volume fence object : Z)
  : outcome unit (BlxHeader * BlxFooter * ObjectRef) :=
  let read offset length := ok_or (read_range device (be_name blob) offset length) tt in
  let q {A} (c : outcome DecodeError A) := map_err (fun _ => tt) c in
  let? header_bytes := read 0 HEADER_BYTES in
  let? trailer_offset := ok_or (checked_sub (be_len blob) TRAILER_BYTES) tt in
  let? trailer_bytes := read trailer_offset TRAILER_BYTES in
  let? (header, header_end) := q (BlxHeader_open header_bytes) in
  let? (footer_offset, footer_length) := q (open_trailer trailer_bytes) in
  let footer_end := footer_offset + footer_length in
  if negb (header_names volume fence object header) || (footer_offset <? header_end)
     || negb (bool_decide (checked_add W64 footer_end TRAILER_BYTES = Some (be_len blob)))
  then Err tt else
  let? footer_bytes := read footer_offset footer_length in
  let? footer := q (BlxFooter_open footer_bytes) in
  if negb (footer_matches header footer footer_offset) then Err tt else
  if negb (be_len blob <? W32) then Err tt else
  Ok (header, footer, metadata_ref header (be_len blob) footer_offset footer_length).
Definition collect_blx_metadata {E} (device : Device) (found : BTreeMap Z Found) (blob : BlobEntry)
    (volume fence object : Z) : outcome E (BTreeMap Z Found) :=
  let? metadata := result_ok (read_blx_metadata device blob volume fence object) in
  match metadata with
  | None => Ok found
  | Some (header, footer, reference) =>
      let identity := ObjectIdentity_volume volume fence object in
      at_volume volume (fun entry =>
        Ok (entry |> note_record_file (bh_max_seq header) identity
                  |> note_tombstones footer identity
                  |> note_file identity reference footer)) found
  end.

(** ** Choosing and rebuilding *)
Definition same_file (found_ref file : ObjectRef) : bool :=
  bool_decide (found_ref = file)
  || ((or_object_checksum found_ref =? 0)
      && bool_decide (found_ref =
           {| or_identity := or_identity file; or_min_seq := or_min_seq file;
              or_max_seq := or_max_seq file; or_batch_id := or_batch_id file;
              or_chunk_index := or_chunk_index file; or_chunk_count := or_chunk_count file;
              or_first_key := or_first_key file; or_last_key := or_last_key file;
              or_pre_state_checksum := or_pre_state_checksum file;
              or_post_state_checksum := or_post_state_checksum file; or_size := or_size file;
              or_footer_offset := or_footer_offset file; or_footer_length := or_footer_length file;
              or_object_checksum := 0 |})).
Definition file_usable (self : Found) (volume : Z) (record : JournalRecord) (file : ObjectRef) : bool :=
  is_volume_file (or_identity file) && (oi_namespace_id (or_identity file) =? volume)
  && (match bt_get (or_identity file) (fo_blx_refs self) with
      | Some found_ref => same_file found_ref file
      | None => false
      end
      || (bool_decide (is_Some (jr_migrated_from record))
          && (oi_writer_fence (or_identity file) <? jr_fence record))).
Definition record_usable (self : Found) (volume : Z) (record : JournalRecord) : bool :=
  match jr_files record with
  | [] => (jr_capture_seq record =? 0) || bool_decide (is_Some (jr_migrated_from record))
          || negb (jr_post_state_checksum record =? 0)
  | _ => forallb (file_usable self volume record) (jr_files record)
  end.

Definition newer_or_new {K V} `{RustOrd K} (gen : V -> Z) (key : K) (value : V) (newest : BTreeMap K V)
  : BTreeMap K V :=
  match bt_get key newest with
  | Some old => if gen old <=? gen value then bt_insert key value newest else newest
  | None => bt_insert key value newest
  end.
(** Every entry of the files whose footers are known, with the file. *)
Definition footer_rows (self : Found) (files : list ObjectRef) : list (ObjectRef * FooterEntry) :=
  concat (map (fun file => match bt_get (or_identity file) (fo_blx_footers self) with
                           | Some footer => map (pair file) (bf_entries footer)
                           | None => []
                           end) files).
Definition materialize_page (volume : Z) (config : VolumeConfig)
    (newest : BTreeMap PageId (Z * option PageFileLoc)) (row : ObjectRef * FooterEntry)
  : BTreeMap PageId (Z * option PageFileLoc) :=
  let '(file, entry) := row in
  match BlockKey_to_page (fe_key entry) (vc_kind config) volume with
  | None => newest
  | Some page =>
      let location := if is_data entry
        then Some (entry_loc (oi_writer_fence (or_identity file)) (oi_object_id (or_identity file)) entry)
        else None in
      newer_or_new fst page (fe_generation entry, location) newest
  end.
Definition materialize_files (self : Found) (volume : Z) (config : VolumeConfig)
    (files : list ObjectRef) : BTreeMap PageId (Z * PageFileLoc) :=
  omap (fun '(page, (generation, location)) => (fun l => (page, (generation, l))) <$> location)
    (fold_left (materialize_page volume config) (footer_rows self files) []).
Definition materialize_block (newest : BTreeMap BlockKey (Z * (EntryKind * Z)))
    (row : ObjectRef * FooterEntry) : BTreeMap BlockKey (Z * (EntryKind * Z)) :=
  newer_or_new fst (fe_key row.2)
    (fe_generation row.2, (fe_kind row.2, fe_value_checksum row.2)) newest.
Definition assemble_checksum (blocks : BTreeMap BlockKey (Z * Z)) : Z :=
  fold_left (fun checksum e => Z.lxor checksum (state_contribution e.1 e.2.1 e.2.2)) blocks 0.
Definition materialize_checksums (self : Found) (files : list ObjectRef)
  : BTreeMap BlockKey (Z * Z) * Z :=
  let blocks := omap (fun '(key, (generation, (kind, value_checksum))) =>
      if bool_decide (kind = EntryKind_Data) then Some (key, (generation, value_checksum)) else None)
    (fold_left materialize_block (footer_rows self files) []) in
  (blocks, assemble_checksum blocks).
Definition materialize_vmm_blx_files (self : Found) (files : list ObjectRef) : BTreeSet ObjectIdentity :=
  bts_collect (omap (fun file =>
    match bt_get (or_identity file) (fo_blx_footers self) with
    | Some footer => if existsb (fun entry => is_vmm (fe_key entry)) (bf_entries footer)
                     then Some (or_identity file) else None
    | None => None
    end) files).

(** [Iterator::max_by_key]: the last of the greatest. *)
Definition max_by_key {A K} `{RustOrd K} (key : A -> K) (l : list A) : option A :=
  fold_left (fun best x => match best with
                           | Some b => if cmp_leb (key b) (key x) then Some x else Some b
                           | None => Some x
                           end) l None.
Definition record_rank (record : JournalRecord) : Z * Z := (jr_capture_seq record, jr_seq record).
Definition max_or_zero (l : list Z) : Z := fold_left Z.max l 0.
Definition durability_watermark (self : Found) : Z :=
  max_or_zero (map jr_sync_covered_through
    (List.filter (fun r => jr_sync_covered_through r <=? jr_capture_seq r) (fo_records self))).
Definition install_archive_closure (volume : Z) (objects : list ObjectRef) (base : option BaseRef)
    (v : VolumeState) : VolumeState :=
  v |> upd v_archive_objects objects |> upd v_archive_base base
    |> upd v_backed_blx_files
         (bts_collect (List.filter (fun i => is_volume_file i && (oi_namespace_id i =? volume))
                         (map or_identity objects))).
Definition recovered_next_gen (self : Found) (blocks : BTreeMap BlockKey (Z * Z)) : Z :=
  max_or_zero (map (fun e => saturating_add W64 (fe_generation e) 1)
                 (concat (map bf_entries (bt_values (fo_blx_footers self))))
               ++ map (fun b => saturating_add W64 b.1 1) (bt_values blocks)).
Definition recovered_record_writes (self : Found) : BTreeMap Z (Z * Z) :=
  bt_collect (map (fun '(fence, seq) =>
    (seq, (fence, match List.find (fun r => (jr_fence r =? fence) && (jr_seq r =? seq)) (fo_records self) with
                  | Some record => jr_sync_covered_through record
                  | None => 0
                  end))) (fo_journals self)).
(** [None] is the verdict [Unrestorable]; the second component is the verdict
    left for the reconciliation with the head, unless the volume was handed
    off. *)
Definition recover_volume (volume : Z) (found : Found) : option (VolumeState * option Verdict) :=
  let usable := List.filter (record_usable found volume) (fo_records found) in
  chosen ← max_by_key record_rank usable;
  let usable_watermark := max_or_zero (map jr_sync_covered_through usable) in
  if jr_capture_seq chosen <? durability_watermark found then None else
  let watermark := Z.max usable_watermark (durability_watermark found) in
  let config := jr_config chosen in
  let page_locs := match jr_runtime_page_index chosen with
                   | [] => materialize_files found volume config (jr_files chosen)
                   | index => index
                   end in
  let migration_checksums := bt_get (jr_fence chosen, jr_seq chosen) (fo_migration_checksums found) in
  let migration_archive := default MigrationArchiveClosure_default
    (bt_get (jr_fence chosen, jr_seq chosen) (fo_migration_archives found)) in
  let '(block_checksums, materialized_state_checksum) :=
    match migration_checksums with
    | Some checksums => (checksums, assemble_checksum checksums)
    | None => materialize_checksums found (jr_files chosen)
    end in
  let resume := match jr_kind chosen with
                | Kind_Checkpoint epoch vmstate _ =>
                    if VolumeConfig_is_memory config && (watermark <=? jr_capture_seq chosen)
                    then Some (epoch, vmstate) else None
                | Kind_Commit => None
                end in
  let cold := bool_decide (resume = None) in
  let is_data_key (key : BlockKey) := bool_decide (bk_space key = Space_Data) in
  let pending_tombstones :=
    if cold then bts_collect (List.filter (fun k => negb (is_data_key k)) (bt_keys block_checksums)) else [] in
  let wipe := cold && VolumeConfig_is_memory config in
  let kept_checksums := if wipe then List.filter (fun b => is_data_key b.1) block_checksums
                        else block_checksums in
  let state_checksum := if wipe then assemble_checksum kept_checksums else jr_post_state_checksum chosen in
  if negb cold && bool_decide (is_Some migration_checksums)
     && negb (materialized_state_checksum =? jr_post_state_checksum chosen) then None else
  let v := VolumeState_fresh config
    |> upd v_peer_source (ms_host <$> jr_migrated_from chosen)
    |> upd v_peer_source_offer_fence (source ← jr_migrated_from chosen; ms_offer_fence source)
    |> upd v_fence (jr_fence chosen)
    |> upd v_mutation_seq (jr_capture_seq chosen)
    |> upd v_next_seq (fo_max_seq found)
    |> upd v_next_object_id (fo_max_object_id found)
    |> upd v_next_gen (recovered_next_gen found kept_checksums)
    |> upd v_local_covered_through (Z.max watermark (jr_sync_covered_through chosen))
    |> upd v_sync_ack_through (jr_sync_covered_through chosen)
    |> upd v_page_locs (if wipe then [] else page_locs)
    |> upd v_block_checksums kept_checksums
    |> upd v_state_checksum state_checksum
    |> upd v_archived_memory_usable (negb cold)
    |> install_archive_closure volume (mac_objects migration_archive) (mac_base migration_archive)
    |> upd v_pending_tombstones pending_tombstones
    |> upd v_vmm_blx_files (if cold then [] else materialize_vmm_blx_files found (jr_files chosen))
    |> upd v_epoch (match resume with Some (epoch, _) => epoch | None => 0 end)
    |> upd v_pinned (match resume with Some _ => Some chosen | None => None end)
    |> upd v_best_record (Some chosen)
    |> upd v_outbound (fo_handoff found)
    |> upd v_record_writes (recovered_record_writes found)
    |> upd v_record_blx_files (fo_record_blx_files found)
    |> upd v_tombstone_blx_files (fo_tombstone_blx_files found)
    |> upd v_blx_refs (fo_blx_refs found)
    |> upd v_blx_blobs (fo_blx_files found) in
  let verdict := match resume with
                 | Some (epoch, vmstate) => Verdict_Resume epoch vmstate
                 | None => Verdict_ColdBoot
                 end in
  Some (v, match fo_handoff found with Some _ => None | None => Some verdict end).

Definition is_spool (blob : BlobEntry) : bool :=
  match parse_blob (be_name blob) with Some (Blob_ReplicaSpool _ _ _ _) => true | _ => false end.
Definition collect_step {E} (device : Device) (found : BTreeMap Z Found) (blob : BlobEntry)
  : outcome E (BTreeMap Z Found) :=
  if is_spool blob then Ok found else
  let? found := collect_blob found blob in
  match be_bytes blob, parse_blob (be_name blob) with
  | [], Some (Blob_Blx volume fence object) =>
      collect_blx_metadata device found blob volume fence object
  | _, _ => Ok found
  end.
(** The volumes of [recover_local], in order; the spools are recovered by
    [recover_spools]. *)
Definition recover_local {E} (device : Device) (scan : list BlobEntry)
  : outcome E (list (Z * option (VolumeState * option Verdict))) :=
  let scan := sort_by (fun a b => cmp_leb (be_name a) (be_name b)) scan in
  let? found := fold_outcome (collect_step device) [] scan in
  Ok (map (fun '(volume, found) => (volume, recover_volume volume found)) found).
Definition restart {E} (device : Device) : outcome E (list (Z * option (VolumeState * option Verdict))) :=
  recover_local device (scan_blob_dir_for_recovery device).

(** ** Filling a page from a local file ([engine/fault.rs]) *)
Definition verify_entry (page : PageId) (generation : Z) (bs : option bytes) : option bytes :=
  bs ← bs;
  match open_entry (pid_volume page) bs with
  | Ok (found, found_generation, raw) =>
      if (pid_volume found =? pid_volume page) && (pid_page found =? pid_page page)
         && (found_generation =? generation)
      then Some raw else None
  | _ => None
  end.
(** The local attempt of [fetch_page], which comes first. *)
Definition fetch_local (device : Device) (page : PageId) (generation : Z) (location : PageFileLoc)
  : option bytes :=
  bs ← read_range device (blx_blob (pid_volume page) (pl_fence location) (pl_object location))
         (pl_offset location) (pl_len location);
  verify_entry page generation (Some bs).
(** What a guest reads of a page that has a location; a page without one is
    filled with zeros. *)
Definition read_local (device : Device) (v : VolumeState) (page : PageId) : option bytes :=
  match bt_get page (v_page_locs v) with
  | Some (generation, location) => fetch_local device page generation location
  | None => None
  end.
End Recovery.
