(* ===== verification/LocalBatch.v ===== *)
(** * The batches of a volume

    A capture's files are one batch; a journal record names whole batches, in
    the order they were written. Such a list passes the checks a record's
    decoder makes, and so is readable after a restart.

    The generations a cut hands out are new, the entries of a capture's batch
    are one per captured page beside those of the VMM snapshot, and the batch
    is well formed, so its files hold exactly these entries. *)

From Stdlib Require Import Sorted.
From S2P Require Import Prelude Format Types OrdMap Sorting Blx BlxFile BlxBatch BlxState Manifest ManifestOverlap ManifestCodec.
From S2P Require Import BatchRefs PageFile Journal LocalCapture.

#[local] Open Scope Z_scope.

(** ** Validating several batches *)
Section Several.
Context `{P : PageSize}.
Abbreviation Grouping := (BTreeSet ObjectIdentity * BTreeMap (ObjectIdentity * Z) Batch)%type.
Implicit Types (own : list ObjectRef) (big small : Grouping).

(** [small] is what [big] has of the batches and identities of [own]. *)
Record beside own big small : Prop := {
  bd_ids k : In k (map or_identity own) -> In k (bt_keys big.1) <-> In k (bt_keys small.1);
  bd_batches k : In k (map batch_key own) -> bt_get k big.2 = bt_get k small.2;
  bd_sorted : bt_sorted big.2 }.
Lemma beside_step own big small o small' : beside own big small -> In o own ->
  group_object small o = Ok small' ->
  exists big', group_object big o = Ok big' /\ beside own big' small'
    /\ (forall k, ~ In k (map batch_key own) -> bt_get k big'.2 = bt_get k big.2)
    /\ (forall k, In k (bt_keys big'.1) <-> k = or_identity o \/ In k (bt_keys big.1)).
Proof.
  intros B Ho. destruct big as [ids bs], small as [ids' bs'].
  assert (In (batch_key o) (map batch_key own)) as Hk by now apply in_map.
  assert (In (or_identity o) (map or_identity own)) as Hi by now apply in_map.
  unfold group_object, bts_insert. pose proof (bd_batches _ _ _ B _ Hk) as Hb. simpl in Hb. rewrite Hb.
  destruct (bt_contains (or_identity o) ids') eqn:E; [discriminate|]. simpl negb. cbv iota.
  assert (bt_contains (or_identity o) ids = false) as ->.
  { apply not_true_iff_false. intros H%bt_contains_In. apply not_true_iff_false in E.
    apply E, bt_contains_In. now apply (bd_ids _ _ _ B _ Hi). }
  simpl negb. cbv iota. destruct (_ || _); [discriminate|]. intros [= <-].
  eexists. split; [reflexivity|]. split; [split; simpl|split; simpl].
  - intros k Hin. rewrite !bt_keys_insert. pose proof (bd_ids _ _ _ B _ Hin) as H. simpl in H. tauto.
  - intros k Hin. destruct (decide (k = batch_key o)) as [->|Hne]; [now rewrite !bt_get_insert_eq|].
    rewrite !bt_get_insert_ne by exact Hne. exact (bd_batches _ _ _ B _ Hin).
  - apply bt_insert_sorted, (bd_sorted _ _ _ B).
  - intros k Hn. apply bt_get_insert_ne. now intros ->.
  - intros k. apply bt_keys_insert.
Qed.
Lemma beside_fold own l : (forall o, In o l -> In o own) -> forall big small small',
  beside own big small -> fold_outcome group_object small l = Ok small' ->
  exists big', fold_outcome group_object big l = Ok big' /\ beside own big' small'
    /\ (forall k, ~ In k (map batch_key own) -> bt_get k big'.2 = bt_get k big.2)
    /\ (forall k, In k (bt_keys big'.1) <-> In k (map or_identity l) \/ In k (bt_keys big.1)).
Proof.
  induction l as [|o l IH]; intros Hl big small small' B H; simpl in H.
  { injection H as <-. exists big. simpl. intuition. }
  apply outcome_bind_Ok in H as (small1 & H1 & H).
  destruct (beside_step _ _ _ _ _ B (Hl o (or_introl eq_refl)) H1) as (big1 & Hs & B1 & K1 & I1).
  destruct (IH (fun x Hx => Hl x (or_intror Hx)) big1 small1 small' B1 H) as (big2 & Hs2 & B2 & K2 & I2).
  exists big2. cbn [fold_outcome]. rewrite Hs. cbn [outcome_bind]. split; [exact Hs2|]. split; [exact B2|]. split.
  - intros k Hn. now rewrite K2, K1.
  - intros k. rewrite I2, I1. simpl. intuition.
Qed.

(** Complete batches with different keys and identities. *)
Definition batches_apart (os os' : list ObjectRef) : Prop :=
  forall a b, In a os -> In b os' -> batch_key a <> batch_key b /\ or_identity a <> or_identity b.
Definition all_complete (s : Grouping) : Prop :=
  bt_sorted s.2 /\ forall k b, bt_get k s.2 = Some b -> batch_complete b = true.
Lemma group_batches oss : Forall batch_refs oss -> StronglySorted batches_apart oss ->
  forall s, all_complete s ->
  (forall os o, In os oss -> In o os -> ~ In (batch_key o) (bt_keys s.2) /\ ~ In (or_identity o) (bt_keys s.1)) ->
  exists s', fold_outcome group_object s (concat oss) = Ok s' /\ all_complete s'.
Proof.
  induction 1 as [|os oss B _ IH]; intros Hs s Hc Hfresh; [simpl; eauto|].
  apply StronglySorted_inv in Hs as [Hs Hapart]. cbn [concat]. rewrite fold_outcome_app.
  destruct (group_all os os B [] [] eq_refl) as (ids & Hg); [reflexivity|].
  assert (beside os s ([], grouped [])) as Hb.
  { split; [| |apply Hc].
    - intros k (o & <- & Ho)%in_map_iff. simpl. split; [|tauto].
      intros Hin. exact (proj2 (Hfresh os o (or_introl eq_refl) Ho) Hin).
    - intros k (o & <- & Ho)%in_map_iff. apply bt_get_None. apply (Hfresh os o); [now left|exact Ho]. }
  destruct (beside_fold os os (fun _ H => H) _ _ _ Hb Hg) as (s1 & H1 & B1 & K1 & I1). rewrite H1.
  cbn [outcome_bind]. apply IH; [exact Hs| |].
  - split; [apply (bd_sorted _ _ _ B1)|]. intros k b Hk.
    destruct (in_dec (fun a b => decide (a = b)) k (map batch_key os)) as [Hin|Hout].
    + rewrite (bd_batches _ _ _ B1 k Hin) in Hk. pose proof (batch_refs_complete os B) as Hbc.
      rewrite forallb_forall in Hbc. apply Hbc. apply bt_get_In in Hk. now apply (in_map snd) in Hk.
    + rewrite K1 in Hk by exact Hout. now apply (proj2 Hc k).
  - intros os' o Hos' Ho. rewrite List.Forall_forall in Hapart. split.
    + intros Hin. destruct (in_dec (fun a b => decide (a = b)) (batch_key o) (map batch_key os)) as [(a & Ha & Hain)%in_map_iff|Hout].
      * now destruct (Hapart os' Hos' a o Hain Ho).
      * destruct (bt_get (batch_key o) s1.2) as [b|] eqn:E; [|now apply bt_get_None in E].
        rewrite K1 in E by exact Hout. apply (proj1 (Hfresh os' o (or_intror Hos') Ho)).
        apply bt_get_In, (in_map fst) in E. exact E.
    + intros [(a & Ha & Hain)%in_map_iff|Hin]%I1; [now destruct (Hapart os' Hos' a o Hain Ho)|].
      now apply (Hfresh os' o (or_intror Hos') Ho).
Qed.
Lemma batches_valid oss : Forall batch_refs oss -> StronglySorted batches_apart oss ->
  len (concat oss) < W64 -> validate_journal_object_refs (concat oss) = Ok tt.
Proof.
  intros HB Hs Hl. unfold validate_journal_object_refs, validate_objects.
  destruct (group_batches oss HB Hs ([], [])) as ([ids bs] & Hg & [Hsort Hc]);
    [split; [constructor|discriminate]|simpl; tauto|].
  rewrite Hg. cbn [outcome_bind].
  assert (forallb batch_complete (bt_values bs) = true) as ->.
  { apply forallb_forall. intros b ([k b'] & Hb & Hin)%in_map_iff. simpl in Hb. subst b'.
    apply (Hc k). now apply In_bt_get. }
  cbn [negb].
  assert (forall o, In o (concat oss) -> cmp_leb (or_first_key o) (or_last_key o) = true) as Hord.
  { intros o (os & Hos & Ho)%in_concat. rewrite List.Forall_forall in HB.
    apply list_elem_of_In, list_elem_of_lookup in Ho as [n Hn]. now apply (br_ordered _ (HB os Hos) n). }
  pose proof (sweep_run (concat oss) Hord Hl None [] (object_events (concat oss)) eq_refl) as Hsw.
  rewrite balance_nil in Hsw. rewrite Hsw, (proj2 (forallb_forall _ _)); [reflexivity|]. now intros.
Qed.
End Several.

(** ** What one capture wrote *)
Abbreviation File := (BlxObject * list BlxEntry)%type.
Record Written := { w_seq : Z; w_files : list File }.
Definition file_id (f : File) : Z := bh_object_id (bo_header f.1).
Definition file_ref (f : File) : ObjectRef := written_ref f.1.
Definition w_refs (w : Written) : list ObjectRef := map file_ref (w_files w).
Definition all_files (ws : list Written) : list File := concat (map w_files ws).

Section Written.
Context `{CL : CrcLaws} `{LL : Lz4Laws} `{PL : PageSizeLaws}.
Hypothesis small_pages : page_size <= 16 * 1024 * 1024.
Variables volume fence : Z.

Definition identity_of (id : Z) : ObjectIdentity := ObjectIdentity_volume volume fence id.
Record file_ok (seq : Z) (f : File) : Prop := {
  fk_holds : file_holds f.1 f.2;
  fk_ref : ObjectRef_ok (file_ref f);
  fk_len : len (bo_bytes f.1) < W32;
  fk_id : fits W64 (file_id f);
  fk_identity : or_identity (file_ref f) = identity_of (file_id f);
  fk_seq : bh_batch_id (bo_header f.1) = seq /\ bh_min_seq (bo_header f.1) = seq
           /\ bh_max_seq (bo_header f.1) = seq }.
Record written_ok (w : Written) : Prop := {
  wo_files : Forall (file_ok (w_seq w)) (w_files w);
  wo_ids : StronglySorted Z.lt (map file_id (w_files w)) }.
(** All files of the batch are there. *)
Definition whole (w : Written) : Prop := batch_refs (w_refs w).
Definition before (w w' : Written) : Prop :=
  w_seq w < w_seq w' /\ forall f f', In f (w_files w) -> In f' (w_files w') -> file_id f < file_id f'.
Record all_written (ws : list Written) : Prop := {
  aw_ok : Forall written_ok ws;
  aw_order : StronglySorted before ws }.

Lemma file_ref_key seq f : file_ok seq f -> batch_key (file_ref f) = (identity_of 0, seq).
Proof.
  intros K. unfold batch_key, batch_namespace. rewrite (fk_identity _ _ K). unfold file_ref. cbn [written_ref or_batch_id].
  now destruct (fk_seq _ _ K) as [-> _].
Qed.
Lemma written_file w f : written_ok w -> In f (w_files w) -> file_ok (w_seq w) f.
Proof. intros K. pose proof (wo_files _ K) as H. rewrite List.Forall_forall in H. apply H. Qed.
Lemma all_files_In ws f : In f (all_files ws) <-> exists w, In w ws /\ In f (w_files w).
Proof.
  unfold all_files. rewrite in_concat. split.
  - intros (l & (w & <- & Hw)%in_map_iff & Hf). eauto.
  - intros (w & Hw & Hf). exists (w_files w). split; [now apply in_map|exact Hf].
Qed.
Lemma all_files_ok ws f : all_written ws -> In f (all_files ws) -> exists seq, file_ok seq f.
Proof.
  intros A (w & Hw & Hf)%all_files_In. pose proof (aw_ok _ A) as H. rewrite List.Forall_forall in H.
  eexists. now apply (written_file w); [apply H|].
Qed.

Lemma before_apart w w' : written_ok w -> written_ok w' -> before w w' -> batches_apart (w_refs w) (w_refs w').
Proof.
  intros K K' [Hs Hi] a b (f & <- & Hf)%in_map_iff (f' & <- & Hf')%in_map_iff.
  pose proof (written_file _ _ K Hf) as F. pose proof (written_file _ _ K' Hf') as F'. split.
  - rewrite (file_ref_key _ _ F), (file_ref_key _ _ F'). intros [=]. lia.
  - rewrite (fk_identity _ _ F), (fk_identity _ _ F'). intros [=]. pose proof (Hi f f' Hf Hf'). lia.
Qed.
Lemma written_apart ws : all_written ws -> StronglySorted batches_apart (map w_refs ws).
Proof.
  intros [Hok Hs]. induction Hs as [|w ws Hs IH Hw]; [constructor|]. inversion Hok as [|? ? K Hok']; subst.
  constructor; [now apply IH|]. rewrite List.Forall_forall in *. intros os (w' & <- & Hw')%in_map_iff.
  apply before_apart; auto.
Qed.
Lemma written_refs_concat ws : concat (map w_refs ws) = map file_ref (all_files ws).
Proof. unfold all_files, w_refs. rewrite concat_map, map_map. reflexivity. Qed.
Lemma written_valid ws : all_written ws -> Forall whole ws -> len (all_files ws) < W64 ->
  validate_journal_object_refs (map file_ref (all_files ws)) = Ok tt.
Proof.
  intros A HW Hl. rewrite <- written_refs_concat. apply batches_valid.
  - apply Forall_map. exact HW.
  - now apply written_apart.
  - rewrite written_refs_concat. unfold len in *. now rewrite length_map.
Qed.

Lemma sorted_join {A} (R : A -> A -> Prop) l l' : StronglySorted R l -> StronglySorted R l' ->
  (forall x y, In x l -> In y l' -> R x y) -> StronglySorted R (l ++ l').
Proof.
  induction 1 as [|x l Hl IH Hx]; intros Hl' HR; [exact Hl'|]. constructor.
  - apply IH; auto with datatypes.
  - apply Forall_app. split; [exact Hx|]. apply List.Forall_forall. intros y Hy. apply HR; auto with datatypes.
Qed.
Lemma strongly_sorted_of_lookup {A} (R : A -> A -> Prop) l :
  (forall i j x y, (i < j)%nat -> l !! i = Some x -> l !! j = Some y -> R x y) -> StronglySorted R l.
Proof.
  induction l as [|x l IH]; intros H; constructor.
  - apply IH. intros i j a b Hij Ha Hb. apply (H (S i) (S j)); auto; lia.
  - apply Forall_lookup. intros i y Hy. apply (H 0%nat (S i)); auto; lia.
Qed.
(** Ids increase along the whole list. *)
Lemma all_files_ids ws : all_written ws -> StronglySorted Z.lt (map file_id (all_files ws)).
Proof.
  intros [Hok Hs]. induction Hs as [|w ws Hs IH Hw]; [constructor|]. inversion Hok as [|? ? K Hok']; subst.
  unfold all_files. cbn [map concat]. rewrite map_app. specialize (IH Hok').
  pose proof (wo_ids _ K) as Hids. clear K Hok. rewrite List.Forall_forall in Hw.
  assert (forall f f', In f (w_files w) -> In f' (all_files ws) -> file_id f < file_id f') as Hlt.
  { intros f f' Hf (w' & Hw' & Hf')%all_files_In. now apply (Hw w' Hw'). }
  apply sorted_join; [exact Hids|exact IH|].
  intros i j (f & <- & Hf)%in_map_iff (f' & <- & Hf')%in_map_iff. now apply Hlt.
Qed.
Lemma file_by_id ws f f' : all_written ws -> In f (all_files ws) -> In f' (all_files ws) ->
  file_id f = file_id f' -> f = f'.
Proof.
  intros A Hf Hf' He. pose proof (all_files_ids ws A) as Hs.
  revert Hf Hf' Hs. induction (all_files ws) as [|x l IH]; [easy|]. simpl. intros Hf Hf' [Hs Hx]%StronglySorted_inv.
  rewrite List.Forall_forall in Hx.
  destruct Hf as [->|Hf], Hf' as [->|Hf']; auto.
  - pose proof (Hx _ (in_map file_id _ _ Hf')). lia.
  - pose proof (Hx _ (in_map file_id _ _ Hf)). lia.
Qed.

(** ** The files a record names *)
Lemma sorted_same {A} (R : A -> A -> Prop) l : (forall x, ~ R x x) -> (forall x y, R x y -> ~ R y x) ->
  forall l', StronglySorted R l -> StronglySorted R l' -> (forall x, In x l <-> In x l') -> l = l'.
Proof.
  intros Hirr Has. induction l as [|x l IH]; intros [|y l'] Hs Hs' He; [reflexivity|..].
  - now destruct (proj2 (He y) (or_introl eq_refl)).
  - now destruct (proj1 (He x) (or_introl eq_refl)).
  - apply StronglySorted_inv in Hs as [Hs Hx], Hs' as [Hs' Hy]. rewrite List.Forall_forall in Hx, Hy.
    assert (x = y) as <-.
    { destruct (proj1 (He x) (or_introl eq_refl)) as [|Hin]; [congruence|].
      destruct (proj2 (He y) (or_introl eq_refl)) as [|Hin']; [congruence|].
      now destruct (Has x y (Hx y Hin')); apply Hy. }
    f_equal. apply IH; [exact Hs|exact Hs'|]. intros z. split; intros Hz.
    + destruct (proj1 (He z) (or_intror Hz)) as [<-|]; [now destruct (Hirr x); apply Hx|assumption].
    + destruct (proj2 (He z) (or_intror Hz)) as [<-|]; [now destruct (Hirr x); apply Hy|assumption].
Qed.
Lemma set_extend_keys {K} `{RustOrdLaws K} (s : BTreeSet K) l k :
  In k (bt_keys (set_extend s l)) <-> In k (bt_keys s) \/ In k l.
Proof.
  unfold set_extend. revert s. induction l as [|x l IH]; intros s; simpl; [tauto|].
  rewrite IH, bt_keys_insert. intuition.
Qed.

Definition needed (v : VolumeState) (i : ObjectIdentity) : Prop :=
  In i (local_identities (v_page_locs v)) \/ In i (bt_keys (v_tombstone_blx_files v))
  \/ In i (bt_keys (v_vmm_blx_files v)).
Lemma needed_blx_spec v i : bt_contains i (needed_blx v) = true <-> needed v i.
Proof.
  rewrite bt_contains_In. unfold needed_blx, needed. rewrite !set_extend_keys, bts_collect_keys. tauto.
Qed.
Definition w_needed (v : VolumeState) (w : Written) : bool :=
  existsb (fun f => bt_contains (identity_of (file_id f)) (needed_blx v)) (w_files w).

(** The index of local files has every file of [ws], and what else it has
    belongs to other batches. *)
Record refs_cover (v : VolumeState) (ws : list Written) : Prop := {
  rc_sorted : bt_sorted (v_blx_refs v);
  rc_own f : In f (all_files ws) -> bt_get (identity_of (file_id f)) (v_blx_refs v) = Some (file_ref f);
  rc_all i r : In (i, r) (v_blx_refs v) -> i = or_identity r
    /\ ((exists f, In f (all_files ws) /\ r = file_ref f) \/ ~ In (or_batch_id r) (map w_seq ws));
  rc_needed i : needed v i -> exists f, In f (all_files ws) /\ i = identity_of (file_id f) }.

Lemma identity_lt a b : cmp (identity_of a) (identity_of b) = Lt <-> a < b.
Proof.
  change (cmp_then (0 ?= 0) (cmp_then (volume ?= volume) (cmp_then (fence ?= fence) (a ?= b))) = Lt <-> a < b).
  rewrite !Z.compare_refl. apply Z.compare_lt_iff.
Qed.
Lemma sorted_map {A B} (R : A -> A -> Prop) (S : B -> B -> Prop) (f : A -> B) l :
  (forall x y, In x l -> In y l -> R x y -> S (f x) (f y)) -> StronglySorted R l -> StronglySorted S (map f l).
Proof.
  intros HR Hs. induction Hs as [|x l Hl IH Hx]; [constructor|]. simpl. constructor.
  - apply IH. intros; apply HR; auto with datatypes.
  - rewrite List.Forall_forall in *. intros y (z & <- & Hz)%in_map_iff. apply HR; auto with datatypes.
Qed.
Lemma sorted_sublist {A} (R : A -> A -> Prop) (p : A -> bool) l :
  StronglySorted R l -> StronglySorted R (List.filter p l).
Proof.
  induction 1 as [|x l Hl IH Hx]; [constructor|]. simpl. destruct (p x); [|exact IH].
  constructor; [exact IH|]. now apply Forall_list_filter.
Qed.
Lemma filter_written p ws : all_written ws -> all_written (List.filter p ws).
Proof. intros [Hok Hs]. split; [now apply Forall_list_filter|now apply sorted_sublist]. Qed.

Definition ref_lt (a b : ObjectRef) : Prop := cmp (or_identity a) (or_identity b) = Lt.
Lemma refs_sorted ws : all_written ws -> StronglySorted ref_lt (map file_ref (all_files ws)).
Proof.
  intros A. apply (sorted_map (fun f f' => file_id f < file_id f')).
  - intros f f' Hf Hf' Hlt. unfold ref_lt.
    destruct (all_files_ok ws f A Hf) as [s K], (all_files_ok ws f' A Hf') as [s' K'].
    rewrite (fk_identity _ _ K), (fk_identity _ _ K'). now apply identity_lt.
  - pose proof (all_files_ids ws A) as Hs. clear A. induction (all_files ws) as [|f l IH]; [constructor|].
    apply StronglySorted_inv in Hs as [Hs Hf]. constructor; [now apply IH|].
    rewrite List.Forall_forall in *. intros f' Hf'. apply Hf. now apply in_map.
Qed.
Lemma values_sorted v ws : refs_cover v ws -> StronglySorted ref_lt (bt_values (v_blx_refs v)).
Proof.
  intros R. apply (sorted_map bt_lt); [|apply R]. intros [i r] [i' r'] H H' Hlt. unfold ref_lt. cbn [snd].
  destruct (rc_all _ _ R _ _ H) as [<- _], (rc_all _ _ R _ _ H') as [<- _]. exact Hlt.
Qed.
Lemma file_batch ws w f : all_written ws -> In w ws -> In f (w_files w) -> batch_of_file (file_ref f) = (fence, w_seq w).
Proof.
  intros A Hw Hf. pose proof (aw_ok _ A) as Hok. rewrite List.Forall_forall in Hok.
  pose proof (written_file w f (Hok w Hw) Hf) as K. unfold batch_of_file. rewrite (fk_identity _ _ K).
  unfold file_ref. cbn [written_ref or_batch_id]. now destruct (fk_seq _ _ K) as [-> _].
Qed.
Lemma seq_unique ws w w' : all_written ws -> In w ws -> In w' ws -> w_seq w = w_seq w' -> w = w'.
Proof.
  intros A Hw Hw' He. pose proof (aw_order _ A) as Ho. clear A. induction Ho as [|x l Hl IH Hx]; [easy|].
  rewrite List.Forall_forall in Hx. destruct Hw as [<-|Hw], Hw' as [<-|Hw']; auto.
  - destruct (Hx _ Hw'). lia.
  - destruct (Hx _ Hw). lia.
Qed.
Lemma needed_entry v ws i r : all_written ws -> refs_cover v ws -> In (i, r) (v_blx_refs v) -> needed v i ->
  exists w, In w ws /\ batch_of_file r = (fence, w_seq w) /\ w_needed v w = true.
Proof.
  intros A R Hin Hn. destruct (rc_needed _ _ R i Hn) as (f & Hf & ->).
  apply In_bt_get in Hin; [|apply R]. rewrite (rc_own _ _ R f Hf) in Hin. injection Hin as <-.
  apply all_files_In in Hf as (w & Hw & Hf). exists w. split; [exact Hw|]. split; [now apply (file_batch ws)|].
  apply existsb_exists. exists f. split; [exact Hf|]. now apply needed_blx_spec.
Qed.
(** The record names exactly the batches that have a needed file. *)
Lemma recovery_files_eq v ws : all_written ws -> refs_cover v ws ->
  recovery_files v = map file_ref (all_files (List.filter (w_needed v) ws)).
Proof.
  intros A R. apply (sorted_same ref_lt).
  - intros x H. unfold ref_lt in H. now rewrite cmp_refl in H.
  - intros x y H H'. pose proof (cmp_lt_trans _ _ _ H H') as Hx. now rewrite cmp_refl in Hx.
  - apply sorted_sublist, (values_sorted v ws R).
  - now apply refs_sorted, filter_written.
  - intros r. unfold recovery_files. rewrite filter_In, bt_contains_In, bts_collect_keys, in_map_iff.
    rewrite (in_map_iff file_ref). unfold bt_values. rewrite (in_map_iff snd). split.
    + intros (([i r'] & <- & Hin) & [i' r''] & Hb & [Hin' Hn]%filter_In). cbn [snd fst] in *.
      apply needed_blx_spec in Hn. destruct (needed_entry v ws i' r'' A R Hin' Hn) as (w & Hw & Hbw & Hnw). rewrite Hbw in Hb.
      destruct (rc_all _ _ R _ _ Hin) as [-> [(f' & Hf' & ->)|Hout]].
      2:{ destruct Hout. injection Hb as _ Hb. rewrite <- Hb. now apply in_map. }
      exists f'. split; [reflexivity|]. apply all_files_In in Hf' as (w' & Hw' & Hf'). apply all_files_In.
      rewrite (file_batch ws w' f' A Hw' Hf') in Hb. injection Hb as Hb.
      rewrite <- (seq_unique ws w w' A Hw Hw' Hb) in *. exists w. split; [|exact Hf']. now apply filter_In.
    + intros (f & <- & Hf). apply all_files_In in Hf as (w & [Hw Hn]%filter_In & Hf).
      assert (forall f, In f (w_files w) -> In (identity_of (file_id f), file_ref f) (v_blx_refs v)) as Hown.
      { intros f0 Hf0. apply bt_get_In, (rc_own _ _ R). apply all_files_In. eauto. }
      split; [exists (identity_of (file_id f), file_ref f); split; [reflexivity|now apply Hown]|].
      apply existsb_exists in Hn as (f0 & Hf0 & Hn). exists (identity_of (file_id f0), file_ref f0). cbn [snd].
      rewrite (file_batch ws w f0 A Hw Hf0), (file_batch ws w f A Hw Hf). split; [reflexivity|].
      apply filter_In. split; [now apply Hown|exact Hn].
Qed.

(** ** From a builder to its batch *)
Definition local_file (f : File) : LocalFile :=
  (file_id f, bo_bytes f.1,
   omap (finish_row volume fence (file_id f)) (List.filter is_data (object_rows HEADER_BYTES f.2))).
Definition batch_meta_of (b : PageBatchBuilder) (seq : Z) : Prop :=
  pb_volume b = volume /\ pb_fence b = fence
  /\ bm_batch_id (bb_meta (pb_builder b)) = seq /\ bm_min_seq (bb_meta (pb_builder b)) = seq
  /\ bm_max_seq (bb_meta (pb_builder b)) = seq.
Lemma finish_any_error {E} b files : builder_ok b -> @BlxBatchBuilder_finish _ _ _ E b = Ok files ->
  @BlxBatchBuilder_finish _ _ _ DecodeError b = Ok files.
Proof using LL PL small_pages.
  intros Hb. rewrite !(finish_run small_pages) by exact Hb. destruct (BlxBatchBuilder_object_ids_fit b); [|discriminate].
  now intros [= <-].
Qed.
Lemma finish_written {E} b files seq : PageBatch_ok b -> batch_meta_of b seq ->
  @PageBatchBuilder_finish _ _ _ E b = Ok files ->
  exists w, written_ok w /\ whole w /\ w_seq w = seq /\ files = map local_file (w_files w)
    /\ (forall n f, w_files w !! n = Some f -> file_id f = bm_first_object_id (bb_meta (pb_builder b)) + Z.of_nat n)
    /\ concat (map snd (w_files w)) = bt_values (bb_entries (pb_builder b)) /\ len (w_files w) < W32.
Proof using CL LL PL small_pages.
  intros (Hb & Hk & Hn & Hw) (Hv & Hf & Hbat & Hmin & Hmax) (objects & Ho & [= <-])%outcome_bind_Ok.
  apply finish_any_error in Ho; [|exact Hb].
  pose proof (finish_batch_refs small_pages _ _ Hb Ho) as Hrefs.
  pose proof (finish_refs small_pages _ _ Hb Ho) as Hok.
  pose proof (fun n f H => proj1 (finish_layout small_pages _ _ n f Hb Ho H)) as Hids.
  destruct (finish_holds small_pages _ _ Hb Ho) as [Hch Hh].
  destruct (builder_chunks_good small_pages _ Hb) as (Hcat & _ & Hlen & _).
  set (chunks := builder_chunks (pb_builder b)) in *.
  assert (length objects = length chunks) as Hl by exact (Forall2_length Hh).
  set (files := zip objects chunks).
  assert (map fst files = objects) as Hfst by (apply fst_zip; lia).
  assert (map snd files = chunks) as Hsnd by (apply snd_zip; lia).
  assert (forall n f, files !! n = Some f -> objects !! n = Some f.1 /\ chunks !! n = Some f.2) as Hat.
  { intros n f Hfn. apply lookup_zip_with_Some in Hfn as (o & es & -> & H1 & H2). now split. }
  assert (Forall (file_ok seq) files) as Hfiles.
  { apply Forall_lookup. intros n f (H1 & H2)%Hat. rewrite Forall_lookup in Hok. destruct (Hok n _ H1) as [Hfl Hfr].
    pose proof (Forall2_lookup_lr _ _ _ _ _ _ Hh H1 H2) as Hfh. split; auto.
    - unfold ObjectRef_ok, ObjectIdentity_ok in Hfr. unfold file_id. destruct Hfr as [(_ & _ & Hid) _]. exact Hid.
    - unfold file_ref, file_id, written_ref. rewrite Hch in H1. apply chunk_objects_nth in H1 as (es & _ & ->).
      unfold chunk_object, chunk_header, object_header, identity_of, ObjectIdentity_volume. cbn. congruence.
    - rewrite Hch in H1. apply chunk_objects_nth in H1 as (es & _ & ->).
      unfold chunk_object, chunk_header, object_header. cbn. auto. }
  exists {| w_seq := seq; w_files := files |}. cbn [w_seq w_files]. split; [split; [exact Hfiles|]|split; [|split; [reflexivity|split; [|split; [|split]]]]].
  - cbn [w_files]. apply strongly_sorted_of_lookup. intros i j x y Hij (f & -> & Hfi)%list_lookup_fmap_Some (f' & -> & Hfj)%list_lookup_fmap_Some.
    destruct (Hat _ _ Hfi) as [H1 _], (Hat _ _ Hfj) as [H2 _]. unfold file_id. rewrite (Hids _ _ H1), (Hids _ _ H2). lia.
  - unfold whole, w_refs, file_ref. cbn [w_files]. rewrite <- (map_map fst written_ref), Hfst. exact Hrefs.
  - rewrite <- Hfst, map_map. apply map_ext_in. intros f Hin. rewrite List.Forall_forall in Hfiles.
    pose proof (fk_holds _ _ (Hfiles f Hin)) as Hfh. destruct (file_holds_scan small_pages _ _ Hfh) as [_ Hfoot].
    unfold local_file, file_id. now rewrite Hfoot, Hv, Hf.
  - intros n f (H1 & _)%Hat. exact (Hids n _ H1).
  - now rewrite Hsnd.
  - unfold len. rewrite <- (length_map fst), Hfst, Hl. fold (len chunks). destruct Hb as (_ & _ & Hb). lia.
Qed.
End Written.

(** ** What a capture puts into its batch *)
Lemma plus_Ok {E} x y z : @plus E x y = Ok z <-> x + y < W64 /\ z = x + y.
Proof. unfold plus, checked_add. destruct (Z.ltb_spec (x + y) W64); simpl; split; intros H0; try lia; [injection H0|destruct H0; congruence|discriminate]; intuition lia. Qed.

Lemma ok_or_Ok {E A} (o : option A) (e : E) x : ok_or o e = Ok x <-> o = Some x.
Proof. destruct o; simpl; split; congruence. Qed.

(** ** The cut *)
Lemma take_gen_Ok {E A B} (f : A -> Z -> B) l done g r : 0 <= g < W64 ->
  fold_outcome (take_gen (E := E) f) (done, g) l = Ok r ->
  r.2 = g + len l /\ r.2 < W64
  /\ r.1 = done ++ imap (fun i x => f x (g + Z.of_nat i)) l.
Proof.
  revert done g. induction l as [|x l IH]; intros done g Hg; simpl.
  - intros [= <-]. simpl. rewrite app_nil_r, len_nil. split; [lia|]. split; [lia|reflexivity].
  - intros (s & (next & (Hn & ->)%plus_Ok & [= <-])%outcome_bind_Ok & H)%outcome_bind_Ok.
    cbn [snd] in Hn. apply IH in H as (H1 & H2 & H3); [|lia]. rewrite len_cons. split; [lia|]. split; [exact H2|].
    rewrite H3, <- app_assoc. simpl. rewrite Z.add_0_r. f_equal. f_equal. apply imap_ext. intros i y _. simpl. f_equal. lia.
Qed.
Section Cut.
Context `{P : PageSize}.
Implicit Types v : VolumeState.

(** Without pending tombstones the cut only moves counters. *)
Lemma capture_cut_Ok {E} v pages rescues v' cut :
  fits W64 (v_next_gen v) -> fits W64 (v_next_object_id v) -> fits W64 (v_next_seq v) -> v_pending_tombstones v = [] ->
  capture_cut (E := E) v pages rescues = Ok (v', cut) ->
  let g := v_next_gen v + len pages + len rescues in
  let o := v_next_object_id v + (len pages + len rescues) in
  v' = (v |> upd v_next_seq (v_next_seq v + 1) |> upd v_next_object_id o |> upd v_next_gen g)
  /\ v_next_seq v + 1 < W64 /\ o < W64 /\ g < W64
  /\ cut = {| cut_seq := v_next_seq v; cut_capture_seq := v_mutation_seq v;
              cut_first_object := v_next_object_id v; cut_fence := v_fence v;
              cut_unread := imap (fun i p => (p, v_next_gen v + Z.of_nat i)) pages;
              cut_rescues := imap (fun i r => (r.1, v_next_gen v + len pages + Z.of_nat i, r.2)) rescues;
              cut_tombstones := [] |}.
Proof.
  intros Hg Ho Hs Ht. unfold capture_cut. rewrite Ht.
  intros (ns & (H1 & ->)%plus_Ok & (no & (H2 & ->)%plus_Ok & H)%outcome_bind_Ok)%outcome_bind_Ok.
  apply outcome_bind_Ok in H as ([un g1] & Hun & H). apply take_gen_Ok in Hun as (G1 & G1' & U); [|exact Hg]. simpl in G1, G1', U. subst g1 un.
  apply outcome_bind_Ok in H as ([re g2] & Hre & H).
  apply take_gen_Ok in Hre as (G2 & G2' & U); [|unfold fits in Hg; pose proof (len_nonneg pages); lia]. simpl in G2, G2', U. subst g2 re.
  cbn [bt_keys map fold_outcome outcome_bind] in H. injection H as <- <-. rewrite len_nil, Z.add_0_r in *.
  simpl. repeat split; auto.
Qed.
End Cut.

(** ** The entries of the batch *)
Definition add_entry `{PageSize} (b : PageBatchBuilder) (e : BlxEntry) : PageBatchBuilder :=
  with_builder b (BlxBatchBuilder_insert (pb_builder b) e).
Section Entries.
Context `{CL : CrcLaws} `{LL : Lz4Laws} `{PL : PageSizeLaws}.
Implicit Types b : PageBatchBuilder.

Lemma add_entries_spec es b : let b' := fold_left add_entry es b in
  pb_kind b' = pb_kind b /\ pb_volume b' = pb_volume b /\ pb_fence b' = pb_fence b
  /\ bb_meta (pb_builder b') = bb_meta (pb_builder b)
  /\ bb_entries (pb_builder b') = fold_left keep_newest es (bb_entries (pb_builder b)).
Proof. revert b. induction es as [|e es IH]; intros b; simpl; [auto|]. destruct (IH (add_entry b e)) as (-> & -> & -> & -> & ->). auto. Qed.

Definition page_entry (kind : VolumeKind) (x : PageId * Z * bytes) : BlxEntry :=
  Entry_Data (BlockKey_from_page kind x.1.1) x.1.2 x.2.
Lemma add_pages {E} pages b b' :
  fold_outcome (fun builder '(page, generation, bs) =>
    PageBatchBuilder_add (E := E) builder page generation bs) b pages = Ok b' ->
  b' = fold_left add_entry (map (page_entry (pb_kind b)) pages) b
  /\ Forall (fun x => len x.2 = page_size /\ pid_volume x.1.1 = pb_volume b) pages.
Proof using Type.
  revert b. induction pages as [|[[p g] raw] pages IH]; intros b; simpl; [intros [= <-]; auto|].
  intros (b1 & H1 & H)%outcome_bind_Ok. unfold PageBatchBuilder_add, PageBatchBuilder_try_add in H1.
  destruct (Z.eqb_spec (len raw) page_size) as [Hl|]; [|discriminate].
  destruct (Z.eqb_spec (pid_volume p) (pb_volume b)) as [Hv|]; [|discriminate].
  unfold BlxBatchBuilder_add_data in H1. rewrite Hl, Z.eqb_refl in H1. cbn [outcome_bind] in H1.
  destruct (object_ids_result _); [|discriminate]. injection H1 as <-.
  apply IH in H as [-> Hf]. split; [reflexivity|]. constructor; auto.
Qed.
Definition is_vmm_entry (e : BlxEntry) : Prop := bk_space (BlxEntry_key e) = Space_Vmm.
Definition vmm_key (block : Z) : BlockKey := {| bk_space := Space_Vmm; bk_block := block |}.
Lemma vmm_tombstones (p : Z -> bool) seq blocks b :
  fold_left (fun b block => if p block then PageBatchBuilder_add_vmm_tombstone b block seq else b) blocks b
  = fold_left add_entry (map (fun block => Entry_Tombstone (vmm_key block) seq) (List.filter p blocks)) b.
Proof. revert b. induction blocks as [|x blocks IH]; intros b; simpl; [reflexivity|]. rewrite IH. now destruct (p x). Qed.
Lemma vmm_blocks {E} seq blocks b (nb : BlxBatchBuilder) :
  fold_outcome (fun builder x => BlxBatchBuilder_add_data (E := E) builder x.1 seq x.2) (pb_builder b) blocks = Ok nb ->
  with_builder b nb = fold_left add_entry (map (fun x => Entry_Data x.1 seq x.2) blocks) b.
Proof using Type.
  revert b. induction blocks as [|x blocks IH]; intros b; simpl; [intros [= <-]; now destruct b|].
  intros (b1 & H1 & H)%outcome_bind_Ok. unfold BlxBatchBuilder_add_data in H1. destruct (_ =? _); [|discriminate].
  injection H1 as <-. apply (IH (add_entry b (Entry_Data x.1 seq x.2))) in H. rewrite <- H. now destruct b.
Qed.
Lemma number_blocks_ok {E} i chunks bs : 0 <= i -> Forall (fun c => all_bytes c /\ len c <= page_size) chunks ->
  number_blocks (E := E) i chunks = Ok bs ->
  Forall (fun x => bk_space x.1 = Space_Vmm /\ fits W32 (bk_block x.1) /\ all_bytes x.2 /\ len x.2 = page_size) bs.
Proof using PL.
  intros Hi Hf. revert i bs Hi. induction Hf as [|c chunks [Hc Hl] Hf IH]; intros i bs Hi; simpl; [intros [= <-]; constructor|].
  destruct (Z.ltb_spec i W32); [|discriminate]. intros (rest & Hr & [= <-])%outcome_bind_Ok.
  constructor; [|apply (IH (i + 1)); [lia|exact Hr]]. cbn [fst snd bk_space bk_block]. split; [reflexivity|].
  split; [unfold fits; lia|]. unfold pad_block. split.
  - apply all_bytes_app_2; [exact Hc|]. apply all_bytes_repeat. unfold is_byte, fits. lia.
  - pose proof page_size_bounds. unfold len in *. rewrite length_app, repeat_length. lia.
Qed.
Lemma vmm_snapshot_ok {E} bs blocks : all_bytes bs -> vmm_snapshot_blocks (E := E) bs = Ok blocks ->
  Forall (fun x => bk_space x.1 = Space_Vmm /\ fits W32 (bk_block x.1) /\ all_bytes x.2 /\ len x.2 = page_size) blocks.
Proof using PL.
  intros Hb. unfold vmm_snapshot_blocks. apply number_blocks_ok; [lia|]. pose proof page_size_bounds as Hp.
  destruct (chunks_of_spec (length bs) (Z.to_nat page_size) bs) as (Hcat & Hf & _); [lia|lia|].
  rewrite List.Forall_forall in *. intros c Hc. split.
  - unfold all_bytes in *. rewrite List.Forall_forall in *. intros x Hx. apply Hb. rewrite <- Hcat. apply in_concat. eauto.
  - specialize (Hf c Hc). unfold len. lia.
Qed.

Definition checksums_keys_ok (blocks : BTreeMap BlockKey (Z * Z)) : Prop :=
  Forall BlockKey_ok (bt_keys blocks).
Definition checkpoint_ok (c : Checkpoint) : Prop :=
  fits W64 (ck_epoch c) /\ fits W64 (ck_vmstate c) /\ len (ck_vmstate_bytes c) < W64
  /\ all_bytes (ck_vmstate_bytes c).
Lemma tombstone_entries_ok v seq (p : Z -> bool) : checksums_keys_ok (v_block_checksums v) -> fits W64 seq ->
  Forall BlxEntry_ok (map (fun block => Entry_Tombstone (vmm_key block) seq)
    (List.filter p (bt_keys (bts_collect (map bk_block (List.filter is_vmm (bt_keys (v_block_checksums v)))))))).
Proof using Type.
  intros Hk Hs. apply List.Forall_forall. intros e (block & <- & [Hin _]%filter_In)%in_map_iff.
  apply (proj1 (bts_collect_keys _ _)) in Hin. apply in_map_iff in Hin as (k & <- & [Hk' _]%filter_In).
  unfold checksums_keys_ok in Hk. rewrite List.Forall_forall in Hk. split; [exact (Hk k Hk')|]. now split.
Qed.
Lemma add_checkpoint_Ok {E} v seq b c b' : checksums_keys_ok (v_block_checksums v) -> fits W64 seq -> checkpoint_ok c ->
  add_checkpoint (E := E) v seq b c = Ok b' ->
  exists ves, b' = fold_left add_entry ves b /\ Forall is_vmm_entry ves /\ Forall BlxEntry_ok ves.
Proof using PL.
  intros Hk Hs (_ & _ & _ & Hc). unfold add_checkpoint. rewrite vmm_tombstones. set (tombs := map _ _).
  unfold PageBatchBuilder_add_vmm_snapshot. intros (blocks & Hb & (nb & Hn & [= <-])%outcome_bind_Ok)%outcome_bind_Ok.
  apply vmm_blocks in Hn. rewrite Hn. exists (tombs ++ map (fun x => Entry_Data x.1 seq x.2) blocks).
  split; [now rewrite fold_left_app|]. apply vmm_snapshot_ok in Hb; [|exact Hc].
  rewrite !Forall_app, !Forall_map. rewrite List.Forall_forall in Hb. split; split.
  - unfold tombs. apply Forall_map. apply List.Forall_forall. intros block _. reflexivity.
  - apply List.Forall_forall. intros x Hx. apply (Hb x Hx).
  - now apply tombstone_entries_ok.
  - apply List.Forall_forall. intros x Hx. destruct (Hb x Hx) as (_ & H1 & H2 & H3). split; [exact H1|]. split; [exact Hs|]. split; assumption.
Qed.

Definition capture_meta (volume : Z) (v : VolumeState) (cut : Cut) (post : Z) : BatchMeta :=
  {| bm_namespace_kind := Namespace_Volume; bm_namespace_id := volume; bm_writer_fence := cut_fence cut;
     bm_first_object_id := cut_first_object cut; bm_min_seq := cut_seq cut; bm_max_seq := cut_seq cut;
     bm_batch_id := cut_seq cut; bm_pre_state_checksum := v_state_checksum v; bm_post_state_checksum := post |}.
Lemma capture_batch_Ok {E} volume v cut pages checkpoint post b :
  cut_tombstones cut = [] -> checksums_keys_ok (v_block_checksums v) -> fits W64 (cut_seq cut) ->
  option_ok checkpoint_ok checkpoint ->
  capture_batch (E := E) volume v cut pages checkpoint post = Ok b ->
  exists ves, Forall is_vmm_entry ves /\ Forall BlxEntry_ok ves
    /\ bb_entries (pb_builder b) = fold_left keep_newest (map (page_entry (vc_kind (v_config v))) pages ++ ves) []
    /\ pb_volume b = volume /\ pb_fence b = cut_fence cut /\ bb_meta (pb_builder b) = capture_meta volume v cut post
    /\ Forall (fun x => len x.2 = page_size /\ pid_volume x.1.1 = volume) pages.
Proof using PL.
  intros Ht Hk Hs Hc. unfold capture_batch, PageBatchBuilder_new_with_checksums, BlxBatchBuilder_new_partitioned, BlxBatchBuilder_new.
  cbn [bm_min_seq bm_max_seq]. rewrite Z.leb_refl. cbn [outcome_bind].
  intros (b1 & H1 & H)%outcome_bind_Ok. rewrite Ht in H. cbn [fold_outcome outcome_bind] in H.
  apply add_pages in H1 as [-> Hf]. cbn [pb_kind pb_volume bb_meta bb_entries] in Hf, H. fold (capture_meta volume v cut post) in H.
  assert (exists ves, b = fold_left add_entry ves (fold_left add_entry (map (page_entry (vc_kind (v_config v))) pages)
      {| pb_kind := vc_kind (v_config v); pb_volume := volume; pb_fence := cut_fence cut;
         pb_builder := {| bb_meta := capture_meta volume v cut post; bb_entries := []; bb_split_at_file_partitions := true |} |})
    /\ Forall is_vmm_entry ves /\ Forall BlxEntry_ok ves) as (ves & -> & Hv1 & Hv2).
  { destruct checkpoint as [c|]; [exact (add_checkpoint_Ok v (cut_seq cut) _ c b Hk Hs Hc H)|]. injection H as <-.
    exists []. simpl. auto. }
  exists ves. rewrite <- fold_left_app. split; [exact Hv1|]. split; [exact Hv2|].
  destruct (add_entries_spec (map (page_entry (vc_kind (v_config v))) pages ++ ves)
    {| pb_kind := vc_kind (v_config v); pb_volume := volume; pb_fence := cut_fence cut;
       pb_builder := {| bb_meta := capture_meta volume v cut post; bb_entries := []; bb_split_at_file_partitions := true |} |})
    as (_ & -> & -> & -> & ->). auto.
Qed.

(** ** The new files, page by page *)
Definition page_ok (x : PageId * Z * bytes) : Prop :=
  fits W32 (pid_page x.1.1) /\ fits W64 x.1.2 /\ all_bytes x.2.
Lemma page_entry_ok kind x : page_ok x -> len x.2 = page_size -> BlxEntry_ok (page_entry kind x).
Proof using Type. intros (H1 & H2 & H3) Hl. split; [now apply page_key_ok|]. split; [exact H2|]. now split. Qed.
Lemma page_key_inj kind p q : pid_volume p = pid_volume q -> BlockKey_from_page kind p = BlockKey_from_page kind q -> p = q.
Proof. destruct p, q, kind; simpl; intros -> [= ->]; reflexivity. Qed.
Lemma page_key_not_vmm kind p : bk_space (BlockKey_from_page kind p) <> Space_Vmm.
Proof. now destruct kind. Qed.
(** Under page keys the merge has entries of the captured pages only, and one for each. *)
Lemma merged_pages kind pages ves : Forall is_vmm_entry ves -> Forall BlxEntry_ok (map (page_entry kind) pages ++ ves) ->
  let es := bt_values (fold_left keep_newest (map (page_entry kind) pages ++ ves) []) in
  (forall e, In e es -> is_vmm_entry e \/ In e (map (page_entry kind) pages))
  /\ (forall x, In x pages -> exists e, In e es /\ BlxEntry_key e = BlockKey_from_page kind x.1.1).
Proof using PL.
  intros Hv Hok. set (l := map (page_entry kind) pages ++ ves). set (m := fold_left keep_newest l []).
  assert (map_ok m) as [Hs Hkeys] by (apply fold_keep_newest_ok; [split; constructor|exact Hok]).
  rewrite List.Forall_forall in Hkeys, Hv. split.
  - intros e ([k e'] & He & Hin)%in_map_iff. simpl in He. subst e'. destruct (Hkeys _ Hin) as [Hk _]. simpl in Hk. subst k.
    apply In_bt_get in Hin; [|exact Hs]. pose proof (merge_newest (BlxEntry_key e) l) as Hn. fold m in Hn. rewrite Hin in Hn.
    destruct Hn as (Hl & _). apply in_app_iff in Hl as [H|H]; [now right|left; now apply Hv].
  - intros x Hx. pose proof (merge_newest (BlockKey_from_page kind x.1.1) l) as Hn. fold m in Hn.
    destruct (bt_get _ m) as [e|] eqn:E.
    + exists e. split; [|apply Hn]. apply bt_get_In in E. now apply (in_map snd) in E.
    + destruct (Hn (page_entry kind x)); [|reflexivity]. apply in_app_iff. left. now apply in_map.
Qed.
End Entries.
