(* ===== verification/LocalInvariant.v ===== *)
(** * The invariant of local captures

    At every point of a run the device holds the newest committed record and
    all its files, the pages of those files are the saved pages, what is being
    deleted is not among them, and the batch in progress is built on top. *)

From stdpp Require Import gmap.
From Stdlib Require Import Sorted.
From S2P Require Import Prelude Format Types OrdMap Sorting Head Blx BlxFile BlxBatch BlxState Manifest ManifestCodec.
From S2P Require Import BatchRefs Text Layout PageFile Journal JournalFormat LocalCapture LocalTask LocalBatch.

#[local] Open Scope Z_scope.

Abbreviation Pages := (gmap PageId bytes).
#[export] Instance PageId_countable : Countable PageId.
Proof. refine (inj_countable' PageId_fields (fun x => {| pid_volume := x.1; pid_page := x.2 |}) _). now intros []. Defined.

(** ** The reference reading: the pages a sequence of captures saves *)
Definition overlay (pages : list PageId) (contents : PageId -> bytes) (saved : Pages) : Pages :=
  fold_left (fun m p => <[p := contents p]> m) pages saved.
(** The pages of the newest committed record, and those of the capture in progress. *)
Record Shadow := { sh_saved : Pages; sh_captured : Pages }.
Definition shadow_step (h : LocalHost) (s : Shadow) (event : LocalEvent) : Shadow :=
  if lh_failed h then s else
  match event, lh_capture h with
  | Ev_capture start _, Capture_idle =>
      if v_ready (lh_volume h)
      then {| sh_saved := sh_saved s; sh_captured := overlay (cs_pages start) (cs_contents start) (sh_saved s) |}
      else s
  | Ev_record_written true true, Capture_record _ _ _ =>
      {| sh_saved := sh_captured s; sh_captured := sh_captured s |}
  | _, _ => s
  end.

Section Invariant.
Context `{CL : CrcLaws} `{LL : Lz4Laws} `{PL : PageSizeLaws}.
Hypothesis small_pages : page_size <= 16 * 1024 * 1024.
Variables (volume fence : Z) (config : VolumeConfig).
Abbreviation page_key p := (BlockKey_from_page (vc_kind config) p).
Abbreviation identity_of := (identity_of volume fence).
Abbreviation rows f := (local_file volume fence f).2.
Implicit Types (h : LocalHost) (v : VolumeState) (ws kept : list Written) (r : JournalRecord) (f : File).

(** ** Pages in files *)
Definition entry_of f p g raw : Prop := In (Entry_Data (page_key p) g raw) f.2.
Record newest_in (fs : list File) p g raw f : Prop := {
  ni_in : In f fs;
  ni_entry : entry_of f p g raw;
  ni_newest f' g' raw' : In f' fs -> entry_of f' p g' raw' -> g' < g \/ f' = f }.
Definition absent (fs : list File) p : Prop := forall f g raw, In f fs -> ~ entry_of f p g raw.
Record content_ok f : Prop := {
  co_entries e : In e f.2 -> is_vmm_entry e \/ exists p g raw, e = Entry_Data (page_key p) g raw /\ pid_volume p = volume }.
(** [saved] is what the newest entries of [fs] say. *)
Definition holds (fs : list File) (saved : Pages) : Prop :=
  forall p, match saved !! p with
            | Some raw => pid_volume p = volume /\ exists g f, newest_in fs p g raw f
            | None => pid_volume p = volume -> absent fs p
            end.
Record placed v (fs : list File) : Prop := {
  pl_sorted : bt_sorted (v_page_locs v);
  pl_some p g loc : bt_get p (v_page_locs v) = Some (g, loc) ->
    pid_volume p = volume /\ exists f raw, newest_in fs p g raw f /\ In (p, g, loc) (rows f);
  pl_none p : bt_get p (v_page_locs v) = None -> pid_volume p = volume -> absent fs p }.

(** ** The volume *)
(** The parts that do not depend on the phase of a capture. *)
Record volume_ok v : Prop := {
  vk_fence : v_fence v = fence;
  vk_config : v_config v = config;
  vk_gen : fits W64 (v_next_gen v);
  vk_seq : fits W64 (v_next_seq v);
  vk_object : fits W64 (v_next_object_id v);
  vk_mutation : fits W64 (v_mutation_seq v);
  vk_syncs : Forall (fun b => 0 <= b <= v_mutation_seq v) (v_pending_syncs v);
  vk_covered : 0 <= v_local_covered_through v <= v_mutation_seq v;
  vk_tombstones : v_pending_tombstones v = [];
  vk_source : v_peer_source v = None;
  vk_keys : checksums_keys_ok (v_block_checksums v);
  vk_checksum : fits W64 (v_state_checksum v);
  vk_writes s e : In (s, e) (v_record_writes v) -> e.1 = fence /\ 0 <= s < v_next_seq v }.
(** The files of the volume: [ws] are its batches, [bound] the next object id
    to be written. *)
Record files_ok v ws (prepared : list CompactionRescue) (bound : Z) : Prop := {
  fi_written : all_written volume fence ws;
  fi_content f : In f (all_files ws) -> content_ok f /\ file_id f < bound;
  fi_seqs w : In w ws -> 0 <= w_seq w < v_next_seq v;
  fi_gens f p g raw : In f (all_files ws) -> entry_of f p g raw -> g < v_next_gen v;
  fi_refs : refs_cover volume fence v ws;
  fi_ref_seqs i x : In (i, x) (v_blx_refs v) -> or_batch_id x < v_next_seq v;
  fi_placed : placed v (all_files ws);
  fi_blobs i n : In (i, n) (v_blx_blobs v) -> exists id, i = identity_of id /\ 0 <= id < bound;
  fi_prepared pr p g loc raw : In pr prepared -> In (p, g, loc, raw) (cr_entries pr) ->
    pl_object loc < bound /\ all_bytes raw
    /\ (bt_get p (v_page_locs v) = Some (g, loc) -> exists f, newest_in (all_files ws) p g raw f) }.

(** ** The device *)
Definition record_bytes r : bytes := frame_bytes MAGIC_JOURNAL (JournalRecord_payload r volume).
Definition record_name r (name : string) : Prop :=
  name = journal_blob volume (jr_fence r) (jr_seq r) \/ name = journal_mirror_blob volume (jr_fence r) (jr_seq r).
Record record_ok r : Prop := {
  rk_ok : JournalRecord_ok r volume;
  rk_fence : jr_fence r = fence;
  rk_config : jr_config r = config;
  rk_source : jr_migrated_from r = None;
  rk_covered : jr_sync_covered_through r <= jr_capture_seq r }.
Definition older r r' : Prop := jr_seq r < jr_seq r' /\ jr_capture_seq r <= jr_capture_seq r'.
Definition known_name r (bound seqs : Z) (name : string) (bs : bytes) : Prop :=
  (exists r', record_ok r' /\ (r' = r \/ older r' r) /\ jr_seq r' < seqs /\ record_name r' name /\ bs = record_bytes r')
  \/ (exists id, name = blx_blob volume fence id /\ 0 <= id < bound).
Definition on_device (device : Device) f : Prop := device !! blx_blob volume fence (file_id f) = Some (bo_bytes f.1).
(** The record [r], its batches and its pages, on the device. *)
Record saved_ok (device : Device) r kept (saved : Pages) : Prop := {
  so_record : record_ok r;
  so_files : jr_files r = map file_ref (all_files kept);
  so_written : all_written volume fence kept;
  so_whole : Forall whole kept;
  so_contents f : In f (all_files kept) -> content_ok f;
  so_device f : In f (all_files kept) -> on_device device f;
  so_pages : holds (all_files kept) saved;
  so_usable : all_files kept = [] -> jr_capture_seq r = 0 }.
Record device_ok (device : Device) r (bound seqs : Z) : Prop := {
  dk_record name : record_name r name -> device !! name = Some (record_bytes r);
  dk_known name bs : device !! name = Some bs -> known_name r bound seqs name bs }.
(** What a cleanup still has to delete is not needed. *)
Record cleanup_ok r ws (bound seqs : Z) (c : Cleanup) : Prop := {
  ck_names name : In name (c_names c) ->
    (exists s, 0 <= s < seqs /\ s <> jr_seq r /\ (name = journal_blob volume fence s \/ name = journal_mirror_blob volume fence s))
    \/ (exists id, name = blx_blob volume fence id /\ 0 <= id < bound /\ forall f, In f (all_files ws) -> file_id f <> id);
  ck_blx i : In i (c_blx c) -> exists id, i = identity_of id /\ 0 <= id < bound /\ forall f, In f (all_files ws) -> file_id f <> id }.

(** ** The phases of a capture *)
Definition part (w : Written) (k : nat) : Written := {| w_seq := w_seq w; w_files := take k (w_files w) |}.
(** The batch of a running capture: its entries are those of the captured
    pages, newer than all others. *)
Record batch_ok r kept (s : Shadow) (ru : Running) (w : Written) : Prop := {
  bk_written : written_ok volume fence w;
  bk_whole : whole w;
  bk_seq : w_seq w = cut_seq (ru_cut ru);
  bk_files : ru_files ru = map (local_file volume fence) (w_files w);
  bk_ids n f : w_files w !! n = Some f -> file_id f = cut_first_object (ru_cut ru) + Z.of_nat n;
  bk_content f : In f (w_files w) -> content_ok f;
  bk_once f f' p g raw g' raw' : In f (w_files w) -> In f' (w_files w) -> entry_of f p g raw -> entry_of f' p g' raw' -> f = f';
  bk_before f f' : In f (all_files kept) -> In f' (w_files w) -> file_id f < file_id f';
  bk_newer f p g raw f' g' raw' : In f (all_files kept) -> entry_of f p g raw ->
    In f' (w_files w) -> entry_of f' p g' raw' -> g < g';
  bk_pages f p g raw : In f (w_files w) -> pid_volume p = volume -> entry_of f p g raw -> sh_captured s !! p = Some raw;
  bk_others p : pid_volume p = volume -> absent (w_files w) p -> sh_captured s !! p = sh_saved s !! p;
  bk_foreign p : pid_volume p <> volume -> sh_captured s !! p = None;
  bk_count : len (w_files w) < W32 }.
Record running_ok v r ws (ru : Running) : Prop := {
  ro_fence : cut_fence (ru_cut ru) = fence;
  ro_seq : jr_seq r < cut_seq (ru_cut ru) < v_next_seq v;
  ro_seqs w : In w ws -> w_seq w < cut_seq (ru_cut ru);
  ro_capture : jr_capture_seq r <= cut_capture_seq (ru_cut ru) <= v_mutation_seq v;
  ro_first : 0 <= cut_first_object (ru_cut ru) <= v_next_object_id v;
  ro_migration : ru_migration ru = false;
  ro_checkpoint : match ru_checkpoint ru with Some c => checkpoint_ok c /\ VolumeConfig_is_memory config = true | None => True end;
  ro_post : fits W64 (ru_post_checksum ru);
  ro_keys : checksums_keys_ok (ru_block_checksums ru);
  ro_room : cut_first_object (ru_cut ru) <= W64 - W32 }.

Record core_ok h (s : Shadow) kept r ws (bound seqs : Z) : Prop := {
  cr_best : v_best_record (lh_volume h) = Some r;
  cr_volume : volume_ok (lh_volume h);
  cr_covered : v_local_covered_through (lh_volume h) <= jr_capture_seq r;
  cr_capture : 0 <= jr_capture_seq r <= v_mutation_seq (lh_volume h);
  cr_seq : 0 <= jr_seq r < seqs;
  cr_saved : saved_ok (lh_device h) r kept (sh_saved s);
  cr_device : device_ok (lh_device h) r bound seqs;
  cr_files : files_ok (lh_volume h) ws (lh_prepared h) bound;
  cr_cleanups : Forall (cleanup_ok r ws bound seqs) (lh_cleanups h);
  cr_limits : bound < W64 /\ seqs < W64 }.
(** The batch against the counters; its record can be used if it names a file
    or nothing was ever written. *)
Definition reads_page v (ru : Running) (w : Written) : Prop :=
  (forall f p g raw, In f (w_files w) -> entry_of f p g raw -> g < v_next_gen v)
  /\ (cut_capture_seq (ru_cut ru) = 0 \/ v_page_locs v <> []
      \/ exists f p g raw, In f (w_files w) /\ pid_volume p = volume /\ entry_of f p g raw).
Definition running h (s : Shadow) kept r (ru : Running) (w : Written) (k : nat) : Prop :=
  core_ok h s kept r (kept ++ [part w k]) (cut_first_object (ru_cut ru) + Z.of_nat k) (cut_seq (ru_cut ru))
  /\ batch_ok r kept s ru w /\ running_ok (lh_volume h) r kept ru
  /\ Forall (on_device (lh_device h)) (take k (w_files w)) /\ reads_page (lh_volume h) ru w.
Definition LocalInv h (s : Shadow) : Prop :=
  exists kept r,
  match lh_capture h with
  | Capture_idle =>
      core_ok h s kept r kept (v_next_object_id (lh_volume h)) (v_next_seq (lh_volume h))
  | Capture_files ru rest =>
      exists w k, (k < length (w_files w))%nat /\ rest = drop k (ru_files ru) /\ running h s kept r ru w k
  | Capture_record ru record bs =>
      exists w, running h s kept r ru w (length (w_files w))
      /\ saved_ok (lh_device h) record (List.filter (w_needed volume fence (lh_volume h)) (kept ++ [w])) (sh_captured s)
      /\ bs = record_bytes record /\ jr_seq record = cut_seq (ru_cut ru)
      /\ jr_capture_seq record = cut_capture_seq (ru_cut ru)
  end.

(** ** Lemmas on pages in files *)
Lemma entry_unique f p g raw g' raw' : (exists seq, file_ok volume fence seq f) ->
  entry_of f p g raw -> entry_of f p g' raw' -> g = g' /\ raw = raw'.
Proof using CL LL PL small_pages.
  intros [seq K]. pose proof (fk_holds _ _ _ _ K) as Hh. destruct f as [o es]. unfold entry_of. simpl in Hh |- *. clear K.
  destruct Hh as [m id index count es [(_ & _ & Ha) _] _ _ _ _]. intros H H'. clear m id index count.
  induction Ha as [|e es Ha IH Hlt]; [easy|]. rewrite List.Forall_forall in Hlt.
  destruct H as [->|H], H' as [E|H']; auto.
  - injection E as -> ->. auto.
  - specialize (Hlt _ H'). unfold key_lt in Hlt. simpl in Hlt. now rewrite cmp_refl in Hlt.
  - subst e. specialize (Hlt _ H). unfold key_lt in Hlt. simpl in Hlt. now rewrite cmp_refl in Hlt.
Qed.
Lemma newest_unique ws p g raw f g' raw' f' : all_written volume fence ws ->
  newest_in (all_files ws) p g raw f -> newest_in (all_files ws) p g' raw' f' -> g = g' /\ raw = raw' /\ f = f'.
Proof using CL LL PL small_pages.
  intros A N N'. assert (f = f') as <-.
  { destruct (ni_newest _ _ _ _ _ N _ _ _ (ni_in _ _ _ _ _ N') (ni_entry _ _ _ _ _ N')) as [H|H]; [|congruence].
    destruct (ni_newest _ _ _ _ _ N' _ _ _ (ni_in _ _ _ _ _ N) (ni_entry _ _ _ _ _ N)) as [H'|H']; [lia|congruence]. }
  destruct (entry_unique f p g raw g' raw'); [|apply N|apply N'|auto].
  apply (all_files_ok volume fence ws f A). apply N.
Qed.
Lemma newest_sub fs fs' p g raw f : (forall x, In x fs' -> In x fs) -> In f fs' ->
  newest_in fs p g raw f -> newest_in fs' p g raw f.
Proof. intros Hs Hf N. split; [exact Hf|apply N|]. intros f' g' raw' Hf'. apply (ni_newest _ _ _ _ _ N). now apply Hs. Qed.
End Invariant.
