(* ===== verification/LocalSteps.v ===== *)
(** * Every step of a capture keeps the invariant *)

From stdpp Require Import gmap.
From Stdlib Require Import Sorted.
From S2P Require Import Prelude Format Types OrdMap Sorting Head Blx BlxFile BlxBatch BlxState Manifest ManifestCodec.
From S2P Require Import BatchRefs Text Layout PageFile Journal JournalFormat LocalCapture LocalTask LocalBatch LocalInvariant.

#[local] Open Scope Z_scope.

(** Reads fields through updates, one update at a time. *)
Ltac is_field p :=
  is_const p;
  lazymatch type of p with
  | _ -> Prop => fail
  | _ -> _ -> _ => fail
  | _ => idtac
  end.
Ltac field_eq R T p q S x k :=
  is_field p;
  let E := fresh in
  lazymatch p with
  | q => assert (forall r0 : R, p (@upd R T q S x r0) = x) as E by reflexivity
  | _ => assert (forall r0 : R, p (@upd R T q S x r0) = p r0) as E by reflexivity
  end; k E; clear E.
Ltac fields :=
  unfold on_volume in *;
  repeat match goal with
  | |- context [?p (@upd ?R ?T ?q ?S ?x _)] => field_eq R T p q S x ltac:(fun E => rewrite !E)
  | H : context [?p (@upd ?R ?T ?q ?S ?x _)] |- _ => field_eq R T p q S x ltac:(fun E => rewrite !E in H)
  end.

Section Steps.
Context `{CL : CrcLaws} `{LL : Lz4Laws} `{PL : PageSizeLaws}.
Hypothesis small_pages : page_size <= 16 * 1024 * 1024.
Variables (volume fence : Z) (config : VolumeConfig).
Hypothesis volume_fits : fits W64 volume.
Hypothesis fence_fits : fits W64 fence.
Abbreviation page_key p := (BlockKey_from_page (vc_kind config) p).
Abbreviation identity_of := (identity_of volume fence).
Abbreviation rows f := (local_file volume fence f).2.
Abbreviation LocalInv := (LocalInv volume fence config).
Abbreviation core_ok := (core_ok volume fence config).
Abbreviation files_ok := (files_ok volume fence config).
Abbreviation volume_ok := (volume_ok fence config).
Abbreviation entry_of := (entry_of config).
Abbreviation newest_in := (newest_in config).
Abbreviation placed := (placed volume fence config).
Implicit Types (h : LocalHost) (v : VolumeState) (ws kept : list Written) (r : JournalRecord) (f : File).

(** ** Events beside the capture *)
(** A change of the fields that other tasks move. *)
Definition quiet v (ready : bool) (m : Z) (syncs : list Z) (ack : Z) (backed publishing replicating : BTreeSet ObjectIdentity)
    (peer : option JournalRecord) : VolumeState :=
  v |> upd v_ready ready |> upd v_mutation_seq m |> upd v_pending_syncs syncs |> upd v_sync_ack_through ack
    |> upd v_backed_blx_files backed |> upd v_publishing_blx_files publishing
    |> upd v_replicating_blx_files replicating |> upd v_peer_committed_record peer.
Lemma files_ok_same v v' ws pr b : v_page_locs v' = v_page_locs v -> v_blx_refs v' = v_blx_refs v ->
  v_tombstone_blx_files v' = v_tombstone_blx_files v -> v_vmm_blx_files v' = v_vmm_blx_files v ->
  v_blx_blobs v' = v_blx_blobs v -> v_next_seq v <= v_next_seq v' -> v_next_gen v <= v_next_gen v' ->
  files_ok v ws pr b -> files_ok v' ws pr b.
Proof.
  intros Hp Hr Ht Hv Hb Hs Hg F. split; try apply F.
  - intros w Hw. pose proof (fi_seqs _ _ _ _ _ _ _ F w Hw). lia.
  - intros f p g raw Hf He. pose proof (fi_gens _ _ _ _ _ _ _ F f p g raw Hf He). lia.
  - destruct (fi_refs _ _ _ _ _ _ _ F) as [R1 R2 R3 R4]. split; rewrite ?Hr; auto.
    intros i. unfold needed. rewrite Hp, Ht, Hv. apply R4.
  - intros i x. rewrite Hr. intros Hi. pose proof (fi_ref_seqs _ _ _ _ _ _ _ F i x Hi). lia.
  - destruct (fi_placed _ _ _ _ _ _ _ F) as [P1 P2 P3]. split; rewrite ?Hp; auto.
  - rewrite Hb. apply F.
  - rewrite Hp. apply F.
Qed.
Lemma core_quiet h s kept r ws b q ready m syncs ack ba pu re pe : core_ok h s kept r ws b q ->
  v_mutation_seq (lh_volume h) <= m < W64 -> Forall (fun b => 0 <= b <= m) syncs ->
  core_ok (upd lh_volume (quiet (lh_volume h) ready m syncs ack ba pu re pe) h) s kept r ws b q.
Proof.
  intros K Hm Hs. destruct K as [K1 K2 K3 K4 K5 K6 K7 K8 K9 K10]. unfold quiet. split; fields; auto.
  - destruct K2. split; fields; auto; unfold fits in *; lia.
  - lia.
  - eapply files_ok_same; [..|exact K8]; fields; reflexivity || lia.
Qed.
Lemma quiet_inv h s ready m syncs ack ba pu re pe : LocalInv h s ->
  v_mutation_seq (lh_volume h) <= m < W64 -> Forall (fun b => 0 <= b <= m) syncs ->
  LocalInv (upd lh_volume (quiet (lh_volume h) ready m syncs ack ba pu re pe) h) s.
Proof.
  intros (kept & r & I) Hm Hs. exists kept, r. pose proof (fun ws b q K => core_quiet h s kept r ws b q ready m syncs ack ba pu re pe K Hm Hs) as Hc.
  unfold quiet in *. fields. destruct (lh_capture h) as [|ru rest|ru record bs].
  - now apply Hc.
  - destruct I as (w & k & Hk & Hr & Hco & Hb & Ho & Hd & Hu). exists w, k. split; [exact Hk|]. split; [exact Hr|].
    split; [now apply Hc|]. split; [exact Hb|]. split; [destruct Ho; split; fields; auto; lia|]. split; [exact Hd|exact Hu].
  - destruct I as (w & (Hco & Hb & Ho & Hd & Hu) & Hrest). exists w. split; [|exact Hrest].
    split; [now apply Hc|]. split; [exact Hb|]. split; [destruct Ho; split; fields; auto; lia|]. split; [exact Hd|exact Hu].
Qed.

(** ** Deletions *)
Lemma parse_blx id : fits W64 id -> parse_blob (blx_blob volume fence id) = Some (Blob_Blx volume fence id).
Proof using volume_fits fence_fits. intros. now apply (parse_blob_name (Blob_Blx volume fence id)). Qed.
Lemma parse_journal s name : fits W64 s -> name = journal_blob volume fence s \/ name = journal_mirror_blob volume fence s ->
  parse_blob name = Some (Blob_Journal volume fence s).
Proof using volume_fits fence_fits.
  intros Hs [->| ->]; [now apply (parse_blob_name (Blob_Journal volume fence s))|now apply parse_mirror_name].
Qed.
Lemma record_name_parse r name : record_ok volume fence config r -> record_name volume r name ->
  parse_blob name = Some (Blob_Journal volume fence (jr_seq r)).
Proof using volume_fits fence_fits.
  intros K H. apply parse_journal; [apply (rk_ok _ _ _ _ K)|]. unfold record_name in H. now rewrite (rk_fence _ _ _ _ K) in H.
Qed.
Lemma doomed_names r ws b q c name : cleanup_ok volume fence r ws b q c -> b < W64 -> q < W64 -> In name (c_names c) ->
  record_ok volume fence config r ->
  (forall n, record_name volume r n -> n <> name)
  /\ (forall f, In f (all_files ws) -> fits W64 (file_id f) -> blx_blob volume fence (file_id f) <> name).
Proof using volume_fits fence_fits.
  intros K Hb Hq Hin R. destruct (ck_names _ _ _ _ _ _ _ K name Hin) as [(s & Hs & Hne & Hn)|(id & -> & Hid & Hne)].
  - assert (parse_blob name = Some (Blob_Journal volume fence s)) as Hp by (apply parse_journal; [unfold fits; lia|exact Hn]). split.
    + intros n Hr ->. apply (record_name_parse r name R) in Hr. congruence.
    + intros f _ Hf He. apply parse_blx in Hf. rewrite He in Hf. congruence.
  - assert (parse_blob (blx_blob volume fence id) = Some (Blob_Blx volume fence id)) as Hp by (apply parse_blx; unfold fits; lia). split.
    + intros n Hr ->. apply (record_name_parse r _ R) in Hr. congruence.
    + intros f Hf Hfi He. apply parse_blx in Hfi. rewrite He, Hp in Hfi. injection Hfi as Hi. now destruct (Hne f Hf).
Qed.
Lemma all_files_app ws ws' : all_files (ws ++ ws') = all_files ws ++ all_files ws'.
Proof. unfold all_files. now rewrite map_app, concat_app. Qed.
Lemma saved_delete device r kept saved name : saved_ok volume fence config device r kept saved ->
  (forall f, In f (all_files kept) -> blx_blob volume fence (file_id f) <> name) ->
  saved_ok volume fence config (delete name device) r kept saved.
Proof.
  intros [S1 S2 S3 S4 S5 S6 S7 S8] Hn. split; auto. intros f Hf. unfold on_device. rewrite lookup_delete_ne by (apply not_eq_sym, Hn, Hf). now apply S6.
Qed.
Lemma device_delete device r b q name : device_ok volume fence config device r b q ->
  (forall n, record_name volume r n -> n <> name) -> device_ok volume fence config (delete name device) r b q.
Proof.
  intros [D1 D2] Hn. split.
  - intros n Hr. rewrite lookup_delete_ne by (apply not_eq_sym, Hn, Hr). now apply D1.
  - intros n bs [_ H]%lookup_delete_Some. now apply D2.
Qed.
Lemma drop_name_ok r ws b q c : cleanup_ok volume fence r ws b q c -> cleanup_ok volume fence r ws b q (drop_name c).
Proof.
  intros [C1 C3]. split; auto. intros name Hn. apply C1. simpl in Hn. destruct (c_names c); [easy|now right].
Qed.
Lemma cleanup_at h s kept r ws b q n c : core_ok h s kept r ws b q -> lh_cleanups h !! n = Some c ->
  cleanup_ok volume fence r ws b q c.
Proof. intros K Hc. pose proof (cr_cleanups _ _ _ _ _ _ _ _ _ _ K) as H. rewrite Forall_lookup in H. now apply (H n). Qed.
Lemma files_fit ws f : all_written volume fence ws -> In f (all_files ws) -> fits W64 (file_id f).
Proof. intros A Hf. destruct (all_files_ok volume fence ws f A Hf) as [q K]. apply K. Qed.
(** One more name is gone. *)
Definition deleted (h : LocalHost) (n : nat) (c : Cleanup) (name : string) : LocalHost :=
  h |> upd lh_device (delete name (lh_device h)) |> upd lh_cleanups (<[n := drop_name c]> (lh_cleanups h)).
Lemma core_deleted h s kept r ws b q n c name rest : core_ok h s kept r ws b q ->
  (forall f, In f (all_files kept) -> In f (all_files ws)) ->
  lh_cleanups h !! n = Some c -> c_names c = name :: rest -> core_ok (deleted h n c name) s kept r ws b q
  /\ (forall f, In f (all_files ws) -> blx_blob volume fence (file_id f) <> name).
Proof using volume_fits fence_fits.
  intros K Hsub Hc Hname. pose proof (cleanup_at _ _ _ _ _ _ _ _ _ K Hc) as CO.
  destruct (cr_limits _ _ _ _ _ _ _ _ _ _ K) as [Hb Hq].
  destruct (doomed_names r ws b q c name CO Hb Hq) as [N1 N2];
    [rewrite Hname; now left|apply (so_record _ _ _ _ _ _ _ (cr_saved _ _ _ _ _ _ _ _ _ _ K))|].
  assert (forall f, In f (all_files ws) -> blx_blob volume fence (file_id f) <> name) as N3.
  { intros f Hf. apply N2; [exact Hf|]. apply (files_fit ws f); [apply (cr_files _ _ _ _ _ _ _ _ _ _ K)|exact Hf]. }
  split; [|exact N3]. destruct K as [K1 K2 K3 K4 K5 K6 K7 K8 K9 K10]. unfold deleted. split; fields; auto.
  - apply saved_delete; auto.
  - now apply device_delete.
  - apply Forall_insert; [exact K9|now apply drop_name_ok].
Qed.
Lemma deleted_inv h s n c name rest : LocalInv h s -> lh_cleanups h !! n = Some c -> c_names c = name :: rest ->
  LocalInv (deleted h n c name) s.
Proof using volume_fits fence_fits.
  intros (kept & r & I) Hc Hn. exists kept, r.
  assert (lh_capture (deleted h n c name) = lh_capture h) as -> by (unfold deleted; fields; reflexivity).
  assert (lh_volume (deleted h n c name) = lh_volume h) as -> by (unfold deleted; fields; reflexivity).
  assert (lh_device (deleted h n c name) = delete name (lh_device h)) as Hd by (unfold deleted; fields; reflexivity).
  assert (forall w k, (forall f, In f (all_files (kept ++ [part w k])) -> blx_blob volume fence (file_id f) <> name) ->
    Forall (on_device volume fence (lh_device h)) (take k (w_files w)) ->
    Forall (on_device volume fence (delete name (lh_device h))) (take k (w_files w))) as Hpart.
  { intros w k Hne Ho. rewrite List.Forall_forall in *. intros f Hf. unfold on_device.
    rewrite lookup_delete_ne; [now apply Ho|]. apply not_eq_sym, Hne. rewrite all_files_app. apply in_app_iff. right.
    unfold all_files. simpl. now rewrite app_nil_r. }
  assert (forall ws, (forall f, In f (all_files kept) -> In f (all_files (kept ++ ws)))) as Hsub.
  { intros ws f Hf. rewrite all_files_app. apply in_app_iff. now left. }
  destruct (lh_capture h) as [|ru rest'|ru record bs].
  - eapply core_deleted; eauto.
  - destruct I as (w & k & Hk & Hr & Hco & Hb & Ho & Hf & Hu). exists w, k. split; [exact Hk|]. split; [exact Hr|].
    destruct (core_deleted _ _ _ _ _ _ _ n c name rest Hco (Hsub _) Hc Hn) as [Hco' Hne]. split; [exact Hco'|].
    split; [exact Hb|]. rewrite Hd. split; [unfold deleted; fields; exact Ho|]. split; [now apply Hpart|]. unfold deleted; fields; exact Hu.
  - destruct I as (w & (Hco & Hb & Ho & Hf & Hu) & Hs & Hrest). exists w.
    destruct (core_deleted _ _ _ _ _ _ _ n c name rest Hco (Hsub _) Hc Hn) as [Hco' Hne]. split.
    + split; [exact Hco'|]. split; [exact Hb|]. rewrite Hd. split; [unfold deleted; fields; exact Ho|]. split; [now apply Hpart|]. unfold deleted; fields; exact Hu.
    + split; [|exact Hrest]. rewrite Hd. apply saved_delete; [exact Hs|]. intros f (w' & [Hw' _]%filter_In & Hf')%all_files_In.
      apply Hne. apply all_files_In. unfold part. rewrite take_ge by lia. destruct w as [sq fs]. exists w'. now split.
Qed.

(** ** The end of a cleanup *)
Lemma without_In {K V} `{RustOrdLaws K} (gone : list K) (m : BTreeMap K V) x : In x (without gone m) -> In x m.
Proof.
  unfold without. revert m. induction gone as [|k gone IH]; intros m; simpl; [auto|]. intros Hx%IH. unfold bt_remove in Hx.
  now apply filter_In in Hx.
Qed.
Lemma bt_get_keep {K V} `{RustOrdLaws K} (p : K -> bool) (m : BTreeMap K V) k : p k = true ->
  bt_get k (List.filter (fun e => p e.1) m) = bt_get k m.
Proof.
  intros Hk. induction m as [|[k' x] m IH]; [reflexivity|]. simpl. destruct (p k') eqn:E; simpl.
  - now rewrite IH.
  - destruct (cmp k k') eqn:Ec; [apply cmp_eq in Ec; congruence|exact IH..].
Qed.
Lemma filter_keys_In {K V} (p : K -> bool) (m : BTreeMap K V) k : In k (bt_keys (List.filter (fun e => p e.1) m)) <->
  In k (bt_keys m) /\ p k = true.
Proof.
  unfold bt_keys. rewrite !in_map_iff. split.
  - intros (x & <- & [Hx Hp]%filter_In). split; [now exists x|exact Hp].
  - intros ((x & <- & Hx) & Hp). exists x. split; [reflexivity|]. now apply filter_In.
Qed.
Definition kept_blx (c : Cleanup) (i : ObjectIdentity) : bool := negb (bt_contains i (bts_collect (c_blx c))).
Lemma existsb_ext_in {A} (p p' : A -> bool) l : (forall x, In x l -> p x = p' x) -> existsb p l = existsb p' l.
Proof. induction l as [|x l IH]; intros He; simpl; [reflexivity|]. rewrite He, IH by auto with datatypes. reflexivity. Qed.
Lemma kept_blx_own r ws b q c f : cleanup_ok volume fence r ws b q c -> In f (all_files ws) ->
  kept_blx c (identity_of (file_id f)) = true.
Proof.
  intros K Hf. unfold kept_blx. apply negb_true_iff, not_true_iff_false. rewrite bt_contains_In, bts_collect_keys.
  intros Hin. destruct (ck_blx _ _ _ _ _ _ _ K _ Hin) as (id & [= He] & _ & Hne). now destruct (Hne f Hf).
Qed.
Lemma cleaned_needed v c i : needed (cleanup_done c v) i <->
  In i (local_identities (v_page_locs v))
  \/ (kept_blx c i = true /\ (In i (bt_keys (v_tombstone_blx_files v)) \/ In i (bt_keys (v_vmm_blx_files v)))).
Proof.
  unfold needed, cleanup_done. fields. rewrite !(filter_keys_In (kept_blx c)). tauto.
Qed.
Lemma cleaned_files v ws pr b c r q : files_ok v ws pr b -> cleanup_ok volume fence r ws b q c ->
  files_ok (cleanup_done c v) ws pr b.
Proof.
  intros F K.
  assert (forall i, needed (cleanup_done c v) i -> needed v i) as Hn.
  { intros i. rewrite cleaned_needed. unfold needed. tauto. }
  destruct F as [F1 F2 F3 F4 F5 F9 F6 F7 F8]. split; [exact F1|exact F2|exact F3|exact F4|..].
  - destruct F5 as [R1 R2 R3 R4]. split.
    + unfold cleanup_done. fields. apply sorted_sublist, R1.
    + intros f Hf. unfold cleanup_done. fields. rewrite <- (R2 f Hf).
      apply (bt_get_keep (kept_blx c)). eapply kept_blx_own; eauto.
    + intros i x. unfold cleanup_done. fields. intros [Hx _]%filter_In. now apply R3.
    + intros i Hi. now apply R4, Hn.
  - intros i x. unfold cleanup_done. fields. intros [Hx _]%filter_In. eapply F9; eauto.
  - destruct F6 as [P1 P2 P3]. unfold cleanup_done. split; fields; auto.
  - unfold cleanup_done. fields. intros i n [Hx _]%filter_In. eapply F7; eauto.
  - unfold cleanup_done. fields. exact F8.
Qed.
Lemma cleaned_volume v c : volume_ok v -> volume_ok (cleanup_done c v).
Proof.
  intros [V1 V2 V3 V4 V5 V6 V7 V8 V9 V10 V11 V12 V13]. unfold cleanup_done. split; fields; auto.
  intros s e Hin%without_In. now apply V13.
Qed.
Lemma core_cleaned h s kept r ws b q n c : core_ok h s kept r ws b q -> lh_cleanups h !! n = Some c ->
  core_ok (h |> upd lh_volume (cleanup_done c (lh_volume h)) |> upd lh_cleanups (delete n (lh_cleanups h))) s kept r ws b q.
Proof.
  intros K Hc. pose proof (cleanup_at _ _ _ _ _ _ _ _ _ K Hc) as CO. destruct K as [K1 K2 K3 K4 K5 K6 K7 K8 K9 K10].
  split; fields; [exact K1|now apply cleaned_volume|exact K3|exact K4|exact K5|exact K6|exact K7| | |exact K10].
  - eapply cleaned_files; eauto.
  - now apply Forall_delete.
Qed.
Lemma cleaned_inv h s n c : LocalInv h s -> lh_cleanups h !! n = Some c ->
  LocalInv (h |> upd lh_volume (cleanup_done c (lh_volume h)) |> upd lh_cleanups (delete n (lh_cleanups h))) s.
Proof.
  intros (kept & r & I) Hc. exists kept, r.
  pose proof (fun ws b q K => core_cleaned h s kept r ws b q n c K Hc) as Hco. fields.
  assert (forall ru w, running_ok fence config (lh_volume h) r kept ru -> reads_page volume config (lh_volume h) ru w ->
    running_ok fence config (cleanup_done c (lh_volume h)) r kept ru /\ reads_page volume config (cleanup_done c (lh_volume h)) ru w) as Hr.
  { intros ru w [O1 O2 O3 O4 O5 O6 O7 O8 O9 O10] Hu. unfold cleanup_done, reads_page in *. split; [split; fields; auto|fields; exact Hu]. }
  destruct (lh_capture h) as [|ru rest'|ru record bs].
  - unfold cleanup_done at 2 3. fields. now apply Hco.
  - destruct I as (w & k & Hk & Hrest & K & Hb & Ho & Hf & Hu). exists w, k. split; [exact Hk|]. split; [exact Hrest|].
    destruct (Hr ru w Ho Hu) as [Ho' Hu']. split; [now apply Hco|]. fields. auto.
  - destruct I as (w & (K & Hb & Ho & Hf & Hu) & Hs & Hrest). exists w. destruct (Hr ru w Ho Hu) as [Ho' Hu'].
    split; [split; [now apply Hco|]; fields; auto|]. split; [|exact Hrest].
    pose proof (cleanup_at _ _ _ _ _ _ _ _ _ K Hc) as CO.
    rewrite (List.filter_ext_in _ (w_needed volume fence (lh_volume h))); [exact Hs|]. intros w' Hw'.
    unfold w_needed. apply existsb_ext_in. intros f Hf'. apply eq_true_iff_eq.
    rewrite !needed_blx_spec, cleaned_needed. unfold needed. rewrite (kept_blx_own _ _ _ _ _ f CO); [tauto|].
    apply all_files_In. unfold part. rewrite take_ge by lia. destruct w as [sq fs]. now exists w'.
Qed.

(** ** Reading a page of a file *)
Definition reads_as (bs : bytes) (loc : PageFileLoc) (p : PageId) (g : Z) (raw : bytes) : Prop :=
  exists frame, slice_get bs (pl_offset loc) (pl_offset loc + pl_len loc) = Some frame
  /\ open_entry volume frame = Ok (p, g, raw).
Lemma page_key_id p : pid_volume p = volume -> BlockKey_to_page_id (page_key p) volume = Some p.
Proof using Type.
  intros Hv. destruct p as [pv pn]. simpl in Hv. unfold BlockKey_to_page_id, BlockKey_from_page.
  destruct (vc_kind config); simpl; now rewrite Hv.
Qed.
Lemma row_entry seq f p g loc : file_ok volume fence seq f -> content_ok volume config f -> In (p, g, loc) (rows f) ->
  exists raw, entry_of f p g raw /\ pl_base loc = 0 /\ pl_fence loc = fence /\ pl_object loc = file_id f
  /\ reads_as (bo_bytes f.1) loc p g raw /\ all_bytes raw /\ fits W32 (pid_page p).
Proof using CL LL PL small_pages.
  intros K CO Hin. pose proof (fk_holds _ _ _ _ K) as Hh. cbn [local_file snd] in Hin.
  assert (exists hd, bo_bytes f.1 = object_bytes hd f.2 /\ Forall BlxEntry_ok f.2) as (hd & Hbs & Hes).
  { clear -Hh. destruct f as [o es]. simpl in *. destruct Hh as [m id index count es [(_ & He & _) _] _ _ _ _]. eauto. }
  assert (pl_base loc = 0) as Hbase.
  { apply omap_In in Hin as (row & _ & Hr). unfold finish_row in Hr. destruct (BlockKey_to_page_id _ _); [|discriminate].
    injection Hr as _ _ <-. reflexivity. }
  apply (written_row small_pages hd) in Hin as (key & raw & He & Hp & H1 & H2 & frame & H3 & H4); [|exact Hes].
  assert (key = page_key p) as ->.
  { destruct (co_entries _ _ _ CO _ He) as [Hv|(p' & g' & raw' & [= -> -> ->] & Hv)].
    - unfold is_vmm_entry in Hv. simpl in Hv. unfold BlockKey_to_page_id in Hp. rewrite Hv in Hp. discriminate.
    - rewrite page_key_id in Hp by exact Hv. now injection Hp as ->. }
  rewrite List.Forall_forall in Hes. destruct (Hes _ He) as (Hk & _ & Hraw & _).
  exists raw. split; [exact He|]. split; [exact Hbase|]. split; [exact H1|]. split; [exact H2|].
  split; [exists frame; now rewrite Hbs|]. split; [exact Hraw|]. simpl in Hk. unfold BlockKey_ok in Hk. clear -Hk. now destruct p, (vc_kind config).
Qed.
Lemma row_complete f p g raw : pid_volume p = volume -> entry_of f p g raw -> exists loc, In (p, g, loc) (rows f).
Proof using Type. intros Hv He. eapply written_row_complete; [exact He|now apply page_key_id]. Qed.

(** ** Preparing a compaction *)
Lemma rescue_entries expected bs entries decoded decoded' :
  fold_outcome (rescue_entry volume expected bs) decoded entries = Ok decoded' ->
  forall p g loc raw, In (p, g, loc, raw) decoded' -> In (p, g, loc, raw) decoded
  \/ (bt_get p expected = Some (g, loc) /\ reads_as bs loc p g raw).
Proof.
  revert decoded. induction entries as [|[[p0 g0] l0] entries IH]; intros decoded; simpl; [intros [= <-]; auto|].
  intros (d1 & H1 & H)%outcome_bind_Ok p g loc raw Hin. destruct (IH d1 H p g loc raw Hin) as [Hd|Hd]; [|now right].
  destruct (bool_decide_reflect (bt_get p0 expected = Some (g0, l0))) as [He|]; simpl in H1; [|injection H1 as <-; now left].
  apply outcome_bind_Ok in H1 as (frame & Hf & H1). apply ok_or_Ok in Hf.
  apply outcome_bind_Ok in H1 as ([[p1 g1] raw1] & Ho & H1).
  destruct (bool_decide_reflect ((p1, g1) = (p0, g0))) as [[= -> ->]|]; [|discriminate]. injection H1 as <-.
  apply in_app_iff in Hd as [Hd|[[= -> -> -> ->]|[]]]; [now left|]. right. split; [exact He|]. now exists frame.
Qed.
Definition rescued v (device : Device) (p : PageId) (g : Z) (loc : PageFileLoc) (raw : bytes) : Prop :=
  bt_get p (v_page_locs v) = Some (g, loc)
  /\ exists bs, device !! blx_blob volume (pl_fence loc) (pl_object loc) = Some bs /\ reads_as bs loc p g raw.
Lemma rescue_file_Ok {E} v (device : Device) rescues candidate rescues' : bt_sorted (v_page_locs v) ->
  rescue_file (E := E) volume v (fun name => device !! name) rescues candidate = Ok rescues' ->
  forall pr, In pr rescues' -> In pr rescues
  \/ forall p g loc raw, In (p, g, loc, raw) (cr_entries pr) -> rescued v device p g loc raw.
Proof using Type.
  intros Hs H pr Hin. unfold rescue_file in H. destruct (device !! _) as [bs|] eqn:Hd; [|injection H as <-; now left].
  apply outcome_bind_Ok in H as (scanned & _ & H). destruct scanned as [[[[owner bf] bo] entries]|]; [|injection H as <-; now left].
  destruct (negb _); [injection H as <-; now left|].
  apply outcome_bind_Ok in H as (decoded & Hdec & H). destruct decoded as [decoded|]; [|injection H as <-; now left].
  destruct (_ =? _); injection H as <-; [|now left].
  apply in_app_iff in Hin as [Hin|[<-|[]]]; [now left|]. right. intros p g loc raw He. cbn [cr_entries] in He.
  destruct (fold_outcome _ _ entries) as [d| |] eqn:Hf; simpl in Hdec; try discriminate. injection Hdec as <-.
  destruct (rescue_entries _ _ _ _ _ Hf p g loc raw He) as [[]|[Hex Hr]].
  apply bt_get_In in Hex. apply filter_In in Hex as [Hex Hn]. cbn [snd fst] in Hn.
  unfold names_file in Hn. rewrite !andb_true_iff, !Z.eqb_eq in Hn. destruct Hn as [[_ Hpf] Hpo].
  split; [now apply In_bt_get|]. exists bs. rewrite Hpf, Hpo. auto.
Qed.
Lemma prepare_compaction_Ok {E} mr v (device : Device) prepared : bt_sorted (v_page_locs v) ->
  prepare_compaction (E := E) volume mr v (fun name => device !! name) = Ok prepared ->
  forall pr p g loc raw, In pr prepared -> In (p, g, loc, raw) (cr_entries pr) -> rescued v device p g loc raw.
Proof using Type.
  intros Hs H pr p g loc raw Hpr. unfold prepare_compaction in H.
  destruct (negb _); [injection H as <-; easy|]. destruct (_ || _); [injection H as <-; easy|].
  apply outcome_bind_Ok in H as (candidates & _ & H).
  assert (forall rescues, fold_outcome (rescue_file (E := E) volume v (fun name => device !! name)) rescues candidates = Ok prepared ->
    In pr rescues \/ forall p g loc raw, In (p, g, loc, raw) (cr_entries pr) -> rescued v device p g loc raw) as Hall.
  { clear H. induction candidates as [|c candidates IH]; intros rescues; simpl; [intros [= <-]; now left|].
    intros (r1 & H1 & H)%outcome_bind_Ok. destruct (IH r1 H) as [Hin|]; [|now right]. eapply rescue_file_Ok; eauto. }
  destruct (Hall [] H) as [[]|Hp]. apply Hp.
Qed.
Lemma prepared_files {E} v ws b mr (device : Device) pr prepared : files_ok v ws pr b ->
  (forall f, In f (all_files ws) -> on_device volume fence device f) ->
  prepare_compaction (E := E) volume mr v (fun name => device !! name) = Ok prepared -> files_ok v ws prepared b.
Proof using CL LL PL small_pages.
  intros F Hdev Hp. pose proof F as [F1 F2 F3 F4 F5 F9 F6 F7 F8]. split; auto.
  intros pr' p g loc raw Hpr Hin.
  destruct (prepare_compaction_Ok mr v device prepared (pl_sorted _ _ _ _ _ F6) Hp pr' p g loc raw Hpr Hin) as (Hg & bs & Hd & Hr).
  destruct (pl_some _ _ _ _ _ F6 p g loc Hg) as (Hv & f & raw0 & N & Hrow).
  pose proof (ni_in _ _ _ _ _ _ N) as Hf. destruct (all_files_ok volume fence ws f F1 Hf) as [seq K].
  destruct (row_entry seq f p g loc K (proj1 (F2 f Hf)) Hrow) as (raw1 & He & _ & Hpf & Hpo & (frame & Hs & Ho) & Hraw & _).
  rewrite Hpf, Hpo in Hd. pose proof (Hdev f Hf) as Hdf. unfold on_device in Hdf. rewrite Hdf in Hd. injection Hd as <-.
  destruct Hr as (frame' & Hs' & Ho'). rewrite Hs in Hs'. injection Hs' as <-. rewrite Ho in Ho'. injection Ho' as <-.
  destruct (entry_unique small_pages volume fence config f p g raw1 g raw0) as [_ <-]; [now exists seq|exact He|apply N|].
  split; [rewrite Hpo; apply (F2 f Hf)|]. split; [exact Hraw|]. intros _. now exists f.
Qed.
Lemma prepare_inv h s mr prepared : LocalInv h s ->
  prepare_compaction (E := unit) volume mr (lh_volume h) (fun name => lh_device h !! name) = Ok prepared ->
  LocalInv (upd lh_prepared prepared h) s.
Proof using CL LL PL small_pages.
  intros (kept & r & I) Hp. exists kept, r.
  assert (forall ws b q, core_ok h s kept r ws b q -> (forall f, In f (all_files ws) -> on_device volume fence (lh_device h) f) ->
    core_ok (upd lh_prepared prepared h) s kept r ws b q) as Hc.
  { intros ws b q [K1 K2 K3 K4 K5 K6 K7 K8 K9 K10] Hd. split; fields; auto. eapply prepared_files; eauto. }
  assert (forall ws b q w k, core_ok h s kept r ws b q -> Forall (on_device volume fence (lh_device h)) (take k (w_files w)) ->
    forall f, In f (all_files (kept ++ [part w k])) -> on_device volume fence (lh_device h) f) as Hd.
  { intros ws b q w k K Ho f. rewrite all_files_app, in_app_iff. intros [Hf|Hf].
    - apply (so_device _ _ _ _ _ _ _ (cr_saved _ _ _ _ _ _ _ _ _ _ K) f Hf).
    - rewrite List.Forall_forall in Ho. apply Ho. unfold all_files in Hf. simpl in Hf. now rewrite app_nil_r in Hf. }
  fields. destruct (lh_capture h) as [|ru rest|ru record bs].
  - apply Hc; [exact I|]. intros f Hf. apply (so_device _ _ _ _ _ _ _ (cr_saved _ _ _ _ _ _ _ _ _ _ I) f Hf).
  - destruct I as (w & k & Hk & Hrest & K & Hb & Ho & Hf & Hu). exists w, k. split; [exact Hk|]. split; [exact Hrest|].
    split; [apply Hc; eauto|]. fields. auto.
  - destruct I as (w & (K & Hb & Ho & Hf & Hu) & Hrest). exists w. split; [|exact Hrest].
    split; [apply Hc; eauto|]. fields. auto.
Qed.
End Steps.
