(* ===== verification/LocalStart.v ===== *)
(** * The start of a capture

    The batch a capture builds holds the captured pages and the rescued ones,
    all newer than what is saved, and starting it changes nothing yet. *)

From stdpp Require Import gmap sorting.
From Stdlib Require Import Sorted.
From S2P Require Import Prelude Format Types OrdMap Sorting Head Blx BlxFile BlxBatch BlxState Manifest ManifestCodec.
From S2P Require Import BatchRefs Text Layout PageFile Journal JournalFormat LocalCapture LocalTask LocalBatch LocalInvariant LocalSteps.

#[local] Open Scope Z_scope.

Section Start.
Context `{CL : CrcLaws} `{LL : Lz4Laws} `{PL : PageSizeLaws}.
Hypothesis small_pages : page_size <= 16 * 1024 * 1024.
Variables (volume fence : Z) (config : VolumeConfig).
Hypothesis volume_fits : fits W64 volume.
Hypothesis fence_fits : fits W64 fence.
Abbreviation page_key p := (BlockKey_from_page (vc_kind config) p).
Abbreviation identity_of := (identity_of volume fence).
Abbreviation rows f := (local_file volume fence f).2.
Abbreviation LocalInv := (LocalInv volume fence config).
Abbreviation core_ok := (core_ok volume fence config).
Abbreviation files_ok := (files_ok volume fence config).
Abbreviation volume_ok := (volume_ok fence config).
Abbreviation entry_of := (entry_of config).
Abbreviation newest_in := (newest_in config).
Abbreviation placed := (placed volume fence config).
Abbreviation batch_ok := (batch_ok volume fence config).
Abbreviation running_ok := (running_ok fence config).
Abbreviation reads_page := (reads_page volume config).
Abbreviation all_written := (all_written volume fence).
Implicit Types (h : LocalHost) (v : VolumeState) (ws kept : list Written) (r : JournalRecord) (f : File).

(** ** Checksums *)
Definition sums_ok (s : Z * BTreeMap BlockKey (Z * Z)) : Prop := fits W64 s.1 /\ checksums_keys_ok s.2.
Lemma xor_fits a b : fits W64 a -> fits W64 b -> fits W64 (Z.lxor a b).
Proof. exact (lxor_bound 64 a b ltac:(lia)). Qed.
Lemma contribution_fits k g c : fits W64 (state_contribution k g c).
Proof. apply checksum64_range. Qed.
Lemma replace_ok s k x : sums_ok s -> (is_Some x -> BlockKey_ok k) -> sums_ok (replace_state_block s k x).
Proof.
  destruct s as [c m]. intros [Hc Hm] Hk. unfold replace_state_block. unfold checksums_keys_ok in Hm. cbn [fst snd] in *.
  assert (forall x : Z * Z, bt_get k m = Some x -> sums_ok (Z.lxor c (state_contribution k x.1 x.2), bt_remove k m)) as H1.
  { intros y _. split; [apply xor_fits; [exact Hc|apply contribution_fits]|].
    unfold checksums_keys_ok. cbn [snd]. rewrite List.Forall_forall in *. intros k' (e & <- & [He _]%filter_In)%in_map_iff. apply Hm. now apply in_map. }
  assert (exists s', match bt_get k m with Some (g, y) => (Z.lxor c (state_contribution k g y), bt_remove k m) | None => (c, m) end = s' /\ sums_ok s') as ([c' m'] & -> & [Hc' Hm']).
  { destruct (bt_get k m) as [[g y]|]; eexists; (split; [reflexivity|]); [now apply (H1 (g, y))|now split]. }
  destruct x as [[g y]|]; [|now split]. split; [apply xor_fits; [exact Hc'|apply contribution_fits]|].
  unfold checksums_keys_ok in *. cbn [snd] in *. rewrite List.Forall_forall in *. intros k' [->|Hk']%bt_keys_insert; [now apply Hk|now apply Hm'].
Qed.
Lemma replace_all {A} (key : A -> BlockKey) (value : A -> option (Z * Z)) l s : sums_ok s ->
  (forall x, In x l -> is_Some (value x) -> BlockKey_ok (key x)) ->
  sums_ok (fold_left (fun s x => replace_state_block s (key x) (value x)) l s).
Proof.
  revert s. induction l as [|x l IH]; intros s Hs Hl; [exact Hs|]. simpl. apply IH.
  - apply replace_ok; [exact Hs|]. apply Hl. now left.
  - intros y Hy. apply Hl. now right.
Qed.
Lemma fold_left_ext {A B} (f g : A -> B -> A) l a : (forall a b, f a b = g a b) -> fold_left f l a = fold_left g l a.
Proof. intros He. revert a. induction l as [|b l IH]; intros a; simpl; [reflexivity|]. now rewrite He, IH. Qed.
Lemma capture_checksums_ok {E} v seq pages checkpoint post blocks : sums_ok (v_state_checksum v, v_block_checksums v) ->
  Forall page_ok pages -> option_ok checkpoint_ok checkpoint ->
  capture_checksums (E := E) v seq pages checkpoint = Ok (post, blocks) -> sums_ok (post, blocks).
Proof.
  intros Hs Hp Hc. unfold capture_checksums.
  rewrite (fold_left_ext _ (fun s (x : PageId * Z * bytes) => replace_state_block s (BlockKey_from_page (vc_kind (v_config v)) x.1.1) (Some (x.1.2, checksum64 x.2))))
    by (now intros s [[p g] bs]).
  set (s1 := fold_left _ pages _).
  assert (sums_ok s1) as H1.
  { apply (replace_all (fun x : PageId * Z * bytes => BlockKey_from_page (vc_kind (v_config v)) x.1.1) (fun x => Some (x.1.2, checksum64 x.2))); [exact Hs|].
    intros x Hx _. rewrite List.Forall_forall in Hp. apply page_key_ok. apply (Hp x Hx). }
  destruct checkpoint as [c|]; [|now intros [= <-]].
  intros (bl & Hb & [= <-])%outcome_bind_Ok. apply vmm_snapshot_ok in Hb; [|apply Hc]. rewrite List.Forall_forall in Hb.
  apply (replace_all fst (fun b : BlockKey * bytes => Some (seq, checksum64 b.2))).
  - apply (replace_all (fun k : BlockKey => k) (fun _ => None)); [exact H1|]. intros x _ [y Hy]. discriminate.
  - intros x Hx _. apply (Hb x Hx).
Qed.

(** ** The pages of a capture *)
(** What the cache and the guest hand to a capture. A capture without pages
    is only started when it has something to carry over. *)
Record start_ok v (start : CaptureStart) : Prop := {
  sk_migration : cs_migration start = false;
  sk_pages p : In p (cs_pages start) -> In p (cs_flushed start) /\ pid_volume p = volume
    /\ fits W32 (pid_page p) /\ all_bytes (cs_contents start p);
  sk_checkpoint : option_ok (fun c => checkpoint_ok c /\ VolumeConfig_is_memory config = true) (cs_checkpoint start);
  sk_room : v_next_object_id v <= W64 - W32;
  sk_progress : cs_pages start = [] -> v_mutation_seq v = 0 \/ v_page_locs v <> [] }.
Lemma overlay_lookup pages contents saved p :
  overlay pages contents saved !! p = if bool_decide (In p pages) then Some (contents p) else saved !! p.
Proof.
  unfold overlay. revert saved. induction pages as [|q pages IH]; intros saved; [reflexivity|]. simpl. rewrite IH.
  destruct (bool_decide_reflect (In p pages)) as [Hi|Hi].
  - rewrite bool_decide_true; [reflexivity|now right].
  - destruct (decide (q = p)) as [<-|Hne].
    + rewrite lookup_insert_eq, bool_decide_true; [reflexivity|now left].
    + rewrite lookup_insert_ne by exact Hne. rewrite bool_decide_false; [reflexivity|]. now intros [|].
Qed.
Lemma imap_In {A B} (f : nat -> A -> B) l y : In y (imap f l) -> exists i x, l !! i = Some x /\ y = f i x.
Proof.
  intros [i Hi]%list_elem_of_In%list_elem_of_lookup. rewrite list_lookup_imap in Hi. destruct (l !! i) as [x|] eqn:E; [|discriminate].
  injection Hi as <-. eauto.
Qed.
Lemma lookup_len {A} (l : list A) i x : l !! i = Some x -> 0 <= Z.of_nat i < len l.
Proof. intros H%lookup_lt_Some. unfold len. lia. Qed.
Lemma select_rescues_In v flush prepared p raw : In (p, raw) (select_rescues v flush prepared) ->
  exists pr g loc, In pr prepared /\ In (p, g, loc, raw) (cr_entries pr)
  /\ ~ In p (bt_keys flush) /\ bt_get p (v_page_locs v) = Some (g, loc).
Proof.
  unfold select_rescues. intros (l & (pr & <- & [Hpr _]%filter_In)%in_map_iff & ([[[q g] loc] raw'] & Hin & Hl)%omap_In)%in_concat.
  unfold live_rescue in Hl. destruct (bt_contains q flush) eqn:Ec; [discriminate|]. simpl in Hl.
  destruct (bool_decide_reflect (bt_get q (v_page_locs v) = Some (g, loc))) as [Hg|]; [|discriminate]. injection Hl as <- <-.
  exists pr, g, loc. split; [exact Hpr|]. split; [exact Hin|]. split; [|exact Hg].
  apply not_true_iff_false in Ec. now rewrite <- bt_contains_In.
Qed.
(** A rescued page is a saved one. *)
Lemma rescue_saved h s kept r b q flush p raw : core_ok h s kept r kept b q ->
  In (p, raw) (select_rescues (lh_volume h) flush (lh_prepared h)) ->
  pid_volume p = volume /\ fits W32 (pid_page p) /\ all_bytes raw /\ ~ In p (bt_keys flush) /\ sh_saved s !! p = Some raw.
Proof using CL LL PL small_pages.
  intros K (pr & g & loc & Hpr & Hin & Hf & Hg)%select_rescues_In.
  pose proof (cr_files _ _ _ _ _ _ _ _ _ _ K) as F. pose proof (fi_written _ _ _ _ _ _ _ F) as A.
  destruct (pl_some _ _ _ _ _ (fi_placed _ _ _ _ _ _ _ F) p g loc Hg) as (Hv & f & raw0 & N0 & Hrow).
  destruct (all_files_ok volume fence kept f A (ni_in _ _ _ _ _ _ N0)) as [seq FK].
  destruct (row_entry small_pages volume fence config seq f p g loc FK (proj1 (fi_content _ _ _ _ _ _ _ F f (ni_in _ _ _ _ _ _ N0))) Hrow)
    as (_ & _ & _ & _ & _ & _ & _ & Hpage).
  destruct (fi_prepared _ _ _ _ _ _ _ F pr p g loc raw Hpr Hin) as (_ & Hb & Hn). destruct (Hn Hg) as [f' N].
  split; [exact Hv|]. split; [exact Hpage|]. split; [exact Hb|]. split; [exact Hf|].
  pose proof (so_pages _ _ _ _ _ _ _ (cr_saved _ _ _ _ _ _ _ _ _ _ K) p) as Hs.
  destruct (sh_saved s !! p) as [raw'|]; [|now destruct (Hs Hv f' g raw (ni_in _ _ _ _ _ _ N) (ni_entry _ _ _ _ _ _ N))].
  destruct Hs as (_ & g' & f'' & N'). now destruct (newest_unique small_pages volume fence config kept p g raw f' g' raw' f'' A N N') as (_ & -> & _).
Qed.
(** The pages a capture writes: newer than what is saved, and each with its
    captured content. *)
Lemma captured_page h s kept r b q start v' cut : core_ok h s kept r kept b q -> start_ok (lh_volume h) start ->
  capture_cut (E := unit) (lh_volume h) (cs_pages start) (select_rescues (lh_volume h) (bts_collect (cs_flushed start)) (lh_prepared h)) = Ok (v', cut) ->
  forall x, In x (batch_pages cut (cs_contents start)) ->
  page_ok x /\ pid_volume x.1.1 = volume /\ v_next_gen (lh_volume h) <= x.1.2 < v_next_gen v'
  /\ overlay (cs_pages start) (cs_contents start) (sh_saved s) !! x.1.1 = Some x.2.
Proof using CL LL PL small_pages.
  intros K S Hcut x. pose proof (cr_volume _ _ _ _ _ _ _ _ _ _ K) as V.
  pose proof (vk_gen _ _ _ V) as Hg0.
  apply capture_cut_Ok in Hcut as (-> & _ & _ & Hg & ->); [|apply V..]. fields. unfold batch_pages. cbn [cut_unread cut_rescues].
  set (rescues := select_rescues _ _ _) in *. pose proof (len_nonneg (cs_pages start)). pose proof (len_nonneg rescues).
  rewrite in_app_iff. intros [([p g] & <- & (i & p' & Hi & [= -> ->])%imap_In)%in_map_iff|(i & [p raw] & Hi & ->)%imap_In]; cbn [fst snd].
  - pose proof (lookup_len _ _ _ Hi). destruct (sk_pages _ _ S p') as (_ & Hv & Hp & Hb); [now apply list_elem_of_In, (list_elem_of_lookup_2 _ i)|].
    split; [split; [exact Hp|]; unfold fits in *; cbn [fst snd]; split; [lia|exact Hb]|]. split; [exact Hv|]. split; [lia|].
    rewrite overlay_lookup, bool_decide_true; [reflexivity|]. now apply list_elem_of_In, (list_elem_of_lookup_2 _ i).
  - pose proof (lookup_len _ _ _ Hi). apply list_elem_of_lookup_2, list_elem_of_In in Hi.
    destruct (rescue_saved _ _ _ _ _ _ _ _ _ K Hi) as (Hv & Hp & Hb & Hf & Hs).
    split; [split; [exact Hp|]; unfold fits in *; cbn [fst snd]; split; [lia|exact Hb]|]. split; [exact Hv|]. split; [lia|].
    rewrite overlay_lookup, bool_decide_false; [exact Hs|]. intros Hin%(sk_pages _ _ S). apply Hf, bts_collect_keys, Hin.
Qed.

(** ** The batch of a capture *)
Definition capture_shadow (s : Shadow) (start : CaptureStart) : Shadow :=
  {| sh_saved := sh_saved s; sh_captured := overlay (cs_pages start) (cs_contents start) (sh_saved s) |}.
(** The entries of [w]'s files are VMM blocks and the pages, one for each. *)
Record page_batch (pages : list (PageId * Z * bytes)) (w : Written) : Prop := {
  pg_entry f e : In f (w_files w) -> In e f.2 -> is_vmm_entry e \/ In e (map (page_entry (vc_kind config)) pages);
  pg_all x : In x pages -> exists f g raw, In f (w_files w) /\ entry_of f x.1.1 g raw;
  pg_once : ascending (concat (map snd (w_files w))) }.
Lemma page_batch_data pages w f p g raw : page_batch pages w -> (forall x, In x pages -> pid_volume x.1.1 = volume) ->
  In f (w_files w) -> pid_volume p = volume -> entry_of f p g raw -> In (p, g, raw) pages.
Proof using Type.
  intros B Hv Hf Hp He. destruct (pg_entry _ _ B f _ Hf He) as [H|([[p' g'] raw'] & [= Hk -> ->] & Hx)%in_map_iff].
  - now destruct (page_key_not_vmm (vc_kind config) p).
  - apply page_key_inj in Hk; [now rewrite <- Hk|]. rewrite Hp. now apply (Hv _ Hx).
Qed.
Lemma entry_once (fs : list File) f f' p g raw g' raw' : ascending (concat (map snd fs)) -> In f fs -> In f' fs ->
  entry_of f p g raw -> entry_of f' p g' raw' -> f = f'.
Proof using Type.
  intros Ha Hf Hf' He He'. induction fs as [|x fs IH]; [easy|]. cbn [map concat] in Ha.
  assert (forall y k g raw k' g' raw', In y fs -> In (Entry_Data k g raw) x.2 -> In (Entry_Data k' g' raw') y.2 -> k <> k') as Hx.
  { intros y k g1 raw1 k' g2 raw2 Hy H1 H2 ->. unfold ascending in Ha. rewrite StronglySorted_app in Ha. destruct Ha as (Ha & _).
    specialize (Ha (Entry_Data k' g1 raw1) (Entry_Data k' g2 raw2)). rewrite !list_elem_of_In in Ha. unfold key_lt in Ha. simpl in Ha. rewrite cmp_refl in Ha.
    discriminate Ha; [exact H1|]. apply in_concat. exists y.2. split; [now apply in_map|exact H2]. }
  destruct Hf as [<-|Hf], Hf' as [<-|Hf']; [reflexivity|..].
  - now destruct (Hx _ _ _ _ _ _ _ Hf' He He').
  - now destruct (Hx _ _ _ _ _ _ _ Hf He' He).
  - apply IH; auto. now apply StronglySorted_app_1_r in Ha.
Qed.
Lemma built_batch {E} v cut pages checkpoint post b files : capture_batch (E := E) volume v cut pages checkpoint post = Ok b ->
  PageBatchBuilder_finish (E := E) b = Ok files -> len (bb_entries (pb_builder b)) < W32 ->
  cut_tombstones cut = [] -> volume_ok v -> fits W64 (cut_seq cut) -> fits W64 (cut_first_object cut) -> cut_fence cut = fence ->
  fits W64 post -> option_ok checkpoint_ok checkpoint -> Forall page_ok pages ->
  exists w, written_ok volume fence w /\ whole w /\ w_seq w = cut_seq cut /\ files = map (local_file volume fence) (w_files w)
    /\ (forall n f, w_files w !! n = Some f -> file_id f = cut_first_object cut + Z.of_nat n)
    /\ len (w_files w) < W32 /\ page_batch pages w.
Proof using CL LL PL small_pages volume_fits fence_fits.
  intros Hb Hf Hl Ht V Hs Ho Hfe Hp Hc Hpages.
  apply capture_batch_Ok in Hb as (ves & Hv1 & Hv2 & He & Hbv & Hbf & Hm & Hlen); [|exact Ht|apply V|exact Hs|exact Hc].
  rewrite (vk_config _ _ _ V) in He.
  assert (Forall BlxEntry_ok (map (page_entry (vc_kind config)) pages ++ ves)) as Hok.
  { apply Forall_app. split; [|exact Hv2]. apply Forall_map. rewrite List.Forall_forall in *. intros x Hx. apply page_entry_ok; [now apply Hpages|apply (Hlen x Hx)]. }
  assert (PageBatch_ok b) as Hpb.
  { unfold PageBatch_ok, builder_ok. rewrite Hm, Hbv, Hbf. split; [split; [|split; [|exact Hl]]|now repeat split].
    - unfold BatchMeta_ok, capture_meta. cbn. rewrite Hfe. pose proof (vk_checksum _ _ _ V). repeat split; try assumption || apply Z.le_refl; apply fence_fits || apply volume_fits || apply Ho || apply Hs || apply Hp || lia || apply H.
    - rewrite He. apply fold_keep_newest_ok; [split; constructor|exact Hok]. }
  destruct (finish_written (E := E) small_pages volume fence b files (cut_seq cut) Hpb) as (w & W1 & W2 & W3 & W4 & W5 & W6 & W7);
    [unfold batch_meta_of; rewrite Hm, Hbv, Hbf; now repeat split|exact Hf|].
  rewrite Hm in W5. exists w. repeat (split; [assumption|]). rewrite He in W6.
  destruct (map_ok_values (fold_left keep_newest (map (page_entry (vc_kind config)) pages ++ ves) [])) as (Hasc & _);
    [apply fold_keep_newest_ok; [split; constructor|exact Hok]|]. rewrite <- W6 in Hasc.
  destruct (merged_pages (vc_kind config) pages ves Hv1 Hok) as [M1 M2]. rewrite <- W6 in M1, M2.
  assert (forall f e, In f (w_files w) -> In e f.2 -> In e (concat (map snd (w_files w)))) as Hin.
  { intros f e Hff Hee. apply in_concat. exists f.2. split; [now apply (in_map snd)|exact Hee]. }
  split; [intros f e Hff Hee; now apply M1, (Hin f)| |exact Hasc].
  intros x Hx. destruct (M2 x Hx) as (e & Hin' & Hk). destruct (M1 e Hin') as [H|(y & <- & Hy)%in_map_iff].
  - unfold is_vmm_entry in H. rewrite Hk in H. now destruct (page_key_not_vmm (vc_kind config) x.1.1).
  - apply in_concat in Hin' as (es & (f & <- & Hff)%in_map_iff & Hin'). exists f, y.1.2, y.2. split; [exact Hff|].
    unfold entry_of. rewrite <- Hk. exact Hin'.
Qed.

(** ** The start of a capture *)
Definition running_of (start : CaptureStart) (cut : Cut) (files : list LocalFile) (post : Z)
    (blocks : BTreeMap BlockKey (Z * Z)) : Running :=
  {| ru_cut := cut; ru_checkpoint := cs_checkpoint start; ru_migration := cs_migration start;
     ru_complete_memory := cs_complete_memory start; ru_files := files; ru_post_checksum := post; ru_block_checksums := blocks |}.
Lemma all_files_empty w kept : all_files (kept ++ [part w 0]) = all_files kept.
Proof. rewrite all_files_app. unfold all_files at 2. simpl. now rewrite app_nil_r. Qed.
Lemma part_written kept w k : all_written kept -> written_ok volume fence w ->
  (forall w', In w' kept -> w_seq w' < w_seq w) ->
  (forall f f', In f (all_files kept) -> In f' (w_files w) -> file_id f < file_id f') -> all_written (kept ++ [part w k]).
Proof.
  intros [A1 A2] [W1 W2] Hs Hi. split.
  - apply Forall_app. split; [exact A1|]. constructor; [|constructor]. split; cbn [part w_files w_seq].
    + now apply Forall_take.
    + rewrite <- (firstn_skipn k (w_files w)), map_app in W2. now apply StronglySorted_app_1_l in W2.
  - apply sorted_join; [exact A2|repeat constructor|]. intros w1 w2 H1 [<-|[]]. split; [now apply Hs|].
    intros f f' Hf Hf'. apply Hi; [apply all_files_In; eauto|]. cbn [part w_files] in Hf'.
    rewrite <- (firstn_skipn k (w_files w)). apply in_app_iff. now left.
Qed.
(** Before its first file is written, a batch changes nothing. *)
Lemma core_empty h s kept r b w q : core_ok h s kept r kept b q -> written_ok volume fence w ->
  w_seq w = q -> v_next_seq (lh_volume h) = q + 1 -> (forall w', In w' kept -> w_seq w' < q) ->
  (forall i x, In (i, x) (v_blx_refs (lh_volume h)) -> or_batch_id x < q) ->
  (forall f, In f (w_files w) -> b <= file_id f) -> core_ok h s kept r (kept ++ [part w 0]) b q.
Proof.
  intros [K1 K2 K3 K4 K5 K6 K7 K8 K9 K10] W Hq Hn Hw Hx Hid. split; auto.
  - destruct K8 as [F1 F2 F3 F4 F5 F9 F6 F7 F8]. split; rewrite ?all_files_empty; auto.
    + apply part_written; auto; [rewrite Hq; exact Hw|]. intros f f' Hf Hf'. destruct (F2 f Hf) as [_ H]. specialize (Hid f' Hf'). lia.
    + intros w' [Hw'|[<-|[]]]%in_app_iff; [now apply F3|]. cbn [part w_seq]. lia.
    + destruct F5 as [R1 R2 R3 R4]. split; rewrite ?all_files_empty; auto. intros i x Hin. destruct (R3 i x Hin) as [He [Hl|Hr]].
      * split; [exact He|]. now left.
      * split; [exact He|]. right. rewrite map_app, in_app_iff. intros [H|[H|[]]]; [now apply Hr|]. cbn [part w_seq] in H. specialize (Hx i x Hin). lia.
  - eapply List.Forall_impl; [|exact K9]. intros c [C1 C3]. split; rewrite ?all_files_empty; auto.
Qed.
Lemma core_cut h s s' kept r b q v' : core_ok h s kept r kept b q -> sh_saved s' = sh_saved s ->
  v_next_seq (lh_volume h) <= v_next_seq v' < W64 -> v_next_gen (lh_volume h) <= v_next_gen v' < W64 -> fits W64 (v_next_object_id v') ->
  v' = (lh_volume h |> upd v_next_seq (v_next_seq v') |> upd v_next_object_id (v_next_object_id v') |> upd v_next_gen (v_next_gen v')) ->
  core_ok (h |> upd lh_volume v' |> upd lh_prepared []) s' kept r kept b q.
Proof.
  intros [K1 K2 K3 K4 K5 K6 K7 K8 K9 K10] Hs Hq Hg Ho Hv. rewrite Hv. revert Hq Hg Ho. clear Hv.
  generalize (v_next_seq v'), (v_next_gen v'), (v_next_object_id v'). intros nq ng no Hq Hg Ho.
  split; fields; try assumption.
  - destruct K2 as [V1 V2 V3 V4 V5 V6 V7 V8 V9 V10 V11 V12 V13]. unfold fits in *. split; fields; auto; try (unfold fits in *; lia).
    intros x e Hin. destruct (V13 x e Hin). split; [assumption|lia].
  - rewrite Hs. exact K6.
  - eapply files_ok_same with (v := lh_volume h); fields; try reflexivity; try lia.
    destruct K8 as [F1 F2 F3 F4 F5 F9 F6 F7 F8]. split; auto. easy.
Qed.
Lemma capture_batch_ok s kept r start pages w cut files post blocks (gen bound : Z) :
  page_batch pages w -> written_ok volume fence w -> whole w -> w_seq w = cut_seq cut -> files = map (local_file volume fence) (w_files w) ->
  (forall n f, w_files w !! n = Some f -> file_id f = cut_first_object cut + Z.of_nat n) -> len (w_files w) < W32 ->
  (forall x, In x pages -> pid_volume x.1.1 = volume /\ gen <= x.1.2 /\ sh_captured (capture_shadow s start) !! x.1.1 = Some x.2) ->
  (forall p, In p (cs_pages start) -> pid_volume p = volume /\ exists x, In x pages /\ x.1.1 = p) ->
  (forall f, In f (all_files kept) -> file_id f < cut_first_object cut) ->
  (forall f p g raw, In f (all_files kept) -> entry_of f p g raw -> g < gen) -> holds volume config (all_files kept) (sh_saved s) ->
  batch_ok r kept (capture_shadow s start) (running_of start cut files post blocks) w.
Proof using PL.
  intros B W1 W2 W3 W4 W5 W6 Hx Hp Hid Hgen Hs.
  assert (forall f e, In f (w_files w) -> In e f.2 -> is_vmm_entry e \/ exists p g raw, e = Entry_Data (page_key p) g raw /\ pid_volume p = volume /\ gen <= g) as Hent.
  { intros f e Hf He. destruct (pg_entry _ _ B f e Hf He) as [|(x & <- & Hin)%in_map_iff]; [now left|]. right. exists x.1.1, x.1.2, x.2.
    destruct (Hx x Hin) as (? & ? & _). now split. }
  split; auto.
  - intros f Hf. split. intros e He. destruct (Hent f e Hf He) as [|(p & g & raw & ? & ? & _)]; [now left|right; eauto].
  - intros f f' p g raw g' raw'. apply entry_once, B.
  - intros f f' Hf Hf'. apply list_elem_of_In, list_elem_of_lookup in Hf' as [n Hn]. rewrite (W5 n f' Hn). specialize (Hid f Hf). lia.
  - intros f p g raw f' g' raw' Hf He Hf' He'. specialize (Hgen f p g raw Hf He).
    destruct (Hent f' _ Hf' He') as [H|(p' & g'' & raw'' & [= _ -> ->] & _ & H)]; [|lia]. now destruct (page_key_not_vmm (vc_kind config) p).
  - intros f p g raw Hf Hv He. apply (Hx (p, g, raw)). eapply page_batch_data; eauto. intros x Hin. apply (Hx x Hin).
  - intros p Hv Habs. simpl. rewrite overlay_lookup, bool_decide_false; [reflexivity|]. intros Hin.
    destruct (Hp p Hin) as (_ & x & Hx' & <-). destruct (pg_all _ _ B x Hx') as (f & g & raw & Hf & He). now apply (Habs f g raw).
  - intros p Hv. simpl. rewrite overlay_lookup, bool_decide_false by (intros Hin; now apply Hv, (Hp p)).
    specialize (Hs p). destruct (sh_saved s !! p); [now destruct Hs|reflexivity].
Qed.
Lemma capture_running h s kept r start v' cut post blocks b files :
  core_ok h s kept r kept (v_next_object_id (lh_volume h)) (v_next_seq (lh_volume h)) -> start_ok (lh_volume h) start ->
  build_capture volume start h = Ok (v', cut, (post, blocks), b) -> len (bb_entries (pb_builder b)) < W32 ->
  PageBatchBuilder_finish (E := unit) b = Ok files ->
  exists w, running volume fence config (h |> upd lh_volume v' |> upd lh_prepared []) (capture_shadow s start) kept r
    (running_of start cut files post blocks) w 0.
Proof using CL LL PL small_pages volume_fits fence_fits.
  intros K S Hbuild Hl Hfin. pose proof (cr_volume _ _ _ _ _ _ _ _ _ _ K) as V. pose proof (cr_files _ _ _ _ _ _ _ _ _ _ K) as F.
  unfold build_capture in Hbuild. apply outcome_bind_Ok in Hbuild as ([v1 cut1] & Hcut & Hbuild).
  pose proof (captured_page _ _ _ _ _ _ _ _ _ K S Hcut) as Hpages.
  apply outcome_bind_Ok in Hbuild as ([post1 blocks1] & Hsum & Hbuild). apply outcome_bind_Ok in Hbuild as (b1 & Hb & [= -> -> -> -> ->]).
  apply capture_cut_Ok in Hcut as (Hv & Hq & Ho & Hg & Hc); [|apply V..].
  set (rescues := select_rescues _ _ _) in *. pose proof (len_nonneg (cs_pages start)). pose proof (len_nonneg rescues).
  assert (v_next_seq v' = v_next_seq (lh_volume h) + 1 /\ v_next_gen v' = v_next_gen (lh_volume h) + len (cs_pages start) + len rescues
    /\ v_next_object_id v' = v_next_object_id (lh_volume h) + (len (cs_pages start) + len rescues)) as (E1 & E2 & E3).
  { rewrite Hv. fields. auto. }
  rewrite <- E2, <- E3, <- E1 in Hv. pose proof (vk_seq _ _ _ V) as Fq. pose proof (vk_gen _ _ _ V) as Fg. pose proof (vk_object _ _ _ V) as Fo. unfold fits in Fq, Fg, Fo.
  pose proof (core_cut h s (capture_shadow s start) kept r _ _ v' K eq_refl ltac:(lia) ltac:(lia) ltac:(unfold fits; lia) Hv) as K'.
  pose proof (cr_volume _ _ _ _ _ _ _ _ _ _ K') as V'. fields.
  assert (Forall page_ok (batch_pages cut (cs_contents start))) as Hpok by (apply List.Forall_forall; intros x Hx; apply (Hpages x Hx)).
  assert (option_ok checkpoint_ok (cs_checkpoint start)) as Hck.
  { pose proof (sk_checkpoint _ _ S) as Hck. destruct (cs_checkpoint start); [apply Hck|exact I]. }
  apply capture_checksums_ok in Hsum as [Hpost Hkeys]; [|split; apply V'|exact Hpok|exact Hck]. cbn [fst snd] in Hpost, Hkeys.
  assert (cut_seq cut = v_next_seq (lh_volume h) /\ cut_first_object cut = v_next_object_id (lh_volume h) /\ cut_fence cut = fence
    /\ cut_tombstones cut = [] /\ cut_capture_seq cut = v_mutation_seq (lh_volume h)) as (C1 & C2 & C3 & C4 & C5).
  { rewrite Hc. cbn. pose proof (vk_fence _ _ _ V). auto. }
  destruct (built_batch v' cut _ _ _ b files Hb Hfin Hl C4 V') as (w & W1 & W2 & W3 & W4 & W5 & W6 & B);
    [unfold fits; lia|unfold fits; lia|exact C3|exact Hpost|exact Hck|exact Hpok|].
  assert (forall p, In p (cs_pages start) -> exists x, In x (batch_pages cut (cs_contents start)) /\ x.1.1 = p) as Hcs.
  { intros p Hp. rewrite Hc. unfold batch_pages. cbn [cut_unread cut_rescues]. apply list_elem_of_In, list_elem_of_lookup in Hp as [i Hi].
    eexists (p, _, _). split; [|reflexivity]. apply in_app_iff. left. apply in_map_iff. eexists (p, _). split; [reflexivity|].
    apply list_elem_of_In, (list_elem_of_lookup_2 _ i). rewrite list_lookup_imap, Hi. reflexivity. }
  exists w. unfold running. cbn [running_of ru_cut].
  split; [|split; [|split; [|split]]].
  - rewrite C1, C2, Z.add_0_r. apply core_empty; auto; fields; try congruence.
    + intros w' Hw'. apply (fi_seqs _ _ _ _ _ _ _ F w' Hw').
    + rewrite Hv. fields. intros i x Hx. apply (fi_ref_seqs _ _ _ _ _ _ _ F i x Hx).
    + intros f Hf. apply list_elem_of_In, list_elem_of_lookup in Hf as [n Hn]. rewrite (W5 n f Hn). lia.
  - eapply (capture_batch_ok s kept r start _ w cut files post blocks (v_next_gen (lh_volume h)) 0); eauto.
    + intros x Hx. destruct (Hpages x Hx) as (_ & ? & ? & ?). split; [assumption|]. split; [lia|assumption].
    + intros p Hp. split; [apply (sk_pages _ _ S p Hp)|now apply Hcs].
    + intros f Hf. rewrite C2. apply (fi_content _ _ _ _ _ _ _ F f Hf).
    + apply F.
    + apply (cr_saved _ _ _ _ _ _ _ _ _ _ K).
  - fields. pose proof (cr_seq _ _ _ _ _ _ _ _ _ _ K). pose proof (cr_capture _ _ _ _ _ _ _ _ _ _ K).
    assert (v_mutation_seq v' = v_mutation_seq (lh_volume h)) as Hm by (rewrite Hv; fields; reflexivity).
    split; cbn [running_of ru_cut ru_migration ru_checkpoint ru_post_checksum ru_block_checksums]; rewrite ?C1, ?C2, ?C5, ?Hm; try assumption || lia.
    + apply (fi_seqs _ _ _ _ _ _ _ F).
    + apply S.
    + apply (sk_checkpoint _ _ S).
    + apply S.
  - constructor.
  - fields. unfold reads_page. cbn [running_of ru_cut]. rewrite C5. split.
    { intros f p g raw Hf He. destruct (pg_entry _ _ B f _ Hf He) as [Hvm|(x & [= _ <- _] & Hx)%in_map_iff]; [now destruct (page_key_not_vmm (vc_kind config) p)|].
      destruct (Hpages x Hx) as (_ & _ & ? & _). lia. }
    destruct (cs_pages start) as [|p ps] eqn:Ep.
    + destruct (sk_progress _ _ S Ep) as [H1|H1]; [now left|]. right. left. rewrite Hv. fields. exact H1.
    + right. right. destruct (Hcs p) as (x & Hx & _); [now left|]. destruct (pg_all _ _ B x Hx) as (f & g & raw & ? & ?). exists f, x.1.1, g, raw. split; [assumption|]. split; [apply (Hpages x Hx)|assumption].
Qed.
End Start.

(** ** Captures with pending tombstones *)
Section Tombstones.
Context `{CL : CrcLaws} `{LL : Lz4Laws} `{PL : PageSizeLaws}.
Implicit Types b : PageBatchBuilder.

Lemma number_blocks_vmm {E} chunks : forall i bs, number_blocks (E := E) i chunks = Ok bs -> Forall (fun x => bk_space x.1 = Space_Vmm) bs.
Proof.
  induction chunks as [|c chunks IH]; intros i bs; simpl; [intros [= <-]; constructor|].
  destruct (i <? W32); [|discriminate]. intros (rest & Hr & [= <-])%outcome_bind_Ok. constructor; [reflexivity|now apply (IH (i + 1))].
Qed.
Lemma add_checkpoint_vmm {E} v seq b c b' : add_checkpoint (E := E) v seq b c = Ok b' ->
  exists ves, b' = fold_left add_entry ves b /\ Forall is_vmm_entry ves.
Proof.
  unfold add_checkpoint. rewrite vmm_tombstones. set (tombs := map _ _).
  unfold PageBatchBuilder_add_vmm_snapshot. intros (blocks & Hb & (nb & Hn & [= <-])%outcome_bind_Ok)%outcome_bind_Ok.
  apply vmm_blocks in Hn. rewrite Hn. exists (tombs ++ map (fun x => Entry_Data x.1 seq x.2) blocks).
  split; [now rewrite fold_left_app|]. apply number_blocks_vmm in Hb. apply Forall_app. rewrite Forall_map. split; [|exact Hb].
  unfold tombs. apply Forall_map, List.Forall_forall. intros block _. reflexivity.
Qed.
Definition is_tombstone (e : BlxEntry) : Prop := exists k g, e = Entry_Tombstone k g.
Lemma add_tombstones {E} kind volume ts : forall b b', pb_kind b = kind ->
  fold_outcome (add_pending_tombstone (E := E) kind volume) b ts = Ok b' ->
  exists es, b' = fold_left add_entry es b /\ Forall is_tombstone es
  /\ forall p g, pid_volume p = volume -> In (BlockKey_from_page kind p, g) ts -> In (Entry_Tombstone (BlockKey_from_page kind p) g) es.
Proof.
  induction ts as [|[k g0] ts IH]; intros b b' Hk; simpl; [intros [= <-]; exists []; repeat split; [constructor|easy]|].
  intros (b1 & H1 & H)%outcome_bind_Ok.
  assert (exists es1, b1 = fold_left add_entry es1 b /\ Forall is_tombstone es1
    /\ forall p, pid_volume p = volume -> k = BlockKey_from_page kind p -> In (Entry_Tombstone k g0) es1) as (es1 & -> & F1 & I1).
  { destruct (is_vmm k) eqn:Ev.
    - injection H1 as <-. exists [Entry_Tombstone (vmm_key (bk_block k)) g0]. split; [reflexivity|]. split; [constructor; [now eexists _, _|constructor]|].
      intros p _ ->. apply bool_decide_eq_true in Ev. now apply page_key_not_vmm in Ev.
    - destruct (BlockKey_to_page k kind volume) as [q|] eqn:Eq.
      + apply outcome_bind_Ok in H1 as ([b2 res] & H1 & H2). unfold PageBatchBuilder_try_add_tombstone in H1.
        destruct (_ =? _); [|discriminate]. injection H1 as <- <-. destruct (object_ids_result _); [|discriminate]. injection H2 as <-.
        rewrite Hk. exists [Entry_Tombstone (BlockKey_from_page kind q) g0]. split; [reflexivity|]. split; [constructor; [now eexists _, _|constructor]|].
        intros [pv pn] Hv ->. left. f_equal. destruct kind; simpl in Eq |- *; injection Eq as <-; reflexivity.
      + injection H1 as <-. exists []. split; [reflexivity|]. split; [constructor|].
        intros p Hv ->. destruct p, kind; discriminate. }
  destruct (IH (fold_left add_entry es1 b) b') as (es2 & -> & F2 & I2); [|exact H|].
  { destruct (add_entries_spec es1 b) as (-> & _). exact Hk. }
  exists (es1 ++ es2). split; [now rewrite fold_left_app|]. split; [now apply Forall_app|].
  intros p g Hv [[= Hp ->]|Hin]; apply in_app_iff; [left; rewrite <- Hp; now apply (I1 p)|right; now apply I2].
Qed.
(** The tombstones of a cut are newer than [g]. *)
Lemma tombstone_gen_Ok {E} seq keys : forall done g r, fold_outcome (tombstone_gen (E := E) seq) (done, g) keys = Ok r ->
  (forall x, In x done -> In x r.1)
  /\ forall k, In k keys -> bk_space k <> Space_Vmm -> exists n, In (k, n) r.1 /\ g <= n.
Proof.
  induction keys as [|k0 keys IH]; intros done g r; simpl; [intros [= <-]; split; [auto|easy]|].
  intros ([l g'] & H1 & H)%outcome_bind_Ok. destruct (IH _ _ _ H) as [I1 I2]. clear IH H. unfold tombstone_gen in H1.
  assert (l = done ++ [(k0, if is_vmm k0 then seq else g)] /\ g <= g') as [-> Hg].
  { unfold is_vmm. destruct (bool_decide _); [now injection H1 as <- <-|]. unfold take_gen in H1.
    apply outcome_bind_Ok in H1 as (n & (_ & ->)%plus_Ok & [= <- <-]). simpl. split; [reflexivity|lia]. }
  split; [intros x Hx; apply I1, in_app_iff; now left|].
  intros k [<-|Hk] Hv.
  - exists g. split; [|lia]. apply I1, in_app_iff. right. left. unfold is_vmm. now rewrite bool_decide_false.
  - destruct (I2 k Hk Hv) as (n & Hn & Hle). exists n. split; [exact Hn|lia].
Qed.
(** Each page is read, and a pending tombstone is newer than every page of the cut. *)
Lemma cut_generations {E} v pages rescues v' cut contents key : fits W64 (v_next_gen v) ->
  capture_cut (E := E) v pages rescues = Ok (v', cut) -> bt_contains key (v_pending_tombstones v) = true -> bk_space key <> Space_Vmm ->
  (forall p, In p pages -> exists g raw, In (p, g, raw) (batch_pages cut contents))
  /\ exists n, In (key, n) (cut_tombstones cut) /\ forall x, In x (batch_pages cut contents) -> x.1.2 < n.
Proof.
  intros Hg H Hk Hv. unfold capture_cut in H. apply outcome_bind_Ok in H as (ns & _ & H). apply outcome_bind_Ok in H as (no & _ & H).
  apply outcome_bind_Ok in H as ([un g1] & Hun & H). apply take_gen_Ok in Hun as (G1 & G1' & U); [|exact Hg]. simpl in G1, G1', U.
  apply outcome_bind_Ok in H as ([re g2] & Hre & H). pose proof (len_nonneg pages). pose proof (len_nonneg rescues).
  apply take_gen_Ok in Hre as (G2 & G2' & U'); [|unfold fits in Hg; lia]. simpl in G2, G2', U'.
  apply outcome_bind_Ok in H as ([ts g3] & Hts & H). injection H as _ <-. cbn [cut_tombstones]. unfold batch_pages. cbn [cut_unread cut_rescues]. split.
  - intros p [i Hi]%list_elem_of_In%list_elem_of_lookup. exists (v_next_gen v + Z.of_nat i), (contents p). apply in_app_iff. left.
    apply in_map_iff. exists (p, v_next_gen v + Z.of_nat i). split; [reflexivity|]. subst un. apply list_elem_of_In, list_elem_of_lookup.
    exists i. rewrite list_lookup_imap, Hi. reflexivity.
  - apply tombstone_gen_Ok in Hts as [_ Hts]. destruct (Hts key) as (n & Hn & Hle); [now apply bt_contains_In|exact Hv|]. exists n. split; [exact Hn|].
    intros x [([q g] & <- & Hq)%in_map_iff|Hx]%in_app_iff; cbn [fst snd].
    + subst un. apply list_elem_of_In, elem_of_lookup_imap in Hq as (i & y & [= -> ->] & Hi). apply lookup_lt_Some in Hi. unfold len in *. lia.
    + subst re. apply list_elem_of_In, elem_of_lookup_imap in Hx as (i & y & -> & Hi). cbn [fst snd]. apply lookup_lt_Some in Hi. unfold len in *. lia.
Qed.
Lemma replace_pages kind key pages : forall s, state_ok s ->
  let s' := fold_left (fun s '(page, generation, bs) =>
    replace_state_block s (BlockKey_from_page kind page) (Some (generation, checksum64 bs))) pages s in
  state_ok s' /\ (is_Some (bt_get key s.2) \/ In key (map (fun x => BlockKey_from_page kind x.1.1) pages) -> is_Some (bt_get key s'.2)).
Proof.
  induction pages as [|[[p g] raw] pages IH]; intros s Hs; [split; [exact Hs|now intros [?|[]]]|]. simpl.
  destruct (replace_state_block_ok s (BlockKey_from_page kind p) (Some (g, checksum64 raw)) Hs) as [Hs' Hget].
  destruct (IH _ Hs') as [H1 H2]. split; [exact H1|]. intros Hk. apply H2. rewrite Hget.
  destruct (decide _) as [|Hne]; [left; eauto|]. destruct Hk as [|[|]]; [now left|congruence|now right].
Qed.
Lemma replace_vmm {A} (key_of : A -> BlockKey) value l key : bk_space key <> Space_Vmm -> Forall (fun x => bk_space (key_of x) = Space_Vmm) l ->
  forall s, state_ok s -> let s' := fold_left (fun s x => replace_state_block s (key_of x) (value x)) l s in
  state_ok s' /\ bt_get key s'.2 = bt_get key s.2.
Proof.
  intros Hk. induction 1 as [|x l Hx _ IH]; intros s Hs; [now split|]. simpl.
  destruct (replace_state_block_ok s (key_of x) (value x) Hs) as [Hs' Hget]. destruct (IH _ Hs') as [H1 H2].
  split; [exact H1|]. rewrite H2, Hget. destruct (decide _); [congruence|reflexivity].
Qed.
Lemma capture_checksums_keep {E} v seq pages checkpoint sums key : state_ok (v_state_checksum v, v_block_checksums v) ->
  capture_checksums (E := E) v seq pages checkpoint = Ok sums -> bk_space key <> Space_Vmm ->
  In key (map (fun x => BlockKey_from_page (vc_kind (v_config v)) x.1.1) pages) -> state_ok sums /\ is_Some (bt_get key sums.2).
Proof.
  intros Hs H Hk Hin. unfold capture_checksums in H.
  destruct (replace_pages (vc_kind (v_config v)) key pages _ Hs) as [H1 H2]. specialize (H2 (or_intror Hin)).
  destruct checkpoint as [c|]; [|injection H as <-; now split].
  apply outcome_bind_Ok in H as (blocks & Hb & [= <-]). apply number_blocks_vmm in Hb.
  match type of H1 with state_ok ?s => set (s0 := s) in * end.
  destruct (replace_vmm (fun k => k) (fun _ => None) (List.filter is_vmm (bt_keys s0.2)) key Hk) with (s := s0) as [V1 V2]; [|exact H1|].
  { apply List.Forall_forall. intros k [_ Hv]%filter_In. now apply bool_decide_eq_true in Hv. }
  destruct (replace_vmm fst (fun x => Some (seq, checksum64 x.2)) blocks key Hk Hb _ V1) as [W1 W2].
  split; [exact W1|]. cbn zeta in W2. now rewrite W2, V2.
Qed.
Lemma capture_batch_tombstone {E} volume v cut pages checkpoint post b x n : let key := BlockKey_from_page (vc_kind (v_config v)) x.1.1 in
  capture_batch (E := E) volume v cut pages checkpoint post = Ok b -> In x pages -> In (key, n) (cut_tombstones cut) ->
  (forall y, In y pages -> y.1.2 < n) -> exists g, bt_get key (bb_entries (pb_builder b)) = Some (Entry_Tombstone key g).
Proof.
  intros key H Hx Ht Hlt. unfold capture_batch, PageBatchBuilder_new_with_checksums, BlxBatchBuilder_new_partitioned, BlxBatchBuilder_new in H.
  cbn [bm_min_seq bm_max_seq] in H. rewrite Z.leb_refl in H. cbn [outcome_bind] in H.
  apply outcome_bind_Ok in H as (b1 & H1 & H). apply add_pages in H1 as [-> Hf]. cbn [pb_kind pb_volume] in Hf, H.
  rewrite List.Forall_forall in Hf. destruct (Hf x Hx) as [_ Hv]. match type of H with context [fold_left add_entry ?es ?b0] => set (ps := es) in *; set (b0' := b0) in * end.
  apply outcome_bind_Ok in H as (b2 & H2 & H). apply add_tombstones in H2 as (ts & -> & Fts & Its); [|now destruct (add_entries_spec ps b0') as (-> & _)].
  specialize (Its x.1.1 n Hv Ht).
  assert (exists ves, b = fold_left add_entry ves (fold_left add_entry ts (fold_left add_entry ps b0')) /\ Forall is_vmm_entry ves) as (ves & -> & Fv).
  { destruct checkpoint as [c|]; [exact (add_checkpoint_vmm _ _ _ _ _ H)|]. injection H as <-. exists []. split; [reflexivity|constructor]. }
  rewrite <- !fold_left_app. destruct (add_entries_spec (ps ++ ts ++ ves) b0') as (_ & _ & _ & _ & ->). cbn [b0' pb_builder bb_entries].
  pose proof (merge_newest key (ps ++ ts ++ ves)) as Hn. destruct (bt_get key _) as [e|].
  2:{ destruct (Hn _ (proj2 (in_app_iff _ _ _) (or_intror (proj2 (in_app_iff _ _ _) (or_introl Its))))). reflexivity. }
  destruct Hn as (Hin & Hk & Hmax). specialize (Hmax _ (proj2 (in_app_iff _ _ _) (or_intror (proj2 (in_app_iff _ _ _) (or_introl Its)))) eq_refl). simpl in Hmax.
  apply in_app_iff in Hin as [(y & <- & Hy)%in_map_iff|[He|He]%in_app_iff].
  - specialize (Hlt y Hy). simpl in Hmax. lia.
  - rewrite List.Forall_forall in Fts. destruct (Fts e He) as (k & g & ->). simpl in Hk. subst k. now exists g.
  - rewrite List.Forall_forall in Fv. pose proof (Fv e He) as Hvm. unfold is_vmm_entry in Hvm. rewrite Hk in Hvm. now apply page_key_not_vmm in Hvm.
Qed.

(** C33. A pending tombstone wins over the page it is captured with. When a
    capture reads a page whose key is a pending tombstone (after a cold boot:
    any page of memory that the previous boot had saved), the batch it builds
    holds a tombstone for the page and not its contents, while the checksum of
    the state, which the record of the capture states, counts the page as data.
    This is so for every capture that builds its batch. *)
Theorem pending_tombstone_drops_page volume start h v cut post blocks b p : let before := lh_volume h in
  let key := BlockKey_from_page (vc_kind (v_config before)) p in
  fits W64 (v_next_gen before) -> state_ok (v_state_checksum before, v_block_checksums before) ->
  build_capture volume start h = Ok (v, cut, (post, blocks), b) ->
  In p (cs_pages start) -> bt_contains key (v_pending_tombstones before) = true ->
  (exists g, bt_get key (bb_entries (pb_builder b)) = Some (Entry_Tombstone key g))
  /\ is_Some (bt_get key blocks) /\ post = state_checksum blocks.
Proof.
  intros before key Hg Hs H Hp Hk. unfold build_capture in H. fold before in H.
  apply outcome_bind_Ok in H as ([v1 cut1] & Hcut & H). apply outcome_bind_Ok in H as ([post1 blocks1] & Hsums & H).
  apply outcome_bind_Ok in H as (b1 & Hb & H). injection H as -> -> -> -> ->.
  assert (v_config v = v_config before /\ v_state_checksum v = v_state_checksum before /\ v_block_checksums v = v_block_checksums before) as (Ec & Es & Eb).
  { unfold capture_cut in Hcut. repeat (apply outcome_bind_Ok in Hcut as (? & _ & Hcut); repeat case_match; simplify_eq). fields. auto. }
  destruct (cut_generations _ _ _ _ _ (cs_contents start) key Hg Hcut Hk (page_key_not_vmm _ _)) as (Hread & n & Hn & Hlt).
  destruct (Hread p Hp) as (g & raw & Hx). subst key. rewrite <- Ec in *. split.
  - exact (capture_batch_tombstone _ _ _ _ _ _ _ (p, g, raw) n Hb Hx Hn Hlt).
  - rewrite <- Es, <- Eb in Hs. destruct (capture_checksums_keep _ _ _ _ _ (BlockKey_from_page (vc_kind (v_config v)) p) Hs Hsums (page_key_not_vmm _ _)) as [[_ Hc] Hd].
    + apply in_map_iff. exists (p, g, raw). now split.
    + split; [exact Hd|exact Hc].
Qed.
End Tombstones.
