(* ===== verification/LocalInstall.v ===== *)
(** * A file of a capture is written

    Its pages move to the new file, and what was saved stays readable. *)

From stdpp Require Import gmap sorting.
From Stdlib Require Import Sorted.
From S2P Require Import Prelude Format Types OrdMap Sorting Head Blx BlxFile BlxBatch BlxState Manifest ManifestCodec.
From S2P Require Import BatchRefs Text Layout PageFile Journal JournalFormat LocalCapture LocalTask LocalBatch LocalInvariant LocalSteps LocalStart.

#[local] Open Scope Z_scope.

Section Install.
Context `{CL : CrcLaws} `{LL : Lz4Laws} `{PL : PageSizeLaws}.
Hypothesis small_pages : page_size <= 16 * 1024 * 1024.
Variables (volume fence : Z) (config : VolumeConfig).
Hypothesis volume_fits : fits W64 volume.
Hypothesis fence_fits : fits W64 fence.
Abbreviation page_key p := (BlockKey_from_page (vc_kind config) p).
Abbreviation identity_of := (identity_of volume fence).
Abbreviation rows f := (local_file volume fence f).2.
Abbreviation LocalInv := (LocalInv volume fence config).
Abbreviation core_ok := (core_ok volume fence config).
Abbreviation files_ok := (files_ok volume fence config).
Abbreviation volume_ok := (volume_ok fence config).
Abbreviation entry_of := (entry_of config).
Abbreviation newest_in := (newest_in config).
Abbreviation placed := (placed volume fence config).
Abbreviation batch_ok := (batch_ok volume fence config).
Abbreviation running_ok := (running_ok fence config).
Abbreviation reads_page := (reads_page volume config).
Abbreviation all_written := (all_written volume fence).
Implicit Types (h : LocalHost) (v : VolumeState) (ws kept : list Written) (r : JournalRecord) (f : File).


(** ** The page map *)
Abbreviation put_rows entries m := (fold_left (fun locs '(page, generation, location) => bt_insert page (generation, location) locs) entries m).
Definition in_rows (p : PageId) (entries : PageFileEntries) : Prop := exists g loc, In (p, g, loc) entries.
Lemma put_rows_sorted (entries : PageFileEntries) locs : bt_sorted locs -> bt_sorted (put_rows entries locs).
Proof. revert locs. induction entries as [|[[p g] loc] l IH]; intros locs Hs; [exact Hs|]. simpl. apply IH. now apply bt_insert_sorted. Qed.
Lemma put_rows_get (entries : PageFileEntries) locs p :
  (exists g loc, In (p, g, loc) entries /\ bt_get p (put_rows entries locs) = Some (g, loc))
  \/ (~ in_rows p entries /\ bt_get p (put_rows entries locs) = bt_get p locs).
Proof.
  revert locs. induction entries as [|[[q g] loc] l IH]; intros locs; [right; split; [now intros (? & ? & [])|reflexivity]|].
  simpl. destruct (IH (bt_insert q (g, loc) locs)) as [(g' & loc' & Hin & Hg)|[Hn Hg]]; [left; exists g', loc'; auto|].
  destruct (decide (p = q)) as [->|Hne].
  - left. exists g, loc. rewrite Hg, bt_get_insert_eq. auto.
  - right. rewrite Hg, bt_get_insert_ne by exact Hne. split; [|reflexivity].
    intros (g' & loc' & [[= -> _ _]|Hin]); [easy|]. apply Hn. now exists g', loc'.
Qed.
Lemma put_rows_nonempty (entries : PageFileEntries) locs : locs <> [] -> put_rows entries locs <> [].
Proof.
  revert locs. induction entries as [|[[q g] loc] l IH]; intros locs Hn; [exact Hn|]. simpl. apply IH.
  intros H. assert (In q (bt_keys (bt_insert q (g, loc) locs))) as Hin by (apply bt_keys_insert; now left). now rewrite H in Hin.
Qed.
Lemma newest_extend fs f p g raw f0 : newest_in fs p g raw f0 -> (forall g raw, ~ entry_of f p g raw) ->
  newest_in (fs ++ [f]) p g raw f0.
Proof.
  intros [N1 N2 N3] Hn. split; [apply in_app_iff; now left|exact N2|].
  intros f' g' raw' [Hf|[<-|[]]]%in_app_iff He; [eauto|now destruct (Hn g' raw')].
Qed.
Lemma newest_new fs f p g raw : entry_of f p g raw -> (forall f' g' raw', In f' fs -> entry_of f' p g' raw' -> g' < g \/ f' = f) ->
  newest_in (fs ++ [f]) p g raw f.
Proof.
  intros He Hn. split; [apply in_app_iff; right; now left|exact He|].
  intros f' g' raw' [Hf|[<-|[]]]%in_app_iff He'; [eauto|now right].
Qed.
Lemma row_at f p g loc : In (p, g, loc) (rows f) ->
  pid_volume p = volume /\ PageFileLoc_identity loc (pid_volume p) = identity_of (file_id f) /\ pl_object loc = file_id f.
Proof using Type.
  intros (row & _ & Hr)%omap_In. unfold finish_row in Hr. destruct (BlockKey_to_page_id _ _) as [q|] eqn:Eq; [|discriminate].
  injection Hr as <- _ <-. assert (pid_volume q = volume) as Hv.
  { unfold BlockKey_to_page_id in Eq. destruct (bk_space _); first [discriminate Eq|now injection Eq as <-]. }
  split; [exact Hv|]. now rewrite Hv.
Qed.
Lemma put_placed v v' fs f seq : placed v fs -> file_ok volume fence seq f -> content_ok volume config f ->
  v_page_locs v' = put_rows (rows f) (v_page_locs v) ->
  (forall p g raw f' g' raw', pid_volume p = volume -> entry_of f p g raw -> In f' fs -> entry_of f' p g' raw' -> g' < g \/ f' = f) ->
  placed v' (fs ++ [f]).
Proof using CL LL PL small_pages.
  intros [P1 P2 P3] K CO Hv Hn. split.
  - rewrite Hv. now apply put_rows_sorted.
  - intros p g loc. rewrite Hv. destruct (put_rows_get (rows f) (v_page_locs v) p) as [(g' & loc' & Hin & ->)|[Hnr ->]].
    + intros [= -> ->]. destruct (row_entry small_pages volume fence config seq f p g loc K CO Hin) as (raw & He & _ & _ & _ & (frame & _ & Hopen) & _).
      assert (pid_volume p = volume) as Hp by (eapply row_at; eauto).
      split; [exact Hp|]. exists f, raw. split; [|exact Hin]. apply newest_new; eauto.
    + intros Hg. destruct (P2 p g loc Hg) as (Hp & f0 & raw & N & Hrow). split; [exact Hp|]. exists f0, raw. split; [|exact Hrow].
      apply newest_extend; [exact N|]. intros g' raw' He. destruct (row_complete volume fence config f p g' raw' Hp He) as [loc' Hl]. apply Hnr. now exists g', loc'.
  - intros p. rewrite Hv. destruct (put_rows_get (rows f) (v_page_locs v) p) as [(g' & loc' & Hin & ->)|[Hnr ->]]; [discriminate|].
    intros Hg Hp f' g raw [Hf|[<-|[]]]%in_app_iff He; [now apply (P3 p Hg Hp f' g raw)|].
    destruct (row_complete volume fence config f p g raw Hp He) as [loc' Hl]. apply Hnr. now exists g, loc'.
Qed.

(** ** The volume after one more file *)
Definition installed v f (post : Z) (blocks : BTreeMap BlockKey (Z * Z)) : VolumeState :=
  v |> upd v_page_locs (put_rows (rows f) (v_page_locs v))
    |> upd v_blx_blobs (v_blx_blobs v ++ [(identity_of (file_id f), len (bo_bytes f.1))])
    |> upd v_blx_refs (bt_insert (identity_of (file_id f)) (file_ref f) (v_blx_refs v))
    |> upd v_tombstone_blx_files (if has_tombstone (bo_footer f.1) then bt_insert (identity_of (file_id f)) tt (v_tombstone_blx_files v)
                                  else v_tombstone_blx_files v)
    |> upd v_state_checksum post |> upd v_block_checksums blocks.
Lemma install_Ok {E} v f seq post blocks : file_ok volume fence seq f ->
  install_file (E := E) volume fence post blocks (local_file volume fence f) v = Ok (installed v f post blocks, true).
Proof using CL LL PL small_pages.
  intros K. unfold install_file. cbn [local_file]. rewrite (file_holds_open small_pages f.1 f.2 (fk_holds _ _ _ _ K)). cbn [result_ok outcome_bind].
  unfold ObjectRef_from_blx. rewrite (proj2 (Z.ltb_lt _ _) (fk_len _ _ _ _ K)). cbn [outcome_bind]. fields. reflexivity.
Qed.
Lemma part_succ w k f : w_files w !! k = Some f -> forall kept, all_files (kept ++ [part w (S k)]) = all_files (kept ++ [part w k]) ++ [f].
Proof.
  intros Hk kept. rewrite !all_files_app, <- app_assoc. f_equal. unfold all_files. simpl. rewrite !app_nil_r. now apply take_S_r.
Qed.
Lemma installed_needed v f post blocks i : bt_sorted (v_page_locs v) -> needed (installed v f post blocks) i ->
  needed v i \/ i = identity_of (file_id f).
Proof using Type.
  intros Hs. unfold needed, installed. fields. intros [Hp|[Ht|Hv]]; [|destruct (has_tombstone _); [apply bt_keys_insert in Ht as [->|Ht]|]; auto|auto].
  unfold local_identities in *. apply omap_In in Hp as ([p [g loc]] & Hin & Hl). cbn [fst snd] in Hl.
  destruct (is_local loc) eqn:El; [|discriminate]. injection Hl as <-.
  pose proof (In_bt_get _ _ _ (put_rows_sorted (rows f) _ Hs) Hin) as Hg.
  destruct (put_rows_get (rows f) (v_page_locs v) p) as [(g' & loc' & Hr & He)|[_ He]]; rewrite Hg in He.
  - injection He as <- <-. right. apply (row_at f p g loc Hr).
  - left. left. apply omap_In. exists (p, (g, loc)). split; [now apply bt_get_In|]. cbn [fst snd]. now rewrite El.
Qed.
Lemma installed_refs v kept w k f post blocks : refs_cover volume fence v (kept ++ [part w k]) -> w_files w !! k = Some f ->
  file_ok volume fence (w_seq w) f -> (forall f', In f' (all_files (kept ++ [part w k])) -> file_id f' < file_id f) ->
  bt_sorted (v_page_locs v) -> refs_cover volume fence (installed v f post blocks) (kept ++ [part w (S k)]).
Proof using Type.
  intros [R1 R2 R3 R4] Hk K Hlt Hs.
  assert (v_blx_refs (installed v f post blocks) = bt_insert (identity_of (file_id f)) (file_ref f) (v_blx_refs v)) as Hv by (unfold installed; fields; reflexivity).
  pose proof (part_succ w k f Hk kept) as Hall. split.
  - rewrite Hv. now apply bt_insert_sorted.
  - intros f'. rewrite Hv, Hall, in_app_iff. intros [Hf|[<-|[]]]; [|apply bt_get_insert_eq].
    rewrite bt_get_insert_ne; [now apply R2|]. intros [= He]. specialize (Hlt f' Hf). lia.
  - intros i x. rewrite Hv. intros Hin. apply In_bt_get in Hin; [|now apply bt_insert_sorted].
    destruct (decide (i = identity_of (file_id f))) as [->|Hne].
    + rewrite bt_get_insert_eq in Hin. injection Hin as <-. split; [symmetry; apply K|]. left. exists f. rewrite Hall, in_app_iff. split; [right; now left|reflexivity].
    + rewrite bt_get_insert_ne in Hin by exact Hne. apply bt_get_In in Hin. destruct (R3 i x Hin) as [He Ho]. split; [exact He|].
      destruct Ho as [(f' & Hf' & ->)|Ho]; [left; exists f'; rewrite Hall, in_app_iff; auto|right].
      rewrite map_app in Ho |- *. exact Ho.
  - intros i Hn. apply installed_needed in Hn as [Hn| ->]; [| |exact Hs].
    + destruct (R4 i Hn) as (f' & Hf' & ->). exists f'. rewrite Hall, in_app_iff. auto.
    + exists f. rewrite Hall, in_app_iff. split; [right; now left|reflexivity].
Qed.
Lemma installed_files v kept w k f pr b post blocks : files_ok v (kept ++ [part w k]) pr b -> w_files w !! k = Some f -> file_id f = b ->
  file_ok volume fence (w_seq w) f -> content_ok volume config f -> all_written (kept ++ [part w (S k)]) ->
  (forall p g raw f' g' raw', pid_volume p = volume -> entry_of f p g raw -> In f' (all_files (kept ++ [part w k])) ->
     entry_of f' p g' raw' -> g' < g \/ f' = f) ->
  (forall p g raw, entry_of f p g raw -> g < v_next_gen v) ->
  files_ok (installed v f post blocks) (kept ++ [part w (S k)]) pr (b + 1).
Proof using CL LL PL small_pages.
  intros F Hk Hid K CO A Hnew Hgen. pose proof (part_succ w k f Hk kept) as Hall.
  destruct F as [F1 F2 F3 F4 F5 F9 F6 F7 F8]. pose proof (fk_id _ _ _ _ K) as Hfit. unfold fits in Hfit. split.
  - exact A.
  - intros f'. rewrite Hall, in_app_iff. intros [Hf|[<-|[]]]; [destruct (F2 f' Hf); split; [assumption|lia]|split; [exact CO|lia]].
  - intros w' Hw'. unfold installed. fields. apply in_app_iff in Hw' as [Hw'|[<-|[]]]; [apply F3, in_app_iff; now left|].
    apply (F3 (part w k)), in_app_iff. right. now left.
  - unfold installed. fields. intros f' p g raw. rewrite Hall, in_app_iff. intros [Hf|[<-|[]]]; [now apply F4|apply Hgen].
  - apply installed_refs; auto; [|apply F6]. intros f' Hf'. rewrite Hid. apply (F2 f' Hf').
  - unfold installed. fields. intros i x Hin. apply In_bt_get in Hin; [|apply bt_insert_sorted, F5].
    destruct (decide (i = identity_of (file_id f))) as [->|Hne].
    + rewrite bt_get_insert_eq in Hin. injection Hin as <-. unfold file_ref. cbn [written_ref or_batch_id]. destruct (fk_seq _ _ _ _ K) as [-> _].
      apply (F3 (part w k)), in_app_iff. right. now left.
    + rewrite bt_get_insert_ne in Hin by exact Hne. apply (F9 i x), bt_get_In, Hin.
  - rewrite Hall. apply (put_placed v _ _ f (w_seq w)); auto.
  - unfold installed. fields. intros i n [Hin|[[= <- <-]|[]]]%in_app_iff.
    + destruct (F7 i n Hin) as (id & -> & H). exists id. split; [reflexivity|lia].
    + exists (file_id f). split; [reflexivity|lia].
  - unfold installed. fields. intros c p g loc raw Hc Hin. destruct (F8 c p g loc raw Hc Hin) as (Ho & Hb & Hn).
    split; [lia|]. split; [exact Hb|]. rewrite Hall. intros Hg.
    destruct (put_rows_get (rows f) (v_page_locs v) p) as [(g' & loc' & Hr & He)|[Hnr He]]; rewrite Hg in He.
    + injection He as <- <-. destruct (row_at f p g loc Hr) as (_ & _ & Hobj). lia.
    + destruct (Hn (eq_sym He)) as [f0 N]. exists f0. apply newest_extend; [exact N|]. intros g' raw' Hent.
      destruct (pl_some _ _ _ _ _ F6 p g loc (eq_sym He)) as (Hp & _).
      destruct (row_complete volume fence config f p g' raw' Hp Hent) as [loc' Hl]. apply Hnr. now exists g', loc'.
Qed.

(** ** The device after one more file *)
Lemma blx_name_inj a b : fits W64 a -> fits W64 b -> blx_blob volume fence a = blx_blob volume fence b -> a = b.
Proof using volume_fits fence_fits.
  intros Ha%(parse_blx volume fence volume_fits fence_fits) Hb%(parse_blx volume fence volume_fits fence_fits) He.
  rewrite He, Hb in Ha. now injection Ha.
Qed.
Lemma saved_insert device r kept saved id bs : saved_ok volume fence config device r kept saved -> fits W64 id ->
  (forall f, In f (all_files kept) -> file_id f < id) ->
  saved_ok volume fence config (<[blx_blob volume fence id := bs]> device) r kept saved.
Proof using volume_fits fence_fits.
  intros [S1 S2 S3 S4 S5 S6 S7 S8] Hid Hlt. split; auto. intros f Hf. unfold on_device. rewrite lookup_insert_ne; [now apply S6|].
  intros He. apply blx_name_inj in He; [specialize (Hlt f Hf); lia|exact Hid|eapply files_fit; eauto].
Qed.
Lemma device_insert device r b q bs : device_ok volume fence config device r b q -> fits W64 b -> record_ok volume fence config r ->
  device_ok volume fence config (<[blx_blob volume fence b := bs]> device) r (b + 1) q.
Proof using volume_fits fence_fits.
  intros [D1 D2] Hb R. unfold fits in Hb. split.
  - intros name Hn. rewrite lookup_insert_ne; [now apply D1|]. intros <-.
    apply (record_name_parse volume fence config volume_fits fence_fits r _ R) in Hn. rewrite parse_blx in Hn by assumption. discriminate.
  - intros name x [[<- <-]|[_ Hx]]%lookup_insert_Some; [right; exists b; split; [reflexivity|lia]|].
    destruct (D2 name x Hx) as [H|(id & -> & H)]; [now left|right]. exists id. split; [reflexivity|lia].
Qed.
Lemma cleanup_more r ws ws' b q c f : cleanup_ok volume fence r ws b q c -> all_files ws' = all_files ws ++ [f] -> file_id f = b ->
  cleanup_ok volume fence r ws' (b + 1) q c.
Proof.
  intros [C1 C3] Hall Hid.
  assert (forall id, id < b -> (forall f', In f' (all_files ws) -> file_id f' <> id) -> forall f', In f' (all_files ws') -> file_id f' <> id) as Hx.
  { intros id Hlt Hne f'. rewrite Hall, in_app_iff. intros [Hf|[<-|[]]]; [now apply Hne|lia]. }
  split; auto.
  - intros name Hn. destruct (C1 name Hn) as [H|(id & -> & Hr & Hne)]; [now left|right]. exists id. split; [reflexivity|]. split; [lia|]. apply Hx; [lia|exact Hne].
  - intros i Hi. destruct (C3 i Hi) as (id & -> & Hr & Hne). exists id. split; [reflexivity|]. split; [lia|]. apply Hx; [lia|exact Hne].
Qed.

(** ** One more file *)
Definition file_done h f (ru : Running) : LocalHost :=
  h |> upd lh_device (<[blx_blob volume fence (file_id f) := bo_bytes f.1]> (lh_device h))
    |> upd lh_volume (installed (lh_volume h) f (ru_post_checksum ru) (ru_block_checksums ru)).
Lemma installed_volume v f post blocks : volume_ok v -> fits W64 post -> checksums_keys_ok blocks -> volume_ok (installed v f post blocks).
Proof. intros [V1 V2 V3 V4 V5 V6 V7 V8 V9 V10 V11 V12 V13] Hp Hb. unfold installed. split; fields; auto. Qed.
Lemma file_core h s kept r ru w k f b q : core_ok h s kept r (kept ++ [part w k]) b q -> batch_ok r kept s ru w ->
  w_files w !! k = Some f -> file_id f = b -> fits W64 (ru_post_checksum ru) -> checksums_keys_ok (ru_block_checksums ru) -> b + 1 < W64 ->
  (forall w', In w' kept -> w_seq w' < w_seq w) -> (forall p g raw, entry_of f p g raw -> g < v_next_gen (lh_volume h)) ->
  core_ok (file_done h f ru) s kept r (kept ++ [part w (S k)]) (b + 1) q.
Proof using CL LL PL small_pages volume_fits fence_fits.
  intros [K1 K2 K3 K4 K5 K6 K7 K8 K9 K10] B Hk Hid Hp Hb Hroom Hseq Hgen.
  assert (In f (w_files w)) as Hf by now apply list_elem_of_In, (list_elem_of_lookup_2 _ k).
  pose proof (written_file _ _ w f (bk_written _ _ _ _ _ _ _ _ B) Hf) as FK. pose proof (fk_id _ _ _ _ FK) as Hfit. rewrite Hid in Hfit.
  assert (forall f', In f' (all_files kept) -> file_id f' < b) as Hlt by (intros f' Hf'; rewrite <- Hid; now apply (bk_before _ _ _ _ _ _ _ _ B)).
  unfold file_done. rewrite Hid. split; fields; auto; try (unfold installed; fields; assumption).
  - now apply installed_volume.
  - now apply saved_insert.
  - apply device_insert; auto. apply K6.
  - apply installed_files; auto; [now apply (bk_content _ _ _ _ _ _ _ _ B)|..].
    + apply part_written; auto; [apply K6|apply B|apply (bk_before _ _ _ _ _ _ _ _ B)].
    + intros p g raw f' g' raw' Hv He Hf' He'. rewrite all_files_app, in_app_iff in Hf'. destruct Hf' as [Hf'|Hf'].
      * left. eapply (bk_newer _ _ _ _ _ _ _ _ B f'); eauto.
      * right. unfold all_files in Hf'. simpl in Hf'. rewrite app_nil_r in Hf'. eapply (bk_once _ _ _ _ _ _ _ _ B); eauto.
        rewrite <- (firstn_skipn k (w_files w)). apply in_app_iff. now left.
  - eapply List.Forall_impl; [|exact K9]. intros c Hc. eapply cleanup_more; eauto. now apply part_succ.
  - lia.
Qed.
Lemma file_running h s kept r ru w k f : running volume fence config h s kept r ru w k -> w_files w !! k = Some f ->
  running volume fence config (file_done h f ru) s kept r ru w (S k).
Proof using CL LL PL small_pages volume_fits fence_fits.
  intros (K & B & [O1 O2 O3 O4 O5 O6 O7 O8 O9 O10] & Hd & Hg & Hu) Hk.
  pose proof (bk_ids _ _ _ _ _ _ _ _ B k f Hk) as Hid. assert (In f (w_files w)) as Hf by now apply list_elem_of_In, (list_elem_of_lookup_2 _ k).
  pose proof (written_file _ _ w f (bk_written _ _ _ _ _ _ _ _ B) Hf) as FK. split; [|split; [|split; [|split]]].
  - replace (cut_first_object (ru_cut ru) + Z.of_nat (S k)) with (cut_first_object (ru_cut ru) + Z.of_nat k + 1) by lia.
    apply file_core; auto; [apply lookup_lt_Some in Hk; pose proof (bk_count _ _ _ _ _ _ _ _ B); unfold len in *; lia|intros w' Hw'; rewrite (bk_seq _ _ _ _ _ _ _ _ B); auto|]. intros p g raw. apply Hg, Hf.
  - exact B.
  - unfold file_done, installed. split; fields; auto.
  - unfold file_done. fields. rewrite (take_S_r _ _ _ Hk). apply Forall_app. split; [|constructor; [|constructor]].
    + rewrite List.Forall_forall in *. intros f' Hf'. unfold on_device. rewrite lookup_insert_ne; [now apply Hd|]. intros He.
      assert (In f' (w_files w)) as Hin by (rewrite <- (firstn_skipn k (w_files w)); apply in_app_iff; now left).
      apply blx_name_inj in He; [|apply FK|apply (written_file _ _ w f' (bk_written _ _ _ _ _ _ _ _ B) Hin)].
      apply list_elem_of_In, list_elem_of_lookup in Hf' as [n Hn]. apply lookup_take_Some in Hn as [Hn Hlt].
      rewrite (bk_ids _ _ _ _ _ _ _ _ B n f' Hn) in He. lia.
    + unfold on_device. apply lookup_insert_eq.
  - unfold file_done, installed, reads_page. fields. split; [exact Hg|]. destruct Hu as [Hu|[Hu|Hu]]; auto. right. left. now apply put_rows_nonempty.
Qed.
End Install.
