(* ===== verification/LocalCommit.v ===== *)
(** * The record of a capture

    The record names the batches that are still needed and nothing else; its
    pages are the captured ones. Once both copies are durable it is the best
    record, and what the cleanup then deletes is not needed by it. *)

From stdpp Require Import gmap sorting.
From Stdlib Require Import Sorted.
From S2P Require Import Prelude Format Types OrdMap Sorting Head Blx BlxFile BlxBatch BlxState Manifest ManifestCodec.
From S2P Require Import BatchRefs Text Layout PageFile Journal JournalFormat LocalCapture LocalTask LocalBatch LocalInvariant LocalSteps LocalStart LocalInstall.

#[local] Open Scope Z_scope.

Section Commit.
Context `{CL : CrcLaws} `{LL : Lz4Laws} `{PL : PageSizeLaws}.
Hypothesis small_pages : page_size <= 16 * 1024 * 1024.
Variables (volume fence : Z) (config : VolumeConfig).
Hypothesis volume_fits : fits W64 volume.
Hypothesis fence_fits : fits W64 fence.
Hypothesis config_valid : VolumeConfig_valid config = true.
Hypothesis config_fits : fits W32 (vc_pages config).
Abbreviation page_key p := (BlockKey_from_page (vc_kind config) p).
Abbreviation identity_of := (identity_of volume fence).
Abbreviation rows f := (local_file volume fence f).2.
Abbreviation LocalInv := (LocalInv volume fence config).
Abbreviation core_ok := (core_ok volume fence config).
Abbreviation files_ok := (files_ok volume fence config).
Abbreviation volume_ok := (volume_ok fence config).
Abbreviation entry_of := (entry_of config).
Abbreviation newest_in := (newest_in config).
Abbreviation placed := (placed volume fence config).
Abbreviation batch_ok := (batch_ok volume fence config).
Abbreviation running_ok := (running_ok fence config).
Abbreviation reads_page := (reads_page volume config).
Abbreviation all_written := (all_written volume fence).
Implicit Types (h : LocalHost) (v : VolumeState) (ws kept : list Written) (r : JournalRecord) (f : File).

Abbreviation needed_of v ws := (List.filter (w_needed volume fence v) ws).

(** ** The needed batches hold all pages *)
Lemma part_all kept w : kept ++ [part w (length (w_files w))] = kept ++ [w].
Proof. unfold part. rewrite take_ge by lia. now destruct w. Qed.
Lemma needed_file v ws f : In f (all_files ws) -> needed v (identity_of (file_id f)) -> In f (all_files (needed_of v ws)).
Proof.
  intros (w & Hw & Hf)%all_files_In Hn. apply all_files_In. exists w. split; [|exact Hf]. apply filter_In. split; [exact Hw|].
  apply existsb_exists. exists f. split; [exact Hf|]. now apply needed_blx_spec.
Qed.
Lemma needed_of_sub v ws f : In f (all_files (needed_of v ws)) -> In f (all_files ws).
Proof. intros (w & [Hw _]%filter_In & Hf)%all_files_In. apply all_files_In. eauto. Qed.
Lemma placed_needed v p g loc : bt_get p (v_page_locs v) = Some (g, loc) -> is_local loc = true ->
  needed v (PageFileLoc_identity loc (pid_volume p)).
Proof.
  intros Hg Hl. left. unfold local_identities. apply omap_In. exists (p, (g, loc)). split; [now apply bt_get_In|]. cbn [fst snd]. now rewrite Hl.
Qed.

Lemma placed_file v ws pr b p g loc : files_ok v ws pr b -> bt_get p (v_page_locs v) = Some (g, loc) ->
  pid_volume p = volume /\ is_local loc = true
  /\ exists f raw, newest_in (all_files (needed_of v ws)) p g raw f /\ newest_in (all_files ws) p g raw f.
Proof using CL LL PL small_pages.
  intros F Hg. destruct (pl_some _ _ _ _ _ (fi_placed _ _ _ _ _ _ _ F) p g loc Hg) as (Hv & f & raw & N & Hrow).
  pose proof (ni_in _ _ _ _ _ _ N) as Hf. destruct (all_files_ok volume fence ws f (fi_written _ _ _ _ _ _ _ F) Hf) as [seq FK].
  destruct (row_entry small_pages volume fence config seq f p g loc FK (proj1 (fi_content _ _ _ _ _ _ _ F f Hf)) Hrow) as (_ & _ & Hb & _).
  assert (is_local loc = true) as Hl by (unfold is_local; now apply Z.eqb_eq).
  split; [exact Hv|]. split; [exact Hl|]. exists f, raw. split; [|exact N].
  apply (newest_sub config (all_files ws)); [intros x; apply needed_of_sub| |exact N].
  apply needed_file; [exact Hf|]. destruct (row_at volume fence f p g loc Hrow) as (_ & <- & _). now apply (placed_needed v p g).
Qed.
(** Both readings of the volume agree. *)
Lemma needed_holds v kept r s ru w pr b : files_ok v (kept ++ [w]) pr b -> batch_ok r kept s ru w ->
  all_written kept -> holds volume config (all_files kept) (sh_saved s) ->
  holds volume config (all_files (needed_of v (kept ++ [w]))) (sh_captured s).
Proof using CL LL PL small_pages.
  intros F B A Hs p. destruct (decide (pid_volume p = volume)) as [Hv|Hv].
  2:{ rewrite (bk_foreign _ _ _ _ _ _ _ _ B p Hv). easy. }
  assert (forall x, In x (all_files (kept ++ [w])) <-> In x (all_files kept) \/ In x (w_files w)) as Hall.
  { intros x. rewrite all_files_app, in_app_iff. unfold all_files at 2. simpl. now rewrite app_nil_r. }
  destruct (bt_get p (v_page_locs v)) as [[g loc]|] eqn:Hg.
  - destruct (placed_file v _ _ _ p g loc F Hg) as (_ & _ & f & raw & N' & N). enough (sh_captured s !! p = Some raw) as -> by eauto.
    pose proof (ni_in _ _ _ _ _ _ N) as Hf. pose proof (ni_entry _ _ _ _ _ _ N) as He. apply Hall in Hf as [Hf|Hf].
    2:{ now apply (bk_pages _ _ _ _ _ _ _ _ B f p g raw Hf Hv). }
    rewrite (bk_others _ _ _ _ _ _ _ _ B p Hv).
    + specialize (Hs p). assert (newest_in (all_files kept) p g raw f) as N0 by (apply (newest_sub config (all_files (kept ++ [w]))); [intros x Hx; apply Hall; now left|exact Hf|exact N]).
      destruct (sh_saved s !! p) as [raw'|]; [|now destruct (Hs Hv f g raw Hf)]. destruct Hs as (_ & g' & f' & N1).
      now destruct (newest_unique small_pages volume fence config kept p g raw f g' raw' f' A N0 N1) as (_ & -> & _).
    + intros f' g' raw' Hf' He'. pose proof (bk_newer _ _ _ _ _ _ _ _ B f p g raw f' g' raw' Hf He Hf' He') as Hlt.
      destruct (ni_newest _ _ _ _ _ _ N f' g' raw' ltac:(apply Hall; now right) He') as [H| ->]; [lia|].
      pose proof (bk_before _ _ _ _ _ _ _ _ B f f Hf Hf'). lia.
  - pose proof (pl_none _ _ _ _ _ (fi_placed _ _ _ _ _ _ _ F) p Hg Hv) as Habs.
    rewrite (bk_others _ _ _ _ _ _ _ _ B p Hv); [|intros f g raw Hf; apply Habs, Hall; now right].
    specialize (Hs p). destruct (sh_saved s !! p) as [raw|].
    + destruct Hs as (_ & g & f & N). destruct (Habs f g raw); [apply Hall; left; apply N|apply N].
    + intros _ f g raw Hf. apply Habs. now apply needed_of_sub in Hf.
Qed.

(** ** The record *)
Definition with_vmm (ru : Running) v : VolumeState :=
  match ru_checkpoint ru with
  | Some _ => upd v_vmm_blx_files (batch_identities volume (cut_fence (ru_cut ru)) (ru_files ru)) v
  | None => v
  end.
Lemma batch_identities_In r kept s ru w i : batch_ok r kept s ru w -> cut_fence (ru_cut ru) = fence ->
  In i (bt_keys (batch_identities volume (cut_fence (ru_cut ru)) (ru_files ru))) -> exists f, In f (w_files w) /\ i = identity_of (file_id f).
Proof.
  intros B Hc. unfold batch_identities. rewrite bts_collect_keys, (bk_files _ _ _ _ _ _ _ _ B), map_map, Hc.
  intros (f & <- & Hf)%in_map_iff. now exists f.
Qed.
Lemma vmm_files v kept r s ru w pr b : files_ok v (kept ++ [w]) pr b -> batch_ok r kept s ru w -> cut_fence (ru_cut ru) = fence ->
  files_ok (with_vmm ru v) (kept ++ [w]) pr b.
Proof.
  intros F B Hc. unfold with_vmm. destruct (ru_checkpoint ru); [|exact F].
  destruct F as [F1 F2 F3 F4 F5 F9 F6 F7 F8]. split; fields; auto.
  - destruct F5 as [R1 R2 R3 R4]. split; fields; auto. intros i. unfold needed. fields. intros [Hn|[Hn|Hn]].
    + apply R4. now left.
    + apply R4. right. now left.
    + destruct (batch_identities_In _ _ _ _ _ i B Hc Hn) as (f & Hf & ->). exists f. split; [|reflexivity]. rewrite all_files_app, in_app_iff. right.
      unfold all_files. simpl. now rewrite app_nil_r.
  - destruct F6 as [P1 P2 P3]. split; fields; auto.
Qed.
Lemma vmm_running h s kept r ru w : running volume fence config h s kept r ru w (length (w_files w)) ->
  running volume fence config (upd lh_volume (with_vmm ru (lh_volume h)) h) s kept r ru w (length (w_files w)).
Proof.
  intros ([K1 K2 K3 K4 K5 K6 K7 K8 K9 K10] & B & [O1 O2 O3 O4 O5 O6 O7 O8 O9 O10] & Hd & Hu).
  assert (files_ok (with_vmm ru (lh_volume h)) (kept ++ [part w (length (w_files w))]) (lh_prepared h) (cut_first_object (ru_cut ru) + Z.of_nat (length (w_files w)))) as F.
  { rewrite part_all in *. eapply vmm_files; eauto. }
  unfold with_vmm in *. destruct (ru_checkpoint ru) eqn:Ec.
  - split; [split; fields; auto|]; [|split; [exact B|]; split; [|split; [fields; exact Hd|fields; exact Hu]]].
    + destruct K2 as [V1 V2 V3 V4 V5 V6 V7 V8 V9 V10 V11 V12 V13]. split; fields; auto.
    + split; fields; auto. now rewrite Ec.
  - split; [split; fields; auto|]. split; [exact B|]. split; [split; fields; auto; now rewrite Ec|]. split; fields; auto.
Qed.
Lemma capture_covered_le v c : Forall (fun b => 0 <= b) (v_pending_syncs v) -> 0 <= v_local_covered_through v <= c ->
  0 <= capture_covered v c <= c.
Proof.
  unfold capture_covered. generalize (v_local_covered_through v). induction (v_pending_syncs v) as [|b l IH]; intros x Hl Hx; [exact Hx|].
  inversion Hl; subst. simpl. destruct (Z.leb_spec b c); [|now apply IH]. simpl. apply IH; [assumption|lia].
Qed.
Lemma all_local v ws pr b : files_ok v ws pr b -> existsb (fun e => negb (is_local e.2.2)) (v_page_locs v) = false.
Proof using CL LL PL small_pages.
  intros F. apply not_true_iff_false. intros ([p [g loc]] & Hin & Hl)%existsb_exists. cbn [snd] in Hl.
  apply In_bt_get in Hin; [|apply (fi_placed _ _ _ _ _ _ _ F)]. destruct (placed_file v ws pr b p g loc F Hin) as (_ & Hloc & _). now rewrite Hloc in Hl.
Qed.
(** The journal record of a full batch, once encoded. *)
Lemma journal_ok h s kept r ru w bs : running volume fence config h s kept r ru w (length (w_files w)) ->
  let record := capture_journal (ru_migration ru) (lh_volume h) (ru_cut ru) (ru_checkpoint ru) (ru_post_checksum ru) in
  write_record_copies (E := unit) volume (lh_volume h) record (ru_block_checksums ru) = Ok bs ->
  record_ok volume fence config record /\ bs = record_bytes volume record
  /\ jr_files record = map file_ref (all_files (needed_of (lh_volume h) (kept ++ [w]))).
Proof using CL LL PL small_pages volume_fits fence_fits config_valid config_fits.
  intros (K & B & O & Hd & Hu) record. rewrite part_all in K.
  pose proof (cr_files _ _ _ _ _ _ _ _ _ _ K) as F. pose proof (cr_volume _ _ _ _ _ _ _ _ _ _ K) as V. pose proof (cr_saved _ _ _ _ _ _ _ _ _ _ K) as S.
  pose proof (ro_seq _ _ _ _ _ _ O). pose proof (ro_capture _ _ _ _ _ _ O). pose proof (cr_capture _ _ _ _ _ _ _ _ _ _ K).
  pose proof (cr_covered _ _ _ _ _ _ _ _ _ _ K). pose proof (cr_seq _ _ _ _ _ _ _ _ _ _ K).
  pose proof (vk_seq _ _ _ V) as Hq. pose proof (vk_mutation _ _ _ V) as Hm. pose proof (vk_covered _ _ _ V). unfold fits in Hq, Hm.
  assert (jr_migrated_from record = None) as Hsrc by (unfold record, capture_journal; cbn; now rewrite (vk_source _ _ _ V)).
  assert (jr_runtime_page_index record = []) as Hidx.
  { unfold record, capture_journal. cbn. unfold record_overlay. rewrite (ro_migration _ _ _ _ _ _ O), (vk_source _ _ _ V), (all_local _ _ _ _ F). reflexivity. }
  assert (0 <= jr_sync_covered_through record <= cut_capture_seq (ru_cut ru)) as Hcov.
  { unfold record, capture_journal. cbn. apply capture_covered_le; [|lia]. eapply List.Forall_impl; [|apply V]. simpl. lia. }
  assert (jr_files record = map file_ref (all_files (needed_of (lh_volume h) (kept ++ [w])))) as Hfiles.
  { unfold record, capture_journal. cbn [jr_files]. apply recovery_files_eq; [apply (fi_written _ _ _ _ _ _ _ F)|apply F]. }
  assert (all_written (needed_of (lh_volume h) (kept ++ [w]))) as A by apply filter_written, (fi_written _ _ _ _ _ _ _ F).
  unfold write_record_copies. rewrite Hsrc. intros Henc. assert (JournalRecord_fields record /\ len (JournalRecord_payload record volume) < W32) as [Hf Hlen].
  { unfold JournalRecord_encode in Henc. destruct (VolumeConfig_valid (jr_config record)) eqn:E1; [|discriminate].
    destruct (negb (is_checkpoint (jr_kind record)) || VolumeConfig_is_memory (jr_config record)) eqn:E2; [|discriminate].
    destruct (page_size <? W32); [|discriminate]. destruct (Z.ltb_spec (len (jr_files record)) W32) as [Hl|]; [|discriminate]. apply seal_frame_inv in Henc as [Hp _].
    split; [|exact Hp]. unfold JournalRecord_fields. rewrite Hsrc, Hfiles in *.
    assert (jr_config record = config) as Hcf by (unfold record; cbn; apply V). rewrite Hcf in *.
    split; [unfold fits, record; cbn; lia|]. split; [unfold record; cbn; now rewrite (ro_fence _ _ _ _ _ _ O)|].
    split. { unfold record, capture_journal. cbn. pose proof (ro_checkpoint _ _ _ _ _ _ O) as Hc. destruct (ru_checkpoint ru) as [c|]; [|exact I].
             destruct Hc as ((? & ? & ? & _) & _). split; [assumption|]. split; [assumption|]. split; [apply len_nonneg|assumption]. }
    split; [unfold fits, record; cbn; lia|]. split; [unfold fits; lia|]. split; [apply O|]. split; [exact I|]. split; [exact config_fits|].
    split. { apply List.Forall_forall. intros o (f & <- & Hf)%in_map_iff. destruct (all_files_ok volume fence _ f A Hf) as [q FK]. apply FK. }
    split; [exact Hl|]. split; [exact E1|]. split; [exact E2|]. apply (written_valid volume fence).
    - exact A.
    - apply Forall_list_filter, Forall_app. split; [apply S|]. constructor; [apply B|constructor].
    - rewrite <- (len_map file_ref). lia. }
  rewrite JournalRecord_encode_eq in Henc by assumption. injection Henc as <-. split; [|split; [reflexivity|exact Hfiles]].
  split; [split; [exact Hf|split; assumption]|unfold record; cbn; apply O|unfold record; cbn; apply V|exact Hsrc|apply Hcov].
Qed.
Lemma record_saved h s kept r ru w bs : running volume fence config h s kept r ru w (length (w_files w)) ->
  let record := capture_journal (ru_migration ru) (lh_volume h) (ru_cut ru) (ru_checkpoint ru) (ru_post_checksum ru) in
  write_record_copies (E := unit) volume (lh_volume h) record (ru_block_checksums ru) = Ok bs ->
  saved_ok volume fence config (lh_device h) record (needed_of (lh_volume h) (kept ++ [w])) (sh_captured s).
Proof using CL LL PL small_pages volume_fits fence_fits config_valid config_fits.
  intros R record Hbs. destruct (journal_ok h s kept r ru w bs R Hbs) as (Hr & _ & Hfiles). fold record in Hr, Hfiles.
  destruct R as (K & B & O & Hd & _ & Hu). rewrite part_all in K. pose proof (cr_files _ _ _ _ _ _ _ _ _ _ K) as F. pose proof (cr_saved _ _ _ _ _ _ _ _ _ _ K) as S.
  rewrite take_ge, List.Forall_forall in Hd by lia.
  assert (forall f, In f (all_files (needed_of (lh_volume h) (kept ++ [w]))) -> In f (all_files kept) \/ In f (w_files w)) as Hin.
  { intros f Hf%needed_of_sub. rewrite all_files_app, in_app_iff in Hf. unfold all_files at 2 in Hf. simpl in Hf. now rewrite app_nil_r in Hf. }
  split; auto.
  - apply filter_written, (fi_written _ _ _ _ _ _ _ F).
  - apply Forall_list_filter, Forall_app. split; [apply S|]. constructor; [apply B|constructor].
  - intros f Hf. destruct (Hin f Hf); [now apply (so_contents _ _ _ _ _ _ _ S)|now apply (bk_content _ _ _ _ _ _ _ _ B)].
  - intros f Hf. destruct (Hin f Hf); [now apply (so_device _ _ _ _ _ _ _ S)|now apply Hd].
  - eapply needed_holds; eauto; apply S.
  - intros Hnil. change (jr_capture_seq record) with (cut_capture_seq (ru_cut ru)).
    assert (forall p g loc, bt_get p (v_page_locs (lh_volume h)) = Some (g, loc) -> False) as Hno.
    { intros p g loc Hg. destruct (placed_file _ _ _ _ p g loc F Hg) as (_ & _ & f & raw & N & _). apply ni_in in N. now rewrite Hnil in N. }
    destruct Hu as [|[Hu|(f & p & g & raw & Hf & Hv & He)]]; [assumption|exfalso|exfalso].
    + destruct (v_page_locs (lh_volume h)) as [|[p [g loc]] l] eqn:El; [easy|]. apply (Hno p g loc). simpl. now rewrite cmp_refl.
    + destruct (bt_get p (v_page_locs (lh_volume h))) as [[g' loc]|] eqn:Hg; [now apply (Hno p g' loc)|].
      apply (pl_none _ _ _ _ _ (fi_placed _ _ _ _ _ _ _ F) p Hg Hv f g raw); [|exact He].
      rewrite all_files_app, in_app_iff. right. unfold all_files. simpl. now rewrite app_nil_r.
Qed.
Lemma core_capture h s kept r ws b q pc : core_ok h s kept r ws b q -> core_ok (upd lh_capture pc h) s kept r ws b q.
Proof. intros [K1 K2 K3 K4 K5 K6 K7 K8 K9 K10]. split; fields; auto. Qed.
Lemma running_capture h s kept r ru w k pc : running volume fence config h s kept r ru w k ->
  running volume fence config (upd lh_capture pc h) s kept r ru w k.
Proof. intros (K & B & O & Hd & Hu). split; [now apply core_capture|]. fields. auto. Qed.
Lemma start_record_inv h s kept r ru w h' : running volume fence config h s kept r ru w (length (w_files w)) ->
  start_record volume ru h = Ok h' -> LocalInv h' s.
Proof using CL LL PL small_pages volume_fits fence_fits config_valid config_fits.
  intros R%vmm_running. unfold start_record. fold (with_vmm ru (lh_volume h)). intros (bs & Hbs & [= <-])%outcome_bind_Ok.
  set (h1 := upd lh_volume (with_vmm ru (lh_volume h)) h) in *.
  assert (lh_volume h1 = with_vmm ru (lh_volume h)) as Hv by (unfold h1; fields; reflexivity). rewrite <- Hv in Hbs |- *.
  pose proof (record_saved h1 s kept r ru w bs R Hbs) as S. destruct (journal_ok h1 s kept r ru w bs R Hbs) as (_ & Hb & _).
  exists kept, r. fields. exists w. split; [now apply running_capture|]. fields. auto.
Qed.

(** ** The commit *)
(** Only the needed batches are kept. *)
Lemma needed_cover v ws : all_written ws -> refs_cover volume fence v ws -> refs_cover volume fence v (needed_of v ws).
Proof.
  intros A [R1 R2 R3 R4]. split; auto.
  - intros f Hf%needed_of_sub. now apply R2.
  - intros i x Hin. destruct (R3 i x Hin) as [He Ho]. split; [exact He|].
    assert (forall q, In q (map w_seq (needed_of v ws)) -> exists w, In w ws /\ w_needed volume fence v w = true /\ w_seq w = q) as Hq.
    { intros q (w & <- & [Hw Hn]%filter_In)%in_map_iff. eauto. }
    destruct Ho as [(f & Hf & ->)|Ho]; [|right; intros (w & Hw & _ & Hs)%Hq; apply Ho; rewrite <- Hs; now apply in_map].
    pose proof Hf as Hf'. apply all_files_In in Hf as (w & Hw & Hf). destruct (w_needed volume fence v w) eqn:En.
    + left. exists f. split; [|reflexivity]. apply all_files_In. exists w. split; [now apply filter_In|exact Hf].
    + right. intros (w' & Hw' & Hn & Hs)%Hq. pose proof (file_batch volume fence ws w f A Hw Hf) as Hb. unfold batch_of_file in Hb. injection Hb as _ Hb.
      change (w_seq w' = bh_batch_id (bo_header f.1)) in Hs. rewrite Hb in Hs. apply (seq_unique volume fence ws w' w A Hw' Hw) in Hs. congruence.
  - intros i Hn. destruct (R4 i Hn) as (f & Hf & ->). exists f. split; [now apply needed_file|reflexivity].
Qed.
Lemma needed_files v ws pr b : files_ok v ws pr b -> files_ok v (needed_of v ws) pr b.
Proof using CL LL PL small_pages config_valid.
  intros F. pose proof F as [F1 F2 F3 F4 F5 F9 F6 F7 F8]. split; auto.
  - now apply filter_written.
  - intros f Hf%needed_of_sub. now apply F2.
  - intros w [Hw _]%filter_In. now apply F3.
  - intros f p g raw Hf%needed_of_sub. now apply F4.
  - now apply needed_cover.
  - destruct F6 as [P1 P2 P3]. split; auto.
    + intros p g loc Hg. destruct (P2 p g loc Hg) as (Hv & f & raw & N & Hrow). split; [exact Hv|]. exists f, raw. split; [|exact Hrow].
      destruct (placed_file v ws pr b p g loc F Hg) as (_ & _ & f' & raw' & N' & N'').
      now destruct (newest_unique small_pages volume fence config ws p g raw f g raw' f' F1 N N'') as (_ & -> & ->).
    + intros p Hg Hv f g raw Hf%needed_of_sub. now apply P3.
  - intros c p g loc raw Hc Hin. destruct (F8 c p g loc raw Hc Hin) as (Ho & Hb & Hn). split; [exact Ho|]. split; [exact Hb|].
    intros Hg. destruct (Hn Hg) as [f N]. exists f. destruct (placed_file v ws pr b p g loc F Hg) as (_ & _ & f' & raw' & N' & N'').
    now destruct (newest_unique small_pages volume fence config ws p g raw f g raw' f' F1 N N'') as (_ & -> & ->).
Qed.
Lemma files_bound v ws pr b b' : files_ok v ws pr b -> b <= b' -> files_ok v ws pr b'.
Proof.
  intros [F1 F2 F3 F4 F5 F9 F6 F7 F8] Hb. split; auto.
  - intros f Hf. destruct (F2 f Hf). split; [assumption|lia].
  - intros i n Hin. destruct (F7 i n Hin) as (id & -> & H). exists id. split; [reflexivity|lia].
  - intros c p g loc raw Hc Hin. destruct (F8 c p g loc raw Hc Hin) as (Ho & Hrest). split; [lia|exact Hrest].
Qed.
Lemma saved_journal device r kept saved names bs s : saved_ok volume fence config device r kept saved -> fits W64 s ->
  names = (journal_blob volume fence s, journal_mirror_blob volume fence s) ->
  saved_ok volume fence config (<[names.2 := bs]> (<[names.1 := bs]> device)) r kept saved.
Proof using volume_fits fence_fits.
  intros [S1 S2 S3 S4 S5 S6 S7 S8] Hs ->. split; auto. intros f Hf. unfold on_device.
  pose proof (parse_blx volume fence volume_fits fence_fits _ (files_fit volume fence kept f S3 Hf)) as Hp. cbn [fst snd].
  rewrite !lookup_insert_ne; [now apply S6|..]; intros He;
    rewrite <- He, (parse_journal volume fence volume_fits fence_fits s) in Hp; auto; discriminate.
Qed.
Lemma device_journal device r record b q b' q' : device_ok volume fence config device r b q -> record_ok volume fence config record ->
  older r record -> jr_seq record < q' -> b <= b' -> q <= q' ->
  device_ok volume fence config (<[(record_names volume record).2 := record_bytes volume record]>
    (<[(record_names volume record).1 := record_bytes volume record]> device)) record b' q'.
Proof.
  intros [D1 D2] R Hold Hq Hb Hqq. split.
  - unfold record_names. cbn [fst snd]. intros name [->| ->]; [|apply lookup_insert_eq].
    destruct (decide (journal_mirror_blob volume (jr_fence record) (jr_seq record) = journal_blob volume (jr_fence record) (jr_seq record))) as [->|Hne];
      [apply lookup_insert_eq|]. rewrite lookup_insert_ne by exact Hne. apply lookup_insert_eq.
  - assert (forall name, record_name volume record name -> known_name volume fence config record b' q' name (record_bytes volume record)) as Hnew.
    { intros name Hn. left. exists record. auto 10. }
    unfold record_names. cbn [fst snd]. intros name x [[<- <-]|[_ [[<- <-]|[_ Hx]]%lookup_insert_Some]]%lookup_insert_Some.
    + apply Hnew. now right.
    + apply Hnew. now left.
    + destruct (D2 name x Hx) as [(r' & R' & Ho & Hs & Hn & ->)|(id & -> & Hid)]; [left|right; exists id; split; [reflexivity|lia]].
      exists r'. split; [exact R'|]. split; [right; unfold older in *; destruct Ho as [->|Ho]; lia|]. split; [lia|]. auto.
Qed.
(** The best record and its files are kept. *)
Lemma retain_mono v records s : let s' := fold_left (retain_record v) records s in
  (forall k, In k (bt_keys s.1) -> In k (bt_keys s'.1)) /\ (forall k, In k (bt_keys s.2) -> In k (bt_keys s'.2)).
Proof using Type.
  revert s. induction records as [|r records IH]; intros [a b]; simpl; [auto|]. destruct (IH (retain_record v (a, b) r)) as [H1 H2].
  split; intros k Hk; [apply H1|apply H2]; unfold retain_record; cbn [fst snd].
  - apply bt_keys_insert. now right.
  - rewrite set_extend_keys. left. destruct (bt_get _ _); rewrite ?set_extend_keys; auto.
Qed.
Lemma retained_best v r : v_best_record v = Some r ->
  In (jr_fence r, jr_seq r) (bt_keys (retention_closure v).1)
  /\ forall o, In o (jr_files r) -> is_volume_file (or_identity o) = true -> In (or_identity o) (bt_keys (retention_closure v).2).
Proof using Type.
  intros Hb. unfold retention_closure, retained_records. rewrite Hb. simpl. destruct (retain_mono v (opt_list (v_pinned v) ++ opt_list (v_peer_committed_record v)) (retain_record v ([], []) r)) as [H1 H2].
  split; [apply H1; now left|]. intros o Ho Hk. apply H2. unfold retain_record. cbn [snd]. rewrite set_extend_keys. left.
  destruct (bt_get _ _); rewrite ?set_extend_keys; [left|]; right; apply filter_In; (split; [now apply in_map|exact Hk]).
Qed.
Lemma kept_closure v i : In i (bt_keys (retention_closure v).2) -> In i (bt_keys (cleanup_keep_blx v)).
Proof using Type. intros Hi. unfold cleanup_keep_blx. rewrite !set_extend_keys. auto. Qed.
Lemma cleanup_plan_ok v r ws pr b : v_best_record v = Some r -> volume_ok v -> jr_fence r = fence ->
  files_ok v ws pr b -> jr_files r = map file_ref (all_files ws) -> cleanup_ok volume fence r ws b (v_next_seq v) (cleanup_plan volume v).
Proof using Type.
  intros Hbest V Hf F Hfiles. destruct (retained_best v r Hbest) as [Hrec Hkeep].
  assert (forall i, In i (c_blx (cleanup_plan volume v)) -> exists id, i = identity_of id /\ 0 <= id < b /\ forall f, In f (all_files ws) -> file_id f <> id) as Hblx.
  { intros i Hi. cbn [cleanup_plan c_blx] in Hi. apply omap_In in Hi as ([i' n] & Hin & Hi). cbn [fst] in Hi. destruct (bt_contains i' _) eqn:Ec; [discriminate|]. injection Hi as ->.
    destruct (fi_blobs _ _ _ _ _ _ _ F i n Hin) as (id & -> & Hid). exists id. split; [reflexivity|]. split; [exact Hid|]. intros f Hff <-.
    apply not_true_iff_false in Ec. apply Ec, bt_contains_In, kept_closure.
    destruct (all_files_ok volume fence ws f (fi_written _ _ _ _ _ _ _ F) Hff) as [q FK]. rewrite <- (fk_identity _ _ _ _ FK).
    apply Hkeep; [rewrite Hfiles; now apply in_map|]. rewrite (fk_identity _ _ _ _ FK). unfold is_volume_file. now apply bool_decide_true. }
  split; [|exact Hblx]. intros name. unfold cleanup_plan. cbn [c_names]. rewrite in_app_iff.
  intros [(l & ([fe s] & <- & Hr)%in_map_iff & Hn)%in_concat|(i & <- & Hi)%in_map_iff].
  - left. apply omap_In in Hr as ([s' [fe' c']] & Hin & Hr). destruct (bt_contains (fe', s') _) eqn:Ec; [discriminate|]. injection Hr as -> ->.
    destruct (vk_writes _ _ _ V s (fe, c') Hin) as [Hfe Hs]. cbn [fst] in Hfe. subst fe. exists s. split; [exact Hs|]. split.
    + intros ->. apply not_true_iff_false in Ec. apply Ec, bt_contains_In. now rewrite <- Hf.
    + destruct Hn as [<-|[<-|[]]]; auto.
  - right. destruct (Hblx i Hi) as (id & -> & Hid & Hne). exists id. auto.
Qed.
Lemma without_nil {K} `{RustOrdLaws K} {V} (gone : list K) : without gone ([] : BTreeMap K V) = [].
Proof. induction gone as [|k gone IH]; [reflexivity|exact IH]. Qed.
Lemma bt_insert_In {K V} `{RustOrdLaws K} (k : K) (x : V) m y : In y (bt_insert k x m) -> y = (k, x) \/ In y m.
Proof.
  induction m as [|[k' x'] m IH]; simpl; [intros [<-|[]]; now left|]. destruct (cmp k k'); simpl; intuition.
Qed.
Section Committed.
Variables (h : LocalHost) (s : Shadow) (kept : list Written) (r : JournalRecord) (ru : Running) (w : Written) (record : JournalRecord).
Hypothesis R : running volume fence config h s kept r ru w (length (w_files w)).
Hypothesis S : saved_ok volume fence config (lh_device h) record (needed_of (lh_volume h) (kept ++ [w])) (sh_captured s).
Hypothesis Hseq : jr_seq record = cut_seq (ru_cut ru).
Hypothesis Hcap : jr_capture_seq record = cut_capture_seq (ru_cut ru).
Let v := lh_volume h.
Let bound := cut_first_object (ru_cut ru) + Z.of_nat (length (w_files w)).
Let v' := (capture_commit volume (ru_complete_memory ru) (ru_cut ru) (ru_files ru) (ru_checkpoint ru) record v).1.
Let next_object := match list.last (ru_files ru) with
                   | Some file => Z.max (v_next_object_id v) (saturating_add W64 file.1.1 1)
                   | None => v_next_object_id v
                   end.

Lemma committed_fields :
  (v_page_locs v' = v_page_locs v /\ v_blx_refs v' = v_blx_refs v /\ v_tombstone_blx_files v' = v_tombstone_blx_files v
   /\ v_vmm_blx_files v' = v_vmm_blx_files v /\ v_blx_blobs v' = v_blx_blobs v)
  /\ v_next_seq v' = v_next_seq v /\ v_next_gen v' = v_next_gen v /\ v_best_record v' = Some record
  /\ v_next_object_id v' = next_object /\ v_mutation_seq v' = v_mutation_seq v
  /\ v_local_covered_through v' = jr_sync_covered_through record.
Proof using Type. unfold v', next_object, capture_commit. cbn [fst]. destruct (ru_checkpoint ru); fields; auto 10. Qed.
Lemma next_object_bound : bound <= next_object < W64 /\ v_next_object_id v <= next_object.
Proof using R.
  destruct R as (K & B & O & _). pose proof (vk_object _ _ _ (cr_volume _ _ _ _ _ _ _ _ _ _ K)) as Ho. fold v in Ho. unfold fits in Ho.
  pose proof (ro_first _ _ _ _ _ _ O). pose proof (ro_room _ _ _ _ _ _ O). pose proof (bk_count _ _ _ _ _ _ _ _ B) as Hc. fold v in H. unfold len in Hc.
  unfold next_object, bound. rewrite (bk_files _ _ _ _ _ _ _ _ B), list.last_lookup, length_map, list_lookup_fmap.
  destruct (w_files w !! pred (length (w_files w))) as [f|] eqn:E.
  - cbn [fmap option_fmap option_map]. change (local_file volume fence f).1.1 with (file_id f). pose proof (bk_ids _ _ _ _ _ _ _ _ B _ f E) as Hid.
    apply lookup_lt_Some in E. unfold saturating_add. rewrite Hid. lia.
  - cbn [fmap option_fmap option_map]. apply lookup_ge_None in E. lia.
Qed.
Lemma committed_volume : volume_ok v'.
Proof using R S Hseq Hcap.
  pose proof next_object_bound as Hn. destruct R as (K & B & O & _). pose proof (cr_volume _ _ _ _ _ _ _ _ _ _ K) as V. fold v in V. pose proof (vk_object _ _ _ V) as Ho.
  pose proof (ro_seq _ _ _ _ _ _ O) as Hq. pose proof (cr_seq _ _ _ _ _ _ _ _ _ _ K) as Hr. pose proof (ro_capture _ _ _ _ _ _ O) as Hm.
  pose proof (rk_covered _ _ _ _ (so_record _ _ _ _ _ _ _ S)) as Hcov. destruct (rk_ok _ _ _ _ (so_record _ _ _ _ _ _ _ S)) as ((_ & _ & _ & _ & Hs & _) & _).
  fold v in Hq, Hm. rewrite Hcap in Hcov. destruct V as [V1 V2 V3 V4 V5 V6 V7 V8 V9 V10 V11 V12 V13].
  assert (fits W64 next_object) as E1 by (unfold fits in *; lia).
  assert (0 <= jr_sync_covered_through record <= v_mutation_seq v) as E2 by (unfold fits in *; lia).
  assert (without (map fst (cut_tombstones (ru_cut ru))) (v_pending_tombstones v) = []) as E3 by (rewrite V9; apply without_nil).
  pose proof (Forall_list_filter _ (fun b => negb (b <=? v_sync_ack_through v)) _ V7) as E4.
  assert (forall q e, In (q, e) (bt_insert (jr_seq record) (cut_fence (ru_cut ru), jr_sync_covered_through record) (v_record_writes v)) ->
    e.1 = fence /\ 0 <= q < v_next_seq v) as E5.
  { intros q e [[= -> ->]|Hin]%bt_insert_In; [|now apply V13]. cbn [fst]. split; [apply O|lia]. }
  unfold v', capture_commit. cbn [fst]. destruct (ru_checkpoint ru); split; fields; assumption.
Qed.
Lemma committed_files : files_ok v' (needed_of v (kept ++ [w])) (lh_prepared h) next_object.
Proof using CL LL PL small_pages config_valid R.
  pose proof next_object_bound as Hn. destruct R as (K & _). rewrite part_all in K. pose proof (cr_files _ _ _ _ _ _ _ _ _ _ K) as F.
  destruct committed_fields as ((E1 & E2 & E3 & E4 & E5) & E6 & E7 & _).
  eapply files_ok_same; [exact E1|exact E2|exact E3|exact E4|exact E5|rewrite E6; apply Z.le_refl|rewrite E7; apply Z.le_refl|].
  apply needed_files. eapply files_bound; [exact F|apply Hn].
Qed.
Lemma cleanup_committed c : cleanup_ok volume fence r (kept ++ [w]) bound (cut_seq (ru_cut ru)) c ->
  cleanup_ok volume fence record (needed_of v (kept ++ [w])) next_object (v_next_seq v) c.
Proof using R Hseq.
  pose proof next_object_bound as Hn. destruct R as (_ & _ & O & _). pose proof (ro_seq _ _ _ _ _ _ O) as Hq. fold v in Hq. intros [C1 C3]. split.
  - intros name Hin. destruct (C1 name Hin) as [(q & Hs & _ & Hname)|(id & -> & Hid & Hne)].
    + left. exists q. split; [lia|]. split; [lia|exact Hname].
    + right. exists id. split; [reflexivity|]. split; [lia|]. intros f Hf%needed_of_sub. now apply Hne.
  - intros i Hi. destruct (C3 i Hi) as (id & -> & Hid & Hne). exists id. split; [reflexivity|]. split; [lia|]. intros f Hf%needed_of_sub. now apply Hne.
Qed.
Lemma commit_inv : LocalInv (record_written volume ru record (record_bytes volume record) true true h)
  {| sh_saved := sh_captured s; sh_captured := sh_captured s |}.
Proof using CL LL PL small_pages volume_fits fence_fits config_valid R S Hseq Hcap.
  pose proof next_object_bound as Hn. pose proof committed_volume as V. pose proof committed_files as F.
  pose proof cleanup_committed as Hc. destruct committed_fields as (_ & E6 & _ & E8 & E9 & E10 & E11).
  destruct R as (K & B & O & _). rewrite part_all in K. destruct K as [K1 K2 K3 K4 K5 K6 K7 K8 K9 K10].
  pose proof (ro_seq _ _ _ _ _ _ O) as Hq. pose proof (ro_capture _ _ _ _ _ _ O) as Hm. fold v in Hq, Hm. pose proof (so_record _ _ _ _ _ _ _ S) as RK.
  exists (needed_of v (kept ++ [w])), record. unfold record_written, write_if. cbn [andb]. fields. fold v v'. rewrite E9, E6.
  split; fields; cbn [sh_saved sh_captured].
  - exact E8.
  - exact V.
  - rewrite E11. apply RK.
  - rewrite E10. lia.
  - lia.
  - apply (saved_journal _ _ _ _ _ _ (jr_seq record)); [exact S|apply (rk_ok _ _ _ _ RK)|]. unfold record_names. now rewrite (rk_fence _ _ _ _ RK).
  - eapply device_journal; [exact K7|exact RK|unfold older; lia|lia|apply Hn|lia].
  - exact F.
  - apply Forall_app. split; [eapply List.Forall_impl; [exact Hc|exact K9]|].
    pose proof (cleanup_plan_ok v' record _ _ _ E8 V (rk_fence _ _ _ _ RK) F (so_files _ _ _ _ _ _ _ S)) as Hp. rewrite E6 in Hp.
    destruct (c_names (cleanup_plan volume v')); [constructor|]. constructor; [exact Hp|constructor].
  - pose proof (vk_seq _ _ _ K2) as Hs. unfold fits in Hs. fold v in Hs. lia.
Qed.
End Committed.
End Commit.
