(* ===== verification/LocalRun.v ===== *)
(** * Runs of captures

    Every run of a volume from its creation keeps the invariant, or has ended
    in a failure whose crash images are those of a state that satisfies it. *)

From stdpp Require Import gmap.
From S2P Require Import Prelude Format Types OrdMap Sorting Head Blx BlxFile BlxBatch BlxState Manifest ManifestCodec.
From S2P Require Import BatchRefs Text Layout PageFile Journal JournalFormat LocalCapture LocalTask LocalBatch LocalInvariant LocalSteps LocalStart LocalInstall LocalCommit.

#[local] Open Scope Z_scope.

Section Run.
Context `{CL : CrcLaws} `{LL : Lz4Laws} `{PL : PageSizeLaws}.
Hypothesis small_pages : page_size <= 16 * 1024 * 1024.
Variables (volume fence : Z) (config : VolumeConfig).
Hypothesis volume_fits : fits W64 volume.
Hypothesis fence_fits : fits W64 fence.
Hypothesis config_valid : VolumeConfig_valid config = true.
Hypothesis config_fits : fits W32 (vc_pages config).
Abbreviation page_key p := (BlockKey_from_page (vc_kind config) p).
Abbreviation identity_of := (identity_of volume fence).
Abbreviation rows f := (local_file volume fence f).2.
Abbreviation LocalInv := (LocalInv volume fence config).
Abbreviation core_ok := (core_ok volume fence config).
Abbreviation files_ok := (files_ok volume fence config).
Abbreviation volume_ok := (volume_ok fence config).
Abbreviation entry_of := (entry_of config).
Abbreviation newest_in := (newest_in config).
Abbreviation placed := (placed volume fence config).
Abbreviation batch_ok := (batch_ok volume fence config).
Abbreviation running_ok := (running_ok fence config).
Abbreviation reads_page := (reads_page volume config).
Abbreviation all_written := (all_written volume fence).
Implicit Types (h : LocalHost) (v : VolumeState) (ws kept : list Written) (r : JournalRecord) (f : File).


(** ** What the events of a run satisfy *)
(** The cache hands over sound pages, a batch has fewer than 2^32 entries, and
    no capture is given up between its files. *)
Definition event_ok h (event : LocalEvent) : Prop :=
  match event, lh_capture h with
  | Ev_capture start _, Capture_idle => v_ready (lh_volume h) = true ->
      start_ok volume config (lh_volume h) start
      /\ forall v cut sums b, build_capture volume start h = Ok (v, cut, sums, b) -> len (bb_entries (pb_builder b)) < W32
  | Ev_file_written _ admitted, Capture_files _ (_ :: _ :: _) => admitted = true
  | _, _ => True
  end.
Fixpoint events_ok h (events : list LocalEvent) : Prop :=
  match events with
  | [] => True
  | event :: events => event_ok h event /\ events_ok (step volume h event) events
  end.
Fixpoint shadow_run h (s : Shadow) (events : list LocalEvent) : Shadow :=
  match events with
  | [] => s
  | event :: events => shadow_run (step volume h event) (shadow_step h s event) events
  end.

(** ** One event *)
Definition survives h (s : Shadow) : Prop :=
  exists h0, LocalInv h0 s /\ (lh_failed h = false -> h0 = h)
  /\ lh_volume h = lh_volume h0 /\ lh_capture h = lh_capture h0
  /\ forall device, crash_image volume h device -> crash_image volume h0 device.
Lemma alive h s : LocalInv h s -> survives h s.
Proof. intros I. exists h. auto. Qed.
Lemma failed h s : LocalInv h s -> survives (fail h) s.
Proof. intros I. exists h. split; [exact I|]. split; [unfold fail; fields; discriminate|]. split; [reflexivity|]. split; [reflexivity|]. intros device Hd. exact Hd. Qed.
Lemma or_dead_survives h s c : LocalInv h s -> (forall h', c = Ok h' -> LocalInv h' s) -> survives (or_dead h c) s.
Proof. intros I Hc. destruct c as [h'|e|]; [apply alive; now apply Hc|now apply failed..]. Qed.
Lemma quiet_same v : v = quiet v (v_ready v) (v_mutation_seq v) (v_pending_syncs v) (v_sync_ack_through v) (v_backed_blx_files v)
  (v_publishing_blx_files v) (v_replicating_blx_files v) (v_peer_committed_record v).
Proof. now destruct v. Qed.
Lemma quiet_ready v : upd v_ready true v = quiet v true (v_mutation_seq v) (v_pending_syncs v) (v_sync_ack_through v) (v_backed_blx_files v)
  (v_publishing_blx_files v) (v_replicating_blx_files v) (v_peer_committed_record v).
Proof. now destruct v. Qed.
Lemma quiet_mutation v m : upd v_mutation_seq m v = quiet v (v_ready v) m (v_pending_syncs v) (v_sync_ack_through v) (v_backed_blx_files v)
  (v_publishing_blx_files v) (v_replicating_blx_files v) (v_peer_committed_record v).
Proof. now destruct v. Qed.
Lemma quiet_syncs v l : upd v_pending_syncs l v = quiet v (v_ready v) (v_mutation_seq v) l (v_sync_ack_through v) (v_backed_blx_files v)
  (v_publishing_blx_files v) (v_replicating_blx_files v) (v_peer_committed_record v).
Proof. now destruct v. Qed.
Lemma quiet_ack v a : upd v_sync_ack_through a v = quiet v (v_ready v) (v_mutation_seq v) (v_pending_syncs v) a (v_backed_blx_files v)
  (v_publishing_blx_files v) (v_replicating_blx_files v) (v_peer_committed_record v).
Proof. now destruct v. Qed.
Lemma quiet_others v ba pu re pe : (v |> upd v_backed_blx_files ba |> upd v_publishing_blx_files pu
    |> upd v_replicating_blx_files re |> upd v_peer_committed_record pe)
  = quiet v (v_ready v) (v_mutation_seq v) (v_pending_syncs v) (v_sync_ack_through v) ba pu re pe.
Proof. now destruct v. Qed.
Lemma inv_volume h s : LocalInv h s -> volume_ok (lh_volume h).
Proof.
  intros (kept & r & I). destruct (lh_capture h).
  - apply I.
  - destruct I as (w & k & _ & _ & K & _). apply K.
  - destruct I as (w & (K & _) & _). apply K.
Qed.

(** ** Captures *)
Lemma device_bound device r b q b' q' : device_ok volume fence config device r b q -> b <= b' -> q <= q' -> device_ok volume fence config device r b' q'.
Proof.
  intros [D1 D2] Hb Hq. split; [exact D1|]. intros name bs Hn. destruct (D2 name bs Hn) as [(r' & ? & ? & ? & ? & ?)|(id & -> & ?)].
  - left. exists r'. split; [assumption|]. split; [assumption|]. split; [lia|auto].
  - right. exists id. split; [reflexivity|lia].
Qed.
Lemma cleanup_bound r ws b q b' q' c : cleanup_ok volume fence r ws b q c -> b <= b' -> q <= q' -> cleanup_ok volume fence r ws b' q' c.
Proof.
  intros [C1 C3] Hb Hq. split.
  - intros name Hn. destruct (C1 name Hn) as [(x & ? & ? & ?)|(id & ? & ? & ?)]; [left; exists x; split; [lia|auto]|right; exists id; split; [assumption|split; [lia|assumption]]].
  - intros i Hi. destruct (C3 i Hi) as (id & ? & ? & ?). exists id. split; [assumption|split; [lia|assumption]].
Qed.
(** A capture that is given up before its first file leaves the volume as it was. *)
Lemma given_up h s kept r ru w : running volume fence config h s kept r ru w 0 ->
  core_ok h s kept r kept (v_next_object_id (lh_volume h)) (v_next_seq (lh_volume h)).
Proof.
  intros (K & B & O & _). rewrite Z.add_0_r in K. pose proof (ro_first _ _ _ _ _ _ O). pose proof (ro_seq _ _ _ _ _ _ O).
  destruct K as [K1 K2 K3 K4 K5 K6 K7 K8 K9 K10]. pose proof (vk_object _ _ _ K2) as Ho. pose proof (vk_seq _ _ _ K2) as Hq. unfold fits in Ho, Hq.
  split; auto.
  - lia.
  - eapply device_bound; [exact K7|lia|lia].
  - apply files_bound with (b := cut_first_object (ru_cut ru)); [|lia].
    destruct K8 as [F1 F2 F3 F4 F5 F9 F6 F7 F8]. rewrite ?all_files_empty in *. split; auto.
    + apply K6.
    + intros w' Hw'. apply F3, in_app_iff. now left.
    + destruct F5 as [R1 R2 R3 R4]. rewrite all_files_empty in *. split; auto. intros i x Hin. destruct (R3 i x Hin) as [He [Hl|Hr]]; [auto|].
      split; [exact He|]. right. intros Hx. apply Hr. rewrite map_app, in_app_iff. now left.
  - eapply List.Forall_impl; [|exact K9]. intros c CO. apply cleanup_bound with (b := cut_first_object (ru_cut ru)) (q := cut_seq (ru_cut ru)); [|lia|lia].
    destruct CO as [C1 C3]. rewrite all_files_empty in *. now split.
  - lia.
Qed.
Lemma capture_inv h s start admitted h' : LocalInv h s -> lh_capture h = Capture_idle -> v_ready (lh_volume h) = true -> event_ok h (Ev_capture start admitted) ->
  start_capture volume start admitted h = Ok h' -> LocalInv h' (capture_shadow s start).
Proof using CL LL PL small_pages volume_fits fence_fits config_valid config_fits.
  intros (kept & r & I) Hc Hr Hok Hs. unfold event_ok in Hok. rewrite Hc in I, Hok. destruct (Hok Hr) as [Hst Hlen].
  unfold start_capture in Hs. apply outcome_bind_Ok in Hs as ([[[v cut] [post blocks]] b] & Hb & Hs).
  apply outcome_bind_Ok in Hs as (files & Hf & Hs).
  destruct (capture_running small_pages volume fence config volume_fits fence_fits h s kept r start v cut post blocks b files I Hst Hb (Hlen _ _ _ _ Hb) Hf) as [w R].
  fold (running_of start cut files post blocks) in Hs. set (ru := running_of start cut files post blocks) in *.
  set (h1 := h |> upd lh_volume v |> upd lh_prepared []) in *.
  destruct R as (K & B & Rest). pose proof (bk_files _ _ _ _ _ _ _ _ B) as Hfiles. pose proof (conj K (conj B Rest)) as R. change (ru_files ru) with files in Hfiles.
  destruct files as [|file files].
  - simpl in Hs. eapply start_record_inv with (w := w); [..|exact Hs]; eauto. destruct (w_files w) eqn:Ew; [|discriminate]. unfold running. now rewrite Ew.
  - simpl in Hs. injection Hs as <-. exists kept, r. destruct admitted; fields.
    + exists w, 0%nat. split; [destruct (w_files w); [discriminate|simpl; lia]|]. split; [reflexivity|]. now apply running_capture.
    + apply core_capture. eapply given_up. exact R.
Qed.

(** ** Files and the record *)
Lemma file_written_eq r kept s ru w k f rest admitted h : running volume fence config h s kept r ru w k -> w_files w !! k = Some f ->
  file_written volume ru (local_file volume fence f) rest admitted h = start_file volume ru rest admitted (file_done volume fence h f ru).
Proof using CL LL PL small_pages.
  intros (_ & B & O & _) Hk. unfold file_written, file_name. rewrite (ro_fence _ _ _ _ _ _ O). fields.
  rewrite (install_Ok small_pages volume fence (lh_volume h) f (w_seq w)).
  - reflexivity.
  - apply written_file; [apply B|]. now apply list_elem_of_In, (list_elem_of_lookup_2 _ k).
Qed.
Lemma file_inv h s ru file rest admitted h' : LocalInv h s -> lh_capture h = Capture_files ru (file :: rest) ->
  event_ok h (Ev_file_written true admitted) -> file_written volume ru file rest admitted h = Ok h' -> LocalInv h' s.
Proof using CL LL PL small_pages volume_fits fence_fits config_valid config_fits.
  intros (kept & r & I) Hc Hok Hs. unfold event_ok in Hok. rewrite Hc in I, Hok. destruct I as (w & k & Hk & Hrest & R).
  pose proof R as (_ & B & _). rewrite (bk_files _ _ _ _ _ _ _ _ B) in Hrest.
  destruct (lookup_lt_is_Some_2 _ _ Hk) as [f Hf]. rewrite <- fmap_drop, (drop_S _ _ _ Hf) in Hrest. cbn [fmap list_fmap] in Hrest. injection Hrest as -> ->.
  rewrite (file_written_eq _ _ _ _ _ _ _ _ _ _ R Hf) in Hs. pose proof (file_running small_pages volume fence config volume_fits fence_fits _ _ _ _ _ _ _ _ R Hf) as R'.
  destruct (decide (S k = length (w_files w))) as [He|He].
  - rewrite drop_ge in Hs by lia. rewrite He in R'. eapply start_record_inv; eauto.
  - destruct (lookup_lt_is_Some_2 (w_files w) (S k)) as [f' Hf']; [lia|]. rewrite (drop_S _ _ _ Hf') in Hs, Hok. cbn [fmap list_fmap] in Hok. subst admitted.
    simpl in Hs. injection Hs as <-. exists kept, r. fields. exists w, (S k). split; [lia|]. split; [|now apply running_capture].
    rewrite (bk_files _ _ _ _ _ _ _ _ B), <- fmap_drop, (drop_S _ _ _ Hf'). reflexivity.
Qed.
Lemma record_survives h s ru record bs primary mirror : LocalInv h s -> lh_failed h = false -> lh_capture h = Capture_record ru record bs ->
  survives (record_written volume ru record bs primary mirror h) (shadow_step h s (Ev_record_written primary mirror)).
Proof using CL LL PL small_pages volume_fits fence_fits config_valid.
  intros I Hnf Hc. unfold shadow_step. rewrite Hnf, Hc. destruct (primary && mirror) eqn:Epm.
  - apply andb_prop in Epm as [-> ->]. apply alive. destruct I as (kept & r & I). rewrite Hc in I. destruct I as (w & R & S & -> & Hseq & Hcap).
    eapply commit_inv; eauto.
  - replace (match primary with true => _ | false => _ end) with s by (destruct primary, mirror; [discriminate|reflexivity..]).
    exists h. split; [exact I|]. unfold record_written. rewrite Epm. split; [unfold fail; fields; discriminate|]. split; [unfold fail; fields; reflexivity|]. split; [unfold fail; fields; reflexivity|].
    intros device Hd name. specialize (Hd name). unfold in_flight, fail in *. fields. rewrite Hc in *. destruct Hd as [Hd|Hd]; [|now right].
    unfold write_if in Hd. rewrite Hd. destruct primary, mirror; try discriminate; [| |now left].
    + destruct (decide ((record_names volume record).1 = name)) as [<-|Hne]; [|rewrite lookup_insert_ne by exact Hne; now left].
      right. exists bs, (length bs). rewrite lookup_insert_eq, take_ge by lia. split; [now left|reflexivity].
    + destruct (decide ((record_names volume record).2 = name)) as [<-|Hne]; [|rewrite lookup_insert_ne by exact Hne; now left].
      right. exists bs, (length bs). rewrite lookup_insert_eq, take_ge by lia. split; [right; now left|reflexivity].
Qed.
Lemma step_survives h s event : LocalInv h s -> lh_failed h = false -> event_ok h event ->
  survives (step volume h event) (shadow_step h s event).
Proof using CL LL PL small_pages volume_fits fence_fits config_valid config_fits.
  intros I Hnf Hok. pose proof (inv_volume h s I) as V. pose proof (vk_mutation _ _ _ V) as Hm. unfold fits in Hm.
  assert (forall rd m l ack ba pu re pe, v_mutation_seq (lh_volume h) <= m < W64 -> Forall (fun b => 0 <= b <= m) l ->
    LocalInv (upd lh_volume (quiet (lh_volume h) rd m l ack ba pu re pe) h) s) as Hq by (intros; now apply quiet_inv).
  assert (LocalInv (upd lh_volume (lh_volume h) h) s) as Hsame by (rewrite (quiet_same (lh_volume h)) at 1; apply Hq; [lia|apply V]).
  unfold step, shadow_step. rewrite Hnf. destruct event as [| |through| |ba pu re pe|mr|start admitted|ok admitted|primary mirror|n ok|n].
  - destruct (negb _); [now apply alive|]. apply or_dead_survives; [exact I|]. intros h' (q & (Hlt & ->)%plus_Ok & [= <-])%outcome_bind_Ok. unfold on_volume. rewrite quiet_mutation. apply Hq; [lia|].
    eapply List.Forall_impl; [|apply V]. simpl. lia.
  - apply alive. unfold on_volume, guest_sync. repeat case_match; try exact Hsame.
    rewrite quiet_syncs. apply Hq; [lia|]. apply Forall_app. split; [apply V|]. constructor; [lia|constructor].
  - apply alive. unfold on_volume. rewrite quiet_ack. apply Hq; [lia|apply V].
  - apply alive. unfold on_volume, protect_initial_replica.
    repeat case_match; try exact Hsame. rewrite quiet_ready. apply Hq; [lia|apply V].
  - apply alive. unfold on_volume. rewrite quiet_others. apply Hq; [lia|apply V].
  - apply or_dead_survives; [exact I|]. intros h' (prepared & Hp & [= <-])%outcome_bind_Ok. eapply prepare_inv; eauto.
  - destruct (lh_capture h) eqn:Hc; [|now apply alive..]. destruct (v_ready (lh_volume h)) eqn:Hr; [|now apply alive]. apply or_dead_survives.
    + destruct I as (kept & r & I). exists kept, r. rewrite Hc in *. destruct I as [K1 K2 K3 K4 K5 K6 K7 K8 K9 K10]. split; auto.
    + intros h' Hs. eapply capture_inv; eauto.
  - destruct (lh_capture h) as [|ru rest|] eqn:Hc; [now apply alive| |now apply alive]. destruct rest as [|file rest]; [now apply alive|].
    destruct ok; [|now apply failed]. apply or_dead_survives; [exact I|]. intros h' Hs. eapply file_inv; eauto.
  - destruct (lh_capture h) as [| |ru record bs] eqn:Hc; [destruct primary, mirror; now apply alive..|].
    pose proof (record_survives h s ru record bs primary mirror I Hnf Hc) as Hr. unfold shadow_step in Hr. now rewrite Hnf, Hc in Hr.
  - destruct (lh_cleanups h !! n) as [c|] eqn:Ec; [|now apply alive]. destruct (c_names c) as [|name names] eqn:En; [now apply alive|].
    destruct ok; [|now apply failed]. apply alive. eapply deleted_inv; eauto.
  - destruct (lh_cleanups h !! n) as [c|] eqn:Ec; [|now apply alive]. destruct (c_names c) as [|name names] eqn:En; [|now apply alive].
    apply alive. now apply cleaned_inv.
Qed.

(** ** Runs *)
Lemma run_failed h events : lh_failed h = true -> run volume h events = h.
Proof.
  unfold run. revert h. induction events as [|e events IH]; intros h Hf; [reflexivity|]. simpl.
  assert (step volume h e = h) as -> by (unfold step; now rewrite Hf). now apply IH.
Qed.
Lemma shadow_failed h s events : lh_failed h = true -> shadow_run h s events = s.
Proof.
  revert h s. induction events as [|e events IH]; intros h s Hf; [reflexivity|]. simpl.
  assert (step volume h e = h) as -> by (unfold step; now rewrite Hf). unfold shadow_step. rewrite Hf. now apply IH.
Qed.
Lemma run_survives h s events : survives h s -> events_ok h events -> survives (run volume h events) (shadow_run h s events).
Proof using CL LL PL small_pages volume_fits fence_fits config_valid config_fits.
  revert h s. induction events as [|e events IH]; intros h s Hs Hok; [exact Hs|]. destruct Hok as [He Hok].
  destruct (lh_failed h) eqn:Ef; [now rewrite run_failed, shadow_failed|]. change (run volume h (e :: events)) with (run volume (step volume h e) events).
  apply IH; [|exact Hok]. destruct Hs as (h0 & I & Hh & _). rewrite (Hh Ef) in I. now apply step_survives.
Qed.

(** ** Creation *)
Lemma initial_ok bs : write_record_copies (E := unit) volume (upd v_fence fence (VolumeState_fresh config)) (initial_record config fence) [] = Ok bs ->
  record_ok volume fence config (initial_record config fence) /\ bs = record_bytes volume (initial_record config fence).
Proof using CL PL volume_fits fence_fits config_valid config_fits.
  assert (JournalRecord_fields (initial_record config fence)) as Hf.
  { unfold JournalRecord_fields, initial_record. cbn. unfold fits. rewrite config_valid. repeat split; try lia; try assumption; try apply config_fits; try apply fence_fits; try constructor. }
  unfold write_record_copies. cbn [initial_record jr_migrated_from]. intros H. unfold JournalRecord_encode in H.
  pose proof H as H0. change (jr_config (initial_record config fence)) with config in *. rewrite config_valid in H0. cbn [is_checkpoint jr_kind initial_record negb orb] in H0.
  destruct (page_size <? W32); [|discriminate]. cbn [jr_files initial_record] in H0. apply seal_frame_inv in H0 as [Hl ->].
  split; [|reflexivity]. split; try reflexivity. split; [exact Hf|]. split; [reflexivity|exact Hl].
Qed.
Lemma two_lookup (a b : string) (x : bytes) : ({[a := x; b := x]} : Device) !! b = Some x.
Proof.
  destruct (decide (a = b)) as [->|Hne]; [apply lookup_insert_eq|]. rewrite lookup_insert_ne by exact Hne. apply lookup_singleton_eq.
Qed.
Lemma created_inv h : created volume config fence = Ok h -> LocalInv h {| sh_saved := ∅; sh_captured := ∅ |} /\ lh_failed h = false.
Proof using CL LL PL volume_fits fence_fits config_valid config_fits.
  intros (bs & Hbs & [= <-])%outcome_bind_Ok. split; [|reflexivity]. destruct (initial_ok bs) as [R ->]; [exact Hbs|].
  exists [], (initial_record config fence). cbn [lh_capture lh_volume]. set (v := creation_commit _ _).
  assert (v_page_locs v = [] /\ v_blx_refs v = [] /\ v_tombstone_blx_files v = [] /\ v_vmm_blx_files v = [] /\ v_blx_blobs v = []) as (E1 & E2 & E3 & E4 & E5)
    by (unfold v, creation_commit; fields; auto).
  split; cbn [lh_volume lh_device lh_prepared lh_cleanups sh_saved].
  - reflexivity.
  - unfold v, creation_commit. split; fields; try (unfold fits; cbn; lia) || (reflexivity) || reflexivity || constructor.
    + destruct H as [[= <- <-]|[]]. reflexivity.
    + destruct H as [[= <- <-]|[]]. cbn. lia.
  - cbn. lia.
  - cbn. lia.
  - cbn. lia.
  - split; try easy; [split; constructor|]. intros p. rewrite lookup_empty. easy.
  - split.
    + intros name [->| ->]; cbn [record_names fst snd]; [apply lookup_insert_eq|].
      apply two_lookup.
    + intros name bs Hn. left. exists (initial_record config fence). split; [exact R|]. split; [now left|]. split; [cbn; lia|].
      cbn [record_names fst snd] in Hn. apply lookup_insert_Some in Hn as [[<- <-]|[_ [<- <-]%lookup_singleton_Some]]; split; reflexivity || (now left) || (now right).
  - split; rewrite ?E2, ?E5; try easy.
    + split; constructor.
    + split; rewrite ?E2; try easy; [constructor|]. intros i. unfold needed. rewrite E1, E3, E4. cbn. tauto.
    + split; rewrite ?E1; try easy. constructor.
  - constructor.
  - cbn. lia.
Qed.
End Run.
