(* ===== verification/LocalRestart.v ===== *)
(** * A restart after a crash

    The header, the trailer and the footer of a written file describe it: a
    restart that reads only these learns the file's reference, up to the
    checksum of its bytes, and its index; on any other bytes the reads fail
    and do not panic.

    What a crash leaves on the device names one newest record all of whose
    files are there; the restart finds it, and reads every page as it was
    saved. *)

From stdpp Require Import gmap.
From Stdlib Require Import Sorted.
From S2P Require Import Prelude Format Types OrdMap Sorting Head Blx BlxFile BlxBatch BlxScan BlxState Manifest ManifestCodec.
From S2P Require Import BatchRefs Text Layout PageFile Journal JournalFormat ReplicaRecovery LocalCapture LocalTask LocalRecovery LocalBatch.
From S2P Require Import LocalInvariant LocalSteps LocalStart LocalInstall LocalRun.

#[local] Open Scope Z_scope.

(** ** Bounded reads of a local file *)
Section Metadata.
Context `{CL : CrcLaws} `{LL : Lz4Laws} `{PL : PageSizeLaws}.
Hypothesis small_pages : page_size <= 16 * 1024 * 1024.
Variables volume fence : Z.

(** ** What opening a file has checked *)
Record opened (bs : bytes) (o : BlxObject) : Prop := {
  op_header : HEADER_BYTES <= len bs /\ BlxHeader_open bs = Ok (bo_header o, HEADER_BYTES);
  op_trailer : exists t, slice_get bs (len bs - TRAILER_BYTES) (len bs) = Some t
    /\ open_trailer t = Ok (bo_footer_offset o, bo_footer_length o);
  op_layout : HEADER_BYTES <= bo_footer_offset o /\ bo_footer_offset o + bo_footer_length o + TRAILER_BYTES = len bs;
  op_footer : exists t, slice_get bs (bo_footer_offset o) (bo_footer_offset o + bo_footer_length o) = Some t
    /\ BlxFooter_open t = Ok (bo_footer o);
  op_index : len (bf_entries (bo_footer o)) = bh_entry_count (bo_header o)
    /\ fe_key <$> List.hd_error (bf_entries (bo_footer o)) = Some (bh_first_key (bo_header o))
    /\ fe_key <$> list.last (bf_entries (bo_footer o)) = Some (bh_last_key (bo_header o))
    /\ forall e, list.last (bf_entries (bo_footer o)) = Some e -> fe_offset e + fe_length e = bo_footer_offset o }.
Lemma scan_last bs fo rows from to_ e : fold_outcome (scan_entry bs fo) from rows = Ok to_ -> list.last rows = Some e ->
  fe_offset e + fe_length e = to_.
Proof.
  revert from. induction rows as [|r rows IH]; intros from H Hl; [discriminate|]. simpl in H. apply outcome_bind_Ok in H as (x & Hx & H).
  destruct rows as [|r' rows]; [|now apply (IH x)]. injection Hl as ->. injection H as <-. unfold scan_entry in Hx. inv_ok.
  now apply checked_add_inv in Ho as [-> _].
Qed.
Lemma open_opened bs o : all_bytes bs -> BlxObject_open bs = Ok o -> opened bs o.
Proof using CL PL.
  intros Hb H. unfold BlxObject_open in H. apply outcome_bind_Ok in H as ([h ft] & Hs & H).
  apply outcome_bind_Ok in H as (st & Hst & H). apply ok_or_Ok in Hst. unfold checked_sub in Hst. destruct (_ <=? _); [|discriminate]. injection Hst as <-.
  apply outcome_bind_Ok in H as (t & Ht & H). apply ok_or_Ok in Ht.
  apply outcome_bind_Ok in H as ([fo fl] & Htr & [= <-]). cbn [bo_header bo_footer bo_footer_offset bo_footer_length].
  unfold BlxObject_scan in Hs. apply outcome_bind_Ok in Hs as ([h' he] & Hh & Hs).
  pose proof (BlxHeader_open_inv bs h' he Hb Hh) as (-> & _ & rest & Hrest).
  destruct (_ <? _); [discriminate|]. apply outcome_bind_Ok in Hs as (t' & Ht' & Hs). apply slice_index_Some in Ht'. rewrite Ht in Ht'. injection Ht' as <-.
  apply outcome_bind_Ok in Hs as ([fo' fl'] & Htr' & Hs). rewrite Htr in Htr'. injection Htr' as <- <-.
  apply outcome_bind_Ok in Hs as (fe & Hfe & Hs). apply ok_or_Ok, checked_add_inv in Hfe as [-> _].
  destruct (_ || _) eqn:Ec in Hs; [discriminate|]. apply orb_false_iff in Ec as [Ec1 Ec2]. apply negb_false_iff, Z.eqb_eq in Ec2. apply Z.ltb_ge in Ec1.
  apply outcome_bind_Ok in Hs as (fr & Hfr & Hs). apply slice_index_Some in Hfr. apply outcome_bind_Ok in Hs as (ft' & Hft & Hs).
  destruct (_ || _) eqn:Ec in Hs; [discriminate|]. rewrite !orb_false_iff, !negb_false_iff in Ec. destruct Ec as [[Ec3 Ec4] Ec5].
  apply Z.eqb_eq in Ec3. apply bool_decide_eq_true in Ec4, Ec5.
  apply outcome_bind_Ok in Hs as (ex & Hex & Hs). destruct (negb (ex =? fo)) eqn:Ec6; [discriminate|]. apply negb_false_iff, Z.eqb_eq in Ec6. injection Hs as <- <-. subst ex.
  split; cbn [bo_header bo_footer bo_footer_offset bo_footer_length].
  - split; [|exact Hh]. rewrite Hrest, len_app, len_header_frame. pose proof (len_nonneg rest). lia.
  - eauto.
  - auto.
  - eauto.
  - split; [exact Ec3|]. split; [exact Ec4|]. split; [exact Ec5|]. intros e He. eapply scan_last; eauto.
Qed.

(** ** Reading the metadata *)
Definition zeroed (o : ObjectRef) : ObjectRef :=
  {| or_identity := or_identity o; or_min_seq := or_min_seq o; or_max_seq := or_max_seq o;
     or_batch_id := or_batch_id o; or_chunk_index := or_chunk_index o; or_chunk_count := or_chunk_count o;
     or_first_key := or_first_key o; or_last_key := or_last_key o;
     or_pre_state_checksum := or_pre_state_checksum o; or_post_state_checksum := or_post_state_checksum o;
     or_size := or_size o; or_footer_offset := or_footer_offset o; or_footer_length := or_footer_length o;
     or_object_checksum := 0 |}.
Lemma read_slice (device : Device) name bs i j t : device !! name = Some bs -> slice_get bs i j = Some t ->
  read_range device name i (j - i) = Some t.
Proof. intros Hd Hs. unfold read_range. rewrite Hd. unfold slice_get in Hs. destruct (_ && _); [|discriminate]. exact Hs. Qed.
Lemma header_prefix bs : HEADER_BYTES <= len bs -> BlxHeader_open (take (Z.to_nat HEADER_BYTES) bs) = BlxHeader_open bs.
Proof.
  intros Hl. unfold BlxHeader_open. assert (len (take (Z.to_nat HEADER_BYTES) bs) = HEADER_BYTES) as Hl'.
  { unfold len in *. rewrite length_take. assert (0 < HEADER_BYTES) by reflexivity. lia. }
  rewrite Hl', Z.ltb_irrefl, (proj2 (Z.ltb_ge _ _) Hl). unfold slice_index, slice_get. rewrite Hl', (proj2 (Z.leb_le _ _) Hl).
  rewrite (proj2 (Z.leb_le 0 HEADER_BYTES)), Z.leb_refl by (vm_compute; discriminate). cbn [andb]. rewrite Z.sub_0_r, !drop_0, take_take, Nat.min_id. reflexivity.
Qed.
Lemma read_metadata (device : Device) blob f seq : file_ok volume fence seq f ->
  device !! be_name blob = Some (bo_bytes f.1) -> be_len blob = len (bo_bytes f.1) ->
  read_blx_metadata device blob volume fence (file_id f) = Ok (bo_header f.1, bo_footer f.1, zeroed (file_ref f)).
Proof using CL LL PL small_pages.
  intros K Hd Hlen. pose proof (file_holds_bytes _ _ (fk_holds _ _ _ _ K)) as Hb. pose proof (open_opened _ _ Hb (file_holds_open small_pages _ _ (fk_holds _ _ _ _ K))) as [[H1 H2] (t & H3 & H4) [H5 H6] (t' & H7 & H8) (H9 & H10 & H11 & H12)].
  pose proof (fk_len _ _ _ _ K) as Hl32. set (bs := bo_bytes f.1) in *. set (o := f.1) in *.
  assert (fits W32 (bo_footer_offset o) /\ fits W32 (bo_footer_length o)) as [Ho Hfl].
  { apply open_trailer_inv in H4 as (_ & ? & ?); [auto|]. eapply slice_all_bytes; eauto. }
  unfold fits in *. assert (0 < HEADER_BYTES /\ TRAILER_BYTES = 16) as [Hh0 HT] by (split; reflexivity).
  unfold read_blx_metadata. rewrite Hlen.
  assert (read_range device (be_name blob) 0 HEADER_BYTES = Some (take (Z.to_nat HEADER_BYTES) bs)) as -> by (unfold read_range; now rewrite Hd).
  cbn [ok_or outcome_bind]. unfold checked_sub. rewrite (proj2 (Z.leb_le TRAILER_BYTES (len bs))) by lia. cbn [ok_or outcome_bind].
  pose proof (read_slice device _ bs _ _ t Hd H3) as Hr. replace (len bs - (len bs - TRAILER_BYTES)) with TRAILER_BYTES in Hr by lia. rewrite Hr. cbn [ok_or outcome_bind].
  rewrite header_prefix, H2, H4 by exact H1. cbn [map_err outcome_bind].
  assert (header_names volume fence (file_id f) (bo_header o) = true) as ->.
  { pose proof (fk_identity _ _ _ _ K) as Hid. unfold file_ref, written_ref, identity_of, ObjectIdentity_volume in Hid. cbn [or_identity] in Hid. fold o in Hid. injection Hid as I1 I2 I3.
    destruct (fk_seq _ _ _ _ K) as (_ & S1 & S2). fold o in S1, S2. unfold header_names. rewrite I1, I2, I3, S1, S2. unfold file_id. fold o. rewrite !Z.eqb_refl. reflexivity. }
  rewrite (proj2 (Z.ltb_ge _ _) H5). unfold checked_add. rewrite H6, (proj2 (Z.ltb_lt (len bs) W64)) by lia. rewrite bool_decide_true by reflexivity. cbn [negb orb].
  pose proof (read_slice device _ bs _ _ t' Hd H7) as Hr'. replace (bo_footer_offset o + bo_footer_length o - bo_footer_offset o) with (bo_footer_length o) in Hr' by lia.
  rewrite Hr'. cbn [ok_or outcome_bind]. rewrite H8. cbn [map_err outcome_bind].
  assert (footer_matches (bo_header o) (bo_footer o) (bo_footer_offset o) = true) as ->.
  { unfold footer_matches. rewrite H9, Z.eqb_refl, H10, H11. destruct (list.last (bf_entries (bo_footer o))) as [e|]; [|discriminate].
    cbn [mbind option_bind]. unfold checked_add. rewrite (H12 e eq_refl), (proj2 (Z.ltb_lt _ W32)) by lia. now rewrite !bool_decide_true. }
  rewrite (proj2 (Z.ltb_lt _ _) Hl32). cbn [negb]. reflexivity.
Qed.
Lemma metadata_total (device : Device) blob id : no_panic (read_blx_metadata device blob volume fence id).
Proof using CL PL.
  assert (forall A (c : outcome DecodeError A), no_panic c -> no_panic (map_err (fun _ => tt) c)) as Hq by (intros A [x|e|] H; [discriminate..|now destruct H]).
  assert (forall A (o : option A), no_panic (ok_or o tt)) as Ho by (intros A [x|]; discriminate).
  unfold read_blx_metadata. apply no_panic_bind; [apply Ho|intros hb _]. apply no_panic_bind; [apply Ho|intros off _]. apply no_panic_bind; [apply Ho|intros tb _].
  apply no_panic_bind; [apply Hq, BlxHeader_open_total|intros [h he] _]. apply no_panic_bind; [apply Hq, open_trailer_total|intros [fo fl] _].
  apply no_panic_if; intros _; [discriminate|]. apply no_panic_bind; [apply Ho|intros fb _]. apply no_panic_bind; [apply Hq, BlxFooter_open_total|intros ft _].
  apply no_panic_if; intros _; [discriminate|]. apply no_panic_if; intros _; discriminate.
Qed.
End Metadata.


(** ** The newest entry of each page *)
Lemma newer_fold {A K V} `{RustOrdLaws K} (key : A -> option (K * V)) (gen : V -> Z) l :
  let m := fold_left (fun m x => match key x with Some (k, v) => newer_or_new gen k v m | None => m end) l [] in
  bt_sorted m /\ forall k, match bt_get k m with
    | Some v => (exists x, In x l /\ key x = Some (k, v)) /\ forall x v', In x l -> key x = Some (k, v') -> gen v' <= gen v
    | None => forall x v', In x l -> key x <> Some (k, v')
    end.
Proof.
  induction l as [|x l IH] using rev_ind; [split; [constructor|easy]|]. rewrite fold_left_app. cbn [fold_left].
  set (m := fold_left _ l []) in *. destruct IH as [Hs IH]. destruct (key x) as [[k0 v0]|] eqn:Ek.
  2:{ split; [exact Hs|]. intros k. specialize (IH k). destruct (bt_get k m) as [v|].
      - destruct IH as [(y & Hy & Hk) Hmax]. split; [exists y; rewrite in_app_iff; auto|]. intros y' v' [Hy'|[<-|[]]]%in_app_iff; [eauto|congruence].
      - intros y' v' [Hy'|[<-|[]]]%in_app_iff; [eauto|congruence]. }
  unfold newer_or_new. pose proof (IH k0) as IH0. split.
  { destruct (bt_get k0 m) as [old|]; [destruct (_ <=? _)|]; auto using bt_insert_sorted. }
  intros k. assert (k = k0 \/ k <> k0) as [->|Hne] by (destruct (cmp k k0) eqn:Ec; [left; now apply cmp_eq|right; intros ->; rewrite cmp_refl in Ec; discriminate..]).
  - assert (forall m', bt_get k0 m' = Some v0 -> (forall y v', In y l -> key y = Some (k0, v') -> gen v' <= gen v0) ->
      match bt_get k0 m' with Some v => (exists y, In y (l ++ [x]) /\ key y = Some (k0, v)) /\ forall y v', In y (l ++ [x]) -> key y = Some (k0, v') -> gen v' <= gen v
      | None => forall y v', In y (l ++ [x]) -> key y <> Some (k0, v') end) as Hnew.
    { intros m' -> Hmax. split; [exists x; rewrite in_app_iff; split; [right; now left|exact Ek]|]. intros y v' [Hy|[<-|[]]]%in_app_iff Hk; [eauto|]. rewrite Ek in Hk. injection Hk as <-. lia. }
    destruct (bt_get k0 m) as [old|] eqn:Eo.
    + destruct IH0 as [(y & Hy & Hk) Hmax]. destruct (Z.leb_spec (gen old) (gen v0)) as [Hle|Hgt].
      * apply Hnew; [apply bt_get_insert_eq|]. intros y' v' Hy' Hk'. specialize (Hmax y' v' Hy' Hk'). lia.
      * rewrite Eo. split; [exists y; rewrite in_app_iff; auto|]. intros y' v' [Hy'|[<-|[]]]%in_app_iff Hk'; [eauto|]. rewrite Ek in Hk'. injection Hk' as <-. lia.
    + apply Hnew; [apply bt_get_insert_eq|]. intros y v' Hy Hk. now destruct (IH0 y v').
  - assert (bt_get k (match bt_get k0 m with Some old => if gen old <=? gen v0 then bt_insert k0 v0 m else m | None => bt_insert k0 v0 m end) = bt_get k m) as ->.
    { destruct (bt_get k0 m) as [old|]; [destruct (_ <=? _)|]; auto using bt_get_insert_ne. }
    specialize (IH k). destruct (bt_get k m) as [v|].
    + destruct IH as [(y & Hy & Hk) Hmax]. split; [exists y; rewrite in_app_iff; auto|]. intros y' v' [Hy'|[<-|[]]]%in_app_iff Hk'; [eauto|congruence].
    + intros y' v' [Hy'|[<-|[]]]%in_app_iff; [eauto|congruence].
Qed.

Section Restart.
Context `{CL : CrcLaws} `{LL : Lz4Laws} `{PL : PageSizeLaws}.
Hypothesis small_pages : page_size <= 16 * 1024 * 1024.
Variables (volume fence : Z) (config : VolumeConfig).
Hypothesis volume_fits : fits W64 volume.
Hypothesis fence_fits : fits W64 fence.
Hypothesis config_valid : VolumeConfig_valid config = true.
Hypothesis config_fits : fits W32 (vc_pages config).
Abbreviation page_key p := (BlockKey_from_page (vc_kind config) p).
Abbreviation identity_of := (identity_of volume fence).
Abbreviation rows f := (local_file volume fence f).2.
Abbreviation LocalInv := (LocalInv volume fence config).
Abbreviation core_ok := (core_ok volume fence config).
Abbreviation files_ok := (files_ok volume fence config).
Abbreviation volume_ok := (volume_ok fence config).
Abbreviation entry_of := (entry_of config).
Abbreviation newest_in := (newest_in config).
Abbreviation placed := (placed volume fence config).
Abbreviation batch_ok := (batch_ok volume fence config).
Abbreviation running_ok := (running_ok fence config).
Abbreviation reads_page := (reads_page volume config).
Abbreviation all_written := (all_written volume fence).
Implicit Types (h : LocalHost) (v : VolumeState) (ws kept : list Written) (r : JournalRecord) (f : File).

Abbreviation record_ok := (record_ok volume fence config).
Abbreviation record_name := (record_name volume).
Abbreviation record_bytes := (record_bytes volume).
Abbreviation saved_ok := (saved_ok volume fence config).

(** ** What a crash leaves *)
Definition undecodable (bs : bytes) : Prop :=
  JournalRecord_decode volume bs = Err DecodeErr
  /\ exists e, JournalRecord_decode_migration_state volume bs = Err e.
Inductive blob_ok (rb : JournalRecord) (name : string) (bs : bytes) : Prop :=
| blob_record r : record_ok r -> r = rb \/ older r rb -> jr_seq r + 1 < W64 -> record_name r name -> bs = record_bytes r ->
    blob_ok rb name bs
| blob_torn q : 0 <= q -> q + 1 < W64 -> name = journal_blob volume fence q \/ name = journal_mirror_blob volume fence q ->
    undecodable bs -> blob_ok rb name bs
| blob_file id : name = blx_blob volume fence id -> 0 <= id -> id + 1 < W64 -> blob_ok rb name bs.
Record restorable (device : Device) (rb : JournalRecord) kept (saved : Pages) : Prop := {
  rs_saved : saved_ok device rb kept saved;
  rs_record : exists name, record_name rb name /\ device !! name = Some (record_bytes rb);
  rs_names name bs : device !! name = Some bs -> blob_ok rb name bs }.

(** ** Collecting *)
Definition found_is (found : BTreeMap Z Found) (F : Found) : Prop :=
  found = [(volume, F)] \/ (found = [] /\ F = Found_default).
Record collected (rb : JournalRecord) kept (blobs : list BlobEntry) (F : Found) : Prop := {
  cl_records r : In r (fo_records F) -> record_ok r /\ (r = rb \/ older r rb);
  cl_best blob : In blob blobs -> record_name rb (be_name blob) -> be_bytes blob = record_bytes rb -> In rb (fo_records F);
  cl_migration : fo_migration_checksums F = [] /\ fo_migration_archives F = [] /\ fo_handoff F = None;
  cl_files blob f : In blob blobs -> In f (all_files kept) -> be_name blob = blx_blob volume fence (file_id f) ->
    bt_get (identity_of (file_id f)) (fo_blx_refs F) = Some (zeroed (file_ref f))
    /\ bt_get (identity_of (file_id f)) (fo_blx_footers F) = Some (bo_footer f.1) }.
Lemma at_volume_one {E} found F (g : Found -> outcome E Found) F' : found_is found F -> g F = Ok F' ->
  at_volume volume g found = Ok [(volume, F')].
Proof.
  assert (forall F F0 : Found, bt_get volume [(volume, F)] = Some F /\ bt_insert volume F0 [(volume, F)] = [(volume, F0)]) as H1 by (intros; simpl; now rewrite Z.compare_refl).
  intros [->|[-> ->]] Hg; unfold at_volume; [destruct (H1 F F') as [-> H2]|]; cbn [default bt_get id]; rewrite Hg; cbn [outcome_bind]; [now rewrite H2|reflexivity].
Qed.
Lemma decode_record r : record_ok r -> JournalRecord_decode volume (record_bytes r) = Ok r.
Proof using CL PL volume_fits.
  intros R. destruct (JournalRecord_format volume volume_fits) as [Hw _ _]. destruct (Hw r (rk_ok _ _ _ _ R)) as (bs & He & _ & Hd).
  rewrite JournalRecord_encode_eq in He by apply (rk_ok _ _ _ _ R). injection He as <-. exact Hd.
Qed.
(** A journal copy, whole or torn. *)
Lemma collect_record {E} r rb kept blobs F blob : record_ok r -> record_ok rb -> r = rb \/ older r rb -> jr_seq r + 1 < W64 ->
  be_bytes blob = record_bytes r -> record_name r (be_name blob) -> (forall f, In f (all_files kept) -> fits W64 (file_id f)) ->
  collected rb kept blobs F ->
  exists F', collect_named (E := E) (Blob_Journal volume fence (jr_seq r)) blob F = Ok F' /\ collected rb kept (blobs ++ [blob]) F'.
Proof using CL PL volume_fits fence_fits.
  intros R RB Ho Hs Hb Hname Hfit [C1 C2 C3 C4]. unfold collect_named, collect_journal, plus, checked_add. rewrite (proj2 (Z.ltb_lt _ _) Hs). cbn [expect outcome_bind].
  rewrite Hb, (decode_record r R). cbn [result_ok outcome_bind]. rewrite (rk_fence _ _ _ _ R), !Z.eqb_refl. cbn [andb].
  eexists. split; [reflexivity|]. split; fields; [| |exact C3|].
  - intros r' [Hr|[<-|[]]]%in_app_iff; [now apply C1|auto].
  - intros b' [Hin|[<-|[]]]%in_app_iff Hn Hb'; apply in_app_iff; [left; eauto|right; left].
    rewrite Hb in Hb'. pose proof (decode_record r R) as Hd. rewrite Hb', (decode_record rb RB) in Hd. now injection Hd.
  - intros b' f [Hin|[<-|[]]]%in_app_iff Hf Hn; [now apply (C4 b')|].
    apply (record_name_parse volume fence config volume_fits fence_fits r _ R) in Hname. rewrite Hn, parse_blx in Hname by auto. discriminate.
Qed.
Lemma collect_torn {E} q rb kept blobs F blob : record_ok rb -> 0 <= q -> q + 1 < W64 ->
  be_name blob = journal_blob volume fence q \/ be_name blob = journal_mirror_blob volume fence q -> undecodable (be_bytes blob) ->
  (forall f, In f (all_files kept) -> fits W64 (file_id f)) -> collected rb kept blobs F ->
  exists F', collect_named (E := E) (Blob_Journal volume fence q) blob F = Ok F' /\ collected rb kept (blobs ++ [blob]) F'.
Proof using CL PL volume_fits fence_fits.
  intros RB Hq Hs Hname [Hu1 [e Hu2]] Hfit [C1 C2 C3 C4]. unfold collect_named, collect_journal, plus, checked_add. rewrite (proj2 (Z.ltb_lt _ _) Hs). cbn [expect outcome_bind].
  rewrite Hu1, Hu2. cbn [result_ok outcome_bind]. eexists. split; [reflexivity|]. split; fields; [exact C1| |exact C3|].
  - intros b' [Hin|[<-|[]]]%in_app_iff Hn Hb'; [eauto|]. rewrite Hb', (decode_record rb RB) in Hu1. discriminate.
  - intros b' f [Hin|[<-|[]]]%in_app_iff Hf Hn; [now apply (C4 b')|].
    apply (parse_journal volume fence volume_fits fence_fits) in Hname; [|unfold fits; lia]. rewrite Hn, parse_blx in Hname by auto. discriminate.
Qed.
(** A BLX file: its payload stays on the device. *)
Definition named_file (id : Z) blob (F : Found) : Found :=
  F |> upd fo_names (fo_names F ++ [be_name blob]) |> upd fo_max_object_id (Z.max (fo_max_object_id F) (id + 1))
    |> upd fo_blx_files (fo_blx_files F ++ [(identity_of id, be_len blob)]).
Lemma collect_blx_empty {E} id blob F : be_bytes blob = [] -> id + 1 < W64 ->
  collect_named (E := E) (Blob_Blx volume fence id) blob F = Ok (named_file id blob F).
Proof.
  intros Hb Hid. unfold collect_named, collect_blx, plus, checked_add. rewrite (proj2 (Z.ltb_lt _ _) Hid), Hb. cbn [expect outcome_bind].
  change (BlxHeader_open []) with (@Err DecodeError (BlxHeader * Z) DecodeErr). change (BlxObject_scan []) with (@Err DecodeError (BlxHeader * BlxFooter) DecodeErr).
  change (BlxObject_open []) with (@Err DecodeError BlxObject DecodeErr). cbn [result_ok outcome_bind]. fields. reflexivity.
Qed.
Definition noted_file (id : Z) (metadata : BlxHeader * BlxFooter * ObjectRef) (F : Found) : Found :=
  F |> note_record_file (bh_max_seq metadata.1.1) (identity_of id) |> note_tombstones metadata.1.2 (identity_of id)
    |> note_file (identity_of id) metadata.2 metadata.1.2.
Lemma noted_fields id m F : fo_records (noted_file id m F) = fo_records F
  /\ fo_migration_checksums (noted_file id m F) = fo_migration_checksums F /\ fo_migration_archives (noted_file id m F) = fo_migration_archives F
  /\ fo_handoff (noted_file id m F) = fo_handoff F /\ fo_blx_refs (noted_file id m F) = bt_insert (identity_of id) m.2 (fo_blx_refs F)
  /\ fo_blx_footers (noted_file id m F) = bt_insert (identity_of id) m.1.2 (fo_blx_footers F).
Proof. unfold noted_file, note_file, note_tombstones, note_record_file. destruct (has_tombstone m.1.2); fields; auto 10. Qed.
Lemma collect_metadata {E} (device : Device) blob found F id : found_is found F ->
  collect_blx_metadata (E := E) device found blob volume fence id =
  match read_blx_metadata device blob volume fence id with
  | Ok m => Ok [(volume, noted_file id m F)]
  | _ => Ok found
  end.
Proof using CL PL.
  intros Hf. unfold collect_blx_metadata. pose proof (metadata_total volume fence device blob id) as Ht.
  destruct (read_blx_metadata device blob volume fence id) as [[[hd ft] o]|e|]; [| |now destruct Ht]; cbn [result_ok outcome_bind]; [|reflexivity].
  now apply (at_volume_one found F).
Qed.
Lemma collect_file {E} (device : Device) rb kept blobs found F blob id bs : record_ok rb -> collected rb kept blobs F -> found_is found F ->
  be_name blob = blx_blob volume fence id -> 0 <= id -> id + 1 < W64 -> be_bytes blob = [] ->
  device !! be_name blob = Some bs -> be_len blob = len bs -> all_written kept -> (forall f, In f (all_files kept) -> on_device volume fence device f) ->
  exists F', collect_step (E := E) device found blob = Ok [(volume, F')] /\ collected rb kept (blobs ++ [blob]) F'.
Proof using CL LL PL small_pages volume_fits fence_fits.
  intros RB C0 Hfound Hname Hid0 Hid Hb Hd Hl A Hdev.
  assert (parse_blob (be_name blob) = Some (Blob_Blx volume fence id)) as Hp by (rewrite Hname; apply parse_blx; auto; unfold fits; lia).
  unfold collect_step, is_spool, collect_blob. rewrite Hp. cbn [blob_volume].
  rewrite (at_volume_one found F _ (named_file id blob F) Hfound) by now apply collect_blx_empty. cbn [outcome_bind]. rewrite Hb.
  rewrite (collect_metadata device blob _ (named_file id blob F)) by now left. destruct C0 as [C1 C2 C3 C4].
  assert (forall F', fo_records F' = fo_records F -> fo_migration_checksums F' = fo_migration_checksums F -> fo_migration_archives F' = fo_migration_archives F ->
    fo_handoff F' = fo_handoff F -> (forall f, In f (all_files kept) -> file_id f <> id -> bt_get (identity_of (file_id f)) (fo_blx_refs F') = bt_get (identity_of (file_id f)) (fo_blx_refs F)
      /\ bt_get (identity_of (file_id f)) (fo_blx_footers F') = bt_get (identity_of (file_id f)) (fo_blx_footers F)) ->
    (forall f, In f (all_files kept) -> file_id f = id -> bt_get (identity_of id) (fo_blx_refs F') = Some (zeroed (file_ref f)) /\ bt_get (identity_of id) (fo_blx_footers F') = Some (bo_footer f.1)) ->
    collected rb kept (blobs ++ [blob]) F') as Hmain.
  { intros F' E1 E2 E3 E4 E5 E6. split; rewrite ?E1, ?E2, ?E3, ?E4; auto.
    - intros b' [Hin|[<-|[]]]%in_app_iff Hn Hb'; [eauto|]. apply (record_name_parse volume fence config volume_fits fence_fits rb _ RB) in Hn. congruence.
    - intros b' f Hin Hf Hn. destruct (decide (file_id f = id)) as [He|Hne]; [rewrite He; now apply E6|]. destruct (E5 f Hf Hne) as [-> ->].
      apply in_app_iff in Hin as [Hin|[<-|[]]]; [now apply (C4 b')|]. rewrite Hn, parse_blx in Hp by (auto; eapply files_fit; eauto). congruence. }
  assert (forall f, In f (all_files kept) -> file_id f = id -> read_blx_metadata device blob volume fence id = Ok (bo_header f.1, bo_footer f.1, zeroed (file_ref f))) as Hread.
  { intros f Hf He. destruct (all_files_ok volume fence kept f A Hf) as [q FK]. pose proof (Hdev f Hf) as Hdf. unfold on_device in Hdf. rewrite He, <- Hname, Hd in Hdf. injection Hdf as ->.
    rewrite <- He. eapply read_metadata; eauto. }
  destruct (read_blx_metadata device blob volume fence id) as [m|e|] eqn:Em.
  - eexists. split; [reflexivity|]. destruct (noted_fields id m (named_file id blob F)) as (E1 & E2 & E3 & E4 & E5 & E6).
    apply Hmain; [rewrite E1; reflexivity|rewrite E2; reflexivity|rewrite E3; reflexivity|rewrite E4; reflexivity|..]; rewrite E5, E6.
    + intros f Hf Hne. assert (identity_of (file_id f) <> identity_of id) by (intros [=]; now apply Hne). rewrite !bt_get_insert_ne by assumption. split; reflexivity.
    + intros f Hf He. rewrite !bt_get_insert_eq. specialize (Hread f Hf He). injection Hread as ->. auto.
  - eexists. split; [reflexivity|]. unfold named_file. apply Hmain; fields; auto. intros f Hf He. now specialize (Hread f Hf He).
  - eexists. split; [reflexivity|]. unfold named_file. apply Hmain; fields; auto. intros f Hf He. now specialize (Hread f Hf He).
Qed.
(** ** The scan *)
Definition scanned (device : Device) blob : Prop :=
  exists bs parsed, device !! be_name blob = Some bs /\ parse_blob (be_name blob) = Some parsed
  /\ be_len blob = len bs /\ be_bytes blob = if is_blx parsed then [] else bs.
Lemma scan_In (device : Device) blob : In blob (scan_blob_dir_for_recovery device) -> scanned device blob.
Proof.
  unfold scan_blob_dir_for_recovery. intros ([name bs] & Hin & Hs)%omap_In. apply list_elem_of_In, elem_of_map_to_list in Hin.
  unfold scan_entry_of in Hs. cbn [fst snd] in Hs. destruct (parse_blob name) as [parsed|] eqn:Ep; [|discriminate]. injection Hs as <-. exists bs, parsed. auto.
Qed.
Lemma scan_complete (device : Device) name bs parsed : device !! name = Some bs -> parse_blob name = Some parsed ->
  In {| be_name := name; be_bytes := if is_blx parsed then [] else bs; be_len := len bs |} (scan_blob_dir_for_recovery device).
Proof.
  intros Hd Hp. unfold scan_blob_dir_for_recovery. apply omap_In. exists (name, bs). split; [now apply list_elem_of_In, elem_of_map_to_list|].
  unfold scan_entry_of. cbn [fst snd]. now rewrite Hp.
Qed.
Lemma collect_one {E} (device : Device) rb kept saved blobs found F blob : restorable device rb kept saved -> scanned device blob ->
  found_is found F -> collected rb kept blobs F ->
  exists F', collect_step (E := E) device found blob = Ok [(volume, F')] /\ collected rb kept (blobs ++ [blob]) F'.
Proof using CL LL PL small_pages volume_fits fence_fits.
  intros [S _ Hnames] (bs & parsed & Hd & Hp & Hl & Hb) Hfound C0. pose proof (so_record _ _ _ _ _ _ _ S) as RB. pose proof (so_written _ _ _ _ _ _ _ S) as A.
  assert (forall f, In f (all_files kept) -> fits W64 (file_id f)) as Hfit by (intros f Hf; eapply files_fit; eauto).
  assert (forall q, parse_blob (be_name blob) = Some (Blob_Journal volume fence q) -> forall F',
    collect_named (E := E) (Blob_Journal volume fence q) blob F = Ok F' -> collect_step (E := E) device found blob = Ok [(volume, F')]) as Hjournal.
  { intros q Hq F' HF. unfold collect_step, is_spool, collect_blob. rewrite Hq. cbn [blob_volume]. rewrite (at_volume_one found F _ F' Hfound HF). cbn [outcome_bind]. now destruct (be_bytes blob). }
  destruct (Hnames _ _ Hd) as [r R Ho Hs Hn ->|q Hq Hs Hn Hu|id Hn Hid0 Hid].
  - pose proof (record_name_parse volume fence config volume_fits fence_fits r _ R Hn) as Hq. rewrite Hq in Hp. injection Hp as <-.
    destruct (collect_record (E := E) r rb kept blobs F blob R RB Ho Hs Hb Hn Hfit C0) as (F' & H1 & H2). exists F'. split; [now apply (Hjournal (jr_seq r))|exact H2].
  - pose proof Hn as Hn'. apply (parse_journal volume fence volume_fits fence_fits) in Hn'; [|unfold fits; lia]. rewrite Hn' in Hp. injection Hp as <-. cbn [is_blx] in Hb. rewrite <- Hb in Hu.
    destruct (collect_torn (E := E) q rb kept blobs F blob RB Hq Hs Hn Hu Hfit C0) as (F' & H1 & H2). exists F'. split; [now apply (Hjournal q)|exact H2].
  - rewrite Hn, parse_blx in Hp by (auto; unfold fits; lia). injection Hp as <-. cbn [is_blx] in Hb.
    eapply collect_file; eauto; apply S.
Qed.
Lemma collect_all {E} (device : Device) rb kept saved l : restorable device rb kept saved -> Forall (scanned device) l ->
  forall blobs found F, found_is found F -> collected rb kept blobs F ->
  exists found' F', fold_outcome (collect_step (E := E) device) found l = Ok found' /\ found_is found' F' /\ collected rb kept (blobs ++ l) F'
    /\ (l <> [] -> found' = [(volume, F')]).
Proof using CL LL PL small_pages volume_fits fence_fits.
  intros S Hl. induction Hl as [|blob l Hb Hl IH]; intros blobs found F Hf C0; simpl.
  - exists found, F. rewrite app_nil_r. split; [reflexivity|]. split; [exact Hf|]. split; [exact C0|]. easy.
  - destruct (collect_one (E := E) device rb kept saved blobs found F blob S Hb Hf C0) as (F1 & -> & C1). cbn [outcome_bind].
    destruct (IH (blobs ++ [blob]) [(volume, F1)] F1) as (found' & F' & H1 & H2 & H3 & H4); [now left|exact C1|]. rewrite <- app_assoc in H3.
    exists found', F'. split; [exact H1|]. split; [exact H2|]. split; [exact H3|]. intros _. destruct l as [|b l]; [|now apply H4].
    simpl in H1. injection H1 as <-. destruct H2 as [H2|[H2 _]]; [exact H2|discriminate].
Qed.
Lemma collected_default rb kept : collected rb kept [] Found_default.
Proof. split; easy. Qed.
(** All that a restart finds. *)
Lemma restart_found {E} (device : Device) rb kept saved : restorable device rb kept saved ->
  exists F blobs, restart (E := E) device = Ok [(volume, recover_volume volume F)] /\ collected rb kept blobs F
  /\ In rb (fo_records F)
  /\ forall f, In f (all_files kept) -> bt_get (identity_of (file_id f)) (fo_blx_refs F) = Some (zeroed (file_ref f))
     /\ bt_get (identity_of (file_id f)) (fo_blx_footers F) = Some (bo_footer f.1).
Proof using CL LL PL small_pages volume_fits fence_fits.
  intros S. set (l := sort_by (fun a b => cmp_leb (be_name a) (be_name b)) (scan_blob_dir_for_recovery device)).
  assert (forall b, In b l <-> In b (scan_blob_dir_for_recovery device)) as Hl by (intros b; apply In_sort_by).
  pose proof (so_record _ _ _ _ _ _ _ (rs_saved _ _ _ _ S)) as RB. pose proof (so_written _ _ _ _ _ _ _ (rs_saved _ _ _ _ S)) as A.
  destruct (rs_record _ _ _ _ S) as (name & Hn & Hd). pose proof (record_name_parse volume fence config volume_fits fence_fits rb _ RB Hn) as Hp.
  pose proof (scan_complete device name _ _ Hd Hp) as Hin. apply Hl in Hin. cbn [is_blx] in Hin.
  destruct (collect_all (E := E) device rb kept saved l S) with (blobs := @nil BlobEntry) (found := @nil (Z * Found)) (F := Found_default)
    as (found' & F & H1 & H2 & H3 & H4); [apply List.Forall_forall; intros b Hb; apply scan_In, Hl, Hb|right; auto|apply collected_default|].
  exists F, l. split; [|split; [exact H3|split]].
  - unfold restart, recover_local. fold l. rewrite H1. cbn [outcome_bind]. rewrite H4; [reflexivity|]. intros Hnil. now rewrite Hnil in Hin.
  - eapply (cl_best _ _ _ _ H3); [exact Hin|exact Hn|reflexivity].
  - intros f Hf. pose proof (so_device _ _ _ _ _ _ _ (rs_saved _ _ _ _ S) f Hf) as Hdf.
    pose proof (parse_blx volume fence volume_fits fence_fits _ (files_fit volume fence kept f A Hf)) as Hpf.
    pose proof (scan_complete device _ _ _ Hdf Hpf) as Hinf. apply Hl in Hinf. exact (cl_files _ _ _ _ H3 _ f Hinf Hf eq_refl).
Qed.

(** ** Rebuilding the page map *)
Definition row_page (row : ObjectRef * FooterEntry) : option (PageId * (Z * option PageFileLoc)) :=
  page ← BlockKey_to_page (fe_key row.2) (vc_kind config) volume;
  Some (page, (fe_generation row.2,
    if is_data row.2 then Some (entry_loc (oi_writer_fence (or_identity row.1)) (oi_object_id (or_identity row.1)) row.2) else None)).
Lemma key_to_page p : pid_volume p = volume -> BlockKey_to_page (page_key p) (vc_kind config) volume = Some p.
Proof using Type. intros Hv. destruct p as [pv pn]. simpl in Hv. unfold BlockKey_to_page, BlockKey_from_page. destruct (vc_kind config); simpl; now rewrite Hv. Qed.
Lemma file_fence seq f : file_ok volume fence seq f -> bh_writer_fence (bo_header f.1) = fence.
Proof using Type. intros K. pose proof (f_equal oi_writer_fence (fk_identity _ _ _ _ K)) as H. exact H. Qed.
Lemma file_rows seq f row p x : file_ok volume fence seq f -> content_ok volume config f -> In row (bf_entries (bo_footer f.1)) ->
  row_page (file_ref f, row) = Some (p, x) -> exists g loc, x = (g, Some loc) /\ In (p, g, loc) (rows f).
Proof using CL LL PL small_pages.
  intros K CO Hin Hrow. pose proof (fk_holds _ _ _ _ K) as Hh. destruct (file_holds_scan small_pages _ _ Hh) as [_ Hft]. rewrite Hft in Hin. cbn [object_footer bf_entries] in Hin.
  pose proof Hin as Hin0. apply object_rows_In in Hin as (pre & e & post & Hes & ->). unfold row_page in Hrow. cbn [fst snd entry_row fe_key fe_generation is_data fe_kind] in Hrow.
  assert (In e f.2) as He by (rewrite Hes; apply in_app_iff; right; now left).
  destruct (co_entries _ _ _ CO e He) as [Hv|(q & g & raw & -> & Hv)].
  - unfold is_vmm_entry in Hv. unfold BlockKey_to_page in Hrow. rewrite Hv in Hrow. now destruct (vc_kind config).
  - cbn [BlxEntry_key BlxEntry_generation BlxEntry_kind] in Hrow. rewrite key_to_page in Hrow by exact Hv. cbn [mbind option_bind] in Hrow.
    unfold is_data in Hrow. cbn [entry_row fe_kind BlxEntry_kind] in Hrow. rewrite bool_decide_true in Hrow by reflexivity. injection Hrow as <- <-.
    eexists g, _. split; [reflexivity|]. cbn [local_file snd]. apply omap_In. eexists. split; [apply filter_In; split; [exact Hin0|]|].
    + unfold is_data. cbn. now apply bool_decide_true.
    + unfold finish_row. cbn [entry_row fe_key BlxEntry_key]. rewrite page_key_id by exact Hv. rewrite (file_fence _ _ K). reflexivity.
Qed.
Lemma rows_file seq f p g loc : file_ok volume fence seq f -> content_ok volume config f -> In (p, g, loc) (rows f) ->
  exists row, In row (bf_entries (bo_footer f.1)) /\ row_page (file_ref f, row) = Some (p, (g, Some loc)).
Proof using CL LL PL small_pages.
  intros K CO Hin. pose proof (row_entry small_pages volume fence config seq f p g loc K CO Hin) as (raw & He & _).
  destruct (row_at volume fence f p g loc Hin) as (Hv & _). pose proof (fk_holds _ _ _ _ K) as Hh. destruct (file_holds_scan small_pages _ _ Hh) as [_ Hft]. rewrite Hft. cbn [object_footer bf_entries].
  cbn [local_file snd] in Hin. apply omap_In in Hin as (row & [Hrow Hdata]%filter_In & Hf). exists row. split; [exact Hrow|].
  apply object_rows_In in Hrow as (pre & e & post & Hes & ->). unfold finish_row in Hf. cbn [entry_row fe_key] in Hf.
  assert (In e f.2) as He' by (rewrite Hes; apply in_app_iff; right; now left).
  destruct (co_entries _ _ _ CO e He') as [Hvm|(q & g' & raw' & -> & Hvq)].
  - unfold is_vmm_entry in Hvm. unfold BlockKey_to_page_id in Hf. now rewrite Hvm in Hf.
  - cbn [BlxEntry_key] in Hf. rewrite page_key_id in Hf by exact Hvq. injection Hf as -> <- <-. unfold row_page. cbn [fst snd entry_row fe_key BlxEntry_key].
    rewrite key_to_page by exact Hvq. cbn [mbind option_bind]. cbn [entry_row] in Hdata. rewrite Hdata, (fk_identity _ _ _ _ K). reflexivity.
Qed.
Lemma bt_get_omap {K X Y} `{RustOrdLaws K} (g : X -> option Y) (m : BTreeMap K X) k : bt_sorted m ->
  bt_get k (omap (fun '(k, x) => (fun y => (k, y)) <$> g x) m) = (x ← bt_get k m; g x).
Proof using Type.
  intros Hs. induction Hs as [|[k0 x0] m Hs IH Hlt]; [reflexivity|]. cbn [omap list_omap bt_get].
  assert (forall k1, In k1 (bt_keys m) -> cmp k0 k1 = Lt) as Hk.
  { intros k1 ([k2 y] & <- & Hin)%in_map_iff. rewrite List.Forall_forall in Hlt. exact (Hlt _ Hin). }
  destruct (cmp k k0) eqn:Ec.
  - apply cmp_eq in Ec as ->. destruct (g x0) as [y|] eqn:Eg; cbn [fmap option_fmap option_map mbind option_bind].
    + cbn [bt_get]. now rewrite cmp_refl, Eg.
    + rewrite IH. destruct (bt_get k0 m) as [x|] eqn:Ex; [|now rewrite Eg]. apply bt_get_In, (in_map fst) in Ex. specialize (Hk _ Ex). cbn in Hk. now rewrite cmp_refl in Hk.
  - destruct (g x0) as [y|]; cbn [fmap option_fmap option_map bt_get]; [now rewrite Ec|exact IH].
  - destruct (g x0) as [y|]; cbn [fmap option_fmap option_map bt_get]; [now rewrite Ec|exact IH].
Qed.
Lemma omap_same {A B} (g g' : A -> option B) (l : list A) : (forall x, g x = g' x) -> omap g l = omap g' l.
Proof using Type. intros He. induction l as [|x l IH]; [reflexivity|]. cbn [omap list_omap]. rewrite He. destruct (g' x); [f_equal|]; exact IH. Qed.
Definition kept_location (x : Z * option PageFileLoc) : option (Z * PageFileLoc) := (fun l => (x.1, l)) <$> x.2.
Lemma footer_rows_In (F : Found) fs o row : (forall f, In f fs -> or_identity (file_ref f) = identity_of (file_id f)) ->
  (forall f, In f fs -> bt_get (identity_of (file_id f)) (fo_blx_footers F) = Some (bo_footer f.1)) ->
  In (o, row) (footer_rows F (map file_ref fs)) <-> exists f, In f fs /\ o = file_ref f /\ In row (bf_entries (bo_footer f.1)).
Proof using Type.
  intros Hid Hft. unfold footer_rows. rewrite in_concat. split.
  - intros (l & (o' & <- & (f & <- & Hf)%in_map_iff)%in_map_iff & Hin). rewrite (Hid f Hf), (Hft f Hf) in Hin. apply in_map_iff in Hin as (row' & [= <- <-] & Hrow). eauto.
  - intros (f & Hf & -> & Hrow). eexists. split; [apply in_map_iff; exists (file_ref f); split; [reflexivity|now apply in_map]|].
    rewrite (Hid f Hf), (Hft f Hf). now apply in_map.
Qed.
(** Each page is found in the newest row for it. *)
Lemma materialized (F : Found) fs p : (forall f, In f fs -> (exists seq, file_ok volume fence seq f) /\ content_ok volume config f
    /\ bt_get (identity_of (file_id f)) (fo_blx_footers F) = Some (bo_footer f.1)) ->
  match bt_get p (materialize_files F volume config (map file_ref fs)) with
  | Some (g, loc) => exists f, In f fs /\ In (p, g, loc) (rows f) /\ forall f' g' loc', In f' fs -> In (p, g', loc') (rows f') -> g' <= g
  | None => forall f g loc, In f fs -> ~ In (p, g, loc) (rows f)
  end.
Proof using CL LL PL small_pages.
  intros Hfs. assert (forall o row, In (o, row) (footer_rows F (map file_ref fs)) <-> exists f, In f fs /\ o = file_ref f /\ In row (bf_entries (bo_footer f.1))) as Hin.
  { intros o row. apply footer_rows_In; [|intros f Hf; now apply Hfs]. intros f Hf. destruct (Hfs f Hf) as ([seq K] & _). apply K. }
  unfold materialize_files. rewrite (omap_same _ (fun '(k, x) => (fun y => (k, y)) <$> kept_location x)) by (now intros [k [g [l|]]]).
  rewrite (fold_left_ext _ (fun m row => match row_page row with Some (k, x) => newer_or_new fst k x m | None => m end)).
  2:{ intros m [o row]. unfold materialize_page, row_page. cbn [fst snd]. destruct (BlockKey_to_page _ _ _); reflexivity. }
  destruct (newer_fold row_page fst (footer_rows F (map file_ref fs))) as [Hs Hn]. set (m := fold_left _ _ _) in *. rewrite (bt_get_omap kept_location m p Hs). specialize (Hn p).
  assert (forall f g loc, In f fs -> In (p, g, loc) (rows f) -> exists x, In x (footer_rows F (map file_ref fs)) /\ row_page x = Some (p, (g, Some loc))) as Hrow.
  { intros f g loc Hf Hr. destruct (Hfs f Hf) as ([seq K] & CO & _). destruct (rows_file seq f p g loc K CO Hr) as (row & H1 & H2).
    exists (file_ref f, row). split; [|exact H2]. apply Hin. eauto. }
  destruct (bt_get p m) as [x|]; cbn [mbind option_bind].
  - destruct Hn as [([o row] & Hx & Hkey) Hmax]. apply Hin in Hx as (f & Hf & -> & Hr). destruct (Hfs f Hf) as ([seq K] & CO & _).
    destruct (file_rows seq f row p x K CO Hr Hkey) as (g & loc & -> & Hrows). cbn [kept_location snd fst fmap option_fmap option_map].
    exists f. split; [exact Hf|]. split; [exact Hrows|]. intros f' g' loc' Hf' Hr'. destruct (Hrow f' g' loc' Hf' Hr') as (y & Hy & Hky). exact (Hmax y _ Hy Hky).
  - intros f g loc Hf Hr. destruct (Hrow f g loc Hf Hr) as (y & Hy & Hky). exact (Hn y _ Hy Hky).
Qed.

(** ** Choosing the record *)
Lemma max_by_key_best {A K} `{RustOrdLaws K} (key : A -> K) l x : In x l ->
  (forall y, In y l -> y = x \/ cmp (key y) (key x) = Lt) -> max_by_key key l = Some x.
Proof using Type.
  intros Hx Hmax. unfold max_by_key.
  assert (forall acc, (acc = Some x \/ In x l /\ (acc = None \/ exists b, acc = Some b /\ cmp (key b) (key x) = Lt)) ->
    fold_left (fun best y => match best with Some b => if cmp_leb (key b) (key y) then Some y else Some b | None => Some y end) l acc = Some x) as Hmain.
  { clear Hx. induction l as [|y l IH]; intros acc Hacc; [destruct Hacc as [->|[[] _]]; reflexivity|]. cbn [fold_left].
    assert (forall y, In y l -> y = x \/ cmp (key y) (key x) = Lt) as Hmax' by (intros z Hz; apply Hmax; now right). specialize (IH Hmax'). apply IH.
    destruct (Hmax y (or_introl eq_refl)) as [->|Hlt].
    - left. destruct Hacc as [->|[_ [->|(b & -> & Hb)]]]; [|reflexivity|]; unfold cmp_leb; rewrite ?cmp_refl, ?Hb; reflexivity.
    - destruct Hacc as [->|[Hin Hacc]].
      + left. unfold cmp_leb. assert (cmp (key x) (key y) = Gt) as -> by (now apply cmp_gt_lt); reflexivity.
      + right. destruct Hin as [->|Hin]; [now rewrite cmp_refl in Hlt|]. split; [exact Hin|]. right.
        destruct Hacc as [->|(b & -> & Hb)]; [now exists y|]. destruct (cmp_leb _ _); eauto. }
  apply Hmain. right. auto.
Qed.
Lemma older_rank r rb : older r rb -> cmp (record_rank r) (record_rank rb) = Lt.
Proof using Type.
  intros [H1 H2]. unfold record_rank. change (cmp_then (jr_capture_seq r ?= jr_capture_seq rb) (jr_seq r ?= jr_seq rb) = Lt).
  unfold cmp_then. destruct (Z.compare_spec (jr_capture_seq r) (jr_capture_seq rb)); [now apply Z.compare_lt_iff|reflexivity|lia].
Qed.
Lemma max_or_zero_le l b : 0 <= b -> Forall (fun x => x <= b) l -> max_or_zero l <= b.
Proof using Type.
  unfold max_or_zero. intros Hb Hl. revert Hb. generalize 0. induction Hl as [|x l Hx Hl IH]; intros a Ha; [exact Ha|]. simpl. apply IH. lia.
Qed.
(** What is known of the volume before a record is chosen. *)
Record found_ok (F : Found) (rb : JournalRecord) kept (saved : Pages) (device : Device) : Prop := {
  fd_saved : saved_ok device rb kept saved;
  fd_records r : In r (fo_records F) -> record_ok r /\ (r = rb \/ older r rb);
  fd_best : In rb (fo_records F);
  fd_migration : fo_migration_checksums F = [] /\ fo_migration_archives F = [] /\ fo_handoff F = None;
  fd_files f : In f (all_files kept) -> bt_get (identity_of (file_id f)) (fo_blx_refs F) = Some (zeroed (file_ref f))
    /\ bt_get (identity_of (file_id f)) (fo_blx_footers F) = Some (bo_footer f.1) }.
Lemma best_usable F rb kept saved device : found_ok F rb kept saved device -> record_usable F volume rb = true.
Proof using Type.
  intros [S _ _ _ Hf]. unfold record_usable. pose proof (so_files _ _ _ _ _ _ _ S) as Hfiles. pose proof (so_written _ _ _ _ _ _ _ S) as A.
  assert (forallb (file_usable F volume rb) (jr_files rb) = true) as Hall.
  { apply forallb_forall. rewrite Hfiles. intros o (f & <- & Hin)%in_map_iff. destruct (all_files_ok volume fence kept f A Hin) as [q FK]. destruct (Hf f Hin) as [Href _].
    unfold file_usable. rewrite (fk_identity _ _ _ _ FK), Href. unfold is_volume_file. cbn [LocalBatch.identity_of ObjectIdentity_volume oi_namespace_kind oi_namespace_id].
    rewrite bool_decide_true, Z.eqb_refl by reflexivity. cbn [andb]. apply orb_true_iff. left. unfold same_file. apply orb_true_iff. right.
    cbn [zeroed or_object_checksum]. apply bool_decide_true. reflexivity. }
  destruct (jr_files rb) eqn:Ef; [|exact Hall]. rewrite (proj2 (Z.eqb_eq _ _)); [reflexivity|]. apply (so_usable _ _ _ _ _ _ _ S).
  now destruct (all_files kept).
Qed.
Lemma chosen F rb kept saved device : found_ok F rb kept saved device ->
  max_by_key record_rank (List.filter (record_usable F volume) (fo_records F)) = Some rb.
Proof using Type.
  intros D. apply max_by_key_best.
  - apply filter_In. split; [apply D|]. eapply best_usable; eauto.
  - intros r [Hr _]%filter_In. destruct (fd_records _ _ _ _ _ D r Hr) as [_ [->|Ho]]; [now left|right; now apply older_rank].
Qed.
Lemma covered_le F rb kept saved device r : found_ok F rb kept saved device -> In r (fo_records F) ->
  jr_sync_covered_through r <= jr_capture_seq rb.
Proof using Type.
  intros D Hr. destruct (fd_records _ _ _ _ _ D r Hr) as [R Ho]. pose proof (rk_covered _ _ _ _ R). destruct Ho as [->|[_ Ho]]; lia.
Qed.
Definition verdict_of (rb : JournalRecord) : Verdict :=
  match jr_kind rb with Kind_Checkpoint epoch vmstate _ => Verdict_Resume epoch vmstate | Kind_Commit => Verdict_ColdBoot end.
Lemma recovered F rb kept saved device : found_ok F rb kept saved device ->
  exists v, recover_volume volume F = Some (v, Some (verdict_of rb)) /\ v_best_record v = Some rb
  /\ v_config v = config /\ v_fence v = fence /\ v_mutation_seq v = jr_capture_seq rb
  /\ (VolumeConfig_is_memory config = false \/ is_checkpoint (jr_kind rb) = true ->
      v_page_locs v = materialize_files F volume config (jr_files rb)).
Proof using Type.
  intros D. pose proof (so_record _ _ _ _ _ _ _ (fd_saved _ _ _ _ _ D)) as R. destruct (rk_ok _ _ _ _ R) as ((_ & _ & _ & Hc & _ & _ & _ & _ & _ & _ & _ & Hck & _) & Hidx & _).
  destruct (fd_migration _ _ _ _ _ D) as (M1 & M2 & M3). unfold fits in Hc.
  unfold recover_volume. rewrite (chosen F rb kept saved device D). cbn [mbind option_bind].
  assert (durability_watermark F <= jr_capture_seq rb) as Hw1.
  { apply max_or_zero_le; [lia|]. apply List.Forall_forall. intros x (r & <- & [Hr _]%filter_In)%in_map_iff. eapply covered_le; eauto. }
  set (uw := max_or_zero (map jr_sync_covered_through (List.filter (record_usable F volume) (fo_records F)))).
  assert (uw <= jr_capture_seq rb) as Hw2.
  { apply max_or_zero_le; [lia|]. apply List.Forall_forall. intros x (r & <- & [Hr _]%filter_In)%in_map_iff. eapply covered_le; eauto. }
  rewrite (proj2 (Z.ltb_ge _ _) Hw1), Hidx, M1, M2, M3, (rk_config _ _ _ _ R). cbn [bt_get default].
  rewrite (proj2 (Z.leb_le (Z.max uw (durability_watermark F)) (jr_capture_seq rb))) by lia. rewrite andb_true_r.
  destruct (materialize_checksums F (jr_files rb)) as [blocks sum]. unfold verdict_of. rewrite (rk_config _ _ _ _ R) in Hck.
  destruct (jr_kind rb) as [|epoch vmstate length]; cbn [is_checkpoint negb orb] in Hck |- *.
  - rewrite bool_decide_true by reflexivity. cbn [negb andb]. eexists. split; [reflexivity|]. fields.
    split; [reflexivity|]. split; [reflexivity|]. split; [apply R|]. split; [reflexivity|]. intros [H|H]; [now rewrite H|discriminate].
  - rewrite Hck. rewrite (bool_decide_false (Some _ = None)) by discriminate. rewrite bool_decide_false by (intros [? ?]; discriminate). cbn [negb andb]. eexists. split; [reflexivity|]. fields.
    split; [reflexivity|]. split; [reflexivity|]. split; [apply R|]. split; reflexivity.
Qed.

(** ** The restart *)
Lemma read_as device v p g loc bs raw : pid_volume p = volume -> bt_get p (v_page_locs v) = Some (g, loc) ->
  device !! blx_blob volume (pl_fence loc) (pl_object loc) = Some bs -> reads_as volume bs loc p g raw -> read_local device v p = Some raw.
Proof using Type.
  intros Hv Hg Hd (frame & Hs & Ho). unfold read_local, fetch_local. rewrite Hg, Hv. pose proof (read_slice device _ bs _ _ frame Hd Hs) as Hr.
  replace (pl_offset loc + pl_len loc - pl_offset loc) with (pl_len loc) in Hr by lia. rewrite Hr. cbn [mbind option_bind]. unfold verify_entry. cbn [mbind option_bind].
  now rewrite Hv, Ho, Hv, !Z.eqb_refl.
Qed.
Lemma restart_reads {E} (device : Device) rb kept saved : restorable device rb kept saved ->
  exists v, restart (E := E) device = Ok [(volume, Some (v, Some (verdict_of rb)))] /\ v_best_record v = Some rb
  /\ v_config v = config /\ v_fence v = fence /\ v_mutation_seq v = jr_capture_seq rb
  /\ (VolumeConfig_is_memory config = false \/ is_checkpoint (jr_kind rb) = true ->
      forall p, pid_volume p = volume -> read_local device v p = saved !! p).
Proof using CL LL PL small_pages volume_fits fence_fits.
  intros S. destruct (restart_found (E := E) device rb kept saved S) as (F & blobs & Hr & Hc & Hin & Hf). pose proof (rs_saved _ _ _ _ S) as SK.
  assert (found_ok F rb kept saved device) as D by (split; auto; apply Hc).
  destruct (recovered F rb kept saved device D) as (v & Hv & H1 & H2 & H3 & H4 & H5). exists v. rewrite Hr, Hv. split; [reflexivity|].
  split; [exact H1|]. split; [exact H2|]. split; [exact H3|]. split; [exact H4|]. intros Hm p Hp. specialize (H5 Hm). rewrite (so_files _ _ _ _ _ _ _ SK) in H5.
  pose proof (so_written _ _ _ _ _ _ _ SK) as A.
  assert (forall f, In f (all_files kept) -> (exists seq, file_ok volume fence seq f) /\ content_ok volume config f /\ bt_get (identity_of (file_id f)) (fo_blx_footers F) = Some (bo_footer f.1)) as Hfs.
  { intros f Hff. split; [eapply all_files_ok; eauto|]. split; [now apply (so_contents _ _ _ _ _ _ _ SK)|now apply Hf]. }
  pose proof (materialized F (all_files kept) p Hfs) as HM. rewrite <- H5 in HM. pose proof (so_pages _ _ _ _ _ _ _ SK p) as HS.
  destruct (bt_get p (v_page_locs v)) as [[g loc]|] eqn:Eg.
  - destruct HM as (f & Hff & Hrow & Hmax). destruct (Hfs f Hff) as ([seq K] & CO & _).
    destruct (row_entry small_pages volume fence config seq f p g loc K CO Hrow) as (raw & He & _ & Hpf & Hpo & Hreads & _).
    rewrite (read_as device v p g loc (bo_bytes f.1) raw Hp Eg); [|rewrite Hpf, Hpo; now apply (so_device _ _ _ _ _ _ _ SK)|exact Hreads].
    destruct (saved !! p) as [raw0|]; [|now destruct (HS Hp f g raw Hff)]. destruct HS as (_ & g0 & f0 & N).
    destruct (row_complete volume fence config f0 p g0 raw0 Hp (ni_entry _ _ _ _ _ _ N)) as [loc0 Hrow0].
    specialize (Hmax f0 g0 loc0 (ni_in _ _ _ _ _ _ N) Hrow0). destruct (ni_newest _ _ _ _ _ _ N f g raw Hff He) as [Hlt| ->]; [lia|].
    destruct (entry_unique small_pages volume fence config f0 p g raw g0 raw0) as [_ ->]; [now exists seq|exact He|apply N|reflexivity].
  - unfold read_local. rewrite Eg. destruct (saved !! p) as [raw0|]; [|reflexivity]. destruct HS as (_ & g0 & f0 & N).
    destruct (row_complete volume fence config f0 p g0 raw0 Hp (ni_entry _ _ _ _ _ _ N)) as [loc0 Hrow0]. now destruct (HM f0 g0 loc0 (ni_in _ _ _ _ _ _ N)).
Qed.
End Restart.
