(* ===== verification/LocalCrash.v ===== *)
(** * A crash at any point of a run

    Whatever a crash leaves on the device, a restart brings the volume back
    with the newest committed record, or with the record being written if a
    copy of it is complete, and every page reads as that record saved it. *)

From stdpp Require Import gmap.
From Stdlib Require Import Sorted.
From S2P Require Import Prelude Format Types OrdMap Sorting Head Blx BlxFile BlxBatch BlxScan BlxState Manifest ManifestCodec.
From S2P Require Import BatchRefs Text Layout PageFile Journal JournalFormat ReplicaRecovery LocalCapture LocalTask LocalRecovery LocalBatch.
From S2P Require Import LocalInvariant LocalSteps LocalStart LocalInstall LocalRun LocalRestart.

#[local] Open Scope Z_scope.

(** ** The forms of a record *)
Section Forms.
Context `{CL : CrcLaws} `{PL : PageSizeLaws}.
Lemma from_le_app a b : from_le (a ++ b) = from_le a + 256 ^ len a * from_le b.
Proof using Type.
  induction a as [|x a IH]; [unfold len; simpl; lia|].
  change ((x :: a) ++ b) with (x :: (a ++ b)). cbn [from_le]. rewrite IH, len_cons, Z.pow_add_r by (pose proof (len_nonneg a); lia). lia.
Qed.
(** What starts as a record is not a migration form: its first eight bytes, read
    as the length of a record, are beyond its end. *)
Lemma not_migration_form volume p n : len p < W32 ->
  exists e, JournalRecord_decode_migration_state volume (take n (frame_bytes MAGIC_JOURNAL p)) = Err e.
Proof using Type.
  intros Hl. unfold JournalRecord_decode_migration_state. destruct (slice_get _ 0 8) as [prefix|] eqn:Ep; [|eexists; reflexivity]. cbn [ok_or outcome_bind].
  assert (from_le prefix = MAGIC_JOURNAL + W32 * len p) as ->.
  { unfold slice_get in Ep. destruct (_ && _) eqn:Ec; [|discriminate]. injection Ep as <-. apply andb_prop in Ec as [_ Ec]. apply Z.leb_le in Ec.
    unfold len in Ec. rewrite length_take in Ec. rewrite drop_0, take_take, Nat.min_l by lia. unfold frame_bytes.
    rewrite app_assoc, take_app_length' by (rewrite length_app, !length_to_le; reflexivity).
    rewrite from_le_app, len_to_le, !from_le_to_le; [reflexivity|split; [apply len_nonneg|exact Hl]|vm_compute; split; [discriminate|reflexivity]]. }
  pose proof (len_nonneg p). destruct (checked_add W64 8 _) as [e|] eqn:Ec; [|eexists; reflexivity]. apply checked_add_inv in Ec as [-> _]. cbn [ok_or outcome_bind].
  destruct (slice_get _ 8 _) as [d|] eqn:Es; [|eexists; reflexivity]. exfalso. unfold slice_get in Es. destruct (_ && _) eqn:Ec; [|discriminate].
  apply andb_prop in Ec as [_ Ec]. apply Z.leb_le in Ec. unfold len in Ec at 2. rewrite length_take in Ec.
  assert (Z.of_nat (length (frame_bytes MAGIC_JOURNAL p)) = 12 + len p) as Hlen.
  { unfold frame_bytes. rewrite !length_app, !length_to_le. unfold len. lia. }
  assert (MAGIC_JOURNAL = 827476546) as HM by reflexivity. lia.
Qed.

(** The values of a record are within their widths. *)
Definition record_fits (r : JournalRecord) : Prop :=
  fits W64 (jr_seq r) /\ fits W64 (jr_fence r) /\ RecordKind_ok (jr_kind r)
  /\ fits W64 (jr_capture_seq r) /\ fits W64 (jr_sync_covered_through r)
  /\ fits W64 (jr_post_state_checksum r) /\ option_ok MigrationSource_ok (jr_migrated_from r)
  /\ fits W32 (vc_pages (jr_config r)) /\ Forall ObjectRef_ok (jr_files r).
(** The files in a payload, without any check. *)
Definition payload_files : dec (list ObjectRef) :=
  let* _ := Dec_u16 in let* _ := Dec_u32 in let* _ := Dec_u64 in let* _ := Dec_u64 in let* _ := Dec_u64 in
  let* _ := decode_kind in let* _ := Dec_u64 in let* _ := Dec_u64 in let* _ := Dec_u64 in let* _ := decode_source in
  let* _ := Dec_u8 in let* _ := Dec_u32 in let* _ := Dec_u8 in
  let* file_count := Dec_u32 in dec_repeat (Z.to_nat file_count) ObjectRef_decode_from.
Lemma payload_files_reads r volume : fits W64 volume -> record_fits r -> len (jr_files r) < W32 ->
  reads payload_files (JournalRecord_payload r volume) (jr_files r).
Proof using PL.
  intros Hv (F1 & F2 & F3 & F4 & F5 & F6 & F7 & F8 & F9) Hl. pose proof page_size_bounds as Hps.
  assert (fits W16 8) as H8 by now vm_compute.
  assert (fits W8 2) as H2 by now vm_compute.
  assert (fits W32 page_size) as Hpf by (unfold fits; lia).
  rewrite JournalRecord_payload_eq. assert (fits W32 (len (jr_files r))) by (split; [apply len_nonneg|exact Hl]).
  pose proof (len_to_nat (jr_files r)). unfold payload_files. reads_tac.
Qed.
Lemma frame_bytes_inj magic a b : frame_bytes magic a = frame_bytes magic b -> a = b.
Proof using Type.
  unfold frame_bytes. intros H. apply (f_equal (drop 12)) in H.
  rewrite !app_assoc, !drop_app_length' in H by (rewrite !length_app, !length_to_le; reflexivity). exact H.
Qed.
(** The list of files is checked on the way in and not on the way out. *)
Lemma incomplete_refused {E} volume r bs r' : fits W64 volume -> record_fits r -> ~ whole_batches (jr_files r) ->
  JournalRecord_encode (E := E) r volume = Ok bs -> JournalRecord_decode volume bs <> Ok r'
  /\ exists e, JournalRecord_decode_migration_state volume bs = Err e.
Proof using CL PL.
  intros Hv Hr Hw He. unfold JournalRecord_encode in He.
  destruct (VolumeConfig_valid (jr_config r)); [|discriminate]. destruct (negb _ || _); [|discriminate].
  destruct (page_size <? W32); [|discriminate]. destruct (Z.ltb_spec (len (jr_files r)) W32) as [Hl|]; [|discriminate].
  apply seal_frame_inv in He as [Hp ->]. split.
  - intros Hd. assert (all_bytes (JournalRecord_payload r volume)) as Hb
      by (rewrite JournalRecord_payload_eq; repeat apply all_bytes_app_2; auto with bytes).
    destruct (format_canonical (ExactFormat := JournalRecord_format volume Hv) _ _ (frame_bytes_bytes _ _ Hb) Hd) as [(Hf & _ & Hlen) Henc].
    rewrite JournalRecord_encode_eq in Henc by assumption.
    destruct Hf as (F1 & F2 & F3 & F4 & F5 & F6 & F7 & F8 & F9 & F10 & _ & _ & Hval).
    pose proof (payload_files_reads r' volume Hv ltac:(unfold record_fits; tauto) F10 []) as R'.
    pose proof (payload_files_reads r volume Hv Hr Hl []) as R. clear Hp Hb Hd Hlen.
    revert Henc R R'. generalize (JournalRecord_payload r volume) (JournalRecord_payload r' volume). intros p p' Henc R R'.
    assert (forall x y : bytes, @Ok DecodeError bytes x = Ok y -> x = y) as Hinj by (intros; congruence). apply Hinj, frame_bytes_inj in Henc as ->.
    rewrite R in R'. injection R' as R'.
    apply Hw. rewrite R'. exact (validated_whole _ _ Hval).
  - rewrite <- (firstn_all (frame_bytes _ _)). now apply not_migration_form.
Qed.
End Forms.

Section Crash.
Context `{CL : CrcLaws} `{LL : Lz4Laws} `{PL : PageSizeLaws}.
Hypothesis small_pages : page_size <= 16 * 1024 * 1024.
Variables (volume fence : Z) (config : VolumeConfig).
Hypothesis volume_fits : fits W64 volume.
Hypothesis fence_fits : fits W64 fence.
Hypothesis config_valid : VolumeConfig_valid config = true.
Hypothesis config_fits : fits W32 (vc_pages config).
Abbreviation page_key p := (BlockKey_from_page (vc_kind config) p).
Abbreviation identity_of := (identity_of volume fence).
Abbreviation rows f := (local_file volume fence f).2.
Abbreviation LocalInv := (LocalInv volume fence config).
Abbreviation core_ok := (core_ok volume fence config).
Abbreviation files_ok := (files_ok volume fence config).
Abbreviation volume_ok := (volume_ok fence config).
Abbreviation entry_of := (entry_of config).
Abbreviation newest_in := (newest_in config).
Abbreviation placed := (placed volume fence config).
Abbreviation batch_ok := (batch_ok volume fence config).
Abbreviation running_ok := (running_ok fence config).
Abbreviation reads_page := (reads_page volume config).
Abbreviation all_written := (all_written volume fence).
Implicit Types (h : LocalHost) (v : VolumeState) (ws kept : list Written) (r : JournalRecord) (f : File).

Abbreviation record_ok := (record_ok volume fence config).
Abbreviation record_name := (record_name volume).
Abbreviation record_bytes := (record_bytes volume).
Abbreviation saved_ok := (saved_ok volume fence config).
Abbreviation restorable := (restorable volume fence config).

(** ** Torn records *)
Lemma torn_undecodable r n : record_ok r -> (n < length (record_bytes r))%nat -> undecodable volume (take n (record_bytes r)).
Proof using CL PL volume_fits.
  intros R Hn. destruct (rk_ok _ _ _ _ R) as (Hf & Hidx & Hl). set (p := JournalRecord_payload r volume) in *.
  pose proof (whole_bytes (WholeCodec := JournalRecord_codec volume volume_fits) r (conj Hf Hidx)) as Hb. fold p in Hb.
  split; [|now apply not_migration_form]. unfold JournalRecord_decode. erewrite frame_rejects_truncation; [reflexivity|exact Hb|apply seal_frame_Ok; exact Hl|exact Hn].
Qed.

(** ** The device after a crash *)
Lemma saved_same device device' r kept saved : saved_ok device r kept saved ->
  (forall f, In f (all_files kept) -> device' !! blx_blob volume fence (file_id f) = device !! blx_blob volume fence (file_id f)) ->
  saved_ok device' r kept saved.
Proof. intros [S1 S2 S3 S4 S5 S6 S7 S8] Hd. split; auto. intros f Hf. unfold on_device. rewrite Hd by exact Hf. now apply S6. Qed.
Lemma known_blob r b q name bs : known_name volume fence config r b q name bs -> b < W64 -> q < W64 -> blob_ok volume fence config r name bs.
Proof.
  intros [(r' & R & Ho & Hs & Hn & ->)|(id & -> & Hid)] Hb Hq; [eapply blob_record; eauto; lia|]. eapply blob_file; [reflexivity|lia|lia].
Qed.
Lemma blob_newer r rb name bs : older r rb -> blob_ok volume fence config r name bs -> blob_ok volume fence config rb name bs.
Proof.
  intros Hnew [r' R Ho Hs Hn ->|q Hq Hs Hn Hu|id Hn H0 H1]; [|eapply blob_torn; eauto|eapply blob_file; eauto].
  eapply blob_record; eauto. right. unfold older in *. destruct Ho as [->|Ho]; lia.
Qed.
Lemma core_kept_ids h s kept r ws b q f : core_ok h s kept r ws b q -> (forall f, In f (all_files kept) -> In f (all_files ws)) ->
  In f (all_files kept) -> file_id f < b.
Proof. intros K Hsub Hf. apply (fi_content _ _ _ _ _ _ _ (cr_files _ _ _ _ _ _ _ _ _ _ K) f). now apply Hsub. Qed.
(** Nothing but a file that is not yet named is in flight. *)
Lemma restorable_quiet h s kept r ws b q device : core_ok h s kept r ws b q -> (forall f, In f (all_files kept) -> In f (all_files ws)) ->
  (forall name, device !! name = lh_device h !! name \/ exists id bs, name = blx_blob volume fence id /\ 0 <= id /\ b <= id /\ id + 1 < W64 /\ device !! name = Some bs) ->
  restorable device r kept (sh_saved s).
Proof using volume_fits fence_fits.
  intros K Hsub Hd. pose proof (cr_saved _ _ _ _ _ _ _ _ _ _ K) as S. pose proof (so_record _ _ _ _ _ _ _ S) as R. destruct (cr_device _ _ _ _ _ _ _ _ _ _ K) as [D1 D2].
  destruct (cr_limits _ _ _ _ _ _ _ _ _ _ K) as [Lb Lq]. pose proof (so_written _ _ _ _ _ _ _ S) as A. split.
  - apply (saved_same (lh_device h)); [exact S|]. intros f Hf. destruct (Hd (blx_blob volume fence (file_id f))) as [H|(id & bs & He & H0 & Hb & H1 & _)]; [exact H|].
    apply blx_name_inj in He; [|exact volume_fits|exact fence_fits|eapply files_fit; eauto|unfold fits; lia]. pose proof (core_kept_ids _ _ _ _ _ _ _ f K Hsub Hf). lia.
  - exists (journal_blob volume (jr_fence r) (jr_seq r)). assert (record_name r (journal_blob volume (jr_fence r) (jr_seq r))) as Hn by now left. split; [exact Hn|].
    destruct (Hd (journal_blob volume (jr_fence r) (jr_seq r))) as [->|(id & bs & He & H0 & Hb & H1 & _)]; [now apply D1|].
    apply (record_name_parse volume fence config volume_fits fence_fits r _ R) in Hn. rewrite He, parse_blx in Hn by (auto; unfold fits; lia). discriminate.
  - intros name bs Hname. destruct (Hd name) as [H|(id & bs' & -> & H0 & Hb & H1 & _)]; [|eapply blob_file; eauto].
    rewrite H in Hname. eapply known_blob; eauto.
Qed.
Lemma running_sub kept w k f : In f (all_files kept) -> In f (all_files (kept ++ [part w k])).
Proof. intros Hf. rewrite all_files_app, in_app_iff. now left. Qed.
Lemma crash_files h s kept r ru rest w k device : lh_capture h = Capture_files ru rest -> rest = drop k (ru_files ru) -> (k < length (w_files w))%nat ->
  running volume fence config h s kept r ru w k -> crash_image volume h device -> restorable device r kept (sh_saved s).
Proof using volume_fits fence_fits.
  intros Hc Hr Hk (K & B & O & _) Hd. eapply restorable_quiet; [exact K|apply running_sub|]. intros name. destruct (Hd name) as [H|(bs & n & Hin & H)]; [now left|right].
  unfold in_flight in Hin. rewrite Hc, Hr, (bk_files _ _ _ _ _ _ _ _ B) in Hin. destruct (lookup_lt_is_Some_2 _ _ Hk) as [f Hf].
  rewrite <- fmap_drop, (drop_S _ _ _ Hf) in Hin. destruct Hin as [[= <- <-]|[]]. pose proof (bk_ids _ _ _ _ _ _ _ _ B k f Hf) as Hid.
  pose proof (ro_first _ _ _ _ _ _ O). pose proof (ro_room _ _ _ _ _ _ O). pose proof (bk_count _ _ _ _ _ _ _ _ B) as Hcount. unfold len in Hcount.
  exists (file_id f), (take n (bo_bytes f.1)). unfold file_name. rewrite (ro_fence _ _ _ _ _ _ O). split; [reflexivity|]. split; [lia|]. split; [lia|]. split; [lia|]. unfold file_name in H. now rewrite (ro_fence _ _ _ _ _ _ O) in H.
Qed.
(** The record is in flight: a complete copy counts, a torn one does not. *)
Lemma crash_record h s kept r ru record w device : lh_capture h = Capture_record ru record (record_bytes record) ->
  running volume fence config h s kept r ru w (length (w_files w)) ->
  saved_ok (lh_device h) record (List.filter (w_needed volume fence (lh_volume h)) (kept ++ [w])) (sh_captured s) ->
  jr_seq record = cut_seq (ru_cut ru) -> jr_capture_seq record = cut_capture_seq (ru_cut ru) -> crash_image volume h device ->
  restorable device r kept (sh_saved s)
  \/ restorable device record (List.filter (w_needed volume fence (lh_volume h)) (kept ++ [w])) (sh_captured s).
Proof using CL PL volume_fits fence_fits.
  intros Hc (K & B & O & _) S' Hseq Hcap Hd. pose proof (cr_saved _ _ _ _ _ _ _ _ _ _ K) as S. pose proof (so_record _ _ _ _ _ _ _ S) as R. pose proof (so_record _ _ _ _ _ _ _ S') as R'.
  pose proof (cr_seq _ _ _ _ _ _ _ _ _ _ K) as Hr. pose proof (ro_seq _ _ _ _ _ _ O) as Hq. pose proof (ro_capture _ _ _ _ _ _ O) as Hm. pose proof (vk_seq _ _ _ (cr_volume _ _ _ _ _ _ _ _ _ _ K)) as Hn. unfold fits in Hn.
  destruct (cr_device _ _ _ _ _ _ _ _ _ _ K) as [D1 D2]. destruct (cr_limits _ _ _ _ _ _ _ _ _ _ K) as [Lb Lq].
  assert (older r record) as Hold by (unfold older; lia).
  assert (forall name, device !! name = lh_device h !! name \/ record_name record name /\ exists n, device !! name = Some (take n (record_bytes record))) as Hx.
  { intros name. destruct (Hd name) as [H|(bs & n & Hin & H)]; [now left|right]. unfold in_flight in Hin. rewrite Hc in Hin.
    destruct Hin as [[= <- <-]|[[= <- <-]|[]]]; (split; [|eauto]); [now left|now right]. }
  assert (forall name parsed, parse_blob name = Some parsed -> parsed <> Blob_Journal volume fence (jr_seq record) -> device !! name = lh_device h !! name) as Hsame.
  { intros name parsed Hp Hne. destruct (Hx name) as [H|[H _]]; [exact H|]. apply (record_name_parse volume fence config volume_fits fence_fits record _ R') in H. congruence. }
  assert (forall f, fits W64 (file_id f) -> device !! blx_blob volume fence (file_id f) = lh_device h !! blx_blob volume fence (file_id f)) as Hblx.
  { intros f Hf. eapply Hsame; [now apply parse_blx|discriminate]. }
  assert (forall name bs, lh_device h !! name = Some bs -> blob_ok volume fence config r name bs) as Hknown by (intros name bs Hname; eapply known_blob; eauto).
  destruct (decide (device !! (record_names volume record).1 = Some (record_bytes record) \/ device !! (record_names volume record).2 = Some (record_bytes record))) as [Hfull|Htorn].
  - right. split.
    + apply (saved_same (lh_device h)); [exact S'|]. intros f Hf. apply Hblx. eapply files_fit; [apply S'|exact Hf].
    + destruct Hfull as [H|H]; eexists; (split; [|exact H]); [now left|now right].
    + intros name bs Hname. destruct (Hx name) as [H|[Hrn [n H]]]; rewrite H in Hname; [apply (blob_newer r); auto|]. injection Hname as <-.
      destruct (decide (n < length (record_bytes record))%nat) as [Hlt|Hge].
      * eapply (blob_torn _ _ _ _ _ _ (jr_seq record)); [lia|lia|unfold LocalInvariant.record_name in Hrn; now rewrite (rk_fence _ _ _ _ R') in Hrn|]. now apply torn_undecodable.
      * rewrite take_ge by lia. apply (blob_record _ _ _ _ _ _ record); [exact R'|now left|lia|exact Hrn|reflexivity].
  - left. split.
    + apply (saved_same (lh_device h)); [exact S|]. intros f Hf. apply Hblx. eapply files_fit; [apply S|exact Hf].
    + exists (journal_blob volume (jr_fence r) (jr_seq r)). assert (record_name r (journal_blob volume (jr_fence r) (jr_seq r))) as Hrn by now left. split; [exact Hrn|].
      erewrite Hsame; [now apply D1|exact (record_name_parse volume fence config volume_fits fence_fits r _ R Hrn)|]. intros [=]. lia.
    + intros name bs Hname. destruct (Hx name) as [H|[Hrn [n H]]]; [apply Hknown; congruence|].
      assert (n < length (record_bytes record))%nat as Hlt.
      { destruct (decide (n < length (record_bytes record))%nat) as [|Hge]; [assumption|]. rewrite take_ge in H by lia. destruct Htorn. destruct Hrn as [->| ->]; [now left|now right]. }
      rewrite H in Hname. injection Hname as <-. eapply (blob_torn _ _ _ _ _ _ (jr_seq record)); [lia|lia|unfold LocalInvariant.record_name in Hrn; now rewrite (rk_fence _ _ _ _ R') in Hrn|]. now apply torn_undecodable.
Qed.
(** The record a restart of [h] may find, with the pages it saved. *)
Definition recoverable h (s : Shadow) (rb : JournalRecord) (saved : Pages) : Prop :=
  (v_best_record (lh_volume h) = Some rb /\ saved = sh_saved s)
  \/ (exists ru bs, lh_capture h = Capture_record ru rb bs /\ saved = sh_captured s).
Lemma crash_restorable h s device : LocalInv h s -> crash_image volume h device ->
  exists rb kept saved, restorable device rb kept saved /\ recoverable h s rb saved
  /\ v_local_covered_through (lh_volume h) <= jr_capture_seq rb.
Proof using CL LL PL small_pages volume_fits fence_fits.
  intros (kept & r & I) Hd. destruct (lh_capture h) as [|ru rest|ru record bs] eqn:Hc.
  - exists r, kept, (sh_saved s). split; [|split; [left; split; [apply I|reflexivity]|apply I]].
    eapply restorable_quiet; [exact I|auto|]. intros name. destruct (Hd name) as [H|(bs & n & Hin & _)]; [now left|]. unfold in_flight in Hin. now rewrite Hc in Hin.
  - destruct I as (w & k & Hk & Hr & R). pose proof R as (K & _). exists r, kept, (sh_saved s). split; [eapply crash_files; eauto|]. split; [left; split; [apply K|reflexivity]|apply K].
  - destruct I as (w & R & S & -> & Hseq & Hcap). pose proof R as (K & B & O & _).
    destruct (crash_record h s kept r ru record w device Hc R S Hseq Hcap Hd) as [H|H].
    + exists r, kept, (sh_saved s). split; [exact H|]. split; [left; split; [apply K|reflexivity]|apply K].
    + eexists record, _, (sh_captured s). split; [exact H|]. split; [right; eauto|]. pose proof (cr_covered _ _ _ _ _ _ _ _ _ _ K). pose proof (ro_capture _ _ _ _ _ _ O). lia.
Qed.
End Crash.

Section Survival.
Context `{CL : CrcLaws} `{LL : Lz4Laws} `{PL : PageSizeLaws}.
Definition no_pages : Shadow := {| sh_saved := ∅; sh_captured := ∅ |}.

End Survival.

(** ** What a restart may trust *)
Section Trust.
Context `{CL : CrcLaws} `{LL : Lz4Laws} `{PL : PageSizeLaws}.
Implicit Types (device : Device) (r : JournalRecord).

Definition reads_as (volume : Z) (bs : bytes) r : Prop :=
  JournalRecord_decode volume bs = Ok r
  \/ (exists e, JournalRecord_decode volume bs = Err e)
     /\ exists checksums archive, JournalRecord_decode_migration_state volume bs = Ok (r, checksums, archive).
(** A file of the device is a copy of the record, under its name. *)
Definition journal_on device (volume : Z) r : Prop :=
  exists name bs, device !! name = Some bs /\ parse_blob name = Some (Blob_Journal volume (jr_fence r) (jr_seq r))
  /\ reads_as volume bs r.
Definition file_on device (volume : Z) (identity : ObjectIdentity) : Prop :=
  exists name bs fence object, device !! name = Some bs /\ parse_blob name = Some (Blob_Blx volume fence object)
  /\ identity = ObjectIdentity_volume volume fence object.
Record sourced device (volume : Z) (F : Found) : Prop := {
  sr_records r : In r (fo_records F) -> journal_on device volume r;
  sr_files i x : bt_get i (fo_blx_refs F) = Some x -> file_on device volume i }.
(** Collecting adds, from the device. *)
Definition grows device (volume : Z) (F F' : Found) : Prop :=
  (sourced device volume F -> sourced device volume F') /\ forall r, In r (fo_records F) -> In r (fo_records F').
Lemma grows_same device volume F F' : fo_records F' = fo_records F -> fo_blx_refs F' = fo_blx_refs F -> grows device volume F F'.
Proof. intros E1 E2. split; [|intros r; now rewrite E1]. intros [S1 S2]. split; [intros r; rewrite E1; auto|intros i x; rewrite E2; eauto]. Qed.
Lemma grows_trans device volume F F' F'' : grows device volume F F' -> grows device volume F' F'' -> grows device volume F F''.
Proof. intros [A1 A2] [B1 B2]. split; auto. Qed.
Lemma named_record (x y fence seq : Z) : (x =? fence) && (y =? seq) = true <-> x = fence /\ y = seq.
Proof. now rewrite andb_true_iff, !Z.eqb_eq. Qed.
Lemma grow_journal {E} device volume fence seq name bs F F' : device !! name = Some bs -> parse_blob name = Some (Blob_Journal volume fence seq) ->
  collect_journal (E := E) volume fence seq bs F = Ok F' ->
  grows device volume F F' /\ forall r, reads_as volume bs r -> jr_fence r = fence -> jr_seq r = seq -> In r (fo_records F').
Proof.
  intros Hd Hp H. unfold collect_journal in H. apply outcome_bind_Ok in H as (next & _ & H).
  set (F0 := F |> upd fo_journals _ |> upd fo_max_seq _) in H.
  assert (fo_records F0 = fo_records F /\ fo_blx_refs F0 = fo_blx_refs F) as [E1 E2] by (unfold F0; now fields). clearbody F0.
  assert (forall r F1, reads_as volume bs r -> jr_fence r = fence -> jr_seq r = seq -> fo_records F1 = fo_records F ++ [r] ->
    fo_blx_refs F1 = fo_blx_refs F -> grows device volume F F1) as Hadd.
  { intros r F1 Hr <- <- R1 R2. split; [|intros x; rewrite R1, in_app_iff; auto]. intros [S1 S2]. split; [|intros i x; rewrite R2; eauto].
    intros x. rewrite R1, in_app_iff. intros [Hx|[<-|[]]]; [auto|]. exists name, bs. auto. }
  destruct (JournalRecord_decode volume bs) as [r0|e|] eqn:Ed; simpl in H; [| |discriminate].
  - injection H as <-. destruct ((jr_fence r0 =? fence) && (jr_seq r0 =? seq)) eqn:En.
    + apply named_record in En as [<- <-]. split.
      * apply (Hadd r0); [left; exact Ed|reflexivity|reflexivity|fields; now rewrite E1|fields; exact E2].
      * intros r [Hr|[[e He] _]] _ _; [|congruence]. rewrite Ed in Hr. injection Hr as ->. fields. rewrite in_app_iff. simpl. auto.
    + split; [now apply grows_same|]. intros r [Hr|[[e He] _]] Hf Hq; [|congruence]. rewrite Ed in Hr. injection Hr as ->.
      rewrite (proj2 (named_record _ _ _ _) (conj Hf Hq)) in En. discriminate.
  - destruct (JournalRecord_decode_migration_state volume bs) as [[[r0 cs] ar]|e'|] eqn:Em; simpl in H; [| |discriminate].
    + injection H as <-. assert (reads_as volume bs r0) as Hr0 by (right; split; [eauto|do 2 eexists; exact Em]).
      destruct ((jr_fence r0 =? fence) && (jr_seq r0 =? seq)) eqn:En.
      * apply named_record in En as [<- <-]. split.
        -- apply (Hadd r0); [exact Hr0|reflexivity|reflexivity|fields; now rewrite E1|fields; exact E2].
        -- intros r [Hr|[_ (c & a & Hr)]] _ _; [congruence|]. rewrite Em in Hr. injection Hr as -> _ _. fields. rewrite in_app_iff. simpl. auto.
      * split; [now apply grows_same|]. intros r [Hr|[_ (c & a & Hr)]] Hf Hq; [congruence|]. rewrite Em in Hr. injection Hr as -> _ _.
        rewrite (proj2 (named_record _ _ _ _) (conj Hf Hq)) in En. discriminate.
    + injection H as <-. split; [now apply grows_same|]. intros r [Hr|[_ (c & a & Hr)]]; congruence.
Qed.
Lemma grow_file device volume fence object name bs F reference footer : device !! name = Some bs ->
  parse_blob name = Some (Blob_Blx volume fence object) ->
  grows device volume F (note_file (ObjectIdentity_volume volume fence object) reference footer F).
Proof.
  intros Hd Hp. unfold note_file. split; [|intros r; now fields]. intros [S1 S2]. split; fields; [exact S1|].
  intros i x. destruct (decide (i = ObjectIdentity_volume volume fence object)) as [->|Hne].
  - intros _. now exists name, bs, fence, object.
  - rewrite bt_get_insert_ne by exact Hne. apply S2.
Qed.
Lemma grow_tombstones device volume footer i F : grows device volume F (note_tombstones footer i F).
Proof. unfold note_tombstones. destruct (has_tombstone footer); apply grows_same; now fields. Qed.
Lemma grow_note device volume seq i F : grows device volume F (note_record_file seq i F).
Proof. unfold note_record_file. apply grows_same; now fields. Qed.
Lemma grow_blx {E} device volume fence object name bs blob F F' : device !! name = Some bs -> parse_blob name = Some (Blob_Blx volume fence object) ->
  collect_blx (E := E) volume fence object blob F = Ok F' -> grows device volume F F'.
Proof.
  intros Hd Hp H. unfold collect_blx in H. apply outcome_bind_Ok in H as (next & _ & H).
  apply outcome_bind_Ok in H as (header & _ & H). apply outcome_bind_Ok in H as (scanned & _ & H). apply outcome_bind_Ok in H as (blx & _ & H).
  set (F0 := F |> upd fo_max_object_id _ |> upd fo_blx_files _) in H.
  assert (grows device volume F F0) as G0 by (unfold F0; apply grows_same; now fields). clearbody F0.
  set (F1 := match header with Some _ => _ | None => F0 end) in H.
  assert (grows device volume F F1) as G1.
  { unfold F1. destruct header as [[h e]|]; [|exact G0]. destruct (header_names _ _ _ _); [|exact G0]. eapply grows_trans; [exact G0|apply grow_note]. }
  clearbody F1. set (F2 := match scanned with Some _ => _ | None => F1 end) in H.
  assert (grows device volume F F2) as G2.
  { unfold F2. destruct scanned as [[h f]|]; [|exact G1]. eapply grows_trans; [exact G1|apply grow_tombstones]. }
  clearbody F2. destruct blx as [o|]; [|injection H as <-; exact G2]. apply outcome_bind_Ok in H as (ref & _ & [= <-]).
  eapply grows_trans; [exact G2|]. now apply (grow_file _ _ _ _ name bs).
Qed.

(** *** The collection *)
Record collecting device (done : list BlobEntry) (found : BTreeMap Z Found) : Prop := {
  cl_sorted : bt_sorted found;
  cl_sourced : Forall (fun x => sourced device x.1 x.2) found;
  cl_journals volume fence seq blob r : In blob done -> parse_blob (be_name blob) = Some (Blob_Journal volume fence seq) ->
    reads_as volume (be_bytes blob) r -> jr_fence r = fence -> jr_seq r = seq ->
    exists F, bt_get volume found = Some F /\ In r (fo_records F) }.
Lemma sourced_default device volume : sourced device volume Found_default.
Proof. split; [intros r []|discriminate]. Qed.
Lemma collecting_at {E} device done blob found volume (g : Found -> outcome E Found) found' : collecting device done found ->
  at_volume volume g found = Ok found' -> (forall F F', g F = Ok F' -> grows device volume F F') ->
  (forall fence seq r F F', parse_blob (be_name blob) = Some (Blob_Journal volume fence seq) -> reads_as volume (be_bytes blob) r ->
     jr_fence r = fence -> jr_seq r = seq -> g F = Ok F' -> In r (fo_records F')) ->
  (forall volume' fence seq, parse_blob (be_name blob) = Some (Blob_Journal volume' fence seq) -> volume' = volume) ->
  collecting device (done ++ [blob]) found'.
Proof.
  intros [C0 C1 C2] H Hg Hj Hv. unfold at_volume in H. apply outcome_bind_Ok in H as (F' & HF & [= <-]).
  set (F := default Found_default (bt_get volume found)) in *. destruct (Hg F F' HF) as [Hs Hr]. split; [now apply bt_insert_sorted|..].
  - apply bt_insert_all; [|exact C1]. apply Hs. unfold F. destruct (bt_get volume found) as [F0|] eqn:EF; [|apply sourced_default].
    apply bt_get_In in EF. rewrite List.Forall_forall in C1. exact (C1 _ EF).
  - intros v fence seq b r [Hb|[<-|[]]]%in_app_iff Hp Hrd Hf Hq.
    + destruct (C2 v fence seq b r Hb Hp Hrd Hf Hq) as (F1 & HF1 & Hin). destruct (decide (v = volume)) as [->|Hne].
      * rewrite bt_get_insert_eq. exists F'. split; [reflexivity|]. apply Hr. unfold F. now rewrite HF1.
      * rewrite bt_get_insert_ne by exact Hne. eauto.
    + pose proof (Hv _ _ _ Hp) as ->. rewrite bt_get_insert_eq. eauto.
Qed.
Lemma collecting_skip device done blob found : collecting device done found ->
  (forall volume fence seq, parse_blob (be_name blob) <> Some (Blob_Journal volume fence seq)) -> collecting device (done ++ [blob]) found.
Proof.
  intros [C0 C1 C2] Hn. split; [exact C0|exact C1|]. intros v fence seq b r [Hb|[<-|[]]]%in_app_iff Hp; [eauto|]. now destruct (Hn v fence seq).
Qed.
Lemma collecting_again device done blob found : collecting device (done ++ [blob; blob]) found -> collecting device (done ++ [blob]) found.
Proof.
  intros [C0 C1 C2]. split; [exact C0|exact C1|]. intros v fence seq b r Hb. apply C2. rewrite in_app_iff in *. simpl in *. tauto.
Qed.
Lemma collect_step_sound {E} device done found blob found' : collecting device done found -> scanned device blob ->
  collect_step (E := E) device found blob = Ok found' -> collecting device (done ++ [blob]) found'.
Proof.
  intros Hc (bs & parsed & Hd & Hp & Hl & Hb) H. unfold collect_step, is_spool in H. rewrite Hp in H.
  destruct parsed as [volume fence seq|volume fence object|volume|s v e g].
  - apply outcome_bind_Ok in H as (found1 & H1 & H). assert (found' = found1) as -> by (destruct (be_bytes blob); congruence).
    unfold collect_blob in H1. rewrite Hp in H1. simpl in H1. apply (collecting_at device done blob found volume _ _ Hc H1).
    + intros F F' HF. unfold collect_named in HF. simpl in Hb. rewrite Hb in HF. destruct (grow_journal _ _ _ _ _ _ _ _ Hd Hp HF) as [HG _].
      eapply grows_trans; [|exact HG]. apply grows_same; now fields.
    + intros f q r F F' Hp' Hr Hf Hq HF. rewrite Hp in Hp'. injection Hp' as <- <-. unfold collect_named in HF. simpl in Hb. rewrite Hb in HF, Hr.
      exact (proj2 (grow_journal _ _ _ _ _ _ _ _ Hd Hp HF) r Hr Hf Hq).
    + intros v' f q Hp'. rewrite Hp in Hp'. now injection Hp' as <- _ _.
  - apply outcome_bind_Ok in H as (found1 & H1 & H). unfold collect_blob in H1. rewrite Hp in H1. simpl in H1, Hb. rewrite Hb in H.
    assert (collecting device (done ++ [blob]) found1) as Hc1.
    { apply (collecting_at device done blob found volume _ _ Hc H1); [|intros f q r F F' Hp'; congruence|intros v' f q Hp'; congruence].
      intros F F' HF. unfold collect_named in HF. eapply grows_trans; [|exact (grow_blx _ _ _ _ _ _ _ _ _ Hd Hp HF)]. apply grows_same; now fields. }
    unfold collect_blx_metadata in H. apply outcome_bind_Ok in H as (metadata & _ & H). destruct metadata as [[[header footer] reference]|]; [|injection H as <-; exact Hc1].
    apply collecting_again. change [blob; blob] with ([blob] ++ [blob]). rewrite app_assoc.
    apply (collecting_at device (done ++ [blob]) blob found1 volume _ _ Hc1 H); [|intros f q r F F' Hp'; congruence|intros v' f q Hp'; congruence].
    intros F F' [= <-]. eapply grows_trans; [apply grow_note|]. eapply grows_trans; [apply grow_tombstones|]. now apply (grow_file _ _ _ _ (be_name blob) bs).
  - apply outcome_bind_Ok in H as (found1 & H1 & H). assert (found' = found1) as -> by (destruct (be_bytes blob); congruence).
    unfold collect_blob in H1. rewrite Hp in H1. simpl in H1.
    apply (collecting_at device done blob found volume _ _ Hc H1); [|intros f q r F F' Hp'; congruence|intros v' f q Hp'; congruence].
    intros F F' HF. unfold collect_named in HF. apply outcome_bind_Ok in HF as (handoff & _ & [= <-]). apply grows_same; now fields.
  - injection H as <-. apply collecting_skip; [exact Hc|]. intros v' f q Hp'. congruence.
Qed.
Lemma collect_fold_sound {E} device l : forall done found found', collecting device done found -> Forall (scanned device) l ->
  fold_outcome (collect_step (E := E) device) found l = Ok found' -> collecting device (done ++ l) found'.
Proof.
  induction l as [|blob l IH]; intros done found found' Hc Hl H; simpl in H; [injection H as <-; now rewrite app_nil_r|].
  apply Forall_cons_1 in Hl as [Hb Hl]. apply outcome_bind_Ok in H as (f1 & H1 & H). 
  replace (done ++ blob :: l) with ((done ++ [blob]) ++ l) by now rewrite <- app_assoc.
  apply (IH _ f1); [|exact Hl|exact H]. eapply collect_step_sound; eauto.
Qed.
Lemma max_by_key_In {A K} `{RustOrd K} (key : A -> K) l x : max_by_key key l = Some x -> In x l.
Proof.
  unfold max_by_key. assert (forall best, fold_left (fun best x => match best with
    | Some b => if cmp_leb (key b) (key x) then Some x else Some b | None => Some x end) l best = Some x -> best = Some x \/ In x l) as Hf.
  { induction l as [|y l IH]; intros best Hb; simpl in *; [now left|]. apply IH in Hb as [Hb|]; [|auto].
    destruct best as [b|]; [|injection Hb as ->; auto]. destruct (cmp_leb _ _); injection Hb as ->; auto. }
  intros Hx. now destruct (Hf None Hx).
Qed.
Lemma max_or_zero_ge l x : In x l -> x <= max_or_zero l.
Proof.
  unfold max_or_zero. assert (forall k a b, a <= b -> a <= fold_left Z.max k b) as Hm.
  { induction k as [|y k IH]; intros a b Hab; simpl; [exact Hab|]. apply IH. lia. }
  generalize 0. induction l as [|y l IH]; intros b; simpl; [easy|]. intros [->|Hx]; [apply Hm; lia|now apply IH].
Qed.
Lemma recovered_record volume F v verdict : recover_volume volume F = Some (v, verdict) -> exists rb, v_best_record v = Some rb
  /\ In rb (fo_records F) /\ record_usable F volume rb = true /\ durability_watermark F <= jr_capture_seq rb.
Proof.
  unfold recover_volume. destruct (max_by_key record_rank _) as [rb|] eqn:Hm; [|discriminate]. cbn [option_bind].
  apply max_by_key_In, filter_In in Hm as [Hin Hu]. intros H. exists rb. cbn [mbind option_bind] in H.
  destruct (Z.ltb_spec (jr_capture_seq rb) (durability_watermark F)); [discriminate|].
  destruct (match bt_get (jr_fence rb, jr_seq rb) (fo_migration_checksums F) with Some _ => _ | None => _ end) as [bc ms].
  match type of H with (if ?b then _ else _) = _ => destruct b; [discriminate|] end. injection H as <- _.
  split; [fields; reflexivity|]. auto.
Qed.
Lemma restart_found_sound {E} device results volume v verdict : restart (E := E) device = Ok results ->
  In (volume, Some (v, verdict)) results -> exists F, recover_volume volume F = Some (v, verdict) /\ sourced device volume F
  /\ forall r, journal_on device volume r -> In r (fo_records F).
Proof.
  intros H Hin. unfold restart, recover_local in H. apply outcome_bind_Ok in H as (found & Hf & [= <-]).
  assert (collecting device [] []) as H0 by (split; [constructor|constructor|intros ? ? ? ? ? []]).
  apply (collect_fold_sound device _ [] [] found H0) in Hf as [C0 C1 C2].
  2:{ apply List.Forall_forall. intros blob Hb%In_sort_by. now apply scan_In. }
  apply in_map_iff in Hin as ([vol F] & [= -> Hr] & Hin). exists F. split; [exact Hr|].
  rewrite List.Forall_forall in C1. split; [exact (C1 _ Hin)|]. intros r (name & bs & Hd & Hp & Hrd).
  destruct (C2 volume (jr_fence r) (jr_seq r) {| be_name := name; be_bytes := bs; be_len := len bs |} r) as (F' & HF' & HinF); auto.
  - apply In_sort_by. exact (scan_complete device name bs _ Hd Hp).
  - apply In_bt_get in Hin; [|exact C0]. congruence.
Qed.
Lemma reads_fields volume bs r : fits W64 volume -> all_bytes bs -> reads_as volume bs r -> JournalRecord_fields r.
Proof using CL PL.
  intros Hv Hb [H|(_ & c & a & H)]; [apply (format_canonical (ExactFormat := JournalRecord_format volume Hv) bs r Hb H)|].
  now apply (decode_migration_sound volume bs r c a) in H as [? _].
Qed.

(** C31. A restart trusts only whole records. Whatever bytes are on the device:
    if a restart hands out a volume, then the record it hands it out with is
    on the device under its own name and decodes; it names its batches whole,
    with every chunk of each, once; and each of its files is of this volume and
    is on the device, unless the volume was migrated here and the file is of an
    earlier writer. And no sync is forgotten: the record reaches at least as far
    as any sync that any other record on the device, whole or not, claims to
    cover, if that is not beyond its own capture. *)
Theorem restart_trusts_whole_records {E} device results volume v verdict : fits W64 volume ->
  (forall name bs, device !! name = Some bs -> all_bytes bs) -> restart (E := E) device = Ok results ->
  In (volume, Some (v, verdict)) results ->
  exists rb, v_best_record v = Some rb /\ journal_on device volume rb /\ whole_batches (jr_files rb)
  /\ (forall o, In o (jr_files rb) -> oi_namespace_kind (or_identity o) = Namespace_Volume /\ oi_namespace_id (or_identity o) = volume
      /\ (file_on device volume (or_identity o)
          \/ jr_migrated_from rb <> None /\ oi_writer_fence (or_identity o) < jr_fence rb))
  /\ (forall r, journal_on device volume r -> jr_sync_covered_through r <= jr_capture_seq r ->
      jr_sync_covered_through r <= jr_capture_seq rb).
Proof using CL PL.
  intros Hv Hby H Hin. destruct (restart_found_sound device results volume v verdict H Hin) as (F & Hr & [S1 S2] & Hall).
  destruct (recovered_record volume F v verdict Hr) as (rb & Hb & Hrb & Hu & Hw). exists rb. split; [exact Hb|].
  pose proof (S1 rb Hrb) as Hj. split; [exact Hj|]. destruct Hj as (name & bs & Hd & _ & Hrd).
  destruct (reads_fields volume bs rb Hv (Hby name bs Hd) Hrd) as (_ & _ & _ & _ & _ & _ & _ & _ & _ & _ & _ & _ & Hval).
  split; [exact (validated_whole _ _ Hval)|]. split.
  - intros o Ho. unfold record_usable in Hu. destruct (jr_files rb) as [|o0 os]; [easy|]. rewrite forallb_forall in Hu. specialize (Hu o Ho).
    unfold file_usable, is_volume_file in Hu. rewrite !andb_true_iff, bool_decide_eq_true, Z.eqb_eq, orb_true_iff in Hu. destruct Hu as [[H1 H2] H3].
    split; [exact H1|]. split; [exact H2|]. destruct H3 as [H3|H3].
    + left. destruct (bt_get _ _) as [x|] eqn:Ex; [|discriminate]. exact (S2 _ x Ex).
    + right. apply andb_prop in H3 as [H3 H4]. apply bool_decide_eq_true in H3. apply Z.ltb_lt in H4. split; [|exact H4]. destruct H3 as [? ->]. discriminate.
  - intros r Hjr Hle. etransitivity; [|exact Hw]. unfold durability_watermark. apply max_or_zero_ge, in_map, filter_In.
    split; [now apply Hall|now apply Z.leb_le].
Qed.

(** C32. An incomplete batch loses the volume. A capture names in its record every
    local file of the batches it needs. When these are not whole batches, because
    a capture was given up or interrupted after some of its files and its batch
    stayed in the index or was begun again under the same number, the record is
    written without complaint and cannot be read back in either form; and once
    the records of the volume on a device are copies of it, no restart of the
    device hands the volume out. *)
Theorem incomplete_batch_loses_volume {E} volume v migration cut checkpoint post blocks bs :
  let record := capture_journal migration v cut checkpoint post in
  fits W64 volume -> v_peer_source v = None -> record_fits record -> ~ whole_batches (recovery_files v) ->
  write_record_copies (E := E) volume v record blocks = Ok bs ->
  (forall r, ~ reads_as volume bs r)
  /\ forall device results x,
       (forall name bs' fence seq, device !! name = Some bs' -> parse_blob name = Some (Blob_Journal volume fence seq) -> bs' = bs) ->
       restart (E := E) device = Ok results -> ~ In (volume, Some x) results.
Proof using CL PL.
  intros record Hv Hs Hr Hw H. unfold write_record_copies in H. assert (jr_migrated_from record = None) as Hm by (unfold record, capture_journal; cbn; now rewrite Hs).
  rewrite Hm in H. assert (forall r, ~ reads_as volume bs r) as Hno.
  { intros r [Hd|(_ & c & a & Hd)]; destruct (incomplete_refused volume record bs r Hv Hr Hw H) as [H1 [e H2]]; congruence. }
  split; [exact Hno|]. intros device results [v' verdict] Hall Hres Hin.
  destruct (restart_found_sound device results volume v' verdict Hres Hin) as (F & HF & [S1 _] & _).
  destruct (recovered_record volume F v' verdict HF) as (rb & _ & Hrb & _). destruct (S1 rb Hrb) as (name & bs' & Hd & Hp & Hrd).
  rewrite (Hall name bs' _ _ Hd Hp) in Hrd. exact (Hno rb Hrd).
Qed.

(** Files are on the device under the names the host gives them. *)
Definition named_files (device : Device) : Prop := forall name volume fence object, is_Some (device !! name) ->
  parse_blob name = Some (Blob_Blx volume fence object) -> name = blx_blob volume fence object.
Lemma journal_on_delete device volume name fence object r : parse_blob name = Some (Blob_Blx volume fence object) ->
  journal_on device volume r -> journal_on (delete name device) volume r.
Proof. intros Hn (m & bs & Hd & Hp & Hr). exists m, bs. rewrite lookup_delete_ne; [auto|]. intros ->. congruence. Qed.
Lemma reclaimed_gone device volume identity : named_files device -> ~ file_on (delete (identity_blob volume identity) device) volume identity.
Proof.
  intros Hn (name & bs & fence & object & Hd & Hp & ->). apply lookup_delete_Some in Hd as [Hne Hd].
  apply Hne. symmetry. apply (Hn name volume fence object); [now exists bs|exact Hp].
Qed.
Lemma reclaim_one_device volume h identity h' : reclaim_one volume h = Some (identity, h') ->
  lh_device h' = delete (identity_blob volume identity) (lh_device h).
Proof. unfold reclaim_one. destruct (reclaim_candidate (lh_volume h)); [|discriminate]. intros [= <- <-]. now fields. Qed.

End Trust.
