(* ===== verification/CaptureExamples.v ===== *)
(** * Captured pages and journal records, computed

    The theorems of [PageFile] and [JournalFormat] at concrete values. *)

From S2P Require Import Prelude Format Crc32c Types OrdMap Head Blx BlxFile Lz4Block.
From S2P Require Import BlxBatch BlxScan BlxExamples Manifest ManifestCodec ManifestClosure.
From S2P Require Import PageFile Journal JournalFormat.

#[local] Existing Instance page_4096.
#[local] Existing Instance page_4096_laws.

Definition example_batch : PageBatchBuilder :=
  {| pb_kind := VolumeKind_Data; pb_volume := 7; pb_fence := 3; pb_builder := example_builder |}.
Definition example_page_id : PageId := {| pid_volume := 7; pid_page := 5 |}.
Lemma example_batch_ok : PageBatch_ok example_batch.
Proof. split; [exact example_builder_ok|auto]. Qed.

Lemma example_batch_finish :
  exists files, @PageBatchBuilder_finish _ _ _ DecodeError example_batch = Ok files.
Proof.
  destruct example_finish as (objects & Ho & _). eexists.
  unfold PageBatchBuilder_finish, example_batch. cbn [pb_builder]. rewrite Ho. reflexivity.
Qed.

Lemma captured_pages_readable_witness :
  exists files, @PageBatchBuilder_finish _ _ _ DecodeError example_batch = Ok files
    /\ forall id bs entries, In (id, bs, entries) files ->
         scan_page_file bs = Ok (7, 3, id, entries).
Proof.
  destruct example_batch_finish as [files Hf]. exists files. split; [exact Hf|].
  intros id bs entries Hin.
  apply (proj1 (captured_pages_readable pages_4096_small example_batch files example_batch_ok Hf) _ _ _ Hin).
Defined.
Lemma try_add_reports_overflow_witness :
  exists b' result,
    @PageBatchBuilder_try_add _ _ DecodeError example_batch example_page_id 9 example_page
      = Ok (b', result)
    /\ PageBatch_ok b'.
Proof.
  destruct (try_add_reports_overflow pages_4096_small example_batch example_page_id 9 example_page)
    as (b' & result & H & Hok & _); [exact example_batch_ok|reflexivity|..|exists b', result; auto].
  - split; vm_compute; congruence.
  - split; vm_compute; congruence.
  - apply example_bytes. vm_compute. reflexivity.
  - vm_compute. reflexivity.
  - vm_compute. reflexivity.
Defined.
Lemma JournalRecord_exact_witness :
  ExactFormat (fun r => @JournalRecord_encode _ _ DecodeError r 7)
    (JournalRecord_decode 7) (fun r => JournalRecord_ok r 7).
Proof. apply (JournalRecord_exact 7). split; vm_compute; congruence. Defined.

(** A record that migrates one page and one block checksum. *)
Definition example_record : JournalRecord :=
  {| jr_config := {| vc_kind := VolumeKind_Data; vc_pages := 64 |};
     jr_seq := 2; jr_fence := 3; jr_kind := Kind_Commit; jr_capture_seq := 2;
     jr_sync_covered_through := 2; jr_post_state_checksum := 9; jr_files := [];
     jr_runtime_page_index :=
       [(example_page_id, (4, {| pl_base := 0; pl_fence := 3; pl_object := 10;
                                 pl_offset := 100; pl_len := 60 |}))];
     jr_migrated_from := Some {| ms_host := 1; ms_offer_fence := Some 2 |} |}.
Definition example_checksums : MigrationBlockChecksums := [(example_key 5, (4, 1234))].
Lemma example_migration_ok :
  migration_ok 7 example_record example_checksums MigrationArchiveClosure_default.
Proof.
  split; [|split; [|split; [|split; [|split]]]]; try (repeat constructor; vm_compute; congruence).
Qed.
Lemma migration_state_exact_witness :
  (exists bs,
     @JournalRecord_encode_migration_state _ _ DecodeError example_record 7 example_checksums
       MigrationArchiveClosure_default = Ok bs
     /\ JournalRecord_decode_migration_state 7 bs
        = Ok (example_record, example_checksums, MigrationArchiveClosure_default)).
Proof.
  apply (proj1 (migration_state_exact 7 ltac:(split; vm_compute; congruence)));
    [exact example_migration_ok|vm_compute; reflexivity..].
Defined.
