(* ===== verification/LocalExamples.v ===== *)
(** * Captures and restarts, computed

    Runs of [LocalTask] on 4 KiB pages: an input of the crash theorem, and
    inputs of the theorems on what a restart trusts and what makes a record
    unusable. *)

From stdpp Require Import gmap.
From S2P Require Import Prelude Format Crc32c Types OrdMap Sorting Head Blx BlxFile Lz4Block BlxBatch BlxState Manifest ManifestCodec.
From S2P Require Import Text Layout BatchRefs PageFile Journal JournalFormat ReplicaRecovery LocalCapture LocalTask LocalRecovery LocalInvariant.
From S2P Require Import LocalStart LocalRun LocalRestart LocalCrash.

#[local] Existing Instance page_4096.
#[local] Existing Instance page_4096_laws.
#[local] Open Scope Z_scope.

(** ** Inputs *)
Definition local_config : VolumeConfig := {| vc_kind := VolumeKind_Data; vc_pages := 1000000 |}.
Definition memory_config : VolumeConfig := {| vc_kind := VolumeKind_Memory; vc_pages := 1000 |}.
Definition page_of (b : Z) : bytes := repeat b 4096.
Definition capture_of (pages : list PageId) (b : Z) : CaptureStart :=
  {| cs_flushed := pages; cs_pages := pages; cs_contents := fun _ => page_of b;
     cs_checkpoint := None; cs_migration := false; cs_complete_memory := false |}.
Definition near_page : PageId := {| pid_volume := 7; pid_page := 3 |}.
Definition far_page : PageId := {| pid_volume := 7; pid_page := 900000 |}.
(** A new volume under fence 3. *)
Definition created_host (config : VolumeConfig) : LocalHost :=
  match created 7 config 3 with
  | Ok h => h
  | _ => {| lh_volume := VolumeState_fresh config; lh_device := ∅; lh_prepared := []; lh_capture := Capture_idle; lh_cleanups := []; lh_failed := true |}
  end.
(** The peer commits the first record, and the volume is ready. *)
Definition protected (config : VolumeConfig) : list LocalEvent :=
  [Ev_others [] [] [] (Some (initial_record config 3)); Ev_protected].
(** A host that goes on after a restart which found volume 7: its head still
    names this host, and it has not heard from its peer. *)
Definition resumed (device : Device) : LocalHost :=
  match restart (E := unit) device with
  | Ok [(_, Some (v, _))] =>
      {| lh_volume := upd v_ready true v; lh_device := device; lh_prepared := []; lh_capture := Capture_idle;
         lh_cleanups := []; lh_failed := false |}
  | _ => fail (created_host local_config)
  end.
(** A capture of [pages], up to the writes of its record, and its commit. *)
Definition captured (pages : list PageId) (b : Z) : list LocalEvent :=
  [Ev_write; Ev_sync; Ev_capture (capture_of pages b) true; Ev_file_written true true].
Definition committed : list LocalEvent := [Ev_record_written true true].
Definition cleaned : list LocalEvent := [Ev_deleted 0 true; Ev_deleted 0 true; Ev_cleaned 0].

(** ** Checking the hypotheses on events *)
Definition byteb (b : Z) : bool := (0 <=? b) && (b <? 256).
Definition start_okb (v : VolumeState) (start : CaptureStart) : bool :=
  negb (cs_migration start)
  && forallb (fun p => existsb (fun q => bool_decide (p = q)) (cs_flushed start) && (pid_volume p =? 7)
                       && (0 <=? pid_page p) && (pid_page p <? W32) && forallb byteb (cs_contents start p)) (cs_pages start)
  && match cs_checkpoint start with None => true | Some _ => false end
  && (v_next_object_id v <=? W64 - W32) && negb (len (cs_pages start) =? 0).
Definition event_okb (h : LocalHost) (event : LocalEvent) : bool :=
  match event, lh_capture h with
  | Ev_capture start _, Capture_idle =>
      negb (v_ready (lh_volume h)) || start_okb (lh_volume h) start
      && match build_capture 7 start h with Ok (_, _, _, b) => len (bb_entries (pb_builder b)) <? W32 | _ => true end
  | Ev_file_written _ admitted, Capture_files _ (_ :: _ :: _) => admitted
  | _, _ => true
  end.
Fixpoint events_okb (h : LocalHost) (events : list LocalEvent) : bool :=
  match events with
  | [] => true
  | event :: events => event_okb h event && events_okb (step 7 h event) events
  end.
Lemma all_bytes_check bs : forallb byteb bs = true -> all_bytes bs.
Proof.
  intros H. unfold all_bytes. apply List.Forall_forall. intros b Hb. rewrite forallb_forall in H. specialize (H b Hb).
  unfold byteb in H. apply andb_prop in H as [H1 H2]. apply Z.leb_le in H1. apply Z.ltb_lt in H2. unfold is_byte, fits. lia.
Qed.
Lemma start_okb_ok config v start : start_okb v start = true -> start_ok 7 config v start.
Proof.
  unfold start_okb. rewrite !andb_true_iff, !negb_true_iff, forallb_forall, Z.eqb_neq, Z.leb_le. intros ((((H1 & H2) & H3) & H4) & H5). split.
  - exact H1.
  - intros p Hp. specialize (H2 p Hp). rewrite !andb_true_iff in H2. destruct H2 as ((((F & V) & P1) & P2) & B).
    apply existsb_exists in F as (q & Hq & <-%bool_decide_eq_true). split; [exact Hq|]. split; [now apply Z.eqb_eq|].
    split; [unfold fits; split; [now apply Z.leb_le|now apply Z.ltb_lt]|now apply all_bytes_check].
  - destruct (cs_checkpoint start); [discriminate|exact I].
  - exact H4.
  - intros Hnil. now rewrite Hnil in H5.
Qed.
Lemma events_okb_ok config h events : events_okb h events = true -> events_ok 7 config h events.
Proof.
  revert h. induction events as [|e events IH]; intros h H; [exact I|]. cbn [events_okb] in H. apply andb_prop in H as [He H].
  split; [|now apply IH]. unfold event_okb in He. unfold event_ok. destruct e, (lh_capture h) as [|ru [|f1 [|f2 rest]]|]; try exact I; try exact He.
  intros Hr. rewrite Hr in He. apply andb_prop in He as [Hs Hb]. split; [now apply start_okb_ok|]. intros v cut sums b Hbuild. rewrite Hbuild in Hb. now apply Z.ltb_lt.
Qed.

(** ** Inputs of the crash theorem and of the restart *)
Lemma created_host_Ok : created 7 local_config 3 = Ok (created_host local_config).
Proof.
  assert (is_ok (created 7 local_config 3) = true) as H by (vm_compute; reflexivity). unfold created_host. now destruct (created 7 local_config 3).
Qed.
(** A capture is committed, the next one has written its file and not its
    record when the host crashes. *)
Definition crash_events : list LocalEvent :=
  protected local_config ++ captured [near_page] 5 ++ committed
  ++ [Ev_write; Ev_capture (capture_of [near_page; far_page] 9) true; Ev_file_written true true].
Definition crashed : LocalHost := run 7 (created_host local_config) crash_events.
(** A property of the bytes on a device, and of its records. *)
Definition on_files (check : string -> bytes -> bool) (device : Device) : bool := forallb (fun e => check e.1 e.2) (map_to_list device).
Lemma on_files_ok check device : on_files check device = true -> forall name bs, device !! name = Some bs -> check name bs = true.
Proof.
  intros H name bs Hd. unfold on_files in H. rewrite forallb_forall in H. apply (H (name, bs)). now apply list_elem_of_In, elem_of_map_to_list.
Qed.
Definition on_journals (check : bytes -> bool) (name : string) (bs : bytes) : bool :=
  match parse_blob name with Some (Blob_Journal _ _ _) => check bs | _ => true end.
Lemma on_journals_ok check device : on_files (on_journals check) device = true ->
  forall name bs volume fence seq, device !! name = Some bs -> parse_blob name = Some (Blob_Journal volume fence seq) -> check bs = true.
Proof. intros H name bs volume fence seq Hd Hp. apply (on_files_ok _ _ H) in Hd. unfold on_journals in Hd. now rewrite Hp in Hd. Qed.
(** A restart that finds volume 7 alone. *)
Definition found_volume (c : outcome unit (list (Z * option (VolumeState * option Verdict)))) : bool :=
  match c with Ok [(volume, Some _)] => volume =? 7 | _ => false end.
Lemma found_volume_inv c : found_volume c = true -> exists v verdict, c = Ok [(7, Some (v, verdict))].
Proof. destruct c as [[|[volume [[v verdict]|]] [|? ?]]|e|]; try discriminate. simpl. intros ->%Z.eqb_eq. eauto. Qed.

Lemma fits7 : fits W64 7.
Proof. split; [discriminate|reflexivity]. Qed.
Lemma restart_trusts_whole_records_witness :
  exists v verdict rb, restart (E := unit) (lh_device crashed) = Ok [(7, Some (v, verdict))] /\ v_best_record v = Some rb
  /\ journal_on (lh_device crashed) 7 rb /\ whole_batches (jr_files rb)
  /\ (forall r, journal_on (lh_device crashed) 7 r -> jr_sync_covered_through r <= jr_capture_seq r -> jr_sync_covered_through r <= jr_capture_seq rb).
Proof.
  destruct (found_volume_inv (restart (lh_device crashed))) as (v & verdict & Hr); [vm_compute; reflexivity|].
  assert (on_files (fun _ => forallb byteb) (lh_device crashed) = true) as Hb by (vm_compute; reflexivity).
  destruct (restart_trusts_whole_records (E := unit) (lh_device crashed) _ 7 v verdict fits7
    (fun name bs Hd => all_bytes_check bs (on_files_ok _ _ Hb name bs Hd)) Hr (or_introl eq_refl)) as (rb & H1 & H2 & H3 & _ & H4).
  exists v, verdict, rb. auto.
Defined.

(** ** A reclaimed file *)
Definition record_check (check : JournalRecord -> bool) (bs : bytes) : bool :=
  match JournalRecord_decode 7 bs with
  | Ok r => check r
  | _ => match JournalRecord_decode_migration_state 7 bs with Ok (r, _, _) => check r | _ => true end
  end.
Lemma record_check_ok check device : on_files (on_journals (record_check check)) device = true ->
  forall r, journal_on device 7 r -> check r = true.
Proof.
  intros H r (name & bs & Hd & Hp & Hr). apply (on_journals_ok _ _ H _ _ _ _ _ Hd) in Hp. unfold record_check in Hp.
  destruct Hr as [Hr|([e Hr] & c & a & Hm)]; rewrite Hr in Hp; [exact Hp|]. now rewrite Hm in Hp.
Qed.
Definition record_at (device : Device) (name : string) : option JournalRecord :=
  bs ← device !! name; match JournalRecord_decode 7 bs with Ok r => Some r | _ => None end.
Lemma record_at_on device fence seq r : fits W64 fence -> fits W64 seq -> record_at device (journal_blob 7 fence seq) = Some r ->
  jr_fence r = fence -> jr_seq r = seq -> journal_on device 7 r.
Proof.
  intros Hf Hs H <- <-. unfold record_at in H. destruct (device !! _) as [bs|] eqn:Hd; [|discriminate]. cbn [mbind option_bind] in H.
  destruct (JournalRecord_decode 7 bs) as [r'| |] eqn:Hr; [|discriminate..]. injection H as ->. eexists _, bs. split; [exact Hd|].
  split; [exact (parse_blob_name (Blob_Journal 7 _ _) (conj fits7 (conj Hf Hs)))|now left].
Qed.
(** A capture is committed here, by the peer and in the object store. *)
Definition backed_host : LocalHost :=
  let h := run 7 (created_host local_config) (protected local_config ++ captured [near_page] 5 ++ committed) in
  step 7 h (Ev_others (bts_collect (map fst (v_blx_blobs (lh_volume h)))) [] [] (v_best_record (lh_volume h))).
Definition names_checked (name : string) (bs : bytes) : bool :=
  match parse_blob name with Some (Blob_Blx volume fence object) => bool_decide (name = blx_blob volume fence object) | _ => true end.

(** ** Incomplete batches *)
Definition whole_batchesb (os : list ObjectRef) : bool :=
  forallb (fun o => forallb (fun i => existsb (fun o' => bool_decide (batch_key o' = batch_key o) && (or_chunk_index o' =? i)) os)
                      (map Z.of_nat (seq 0 (Z.to_nat (or_chunk_count o))))
    && forallb (fun o' => negb (bool_decide (batch_key o' = batch_key o) && (or_chunk_index o' =? or_chunk_index o)) || bool_decide (o' = o)) os) os.
Lemma whole_batches_check os : whole_batches os -> whole_batchesb os = true.
Proof.
  intros H. apply forallb_forall. intros o Ho. destruct (H o Ho) as [H1 H2]. apply andb_true_iff. split; apply forallb_forall.
  - intros i (n & <- & Hn%in_seq)%in_map_iff. destruct (H1 (Z.of_nat n)) as (o' & Ho' & Hk & Hi); [lia|]. apply existsb_exists. exists o'. split; [exact Ho'|].
    now rewrite (bool_decide_true _ Hk), Hi, Z.eqb_refl.
  - intros o' Ho'. destruct (bool_decide_reflect (batch_key o' = batch_key o)) as [Hk|]; [|reflexivity].
    destruct (Z.eqb_spec (or_chunk_index o') (or_chunk_index o)) as [Hi|]; [|reflexivity]. now apply bool_decide_true, H2.
Qed.
#[local] Instance ObjectRef_ok_dec o : Decision (ObjectRef_ok o).
Proof. unfold ObjectRef_ok, ObjectIdentity_ok, BlockKey_ok. apply _. Defined.
#[local] Instance record_fits_dec r : Decision (record_fits r).
Proof.
  unfold record_fits, RecordKind_ok, option_ok, MigrationSource_ok, option_ok.
  destruct (jr_kind r), (jr_migrated_from r) as [[? []]|]; apply _.
Defined.
(** A crash left a file without its record; the restarted host captures again. *)
Definition interrupted : LocalHost :=
  run 7 (resumed (lh_device (run 7 (created_host local_config) (protected local_config ++ captured [near_page] 5)))) (captured [near_page] 9).
(** A restarted host gives a capture up for want of space, and captures again. *)
Definition given_up : LocalHost :=
  run 7 (resumed (lh_device (created_host local_config)))
    ([Ev_write; Ev_sync; Ev_capture (capture_of [near_page; far_page] 5) true; Ev_file_written true false]
     ++ [Ev_capture (capture_of [far_page] 5) true; Ev_file_written true true]).
Definition finished (h : LocalHost) : LocalHost := run 7 h (committed ++ cleaned).
Definition incomplete (h : LocalHost) : bool :=
  let v := lh_volume h in
  match lh_capture h with
  | Capture_record r _ bs =>
      let record := capture_journal (ru_migration r) v (ru_cut r) (ru_checkpoint r) (ru_post_checksum r) in
      bool_decide (v_peer_source v = None) && bool_decide (record_fits record) && negb (whole_batchesb (recovery_files v))
      && match write_record_copies (E := unit) 7 v record [] with Ok bs' => bool_decide (bs' = bs) | _ => false end
      && on_files (on_journals (fun bs' => bool_decide (bs' = bs))) (lh_device (finished h))
      && negb (lh_failed (finished h)) && (0 <? v_local_covered_through (lh_volume (finished h)))
      && is_ok (restart (E := unit) (lh_device (finished h)))
  | _ => false
  end.
Lemma incomplete_batch_loses_volume_witness : let lost h :=
    (exists r record bs, lh_capture h = Capture_record r record bs /\ forall r', ~ reads_as 7 bs r')
    /\ lh_failed (finished h) = false /\ 0 < v_local_covered_through (lh_volume (finished h))
    /\ is_ok (restart (E := unit) (lh_device (finished h))) = true
    /\ forall results x, restart (E := unit) (lh_device (finished h)) = Ok results -> ~ In (7, Some x) results in
  lost interrupted /\ lost given_up.
Proof.
  intros lost. assert (forall h, incomplete h = true -> lost h) as H.
  { intros h H. unfold incomplete in H. destruct (lh_capture h) as [| |r record bs] eqn:Ec; [discriminate..|].
    apply andb_prop in H as [((((((H1%bool_decide_eq_true & H2%bool_decide_eq_true)%andb_prop & H3%negb_true_iff)%andb_prop & H4)%andb_prop & H5)%andb_prop & H6%negb_true_iff)%andb_prop & H7%Z.ltb_lt)%andb_prop H8].
    destruct (write_record_copies _ _ _ _) as [bs'| |] eqn:Ew; [|discriminate..]. apply bool_decide_eq_true in H4 as ->.
    destruct (incomplete_batch_loses_volume 7 (lh_volume h) _ _ _ _ [] bs fits7 H1 H2 (fun Hw => eq_true_false_abs _ (whole_batches_check _ Hw) H3) Ew) as [Hno Hres].
    split; [now exists r, record, bs|]. split; [exact H6|]. split; [exact H7|]. split; [exact H8|].
    intros results x. apply Hres. intros name bs' fence seq Hd Hp. apply (on_journals_ok _ _ H5 _ _ _ _ _ Hd) in Hp. now apply bool_decide_eq_true in Hp. }
  split; apply H; vm_compute; reflexivity.
Defined.

(** ** A pending tombstone *)
(** A memory volume is captured, its host restarts cold, and the guest writes
    the page again. *)
Definition rebooted : LocalHost :=
  run 7 (resumed (lh_device (run 7 (created_host memory_config) (protected memory_config ++ captured [near_page] 5 ++ committed)))) [Ev_write].
Lemma pending_tombstone_drops_page_witness : let key := BlockKey_from_page VolumeKind_Memory near_page in
  exists v cut post blocks b, build_capture 7 (capture_of [near_page] 9) rebooted = Ok (v, cut, (post, blocks), b)
  /\ (exists g, bt_get key (bb_entries (pb_builder b)) = Some (Entry_Tombstone key g))
  /\ is_Some (bt_get key blocks) /\ post = state_checksum blocks.
Proof.
  intros key. assert (is_ok (build_capture 7 (capture_of [near_page] 9) rebooted) = true) as Hok by (vm_compute; reflexivity).
  destruct (build_capture 7 (capture_of [near_page] 9) rebooted) as [[[[v cut] [post blocks]] b]| |] eqn:H; [|discriminate..].
  exists v, cut, post, blocks, b. split; [reflexivity|].
  assert (vc_kind (v_config (lh_volume rebooted)) = VolumeKind_Memory) as Hk by (vm_compute; reflexivity). unfold key. rewrite <- Hk.
  apply (pending_tombstone_drops_page 7 (capture_of [near_page] 9) rebooted v cut).
  - vm_compute. split; [discriminate|reflexivity].
  - split; [vm_compute; repeat constructor|vm_compute; reflexivity].
  - exact H.
  - now left.
  - vm_compute. reflexivity.
Defined.
