(* ===== verification/RecoveryExamples.v ===== *)
(** * Spools and recovery, computed

    A spool with one file and one commit, the export and the publication made
    from it, and an export too wide to publish. *)

From stdpp Require Import gmap.
From S2P Require Import Prelude Format Crc32c Types OrdMap Text Head Blx BlxFile Lz4Block BlxBatch BlxScan BlxExamples.
From S2P Require Import Manifest Layout ManifestCodec BatchRefs ManifestClosure PageFile Journal JournalFormat.
From S2P Require Import ReplicaSpool SpoolSafety ReplicaRecovery RecoverySafety RecoveryPublish.

#[local] Existing Instance page_4096.
#[local] Existing Instance page_4096_laws.
#[local] Open Scope Z_scope.

Lemma batch_files_listable_witness :
  exists files refs, @BlxBatchBuilder_finish _ _ _ DecodeError example_builder = Ok files
    /\ collect_outcome (ObjectRef_from_blx (E := DecodeError)) files = Ok refs
    /\ validate_object_refs refs = Ok tt.
Proof.
  destruct example_finish as (files & Hf & _).
  destruct (batch_files_listable pages_4096_small example_builder files example_builder_ok Hf)
    as (_ & refs & Hr & _ & Hv). eauto.
Defined.

(** ** A spool *)
Definition spool_meta : BatchMeta :=
  {| bm_namespace_kind := Namespace_Volume; bm_namespace_id := 7; bm_writer_fence := 3;
     bm_first_object_id := 10; bm_min_seq := 2; bm_max_seq := 2; bm_batch_id := 2;
     bm_pre_state_checksum := 0; bm_post_state_checksum := 9 |}.
Definition spool_entries : list BlxEntry := [Entry_Tombstone (example_key 5) 6].
Definition spool_file : BlxObject := chunk_object spool_meta 10 0 1 spool_entries.
Lemma spool_file_holds : file_holds spool_file spool_entries.
Proof.
  constructor; [|repeat split; vm_compute; congruence|split; vm_compute; congruence|lia|lia].
  split; [|vm_compute; discriminate]. split; [discriminate|]. split; [|repeat constructor].
  constructor; [|constructor]. repeat split; vm_compute; congruence.
Qed.
Definition spool_file_bytes : bytes := Eval vm_compute in bo_bytes spool_file.
Definition spool_record : JournalRecord :=
  {| jr_config := {| vc_kind := VolumeKind_Data; vc_pages := 64 |};
     jr_seq := 2; jr_fence := 3; jr_kind := Kind_Commit; jr_capture_seq := 2;
     jr_sync_covered_through := 2; jr_post_state_checksum := 9; jr_files := [written_ref spool_file];
     jr_runtime_page_index := []; jr_migrated_from := None |}.
Definition spool_record_bytes : bytes :=
  Eval vm_compute in match @JournalRecord_encode _ _ DecodeError spool_record 7 with Ok bs => bs | _ => [] end.
Definition spool_artifact : ReplicaArtifactFrame :=
  {| af_source := 1; af_volume := 7; af_assignment_epoch := 4; af_artifact := Blx 3 10;
     af_checksum := crc32c spool_file_bytes; af_bytes := spool_file_bytes |}.
Definition spool_commit : ReplicaCommitFrame :=
  {| cf_source := 1; cf_volume := 7; cf_assignment_epoch := 4;
     cf_info := {| rci_writer_fence := 3; rci_seq := 2; rci_sync_covered_through := 2 |};
     cf_required := [Blx 3 10]; cf_record := spool_record_bytes |}.
Definition spool_frames : list SpoolFrame := [F_artifact spool_artifact; F_commit spool_commit].
Lemma spool_artifact_ok : SpoolFrame_ok (F_artifact spool_artifact).
Proof.
  assert (all_bytes spool_file_bytes) by (apply example_bytes; vm_compute; reflexivity).
  split; [|split; [vm_compute; reflexivity|split; vm_compute; reflexivity]].
  unfold artifact_ok. cbn [af_source af_volume af_assignment_epoch af_artifact af_checksum af_bytes spool_artifact].
  do 3 (split; [unfold fits; lia|]). split; [unfold ReplicaArtifact_ok, fits; lia|].
  split; [split; vm_compute; congruence|]. split; [assumption|vm_compute; reflexivity].
Qed.
Lemma spool_commit_ok : SpoolFrame_ok (F_commit spool_commit).
Proof.
  assert (all_bytes spool_record_bytes) by (apply example_bytes; vm_compute; reflexivity).
  split; [|split; vm_compute; reflexivity].
  unfold commit_ok. cbn [cf_source cf_volume cf_assignment_epoch cf_info cf_required cf_record spool_commit].
  do 3 (split; [unfold fits; lia|]). split; [unfold ReplicaCommitInfo_ok, fits; simpl; lia|].
  split; [constructor; [unfold ReplicaArtifact_ok, fits; lia|constructor]|].
  split; [vm_compute; congruence|]. split; [reflexivity|]. split; [assumption|vm_compute; reflexivity].
Qed.
Lemma spool_frames_ok : Forall SpoolFrame_ok spool_frames.
Proof. constructor; [apply spool_artifact_ok|constructor; [apply spool_commit_ok|constructor]]. Qed.
Definition spool_example : bytes := Eval vm_compute in spool_bytes spool_frames.

(** The spool cut five bytes short: the file survives, the commit does not. *)
Lemma spool_crash_recovery_witness :
  exists kept lost r, spool_frames = kept ++ lost /\ replay replay_start kept = Ok r
    /\ scan_replica_spool (take (length (spool_bytes spool_frames) - 5) (spool_bytes spool_frames))
       = Ok (scan_done (len (spool_bytes kept))
               (len (spool_bytes kept) <? Z.of_nat (length (spool_bytes spool_frames) - 5)) r).
Proof.
  destruct (replay replay_start spool_frames) as [r| |] eqn:Hr; [|vm_compute in Hr; discriminate..].
  destruct (spool_crash_recovery spool_frames r (length (spool_bytes spool_frames) - 5)
    spool_frames_ok Hr ltac:(lia)) as (kept & lost & r' & H1 & H2 & H3 & _).
  exists kept, lost, r'. auto.
Defined.
Lemma spool_scan_exact_witness :
  exists frames tail, spool_example = spool_bytes frames ++ tail /\ Forall SpoolFrame_ok frames.
Proof.
  assert (all_bytes spool_example) as Hb by (apply example_bytes; vm_compute; reflexivity).
  destruct (scan_replica_spool spool_example) as [s| |] eqn:Hs; [|vm_compute in Hs; discriminate..].
  destruct (proj2 (spool_scan_exact spool_example Hb) s Hs) as (frames & tail & _ & H1 & H2 & _). eauto.
Defined.

(** ** An export of that spool *)
Definition recovery_head_example : HeadRecord :=
  {| head_volume := 7; head_holder := 1; head_fence := 3; head_manifest := None;
     head_stash := Some {| sa_assignment_epoch := 4; sa_active_peer := 2; sa_active_assignment_epoch := 4;
                           sa_transition_peer := None; sa_membership_epoch := 1 |};
     head_retired_stashes := [] |}.
Definition residue_example : ReplicaResidue :=
  {| rr_source := 1; rr_peer := 2; rr_assignment_epoch := 4; rr_bytes := spool_example |}.
Definition export_example : ReplicaExport :=
  Eval vm_compute in
    match export_replica_recovery 1 7 3 recovery_head_example [residue_example] ∅ with
    | Ok e => e
    | _ => {| re_source_peer := 0; re_assignment_epoch := 0; re_info := cf_info spool_commit;
              re_sync_covered_through := 0; re_blobs := [] |}
    end.
Lemma export_example_Ok :
  export_replica_recovery 1 7 3 recovery_head_example [residue_example] ∅ = Ok export_example.
Proof. vm_compute. reflexivity. Qed.
Lemma recovery_export_exact_witness :
  exists residue scan commit record, spool_says 1 7 residue scan commit record
    /\ re_info export_example = cf_info commit.
Proof.
  destruct (recovery_export_exact 1 7 3 recovery_head_example [residue_example] ∅ export_example)
    as (assignment & residue & scan & commit & record & _ & _ & Hs & _ & _ & _ & _ & _ & Hi & _).
  - unfold fits. lia.
  - intros residue [<-|[]]. apply example_bytes. vm_compute. reflexivity.
  - exact export_example_Ok.
  - exists residue, scan, commit, record. auto.
Defined.

(** ** Its publication *)
Lemma spool_record_ok : JournalRecord_ok spool_record 7.
Proof.
  assert (all_bytes spool_record_bytes) as Hb by (apply example_bytes; vm_compute; reflexivity).
  assert (fits W64 7) as H7 by (unfold fits; lia).
  apply (format_canonical (ExactFormat := JournalRecord_format 7 H7) spool_record_bytes);
    [exact Hb|vm_compute; reflexivity].
Qed.
Lemma export_example_recoverable : recoverable 7 export_example spool_record [spool_entries].
Proof.
  split.
  - split; [|eexists _, spool_record_bytes; split; vm_compute; reflexivity|exact spool_record_ok].
    repeat (constructor; [|repeat (constructor; [vm_compute; reflexivity|]); constructor]). constructor.
  - vm_compute. discriminate.
  - match goal with |- Forall2 _ ?l _ => assert (l = [(blx_blob 7 3 10, spool_file_bytes)]) as ->
      by (vm_compute; reflexivity) end.
    constructor; [|constructor]. exists spool_file. split; [vm_compute; reflexivity|exact spool_file_holds].
  - vm_compute. reflexivity.
Qed.

(** An export with one tombstone in each of 1026 storage-file partitions, four
    mebibytes apart. *)
Definition wide_entries : list BlxEntry :=
  map (fun n => Entry_Tombstone (example_key (1024 * Z.of_nat n)) 1) (seq 0 1026).
Definition wide_file : BlxObject := chunk_object spool_meta 10 0 1 wide_entries.
Lemma wide_keys n m : (n < m)%nat ->
  cmp (example_key (1024 * Z.of_nat n)) (example_key (1024 * Z.of_nat m)) = Lt.
Proof.
  intros Hlt. assert (forall k, BlockKey_rank (example_key (1024 * Z.of_nat k)) = (Z.of_nat k, (0, (2, 0)))) as Hrank.
  { intros k. unfold BlockKey_rank. cbn [bk_block example_key].
    change blocks_per_file_partition with 1024.
    now rewrite (Z.mul_comm 1024), Z.div_mul, Z.mod_mul by lia. }
  unfold cmp, BlockKey_cmp. rewrite !Hrank.
  change (cmp_then (Z.of_nat n ?= Z.of_nat m) (cmp (0, (2, 0)) (0, (2, 0))) = Lt).
  rewrite (proj2 (Z.compare_lt_iff (Z.of_nat n) (Z.of_nat m))) by lia. reflexivity.
Qed.
Lemma wide_entries_ok : Forall BlxEntry_ok wide_entries /\ ascending wide_entries.
Proof.
  split.
  - apply List.Forall_forall. intros e (n & <- & [_ Hn]%in_seq)%in_map_iff.
    repeat split; simpl; lia || (unfold fits; lia).
  - unfold wide_entries. generalize 0%nat, 1026%nat. intros s k. revert s.
    induction k as [|k IH]; intros s; simpl; constructor; [apply IH|].
    apply List.Forall_forall. intros e (n & <- & [Hn _]%in_seq)%in_map_iff. apply wide_keys. lia.
Qed.
Lemma wide_file_holds : file_holds wide_file wide_entries.
Proof.
  destruct wide_entries_ok as [H1 H2].
  constructor; [|repeat split; vm_compute; congruence|split; vm_compute; congruence|lia|lia].
  split; [split; [discriminate|auto]|]. vm_compute. discriminate.
Qed.
Lemma wide_ids_overflow :
  BlxBatchBuilder_object_ids_fit (recovery_builder 7 8 spool_record [wide_entries]) = false.
Proof.
  assert (map_ok (map (fun e => (BlxEntry_key e, e)) wide_entries)) as Hok.
  { destruct wide_entries_ok as [Hok Hasc]. split.
    - unfold bt_sorted. induction Hasc as [|e es Hs IH He]; simpl; constructor.
      + apply IH. now inversion Hok.
      + apply List.Forall_map. exact He.
    - apply List.Forall_map. apply (List.Forall_impl _ (P := BlxEntry_ok)); [auto|exact Hok]. }
  pose proof (merge_values _ Hok) as Hm. unfold bt_values in Hm. rewrite map_map, map_id in Hm.
  unfold recovery_builder, compaction_builder. cbn [concat]. rewrite app_nil_r, Hm. vm_compute. reflexivity.
Qed.
Definition export_of (bs : bytes) : ReplicaExport :=
  {| re_source_peer := 2; re_assignment_epoch := 4; re_info := cf_info spool_commit;
     re_sync_covered_through := 2;
     re_blobs := [(journal_blob 7 3 2, spool_record_bytes); (journal_mirror_blob 7 3 2, spool_record_bytes);
                  (blx_blob 7 3 10, bs)] |}.
Lemma export_of_recoverable bs f es : bs = bo_bytes f -> file_holds f es -> len (concat [es]) < W32 ->
  recoverable 7 (export_of bs) spool_record [es].
Proof.
  intros Hbs Hf Hl. split.
  - split; [|exists (journal_blob 7 3 2), spool_record_bytes; split; vm_compute; reflexivity|exact spool_record_ok].
    repeat (constructor; [|repeat (constructor; [vm_compute; reflexivity|]); constructor]). constructor.
  - vm_compute. discriminate.
  - assert (List.filter (fun x => is_blx x.1) (re_blobs (export_of bs)) = [(blx_blob 7 3 10, bs)]) as ->
      by (vm_compute; reflexivity).
    constructor; [|constructor]. eauto.
  - exact Hl.
Qed.

(** The exported spool is published; the wide export is not, nor is one with a
    file cut short. *)
Lemma recovery_publication_exact_witness :
  (exists publication, prepare_replica_publication 7 5 8 recovery_head_example export_example = Ok publication)
  /\ prepare_replica_publication 7 5 8 recovery_head_example (export_of (bo_bytes wide_file)) = Panic
  /\ prepare_replica_publication 7 5 8 recovery_head_example (export_of [1; 2; 3])
     = Err (Recovery_CorruptObject (blx_blob 7 3 10)).
Proof.
  assert (fits W64 7 /\ fits W64 8) as [H7 H8] by (unfold fits; lia). split; [|split].
  - destruct (recovery_publication_exact pages_4096_small 7 5 8 recovery_head_example export_example H7 H8) as [_ H].
    specialize (H spool_record [spool_entries] export_example_recoverable).
    rewrite <- recovery_ids_fit in H.
    assert (BlxBatchBuilder_object_ids_fit (recovery_builder 7 8 spool_record [spool_entries]) = true) as Hfit
      by (vm_compute; reflexivity).
    rewrite Hfit in H. destruct H as (files & merged & mb & pointer & _ & H & _). eauto.
  - assert (len (concat [wide_entries]) < W32) as Hl by (vm_compute; reflexivity).
    destruct (recovery_publication_exact pages_4096_small 7 5 8 recovery_head_example
      (export_of (bo_bytes wide_file)) H7 H8) as [_ H].
    specialize (H spool_record [wide_entries]
      (export_of_recoverable _ wide_file wide_entries eq_refl wide_file_holds Hl)).
    rewrite <- recovery_ids_fit, wide_ids_overflow in H. exact H.
  - apply (proj1 (recovery_publication_exact pages_4096_small 7 5 8 recovery_head_example (export_of [1; 2; 3]) H7 H8)).
    eapply (Rejected_file 7 (export_of [1; 2; 3]) spool_record [] (blx_blob 7 3 10) [1; 2; 3] []).
    + split; [|exists (journal_blob 7 3 2), spool_record_bytes; split; vm_compute; reflexivity|exact spool_record_ok].
      repeat (constructor; [|repeat (constructor; [vm_compute; reflexivity|]); constructor]). constructor.
    + vm_compute. discriminate.
    + vm_compute. reflexivity.
    + constructor.
    + vm_compute. reflexivity.
Defined.
