(* ===== verification/ArchiveExamples.v ===== *)
(** * Archives, computed

    A first and a second publication of one volume, and the manifest of an
    abandoned publication that blocks the next one. *)

From stdpp Require Import gmap.
From Stdlib Require String.
From S2P Require Import Prelude Format Crc32c Types OrdMap Text Head Blx BlxFile Lz4Block BlxBatch BlxScan BlxExamples.
From S2P Require Import Manifest Layout ManifestCodec BatchRefs ManifestClosure Journal JournalFormat ReplicaRecovery.
From S2P Require Import StashProtocol ArchivePublish ArchiveSafety ArchiveExact ArchiveRead RecoveryExamples.

#[local] Existing Instance page_4096.
#[local] Existing Instance page_4096_laws.
#[local] Open Scope Z_scope.

(** The second state of the volume: the block is discarded again. *)
Definition later_meta : BatchMeta :=
  {| bm_namespace_kind := Namespace_Volume; bm_namespace_id := 7; bm_writer_fence := 3;
     bm_first_object_id := 20; bm_min_seq := 4; bm_max_seq := 4; bm_batch_id := 4;
     bm_pre_state_checksum := 9; bm_post_state_checksum := 12 |}.
Definition later_entries : list BlxEntry := [Entry_Tombstone (example_key 5) 8].
Definition later_file : BlxObject := chunk_object later_meta 20 0 1 later_entries.
Lemma later_file_holds : file_holds later_file later_entries.
Proof.
  constructor; [|repeat split; vm_compute; congruence|split; vm_compute; congruence|lia|lia].
  split; [|vm_compute; discriminate]. split; [discriminate|]. split; [|repeat constructor].
  constructor; [|constructor]. repeat split; vm_compute; congruence.
Qed.
Definition later_record : JournalRecord :=
  {| jr_config := {| vc_kind := VolumeKind_Data; vc_pages := 64 |};
     jr_seq := 4; jr_fence := 3; jr_kind := Kind_Commit; jr_capture_seq := 4;
     jr_sync_covered_through := 4; jr_post_state_checksum := 12;
     jr_files := [written_ref spool_file; written_ref later_file];
     jr_runtime_page_index := []; jr_migrated_from := None |}.
Definition later_record_bytes : bytes :=
  Eval vm_compute in match @JournalRecord_encode _ _ DecodeError later_record 7 with Ok bs => bs | _ => [] end.
Lemma later_record_ok : JournalRecord_ok later_record 7.
Proof.
  assert (all_bytes later_record_bytes) as Hb by (apply example_bytes; vm_compute; reflexivity).
  assert (fits W64 7) as H7 by (unfold fits; lia).
  apply (format_canonical (ExactFormat := JournalRecord_format 7 H7) later_record_bytes);
    [exact Hb|vm_compute; reflexivity].
Qed.

Definition snapshot_of (record : JournalRecord) (backed : option ManifestPtr) : PublishSnapshot :=
  {| ps_record := record; ps_base := None; ps_base_objects := []; ps_blx_files := bts_collect (map or_identity (jr_files record));
     ps_blx_refs := jr_files record; ps_backed := backed; ps_published_commit := None;
     ps_commit := JournalRecord_commit_info record; ps_state_checksum := jr_post_state_checksum record |}.
Definition quiet : ArchiveEnv :=
  {| ae_others := fun _ st => st; ae_refuses := fun _ => false; ae_interrupted := fun _ => false;
     ae_blobs := <[blx_blob 7 3 10 := bo_bytes spool_file]> (<[blx_blob 7 3 20 := bo_bytes later_file]> ∅) |}.
Definition file_content (o : ObjectRef) : list BlxEntry :=
  if oi_object_id (or_identity o) =? 10 then spool_entries else later_entries.
Lemma quiet_preserving : preserving quiet.
Proof. now intros n st key bs. Qed.
Lemma quiet_local record backed : (forall o, In o (jr_files record) -> o = written_ref spool_file \/ o = written_ref later_file) ->
  local_files quiet 7 (snapshot_of record backed) file_content.
Proof.
  intros Hr o bs Ho. destruct (Hr o Ho) as [->| ->]; intros Hb.
  - exists spool_file. split; [vm_compute in Hb |- *; congruence|exact spool_file_holds].
  - exists later_file. split; [vm_compute in Hb |- *; congruence|exact later_file_holds].
Qed.

(** ** The first publication *)
Definition first_run : ArchiveWorld * outcome unit ManifestPtr :=
  prepare_archive quiet 7 (snapshot_of spool_record None) false {| aw_store := ∅; aw_calls := 0 |}.
Definition first_pointer : ManifestPtr := Eval vm_compute in
  match first_run.2 with Ok p => p | _ => {| mp_fence := 0; mp_journal_seq := 0; mp_seq := 0; mp_capture_seq := 0; mp_checksum := 0 |} end.
Definition first_manifest : bytes := Eval vm_compute in default [] (aw_store first_run.1 !! archive_manifest_key 7 3 0).
Definition first_list : bytes := Eval vm_compute in default [] (aw_store first_run.1 !! complete_file_list_key 7 3 2).
Lemma first_published : first_run.2 = Ok first_pointer
  /\ aw_store first_run.1 !! archive_manifest_key 7 3 0 = Some first_manifest
  /\ aw_store first_run.1 !! complete_file_list_key 7 3 2 = Some first_list
  /\ aw_store first_run.1 !! blx_key 7 3 10 = Some (bo_bytes spool_file).
Proof. repeat split; vm_compute; reflexivity. Qed.
Definition first_closure : ManifestClosure := Eval vm_compute in
  match ManifestClosure_decode 7 first_pointer first_manifest (Some first_list) with
  | Ok c => c
  | _ => {| mc_manifest := archive_manifest 7 (snapshot_of spool_record None) 0 [] None [] []; mc_complete_list := None; mc_files := [] |}
  end.
Lemma first_reads : archive_reads 7 (aw_store first_run.1) first_pointer first_closure.
Proof.
  destruct first_published as (_ & Hm & Hl & _). exists first_manifest, (Some first_list). split; [exact Hm|].
  split; [apply example_bytes; vm_compute; reflexivity|]. split; [|vm_compute; reflexivity].
  exists first_list. split; [reflexivity|]. split; [apply example_bytes; vm_compute; reflexivity|exact Hl].
Qed.
Lemma first_files : mc_files first_closure = [written_ref spool_file].
Proof. vm_compute. reflexivity. Qed.
Lemma first_listed : list_objects (mc_complete_list first_closure) = [written_ref spool_file].
Proof. vm_compute. reflexivity. Qed.

(** ** The second, after the first has reached the head or not *)
Lemma later_setting backed previous : match backed, previous with
  | None, None => True
  | Some pointer, Some c => archive_reads 7 (aw_store first_run.1) pointer c
  | _, _ => False end ->
  (forall o, In o (previous_files previous ++ list_objects (prior_list previous)) -> o = written_ref spool_file) ->
  len (concat (map file_content (previous_files previous ++ jr_files later_record))) < W32 ->
  archive_setting quiet 7 (snapshot_of later_record backed) (aw_store first_run.1) previous file_content.
Proof.
  intros Hprev Hfiles Hfew. assert (forall o, In o (jr_files later_record) -> o = written_ref spool_file \/ o = written_ref later_file) as Hrefs.
  { intros o [<-|[<-|[]]]; [left|right]; reflexivity. }
  split; try assumption.
  - exact quiet_preserving.
  - unfold fits; lia.
  - apply later_record_ok.
  - split; vm_compute; congruence.
  - exact I.
  - intros o [].
  - vm_compute. reflexivity.
  - intros o [->| ->]%Hrefs; vm_compute; reflexivity.
  - now apply quiet_local.
  - intros o Ho. rewrite (Hfiles o); [|apply in_app_iff; now left]. split; [|vm_compute; reflexivity].
    exists spool_file. split; [apply first_published|]. split; [exact spool_file_holds|reflexivity].
  - intros o o' Ho [->| ->]%Hrefs He; rewrite (Hfiles o) in He |- * by (apply in_app_iff; now right); [reflexivity|vm_compute in He; discriminate].
  - intros o Ho (start & Hstart & _ & Hid). rewrite (Hfiles o) in Hid by (apply in_app_iff; now right).
    vm_compute in Hstart. injection Hstart as <-. vm_compute in Hid. destruct Hid as [Hid _]. now apply Hid.
Qed.

Lemma prepare_archive_exact_witness : exists w' pointer c inputs ess,
  prepare_archive quiet 7 (snapshot_of later_record (Some first_pointer)) false first_run.1 = (w', Ok pointer)
  /\ archive_reads 7 (aw_store w') pointer c
  /\ archive_inputs (snapshot_of later_record (Some first_pointer)) (Some (3, 2)) [written_ref spool_file] inputs
  /\ forall k v, newest_of k (concat ess) v -> newest_of k (concat (map file_content inputs)) v.
Proof.
  assert (archive_setting quiet 7 (snapshot_of later_record (Some first_pointer)) (aw_store first_run.1) (Some first_closure) file_content) as Hset.
  { apply later_setting; [exact first_reads| |vm_compute; reflexivity]. cbn [previous_files prior_list]. rewrite first_files, first_listed.
    intros o [<-|[<-|[]]]; reflexivity. }
  destruct (prepare_archive quiet 7 (snapshot_of later_record (Some first_pointer)) false first_run.1) as [w' r] eqn:Hrun.
  assert (is_ok r = true) as Hok by (change r with (w', r).2; rewrite <- Hrun; vm_compute; reflexivity).
  destruct r as [pointer| |]; [|discriminate..].
  destruct (prepare_archive_exact pages_4096_small _ _ _ _ _ _ _ _ _ Hset Hrun) as [_ H].
  destruct (H pointer eq_refl) as (c & inputs & ess & _ & Hr & _ & _ & Hi & _ & Hn). exists w', pointer, c, inputs, ess.
  split; [reflexivity|]. split; [exact Hr|]. split; [|exact Hn]. cbn [previous_files] in Hi. now rewrite first_files in Hi.
Defined.
(** The head still names no archive, the first manifest is in the way. *)
Lemma orphan_manifest_blocks_witness :
  first_run.2 = Ok first_pointer
  /\ forall w' pointer, prepare_archive quiet 7 (snapshot_of later_record None) false first_run.1 <> (w', Ok pointer).
Proof.
  split; [apply first_published|].
  assert (archive_setting quiet 7 (snapshot_of later_record None) (aw_store first_run.1) None file_content) as Hset.
  { apply later_setting; [exact I|intros o []|vm_compute; reflexivity]. }
  apply (orphan_manifest_blocks pages_4096_small quiet 7 (snapshot_of later_record None) None file_content false first_run.1
    first_manifest (mc_manifest first_closure) Hset); [apply first_published|vm_compute; reflexivity|vm_compute; discriminate].
Defined.
