(* ===== verification/InboxExamples.v ===== *)
(** * A peer at work, and where its promises end

    A run with a torn append and a restart; then runs in which an acknowledged
    commit is lost or a release is never answered. *)

From stdpp Require Import gmap.
From S2P Require Import Prelude Format Crc32c Types OrdMap Text Head Layout HostState HostSafety.
From S2P Require Import Blx BlxFile Lz4Block BlxBatch BlxScan BlxExamples Manifest PageFile Journal JournalFormat.
From S2P Require Import ReplicaSpool SpoolSafety ReplicaInbox InboxSafety InboxDurable InboxRestart InboxProtocol.
From S2P Require Import RecoveryExamples.

#[local] Existing Instance page_4096.
#[local] Existing Instance page_4096_laws.
#[local] Open Scope Z_scope.

Definition peer_host : HostState :=
  {| hs_config := {| hc_host := 2; hc_disk_capacity := Some 1000000; hc_disk_headroom := 1000;
                     hc_spool_capacity_bytes := 1000000 |};
     hs_volumes := []; hs_replicas := []; hs_blob_sizes := []; hs_scheduled_volumes := [];
     hs_scheduled_cursor := None; hs_disk_reclaim_requested := false;
     hs_disk_reclaim_scan_cursor := None; hs_disk_reclaim_scan_remaining := 0 |}.
Definition sample_key : ReplicaKey := {| rk_source := 1; rk_volume := 7; rk_assignment_epoch := 4 |}.
Definition head_bytes_example : bytes :=
  Eval vm_compute in match @HeadRecord_encode _ DecodeError recovery_head_example with Ok bs => bs | _ => [] end.
Definition calm : World :=
  {| w_head := Some head_bytes_example; w_append := Append_done; w_delete := Delete_done |}.
Definition tearing (k : nat) : World :=
  {| w_head := Some head_bytes_example; w_append := Append_io (Some k); w_delete := Delete_done |}.
Definition sample_put : ReplicaMsg :=
  ReplicaPut (Blx 3 10) (crc32c spool_file_bytes) spool_file_bytes.
Definition sample_info : ReplicaCommitInfo := cf_info spool_commit.
Definition sample_commit : ReplicaMsg := ReplicaCommit sample_info [Blx 3 10] spool_record_bytes.
(** The commit is torn five bytes in; the source sends it again. *)
Definition sample_events : list InboxEvent :=
  [Ev_message calm sample_key sample_put; Ev_message (tearing 5) sample_key sample_commit; Ev_restart;
   Ev_message calm sample_key sample_commit].
Definition sample_outs : list (list ReplicaReply) :=
  [[ReplicaPutAck sample_key (Blx 3 10) (crc32c spool_file_bytes)]; []; []; [ReplicaCommitAck sample_key sample_info]].
Lemma sample_run_outs : exists n, inbox_run peer_host (first_start peer_host) sample_events = Ok (n, sample_outs).
Proof. eexists. vm_compute. reflexivity. Qed.
Lemma sample_key_ok : key_ok sample_key.
Proof. repeat split; vm_compute; congruence. Qed.
Lemma sample_put_ok : put_ok (Blx 3 10) spool_file_bytes.
Proof.
  split; [repeat split; vm_compute; congruence|]. split; [apply example_bytes; vm_compute; reflexivity|vm_compute; reflexivity].
Qed.
Lemma sample_commit_ok : commit_msg_ok sample_info [Blx 3 10] spool_record_bytes.
Proof.
  split; [repeat split; vm_compute; congruence|].
  split; [constructor; [repeat split; vm_compute; congruence|constructor]|]. split; [vm_compute; discriminate|].
  split; [apply example_bytes; vm_compute; reflexivity|vm_compute; reflexivity].
Qed.
Lemma sample_events_ok : Forall wellformed sample_events.
Proof.
  constructor; [exact (conj sample_key_ok sample_put_ok)|]. constructor; [exact (conj sample_key_ok sample_commit_ok)|].
  constructor; [exact I|]. constructor; [exact (conj sample_key_ok sample_commit_ok)|constructor].
Qed.
(** Another key of the same peer, whose release is cut short. *)
Definition half_deleted : World :=
  {| w_head := Some head_bytes_example; w_append := Append_done; w_delete := Delete_io 1 |}.
Definition noisy_key : ReplicaKey := {| rk_source := 1; rk_volume := 8; rk_assignment_epoch := 4 |}.
Definition noisy_events : list InboxEvent := Ev_message half_deleted noisy_key (ReplicaRelease sample_info) :: sample_events.
Lemma noisy_run_outs : exists n, inbox_run peer_host (first_start peer_host) noisy_events = Ok (n, [] :: sample_outs).
Proof. eexists. vm_compute. reflexivity. Qed.
Lemma acknowledged_survives_witness :
  exists n n2, inbox_run peer_host (first_start peer_host) noisy_events = Ok (n, [] :: sample_outs)
    /\ undisturbed noisy_events noisy_key = false
    /\ recover_spools false peer_host (n_blobs n) = Ok n2
    /\ keeps_commit sample_key sample_info n2
    /\ keeps_artifact sample_key (Blx 3 10) (fun _ => True) n2.
Proof.
  destruct (acknowledged_survives peer_host 1000000 noisy_events eq_refl
    ltac:(lia) ltac:(vm_compute; discriminate) ltac:(vm_compute; reflexivity) eq_refl)
    as (n & outs & n2 & Hrun & _ & Hrec & Hall).
  { constructor; [|exact sample_events_ok]. split; [repeat split; vm_compute; congruence|exact I]. }
  destruct noisy_run_outs as [n' Hr]. rewrite Hr in Hrun. injection Hrun as <- <-.
  exists n', n2. split; [exact Hr|]. split; [vm_compute; reflexivity|]. split; [exact Hrec|].
  destruct (Hall 4%nat calm sample_key sample_commit _ _ eq_refl eq_refl (or_introl eq_refl)) as [Hc _]; [vm_compute; reflexivity|].
  destruct (Hc sample_info eq_refl) as [H1 H2]; [easy|]. split; [exact H1|].
  apply (H2 sample_info [Blx 3 10] spool_record_bytes eq_refl). now left.
Defined.

(** ** A release that stops half-way

    The spool has two generations: the artifact, then the commit. *)
Definition later_record : JournalRecord :=
  {| jr_config := {| vc_kind := VolumeKind_Data; vc_pages := 64 |};
     jr_seq := 3; jr_fence := 3; jr_kind := Kind_Commit; jr_capture_seq := 3;
     jr_sync_covered_through := 3; jr_post_state_checksum := 9; jr_files := [];
     jr_runtime_page_index := []; jr_migrated_from := None |}.
Definition later_record_bytes : bytes :=
  Eval vm_compute in match @JournalRecord_encode _ _ DecodeError later_record 7 with Ok bs => bs | _ => [] end.
Definition later_info : ReplicaCommitInfo :=
  {| rci_writer_fence := 3; rci_seq := 3; rci_sync_covered_through := 3 |}.
Definition later_commit : ReplicaMsg := ReplicaCommit later_info [] later_record_bytes.
Definition two_generations : LocalBlobs :=
  bt_collect [(spool_name sample_key 0, spool_bytes [F_artifact spool_artifact]);
              (spool_name sample_key 1, spool_bytes [F_commit spool_commit])].
(** The answers of a run from the two-generation spool, and the commit a
    restart afterwards still knows. *)
Definition run_from_spool (evs : list InboxEvent) : outcome unit (list (list ReplicaReply) * option ReplicaCommitInfo) :=
  let? n := recover_spools false peer_host two_generations in
  let? (n, outs) := inbox_run peer_host n evs in
  let? n := recover_spools false peer_host (n_blobs n) in
  Ok (outs, bt_get sample_key (hs_replicas (n_state n)) ≫= rs_committed).

(** Without the interrupted release the commit is kept; with it, and with or
    without a restart in between, the next restart has lost it. *)
Example interrupted_release_runs :
  run_from_spool [Ev_message calm sample_key later_commit]
    = Ok ([[ReplicaCommitAck sample_key later_info]], Some later_info)
  /\ run_from_spool [Ev_message half_deleted sample_key (ReplicaRelease sample_info); Ev_restart;
                     Ev_message calm sample_key later_commit]
     = Ok ([[]; []; [ReplicaCommitAck sample_key later_info]], None)
  /\ run_from_spool [Ev_message half_deleted sample_key (ReplicaRelease sample_info);
                     Ev_message calm sample_key later_commit]
     = Ok ([[]; [ReplicaCommitAck sample_key later_info]], None).
Proof. repeat split; vm_compute; reflexivity. Qed.
(** The peer after the interrupted release and the restart, and after the commit. *)
Definition orphaned_blobs : LocalBlobs :=
  Eval vm_compute in bt_collect [(spool_name sample_key 1, spool_bytes [F_commit spool_commit])].
Definition orphaned_node : Node :=
  Eval vm_compute in match recover_spools false peer_host orphaned_blobs with Ok n => n | _ => first_start peer_host end.
Definition poisoned_node : Node :=
  Eval vm_compute in match inbox_step peer_host orphaned_node (Ev_message calm sample_key later_commit) with
                     | Ok (n, _) => n
                     | _ => first_start peer_host
                     end.
Lemma orphaned_run : exists n0, recover_spools false peer_host two_generations = Ok n0
  /\ inbox_run peer_host n0 [Ev_message half_deleted sample_key (ReplicaRelease sample_info); Ev_restart]
     = Ok (orphaned_node, [[]; []]).
Proof. eexists. split; [vm_compute; reflexivity|]. vm_compute. reflexivity. Qed.
Lemma orphaned_leftover : leftover sample_key orphaned_blobs.
Proof.
  assert (forall name bs, bt_get name orphaned_blobs = Some bs ->
    name = spool_name sample_key 1 /\ bs = spool_bytes [F_commit spool_commit]) as H.
  { assert (orphaned_blobs = [(spool_name sample_key 1, spool_bytes [F_commit spool_commit])]) as -> by (vm_compute; reflexivity).
    intros name bs. generalize (spool_name sample_key 1) (spool_bytes [F_commit spool_commit]). intros k b. simpl.
    destruct (cmp name k) eqn:E; try discriminate. apply cmp_eq in E as ->. now intros [= <-]. }
  constructor.
  - repeat constructor.
  - intros name bs s v e g [-> _]%H. rewrite (spool_name_parse sample_key 1) by (exact sample_key_ok || (unfold fits; lia)).
    intros [= <- <- <- <-]. unfold fits. split; [reflexivity|lia].
  - intros name bs [_ ->]%H. apply example_bytes. vm_compute. reflexivity.
  - vm_compute. reflexivity.
  - eexists. vm_compute. reflexivity.
Qed.
Lemma later_commit_msg_ok : commit_msg_ok later_info [] later_record_bytes.
Proof.
  split; [repeat split; vm_compute; congruence|]. split; [constructor|]. split; [vm_compute; discriminate|].
  split; [apply example_bytes; vm_compute; reflexivity|vm_compute; reflexivity].
Qed.

(** ** Releases without an answer *)
Definition retired_head : HeadRecord :=
  {| head_volume := 7; head_holder := 1; head_fence := 3; head_manifest := None;
     head_stash := Some {| sa_assignment_epoch := 5; sa_active_peer := 3; sa_active_assignment_epoch := 5;
                           sa_transition_peer := None; sa_membership_epoch := 1 |};
     head_retired_stashes := [{| rs_peer := 2; rs_assignment_epoch := 4; rs_through := sample_info |}] |}.
Definition retired_head_bytes : bytes :=
  Eval vm_compute in match @HeadRecord_encode _ DecodeError retired_head with Ok bs => bs | _ => [] end.
Definition retired_world : World :=
  {| w_head := Some retired_head_bytes; w_append := Append_done; w_delete := Delete_done |}.
Definition released_events : list InboxEvent :=
  sample_events ++ [Ev_message retired_world sample_key (ReplicaRelease sample_info)].
Definition released_node : Node :=
  Eval vm_compute in match inbox_run peer_host (first_start peer_host) released_events with
                     | Ok (n, _) => n
                     | _ => first_start peer_host
                     end.
Lemma released_run : inbox_run peer_host (first_start peer_host) released_events
  = Ok (released_node, sample_outs ++ [[ReplicaReleaseAck sample_key sample_info]]).
Proof. vm_compute. reflexivity. Qed.
Lemma retired_unassigned : unassigned sample_key 2 retired_world.
Proof. vm_compute. reflexivity. Qed.
(** A peer that has the artifact and no commit, and one that has a commit that
    does not name the artifact. *)
Definition unfinished_node (evs : list InboxEvent) : Node :=
  match inbox_run peer_host (first_start peer_host) evs with Ok (n, _) => n | _ => first_start peer_host end.
Definition bare_node : Node := Eval vm_compute in unfinished_node [Ev_message calm sample_key sample_put].
Definition partial_node : Node :=
  Eval vm_compute in unfinished_node [Ev_message calm sample_key sample_put; Ev_message calm sample_key later_commit].
(** The first release is answered; its answer is lost and three retries follow.
    The two unfinished spools answer none. *)
Lemma release_may_stick_witness :
  inbox_run peer_host (first_start peer_host) released_events
    = Ok (released_node, sample_outs ++ [[ReplicaReleaseAck sample_key sample_info]])
  /\ inbox_run peer_host released_node (map (fun w => Ev_message w sample_key (ReplicaRelease sample_info))
       [retired_world; retired_world; retired_world]) = Ok (released_node, [[]; []; []])
  /\ inbox_run peer_host bare_node [Ev_message calm sample_key (ReplicaRelease later_info)] = Ok (bare_node, [[]])
  /\ inbox_run peer_host partial_node [Ev_message calm sample_key (ReplicaRelease later_info)] = Ok (partial_node, [[]]).
Proof.
  split; [exact released_run|]. split; [|split].
  - apply (release_may_stick sample_key sample_info released_node [retired_world; retired_world; retired_world] eq_refl).
    left. split; [reflexivity|]. do 3 (constructor; [exact retired_unassigned|]). constructor.
  - apply (release_may_stick sample_key later_info bare_node [calm] eq_refl).
    right. eexists. split; [vm_compute; reflexivity|exact I].
  - apply (release_may_stick sample_key later_info partial_node [calm] eq_refl).
    right. eexists. split; [vm_compute; reflexivity|]. split; [vm_compute; reflexivity|discriminate].
Defined.

(** ** Two orders of commits *)
Definition backward_record : JournalRecord :=
  {| jr_config := {| vc_kind := VolumeKind_Data; vc_pages := 64 |};
     jr_seq := 1; jr_fence := 4; jr_kind := Kind_Commit; jr_capture_seq := 1;
     jr_sync_covered_through := 1; jr_post_state_checksum := 9; jr_files := [];
     jr_runtime_page_index := []; jr_migrated_from := None |}.
Definition backward_record_bytes : bytes :=
  Eval vm_compute in match @JournalRecord_encode _ _ DecodeError backward_record 7 with Ok bs => bs | _ => [] end.
Definition backward_info : ReplicaCommitInfo :=
  {| rci_writer_fence := 4; rci_seq := 1; rci_sync_covered_through := 1 |}.

(** The promise of the source is needed, because peer and scan order
    commits differently. The peer accepts a commit that is newer by writer
    fence although it covers less; the restart, which orders commits by
    coverage, rejects the whole spool, and the earlier acknowledged commit is
    lost with the later one. *)
Theorem backward_commit_loses_spool :
  cmp_ltb sample_info backward_info = true
  /\ cmp_ltb (rank backward_info) (rank sample_info) = true
  /\ run_from_spool [Ev_message calm sample_key (ReplicaCommit backward_info [] backward_record_bytes)]
     = Ok ([[ReplicaCommitAck sample_key backward_info]], None).
Proof. repeat split; vm_compute; reflexivity. Qed.
