(* ===== verification/PeerExamples.v ===== *)
(** * The recovery tool, computed

    A spool whose commit names a file that only the store holds, the files of
    the peer of [InboxExamples] after a power loss, and an installation. *)

From stdpp Require Import gmap.
From S2P Require Import Prelude Format Crc32c Types OrdMap Text Head Layout HostState HostSafety.
From S2P Require Import Blx BlxFile Lz4Block BlxBatch BlxScan BlxExamples Manifest PageFile Journal JournalFormat.
From S2P Require Import ReplicaSpool SpoolSafety ReplicaInbox InboxSafety InboxDurable InboxRestart InboxProtocol.
From S2P Require Import ReplicaRecovery RecoverySafety RecoveryTool PeerRecovery RecoveryInstall RecoveryExamples InboxExamples.

#[local] Existing Instance page_4096.
#[local] Existing Instance page_4096_laws.
#[local] Open Scope Z_scope.

(** ** A file fetched from the store *)
Definition bare_commit : ReplicaCommitFrame :=
  {| cf_source := 1; cf_volume := 7; cf_assignment_epoch := 4; cf_info := cf_info spool_commit;
     cf_required := []; cf_record := spool_record_bytes |}.
Definition bare_residue : ReplicaResidue :=
  Eval vm_compute in
    {| rr_source := 1; rr_peer := 2; rr_assignment_epoch := 4; rr_bytes := spool_bytes [F_commit bare_commit] |}.
Definition sample_store : StoreObjects := {[ blx_key 7 3 10 := spool_file_bytes ]}.
Lemma bare_residue_bytes residue : In residue [bare_residue] -> all_bytes (rr_bytes residue).
Proof. intros [<-|[]]. apply example_bytes. vm_compute. reflexivity. Qed.
Lemma sample_store_bytes : stored_bytes sample_store.
Proof.
  intros key bs H. unfold sample_store in H. apply lookup_singleton_Some in H as [_ <-]. apply example_bytes. vm_compute. reflexivity.
Qed.
(** The store gains the file between the first and the second round. *)
Definition late_store : StoreReads :=
  fun round key => Some (if bool_decide (round = 0%nat) then None else sample_store !! key).
Lemma recovery_fetch_terminates_witness :
  (exists report objects, report_loop 2 0 late_store 1 7 3 recovery_head_example [bare_residue] ∅ = Ok (Some (report, objects))
     /\ rep_missing_objects report = [blx_key 7 3 10])
  /\ (length (wanted_keys 7 recovery_head_example [bare_residue]) < 2)%nat.
Proof.
  assert (length (wanted_keys 7 recovery_head_example [bare_residue]) < 2)%nat as Hf by (vm_compute; lia).
  destruct (recovery_fetch_terminates late_store 1 7 3 recovery_head_example [bare_residue] 2)
    as (report & objects & last & H & Hr & _).
  - unfold fits. lia.
  - exact bare_residue_bytes.
  - intros round key. unfold late_store. case_bool_decide; eexists; (split; [reflexivity|]); [discriminate|apply sample_store_bytes].
  - exact Hf.
  - split; [|exact Hf]. exists report, objects. split; [exact H|].
    assert (report_loop 2 0 late_store 1 7 3 recovery_head_example [bare_residue] ∅ = Ok (Some (report, objects))) as H' by exact H.
    clear - H'.
    assert (match report_loop 2 0 late_store 1 7 3 recovery_head_example [bare_residue] ∅ with
            | Ok (Some (report, _)) => rep_missing_objects report = [blx_key 7 3 10]
            | _ => False
            end) as Hm by (vm_compute; reflexivity).
    now rewrite H' in Hm.
Defined.
Lemma recovery_fetch_exact_witness :
  exists report objects,
    report_loop 2 0 (fun _ key => Some (sample_store !! key)) 1 7 3 recovery_head_example [bare_residue] ∅ = Ok (Some (report, objects))
    /\ rep_status report = Recovery_Complete.
Proof.
  destruct (recovery_fetch_exact sample_store 1 7 3 recovery_head_example [bare_residue] 2)
    as (report & objects & H & Hr & _).
  - unfold fits. lia.
  - exact bare_residue_bytes.
  - exact sample_store_bytes.
  - vm_compute. lia.
  - exists report, objects. split; [exact H|].
    assert (match report_replica_recovery 1 7 3 recovery_head_example [bare_residue] sample_store with
            | Ok report => rep_status report = Recovery_Complete
            | _ => False
            end) as Hm by (vm_compute; reflexivity).
    now rewrite Hr in Hm.
Defined.

(** ** What the peer acknowledged *)
(** After the acknowledged commit the peer loses power in another append. *)
Definition stopped_events : list InboxEvent :=
  sample_events ++ [Ev_message (tearing 9) sample_key sample_put; Ev_message (tearing 9) sample_key later_commit].
Definition stopped_outs : list (list ReplicaReply) := sample_outs ++ [[ReplicaPutAck sample_key (Blx 3 10) (crc32c spool_file_bytes)]; []].
Lemma stopped_run_outs : exists n, inbox_run peer_host (first_start peer_host) stopped_events = Ok (n, stopped_outs).
Proof. eexists. vm_compute. reflexivity. Qed.
Lemma stopped_events_ok : Forall wellformed stopped_events.
Proof.
  apply Forall_app_2; [exact sample_events_ok|]. constructor; [exact (conj sample_key_ok sample_put_ok)|].
  constructor; [exact (conj sample_key_ok later_commit_msg_ok)|constructor].
Qed.
(** The source releases nothing, and commits in order under its one assignment. *)
Lemma stopped_undisturbed epoch : undisturbed stopped_events (residue_key 1 7 epoch) = true.
Proof.
  destruct (decide (epoch = 4)) as [->|Hne]; [vm_compute; reflexivity|].
  assert (sample_key <> residue_key 1 7 epoch) as Hk by (intros [= E]; congruence).
  unfold undisturbed, stopped_events, sample_events. simpl. now rewrite !bool_decide_eq_false_2 by exact Hk.
Qed.
Lemma acknowledged_sync_recoverable_witness :
  exists n, inbox_run peer_host (first_start peer_host) stopped_events = Ok (n, stopped_outs)
    /\ recovers sample_info (export_replica_recovery 1 7 3 recovery_head_example
         (residues 2 (load_residues 1 7 (n_blobs n))) sample_store).
Proof.
  destruct (acknowledged_sync_recoverable peer_host 1000000 stopped_events eq_refl
    ltac:(lia) ltac:(vm_compute; discriminate) ltac:(vm_compute; reflexivity) eq_refl stopped_events_ok)
    as (n & outs & Hrun & _ & Hall).
  destruct stopped_run_outs as [n' Hr]. rewrite Hr in Hrun. injection Hrun as <- <-.
  exists n'. split; [exact Hr|].
  apply (Hall 3%nat calm sample_key sample_commit _ _ sample_info eq_refl eq_refl (or_introl eq_refl) stopped_undisturbed eq_refl);
    [|exact sample_store_bytes]. intros w' through Hin. exfalso. simpl in Hin. intuition discriminate.
Defined.
(** The export of that run is not an error. *)
Example stopped_export :
  match inbox_run peer_host (first_start peer_host) stopped_events with
  | Ok (n, _) => match export_replica_recovery 1 7 3 recovery_head_example (residues 2 (load_residues 1 7 (n_blobs n))) ∅ with
                 | Ok e => re_sync_covered_through e = 2
                 | _ => False
                 end
  | _ => False
  end.
Proof. vm_compute. reflexivity. Qed.

(** ** An installation *)
Definition quiet_world : StoreWorld :=
  {| sw_others := fun _ st => Some st;
     sw_stamp := fun _ st key => match st !! key with Some (version, _) => version + 1 | None => 1 end;
     sw_lost := fun _ => false |}.
Lemma quiet_world_ok key : StoreWorld_ok key quiet_world.
Proof.
  split; simpl.
  - intros _ st st' v bs [= <-] H. eauto.
  - intros _ st k v bs ->. lia.
Qed.
Definition headed_store : VersionedStore := {[ head_key 7 := (3, head_bytes_example) ]}.
Lemma install_exact_witness :
  exists s, install_replica_recovery quiet_world (Ok false) true 5 7 3 export_example (session_start headed_store)
              = (s, Ok {| ir_writer_fence := 4; ir_head_version := 5 |})
    /\ installation 5 7 3 export_example (se_writes s) (Ok {| ir_writer_fence := 4; ir_head_version := 5 |}).
Proof.
  destruct (install_replica_recovery quiet_world (Ok false) true 5 7 3 export_example (session_start headed_store)) as [s r] eqn:H.
  pose proof (install_exact 5 7 3 export_example quiet_world (quiet_world_ok _) (Ok false) true headed_store s r H) as Hi.
  assert (snd (install_replica_recovery quiet_world (Ok false) true 5 7 3 export_example (session_start headed_store))
    = Ok {| ir_writer_fence := 4; ir_head_version := 5 |}) as Hr by (vm_compute; reflexivity).
  rewrite H in Hr. simpl in Hr. rewrite Hr in Hi. exists s. split; [now rewrite Hr|exact Hi].
Defined.

(** The peer holds an empty spool of an older assignment, which the head names
    as retired. *)
Definition older_residue : ReplicaResidue :=
  {| rr_source := 1; rr_peer := 2; rr_assignment_epoch := 3; rr_bytes := [] |}.
Definition retiring_head : HeadRecord :=
  {| head_volume := 7; head_holder := 1; head_fence := 3; head_manifest := None;
     head_stash := head_stash recovery_head_example;
     head_retired_stashes := [{| rs_peer := 2; rs_assignment_epoch := 3; rs_through := sample_info |}] |}.
Lemma retry_after_claim_witness :
  export_replica_recovery 1 7 3 retiring_head [residue_example; older_residue] ∅ = Ok export_example
  /\ forall e, export_replica_recovery 1 7 4 (rc_head (prepare_replica_recovery_claim 3 retiring_head 5 export_example))
                 [residue_example; older_residue] ∅ <> Ok e.
Proof.
  assert (export_replica_recovery 1 7 3 retiring_head [residue_example; older_residue] ∅ = Ok export_example) as He
    by (vm_compute; reflexivity).
  split; [exact He|]. intros e.
  apply (proj2 (retry_after_claim 1 7 3 retiring_head [residue_example; older_residue] ∅ export_example 4 5 He) older_residue);
    [right; now left|discriminate|vm_compute; discriminate].
Defined.
